(* ===== verification/_CoqProject ===== *)
-Q . S2P
Prelude.v
StatusCodeRules.v
AdvancedCustom.v
JsValue.v
JsText.v
JsonText.v
JsonPretty.v
JsObject.v
AdvancedCustomText.v
ChannelForm.v
ModelMapping.v
ChannelSave.v
ParamOverride.v
ParamEditor.v
ChannelTools.v
RatioSync.v
Base64.v
Passkey.v
OrganizationBilling.v
Zod.v
Regex.v
RequestRules.v
RequestRulesText.v
BillingTiers.v
TaskExpr.v
TaskExprText.v
TaskMatrix.v
TierExpr.v
TierExprText.v
StudioStorage.v
ImageJobs.v
VideoJobs.v
AccountContext.v
AuthSession.v
HttpClient.v
Flow.v
Playground.v
PlaygroundStorage.v
StreamController.v
Idempotency.v
ChatHandler.v
ChatSession.v
