(* ===== verification/Prelude.v ===== *)
(** * The CubeRouter dashboard: a verification library

    CubeRouter is an AI gateway: a Go server relays model requests to channels, and
    a TypeScript dashboard (web/src) administers it.  This library models the logic
    of the dashboard that is more than rendering: who is signed in, how requests go
    out and fail, how a streamed answer becomes a message, what is stored and found
    again, what is saved into the configuration of channels and prices, and what the
    usage charts add up to.

    ** The parts and the files

    Paths are relative to web/src; f/ stands for features/.

    The language:
    - Prelude.v: strings as lists of 16-bit code units with the string functions of
      the language ([split_on], [trim], [indexOf], [slice], [join]), decimal text,
      stable sorting by a comparison function ([js_sort], interface [Comparator]),
      maps that keep the order of insertion ([mget], [mset], [mupdate], [accumulate]),
      sums, tactics and the rewrite database [cube].
    - JsValue.v: values of type [unknown], numbers as reals with NaN and the
      infinities.  JsText.v: the text of a number, reading one, trimming, exceptions.
      JsonText.v and JsonPretty.v: JSON.parse and JSON.stringify, without and with
      indentation, and that each reads what the other writes.  JsObject.v: objects,
      spread, optional members.  Base64.v: atob and btoa.  Regex.v: regular
      expressions as terms with a matcher.  Zod.v: the validation library as a class
      with the laws that are relied on.

    The session and the requests:
    - AccountContext.v: stores/account-context-store.ts, lib/account-context.ts.
    - AuthSession.v: stores/auth-store.ts, lib/auth-session.ts,
      lib/auth-session-sync.ts, lib/session-hint.ts.
    - HttpClient.v: lib/http-client.ts, lib/server-error-message.ts, lib/base-path.ts.
    - Idempotency.v: f/organization/lib/organization-idempotency.ts.
    - Passkey.v: lib/passkey.ts, over Base64.v.

    The playground:
    - StreamController.v: f/playground/hooks/use-stream-request.ts and
      lib/streaming/stream-utils.ts.
    - Playground.v: f/playground/lib/message/ and the payload builder.
    - ChatHandler.v: hooks/use-chat-handler.ts, lib/streaming/request-error-utils.ts.
    - ChatSession.v: hooks/use-playground-conversation.ts, and the composition.
    - PlaygroundStorage.v: lib/storage/ and hooks/use-playground-state.ts.

    The media studio:
    - StudioStorage.v: lib/studio-storage.ts, video-storage.ts, history-storage.ts.
    - ImageJobs.v: lib/image-jobs.ts and hooks/use-workflow.ts.
    - VideoJobs.v: hooks/use-video.ts, lib/video-pending.ts, the requests of videos.

    Channels:
    - AdvancedCustom.v and AdvancedCustomText.v: lib/advanced-custom.ts of f/channels,
      the typed configuration and its text.
    - ChannelForm.v: lib/channel-form.ts.  ModelMapping.v: the checks of mappings and
      status codes.  ChannelSave.v: the permissions, the mutation, and onSubmit of
      components/drawers/channel-mutate-drawer.tsx.
    - StatusCodeRules.v: lib/http-status-code-rules.ts.
    - ParamOverride.v and ParamEditor.v: the dialog of parameter overrides, its data
      and its state.
    - ChannelTools.v: the rows by tag, the fields saved a moment after their change.

    Prices and accounting:
    - RequestRules.v, RequestRulesText.v, BillingTiers.v, TaskExpr.v, TaskExprText.v,
      TaskMatrix.v, TierExpr.v, TierExprText.v: f/pricing/lib, the expressions and
      the visual editors that write and read them.
    - RatioSync.v: f/system-settings/models/upstream-ratio-sync-helpers.ts, the table
      and the page beside it.
    - OrganizationBilling.v: f/organization/lib/organization-billing.ts.
    - Flow.v: f/dashboard/lib/flow.ts.

    ** How they interact

    The HTTP client reads the token of AuthSession and the headers and key of
    AccountContext, and its error interceptor calls the refresh of AuthSession; a
    sign-out resets the account context.  The stream controller asks AuthSession for
    headers; its callbacks are the events of ChatHandler, which gathers the chunks and
    updates the messages of Playground.  ChatSession puts the conversation hook, the
    handler and the controller together into one machine ([page_call_step],
    [deliver1]) and proves that it implements the machine of a chat over what is heard
    ([heard]): a function of the requests and the messages of the server alone, which
    does not mention the controller or the handler.  PlaygroundStorage saves the
    messages of Playground.  ImageJobs and VideoJobs run over the histories of
    StudioStorage: image jobs with any number of tabs over one database; video jobs
    with any number of tabs over one record and one history ([browser_step]), each tab
    being the page of [video_step], and the theorems on tasks are for a studio that is
    open in one tab at a time.  ChannelForm embeds the routes of AdvancedCustomText;
    ChannelSave composes the permissions, the checks of ModelMapping and the payloads
    of ChannelForm; ParamEditor is a machine over the rules of ParamOverride, and what
    it saves is set against the check of the form.

    ** How the code is modelled

    - A store is a record and each of its actions a function on it ([AuthState] with
      [setBundle], [Editor] with [removeOperation]).
    - An [async] function is cut at its [await]s into the synchronous segments the
      event loop runs without interruption ([run_begin], [run_response],
      [run_resume]).  Interleaving is then a sequence of segments: step relations with
      rule induction over them ([tab_step], [get_step], [step] of the controller) or a
      list of events ([page_run], [chat_run], [browser_run]).  A functional update
      given to the renderer is data that runs later ([Update], [render]); whether it
      runs at once is a flag of the event.
    - Objects keep the order of their members, since the order is in the JSON text.
      Numbers that are written or read are those of JsText; counts and quotas are
      [Z]: the dashboard adds integers far below 2^53, where doubles are exact.
    - Errors are values of [option] or of a sum; a thrown error is [Throw], [inl] or
      [None].
    - Ids, random suffixes, clocks, and whether the browser takes a text or commits a
      transaction, are arguments, never constants.
    - What is not under web/src is an argument with the documented behaviour relied on
      as a hypothesis or a law of a class: [localeCompare], [encodeURIComponent], the
      URL parser, the translator, the validation library, the form library.  A theorem
      with such a hypothesis has a witness with a concrete function.

    ** Fuel and bounds

    Loops are folds or structural.  Where they are not, the fuel comes from the length
    of the text: the search of [parseThinkTags] ([parseThinkTags_total] proves that
    it is enough on every text), the star of a regular expression ([star_fuel]: more
    changes nothing, each turn takes a unit), the readers of JSON and of the
    expressions, whose theorems read back every printed text.  A refresh run is driven by the
    list of its responses, and [run_terminates] proves that eight of them end it.  The
    bounds of the code are the code's own: a hundred messages, 120000 characters and
    1 MiB of a conversation, 50 image and 20 video jobs and the bytes of a history, two
    attempts of a
    request.

    ** What is shown

    - Session: a sign-out is not undone by the refresh in flight; what each answer to
      a refresh leaves; a refresh ends.  Requests: a request is sent at most twice, the
      second time only if it may be retried and after a refresh that succeeded; a
      second refusal signs out.  Organization operations: one key per intent until
      success.
    - Playground: a superseded request is silent, callbacks come in order, the page
      implements the chat that is heard, how an answer is cut into chunks does not
      matter, an ended answer is settled, a conversation is found again.
    - Media studio: an image job is one at a time and leaves when its result is kept
      or it was refused, a result is delivered; a video task is resumed and kept once;
      histories are ordered and bounded and keep the newest.
    - Channels: the validator of routes is equivalent to conditions stated apart from
      it ([route_ok]); the texts of routes, overrides and forms are read back; an
      operator without the permission changes nothing sensitive and loses nothing else;
      a submission is checked and answered; the editor of overrides stays sound.
    - Prices: visual rules, tiers and task prices are read back from their text; a sync
      changes the selected cells and no others, and asks before it removes.
    - Accounting: conservation at every node of the flow chart; the rows by tag; the
      exported table is read back by an independent reader.

    Where the code does not do what it says, a theorem or an example shows it.
    Session and requests: [mismatch_keeps_account_context], [inherited_code_found].
    Playground: [cut_tag_leaves_reasoning], [repeated_increment_is_lost],
    [batching_loses_text], [stop_drops_waiting_text], [sanitize_leaves_earlier],
    [oversized_conversation_lost], [closing_loses_conversation],
    [repeated_headings_lose_start].  Media studio: [left_page_keeps_video_twice],
    [two_tabs_keep_video_twice], [two_tabs_forget_task], [old_download_forgets_task],
    [finished_video_lost].  Channels: [base_url_unstable], [plugin_change_dropped],
    [shown_address_not_saved], [comma_stays_missing], [entry_refused_late],
    [third_part_ignored], [text_becomes_number], [other_members_lost],
    [null_rule_throws], [prune_edits_ignored], [advanced_refused], [space_dropped],
    [list_saved], [minus_one_counts_as_none], [group_repeated], [short_key_shown].
    Prices: [param_tests_not_read], [bad_escape_throws], [parenthesis_not_read],
    [malformed_price_kept], [quoted_label_not_read], [updater_runs_twice],
    [price_under_expression], [both_ways_loses_ratios].  Accounting:
    [masking_reorders_nodes], [empty_row_lost], [half_month].

    ** What is not modelled

    Components and routes (rendering), translations, the transport of HTTP, of server
    events and of tab messages, the colours and tooltips of the flow chart, the canvas
    and the files of the media studio, the pages of the organization center, the
    evaluation of a price expression, and the Go server, of which ChannelSave and
    RatioSync take what they need as stated.  Callbacks of the stream controller are
    taken not to call the controller again, as its only caller does not. *)

From stdpp Require Export base tactics decidable option list numbers strings gmap.
From Stdlib Require Export ZArith Lia Sorting.Sorted.

#[global] Open Scope Z_scope.

(** ** Strings of the language

    A JavaScript string is a sequence of 16-bit code units; [jstring] keeps the
    code units as numbers, so that [length], [slice] and [indexOf] count what
    the language counts.  [js] writes an ASCII literal. *)

Abbreviation jstring := (list N).

Definition js (s : string) : jstring :=
  map Ascii.N_of_ascii (String.list_ascii_of_string s).

#[global] Arguments js : simpl never.

(** Code units the sources name. *)
Definition ch_comma : N := 44.
Definition ch_dash : N := 45.
Definition ch_slash : N := 47.
Definition ch_colon : N := 58.
Definition ch_semi : N := 59.
Definition ch_eq : N := 61.
Definition ch_quote : N := 34.
Definition ch_backslash : N := 92.
(** U+FF0C FULLWIDTH COMMA, the Chinese comma of an input method. *)
Definition ch_fullwidth_comma : N := 65292.

Definition jeqb (a b : jstring) : bool := bool_decide (a = b).

(** [Boolean(s)] for a string: a string is falsy exactly when it is empty. *)
Definition truthy (s : jstring) : bool :=
  match s with [] => false | _ :: _ => true end.

(** [a || b] on strings. *)
Definition jor (a b : jstring) : jstring := if truthy a then a else b.

(** [a ?? b] on an optional value, and [a || b] on an optional string. *)
Definition coalesce {A} (a : option A) (b : A) : A := from_option id b a.
Definition ojor (a : option jstring) (b : jstring) : jstring := jor (coalesce a []) b.

(** WhiteSpace and LineTerminator code units: what [trim] strips and what the
    class [\s] of a regular expression matches. *)
Definition is_ws (c : N) : bool :=
  (((9 <=? c) && (c <=? 13)) || (c =? 32) || (c =? 160) || (c =? 5760)
   || ((8192 <=? c) && (c <=? 8202)) || (c =? 8232) || (c =? 8233)
   || (c =? 8239) || (c =? 8287) || (c =? 12288) || (c =? 65279))%N.

Fixpoint drop_while {A} (f : A -> bool) (l : list A) : list A :=
  match l with
  | [] => []
  | x :: l' => if f x then drop_while f l' else l
  end.

Definition trimStart (s : jstring) : jstring := drop_while is_ws s.
Definition trimEnd (s : jstring) : jstring := rev (trimStart (rev s)).
Definition trim (s : jstring) : jstring := trimEnd (trimStart s).

(** [toLowerCase] on the letters of ASCII. *)
Definition ascii_lower (c : N) : N := if ((65 <=? c) && (c <=? 90))%N then (c + 32)%N else c.

Fixpoint startsWith (s p : jstring) {struct p} : bool :=
  match p, s with
  | [], _ => true
  | c :: p', d :: s' => (c =? d)%N && startsWith s' p'
  | _ :: _, [] => false
  end.

Definition endsWith (s p : jstring) : bool := startsWith (rev s) (rev p).

(** [s.indexOf(p)] and [s.indexOf(p, from)] as an option instead of -1. *)
Fixpoint indexOf (s p : jstring) : option nat :=
  if startsWith s p then Some 0%nat
  else match s with
       | [] => None
       | _ :: s' => S <$> indexOf s' p
       end.

Definition indexOf_from (s p : jstring) (from : nat) : option nat :=
  Nat.add from <$> indexOf (drop from s) p.

Definition includes (s p : jstring) : bool :=
  match indexOf s p with Some _ => true | None => false end.

(** [s.slice(i, j)] for [0 <= i], [0 <= j]. *)
Definition slice (s : jstring) (i j : nat) : jstring := take (j - i) (drop i s).

(** [s.split(c)] for a one-unit separator: never the empty list. *)
Fixpoint split_on (c : N) (s : jstring) : list jstring :=
  match s with
  | [] => [[]]
  | d :: s' =>
      if (d =? c)%N then [] :: split_on c s'
      else match split_on c s' with
           | [] => [[d]]
           | w :: ws => (d :: w) :: ws
           end
  end.

(** [l.join(sep)]. *)
Fixpoint join (sep : jstring) (l : list jstring) : jstring :=
  match l with
  | [] => []
  | [w] => w
  | w :: l' => w ++ sep ++ join sep l'
  end.

(** [s.replaceAll(a, b)] for one-unit [a] and [b]. *)
Definition replace_unit (a b : N) (s : jstring) : jstring :=
  map (fun c => if (c =? a)%N then b else c) s.

(** *** Decimal numerals *)

Definition is_digit (c : N) : bool := (48 <=? c)%N && (c <=? 57)%N.

Fixpoint dec_go (fuel : nat) (n : N) (acc : jstring) : jstring :=
  match fuel with
  | O => acc
  | S f =>
      let acc' := (48 + n mod 10)%N :: acc in
      if (n / 10 =? 0)%N then acc' else dec_go f (n / 10)%N acc'
  end.

(** [String(n)] for a natural number; [N.log2 n + 1] digits are enough. *)
Definition dec_of_N (n : N) : jstring := dec_go (S (N.to_nat (N.log2 n))) n [].

(** [String(z)] for an integer below 10^21 in absolute value. *)
Definition dec_of_Z (z : Z) : jstring :=
  if (z <? 0)%Z then ch_dash :: dec_of_N (Z.to_N (- z)) else dec_of_N (Z.to_N z).

(** The value of a run of decimal digits, [Number.parseInt(s, 10)]. *)
Definition dec_val_from (acc : N) (s : jstring) : N :=
  foldl (fun a d => (10 * a + (d - 48))%N) acc s.
Definition dec_val (s : jstring) : N := dec_val_from 0 s.

(** *** [Array.prototype.sort]

    The sort of the language is stable; insertion from the right before the
    first element that is not smaller is the stable sort of a comparator. *)

Section Sort.
Context {A : Type} (cmp : A -> A -> Z).

Fixpoint sort_insert (x : A) (l : list A) : list A :=
  match l with
  | [] => [x]
  | y :: l' => if cmp x y <=? 0 then x :: y :: l' else y :: sort_insert x l'
  end.

Definition js_sort (l : list A) : list A := foldr sort_insert [] l.
End Sort.

(** What [sort] asks of its comparator. *)
Class Comparator {A} (cmp : A -> A -> Z) : Prop := {
  cmp_total : forall x y, cmp x y <= 0 \/ cmp y x <= 0;
  cmp_trans : forall x y z, cmp x y <= 0 -> cmp y z <= 0 -> cmp x z <= 0
}.

Definition cmp_le {A} (cmp : A -> A -> Z) (x y : A) : Prop := cmp x y <= 0.

(** ** Automation *)

Create HintDb cube.
Create Rewrite HintDb cube.

(** Case on every boolean comparison and match of the goal, then simplify. *)
Ltac cases_on_bools :=
  repeat match goal with
         | |- context [if ?b then _ else _] => destruct b eqn:?
         | H : context [if ?b then _ else _] |- _ => destruct b eqn:?
         end.

(** Turn boolean facts into propositions. *)
Ltac reflect_bools :=
  repeat match goal with
         | H : _ && _ = true |- _ => apply andb_true_iff in H as [? ?]
         | H : _ || _ = false |- _ => apply orb_false_iff in H as [? ?]
         | H : negb _ = true |- _ => apply negb_true_iff in H
         | H : negb _ = false |- _ => apply negb_false_iff in H
         | H : (_ =? _)%N = true |- _ => apply N.eqb_eq in H
         | H : (_ =? _)%N = false |- _ => apply N.eqb_neq in H
         | H : (_ =? _)%Z = true |- _ => apply Z.eqb_eq in H
         | H : (_ =? _)%Z = false |- _ => apply Z.eqb_neq in H
         | H : (_ <=? _)%Z = true |- _ => apply Z.leb_le in H
         | H : (_ <=? _)%Z = false |- _ => apply Z.leb_gt in H
         | H : (_ <? _)%Z = true |- _ => apply Z.ltb_lt in H
         | H : (_ <? _)%Z = false |- _ => apply Z.ltb_ge in H
         | H : (_ <=? _)%N = true |- _ => apply N.leb_le in H
         | H : (_ <=? _)%N = false |- _ => apply N.leb_gt in H
         | H : bool_decide _ = true |- _ => apply bool_decide_eq_true_1 in H
         | H : bool_decide _ = false |- _ => apply bool_decide_eq_false_1 in H
         end.

(** Build a [Forall], a [StronglySorted] or a conjunction out of hypotheses. *)
Ltac build := repeat first [done | constructor].

(** ** Lemmas on strings *)

Lemma jeqb_eq a b : jeqb a b = true <-> a = b.
Proof. apply bool_decide_eq_true. Qed.

Lemma jeqb_neq a b : jeqb a b = false <-> a <> b.
Proof. apply bool_decide_eq_false. Qed.

Lemma jeqb_refl a : jeqb a a = true.
Proof. by apply jeqb_eq. Qed.

Lemma truthy_true s : truthy s = true <-> s <> [].
Proof. destruct s; naive_solver. Qed.

Lemma truthy_false s : truthy s = false <-> s = [].
Proof. destruct s; naive_solver. Qed.

#[export] Hint Resolve jeqb_refl : cube.

Lemma jor_nil_r s : jor s [] = s.
Proof. by destruct s. Qed.

Lemma jor_truthy s t : truthy s = true -> jor s t = s.
Proof. unfold jor. by intros ->. Qed.

Section DropWhile.
Context {A : Type} (f : A -> bool).

Lemma drop_while_idem l : drop_while f (drop_while f l) = drop_while f l.
Proof.
  induction l as [|x l IH]; [done|]. cbn. destruct (f x) eqn:E; [done|].
  cbn. by rewrite E.
Qed.

Lemma drop_while_id l : Forall (fun x => f x = false) l -> drop_while f l = l.
Proof. destruct 1 as [|x l Hx _]; [done|]. cbn. by rewrite Hx. Qed.

Lemma drop_while_suffix l : exists k, l = k ++ drop_while f l /\ Forall (fun x => f x = true) k.
Proof.
  induction l as [|x l [k [E Hk]]]; [by exists []|]. cbn. destruct (f x) eqn:Ex.
  - exists (x :: k). split; [by rewrite E at 1|by constructor].
  - by exists [].
Qed.

Lemma drop_while_app_stop l x k :
  f x = false -> exists l', drop_while f (l ++ x :: k) = l' ++ x :: k.
Proof.
  intros Hx. induction l as [|y l [l' IH]]; cbn.
  - rewrite Hx. by exists [].
  - destruct (f y); [eauto|]. by exists (y :: l).
Qed.
End DropWhile.

Lemma trim_id s : Forall (fun c => is_ws c = false) s -> trim s = s.
Proof.
  intros H. unfold trim, trimEnd, trimStart.
  rewrite (drop_while_id is_ws s H), drop_while_id by by apply Forall_rev.
  apply rev_involutive.
Qed.

Lemma trimStart_head s : trimStart s = [] \/ exists c s', trimStart s = c :: s' /\ is_ws c = false.
Proof.
  unfold trimStart. induction s as [|c s IH]; [by left|]. cbn.
  destruct (is_ws c) eqn:E; [done|]. right. eauto.
Qed.

(** What trimming keeps starts and ends with a unit that is not white space. *)
Lemma trim_shape s : trim s = [] \/ exists c l, trim s = c :: rev l /\ is_ws c = false /\
  drop_while is_ws (l ++ [c]) = l ++ [c].
Proof.
  unfold trim, trimEnd. destruct (trimStart_head s) as [->|(c & s' & -> & Hc)]; [by left|].
  right. cbn [rev]. unfold trimStart.
  destruct (drop_while_app_stop is_ws (rev s') c [] Hc) as [l E]. exists c, l.
  rewrite <- E, drop_while_idem, E. by rewrite rev_app_distr.
Qed.

Lemma trim_idem s : trim (trim s) = trim s.
Proof.
  destruct (trim_shape s) as [->|(c & l & -> & Hc & E)]; [done|].
  unfold trim, trimEnd, trimStart. cbn [drop_while]. rewrite Hc. cbn [rev].
  by rewrite rev_involutive, E, rev_app_distr.
Qed.

Lemma drop_while_length {A} (f : A -> bool) l : (length (drop_while f l) <= length l)%nat.
Proof. induction l as [|x l IH]; cbn; [lia|]. destruct (f x); cbn; lia. Qed.

Lemma trimStart_nil s : trimStart s = [] <-> Forall (fun c => is_ws c = true) s.
Proof.
  unfold trimStart. split.
  - induction s as [|x s IH]; cbn; [done|]. destruct (is_ws x) eqn:E; [|done]. intros H. constructor; auto.
  - induction 1 as [|x s Hx _ IH]; [done|]. cbn. by rewrite Hx.
Qed.

Lemma trim_nonblank c s : is_ws c = false -> truthy (trim (c :: s)) = true.
Proof.
  intros Hc. unfold trim, trimStart, trimEnd. cbn [drop_while]. rewrite Hc. unfold trimStart. cbn [rev].
  assert (forall l, drop_while is_ws (l ++ [c]) <> []) as H.
  { induction l as [|x l IH]; cbn; [by rewrite Hc|]. destruct (is_ws x); [done|discriminate]. }
  specialize (H (rev s)). destruct (drop_while is_ws (rev s ++ [c])) as [|x l]; [done|]. cbn.
  by destruct (rev l).
Qed.

Lemma trim_blank_all s : truthy (trim s) = false -> Forall (fun c => is_ws c = true) s.
Proof.
  intros H. apply trimStart_nil. destruct (trimStart_head s) as [|(c & s' & E & Hc)]; [done|].
  pose proof (trim_nonblank c s' Hc) as Hn. unfold trim in H, Hn. rewrite E in H. unfold trimStart in Hn. cbn [drop_while] in Hn. rewrite Hc in Hn.
  congruence.
Qed.

Lemma trim_length s : (length (trim s) <= length s)%nat.
Proof.
  unfold trim, trimEnd, trimStart. rewrite length_rev.
  etransitivity; [apply drop_while_length|]. rewrite length_rev. apply drop_while_length.
Qed.

Lemma trim_truthy_head s : truthy (trim s) = true ->
  exists c l, trim s = c :: l /\ is_ws c = false.
Proof.
  destruct (trim_shape s) as [->|(c & l & -> & Hc & _)]; [done|]. eauto.
Qed.

Lemma replace_unit_id a b s : Forall (fun c => c <> a) s -> replace_unit a b s = s.
Proof.
  unfold replace_unit. induction 1 as [|c s Hc _ IH]; [done|]. cbn.
  apply N.eqb_neq in Hc. by rewrite Hc, IH.
Qed.

Lemma split_on_cons c s : exists w ws, split_on c s = w :: ws.
Proof.
  induction s as [|d s (w & ws & IH)]; cbn; [eauto|].
  destruct (d =? c)%N; [eauto|]. rewrite IH. eauto.
Qed.

Lemma split_on_free c w : Forall (fun d => d <> c) w -> split_on c w = [w].
Proof.
  induction 1 as [|d w Hd _ IH]; [done|]. cbn. apply N.eqb_neq in Hd. by rewrite Hd, IH.
Qed.

Lemma split_on_app c w s :
  Forall (fun d => d <> c) w -> split_on c (w ++ c :: s) = w :: split_on c s.
Proof.
  induction 1 as [|d w Hd _ IH]; cbn.
  - by rewrite N.eqb_refl.
  - apply N.eqb_neq in Hd. by rewrite Hd, IH.
Qed.

(** Splitting undoes joining when no word holds the separator. *)
Lemma split_on_join c ws :
  ws <> [] -> Forall (Forall (fun d => d <> c)) ws -> split_on c (join [c] ws) = ws.
Proof.
  intros Hne H. induction H as [|w ws Hw Hws IH]; [done|].
  destruct ws as [|w' ws]; [by apply split_on_free|].
  change (join [c] (w :: w' :: ws)) with (w ++ c :: join [c] (w' :: ws)).
  rewrite split_on_app by done. by rewrite IH.
Qed.

(** Joining undoes splitting. *)
Lemma join_split_on c s : join [c] (split_on c s) = s.
Proof.
  induction s as [|d s IH]; [done|]. cbn. destruct (d =? c)%N eqn:E.
  - apply N.eqb_eq in E as ->. destruct (split_on_cons c s) as (w & ws & Hs).
    rewrite Hs in *. cbn in *. by rewrite IH.
  - destruct (split_on_cons c s) as (w & ws & Hs). rewrite Hs in *. cbn in *.
    destruct ws; cbn in *; by rewrite <- IH.
Qed.

Lemma join_Forall (P : N -> Prop) sep ws :
  Forall P sep -> Forall (Forall P) ws -> Forall P (join sep ws).
Proof.
  intros Hs. induction 1 as [|w ws Hw Hws IH]; [done|]. cbn.
  destruct ws; [done|]. by repeat (apply Forall_app; split).
Qed.

Lemma includes_unit c s : includes s [c] = true <-> c ∈ s.
Proof.
  unfold includes. induction s as [|d s IH]; cbn.
  { split; [done|]. by intros ?%elem_of_nil. }
  rewrite elem_of_cons. destruct (N.eqb_spec c d) as [->|Hn]; cbn; [tauto|].
  rewrite <- IH. destruct (indexOf s [c]); cbn; intuition.
Qed.

Lemma includes_unit_false c s : includes s [c] = false <-> Forall (fun d => d <> c) s.
Proof.
  rewrite <- not_true_iff_false, includes_unit, Forall_forall. split.
  - intros Hn d Hd ->. done.
  - intros H Hc. by apply (H c).
Qed.

(** *** Numerals *)

Lemma is_digit_mod n : is_digit (48 + n mod 10)%N = true.
Proof.
  unfold is_digit. pose proof (N.mod_lt n 10 ltac:(done)) as H.
  generalize dependent (n mod 10)%N. intros m Hm.
  apply andb_true_iff. split; apply N.leb_le; lia.
Qed.

Lemma dec_val_from_app a s t : dec_val_from a (s ++ t) = dec_val_from (dec_val_from a s) t.
Proof. apply foldl_app. Qed.

Lemma dec_go_spec fuel : forall n acc, (n < 10 ^ N.of_nat fuel)%N -> (0 < fuel)%nat ->
  exists ds, dec_go fuel n acc = ds ++ acc /\ ds <> [] /\
    Forall (fun c => is_digit c = true) ds /\ dec_val ds = n.
Proof.
  induction fuel as [|f IH]; intros n acc Hn Hf; [lia|]. cbn [dec_go].
  destruct (N.eqb_spec (n / 10) 0) as [E|E].
  - exists [(48 + n mod 10)%N]. repeat split; [done| |].
    + repeat constructor. apply is_digit_mod.
    + unfold dec_val, dec_val_from. cbn [foldl].
      apply N.div_small_iff in E; [|done]. rewrite N.mod_small by done. lia.
  - destruct f as [|f].
    { exfalso. apply E, N.div_small. done. }
    destruct (IH (n / 10)%N ((48 + n mod 10)%N :: acc)) as (ds & -> & Hne & Hd & Hv); [|lia|].
    + apply N.Div0.div_lt_upper_bound. rewrite <- N.pow_succ_r'.
      by replace (N.succ (N.of_nat (S f))) with (N.of_nat (S (S f))) by lia.
    + exists (ds ++ [(48 + n mod 10)%N]). repeat split.
      * by rewrite <- app_assoc.
      * by destruct ds.
      * apply Forall_app. split; [done|]. repeat constructor. apply is_digit_mod.
      * unfold dec_val. rewrite dec_val_from_app. fold (dec_val ds). rewrite Hv.
        unfold dec_val_from. cbn [foldl]. pose proof (N.Div0.div_mod n 10) as Hdm.
        set (q := (n / 10)%N) in *. set (m := (n mod 10)%N) in *. clearbody q m. lia.
Qed.

Lemma dec_of_N_spec n : dec_of_N n <> [] /\
  Forall (fun c => is_digit c = true) (dec_of_N n) /\ dec_val (dec_of_N n) = n.
Proof.
  unfold dec_of_N. edestruct (dec_go_spec (S (N.to_nat (N.log2 n))) n [])
    as (ds & -> & H); [|lia|by rewrite app_nil_r].
  rewrite Nat2N.inj_succ, N2Nat.id. destruct (N.eq_dec n 0) as [->|Hn]; [done|].
  eapply N.lt_le_trans; [apply N.log2_spec; lia|]. apply N.pow_le_mono_l. lia.
Qed.

Lemma dec_of_Z_nonneg z : 0 <= z -> dec_of_Z z = dec_of_N (Z.to_N z).
Proof. intros H. unfold dec_of_Z. destruct (Z.ltb_spec z 0); [lia|done]. Qed.

Lemma is_digit_not_ws c : is_digit c = true -> is_ws c = false.
Proof.
  unfold is_digit. intros H. reflect_bools. unfold is_ws.
  repeat (rewrite ?orb_false_iff, ?andb_false_iff; try split);
    rewrite ?N.eqb_neq, ?N.leb_gt; lia.
Qed.

Lemma is_digit_neq c d : is_digit c = true -> is_digit d = false -> c <> d.
Proof. intros Hc Hd ->. congruence. Qed.

(** *** The sort *)

Section SortFacts.
Context {A : Type} (cmp : A -> A -> Z).

Lemma sort_insert_perm x l : sort_insert cmp x l ≡ₚ x :: l.
Proof.
  induction l as [|y l IH]; [done|]. cbn. destruct (cmp x y <=? 0); [done|].
  rewrite IH. apply Permutation_swap.
Qed.

Lemma js_sort_cons x l : js_sort cmp (x :: l) = sort_insert cmp x (js_sort cmp l).
Proof. done. Qed.

Lemma js_sort_perm l : js_sort cmp l ≡ₚ l.
Proof.
  induction l as [|x l IH]; [done|]. by rewrite js_sort_cons, sort_insert_perm, IH.
Qed.

Lemma js_sort_elem_of x l : x ∈ js_sort cmp l <-> x ∈ l.
Proof. by rewrite js_sort_perm. Qed.

Lemma js_sort_length l : length (js_sort cmp l) = length l.
Proof. by rewrite js_sort_perm. Qed.

(** A sorted array is left as it is: the sort is stable. *)
Lemma js_sort_id l : StronglySorted (cmp_le cmp) l -> js_sort cmp l = l.
Proof.
  induction 1 as [|x l Hl IH Hx]; [done|]. rewrite js_sort_cons, IH.
  destruct Hx as [|y l Hxy _]; [done|]. cbn. unfold cmp_le in Hxy.
  by rewrite (proj2 (Z.leb_le _ _) Hxy).
Qed.

Context `{!Comparator cmp}.

Lemma sort_insert_sorted x l :
  StronglySorted (cmp_le cmp) l -> StronglySorted (cmp_le cmp) (sort_insert cmp x l).
Proof.
  induction 1 as [|y l Hl IH Hy]; cbn; [by repeat constructor|].
  destruct (Z.leb_spec (cmp x y) 0) as [Hxy|Hxy].
  - constructor; [by constructor|]. constructor; [done|].
    eapply Forall_impl; [done|]. intros z. cbn. by apply cmp_trans.
  - constructor; [done|]. rewrite sort_insert_perm. constructor; [|done].
    destruct (cmp_total x y); unfold cmp_le; lia.
Qed.

Lemma js_sort_sorted l : StronglySorted (cmp_le cmp) (js_sort cmp l).
Proof. induction l; cbn; [constructor|by apply sort_insert_sorted]. Qed.
End SortFacts.

#[export] Hint Resolve js_sort_perm is_digit_not_ws : cube.

(** ** Lemmas on lists *)

Lemma StronglySorted_snoc {A} (R : A -> A -> Prop) l x :
  StronglySorted R l -> Forall (fun y => R y x) l -> StronglySorted R (l ++ [x]).
Proof.
  induction 1 as [|y l Hl IH Hy]; intros Hx; cbn; [by repeat constructor|].
  apply Forall_cons in Hx as [Hyx Hx]. constructor; [auto|].
  apply Forall_app. by repeat constructor.
Qed.

Lemma StronglySorted_rev {A} (R : A -> A -> Prop) l :
  StronglySorted R l -> StronglySorted (fun x y => R y x) (rev l).
Proof.
  induction 1 as [|y l Hl IH Hy]; cbn; [constructor|].
  apply StronglySorted_snoc; [done|]. by apply Forall_rev.
Qed.

Lemma Forall_true_filter {A} (f : A -> bool) l :
  Forall (fun x => f x = true) l -> List.filter f l = l.
Proof. induction 1 as [|x l Hx _ IH]; [done|]. cbn. by rewrite Hx, IH. Qed.

Lemma filter_negb_nil {A} (f : A -> bool) l :
  List.filter (fun x => negb (f x)) l = [] <-> forallb f l = true.
Proof.
  induction l as [|x l IH]; [done|]. cbn. destruct (f x); cbn; [done|]. by split.
Qed.

Lemma filter_Forall {A} (f : A -> bool) l : Forall (fun x => f x = true) (List.filter f l).
Proof. apply List.Forall_forall. intros x Hx. by apply filter_In in Hx as [_ Hx]. Qed.

Lemma map_ext_Forall {A B} (f g : A -> B) l :
  Forall (fun x => f x = g x) l -> map f l = map g l.
Proof. induction 1 as [|x l Hx _ IH]; [done|]. cbn. by rewrite Hx, IH. Qed.

Lemma StronglySorted_impl {A} (R S : A -> A -> Prop) l :
  (forall x y, R x y -> S x y) -> StronglySorted R l -> StronglySorted S l.
Proof.
  intros HRS. induction 1 as [|x l Hl IH Hx]; constructor; [done|].
  eapply Forall_impl; [apply Hx|]. auto.
Qed.

(** [[...new Set(l)]]: the first occurrence of every element, in order. *)
Fixpoint uniq_go {A} `{EqDecision A} (seen l : list A) : list A :=
  match l with
  | [] => []
  | x :: l' => if bool_decide (x ∈ seen) then uniq_go seen l' else x :: uniq_go (x :: seen) l'
  end.
Definition uniq {A} `{EqDecision A} (l : list A) : list A := uniq_go [] l.

Lemma uniq_go_elem {A} `{EqDecision A} (l : list A) : forall seen x,
  x ∈ uniq_go seen l <-> x ∈ l /\ x ∉ seen.
Proof.
  induction l as [|y l IH]; intros seen x; cbn; [set_solver|].
  case_bool_decide; rewrite ?elem_of_cons, IH.
  - set_solver.
  - destruct (decide (x = y)); set_solver.
Qed.

Lemma uniq_go_NoDup {A} `{EqDecision A} (l : list A) : forall seen, NoDup (uniq_go seen l).
Proof.
  induction l as [|y l IH]; intros seen; cbn; [constructor|].
  case_bool_decide; [done|]. constructor; [|done]. rewrite uniq_go_elem. set_solver.
Qed.

Lemma uniq_elem {A} `{EqDecision A} (l : list A) x : x ∈ uniq l <-> x ∈ l.
Proof. unfold uniq. rewrite uniq_go_elem. set_solver. Qed.

Lemma uniq_NoDup {A} `{EqDecision A} (l : list A) : NoDup (uniq l).
Proof. apply uniq_go_NoDup. Qed.

Lemma uniq_go_id {A} `{EqDecision A} (l : list A) : forall seen,
  NoDup l -> (forall x, x ∈ l -> x ∉ seen) -> uniq_go seen l = l.
Proof.
  induction l as [|y l IH]; intros seen Hl Hs; cbn; [done|].
  apply NoDup_cons in Hl as [Hy Hl]. rewrite bool_decide_eq_false_2 by (apply Hs; set_solver).
  f_equal. apply IH; [done|]. set_solver.
Qed.

Lemma uniq_id {A} `{EqDecision A} (l : list A) : NoDup l -> uniq l = l.
Proof. intros H. apply uniq_go_id; [done|]. set_solver. Qed.

(** [l.find(f)], [l.findIndex(f)]. *)
Fixpoint find_index {A} (f : A -> bool) (l : list A) : option nat :=
  match l with
  | [] => None
  | x :: l' => if f x then Some 0%nat else S <$> find_index f l'
  end.

Lemma startsWith_app s p : startsWith s p = true <-> exists k, s = p ++ k.
Proof.
  revert s. induction p as [|c p IH]; intros s; cbn; [by split; [exists s|]|].
  destruct s as [|d s]; [split; [done|by intros [k ?]]|].
  rewrite andb_true_iff, N.eqb_eq, IH. split.
  - intros [-> [k ->]]. by exists k.
  - intros [k [= -> ->]]. eauto.
Qed.

Lemma ForallOrdPairs_cons {A} (R : A -> A -> Prop) x l :
  ForallOrdPairs R (x :: l) <-> Forall (R x) l /\ ForallOrdPairs R l.
Proof. split; [by inversion 1|]. intros [? ?]. by constructor. Qed.

Lemma ForallOrdPairs_snoc {A} (R : A -> A -> Prop) l x :
  ForallOrdPairs R (l ++ [x]) <-> ForallOrdPairs R l /\ Forall (fun y => R y x) l.
Proof.
  induction l as [|y l IH]; cbn; rewrite ?ForallOrdPairs_cons.
  - split; intros; by build.
  - rewrite IH, Forall_app, Forall_singleton, Forall_cons. tauto.
Qed.

Lemma find_index_Some {A} (f : A -> bool) l i : find_index f l = Some i ->
  exists l1 x l2, l = l1 ++ x :: l2 /\ length l1 = i /\ f x = true /\
    Forall (fun y => f y = false) l1.
Proof.
  revert i. induction l as [|y l IH]; intros i H; [done|]. cbn in H.
  destruct (f y) eqn:E; [exists [], y, l; by simplify_eq|].
  destruct (find_index f l) as [j|]; [|done]. simplify_eq/=.
  destruct (IH j eq_refl) as (l1 & x & l2 & -> & <- & Hx & Hl).
  exists (y :: l1), x, l2. by build.
Qed.

Lemma find_index_None {A} (f : A -> bool) l :
  find_index f l = None <-> Forall (fun y => f y = false) l.
Proof.
  induction l as [|y l IH]; cbn; [done|]. rewrite Forall_cons.
  destruct (f y) eqn:E; [naive_solver|]. rewrite <- IH. destruct (find_index f l); naive_solver.
Qed.

Lemma find_app {A} (f : A -> bool) l k : Forall (fun y => f y = false) l ->
  List.find f (l ++ k) = List.find f k.
Proof. induction 1 as [|y l Hy _ IH]; [done|]. cbn. by rewrite Hy. Qed.

Lemma find_skip {A} (f : A -> bool) l x k : f x = false ->
  List.find f (l ++ x :: k) = List.find f (l ++ k).
Proof.
  intros Hx. induction l as [|y l IH]; cbn; [by rewrite Hx|]. by rewrite IH.
Qed.

Lemma filter_filter {A} (f g : A -> bool) l :
  List.filter f (List.filter g l) = List.filter (fun x => f x && g x) l.
Proof.
  induction l as [|x l IH]; [done|]. cbn. destruct (g x); cbn; [|by rewrite andb_false_r].
  rewrite andb_true_r, <- IH. done.
Qed.

Lemma Forall_false_filter {A} (f : A -> bool) l :
  Forall (fun x => f x = false) l -> List.filter f l = [].
Proof. induction 1 as [|x l Hx _ IH]; [done|]. cbn. by rewrite Hx. Qed.

(** ** Maps and sets in insertion order

    A [Map] of the language keeps its entries in the order the keys were first
    set; setting a key again keeps its place.  A [Set] is the list of its
    elements in the order they were added. *)

Section JsMap.
Context {K V : Type} `{EqDecision K}.

Fixpoint mget (m : list (K * V)) (k : K) : option V :=
  match m with
  | [] => None
  | (k', v) :: m' => if decide (k' = k) then Some v else mget m' k
  end.

Fixpoint mset (m : list (K * V)) (k : K) (v : V) : list (K * V) :=
  match m with
  | [] => [(k, v)]
  | (k', v') :: m' => if decide (k' = k) then (k', v) :: m' else (k', v') :: mset m' k v
  end.

(** [const previous = m.get(k) ?? init; m.set(k, f(previous))] *)
Definition mupdate (m : list (K * V)) (k : K) (init : V) (f : V -> V) : list (K * V) :=
  mset m k (f (coalesce (mget m k) init)).

Lemma mget_mset m k v k' : mget (mset m k v) k' = if decide (k = k') then Some v else mget m k'.
Proof.
  induction m as [|[k0 v0] m IH]; cbn; [done|]. destruct (decide (k0 = k)) as [->|]; cbn.
  - by destruct (decide (k = k')).
  - rewrite IH. destruct (decide (k0 = k')), (decide (k = k')); congruence.
Qed.

Lemma mget_In m k v : mget m k = Some v -> In (k, v) m.
Proof.
  induction m as [|[k0 v0] m IH]; cbn; [done|]. destruct (decide (k0 = k)) as [->|]; [|auto].
  intros [= ->]. by left.
Qed.

Lemma mset_keys m k v : map fst (mset m k v) = if decide (k ∈ map fst m) then map fst m else map fst m ++ [k].
Proof.
  induction m as [|[k0 v0] m IH]; cbn; [done|].
  destruct (decide (k0 = k)) as [->|Hne]; cbn.
  - rewrite decide_True by by left. done.
  - rewrite IH. destruct (decide (k ∈ map fst m)).
    + by rewrite decide_True by by right.
    + rewrite decide_False; [done|]. rewrite elem_of_cons. intros [|]; congruence.
Qed.

Lemma mset_NoDup m k v : NoDup (map fst m) -> NoDup (map fst (mset m k v)).
Proof.
  intros H. rewrite mset_keys. case_decide; [done|]. apply NoDup_app. split; [done|].
  split; [|apply NoDup_singleton]. intros x Hx ->%list_elem_of_singleton. done.
Qed.

Lemma mget_None m k : mget m k = None <-> k ∉ map fst m.
Proof.
  induction m as [|[k0 v0] m IH]; cbn; [split; [by intros _ ?%not_elem_of_nil|done]|].
  rewrite elem_of_cons. destruct (decide (k0 = k)); [naive_solver|]. rewrite IH. naive_solver.
Qed.

Lemma mset_new m k v : mget m k = None -> mset m k v = m ++ [(k, v)].
Proof.
  induction m as [|[k0 v0] m IH]; cbn; [done|]. destruct (decide (k0 = k)); [done|]. intros H. by rewrite IH.
Qed.

Lemma In_mget m k v : NoDup (map fst m) -> In (k, v) m -> mget m k = Some v.
Proof.
  induction m as [|[k0 v0] m IH]; cbn; [done|]. intros [Hk Hm]%NoDup_cons [[= -> ->] | H].
  - by rewrite decide_True.
  - rewrite decide_False; [auto|]. intros ->. apply Hk.
    apply list_elem_of_fmap. exists (k, v). split; [done|]. by apply list_elem_of_In.
Qed.

(** Entries added up per key. *)
Section Accumulate.
Context {E : Type} (key : E -> K) (init : E -> V) (step : E -> V -> V).

Definition accumulate (m : list (K * V)) (es : list E) : list (K * V) :=
  foldl (fun m e => mupdate m (key e) (init e) (step e)) m es.
End Accumulate.
End JsMap.

(** [delete m[k]], [m.delete(k)] *)
Definition mdel {V} (m : list (jstring * V)) (k : jstring) : list (jstring * V) := List.filter (fun e => negb (jeqb e.1 k)) m.

Lemma mget_mdel {V} (m : list (jstring * V)) k k' : mget (mdel m k) k' = if decide (k = k') then None else mget m k'.
Proof.
  unfold mdel. induction m as [|[k0 v0] m IH]; cbn; [by case_decide|]. destruct (jeqb k0 k) eqn:E; cbn [negb mget].
  - apply jeqb_eq in E as ->. rewrite IH. by case_decide.
  - apply jeqb_neq in E. cbn. rewrite IH. destruct (decide (k0 = k')), (decide (k = k')); congruence.
Qed.

Lemma mdel_keys {V} (m : list (jstring * V)) k : NoDup (map fst m) -> NoDup (map fst (mdel m k)).
Proof.
  unfold mdel. induction m as [|[k0 v0] m IH]; cbn; [done|]. intros [Hk Hm]%NoDup_cons. destruct (negb _); cbn; [|by apply IH].
  apply NoDup_cons. split; [|by apply IH]. intros ([k1 v1] & -> & Hin)%list_elem_of_fmap. apply Hk. apply list_elem_of_fmap.
  exists (k1, v1). split; [done|]. apply list_elem_of_In, filter_In in Hin as [Hin _]. by apply list_elem_of_In.
Qed.

(** The sum of a list of integers. *)
Definition zsum (l : list Z) : Z := foldr Z.add 0 l.
Definition zsum_of {A} (f : A -> Z) (l : list A) : Z := zsum (map f l).

Lemma zsum_app l k : zsum (l ++ k) = zsum l + zsum k.
Proof. unfold zsum. induction l; cbn; lia. Qed.

Lemma zsum_of_app {A} (f : A -> Z) l k : zsum_of f (l ++ k) = zsum_of f l + zsum_of f k.
Proof. unfold zsum_of. by rewrite map_app, zsum_app. Qed.

Lemma zsum_of_ext {A} (f g : A -> Z) l : Forall (fun x => f x = g x) l -> zsum_of f l = zsum_of g l.
Proof. intros H. unfold zsum_of. f_equal. by apply map_ext_Forall. Qed.

Lemma zsum_of_plus {A} (f g : A -> Z) l : zsum_of (fun x => f x + g x) l = zsum_of f l + zsum_of g l.
Proof. unfold zsum_of, zsum. induction l; cbn; lia. Qed.

Lemma zsum_of_perm {A} (f : A -> Z) l k : l ≡ₚ k -> zsum_of f l = zsum_of f k.
Proof. unfold zsum_of, zsum. induction 1; cbn; lia. Qed.

Lemma zsum_of_flat_map {A B} (f : B -> Z) (g : A -> list B) l :
  zsum_of f (flat_map g l) = zsum_of (fun x => zsum_of f (g x)) l.
Proof.
  induction l; cbn [flat_map]; [done|]. rewrite zsum_of_app, IHl. done.
Qed.

Lemma zsum_of_filter {A} (f : A -> Z) (p : A -> bool) l :
  zsum_of f (List.filter p l) = zsum_of (fun x => if p x then f x else 0) l.
Proof. unfold zsum_of, zsum. induction l as [|x l IH]; cbn; [done|]. destruct (p x); cbn; lia. Qed.

Lemma zsum_of_zero {A} (f : A -> Z) l : Forall (fun x => f x = 0) l -> zsum_of f l = 0.
Proof. unfold zsum_of, zsum. induction 1; cbn; lia. Qed.

(** Selecting by what a key determines, the accumulated weights are those of the
    entries. *)
Lemma accumulate_sum {K V E B} `{EqDecision K} (key : E -> K) (init : E -> V) (step : E -> V -> V)
    (tag : V -> B) (tag0 : E -> B) (mu : V -> Z) (w : E -> Z) (p : B -> bool) es :
  (forall e e', In e es -> In e' es -> key e = key e' -> tag0 e = tag0 e') ->
  (forall e, tag (step e (init e)) = tag0 e /\ mu (step e (init e)) = w e) ->
  (forall e v, tag (step e v) = tag v /\ mu (step e v) = mu v + w e) ->
  zsum_of (fun kv => if p (tag kv.2) then mu kv.2 else 0) (accumulate key init step [] es) =
  zsum_of (fun e => if p (tag0 e) then w e else 0) es.
Proof.
  intros Hinj Hinit Hstep.
  cut (forall done, (forall e, In e done -> In e es) ->
    let m := accumulate key init step [] done in
    (forall k v, In (k, v) m -> exists e, In e done /\ key e = k /\ tag v = tag0 e) /\
    zsum_of (fun kv => if p (tag kv.2) then mu kv.2 else 0) m =
      zsum_of (fun e => if p (tag0 e) then w e else 0) done).
  { intros H. by apply (H es). }
  intros done. induction done as [|e done IH] using rev_ind; intros Hsub; [by split|].
  destruct IH as [Htag Hsum]; [intros; apply Hsub, in_or_app; by left|].
  unfold accumulate in *. rewrite foldl_snoc. set (m := foldl _ [] done) in *.
  rewrite zsum_of_app, <- Hsum. unfold mupdate. clear Hsum.
  assert (forall v, mget m (key e) = Some v -> tag v = tag0 e) as Hget.
  { intros v Hv. apply mget_In in Hv. destruct (Htag _ _ Hv) as (e' & He' & Hk & ->).
    apply Hinj; [apply Hsub, in_or_app; by left|apply Hsub, in_or_app; right; by left|done]. }
  set (v' := step e (coalesce (mget m (key e)) (init e))).
  assert (tag v' = tag0 e) as Hv'.
  { unfold v'. destruct (mget m (key e)) as [v|] eqn:E'; cbn; [|apply Hinit].
    rewrite (proj1 (Hstep e v)). auto. }
  split.
  - intros k v Hin.
    assert (In (k, v) m \/ k = key e /\ v = v') as [Hm | [-> ->]].
    { clear -Hin. induction m as [|[k0 v0] m IH]; cbn in *; [destruct Hin as [[=]|[]]; auto|].
      destruct (decide (k0 = key e)); destruct Hin as [[=]|]; subst; auto. destruct IH; auto. }
    + destruct (Htag _ _ Hm) as (e' & ? & ? & ?). exists e'. split; [apply in_or_app; by left|done].
    + exists e. split; [apply in_or_app; right; by left|done].
  - unfold v', coalesce in *. clear -Hv' Hget Hinit Hstep. cbn.
    induction m as [|[k0 v0] m IH]; cbn in *.
    + rewrite (proj1 (Hinit e)), (proj2 (Hinit e)). unfold zsum_of, zsum. cbn. lia.
    + destruct (decide (k0 = key e)); cbn in *; unfold zsum_of, zsum in *; cbn.
      * rewrite (proj1 (Hstep e v0)), (proj2 (Hstep e v0)), (Hget v0 eq_refl). destruct (p (tag0 e)); lia.
      * specialize (IH Hget Hv'). lia.
Qed.

Lemma accumulate_NoDup {K V E} `{EqDecision K} (key : E -> K) (init : E -> V) (step : E -> V -> V) es m :
  NoDup (map fst m) -> NoDup (map fst (accumulate key init step m es)).
Proof.
  revert m. induction es as [|e es IH]; intros m H; [done|]. cbn. by apply IH, mset_NoDup.
Qed.

Lemma In_mset {K V} `{EqDecision K} (m : list (K * V)) k v k' v' :
  In (k', v') (mset m k v) -> In (k', v') m \/ k' = k /\ v' = v.
Proof.
  induction m as [|[k0 v0] m IH]; cbn; [intros [[= <- <-] | []]; auto|].
  destruct (decide (k0 = k)) as [->|]; cbn; intros [[= <- <-] | H]; auto. destruct (IH H); auto.
Qed.

(** A property of the values that starting and growing an entry keep. *)
Lemma accumulate_Forall {K V E} `{EqDecision K} (key : E -> K) (init : E -> V) (step : E -> V -> V)
    (P : K -> V -> Prop) es m :
  (forall e, In e es -> P (key e) (init e)) ->
  (forall e k v, In e es -> P k v -> k = key e -> P k (step e v)) ->
  (forall k v, In (k, v) m -> P k v) ->
  forall k v, In (k, v) (accumulate key init step m es) -> P k v.
Proof.
  revert m. induction es as [|e es IH]; intros m Hi Hs Hm; [done|]. cbn. apply IH.
  - intros; apply Hi; by right.
  - intros; apply Hs; [by right|done|done].
  - intros k v [H | [-> ->]]%In_mset; [auto|]. apply Hs; [by left| |done].
    destruct (mget m (key e)) as [v|] eqn:E'; cbn; [apply Hm, mget_In, E'|apply Hi; by left].
Qed.

(** In a list with distinct keys, the entries with the key of an element are it alone. *)
Lemma zsum_of_unique {A K} `{EqDecision K} (key : A -> K) (f : A -> Z) l a :
  NoDup (map key l) -> In a l -> zsum_of (fun x => if bool_decide (key x = key a) then f x else 0) l = f a.
Proof.
  unfold zsum_of. induction l as [|x l IH]; [done|]. cbn [map]. intros [Hx Hl]%NoDup_cons [-> | Ha]; cbn.
  - rewrite bool_decide_eq_true_2 by done. fold (zsum (map (fun x => if bool_decide (key x = key a) then f x else 0) l)).
    fold (zsum_of (fun x => if bool_decide (key x = key a) then f x else 0) l). rewrite zsum_of_zero; [lia|].
    apply Forall_forall. intros y Hy. rewrite bool_decide_eq_false_2; [done|]. intros E. apply Hx. rewrite <- E.
    by apply list_elem_of_fmap_2.
  - rewrite bool_decide_eq_false_2; [rewrite <- IH by done; done|]. intros E. apply Hx. rewrite E.
    apply list_elem_of_fmap_2, list_elem_of_In, Ha.
Qed.

(** Sorting commutes with a map the comparator does not see. *)
Lemma js_sort_map {A B} (f : A -> B) (cmpA : A -> A -> Z) (cmpB : B -> B -> Z) l :
  (forall x y, cmpB (f x) (f y) = cmpA x y) -> js_sort cmpB (map f l) = map f (js_sort cmpA l).
Proof.
  intros H. assert (forall x k, sort_insert cmpB (f x) (map f k) = map f (sort_insert cmpA x k)) as Hi.
  { intros x k. induction k as [|y k IH]; cbn; [done|]. rewrite H. destruct (cmpA x y <=? 0); cbn; by rewrite ?IH. }
  induction l as [|x l IH]; [done|]. cbn [map]. unfold js_sort in *. cbn [foldr]. by rewrite IH, Hi.
Qed.

(** *** Texts with separators *)

(** A text without a separator up to it is determined by the whole. *)
Lemma app_sep_inj (c : N) a b x y :
  Forall (fun u => u <> c) a -> Forall (fun u => u <> c) b -> a ++ c :: x = b ++ c :: y -> a = b /\ x = y.
Proof.
  intros Ha Hb E. pose proof (f_equal (split_on c) E) as S. rewrite !split_on_app in S by done.
  injection S as -> _. by apply app_inv_head in E as [= ->].
Qed.

Lemma dec_of_N_free c n : is_digit c = false -> Forall (fun u => u <> c) (dec_of_N n).
Proof.
  intros Hc. destruct (dec_of_N_spec n) as (_ & F & _). eapply Forall_impl; [exact F|].
  intros u Hu ->. cbn in Hu. congruence.
Qed.

Lemma dec_of_Z_free c z : is_digit c = false -> c <> ch_dash -> Forall (fun u => u <> c) (dec_of_Z z).
Proof.
  intros Hc Hd. unfold dec_of_Z. destruct (z <? 0); [constructor; [done|]|]; by apply dec_of_N_free.
Qed.

(** *** The order of code units *)

(** Comparison by code units: the default order of [Array.prototype.sort], and a
    comparator to evaluate a model with. *)
Fixpoint unitCompare (a b : jstring) : Z :=
  match a, b with
  | [], [] => 0
  | [], _ => -1
  | _, [] => 1
  | x :: a, y :: b => if (x =? y)%N then unitCompare a b else if (x <? y)%N then -1 else 1
  end.

Lemma unitCompare_refl a : unitCompare a a = 0.
Proof. induction a as [|x a IH]; [done|]. cbn. by rewrite N.eqb_refl. Qed.

Lemma unitCompare_eq a b : unitCompare a b = 0 -> a = b.
Proof.
  revert b. induction a as [|x a IH]; intros [|y b]; cbn; try done.
  destruct (N.eqb_spec x y) as [->|]; [intros H; by rewrite (IH b H)|]. by destruct (x <? y)%N.
Qed.

Lemma unitCompare_opp a b : unitCompare b a = - unitCompare a b.
Proof.
  revert b. induction a as [|x a IH]; intros [|y b]; cbn; try done.
  rewrite (N.eqb_sym y x). destruct (N.eqb_spec x y) as [->|]; [apply IH|].
  destruct (N.ltb_spec x y), (N.ltb_spec y x); lia.
Qed.

#[export] Instance unitCompare_comparator : Comparator unitCompare.
Proof.
  split.
  - intros a b. rewrite (unitCompare_opp a b). lia.
  - intros a. induction a as [|x a IH]; intros [|y b] [|z c]; cbn; try lia.
    destruct (N.eqb_spec x y) as [->|], (N.eqb_spec y z) as [->|]; rewrite ?N.eqb_refl; try apply IH.
    + by intros _ ?.
    + rewrite (proj2 (N.eqb_neq x z)) by done. by intros ? _.
    + destruct (N.ltb_spec x y), (N.ltb_spec y z); try lia.
      intros _ _. rewrite (proj2 (N.eqb_neq x z)) by lia. by rewrite (proj2 (N.ltb_lt x z)) by lia.
Qed.
