(* ===== verification/StatusCodeRules.v ===== *)
(** * HTTP status-code rules (web/src/lib/http-status-code-rules.ts)

    The administrator types a rule such as [401, 500-503]; the page parses it
    into ranges, merges the ranges and shows the normalized text, which is what
    it saves.  The whole file is modelled. *)

From S2P Require Import Prelude.

Record StatusCodeRange := MkRange { start : Z; end_ : Z }.

#[export] Instance StatusCodeRange_eq_dec : EqDecision StatusCodeRange.
Proof. solve_decision. Defined.

Record ParsedHttpStatusCodeRules := MkParsed {
  ok : bool;
  ranges : list StatusCodeRange;
  tokens : list jstring;
  normalized : jstring;
  invalidTokens : list jstring
}.

(** ** Definitions *)

(** [/^\d+$/.test(s)] *)
Definition isNumber (s : jstring) : bool := truthy s && forallb is_digit s.

(** A code beyond 2^53 is rounded by [parseInt], but never into [100, 599]. *)
Definition isValidCode (code : Z) : bool := (100 <=? code) && (code <=? 599).

Definition parseInt (s : jstring) : Z := Z.of_N (dec_val s).

(** [const [a, b] = cleaned.split('-')] reads the first two parts; a missing [b]
    is [undefined], which [isNumber] refuses. *)
Definition parseToken (token : jstring) : option StatusCodeRange :=
  let cleaned := List.filter (fun c => negb (is_ws c)) (trim token) in
  if negb (truthy cleaned) then None
  else if includes cleaned [ch_dash] then
    match split_on ch_dash cleaned with
    | a :: b :: _ =>
        if negb (isNumber a) || negb (isNumber b) then None
        else
          let start := parseInt a in
          let end_ := parseInt b in
          if negb (isValidCode start) || negb (isValidCode end_) || (end_ <? start)
          then None else Some (MkRange start end_)
    | _ => None
    end
  else if negb (isNumber cleaned) then None
  else
    let code := parseInt cleaned in
    if negb (isValidCode code) then None else Some (MkRange code code).

Definition compareRanges (a b : StatusCodeRange) : Z :=
  if negb (start a =? start b) then start a - start b else end_ a - end_ b.

(** One step of the [reduce]; [merged] is kept last-first. *)
Definition mergeStep (merged : list StatusCodeRange) (current : StatusCodeRange)
    : list StatusCodeRange :=
  match merged with
  | [] => [current]
  | last :: rest =>
      if end_ last + 1 <? start current then current :: last :: rest
      else MkRange (start last) (Z.max (end_ last) (end_ current)) :: rest
  end.

Definition mergeRanges (ranges : list StatusCodeRange) : list StatusCodeRange :=
  match ranges with
  | [] => []
  | _ => rev (foldl mergeStep [] (js_sort compareRanges ranges))
  end.

Definition rangeToken (r : StatusCodeRange) : jstring :=
  if start r =? end_ r then dec_of_Z (start r)
  else dec_of_Z (start r) ++ ch_dash :: dec_of_Z (end_ r).

Definition ruleSegments (raw : jstring) : list jstring :=
  List.filter truthy (map trim (split_on ch_comma (replace_unit ch_fullwidth_comma ch_comma raw))).

(** The loop over the segments: the parsed ranges and the invalid segments. *)
Fixpoint parseSegments (segments : list jstring) : list StatusCodeRange * list jstring :=
  match segments with
  | [] => ([], [])
  | segment :: rest =>
      let (rs, bad) := parseSegments rest in
      match parseToken segment with
      | None => (rs, segment :: bad)
      | Some r => (r :: rs, bad)
      end
  end.

(** [None] is [undefined] or [null]; the callers pass strings. *)
Definition parseHttpStatusCodeRules (input : option jstring) : ParsedHttpStatusCodeRules :=
  let raw := trim (coalesce input []) in
  if negb (truthy raw) then MkParsed true [] [] [] []
  else
    let (ranges, invalid) := parseSegments (ruleSegments raw) in
    match invalid with
    | _ :: _ => MkParsed false [] [] raw invalid
    | [] =>
        let merged := mergeRanges ranges in
        let tokens := map rangeToken merged in
        MkParsed true merged tokens (join [ch_comma] tokens) []
    end.

(** ** Specification: the set of codes a list of ranges matches *)

Definition in_range (code : Z) (r : StatusCodeRange) : Prop := start r <= code <= end_ r.
Definition matches (rs : list StatusCodeRange) (code : Z) : Prop := Exists (in_range code) rs.
Definition wf_range (r : StatusCodeRange) : Prop := 100 <= start r /\ start r <= end_ r /\ end_ r <= 599.

(** Canonical: in order, with a gap of at least one code between neighbours. *)
Definition apart (a b : StatusCodeRange) : Prop := end_ a + 1 < start b.
Definition canonical (rs : list StatusCodeRange) : Prop :=
  StronglySorted apart rs /\ Forall wf_range rs.

Definition valid_token (t : jstring) : bool :=
  match parseToken t with Some _ => true | None => false end.

(** ** Lemmas *)

#[export] Instance compareRanges_comparator : Comparator compareRanges.
Proof.
  split; unfold compareRanges.
  - intros [a b] [c d]; cbn. destruct (Z.eqb_spec a c), (Z.eqb_spec c a); cbn; lia.
  - intros [a b] [c d] [e f]; cbn.
    destruct (Z.eqb_spec a c), (Z.eqb_spec c e), (Z.eqb_spec a e); cbn; lia.
Qed.

Lemma isValidCode_true c : isValidCode c = true <-> 100 <= c <= 599.
Proof. unfold isValidCode. rewrite andb_true_iff, !Z.leb_le. lia. Qed.

Lemma parseToken_wf t r : parseToken t = Some r -> wf_range r.
Proof.
  unfold parseToken, wf_range. intros H.
  repeat case_match; simplify_eq/=; reflect_bools;
    rewrite ?isValidCode_true in *; cbn; lia.
Qed.

Lemma parseSegments_fst segs : (parseSegments segs).1 = omap parseToken segs.
Proof.
  induction segs as [|t segs IH]; [done|]. cbn.
  destruct (parseSegments segs). cbn in *. by case_match; cbn; rewrite IH.
Qed.

Lemma parseSegments_snd segs :
  (parseSegments segs).2 = List.filter (fun t => negb (valid_token t)) segs.
Proof.
  unfold valid_token. induction segs as [|u segs IH]; [done|]. cbn.
  destruct (parseSegments segs) as [rs bad]. cbn in *.
  destruct (parseToken u); cbn; by rewrite IH.
Qed.

Lemma parseSegments_wf segs : Forall wf_range (parseSegments segs).1.
Proof.
  rewrite parseSegments_fst, Forall_forall. intros r (t & _ & H)%list_elem_of_omap.
  by eapply parseToken_wf.
Qed.

(** The state of the reduce: ranges apart, last first, and none starting after
    the ranges still to come. *)
Definition merge_inv (acc : list StatusCodeRange) : Prop :=
  StronglySorted (fun a b => apart b a) acc /\ Forall wf_range acc.

Definition starts_before (acc : list StatusCodeRange) (c : StatusCodeRange) : Prop :=
  Forall (fun r => start r <= start c) acc.

Lemma mergeStep_inv acc c :
  merge_inv acc -> starts_before acc c -> wf_range c -> merge_inv (mergeStep acc c).
Proof.
  intros [Hs Hw] Hb Hc. destruct acc as [|l acc]; cbn; [by build|].
  apply StronglySorted_inv in Hs as [Hs Hl].
  apply Forall_cons in Hw as [Hwl Hw]. apply Forall_cons in Hb as [Hbl Hb].
  destruct (Z.ltb_spec (end_ l + 1) (start c)) as [Hgap|Hgap].
  - split; [|by build]. constructor; [by constructor|].
    constructor; [done|]. eapply Forall_impl; [apply Hl|]. unfold apart, wf_range in *. cbn. lia.
  - split; [by constructor|]. constructor; [|done]. unfold wf_range in *. cbn. lia.
Qed.

Lemma mergeStep_matches acc c code :
  starts_before acc c -> wf_range c ->
  matches (mergeStep acc c) code <-> matches acc code \/ in_range code c.
Proof.
  intros Hb Hc. unfold matches. destruct Hb as [|l acc Hbl Hb]; cbn.
  - rewrite Exists_cons, !Exists_nil. tauto.
  - destruct (Z.ltb_spec (end_ l + 1) (start c)); rewrite !Exists_cons; [tauto|].
    unfold in_range, wf_range in *. cbn. split; [|tauto || (intros [[?|?]|?]; [left; lia|tauto|left; lia])].
    intros [?|?]; [|tauto]. assert (start l <= code <= end_ l \/ start c <= code <= end_ c) by lia.
    tauto.
Qed.

Lemma mergeStep_starts acc c d :
  starts_before acc c -> start c <= start d -> starts_before (mergeStep acc c) d.
Proof.
  intros Hb Hcd. destruct Hb as [|l acc Hl Hb]; cbn; [by build|].
  assert (Forall (fun r => start r <= start d) acc) by (eapply Forall_impl; [done|]; cbn; lia).
  case_match; build; cbn; lia.
Qed.

Lemma merge_loop l : forall acc,
  StronglySorted (fun a b => start a <= start b) l -> Forall wf_range l ->
  merge_inv acc -> Forall (starts_before acc) l ->
  merge_inv (foldl mergeStep acc l) /\
  forall code, matches (foldl mergeStep acc l) code <-> matches acc code \/ matches l code.
Proof.
  induction l as [|c l IH]; intros acc Hs Hw Hi Hb.
  { cbn. split; [done|]. intros code. unfold matches. rewrite Exists_nil. tauto. }
  apply StronglySorted_inv in Hs as [Hs Hcl]. apply Forall_cons in Hw as [Hwc Hw].
  apply Forall_cons in Hb as [Hbc Hb].
  destruct (IH (mergeStep acc c)) as [I M]; [done|done|by apply mergeStep_inv| |].
  - apply Forall_forall. intros d Hd. eapply mergeStep_starts; [done|].
    rewrite Forall_forall in Hcl. auto.
  - split; [done|]. intros code. cbn [foldl]. rewrite M, mergeStep_matches by done.
    unfold matches. rewrite Exists_cons. tauto.
Qed.

Lemma mergeRanges_eq rs : mergeRanges rs = rev (foldl mergeStep [] (js_sort compareRanges rs)).
Proof. by destruct rs. Qed.

Lemma matches_perm rs qs code : rs ≡ₚ qs -> matches rs code <-> matches qs code.
Proof. intros H. unfold matches. rewrite !Exists_exists. by setoid_rewrite H. Qed.

Lemma mergeRanges_spec rs : Forall wf_range rs ->
  canonical (mergeRanges rs) /\ forall code, matches (mergeRanges rs) code <-> matches rs code.
Proof.
  intros Hw. rewrite mergeRanges_eq.
  destruct (merge_loop (js_sort compareRanges rs) []) as [[I W] M].
  - eapply StronglySorted_impl; [|apply js_sort_sorted, _].
    intros x y. unfold cmp_le, compareRanges.
    destruct (Z.eqb_spec (start x) (start y)); cbn; lia.
  - by rewrite js_sort_perm.
  - by split; constructor.
  - apply Forall_forall. intros. constructor.
  - split.
    + split; [by apply (StronglySorted_rev _ _ I)|by apply Forall_rev].
    + intros code. rewrite (matches_perm _ _ _ (Permutation_sym (Permutation_rev _))), M.
      rewrite (matches_perm _ _ _ (js_sort_perm compareRanges rs)). unfold matches.
      rewrite Exists_nil. tauto.
Qed.

(** A canonical list is determined by the codes it matches. *)
Lemma canonical_head_matches r rs code :
  canonical (r :: rs) -> matches rs code <-> matches (r :: rs) code /\ end_ r < code.
Proof.
  intros [[Hs Hr]%StronglySorted_inv [Hw Hws]%Forall_cons]. unfold matches. rewrite Exists_cons.
  unfold in_range at 2. split; [|intros [[?|?] ?]; [lia|done]].
  intros H. split; [by right|]. apply Exists_exists in H as (q & Hq & Hc).
  rewrite Forall_forall in Hr. specialize (Hr q Hq). unfold apart, in_range in *. lia.
Qed.

Lemma canonical_min r rs code : canonical (r :: rs) -> matches (r :: rs) code -> start r <= code.
Proof.
  intros Hc Hm. destruct (decide (start r <= code)) as [|Hn]; [done|].
  destruct (Exists_cons (in_range code) r rs) as [[?|H] _]; [done|unfold in_range in *; lia|].
  apply (canonical_head_matches r rs code Hc) in H as [_ ?].
  destruct Hc as [_ [Hw _]%Forall_cons]. unfold wf_range in Hw. lia.
Qed.

Lemma canonical_start r rs : canonical (r :: rs) -> matches (r :: rs) (start r) /\ matches (r :: rs) (end_ r).
Proof.
  intros [_ [Hw _]%Forall_cons]. unfold matches, in_range, wf_range in *.
  split; left; lia.
Qed.

Lemma canonical_next r rs : canonical (r :: rs) -> ~ matches (r :: rs) (end_ r + 1).
Proof.
  intros Hc Hm. assert (matches rs (end_ r + 1)) as H
    by (apply (canonical_head_matches r rs); [done|split; [done|lia]]).
  destruct Hc as [[_ Hr]%StronglySorted_inv _]. apply Exists_exists in H as (q & Hq & Hin).
  rewrite Forall_forall in Hr. specialize (Hr q Hq). unfold apart, in_range in *. lia.
Qed.

Lemma canonical_tail r rs : canonical (r :: rs) -> canonical rs.
Proof. intros [[? _]%StronglySorted_inv [_ ?]%Forall_cons]. by split. Qed.

Lemma canonical_ends r rs q qs :
  canonical (r :: rs) -> canonical (q :: qs) ->
  (forall c, matches (r :: rs) c <-> matches (q :: qs) c) -> end_ q <= end_ r.
Proof.
  intros Hr Hq E. destruct (decide (end_ q <= end_ r)) as [|Hn]; [done|].
  destruct (canonical_next r rs Hr). apply E. left. unfold in_range.
  pose proof (canonical_min q qs _ Hq (proj1 (E _) (proj2 (canonical_start r rs Hr)))). lia.
Qed.

Lemma canonical_unique rs : forall qs, canonical rs -> canonical qs ->
  (forall c, matches rs c <-> matches qs c) -> rs = qs.
Proof.
  induction rs as [|r rs IH]; intros [|q qs] Hr Hq E; [done| | |].
  - exfalso. by eapply Exists_nil, E, (canonical_start q qs Hq).
  - exfalso. by eapply Exists_nil, E, (canonical_start r rs Hr).
  - assert (start r = start q /\ end_ r = end_ q) as [Es Ee].
    { pose proof (canonical_ends r rs q qs Hr Hq E).
      pose proof (canonical_ends q qs r rs Hq Hr (fun c => iff_sym (E c))).
      pose proof (canonical_min r rs _ Hr (proj2 (E _) (proj1 (canonical_start q qs Hq)))).
      pose proof (canonical_min q qs _ Hq (proj1 (E _) (proj1 (canonical_start r rs Hr)))). lia. }
    f_equal; [destruct r, q; cbn in *; congruence|].
    apply IH; [by eapply canonical_tail..|]. intros c.
    rewrite (canonical_head_matches r rs c Hr), (canonical_head_matches q qs c Hq), E, Ee. done.
Qed.

(** A canonical list is left alone by the merge. *)
Lemma mergeRanges_canonical rs : canonical rs -> mergeRanges rs = rs.
Proof.
  intros H. destruct (mergeRanges_spec rs) as [C M]; [apply H|]. by apply canonical_unique.
Qed.

(** *** Tokens and segments *)

Lemma dec_token z : 0 <= z -> Forall (fun c => is_digit c = true) (dec_of_Z z).
Proof. intros H. rewrite dec_of_Z_nonneg by done. apply dec_of_N_spec. Qed.

Lemma isNumber_dec z : 0 <= z -> isNumber (dec_of_Z z) = true.
Proof.
  intros H. unfold isNumber. apply andb_true_iff. split.
  - rewrite dec_of_Z_nonneg by done. apply truthy_true, dec_of_N_spec.
  - apply forallb_forall. intros c Hc. eapply List.Forall_forall in Hc; [|by apply dec_token].
    done.
Qed.

Lemma parseInt_dec z : 0 <= z -> parseInt (dec_of_Z z) = z.
Proof.
  intros H. unfold parseInt. rewrite dec_of_Z_nonneg by done.
  destruct (dec_of_N_spec (Z.to_N z)) as (_ & _ & ->). lia.
Qed.

(** A unit of a normalized token: a digit or the dash. *)
Definition token_unit (c : N) : Prop := is_digit c = true \/ c = ch_dash.

Lemma rangeToken_units r : wf_range r -> Forall token_unit (rangeToken r).
Proof.
  unfold wf_range, rangeToken. intros Hw.
  assert (forall z, 100 <= z -> Forall token_unit (dec_of_Z z)) as D.
  { intros z Hz. eapply Forall_impl; [apply dec_token; lia|]. by left. }
  case_match; [apply D; lia|].
  apply Forall_app; split; [apply D; lia|]. constructor; [by right|apply D; lia].
Qed.

Lemma token_unit_not_ws c : token_unit c -> is_ws c = false.
Proof. intros [H| ->]; [by apply is_digit_not_ws|done]. Qed.

Lemma token_unit_neq c d : token_unit c -> is_digit d = false -> d <> ch_dash -> c <> d.
Proof. intros [H| ->] Hd Hn; [by eapply is_digit_neq|congruence]. Qed.

Lemma rangeToken_truthy r : wf_range r -> truthy (rangeToken r) = true.
Proof.
  unfold wf_range. intros H. apply truthy_true. unfold rangeToken.
  assert (dec_of_Z (start r) <> []) by (rewrite dec_of_Z_nonneg by lia; apply dec_of_N_spec).
  case_match; [done|]. by destruct (dec_of_Z (start r)).
Qed.

Lemma rangeToken_cleaned r : wf_range r ->
  List.filter (fun c => negb (is_ws c)) (trim (rangeToken r)) = rangeToken r.
Proof.
  intros H%rangeToken_units. rewrite trim_id.
  - apply Forall_true_filter. eapply Forall_impl; [done|].
    intros c Hc%token_unit_not_ws. cbn. by rewrite Hc.
  - eapply Forall_impl; [done|]. apply token_unit_not_ws.
Qed.

(** Printing a range and parsing the token gives the range back. *)
Lemma parseToken_rangeToken r : wf_range r -> parseToken (rangeToken r) = Some r.
Proof.
  intros Hw. unfold parseToken. rewrite rangeToken_cleaned, rangeToken_truthy by done.
  pose proof Hw as (H1 & H2 & H3). unfold rangeToken.
  assert (isValidCode (start r) = true /\ isValidCode (end_ r) = true) as [V1 V2]
    by (rewrite !isValidCode_true; lia).
  assert (forall z, 0 <= z -> Forall (fun d => d <> ch_dash) (dec_of_Z z)) as D.
  { intros z Hz. eapply Forall_impl; [by apply dec_token|].
    intros c Hc. cbn. by eapply is_digit_neq. }
  destruct (Z.eqb_spec (start r) (end_ r)) as [E|E]; cbn [negb].
  - rewrite (proj2 (includes_unit_false _ _)) by (apply D; lia).
    rewrite isNumber_dec, parseInt_dec, V1 by lia. cbn. destruct r; cbn in *. congruence.
  - rewrite (proj2 (includes_unit _ _)) by set_solver.
    rewrite split_on_app, split_on_free by (apply D; lia).
    rewrite !isNumber_dec, !parseInt_dec, V1, V2 by lia. cbn.
    destruct (Z.ltb_spec (end_ r) (start r)); [lia|]. by destruct r.
Qed.

Lemma ruleSegments_tokens rs : Forall wf_range rs ->
  ruleSegments (join [ch_comma] (map rangeToken rs)) = map rangeToken rs.
Proof.
  intros Hw. unfold ruleSegments.
  assert (Forall (Forall token_unit) (map rangeToken rs)) as U.
  { apply Forall_map. eapply Forall_impl; [done|]. apply rangeToken_units. }
  rewrite replace_unit_id.
  2: { apply join_Forall; [by repeat constructor|].
       eapply Forall_impl; [done|]. intros w. cbn. intros Hu. eapply Forall_impl; [done|].
       intros c Hc. by eapply token_unit_neq. }
  destruct rs as [|r rs]; [done|]. rewrite split_on_join; [|done|].
  - rewrite (map_ext_Forall trim id), map_id.
    + apply Forall_true_filter, Forall_map. eapply Forall_impl; [done|]. apply rangeToken_truthy.
    + eapply Forall_impl; [done|]. intros w Hu. apply trim_id.
      eapply Forall_impl; [done|]. apply token_unit_not_ws.
  - eapply Forall_impl; [done|]. intros w Hu. eapply Forall_impl; [done|].
    intros c Hc. by eapply token_unit_neq.
Qed.

(** ** Properties *)

(** The parse as a function of the parsed segments. *)
Lemma parse_eq input :
  let raw := trim (coalesce input []) in
  let segs := ruleSegments raw in
  parseHttpStatusCodeRules input =
    if forallb valid_token segs then
      let merged := mergeRanges (omap parseToken segs) in
      MkParsed true merged (map rangeToken merged) (join [ch_comma] (map rangeToken merged)) []
    else MkParsed false [] [] raw (List.filter (fun t => negb (valid_token t)) segs).
Proof.
  cbn zeta. unfold parseHttpStatusCodeRules.
  destruct (truthy (trim (coalesce input []))) eqn:Ht; cbn [negb].
  - pose proof (parseSegments_fst (ruleSegments (trim (coalesce input [])))) as F.
    pose proof (parseSegments_snd (ruleSegments (trim (coalesce input [])))) as G.
    destruct (parseSegments _) as [rs bad]. cbn in F, G. subst rs bad.
    generalize (ruleSegments (trim (coalesce input []))). intros segs.
    destruct (forallb valid_token segs) eqn:E.
    + by rewrite (proj2 (filter_negb_nil valid_token segs) E).
    + destruct (List.filter _ segs) as [|b bs] eqn:Hb; [|done].
      apply filter_negb_nil in Hb. congruence.
  - by apply truthy_false in Ht as ->.
Qed.

Lemma parse_wf segs : Forall wf_range (omap parseToken segs).
Proof. rewrite <- parseSegments_fst. apply parseSegments_wf. Qed.

(** An accepted rule matches exactly the codes its segments name: merging
    neither loses nor adds a code, whatever the order and overlap. *)
Theorem parse_matches_segments input code :
  ok (parseHttpStatusCodeRules input) = true ->
  matches (ranges (parseHttpStatusCodeRules input)) code <->
  exists t r, t ∈ ruleSegments (trim (coalesce input [])) /\
              parseToken t = Some r /\ in_range code r.
Proof.
  rewrite parse_eq. case_match; [|done]. intros _. cbn [ranges].
  rewrite (proj2 (mergeRanges_spec _ (parse_wf _))). unfold matches. rewrite Exists_exists.
  setoid_rewrite list_elem_of_omap. naive_solver.
Qed.

Lemma parse_matches_segments_witness :
  exists t r, t ∈ ruleSegments (trim (js "401, 500-503, 502-510")) /\
              parseToken t = Some r /\ in_range 505 r.
Proof.
  apply (parse_matches_segments (Some (js "401, 500-503, 502-510")) 505); [reflexivity|].
  apply Exists_exists. exists (MkRange 500 510). vm_compute. split; [|by split].
  right. left.
Defined.

(** The saved text is a normal form: two accepted rules that match the same
    codes parse to the same ranges, tokens and normalized text. *)
Theorem parse_normal_form input1 input2 :
  ok (parseHttpStatusCodeRules input1) = true ->
  ok (parseHttpStatusCodeRules input2) = true ->
  (forall code, matches (ranges (parseHttpStatusCodeRules input1)) code <->
                matches (ranges (parseHttpStatusCodeRules input2)) code) ->
  parseHttpStatusCodeRules input1 = parseHttpStatusCodeRules input2.
Proof.
  rewrite !parse_eq. case_match; [|done]. case_match; [|done]. intros _ _. cbn [ranges]. intros E.
  by rewrite (canonical_unique _ _ (proj1 (mergeRanges_spec _ (parse_wf _)))
                (proj1 (mergeRanges_spec _ (parse_wf _))) E).
Qed.

Lemma parse_normal_form_witness :
  parseHttpStatusCodeRules (Some (js "500-503,502-510")) =
  parseHttpStatusCodeRules (Some (js " 504-510, 500 - 503,")).
Proof. apply parse_normal_form; [reflexivity|reflexivity|]. by vm_compute. Defined.

(** Saving the normalized text and reading it back changes nothing: it is
    accepted, with the same ranges, tokens and text. *)
Theorem parse_normalized_roundtrip input :
  ok (parseHttpStatusCodeRules input) = true ->
  parseHttpStatusCodeRules (Some (normalized (parseHttpStatusCodeRules input))) =
  parseHttpStatusCodeRules input.
Proof.
  rewrite !parse_eq. case_match; [|done]. intros _. cbn [normalized coalesce from_option].
  set (segs := ruleSegments _) in *.
  destruct (mergeRanges_spec _ (parse_wf segs)) as [C _].
  set (rs := mergeRanges (omap parseToken segs)) in *.
  assert (trim (join [ch_comma] (map rangeToken rs)) = join [ch_comma] (map rangeToken rs)) as T.
  { apply trim_id, join_Forall; [by repeat constructor|]. apply Forall_map.
    eapply Forall_impl; [apply C|]. intros r Hr%rangeToken_units.
    eapply Forall_impl; [done|]. apply token_unit_not_ws. }
  unfold id. rewrite T, ruleSegments_tokens by apply C.
  assert (omap parseToken (map rangeToken rs) = rs /\ forallb valid_token (map rangeToken rs) = true)
    as [E V].
  { destruct C as [_ W]. clear T. induction W as [|r l Hr _ [IH1 IH2]]; [done|]. cbn.
    unfold valid_token at 1. rewrite parseToken_rangeToken by done. cbn.
    rewrite IH2. split; [by f_equal|done]. }
  rewrite V, E. by rewrite mergeRanges_canonical.
Qed.

Lemma parse_normalized_roundtrip_witness :
  normalized (parseHttpStatusCodeRules (Some (js " 503, 500-502 ,401"))) = js "401,500-503" /\
  parseHttpStatusCodeRules (Some (normalized (parseHttpStatusCodeRules (Some (js " 503, 500-502 ,401"))))) =
  parseHttpStatusCodeRules (Some (js " 503, 500-502 ,401")).
Proof. split; [reflexivity|]. apply parse_normalized_roundtrip. reflexivity. Defined.

(** Errors: a rule is refused exactly when a segment does not parse; then it
    yields no range, lists every bad segment and keeps the typed text. *)
Theorem parse_errors input :
  let p := parseHttpStatusCodeRules input in
  let segs := ruleSegments (trim (coalesce input [])) in
  ok p = forallb valid_token segs /\
  invalidTokens p = List.filter (fun t => negb (valid_token t)) segs /\
  (ok p = false -> ranges p = [] /\ tokens p = [] /\ normalized p = trim (coalesce input [])).
Proof.
  cbn zeta. rewrite parse_eq. case_match eqn:E; [|done]. cbn. split; [done|]. split; [|done].
  by rewrite (proj2 (filter_negb_nil valid_token _) E).
Qed.

(** Every accepted rule is canonical: in order, at least one unmatched code
    between neighbours, every code in [100, 599], as the backend's matcher,
    which stops at the first range that starts beyond the code, needs it. *)
Theorem parse_canonical input : canonical (ranges (parseHttpStatusCodeRules input)).
Proof.
  rewrite parse_eq. case_match; cbn; [apply mergeRanges_spec, parse_wf|]. split; constructor.
Qed.

(** What follows a second dash is not read, while the backend's parser
    (setting/operation_setting/status_code_ranges.go) refuses such a range. *)
Lemma third_part_ignored : parseToken (js "200-300-400") = Some (MkRange 200 300).
Proof. reflexivity. Qed.
