(* ===== verification/AdvancedCustom.v ===== *)
(** * Advanced custom channel routes (web/src/features/channels/lib/advanced-custom.ts)

    A channel of this type carries a table of routes; the drawer edits it, the
    validator accepts or refuses it.  Modelled: the data, the templates, the
    normalization, the editing operations and the validator.  [new URL] is a
    service of the browser: it is the parameter [URL] below. *)

From S2P Require Import Prelude.

(** ** Data (web/src/features/channels/types.ts)

    Converters and auth types are strings at run time: a stored configuration
    may hold any, and the validator is what refuses an unknown one. *)

Record AdvancedCustomRouteAuth := MkAuth {
  auth_type : option jstring;
  auth_name : option jstring;
  auth_value : option jstring
}.

Record AdvancedCustomRoute := MkRoute {
  incoming_path : option jstring;
  upstream_path : option jstring;
  converter : option jstring;
  models : option (list jstring);
  auth : option AdvancedCustomRouteAuth
}.

Record AdvancedCustomConfig := MkConfig { advanced_routes : option (list AdvancedCustomRoute) }.

#[export] Instance Auth_eq_dec : EqDecision AdvancedCustomRouteAuth.
Proof. solve_decision. Defined.
#[export] Instance Route_eq_dec : EqDecision AdvancedCustomRoute.
Proof. solve_decision. Defined.

Definition ADVANCED_CUSTOM_MODEL_LIST_PATH : jstring := js "/v1/models".
Definition ADVANCED_CUSTOM_MODEL_LIST_LABEL : jstring := js "OpenAI Models".
Definition ADVANCED_CUSTOM_BALANCE_PATH : jstring := js "/v1/dashboard/billing/credit_grants".
Definition ADVANCED_CUSTOM_BALANCE_LABEL : jstring := js "Balance Query".

Definition c_none : jstring := js "none".
Definition c_anthropic_to_chat := js "anthropic_messages_to_openai_chat_completions".
Definition c_chat_to_anthropic := js "openai_chat_completions_to_anthropic_messages".
Definition c_chat_to_responses := js "openai_chat_completions_to_openai_responses".
Definition c_responses_to_chat := js "openai_responses_to_openai_chat_completions".
Definition c_responses_to_gemini := js "openai_responses_to_gemini_generate_content".
Definition c_gemini_to_chat := js "gemini_generate_content_to_openai_chat_completions".
Definition c_chat_to_gemini := js "openai_chat_completions_to_gemini_generate_content".

(** [ADVANCED_CUSTOM_CONVERTER_OPTIONS], the values with their labels. *)
Definition ADVANCED_CUSTOM_CONVERTER_OPTIONS : list (jstring * jstring) :=
  [(c_none, js "Native forwarding");
   (c_anthropic_to_chat, js "Anthropic Messages to OpenAI Chat");
   (c_chat_to_anthropic, js "OpenAI Chat to Anthropic Messages");
   (c_chat_to_responses, js "OpenAI Chat to OpenAI Responses");
   (c_responses_to_chat, js "OpenAI Responses to OpenAI Chat");
   (c_responses_to_gemini, js "OpenAI Responses to Gemini Generate Content");
   (c_gemini_to_chat, js "Gemini Generate Content to OpenAI Chat");
   (c_chat_to_gemini, js "OpenAI Chat to Gemini Generate Content")].

Definition openAIChatPath : jstring := js "/v1/chat/completions".
Definition openAIResponsesPath : jstring := js "/v1/responses".
Definition claudeMessagesPath : jstring := js "/v1/messages".
Definition geminiGenerateContentPath : jstring := js "/v1beta/models/{model}:generateContent".

Definition ADVANCED_CUSTOM_INCOMING_PATH_OPTIONS : list (jstring * jstring) :=
  [(js "/v1/chat/completions", js "OpenAI Chat");
   (js "/v1/responses", js "OpenAI Responses");
   (js "/v1/responses/compact", js "OpenAI Responses Compact");
   (js "/v1/alpha/search", js "Codex Alpha Search");
   (js "/v1/embeddings", js "OpenAI Embeddings");
   (js "/v1/images/generations", js "OpenAI Image Generations");
   (js "/v1/images/edits", js "OpenAI Image Edits");
   (js "/v1/completions", js "OpenAI Completions");
   (js "/v1/audio/speech", js "OpenAI Audio Speech");
   (js "/v1/audio/transcriptions", js "OpenAI Audio Transcriptions");
   (js "/v1/audio/translations", js "OpenAI Audio Translations");
   (js "/v1/rerank", js "Rerank");
   (js "/v1/realtime", js "OpenAI Realtime");
   (js "/v1/messages", js "Claude Messages");
   (js "/v1beta/models/{model}:generateContent", js "Gemini Generate Content");
   (js "/v1beta/models/{model}:embedContent", js "Gemini Embed Content");
   (js "/v1beta/models/{model}:batchEmbedContents", js "Gemini Batch Embed Contents")].

Definition ADVANCED_CUSTOM_MODEL_REGEX_PREFIX : jstring := js "re:".

Record AdvancedCustomValidationError := MkError {
  message : jstring;
  routeIndex : option nat
}.

(** ** Default authentication and the templates *)

Definition bearerHeaderAuth : AdvancedCustomRouteAuth :=
  MkAuth (Some (js "header")) (Some (js "Authorization")) (Some (js "Bearer {api_key}")).
Definition apiKeyHeaderAuth : AdvancedCustomRouteAuth :=
  MkAuth (Some (js "header")) (Some (js "x-api-key")) (Some (js "{api_key}")).
Definition geminiQueryAuth : AdvancedCustomRouteAuth :=
  MkAuth (Some (js "query")) (Some (js "key")) (Some (js "{api_key}")).

Definition nativeRoute (a : AdvancedCustomRouteAuth) (path : jstring) : AdvancedCustomRoute :=
  MkRoute (Some path) (Some path) (Some c_none) None (Some a).

Definition createOpenAINativeRoutes : list AdvancedCustomRoute :=
  map (nativeRoute bearerHeaderAuth)
    [js "/v1/chat/completions"; js "/v1/completions"; js "/v1/responses";
     js "/v1/responses/compact"; js "/v1/embeddings"; js "/v1/images/generations";
     js "/v1/images/edits"; js "/v1/audio/speech"; js "/v1/audio/transcriptions";
     js "/v1/audio/translations"; js "/v1/realtime"].
Definition createClaudeNativeRoutes : list AdvancedCustomRoute :=
  [nativeRoute apiKeyHeaderAuth (js "/v1/messages")].
Definition createGeminiNativeRoutes : list AdvancedCustomRoute :=
  map (nativeRoute geminiQueryAuth)
    [js "/v1beta/models/{model}:generateContent"; js "/v1beta/models/{model}:embedContent";
     js "/v1beta/models/{model}:batchEmbedContents"].
Definition createGatewayNativeRoutes : list AdvancedCustomRoute :=
  map (nativeRoute bearerHeaderAuth) [js "/v1/alpha/search"; js "/v1/rerank"].

Definition ADVANCED_CUSTOM_TEMPLATE_OPTIONS : list (jstring * AdvancedCustomConfig) :=
  [(js "all_protocols",
     MkConfig (Some (createOpenAINativeRoutes ++ createClaudeNativeRoutes ++
                     createGeminiNativeRoutes ++ createGatewayNativeRoutes)));
   (js "openai_only", MkConfig (Some createOpenAINativeRoutes));
   (js "claude_only", MkConfig (Some createClaudeNativeRoutes));
   (js "gemini_only", MkConfig (Some createGeminiNativeRoutes))].

(** A clone of a value of this model is the value. *)
Definition getAdvancedCustomTemplateConfig (templateKey : jstring) : AdvancedCustomConfig :=
  match List.find (fun o => jeqb o.1 templateKey) ADVANCED_CUSTOM_TEMPLATE_OPTIONS with
  | Some o => o.2
  | None => from_option snd (MkConfig None) (head ADVANCED_CUSTOM_TEMPLATE_OPTIONS)
  end.

(** ** Normalization *)

Definition getAdvancedCustomRouteUpstreamPath (route : AdvancedCustomRoute) : jstring :=
  trim (ojor (upstream_path route) []).

Definition normalizeAdvancedCustomRouteModels (models : option (list jstring)) : list jstring :=
  match models with
  | None => []
  | Some l => List.filter truthy (map trim l)
  end.

Definition normalizeAdvancedCustomRoute (route : AdvancedCustomRoute) : AdvancedCustomRoute :=
  let ms := normalizeAdvancedCustomRouteModels (models route) in
  {| incoming_path := Some (ojor (incoming_path route) []);
     upstream_path := Some (getAdvancedCustomRouteUpstreamPath route);
     converter := Some (ojor (converter route) c_none);
     models := match ms with [] => None | _ => Some ms end;
     auth := match auth route with
             | None => None
             | Some a => Some (MkAuth (auth_type a) (Some (ojor (auth_name a) []))
                                 (Some (ojor (auth_value a) [])))
             end |}.

Definition normalizeAdvancedCustomConfig (config : AdvancedCustomConfig) : AdvancedCustomConfig :=
  MkConfig (Some (map normalizeAdvancedCustomRoute (coalesce (advanced_routes config) []))).

(** The routes of a configuration, normalized. *)
Definition normalizedRoutes (config : AdvancedCustomConfig) : list AdvancedCustomRoute :=
  coalesce (advanced_routes (normalizeAdvancedCustomConfig config)) [].

(** ** Editing operations *)

Definition isAdvancedCustomManagementPath (path : jstring) : bool :=
  jeqb path ADVANCED_CUSTOM_MODEL_LIST_PATH || jeqb path ADVANCED_CUSTOM_BALANCE_PATH.

(** [route.incoming_path?.trim() === path] *)
Definition routeHasPath (path : jstring) (route : AdvancedCustomRoute) : bool :=
  match incoming_path route with
  | Some p => jeqb (trim p) path
  | None => false
  end.

(** [route.incoming_path?.trim() || ''] *)
Definition routePath (route : AdvancedCustomRoute) : jstring := trim (coalesce (incoming_path route) []).

Definition isManagementRoute (route : AdvancedCustomRoute) : bool :=
  isAdvancedCustomManagementPath (routePath route).

Definition getAdvancedCustomManagementRoute (config : AdvancedCustomConfig) (path : jstring)
    : option AdvancedCustomRoute :=
  List.find (routeHasPath path) (normalizedRoutes config).

Definition managementRoute (path : jstring) (route : AdvancedCustomRoute) : AdvancedCustomRoute :=
  {| incoming_path := Some path;
     upstream_path := Some (ojor (upstream_path route) []);
     converter := Some c_none;
     models := Some [];
     auth := auth route |}.

Definition replaceAdvancedCustomManagementRoute (config : AdvancedCustomConfig) (path : jstring)
    (route : option AdvancedCustomRoute) : AdvancedCustomConfig :=
  let routes := normalizedRoutes config in
  let index := find_index (routeHasPath path) routes in
  MkConfig (Some
    match route, index with
    | None, Some i => take i routes ++ drop (S i) routes
    | None, None => routes
    | Some r, Some i => take i routes ++ managementRoute path r :: drop (S i) routes
    | Some r, None => routes ++ [managementRoute path r]
    end).

Definition replaceAdvancedCustomForwardingRoutes (config : AdvancedCustomConfig)
    (forwardingRoutes : list AdvancedCustomRoute) : AdvancedCustomConfig :=
  let routes := normalizedRoutes config in
  let managementRoutes := List.filter isManagementRoute routes in
  match find_index (fun r => negb (isManagementRoute r)) routes with
  | None => MkConfig (Some (managementRoutes ++ forwardingRoutes))
  | Some first =>
      let before := List.filter isManagementRoute (take first routes) in
      let after := List.filter isManagementRoute (drop first routes) in
      MkConfig (Some (before ++ forwardingRoutes ++ after))
  end.

Definition createAdvancedCustomRoute : AdvancedCustomRoute :=
  MkRoute (Some openAIChatPath) (Some openAIChatPath) (Some c_none) None None.
Definition createAdvancedCustomConfig : AdvancedCustomConfig :=
  MkConfig (Some [createAdvancedCustomRoute]).
Definition createAdvancedCustomManagementRoute (path : jstring) : AdvancedCustomRoute :=
  MkRoute (Some path) (Some path) (Some c_none) (Some []) None.

Definition parseAdvancedCustomRouteModels (value : jstring) : list jstring :=
  uniq (List.filter truthy (map trim (split_on ch_comma value))).

Inductive AdvancedCustomModelRuleKind := exact | regex.

Definition getAdvancedCustomModelRuleKind (modelRule : jstring) : AdvancedCustomModelRuleKind :=
  if startsWith modelRule ADVANCED_CUSTOM_MODEL_REGEX_PREFIX then regex else exact.

Definition getAdvancedCustomRegexModelPattern (modelRule : jstring) : jstring :=
  drop (length ADVANCED_CUSTOM_MODEL_REGEX_PREFIX) modelRule.

(** ** Converters and their paths *)

Definition isAdvancedCustomConverter (value : jstring) : bool :=
  existsb (fun o => jeqb o.1 value) ADVANCED_CUSTOM_CONVERTER_OPTIONS.

Definition isConverterPathAllowed (incomingPath converter : jstring) : bool :=
  if jeqb converter c_none then true
  else if jeqb incomingPath (js "/v1/alpha/search") then false
  else if jeqb converter c_anthropic_to_chat then jeqb incomingPath (js "/v1/messages")
  else if jeqb converter c_chat_to_anthropic || jeqb converter c_chat_to_responses
          || jeqb converter c_chat_to_gemini
  then jeqb incomingPath (js "/v1/chat/completions")
  else if jeqb converter c_responses_to_chat then jeqb incomingPath (js "/v1/responses")
  else if jeqb converter c_responses_to_gemini then jeqb incomingPath (js "/v1/responses")
  else includes incomingPath (js ":generateContent")
       || includes incomingPath (js ":streamGenerateContent").

Definition getAdvancedCustomIncomingPathOptions (converter : jstring) : list (jstring * jstring) :=
  List.filter (fun o => isConverterPathAllowed o.1 converter) ADVANCED_CUSTOM_INCOMING_PATH_OPTIONS.

Definition getDefaultAdvancedCustomIncomingPath (converter : jstring) : jstring :=
  ojor (fst <$> head (getAdvancedCustomIncomingPathOptions converter)) (js "/v1/chat/completions").

Definition getAdvancedCustomConverterOptions (incomingPath : jstring) : list (jstring * jstring) :=
  let normalizedIncomingPath := trim incomingPath in
  List.filter (fun o => jeqb o.1 c_none || isConverterPathAllowed normalizedIncomingPath o.1)
    ADVANCED_CUSTOM_CONVERTER_OPTIONS.

Definition getAdvancedCustomNativeAuth (incomingPath : jstring) : AdvancedCustomRouteAuth :=
  if jeqb incomingPath claudeMessagesPath then apiKeyHeaderAuth
  else if includes incomingPath (js ":generateContent")
          || includes incomingPath (js ":streamGenerateContent")
          || includes incomingPath (js ":embedContent")
          || includes incomingPath (js ":batchEmbedContents")
  then geminiQueryAuth else bearerHeaderAuth.

(** [upstream_path] and [auth] of [getAdvancedCustomConverterDefaults]. *)
Definition getAdvancedCustomConverterDefaults (converter incomingPath : jstring)
    : jstring * AdvancedCustomRouteAuth :=
  let normalizedIncomingPath :=
    jor (trim incomingPath) (getDefaultAdvancedCustomIncomingPath converter) in
  if jeqb converter c_none
  then (normalizedIncomingPath, getAdvancedCustomNativeAuth normalizedIncomingPath)
  else if jeqb converter c_anthropic_to_chat || jeqb converter c_gemini_to_chat
          || jeqb converter c_responses_to_chat
  then (openAIChatPath, bearerHeaderAuth)
  else if jeqb converter c_chat_to_responses then (openAIResponsesPath, bearerHeaderAuth)
  else if jeqb converter c_chat_to_anthropic then (claudeMessagesPath, apiKeyHeaderAuth)
  else if jeqb converter c_chat_to_gemini || jeqb converter c_responses_to_gemini
  then (geminiGenerateContentPath, geminiQueryAuth)
  else (jor normalizedIncomingPath openAIChatPath,
        getAdvancedCustomNativeAuth normalizedIncomingPath).

Definition getAdvancedCustomUpstreamPathPlaceholder (converter : jstring)
    (incomingPath : option jstring) : jstring :=
  (getAdvancedCustomConverterDefaults converter
     (coalesce incomingPath (getDefaultAdvancedCustomIncomingPath converter))).1.

Definition getAdvancedCustomIncomingPathLabel (value : jstring) : jstring :=
  ojor (snd <$> List.find (fun o => jeqb o.1 value) ADVANCED_CUSTOM_INCOMING_PATH_OPTIONS) value.

(** ** Authentication of a route *)

Definition getAdvancedCustomAuthMode (route : AdvancedCustomRoute) : jstring :=
  ojor (a ← auth route; auth_type a) (js "default").

Definition buildAdvancedCustomAuth (mode : jstring) (previousAuth : option AdvancedCustomRouteAuth)
    : option AdvancedCustomRouteAuth :=
  if jeqb mode (js "default") then None
  else if jeqb mode (js "none") then Some (MkAuth (Some (js "none")) None None)
  else if jeqb mode (js "header")
  then Some (MkAuth (Some (js "header"))
               (Some (ojor (a ← previousAuth; auth_name a) (js "Authorization")))
               (Some (ojor (a ← previousAuth; auth_value a) (js "Bearer {api_key}"))))
  else Some (MkAuth (Some (js "query"))
               (Some (ojor (a ← previousAuth; auth_name a) (js "api_key")))
               (Some (ojor (a ← previousAuth; auth_value a) (js "{api_key}")))).

(** [undefined] compares equal to none of the types. *)
Definition authTypeIs (a : AdvancedCustomRouteAuth) (t : jstring) : bool :=
  bool_decide (auth_type a = Some t).

Definition validateRouteAuth (auth : option AdvancedCustomRouteAuth) : option jstring :=
  match auth with
  | None => None
  | Some a =>
      if authTypeIs a (js "none") then None
      else if negb (authTypeIs a (js "header")) && negb (authTypeIs a (js "query"))
      then Some (js "Auth type is invalid")
      else if negb (truthy (trim (coalesce (auth_name a) []))) then Some (js "Auth name is required")
      else if negb (truthy (trim (coalesce (auth_value a) []))) then Some (js "Auth value is required")
      else None
  end.

(** ** The validator *)

Record RouteModelsState := MkState {
  catchAllIndex : option nat;
  state_models : gmap jstring nat
}.

(** A rule [re:] with nothing after the prefix. *)
Definition emptyRegexRule (model : jstring) : bool :=
  match getAdvancedCustomModelRuleKind model with
  | regex => jeqb (getAdvancedCustomRegexModelPattern model) []
  | exact => false
  end.

(** The loop over the models of one route: [seenInRoute], then the map of the
    path, which it extends. *)
Fixpoint checkModels (routeIndex : nat) (seenInRoute : list jstring) (ms : gmap jstring nat)
    (models : list jstring) : option jstring * gmap jstring nat :=
  match models with
  | [] => (None, ms)
  | model :: rest =>
      if emptyRegexRule model
      then (Some (js "Model regex cannot be empty"), ms)
      else if bool_decide (model ∈ seenInRoute)
      then (Some (js "Duplicate model in route models"), ms)
      else match ms !! model with
           | Some _ => (Some (js "Route models must be unique for the same incoming path"), ms)
           | None => checkModels routeIndex (model :: seenInRoute) (<[model := routeIndex]> ms) rest
           end
  end.

Definition validateAdvancedCustomRouteModels (routeIndex : nat) (incomingPath : jstring)
    (models : list jstring) (byPath : gmap jstring RouteModelsState)
    : option jstring * gmap jstring RouteModelsState :=
  let state := coalesce (byPath !! incomingPath) (MkState None ∅) in
  let byPath := <[incomingPath := state]> byPath in
  match models, catchAllIndex state with
  | [], Some _ =>
      (Some (js "Only one catch-all route is allowed for the same incoming path"), byPath)
  | [], None =>
      (None, <[incomingPath := MkState (Some routeIndex) (state_models state)]> byPath)
  | _ :: _, Some _ =>
      (Some (js "Catch-all route must be last for the same incoming path"), byPath)
  | _ :: _, None =>
      let (error, ms) := checkModels routeIndex [] (state_models state) models in
      (error, <[incomingPath := MkState None ms]> byPath)
  end.

(** What the loop of [validateAdvancedCustomConfig] carries from route to route. *)
Record ValidateState := MkValidate {
  routeModelsByPath : gmap jstring RouteModelsState;
  modelListRouteIndex : option nat;
  balanceRouteIndex : option nat
}.

(** The block for the two management paths. *)
Definition validateManagementRoute (index : nat) (incomingPath upstreamPath converter : jstring)
    (routeModels : list jstring) (st : ValidateState) : option jstring * ValidateState :=
  let isModelListRoute := jeqb incomingPath ADVANCED_CUSTOM_MODEL_LIST_PATH in
  let existingIndex := if isModelListRoute then modelListRouteIndex st else balanceRouteIndex st in
  let routeLabel := if isModelListRoute then js "OpenAI Models" else js "Balance Query" in
  match existingIndex with
  | Some _ => (Some (js "Only one " ++ routeLabel ++ js " route is allowed"), st)
  | None =>
      let st := if isModelListRoute
                then MkValidate (routeModelsByPath st) (Some index) (balanceRouteIndex st)
                else MkValidate (routeModelsByPath st) (modelListRouteIndex st) (Some index) in
      if (0 <? length routeModels)%nat
      then (Some (routeLabel ++ js " route does not support client model rules"), st)
      else if negb (jeqb converter c_none)
      then (Some (routeLabel ++ js " route must use native forwarding"), st)
      else if includes upstreamPath (js "{model}")
      then (Some (routeLabel ++ js " upstream path must not contain {model}"), st)
      else (None, st)
  end.

Section Validator.
(** [new URL(value)]: the host and the protocol of the parsed URL, [None] when
    the constructor throws. *)
Context (URL : jstring -> option (jstring * jstring)).

Definition isFullHttpURLOrAbsolutePath (value : jstring) : bool :=
  if startsWith value (js "/") then negb (startsWith value (js "//"))
  else match URL value with
       | Some (host, protocol) =>
           truthy host && (jeqb protocol (js "http:") || jeqb protocol (js "https:"))
       | None => false
       end.

(** The checks of one route after the bookkeeping per path. *)
Definition validateForwarding (incomingPath upstreamPath converter : jstring)
    (auth : option AdvancedCustomRouteAuth) : option jstring :=
  if negb (truthy upstreamPath) then Some (js "Upstream path is required")
  else if negb (isFullHttpURLOrAbsolutePath upstreamPath)
  then Some (js "Upstream path must be a full URL or a path starting with /")
  else if negb (isAdvancedCustomConverter converter) then Some (js "Converter is not registered")
  else if negb (isConverterPathAllowed incomingPath converter)
  then Some (js "Converter does not match incoming path")
  else validateRouteAuth auth.

Definition validateIncomingPath (incomingPath : jstring) : option jstring :=
  if negb (truthy incomingPath) then Some (js "Incoming path is required")
  else if negb (startsWith incomingPath (js "/")) then Some (js "Incoming path must start with /")
  else if includes incomingPath (js "?") then Some (js "Incoming path must not include query")
  else None.

(** One iteration of the loop. *)
Definition validateRoute (index : nat) (route : AdvancedCustomRoute) (st : ValidateState)
    : option jstring * ValidateState :=
  let incomingPath := routePath route in
  let upstreamPath := getAdvancedCustomRouteUpstreamPath route in
  let conv := ojor (converter route) c_none in
  let routeModels := normalizeAdvancedCustomRouteModels (models route) in
  match validateIncomingPath incomingPath with
  | Some e => (Some e, st)
  | None =>
      let (e, st) :=
        if isAdvancedCustomManagementPath incomingPath
        then validateManagementRoute index incomingPath upstreamPath conv routeModels st
        else (None, st) in
      match e with
      | Some e => (Some e, st)
      | None =>
          let (e, byPath) :=
            validateAdvancedCustomRouteModels index incomingPath routeModels
              (routeModelsByPath st) in
          let st := MkValidate byPath (modelListRouteIndex st) (balanceRouteIndex st) in
          match e with
          | Some e => (Some e, st)
          | None => (validateForwarding incomingPath upstreamPath conv (auth route), st)
          end
      end
  end.

Fixpoint validateRoutes (index : nat) (routes : list AdvancedCustomRoute) (st : ValidateState)
    : option AdvancedCustomValidationError :=
  match routes with
  | [] => None
  | route :: rest =>
      match validateRoute index route st with
      | (Some e, _) => Some (MkError e (Some index))
      | (None, st) => validateRoutes (S index) rest st
      end
  end.

Definition validateAdvancedCustomConfig (config : option AdvancedCustomConfig)
    : option AdvancedCustomValidationError :=
  match config with
  | None => Some (MkError (js "Advanced custom configuration is required") None)
  | Some config =>
      match normalizedRoutes config with
      | [] => Some (MkError (js "Advanced custom configuration requires at least one route") None)
      | routes => validateRoutes 0 routes (MkValidate ∅ None None)
      end
  end.

Definition hasValidAdvancedCustomModelListRoute (config : option AdvancedCustomConfig) : bool :=
  match config, validateAdvancedCustomConfig config with
  | Some c, None => existsb (routeHasPath ADVANCED_CUSTOM_MODEL_LIST_PATH) (normalizedRoutes c)
  | _, _ => false
  end.

Definition advancedCustomConfigUsesRelativeUpstreamPath (config : option AdvancedCustomConfig)
    : bool :=
  match config with
  | None => false
  | Some c => existsb (fun r => startsWith (getAdvancedCustomRouteUpstreamPath r) (js "/"))
                (normalizedRoutes c)
  end.

(** ** Specification of a valid table

    Each route on its own, then what two routes of the same path must satisfy:
    the earlier one is no catch-all and they share no model rule. *)

Definition model_rule_ok (model : jstring) : Prop := model <> ADVANCED_CUSTOM_MODEL_REGEX_PREFIX.

(** [p] is a part of [s]. *)
Definition occurs (p s : jstring) : Prop := exists before after, s = before ++ p ++ after.

(** An incoming path: a slash first, and no query. *)
Definition incoming_ok (p : jstring) : Prop := (exists rest, p = js "/" ++ rest) /\ ~ occurs (js "?") p.

(** An upstream path: a path of the channel's own host, or the address of a
    host to be reached over HTTP. An address without a scheme ([//host/...])
    is neither. *)
Inductive upstream_ok : jstring -> Prop :=
| upstream_path_ok rest : ~ (exists more, rest = js "/" ++ more) -> upstream_ok (js "/" ++ rest)
| upstream_url_ok u host protocol :
    ~ (exists rest, u = js "/" ++ rest) -> u <> [] -> URL u = Some (host, protocol) -> host <> [] ->
    protocol ∈ [js "http:"; js "https:"] -> upstream_ok u.

(** Which converter serves which incoming path. A path that names a method of
    Gemini carries its model before the method, and no other converter looks
    inside the path. *)
Inductive converter_ok (p : jstring) : jstring -> Prop :=
| native_ok : converter_ok p (js "none")
| from_messages : p = js "/v1/messages" ->
    converter_ok p (js "anthropic_messages_to_openai_chat_completions")
| from_chat target : p = js "/v1/chat/completions" ->
    target ∈ [js "anthropic_messages"; js "openai_responses"; js "gemini_generate_content"] ->
    converter_ok p (js "openai_chat_completions_to_" ++ target)
| from_responses target : p = js "/v1/responses" ->
    target ∈ [js "openai_chat_completions"; js "gemini_generate_content"] ->
    converter_ok p (js "openai_responses_to_" ++ target)
| from_gemini : p <> js "/v1/alpha/search" ->
    occurs (js ":generateContent") p \/ occurs (js ":streamGenerateContent") p ->
    converter_ok p (js "gemini_generate_content_to_openai_chat_completions").

(** [s] shows something once the blanks around it are gone. *)
Definition shown (s : option jstring) : Prop := exists t, s = Some t /\ trim t <> [].

(** The credentials sent upstream: those of the protocol, none, or a named
    header or parameter with a value. *)
Inductive auth_ok : option AdvancedCustomRouteAuth -> Prop :=
| auth_default_ok : auth_ok None
| auth_none_ok name value : auth_ok (Some (MkAuth (Some (js "none")) name value))
| auth_sent_ok kind name value : kind ∈ [js "header"; js "query"] -> shown name -> shown value ->
    auth_ok (Some (MkAuth (Some kind) name value)).

Record route_ok (r : AdvancedCustomRoute) : Prop := {
  ok_path : incoming_ok (routePath r);
  ok_management :
    routePath r ∈ [ADVANCED_CUSTOM_MODEL_LIST_PATH; ADVANCED_CUSTOM_BALANCE_PATH] ->
    normalizeAdvancedCustomRouteModels (models r) = [] /\
    ojor (converter r) c_none = js "none" /\
    ~ occurs (js "{model}") (getAdvancedCustomRouteUpstreamPath r);
  ok_models : Forall model_rule_ok (normalizeAdvancedCustomRouteModels (models r));
  ok_models_NoDup : NoDup (normalizeAdvancedCustomRouteModels (models r));
  ok_upstream : upstream_ok (getAdvancedCustomRouteUpstreamPath r);
  ok_converter : converter_ok (routePath r) (ojor (converter r) c_none);
  ok_auth : auth_ok (auth r)
}.

Definition routes_compatible (r1 r2 : AdvancedCustomRoute) : Prop :=
  routePath r1 = routePath r2 ->
  let m1 := normalizeAdvancedCustomRouteModels (models r1) in
  let m2 := normalizeAdvancedCustomRouteModels (models r2) in
  m1 <> [] /\ forall m, m ∈ m1 -> m ∉ m2.

Definition valid_routes (routes : list AdvancedCustomRoute) : Prop :=
  Forall route_ok routes /\ ForallOrdPairs routes_compatible routes.
End Validator.

(** ** Lemmas of the validator *)

Lemma regex_pattern_empty m :
  emptyRegexRule m = true <-> m = ADVANCED_CUSTOM_MODEL_REGEX_PREFIX.
Proof.
  unfold emptyRegexRule, getAdvancedCustomModelRuleKind, getAdvancedCustomRegexModelPattern.
  destruct (startsWith _ _) eqn:E.
  - apply startsWith_app in E as [k ->]. rewrite drop_app_length, jeqb_eq.
    split; [intros ->; apply app_nil_r|]. intros H. apply (app_inv_head ADVANCED_CUSTOM_MODEL_REGEX_PREFIX). by rewrite app_nil_r.
  - split; [done|]. intros ->. by vm_compute in E.
Qed.

Lemma includes_occurs s p : includes s p = true <-> occurs p s.
Proof.
  unfold includes, occurs. induction s as [|c s IH]; cbn [indexOf].
  - destruct (startsWith [] p) eqn:E.
    + apply startsWith_app in E as [k Hk]. split; [|done]. intros _. by exists [], k.
    + split; [done|]. intros (a & b & H). destruct a, p; by cbn in *.
  - destruct (startsWith (c :: s) p) eqn:E.
    + apply startsWith_app in E as [k Hk]. split; [|done]. intros _. by exists [], k.
    + transitivity (exists before after, s = before ++ p ++ after).
      { rewrite <- IH. by destruct (indexOf s p). }
      split; [intros (a & b & ->); by exists (c :: a), b|].
      intros ([|d a] & b & H); [|injection H as -> ->; by exists a, b].
      assert (startsWith (c :: s) p = true) by (apply startsWith_app; by exists b). congruence.
Qed.

Lemma includes_not_occurs s p : includes s p = false <-> ~ occurs p s.
Proof. by rewrite <- includes_occurs, not_true_iff_false. Qed.

Lemma startsWith_not s p : startsWith s p = false <-> ~ (exists k, s = p ++ k).
Proof. by rewrite <- startsWith_app, not_true_iff_false. Qed.

Lemma validateIncomingPath_spec p : validateIncomingPath p = None <-> incoming_ok p.
Proof.
  unfold validateIncomingPath, incoming_ok. rewrite <- includes_not_occurs, <- startsWith_app.
  destruct p as [|c p]; cbn [truthy negb]; [naive_solver|].
  destruct (startsWith _ _); cbn [negb]; [|naive_solver]. destruct (includes _ _); naive_solver.
Qed.

Lemma upstream_spec URL u :
  truthy u && isFullHttpURLOrAbsolutePath URL u = true <-> upstream_ok URL u.
Proof.
  unfold isFullHttpURLOrAbsolutePath. rewrite andb_true_iff, truthy_true. split.
  - intros [Hu H]. destruct (startsWith u (js "/")) eqn:E.
    + apply negb_true_iff, startsWith_not in H. apply startsWith_app in E as [k ->].
      constructor. intros [more ->]. apply H. by exists more.
    + apply startsWith_not in E. destruct (URL u) as [[host protocol]|] eqn:EU; [|done].
      apply andb_true_iff in H as [H1 H2]. apply truthy_true in H1.
      rewrite orb_true_iff, !jeqb_eq in H2. eapply upstream_url_ok; eauto. set_solver.
  - intros [rest Hn|u' host protocol Hn Hu EU Hh Hp].
    + split; [done|]. rewrite (proj2 (startsWith_app (js "/" ++ rest) (js "/"))) by eauto.
      apply negb_true_iff, startsWith_not. intros [k H]. apply Hn. exists k.
      by injection H.
    + split; [done|]. apply startsWith_not in Hn. rewrite Hn, EU, (proj2 (truthy_true host)) by done.
      cbn [andb]. rewrite orb_true_iff, !jeqb_eq. set_solver.
Qed.

Lemma allowed_table p :
  isConverterPathAllowed p c_none = true /\
  isConverterPathAllowed p c_anthropic_to_chat =
    (if jeqb p (js "/v1/alpha/search") then false else jeqb p (js "/v1/messages")) /\
  Forall (fun target => isConverterPathAllowed p (js "openai_chat_completions_to_" ++ target) =
    if jeqb p (js "/v1/alpha/search") then false else jeqb p (js "/v1/chat/completions"))
    [js "anthropic_messages"; js "openai_responses"; js "gemini_generate_content"] /\
  Forall (fun target => isConverterPathAllowed p (js "openai_responses_to_" ++ target) =
    if jeqb p (js "/v1/alpha/search") then false else jeqb p (js "/v1/responses"))
    [js "openai_chat_completions"; js "gemini_generate_content"] /\
  isConverterPathAllowed p c_gemini_to_chat =
    (if jeqb p (js "/v1/alpha/search") then false
     else includes p (js ":generateContent") || includes p (js ":streamGenerateContent")).
Proof. split_and!; [..|reflexivity]; [reflexivity..| |]; repeat constructor. Qed.

Lemma not_alpha p q : jeqb q (js "/v1/alpha/search") = false ->
  (if jeqb p (js "/v1/alpha/search") then false else jeqb p q) = true <-> p = q.
Proof.
  intros Hq. destruct (jeqb p (js "/v1/alpha/search")) eqn:E; [|apply jeqb_eq].
  apply jeqb_eq in E as ->. apply jeqb_neq in Hq. split; [done|congruence].
Qed.

(** The converters registered, as the specification spells them. *)
Lemma converter_cases c : isAdvancedCustomConverter c = true <->
  c = c_none \/ c = c_anthropic_to_chat \/
  (exists target, c = js "openai_chat_completions_to_" ++ target /\
     target ∈ [js "anthropic_messages"; js "openai_responses"; js "gemini_generate_content"]) \/
  (exists target, c = js "openai_responses_to_" ++ target /\
     target ∈ [js "openai_chat_completions"; js "gemini_generate_content"]) \/
  c = c_gemini_to_chat.
Proof.
  unfold isAdvancedCustomConverter. cbn [existsb ADVANCED_CUSTOM_CONVERTER_OPTIONS fst].
  rewrite !orb_true_iff, !jeqb_eq. split.
  - intros [<-|[<-|[<-|[<-|[<-|[<-|[<-|[<-|H]]]]]]]]; [tauto|tauto|..|done].
    + right; right; left. exists (js "anthropic_messages"). split; [reflexivity|set_solver].
    + right; right; left. exists (js "openai_responses"). split; [reflexivity|set_solver].
    + right; right; right; left. exists (js "openai_chat_completions"). split; [reflexivity|set_solver].
    + right; right; right; left. exists (js "gemini_generate_content"). split; [reflexivity|set_solver].
    + tauto.
    + right; right; left. exists (js "gemini_generate_content"). split; [reflexivity|set_solver].
  - intros [->|[->|[(t & -> & Ht)|[(t & -> & Ht)| ->]]]]; [tauto..| | |tauto];
      rewrite !elem_of_cons, elem_of_nil in Ht; destruct_or!; subst; tauto.
Qed.

Lemma converter_spec p c :
  isAdvancedCustomConverter c && isConverterPathAllowed p c = true <-> converter_ok p c.
Proof.
  destruct (allowed_table p) as (T1 & T2 & T3 & T4 & T5).
  rewrite andb_true_iff, converter_cases. rewrite Forall_forall in T3, T4. split.
  - intros [[->|[->|[(t & -> & Ht)|[(t & -> & Ht)| ->]]]] Hp].
    + constructor.
    + rewrite T2, not_alpha in Hp by reflexivity. by constructor.
    + rewrite (T3 _ Ht), not_alpha in Hp by reflexivity. by constructor.
    + rewrite (T4 _ Ht), not_alpha in Hp by reflexivity. by constructor.
    + rewrite T5 in Hp. destruct (jeqb p _) eqn:E; [done|]. apply jeqb_neq in E.
      rewrite orb_true_iff, !includes_occurs in Hp. by constructor.
  - intros [|Hp|t Hp Ht|t Hp Ht|Hn Hp].
    + tauto.
    + change (js "anthropic_messages_to_openai_chat_completions") with c_anthropic_to_chat.
      rewrite T2, not_alpha by reflexivity. tauto.
    + rewrite (T3 _ Ht), not_alpha by reflexivity. eauto 10.
    + rewrite (T4 _ Ht), not_alpha by reflexivity. eauto 10.
    + change (js "gemini_generate_content_to_openai_chat_completions") with c_gemini_to_chat.
      rewrite T5. apply jeqb_neq in Hn. rewrite Hn, orb_true_iff, !includes_occurs. tauto.
Qed.

Lemma shown_spec s : truthy (trim (coalesce s [])) = true <-> shown s.
Proof.
  rewrite truthy_true. unfold shown. destruct s as [t|]; cbn; [naive_solver|].
  split; [done|]. by intros (? & ? & _).
Qed.

Lemma auth_spec a : validateRouteAuth a = None <-> auth_ok a.
Proof.
  destruct a as [[kind name value]|]; [|by split; [constructor|]].
  unfold validateRouteAuth, authTypeIs. cbn [auth_type auth_name auth_value].
  case_bool_decide as E1; [subst; by split; [constructor|]|].
  pose proof (shown_spec name) as Hn. pose proof (shown_spec value) as Hv.
  destruct (negb (bool_decide (kind = Some (js "header"))) && _) eqn:E2.
  { rewrite andb_true_iff, !negb_true_iff, !bool_decide_eq_false in E2. split; [done|].
    inversion 1; subst; set_solver. }
  assert (exists k, kind = Some k /\ k ∈ [js "header"; js "query"]) as (k & -> & Hk).
  { rewrite andb_false_iff, !negb_false_iff, !bool_decide_eq_true in E2. set_solver. }
  destruct (truthy (trim (coalesce name []))); cbn [negb].
  - destruct (truthy (trim (coalesce value []))); cbn [negb].
    + split; [|done]. intros _. apply auth_sent_ok; tauto.
    + split; [done|]. inversion 1; subst; [done|]. assert (false = true) by tauto. done.
  - split; [done|]. inversion 1; subst; [done|]. assert (false = true) by tauto. done.
Qed.

Lemma validateForwarding_spec URL p u c a :
  validateForwarding URL p u c a = None <-> upstream_ok URL u /\ converter_ok p c /\ auth_ok a.
Proof.
  unfold validateForwarding. rewrite <- upstream_spec, <- converter_spec, <- auth_spec.
  destruct (truthy u), (isFullHttpURLOrAbsolutePath URL u), (isAdvancedCustomConverter c),
    (isConverterPathAllowed p c); cbn [negb andb]; naive_solver.
Qed.

(** The models of a route extend the map of its path. *)
Definition models_fresh (seen : list jstring) (ms : gmap jstring nat) (models : list jstring) : Prop :=
  Forall model_rule_ok models /\ NoDup models /\
  (forall m, m ∈ models -> (m ∉ seen) /\ ms !! m = None).

Lemma models_fresh_cons seen ms x models i :
  models_fresh seen ms (x :: models) <->
  model_rule_ok x /\ (x ∉ seen) /\ ms !! x = None /\
  models_fresh (x :: seen) (<[x := i]> ms) models.
Proof.
  unfold models_fresh. rewrite Forall_cons, NoDup_cons. split.
  - intros ([Hx Hm] & [Hn Hd] & H). destruct (H x) as [Hs Hl]; [by left|].
    split_and!; try done. intros m Hin. destruct (H m) as [Hs' Hl']; [by right|].
    assert (m <> x) by (intros ->; done). rewrite lookup_insert_ne by done. set_solver.
  - intros (Hx & Hs & Hl & Hm & Hd & H). split_and!; try done.
    + intros Hin. destruct (H x Hin) as [Hn _]. set_solver.
    + intros m [->|Hin]%elem_of_cons; [done|]. destruct (H m Hin) as [Hn Hl'].
      apply not_elem_of_cons in Hn as [Hne Hn]. by rewrite lookup_insert_ne in Hl' by done.
Qed.

Lemma checkModels_spec i models : forall seen ms,
  match checkModels i seen ms models with
  | (None, ms') =>
      models_fresh seen ms models /\
      (forall m, is_Some (ms' !! m) <-> is_Some (ms !! m) \/ (m ∈ models))
  | (Some _, _) => ~ models_fresh seen ms models
  end.
Proof.
  induction models as [|x models IH]; intros seen ms; cbn [checkModels].
  { split; [split_and!; [by constructor..|by intros m ?%elem_of_nil]|].
    intros m. rewrite elem_of_nil. tauto. }
  destruct (emptyRegexRule x) eqn:E1.
  { apply regex_pattern_empty in E1. by intros ([? _]%Forall_cons & _). }
  case_bool_decide as E2; [rewrite (models_fresh_cons _ _ _ _ i); tauto|].
  destruct (ms !! x) eqn:E3; [rewrite (models_fresh_cons _ _ _ _ i); naive_solver|].
  specialize (IH (x :: seen) (<[x := i]> ms)).
  assert (model_rule_ok x) as Hx by (intros Hx; apply regex_pattern_empty in Hx; congruence).
  destruct (checkModels _ _ _ _) as [[e|] ms']; rewrite (models_fresh_cons _ _ _ _ i); [tauto|].
  destruct IH as [H1 H2]. split; [done|]. intros m. rewrite H2, elem_of_cons.
  destruct (decide (m = x)) as [->|Hn]; [rewrite lookup_insert_eq; naive_solver|].
  rewrite lookup_insert_ne by done. tauto.
Qed.

Abbreviation route_models r := (normalizeAdvancedCustomRouteModels (models r)).

(** What the validator knows of the routes it has gone through. *)
Definition path_state (byPath : gmap jstring RouteModelsState) (p : jstring) : RouteModelsState :=
  coalesce (byPath !! p) (MkState None ∅).

Record knows (seen : list AdvancedCustomRoute) (st : ValidateState) : Prop := {
  knows_catch_all : forall p, is_Some (catchAllIndex (path_state (routeModelsByPath st) p)) <->
    Exists (fun d => routePath d = p /\ route_models d = []) seen;
  knows_models : forall p m, is_Some (state_models (path_state (routeModelsByPath st) p) !! m) <->
    Exists (fun d => routePath d = p /\ m ∈ route_models d) seen;
  knows_list : is_Some (modelListRouteIndex st) <->
    Exists (fun d => routePath d = ADVANCED_CUSTOM_MODEL_LIST_PATH) seen;
  knows_balance : is_Some (balanceRouteIndex st) <->
    Exists (fun d => routePath d = ADVANCED_CUSTOM_BALANCE_PATH) seen
}.

Lemma knows_nil : knows [] (MkValidate ∅ None None).
Proof.
  split; intros; rewrite Exists_nil; cbn; unfold path_state; rewrite ?lookup_empty; cbn;
    rewrite ?lookup_empty; split; try done; by intros [? ?].
Qed.

Lemma compatible_all seen r :
  Forall (fun d => routes_compatible d r) seen <->
  ~ Exists (fun d => routePath d = routePath r /\ route_models d = []) seen /\
  forall m, m ∈ route_models r -> ~ Exists (fun d => routePath d = routePath r /\ m ∈ route_models d) seen.
Proof.
  rewrite Forall_forall. setoid_rewrite Exists_exists. unfold routes_compatible.
  split; [|intros [H1 H2] d Hd E; split; naive_solver].
  intros H. split.
  - intros (d & Hd & E & Hm). by destruct (H d Hd E).
  - intros m Hm (d & Hd & E & Hm'). destruct (H d Hd E) as [_ Hn]. by apply (Hn m).
Qed.

Lemma validateModels_spec i p ms byPath :
  let s := path_state byPath p in
  match validateAdvancedCustomRouteModels i p ms byPath with
  | (None, byPath') =>
      models_fresh [] (state_models s) ms /\ catchAllIndex s = None /\
      exists s', (is_Some (catchAllIndex s') <-> ms = []) /\
        (forall m, is_Some (state_models s' !! m) <-> is_Some (state_models s !! m) \/ (m ∈ ms)) /\
        forall q, path_state byPath' q = if decide (p = q) then s' else path_state byPath q
  | (Some _, _) => ~ (models_fresh [] (state_models s) ms /\ catchAllIndex s = None)
  end.
Proof.
  cbn zeta. unfold validateAdvancedCustomRouteModels.
  change (coalesce (byPath !! p) (MkState None ∅)) with (path_state byPath p).
  set (s := path_state byPath p).
  assert (forall s' q, path_state (<[p:=s']> (<[p:=s]> byPath)) q =
    if decide (p = q) then s' else path_state byPath q) as Hlook.
  { intros s' q. unfold path_state. rewrite insert_insert_eq, lookup_insert.
    by case_decide. }
  destruct ms as [|m ms]; destruct (catchAllIndex s) eqn:Hc; try (intros [_ ?]; congruence).
  - split; [by split_and!; [constructor..|intros m ?%elem_of_nil]|split; [done|]].
    exists (MkState (Some i) (state_models s)).
    split; [by cbn|split; [|apply Hlook]]. intros m. rewrite elem_of_nil. cbn. tauto.
  - pose proof (checkModels_spec i (m :: ms) [] (state_models s)) as C.
    destruct (checkModels i [] (state_models s) (m :: ms)) as [[e|] ms']; [tauto|].
    destruct C as [C1 C2]. split; [done|split; [done|]]. exists (MkState None ms').
    split; [|split; [done|apply Hlook]]. split; [by intros [? ?]|done].
Qed.

Definition management_ok (r : AdvancedCustomRoute) : Prop :=
  route_models r = [] /\ ojor (converter r) c_none = c_none /\
  ~ occurs (js "{model}") (getAdvancedCustomRouteUpstreamPath r).

Lemma isManagementRoute_path r : isManagementRoute r = true <->
  routePath r = ADVANCED_CUSTOM_MODEL_LIST_PATH \/ routePath r = ADVANCED_CUSTOM_BALANCE_PATH.
Proof.
  unfold isManagementRoute, isAdvancedCustomManagementPath. by rewrite orb_true_iff, !jeqb_eq.
Qed.

Lemma management_elem r : isManagementRoute r = true <->
  routePath r ∈ [ADVANCED_CUSTOM_MODEL_LIST_PATH; ADVANCED_CUSTOM_BALANCE_PATH].
Proof. rewrite isManagementRoute_path. set_solver. Qed.

Lemma management_paths_differ : ADVANCED_CUSTOM_MODEL_LIST_PATH <> ADVANCED_CUSTOM_BALANCE_PATH.
Proof. by vm_compute. Qed.

Definition record_management (i : nat) (r : AdvancedCustomRoute) (st : ValidateState) : ValidateState :=
  if jeqb (routePath r) ADVANCED_CUSTOM_MODEL_LIST_PATH
  then MkValidate (routeModelsByPath st) (Some i) (balanceRouteIndex st)
  else MkValidate (routeModelsByPath st) (modelListRouteIndex st) (Some i).

Lemma validateManagement_checks i r st :
  match validateManagementRoute i (routePath r) (getAdvancedCustomRouteUpstreamPath r)
          (ojor (converter r) c_none) (route_models r) st with
  | (None, st') => management_ok r /\
      (if jeqb (routePath r) ADVANCED_CUSTOM_MODEL_LIST_PATH
       then modelListRouteIndex st else balanceRouteIndex st) = None /\
      st' = record_management i r st
  | (Some _, _) => ~ management_ok r \/
      is_Some (if jeqb (routePath r) ADVANCED_CUSTOM_MODEL_LIST_PATH
               then modelListRouteIndex st else balanceRouteIndex st)
  end.
Proof.
  unfold validateManagementRoute, management_ok.
  destruct (if jeqb _ _ then _ else _) eqn:E; [right; eauto|].
  destruct (route_models r); cbn [length]; [|by left; intros [? _]].
  cbn [Nat.ltb Nat.leb]. destruct (jeqb (ojor _ _) _) eqn:E2; cbn [negb].
  - apply jeqb_eq in E2. destruct (includes _ _) eqn:E3.
    + apply includes_occurs in E3. by left; intros (_ & _ & ?).
    + apply includes_not_occurs in E3. done.
  - apply jeqb_neq in E2. by left; intros (_ & ? & _).
Qed.

Section ValidatorSpec.
Context (URL : jstring -> option (jstring * jstring)).

(** A second management route conflicts with the first one. *)
Lemma management_conflict seen r st :
  knows seen st -> Forall (route_ok URL) seen -> isManagementRoute r = true ->
  is_Some (if jeqb (routePath r) ADVANCED_CUSTOM_MODEL_LIST_PATH
           then modelListRouteIndex st else balanceRouteIndex st) ->
  ~ Forall (fun d => routes_compatible d r) seen.
Proof.
  intros K Hok Hm Hs. assert (Exists (fun d => routePath d = routePath r) seen) as He.
  { destruct (jeqb _ _) eqn:E.
    - apply jeqb_eq in E. rewrite E. by apply K.
    - apply jeqb_neq in E. apply isManagementRoute_path in Hm as [?|E']; [done|].
      rewrite E'. by apply K. }
  rewrite compatible_all. intros [Hn _]. apply Hn.
  apply Exists_exists in He as (d & Hd & E). apply Exists_exists. exists d. split; [done|].
  split; [done|]. rewrite Forall_forall in Hok. apply (Hok d Hd).
  apply management_elem. unfold isManagementRoute in *. by rewrite E.
Qed.

(** The indexes of the management routes after one more route. *)
Lemma knows_indexes seen r st i :
  knows seen st ->
  let st' := if isManagementRoute r then record_management i r st else st in
  routeModelsByPath st' = routeModelsByPath st /\
  (is_Some (modelListRouteIndex st') <->
     Exists (fun d => routePath d = ADVANCED_CUSTOM_MODEL_LIST_PATH) (seen ++ [r])) /\
  (is_Some (balanceRouteIndex st') <->
     Exists (fun d => routePath d = ADVANCED_CUSTOM_BALANCE_PATH) (seen ++ [r])).
Proof.
  intros K. cbn zeta. unfold record_management. rewrite !Exists_app, !Exists_cons, !Exists_nil.
  pose proof (isManagementRoute_path r) as M. pose proof management_paths_differ as D.
  rewrite <- (knows_list _ _ K), <- (knows_balance _ _ K).
  assert (forall o : nat, is_Some (Some o) <-> True) as S by (intros o; split; eauto).
  destruct (isManagementRoute r).
  - destruct (jeqb _ _) eqn:E; [apply jeqb_eq in E|apply jeqb_neq in E]; cbn; rewrite S;
      (split; [done|]).
    + assert (routePath r <> ADVANCED_CUSTOM_BALANCE_PATH) by congruence. tauto.
    + tauto.
  - assert (routePath r <> ADVANCED_CUSTOM_MODEL_LIST_PATH /\
            routePath r <> ADVANCED_CUSTOM_BALANCE_PATH) as [N1 N2].
    { split; intros N; assert (false = true) by (apply M; tauto); done. }
    tauto.
Qed.

(** One more route: the knowledge of its path. *)
Lemma knows_step seen r st st1 byPath s' :
  knows seen st ->
  routeModelsByPath st1 = routeModelsByPath st ->
  (is_Some (modelListRouteIndex st1) <->
     Exists (fun d => routePath d = ADVANCED_CUSTOM_MODEL_LIST_PATH) (seen ++ [r])) ->
  (is_Some (balanceRouteIndex st1) <->
     Exists (fun d => routePath d = ADVANCED_CUSTOM_BALANCE_PATH) (seen ++ [r])) ->
  catchAllIndex (path_state (routeModelsByPath st) (routePath r)) = None ->
  (is_Some (catchAllIndex s') <-> route_models r = []) ->
  (forall m, is_Some (state_models s' !! m) <->
     is_Some (state_models (path_state (routeModelsByPath st) (routePath r)) !! m) \/ (m ∈ route_models r)) ->
  (forall q, path_state byPath q =
     if decide (routePath r = q) then s' else path_state (routeModelsByPath st) q) ->
  knows (seen ++ [r]) (MkValidate byPath (modelListRouteIndex st1) (balanceRouteIndex st1)).
Proof.
  intros K E1 HL HB Hc Hs1 Hs2 Hq. split; cbn; [| |done|done].
  - intros p. rewrite Hq, Exists_app, Exists_cons, Exists_nil, <- (knows_catch_all _ _ K).
    case_decide as D; [subst p; rewrite Hc, Hs1|tauto].
    assert (~ is_Some (@None nat)) by (by intros [? ?]). tauto.
  - intros p m. rewrite Hq, Exists_app, Exists_cons, Exists_nil, <- (knows_models _ _ K).
    case_decide as D; [subst p; rewrite Hs2|]; tauto.
Qed.

Lemma validateRoute_spec seen i r st :
  knows seen st -> Forall (route_ok URL) seen ->
  match validateRoute URL i r st with
  | (None, st') => route_ok URL r /\ Forall (fun d => routes_compatible d r) seen /\
                   knows (seen ++ [r]) st'
  | (Some _, _) => ~ (route_ok URL r /\ Forall (fun d => routes_compatible d r) seen)
  end.
Proof.
  intros K Hok. unfold validateRoute.
  pose proof (validateIncomingPath_spec (routePath r)) as P.
  destruct (validateIncomingPath (routePath r)) eqn:E1.
  { intros [Hr _]. by apply ok_path, P in Hr. }
  assert (incoming_ok (routePath r)) as Hpath by (by apply P). clear P.
  change (isAdvancedCustomManagementPath (routePath r)) with (isManagementRoute r).
  pose proof (validateManagement_checks i r st) as M.
  destruct (if isManagementRoute r then _ else _) as [[e|] st1] eqn:E2.
  { destruct (isManagementRoute r) eqn:Em; [|done]. rewrite E2 in M.
    intros [Hr Hc]. destruct M as [M|M].
    - apply M. apply (ok_management URL r Hr). by apply management_elem.
    - by apply (management_conflict seen r st). }
  assert (isManagementRoute r = true -> management_ok r) as Hm.
  { intros Hm. rewrite Hm, E2 in *. tauto. }
  assert (st1 = if isManagementRoute r then record_management i r st else st) as Hst1.
  { destruct (isManagementRoute r); [rewrite E2 in M; apply M|congruence]. }
  destruct (knows_indexes seen r st i K) as (I1 & I2 & I3).
  rewrite <- Hst1 in I1, I2, I3. clear M E2 Hst1. rewrite I1.
  pose proof (validateModels_spec i (routePath r) (route_models r) (routeModelsByPath st)) as V.
  cbn zeta in V. set (s := path_state _ _) in V.
  assert (models_fresh [] (state_models s) (route_models r) /\ catchAllIndex s = None <->
    Forall model_rule_ok (route_models r) /\ NoDup (route_models r) /\
    Forall (fun d => routes_compatible d r) seen) as Hfresh.
  { rewrite compatible_all, <- (knows_catch_all _ _ K). setoid_rewrite <- (knows_models _ _ K).
    fold s. unfold models_fresh. rewrite <- eq_None_not_Some.
    setoid_rewrite <- eq_None_not_Some. set_solver. }
  destruct (validateAdvancedCustomRouteModels _ _ _ _) as [[e|] byPath].
  { intros [Hr Hc]. apply V, Hfresh. by destruct Hr. }
  destruct V as (V1 & V2 & s' & V3 & V4 & V5).
  destruct (proj1 Hfresh (conj V1 V2)) as (F1 & F2 & F3).
  pose proof (validateForwarding_spec URL (routePath r) (getAdvancedCustomRouteUpstreamPath r)
                (ojor (converter r) c_none) (auth r)) as W.
  destruct (validateForwarding _ _ _ _ _) as [e|].
  { intros [[] _]. assert (Some e = None) by tauto. done. }
  split; [|split; [done|]; by eapply knows_step].
  destruct (proj1 W eq_refl) as (W1 & W2 & W3).
  constructor; auto. intros Hin%management_elem. by apply Hm.
Qed.

Lemma valid_routes_snoc l r : valid_routes URL (l ++ [r]) <->
  valid_routes URL l /\ route_ok URL r /\ Forall (fun d => routes_compatible d r) l.
Proof.
  unfold valid_routes. rewrite Forall_app, Forall_singleton, ForallOrdPairs_snoc. tauto.
Qed.

Lemma valid_routes_prefix l k : valid_routes URL (l ++ k) -> valid_routes URL l.
Proof.
  induction k as [|x k IH] using rev_ind; [by rewrite app_nil_r|].
  rewrite app_assoc, valid_routes_snoc. tauto.
Qed.

Lemma validateRoutes_spec routes : forall i seen st,
  knows seen st -> valid_routes URL seen ->
  match validateRoutes URL i routes st with
  | None => valid_routes URL (seen ++ routes)
  | Some err => exists k, routeIndex err = Some (i + k)%nat /\ (k < length routes)%nat /\
      valid_routes URL (seen ++ take k routes) /\ ~ valid_routes URL (seen ++ take (S k) routes)
  end.
Proof.
  induction routes as [|r routes IH]; intros i seen st K Hv; cbn [validateRoutes].
  { by rewrite app_nil_r. }
  pose proof (validateRoute_spec seen i r st K (proj1 Hv)) as H.
  destruct (validateRoute URL i r st) as [[e|] st'].
  - exists 0%nat. cbn [take routeIndex length]. rewrite app_nil_r, Nat.add_0_r, valid_routes_snoc.
    split_and!; [done|lia|done|tauto].
  - destruct H as (Hr & Hc & K').
    specialize (IH (S i) (seen ++ [r]) st' K'). rewrite valid_routes_snoc in IH.
    specialize (IH (conj Hv (conj Hr Hc))). destruct (validateRoutes URL (S i) routes st') as [err|].
    + destruct IH as (k & H1 & H2 & H3 & H4). exists (S k).
      rewrite <- !app_assoc in *. cbn [take app length] in *.
      split_and!; [rewrite H1; f_equal; lia|lia|done|done].
    + by rewrite <- app_assoc in IH.
Qed.
End ValidatorSpec.

(** ** Lemmas of the normalization and the editing operations *)

Lemma ojor_Some s t : ojor (Some s) t = jor s t.
Proof. done. Qed.

Lemma jor_idem s t : jor (jor s t) t = jor s t.
Proof. unfold jor. destruct (truthy s) eqn:E; [by rewrite E|]. by destruct (truthy t). Qed.

Lemma normalizeModels_idem ms :
  normalizeAdvancedCustomRouteModels
    (match normalizeAdvancedCustomRouteModels ms with
     | [] => None | _ => Some (normalizeAdvancedCustomRouteModels ms) end) =
  normalizeAdvancedCustomRouteModels ms.
Proof.
  destruct (normalizeAdvancedCustomRouteModels ms) eqn:E; [done|]. rewrite <- E. clear.
  destruct ms as [l|]; [|done]. cbn. rewrite (map_ext_Forall trim id), map_id.
  - apply Forall_true_filter, filter_Forall.
  - apply List.Forall_forall. intros x [[y [<- _]]%in_map_iff _]%filter_In. apply trim_idem.
Qed.

Lemma normalizeRoute_idem r :
  normalizeAdvancedCustomRoute (normalizeAdvancedCustomRoute r) = normalizeAdvancedCustomRoute r.
Proof.
  destruct r as [ip up cv ms au].
  unfold normalizeAdvancedCustomRoute, getAdvancedCustomRouteUpstreamPath.
  cbn [incoming_path upstream_path converter models auth].
  rewrite normalizeModels_idem, !ojor_Some, !jor_nil_r, trim_idem. f_equal.
  - unfold ojor. by rewrite jor_idem.
  - destruct au; [|done]. cbn [auth_type auth_name auth_value].
    by rewrite !ojor_Some, !jor_nil_r.
Qed.

Lemma normalizedRoutes_eq c :
  normalizedRoutes c = map normalizeAdvancedCustomRoute (coalesce (advanced_routes c) []).
Proof. done. Qed.

(** Every normalized route is its own normalization. *)
Lemma normalizedRoutes_fixed c : map normalizeAdvancedCustomRoute (normalizedRoutes c) = normalizedRoutes c.
Proof.
  rewrite normalizedRoutes_eq, map_map. apply map_ext_Forall, Forall_forall.
  intros r _. apply normalizeRoute_idem.
Qed.

Lemma routeHasPath_normalize p r :
  routeHasPath p (normalizeAdvancedCustomRoute r) = jeqb (routePath r) p.
Proof.
  unfold routeHasPath, normalizeAdvancedCustomRoute, routePath. cbn [incoming_path].
  unfold ojor. by rewrite jor_nil_r.
Qed.

Lemma routePath_normalize r : routePath (normalizeAdvancedCustomRoute r) = routePath r.
Proof. unfold routePath at 1. cbn. unfold ojor, id. by rewrite jor_nil_r. Qed.

Lemma isManagementRoute_normalize r :
  isManagementRoute (normalizeAdvancedCustomRoute r) = isManagementRoute r.
Proof. unfold isManagementRoute. by rewrite routePath_normalize. Qed.

(** On a normalized table, looking up a path compares [routePath]. *)
Lemma routeHasPath_normalized c p r : r ∈ normalizedRoutes c ->
  routeHasPath p r = jeqb (routePath r) p.
Proof.
  rewrite normalizedRoutes_eq. intros (q & -> & _)%list_elem_of_fmap.
  by rewrite routeHasPath_normalize, routePath_normalize.
Qed.

Lemma managementRoute_path path r : routePath (managementRoute path r) = trim path.
Proof. done. Qed.

Lemma getManagement_routes c path :
  getAdvancedCustomManagementRoute c path =
  List.find (fun r => jeqb (routePath r) path) (normalizedRoutes c).
Proof.
  unfold getAdvancedCustomManagementRoute.
  pose proof (routeHasPath_normalized c path) as H. revert H.
  generalize (normalizedRoutes c). intros l H. induction l as [|r l IH]; [done|]. cbn.
  rewrite H by by left. destruct (jeqb _ _); [done|]. apply IH. intros q Hq. apply H. by right.
Qed.

#[local] Arguments routePath : simpl never.
#[local] Arguments managementRoute : simpl never.
#[local] Arguments normalizeAdvancedCustomRoute : simpl never.
#[local] Arguments normalizedRoutes : simpl never.
#[local] Arguments isManagementRoute : simpl never.

(** The table after a replacement: the routes around the replaced one. *)
Lemma replaceManagement_shape c path x :
  trim path = path ->
  exists l1 old l2, normalizedRoutes c = l1 ++ old ++ l2 /\
    normalizedRoutes (replaceAdvancedCustomManagementRoute c path x) =
      l1 ++ (normalizeAdvancedCustomRoute <$> (managementRoute path <$> option_list x)) ++ l2 /\
    Forall (fun r => jeqb (routePath r) path = false) l1 /\
    (exists o : option AdvancedCustomRoute, old = option_list o) /\
    Forall (fun r => jeqb (routePath r) path = true) old /\
    (old = [] -> l2 = []).
Proof.
  intros Hp. pose proof (routeHasPath_normalized c path) as H.
  pose proof (normalizedRoutes_fixed c) as F.
  assert (forall l : list AdvancedCustomRoute, normalizedRoutes (MkConfig (Some l)) = map normalizeAdvancedCustomRoute l) as E by done.
  unfold replaceAdvancedCustomManagementRoute. rewrite E.
  destruct (find_index _ _) as [i|] eqn:Hi.
  - apply find_index_Some in Hi as (l1 & r & l2 & Hl & <- & Hr & Hl1). rewrite Hl in *.
    rewrite map_app in F. cbn in F. apply app_inj_1 in F as [F1 [= F2 F3]]; [|by rewrite length_map].
    exists l1, [r], l2. split; [done|].
    rewrite take_app_length, drop_app, Nat.sub_succ_l, Nat.sub_diag, drop_ge, app_nil_l by lia.
    split; [|split_and!; [|by exists (Some r)| |done]].
    + destruct x; cbn; rewrite map_app, F1; cbn; by rewrite drop_0, F3.
    + apply Forall_forall. intros q Hq. rewrite <- H by set_solver.
      rewrite Forall_forall in Hl1. auto.
    + constructor; [|done]. rewrite <- H by set_solver. done.
  - apply find_index_None in Hi. exists (normalizedRoutes c), [], [].
    rewrite app_nil_r. split; [done|]. split; [|split_and!; [|by exists None|done|done]].
    + destruct x; cbn; rewrite ?map_app, F; cbn;
        by rewrite ?app_nil_r.
    + apply Forall_forall. intros q Hq. rewrite <- H by done.
      rewrite Forall_forall in Hi. auto.
Qed.

(** ** Properties *)

Lemma validateConfig_valid URL c :
  validateAdvancedCustomConfig URL (Some c) = None <->
  normalizedRoutes c <> [] /\ valid_routes URL (normalizedRoutes c).
Proof.
  unfold validateAdvancedCustomConfig. destruct (normalizedRoutes c) as [|r l] eqn:E; [naive_solver|].
  assert (valid_routes URL []) as Hnil by (split; constructor).
  pose proof (validateRoutes_spec URL (r :: l) 0 [] _ knows_nil Hnil) as H.
  destruct (validateRoutes URL 0 (r :: l) _) as [err|]; [|by split].
  split; [done|]. intros [_ Hv]. destruct H as (k & _ & _ & _ & Hn). destruct Hn.
  cbn [app]. eapply valid_routes_prefix. by rewrite take_drop.
Qed.

(** C37. The validator accepts exactly the tables of the specification: at
    least one route; every route well formed - its incoming path starts with a
    slash and has no query, its upstream path is a path or the address of a
    host over HTTP, its converter is one that serves the incoming path (the
    table [converter_ok]), its credentials are complete, its model rules are
    distinct and none is an empty expression, and a management route forwards
    natively, without model rules and without the model in its upstream path -
    and no two routes of one path in conflict (an earlier catch-all, or a shared
    model rule). The specification is written without the functions of the
    validator. *)
Theorem validate_spec URL c :
  validateAdvancedCustomConfig URL (Some c) = None <->
  normalizedRoutes c <> [] /\ valid_routes URL (normalizedRoutes c).
Proof. apply validateConfig_valid. Qed.

(** A refusal names the first route at fault: the routes before it form a
    valid table, and with it they do not. *)
Theorem validate_first_error URL c err :
  validateAdvancedCustomConfig URL (Some c) = Some err ->
  match routeIndex err with
  | None => normalizedRoutes c = []
  | Some k => (k < length (normalizedRoutes c))%nat /\
      valid_routes URL (take k (normalizedRoutes c)) /\
      ~ valid_routes URL (take (S k) (normalizedRoutes c))
  end.
Proof.
  unfold validateAdvancedCustomConfig. destruct (normalizedRoutes c) as [|r l] eqn:E.
  { by intros [= <-]. }
  assert (valid_routes URL []) as Hnil by (split; constructor).
  pose proof (validateRoutes_spec URL (r :: l) 0 [] _ knows_nil Hnil) as H.
  intros Herr. rewrite Herr in H. destruct H as (k & -> & H). exact H.
Qed.

(** Two routes for one path, the catch-all first. *)
Definition shadowed_config : AdvancedCustomConfig :=
  MkConfig (Some [createAdvancedCustomRoute;
                  MkRoute (Some openAIChatPath) (Some openAIChatPath) None (Some [js "gpt"]) None]).

Lemma validate_first_error_witness :
  (1 < length (normalizedRoutes shadowed_config))%nat /\
  valid_routes (fun _ => None) (take 1 (normalizedRoutes shadowed_config)) /\
  ~ valid_routes (fun _ => None) (take 2 (normalizedRoutes shadowed_config)).
Proof.
  apply (validate_first_error (fun _ => None) shadowed_config
    (MkError (js "Catch-all route must be last for the same incoming path") (Some 1%nat))).
  vm_compute. reflexivity.
Defined.

(** Normalization is idempotent and neutral for the validator: the verdict,
    message and index on a normalized table are those on the raw one. *)
Theorem normalize_idempotent URL c :
  normalizeAdvancedCustomConfig (normalizeAdvancedCustomConfig c) = normalizeAdvancedCustomConfig c /\
  validateAdvancedCustomConfig URL (Some (normalizeAdvancedCustomConfig c)) =
  validateAdvancedCustomConfig URL (Some c).
Proof.
  assert (normalizeAdvancedCustomConfig (normalizeAdvancedCustomConfig c) =
          normalizeAdvancedCustomConfig c) as E.
  { unfold normalizeAdvancedCustomConfig at 1 3. do 2 f_equal. apply normalizedRoutes_fixed. }
  split; [done|]. unfold validateAdvancedCustomConfig, normalizedRoutes. by rewrite E.
Qed.

(** Replacing a management route: the table then answers that path with the
    new route, and every other path as before. *)
Theorem replace_management_get c path r :
  trim path = path ->
  getAdvancedCustomManagementRoute (replaceAdvancedCustomManagementRoute c path (Some r)) path =
    Some (normalizeAdvancedCustomRoute (managementRoute path r)) /\
  forall x other, other <> path ->
    getAdvancedCustomManagementRoute (replaceAdvancedCustomManagementRoute c path x) other =
    getAdvancedCustomManagementRoute c other.
Proof.
  intros Hp. split.
  - destruct (replaceManagement_shape c path (Some r) Hp) as (l1 & old & l2 & _ & E & Hl1 & _).
    rewrite getManagement_routes, E, find_app by done. cbn.
    by rewrite routePath_normalize, managementRoute_path, Hp, jeqb_refl.
  - intros x other Ho.
    destruct (replaceManagement_shape c path x Hp) as (l1 & old & l2 & El & E & _ & [o ->] & Hold & _).
    rewrite !getManagement_routes, E, El. destruct o as [q|], x as [y|]; cbn;
      rewrite ?find_skip; try done; apply jeqb_neq;
      try (rewrite routePath_normalize, managementRoute_path, Hp; congruence).
    all: apply Forall_singleton, jeqb_eq in Hold; congruence.
Qed.

Lemma replace_management_get_witness :
  getAdvancedCustomManagementRoute
    (replaceAdvancedCustomManagementRoute createAdvancedCustomConfig ADVANCED_CUSTOM_BALANCE_PATH
       (Some (createAdvancedCustomManagementRoute ADVANCED_CUSTOM_BALANCE_PATH)))
    ADVANCED_CUSTOM_BALANCE_PATH =
  Some (normalizeAdvancedCustomRoute (managementRoute ADVANCED_CUSTOM_BALANCE_PATH
         (createAdvancedCustomManagementRoute ADVANCED_CUSTOM_BALANCE_PATH))).
Proof. apply replace_management_get. reflexivity. Defined.

(** Removing a management route from a valid table leaves none. *)
Theorem remove_management_get URL c path :
  trim path = path -> isAdvancedCustomManagementPath path = true ->
  validateAdvancedCustomConfig URL (Some c) = None ->
  getAdvancedCustomManagementRoute (replaceAdvancedCustomManagementRoute c path None) path = None.
Proof.
  intros Hp Hm [_ [Hok Hpairs]]%validateConfig_valid.
  destruct (replaceManagement_shape c path None Hp) as (l1 & old & l2 & El & E & Hl1 & [o ->] & Hold & Hnil).
  rewrite getManagement_routes, E, find_app by done. cbn.
  destruct o as [q|]; cbn in Hnil; [|by rewrite Hnil].
  apply Forall_singleton, jeqb_eq in Hold. rewrite El in *.
  destruct (List.find _ l2) as [d|] eqn:Hf; [|done]. apply find_some in Hf as [Hd Hpath].
  apply jeqb_eq in Hpath. apply list_elem_of_In in Hd.
  assert (routes_compatible q d) as Hc.
  { clear - Hpairs Hd. induction l1 as [|x l1 IH]; cbn in Hpairs; apply ForallOrdPairs_cons in Hpairs as [H1 H2].
    - rewrite Forall_forall in H1. auto.
    - auto. }
  assert (route_ok URL q) as Hmq.
  { rewrite Forall_forall in Hok. apply Hok. cbn. set_solver. }
  destruct Hc as [Hne _]; [congruence|]. destruct Hne. apply (ok_management _ _ Hmq).
  apply management_elem. unfold isManagementRoute. by rewrite Hold.
Qed.

Lemma remove_management_get_witness :
  getAdvancedCustomManagementRoute
    (replaceAdvancedCustomManagementRoute
       (MkConfig (Some [createAdvancedCustomRoute;
                        createAdvancedCustomManagementRoute ADVANCED_CUSTOM_MODEL_LIST_PATH]))
       ADVANCED_CUSTOM_MODEL_LIST_PATH None) ADVANCED_CUSTOM_MODEL_LIST_PATH = None.
Proof. apply (remove_management_get (fun _ => None)); vm_compute; reflexivity. Defined.

(** Replacing the forwarding routes leaves the management routes as they are,
    in order, and the new routes are exactly the forwarding routes of the table. *)
Theorem replace_forwarding_keeps_management c fw :
  Forall (fun r => isManagementRoute r = false) fw ->
  let rs := coalesce (advanced_routes (replaceAdvancedCustomForwardingRoutes c fw)) [] in
  List.filter isManagementRoute rs = List.filter isManagementRoute (normalizedRoutes c) /\
  List.filter (fun r => negb (isManagementRoute r)) rs = fw.
Proof.
  intros Hfw. cbn zeta. unfold replaceAdvancedCustomForwardingRoutes.
  assert (forall l, List.filter isManagementRoute (List.filter isManagementRoute l) =
                    List.filter isManagementRoute l) as I.
  { intros l. apply Forall_true_filter, filter_Forall. }
  assert (forall l, List.filter (fun r => negb (isManagementRoute r))
                      (List.filter isManagementRoute l) = []) as N.
  { intros l. apply filter_negb_nil, forallb_forall. by intros x [_ ?]%filter_In. }
  assert (List.filter isManagementRoute fw = [] /\
          List.filter (fun r => negb (isManagementRoute r)) fw = fw) as [F1 F2].
  { split; [by apply Forall_false_filter|]. apply Forall_true_filter.
    eapply Forall_impl; [done|]. cbn. by intros x ->. }
  destruct (find_index _ _) as [i|]; cbn; unfold id; rewrite !List.filter_app, !I, !N, F1, F2.
  - rewrite app_nil_l, app_nil_r, <- List.filter_app, take_drop. done.
  - by rewrite app_nil_r.
Qed.

Lemma replace_forwarding_keeps_management_witness :
  List.filter (fun r => negb (isManagementRoute r))
    (coalesce (advanced_routes (replaceAdvancedCustomForwardingRoutes
       (getAdvancedCustomTemplateConfig (js "all_protocols")) [createAdvancedCustomRoute])) [])
  = [createAdvancedCustomRoute].
Proof.
  apply replace_forwarding_keeps_management. repeat constructor.
Defined.

(** Every template the drawer offers passes the validator, whatever the key
    and whatever the browser's URL parser. *)
Theorem templates_valid URL key :
  validateAdvancedCustomConfig URL (Some (getAdvancedCustomTemplateConfig key)) = None.
Proof.
  assert (Forall (fun o => validateAdvancedCustomConfig URL (Some o.2) = None)
            ADVANCED_CUSTOM_TEMPLATE_OPTIONS) as H.
  { unfold ADVANCED_CUSTOM_TEMPLATE_OPTIONS.
    do 4 (constructor; [vm_compute; reflexivity|]). constructor. }
  unfold getAdvancedCustomTemplateConfig. destruct (List.find _ _) as [o|] eqn:E.
  - apply find_some in E as [Ho _]. rewrite List.Forall_forall in H. by apply H.
  - vm_compute. reflexivity.
Qed.

(** The route the drawer builds for a converter: its default path and defaults. *)
Definition defaultConverterRoute (c : jstring) : AdvancedCustomRoute :=
  let p := getDefaultAdvancedCustomIncomingPath c in
  let d := getAdvancedCustomConverterDefaults c p in
  MkRoute (Some p) (Some d.1) (Some c) None (Some d.2).

(** For every registered converter the default incoming path, upstream path
    and authentication form a route the validator accepts, and the converter is
    among the options shown for that path. *)
Theorem converter_defaults_valid URL c :
  isAdvancedCustomConverter c = true ->
  validateAdvancedCustomConfig URL (Some (MkConfig (Some [defaultConverterRoute c]))) = None /\
  c ∈ map fst (getAdvancedCustomConverterOptions (getDefaultAdvancedCustomIncomingPath c)).
Proof.
  unfold isAdvancedCustomConverter. rewrite existsb_exists. intros ([v l] & Hin & E).
  apply jeqb_eq in E. cbn in E. subst v.
  repeat (destruct Hin as [[= <- <-]|Hin];
    [split; [vm_compute; reflexivity|apply list_elem_of_In; vm_compute; tauto]|]).
  destruct Hin.
Qed.

Lemma converter_defaults_valid_witness :
  validateAdvancedCustomConfig (fun _ => None)
    (Some (MkConfig (Some [defaultConverterRoute c_gemini_to_chat]))) = None.
Proof. apply converter_defaults_valid. reflexivity. Defined.

(** The authentication selector: building the auth of a mode and reading the
    mode back gives the mode, whatever the previous auth was. *)
Theorem auth_mode_roundtrip mode prev r :
  mode ∈ [js "default"; js "none"; js "header"; js "query"] ->
  getAdvancedCustomAuthMode
    (MkRoute (incoming_path r) (upstream_path r) (converter r) (models r)
       (buildAdvancedCustomAuth mode prev)) = mode.
Proof.
  rewrite !elem_of_cons, elem_of_nil.
  intros [->|[->|[->|[->|[]]]]]; vm_compute; reflexivity.
Qed.

Lemma auth_mode_roundtrip_witness :
  getAdvancedCustomAuthMode
    (MkRoute None None None None (buildAdvancedCustomAuth (js "query") (Some bearerHeaderAuth))) = js "query".
Proof.
  apply (auth_mode_roundtrip (js "query") (Some bearerHeaderAuth) (MkRoute None None None None None)).
  apply list_elem_of_In. cbn. tauto.
Defined.
