(* ===== verification/JsValue.v ===== *)
(** * Values of unknown type

    What [unknown] may hold: the values the code inspects with [typeof] before
    it trusts them (a response body, a message of another tab, a payload). *)

From S2P Require Import Prelude.
From Stdlib Require Export QArith_base.
#[global] Open Scope Z_scope.

(** A number of the language: NaN, an infinity, or the real value of a finite
    double.  Only comparisons and classification are used on these, and they are
    exact on the real value. *)
Inductive jsnum :=
| NaN
| Infinity (negative : bool)
| Fin (q : Q).

Inductive jsval :=
| JUndefined
| JNull
| JBool (b : bool)
| JNum (n : jsnum)
| JStr (s : jstring)
| JArr (l : list jsval)
| JObj (fields : list (jstring * jsval)).

Definition num_ltb (a b : jsnum) : bool :=
  match a, b with
  | NaN, _ | _, NaN => false
  | Infinity true, Infinity true => false
  | Infinity true, _ => true
  | Infinity false, _ => false
  | Fin _, Infinity n => negb n
  | Fin p, Fin q => negb (Qle_bool q p)
  end.

Definition num_of_Z (z : Z) : jsnum := Fin (inject_Z z).

(** [Number.isFinite], [Number.isInteger] *)
Definition isFinite (n : jsnum) : bool := match n with Fin _ => true | _ => false end.
Definition isInteger (n : jsnum) : bool :=
  match n with Fin q => (Qnum q mod Zpos (Qden q) =? 0) | _ => false end.

(** [Boolean(value) && typeof value === 'object'] *)
Definition isRecord (v : jsval) : bool :=
  match v with JArr _ | JObj _ => true | _ => false end.

(** [Boolean(n)] for a number. *)
Definition num_truthy (n : jsnum) : bool :=
  match n with NaN => false | Infinity _ => true | Fin q => negb (Qnum q =? 0) end.

(** [Boolean(v)] *)
Definition jtruthy (v : jsval) : bool :=
  match v with
  | JUndefined | JNull => false
  | JBool b => b
  | JNum n => num_truthy n
  | JStr s => truthy s
  | JArr _ | JObj _ => true
  end.

Fixpoint assoc {A} (k : jstring) (l : list (jstring * A)) : option A :=
  match l with
  | [] => None
  | (k', v) :: l' => if jeqb k' k then Some v else assoc k l'
  end.

(** The members every object inherits: a lookup by a computed name, or [in], finds them too. *)
Definition inheritedMembers : list jstring :=
  [js "constructor"; js "hasOwnProperty"; js "isPrototypeOf"; js "propertyIsEnumerable";
   js "toLocaleString"; js "toString"; js "valueOf"; js "__proto__"; js "__defineGetter__";
   js "__defineSetter__"; js "__lookupGetter__"; js "__lookupSetter__"].

(** [value.k] for an own property name; an array has none of the names used. *)
Definition jget (v : jsval) (k : jstring) : jsval :=
  match v with JObj fields => coalesce (assoc k fields) JUndefined | _ => JUndefined end.

Definition isString (v : jsval) : bool := match v with JStr _ => true | _ => false end.
Definition isNum (v : jsval) : bool := match v with JNum _ => true | _ => false end.
Definition isBoolean (v : jsval) : bool := match v with JBool _ => true | _ => false end.

(** The payload of a value the code has tested with [typeof]. *)
Definition asString (v : jsval) : jstring := match v with JStr s => s | _ => [] end.
Definition asNum (v : jsval) : jsnum := match v with JNum n => n | _ => NaN end.
Definition asBoolean (v : jsval) : bool := match v with JBool b => b | _ => false end.

(** [v.k?.length > 0] for a string. *)
Definition isNonEmptyString (v : jsval) : bool := isString v && truthy (asString v).

Lemma num_ltb_Z a b : num_ltb (num_of_Z a) (num_of_Z b) = (a <? b).
Proof.
  unfold num_of_Z, num_ltb, Qle_bool, inject_Z. cbn [Qnum Qden].
  rewrite !Z.mul_1_r. destruct (Z.leb_spec b a), (Z.ltb_spec a b); cbn; lia || done.
Qed.
