(* ===== verification/JsText.v ===== *)
(** * Numbers and JSON as text

    [Number(text)] and [String(number)] with the rounding of doubles, the string
    quoting of [JSON.stringify], [JSON.parse], and the conversion of a parsed value to
    a string; an exception monad for the calls that throw. *)

From S2P Require Import Prelude JsValue.
From Stdlib Require Export Qreduction.
#[global] Open Scope Z_scope.

(** ** Code that may throw *)

Inductive exc (A : Type) :=
| Ret (a : A)
| Throw.
Arguments Ret {A} a.
Arguments Throw {A}.

Definition ebind {A B} (m : exc A) (f : A -> exc B) : exc B :=
  match m with Ret a => f a | Throw => Throw end.

Declare Scope exc_scope.
Delimit Scope exc_scope with exc.
Notation "'let?' x ':=' m 'in' k" := (ebind m (fun x => k))
  (at level 10, x pattern, m at level 100, k at level 200) : exc_scope.

(** [try { return m } catch { return d }] *)
Definition catch {A} (m : exc A) (d : A) : A := match m with Ret a => a | Throw => d end.

Fixpoint emap {A B} (f : A -> exc B) (l : list A) : exc (list B) :=
  match l with
  | [] => Ret []
  | x :: l' => ebind (f x) (fun y => ebind (emap f l') (fun ys => Ret (y :: ys)))
  end.

(** ** [Number(text)] *)

(** The double nearest to [n / d], ties to even, for [0 <= n], [0 < d]. *)
Definition round_ratio (n d : Z) : jsnum :=
  if n =? 0 then Fin 0
  else
    let l := Z.log2 n - Z.log2 d in
    let top := if (d * 2 ^ Z.max 0 l) <=? (n * 2 ^ Z.max 0 (- l)) then l else l - 1 in
    let e := Z.max (top - 52) (-1074) in
    let num := n * 2 ^ Z.max 0 (- e) in
    let den := d * 2 ^ Z.max 0 e in
    let m := num / den in
    let r := num mod den in
    let m' := if (den <? 2 * r) || ((2 * r =? den) && Z.odd m) then m + 1 else m in
    if (2 ^ 1024 <=? m' * 2 ^ Z.max 0 e) then Infinity false
    else if 0 <=? e then num_of_Z (m' * 2 ^ e)
    else Fin (Qred (m' # Z.to_pos (2 ^ (- e)))).

Definition num_opp (n : jsnum) : jsnum :=
  match n with NaN => NaN | Infinity b => Infinity (negb b) | Fin q => Fin (- q) end.

(** [m * 10^e] as a double. *)
Definition round_dec (m e : Z) : jsnum := round_ratio (m * 10 ^ Z.max 0 e) (10 ^ Z.max 0 (- e)).

(** *** Arithmetic of doubles *)

(** The double nearest to a real number; a zero has no sign here. *)
Definition num_round (q : Q) : jsnum :=
  if Qnum q <? 0 then num_opp (round_ratio (- Qnum q) (Zpos (Qden q))) else round_ratio (Qnum q) (Zpos (Qden q)).

Definition num_add (a b : jsnum) : jsnum :=
  match a, b with
  | NaN, _ | _, NaN => NaN
  | Infinity s, Infinity t => if Bool.eqb s t then a else NaN
  | Infinity _, Fin _ => a
  | Fin _, Infinity _ => b
  | Fin p, Fin q => num_round (p + q)
  end.

Definition num_mul (a b : jsnum) : jsnum :=
  match a, b with
  | NaN, _ | _, NaN => NaN
  | Infinity s, Infinity t => Infinity (xorb s t)
  | Infinity s, Fin q | Fin q, Infinity s =>
      if Qnum q =? 0 then NaN else Infinity (xorb s (Qnum q <? 0))
  | Fin p, Fin q => num_round (p * q)
  end.

(** [a / d] for a positive integer [d]. *)
Definition num_div (a : jsnum) (d : positive) : jsnum :=
  match a with Fin p => num_round (p / inject_Z (Zpos d)) | _ => a end.

(** The digits at the head of a text, and the rest. *)
Fixpoint digits (s : jstring) : jstring * jstring :=
  match s with
  | c :: s' => if is_digit c then let (ds, r) := digits s' in (c :: ds, r) else ([], s)
  | [] => ([], [])
  end.

Definition sign_of (s : jstring) : bool * jstring :=
  match s with
  | c :: s' => if (c =? 45)%N then (true, s') else if (c =? 43)%N then (false, s') else (false, s)
  | [] => (false, s)
  end.

(** The exponent part, to the end of the text. *)
Definition exponent (s : jstring) : option Z :=
  match s with
  | [] => Some 0
  | c :: s' =>
      if (c =? 101)%N || (c =? 69)%N then
        let (neg, s1) := sign_of s' in
        let (ds, r) := digits s1 in
        if truthy ds && negb (truthy r) then
          Some (if neg then - Z.of_N (dec_val ds) else Z.of_N (dec_val ds))
        else None
      else None
  end.

(** An unsigned decimal literal: mantissa and exponent of ten. *)
Definition decimal (s : jstring) : option (Z * Z) :=
  let (i, r) := digits s in
  let (f, r') := match r with c :: r1 => if (c =? 46)%N then digits r1 else ([], r) | [] => ([], r) end in
  if truthy i || truthy f then
    match exponent r' with
    | Some e => Some (Z.of_N (dec_val (i ++ f)), e - Z.of_nat (length f))
    | None => None
    end
  else None.

(** A run of digits of the base [2^w] to the end of the text. *)
Definition digit_value (c : N) : N :=
  (if is_digit c then c - 48
   else if (97 <=? c) && (c <=? 102) then c - 87
   else if (65 <=? c) && (c <=? 70) then c - 55 else 99)%N.

Definition based (base : N) (s : jstring) : option Z :=
  if truthy s && forallb (fun c => (digit_value c <? base)%N) s
  then Some (Z.of_N (foldl (fun a c => (base * a + digit_value c)%N) 0%N s))
  else None.

Definition Number (text : jstring) : jsnum :=
  match trim text with
  | [] => Fin 0
  | s =>
      let prefixed base := match based base (drop 2 s) with Some z => round_ratio z 1 | None => NaN end in
      if startsWith s (js "0x") || startsWith s (js "0X") then prefixed 16%N
      else if startsWith s (js "0o") || startsWith s (js "0O") then prefixed 8%N
      else if startsWith s (js "0b") || startsWith s (js "0B") then prefixed 2%N
      else
        let (neg, u) := sign_of s in
        let v := if jeqb u (js "Infinity") then Infinity false
                 else match decimal u with Some (m, e) => round_dec m e | None => NaN end in
        if neg then num_opp v else v
  end.

(** ** [String(number)] *)

(** The number [n] with [10^(n-1) <= q < 10^n], for [0 < q]. *)
Fixpoint leading_zeros (fuel : nat) (q : Q) : Z :=
  match fuel with
  | O => 0
  | S f => if Qle_bool 1 (q * 10) then 0 else 1 + leading_zeros f (q * 10)
  end.

Definition magnitude (q : Q) : Z :=
  if Qle_bool 1 q then Z.of_nat (length (dec_of_Z (Qnum q / Zpos (Qden q))))
  else - leading_zeros 400 q.

(** [q / 10^p], rounded to the nearest integer. *)
Definition scaled (q : Q) (p : Z) : Z :=
  let num := Qnum q * 10 ^ Z.max 0 (- p) in
  let den := Zpos (Qden q) * 10 ^ Z.max 0 p in
  (2 * num + den) / (2 * den).

Definition num_eqb (a b : jsnum) : bool :=
  match a, b with
  | Fin p, Fin q => Qeq_bool p q
  | Infinity s, Infinity t => Bool.eqb s t
  | _, _ => false
  end.

(** The fewest digits that name the double: digits and the place of the point. *)
Fixpoint shortest (left : nat) (k : Z) (n : Z) (q : Q) : Z * Z :=
  let s := scaled q (n - k) in
  match left with
  | O => (s, n)
  | S left' =>
      if num_eqb (round_dec s (n - k)) (Fin q)
      then if s =? 10 ^ k then (1, n + 1) else (s, n)
      else shortest left' (k + 1) n q
  end.

Definition zeros (n : Z) : jstring := repeat 48%N (Z.to_nat n).

Definition string_of_pos (q : Q) : jstring :=
  let (s, n) := shortest 17 1 (magnitude q) q in
  let ds := dec_of_Z s in
  let k := Z.of_nat (length ds) in
  if (k <=? n) && (n <=? 21) then ds ++ zeros (n - k)
  else if (0 <? n) && (n <=? 21) then take (Z.to_nat n) ds ++ js "." ++ drop (Z.to_nat n) ds
  else if (-6 <? n) && (n <=? 0) then js "0." ++ zeros (- n) ++ ds
  else
    let e := n - 1 in
    let exp := (if e <? 0 then js "-" else js "+") ++ dec_of_Z (Z.abs e) in
    take 1 ds ++ (if k =? 1 then [] else js "." ++ drop 1 ds) ++ js "e" ++ exp.

Definition string_of_num (n : jsnum) : jstring :=
  match n with
  | NaN => js "NaN"
  | Infinity b => if b then js "-Infinity" else js "Infinity"
  | Fin q =>
      if Qnum q =? 0 then js "0"
      else if Qnum q <? 0 then js "-" ++ string_of_pos (- q) else string_of_pos q
  end.

(** ** JSON *)

Definition hex_digit (n : N) : N := if (n <? 10)%N then (48 + n)%N else (87 + n)%N.
Definition hex4 (c : N) : jstring :=
  [hex_digit (c / 4096 mod 16); hex_digit (c / 256 mod 16); hex_digit (c / 16 mod 16); hex_digit (c mod 16)]%N.
Definition u_escape (c : N) : jstring := js "\u" ++ hex4 c.

Definition is_high (c : N) : bool := ((55296 <=? c) && (c <=? 56319))%N.
Definition is_low (c : N) : bool := ((56320 <=? c) && (c <=? 57343))%N.

(** One unit that is not half of a surrogate pair. *)
Definition quote_unit (c : N) : jstring :=
  if (c =? 8)%N then js "\b" else if (c =? 9)%N then js "\t" else if (c =? 10)%N then js "\n"
  else if (c =? 12)%N then js "\f" else if (c =? 13)%N then js "\r"
  else if (c =? 34)%N then [92; 34]%N else if (c =? 92)%N then [92; 92]%N
  else if (c <? 32)%N || is_high c || is_low c then u_escape c
  else [c].

Fixpoint quote_units (s : jstring) : jstring :=
  match s with
  | [] => []
  | c :: s' =>
      match s' with
      | d :: s'' => if is_high c && is_low d then c :: d :: quote_units s'' else quote_unit c ++ quote_units s'
      | [] => quote_unit c
      end
  end.

(** [JSON.stringify(s)] for a string. *)
Definition json_quote (s : jstring) : jstring := 34%N :: quote_units s ++ [34%N].

Definition json_ws (c : N) : bool := (c =? 32)%N || (c =? 9)%N || (c =? 10)%N || (c =? 13)%N.
Definition skip_ws (s : jstring) : jstring := drop_while json_ws s.

Definition hex_value (c : N) : option N :=
  if (digit_value c <? 16)%N then Some (digit_value c) else None.

(** The units of a string up to the closing quote. *)
Fixpoint parse_units (s : jstring) : option (jstring * jstring) :=
  match s with
  | [] => None
  | c :: s1 =>
      if (c =? 34)%N then Some ([], s1)
      else if (c =? 92)%N then
        match s1 with
        | e :: s2 =>
            let simple (v : N) := match parse_units s2 with Some (w, r) => Some (v :: w, r) | None => None end in
            if (e =? 98)%N then simple 8%N else if (e =? 116)%N then simple 9%N
            else if (e =? 110)%N then simple 10%N else if (e =? 102)%N then simple 12%N
            else if (e =? 114)%N then simple 13%N else if (e =? 34)%N then simple 34%N
            else if (e =? 92)%N then simple 92%N else if (e =? 47)%N then simple 47%N
            else if (e =? 117)%N then
              match s2 with
              | h1 :: h2 :: h3 :: h4 :: s3 =>
                  match hex_value h1, hex_value h2, hex_value h3, hex_value h4 with
                  | Some a, Some b, Some d, Some f =>
                      match parse_units s3 with
                      | Some (w, r) => Some ((a * 4096 + b * 256 + d * 16 + f)%N :: w, r)
                      | None => None
                      end
                  | _, _, _, _ => None
                  end
              | _ => None
              end
            else None
        | [] => None
        end
      else if (c <? 32)%N then None
      else match parse_units s1 with Some (w, r) => Some (c :: w, r) | None => None end
  end.

(** The number at the head of a text, by the grammar of JSON: its text and the rest. *)
Definition json_int (s : jstring) : option (jstring * jstring) :=
  let (ds, r) := digits s in
  match ds with
  | [] => None
  | c :: _ :: _ => if (c =? 48)%N then Some ([48%N], drop 1 s) else Some (ds, r)
  | [_] => Some (ds, r)
  end.

Definition json_frac (s : jstring) : option (jstring * jstring) :=
  match s with
  | c :: s' => if (c =? 46)%N then let (ds, r) := digits s' in if truthy ds then Some (c :: ds, r) else None
               else Some ([], s)
  | [] => Some ([], s)
  end.

Definition json_exp (s : jstring) : option (jstring * jstring) :=
  match s with
  | c :: s' =>
      if (c =? 101)%N || (c =? 69)%N then
        let sg := match s' with d :: _ => if (d =? 43)%N || (d =? 45)%N then [d] else [] | [] => [] end in
        let (ds, r) := digits (drop (length sg) s') in
        if truthy ds then Some (c :: sg ++ ds, r) else None
      else Some ([], s)
  | [] => Some ([], s)
  end.

Definition json_number (s : jstring) : option (jsnum * jstring) :=
  let (sg, u) := match s with c :: s' => if (c =? 45)%N then ([c], s') else ([], s) | [] => ([], s) end in
  match json_int u with
  | None => None
  | Some (i, r1) =>
      match json_frac r1 with
      | None => None
      | Some (f, r2) =>
          match json_exp r2 with
          | None => None
          | Some (e, r3) => Some (Number (sg ++ i ++ f ++ e), r3)
          end
      end
  end.

(** A value at the head of a text, white space before it skipped; a later member of an
    object replaces an earlier one of the same name. *)
Fixpoint parse_value (fuel : nat) (s : jstring) : option (jsval * jstring) :=
  match fuel with
  | O => None
  | S fl =>
      let elements := (fix elements (n : nat) (s : jstring) : option (list jsval * jstring) :=
        match n with
        | O => None
        | S n' =>
            match parse_value fl s with
            | Some (v, r) =>
                match skip_ws r with
                | c :: r' =>
                    if (c =? 44)%N then
                      match elements n' r' with Some (vs, r2) => Some (v :: vs, r2) | None => None end
                    else if (c =? 93)%N then Some ([v], r') else None
                | [] => None
                end
            | None => None
            end
        end) in
      let members := (fix members (n : nat) (acc : list (jstring * jsval)) (s : jstring)
          : option (list (jstring * jsval) * jstring) :=
        match n, skip_ws s with
        | S n', q :: s1 =>
            if (q =? 34)%N then
              match parse_units s1 with
              | Some (key, r) =>
                  match skip_ws r with
                  | c :: r1 =>
                      if (c =? 58)%N then
                        match parse_value fl r1 with
                        | Some (v, r2) =>
                            match skip_ws r2 with
                            | d :: r3 =>
                                if (d =? 44)%N then members n' (mset acc key v) r3
                                else if (d =? 125)%N then Some (mset acc key v, r3) else None
                            | [] => None
                            end
                        | None => None
                        end
                      else None
                  | [] => None
                  end
              | None => None
              end
            else None
        | _, _ => None
        end) in
      let s0 := skip_ws s in
      match s0 with
      | [] => None
      | c :: s1 =>
          if (c =? 34)%N then match parse_units s1 with Some (w, r) => Some (JStr w, r) | None => None end
          else if (c =? 91)%N then
            match skip_ws s1 with
            | d :: r => if (d =? 93)%N then Some (JArr [], r)
                        else match elements fl s1 with Some (vs, r2) => Some (JArr vs, r2) | None => None end
            | [] => None
            end
          else if (c =? 123)%N then
            match skip_ws s1 with
            | d :: r => if (d =? 125)%N then Some (JObj [], r)
                        else match members fl [] s1 with Some (ms, r2) => Some (JObj ms, r2) | None => None end
            | [] => None
            end
          else if startsWith s0 (js "true") then Some (JBool true, drop 4 s0)
          else if startsWith s0 (js "false") then Some (JBool false, drop 5 s0)
          else if startsWith s0 (js "null") then Some (JNull, drop 4 s0)
          else match json_number s0 with Some (n, r) => Some (JNum n, r) | None => None end
      end
  end.

(** [JSON.parse(text)]; every value takes a unit of the text, so its length bounds the depth. *)
Definition JSON_parse (text : jstring) : exc jsval :=
  match parse_value (S (length text)) text with
  | Some (v, r) => if truthy (skip_ws r) then Throw else Ret v
  | None => Throw
  end.

(** [String(value)].  An object with a property toString of its own has no primitive
    value: the conversion throws. *)
Fixpoint String_of (v : jsval) : exc jstring :=
  match v with
  | JUndefined => Ret (js "undefined")
  | JNull => Ret (js "null")
  | JBool b => Ret (if b then js "true" else js "false")
  | JNum n => Ret (string_of_num n)
  | JStr s => Ret s
  | JArr l =>
      ebind (emap (fun x => match x with JUndefined | JNull => Ret [] | _ => String_of x end) l)
        (fun ws => Ret (join (js ",") ws))
  | JObj fields =>
      match assoc (js "toString") fields with Some _ => Throw | None => Ret (js "[object Object]") end
  end.

Example number_texts :
  map Number [js "42"; js " 1.5e2 "; js "0x1F"; js ""; js "1e400"; js "-.5"; js "5 6"] =
  [Fin 42; Fin 150; Fin 31; Fin 0; Infinity false; Fin (-(1 # 2)); NaN].
Proof. vm_compute. reflexivity. Qed.

Example text_of_numbers :
  map (fun t => string_of_num (Number t)) [js "0.1"; js "1e21"; js "123456.789"; js "1e-7"; js "1e23"; js "-2.50"] =
  [js "0.1"; js "1e+21"; js "123456.789"; js "1e-7"; js "1e+23"; js "-2.5"].
Proof. vm_compute. reflexivity. Qed.

(** ** Quoting is undone by parsing *)

Lemma hex_value_digit n : (n < 16)%N -> hex_value (hex_digit n) = Some n.
Proof.
  intros H. assert (n ∈ [0;1;2;3;4;5;6;7;8;9;10;11;12;13;14;15]%N) as Hin.
  { rewrite !elem_of_cons. lia. }
  revert Hin. rewrite !elem_of_cons, elem_of_nil. intros Hin.
  repeat destruct Hin as [-> | Hin]; done.
Qed.

Lemma hex4_value c : (c < 65536)%N ->
  (c / 4096 mod 16 * 4096 + c / 256 mod 16 * 256 + c / 16 mod 16 * 16 + c mod 16 = c)%N.
Proof.
  intros H.
  replace (c / 4096)%N with (c / 16 / 16 / 16)%N by (rewrite !N.Div0.div_div; done).
  replace (c / 256)%N with (c / 16 / 16)%N by (rewrite !N.Div0.div_div; done).
  pose proof (N.Div0.div_mod c 16) as H0. pose proof (N.Div0.div_mod (c / 16) 16) as H1.
  pose proof (N.Div0.div_mod (c / 16 / 16) 16) as H2.
  assert (c / 16 / 16 / 16 < 16)%N as H3.
  { rewrite !N.Div0.div_div. apply N.Div0.div_lt_upper_bound. lia. }
  rewrite (N.mod_small (c / 16 / 16 / 16)) by done.
  generalize dependent (c / 16 / 16 / 16)%N. generalize dependent (c / 16 / 16 mod 16)%N.
  generalize dependent (c / 16 / 16)%N. generalize dependent (c / 16 mod 16)%N.
  generalize dependent (c / 16)%N. generalize dependent (c mod 16)%N. lia.
Qed.

(** What the parser makes of a run of units it reads as [w]. *)
Definition reads (q w : jstring) : Prop :=
  forall t, parse_units (q ++ t) = match parse_units t with Some (v, r) => Some (w ++ v, r) | None => None end.

Lemma reads_app q1 w1 q2 w2 : reads q1 w1 -> reads q2 w2 -> reads (q1 ++ q2) (w1 ++ w2).
Proof.
  intros H1 H2 t. rewrite <- app_assoc, H1, H2. destruct (parse_units t) as [[v r]|]; [|done].
  by rewrite app_assoc.
Qed.

Lemma reads_plain c : (c <> 34 -> c <> 92 -> 32 <= c -> reads [c] [c])%N.
Proof.
  intros H1 H2 H3 t. cbn [app parse_units].
  rewrite (proj2 (N.eqb_neq _ _) H1), (proj2 (N.eqb_neq _ _) H2), (proj2 (N.ltb_ge _ _)) by lia. done.
Qed.

Lemma reads_u c : (c < 65536)%N -> reads (u_escape c) [c].
Proof.
  intros H t. unfold u_escape, hex4. change (js "\u") with [92; 117]%N. cbn -[N.div N.modulo].
  rewrite !hex_value_digit by by apply N.mod_lt. by rewrite hex4_value.
Qed.

Lemma quote_unit_reads c : reads (quote_unit c) [c].
Proof.
  unfold quote_unit.
  repeat match goal with |- context [(c =? ?n)%N] =>
    destruct (N.eqb_spec c n) as [->|]; [by intros t|] end.
  destruct ((c <? 32)%N || is_high c || is_low c) eqn:E.
  - apply reads_u. unfold is_high, is_low in E.
    rewrite !orb_true_iff, !andb_true_iff, N.ltb_lt, !N.leb_le in E. lia.
  - apply reads_plain; [done..|]. rewrite !orb_false_iff, N.ltb_ge in E. tauto.
Qed.

Lemma quote_units_cons c s :
  (exists d s', s = d :: s' /\ is_high c && is_low d = true /\ quote_units (c :: s) = c :: d :: quote_units s') \/
  quote_units (c :: s) = quote_unit c ++ quote_units s.
Proof.
  destruct s as [|d s']; [right; by cbn; rewrite app_nil_r|]. cbn [quote_units].
  destruct (is_high c && is_low d) eqn:E; [|by right]. left. by exists d, s'.
Qed.

(** Induction on a string as the quoting walks it: a surrogate pair at a time, or a unit. *)
Lemma quote_ind (P : jstring -> jstring -> Prop) :
  P [] [] ->
  (forall c s q, P s q -> P (c :: s) (quote_unit c ++ q)) ->
  (forall c d s q, is_high c = true -> is_low d = true -> P s q -> P (c :: d :: s) (c :: d :: q)) ->
  forall s, P s (quote_units s).
Proof.
  intros H0 H1 H2 s. induction s as [s IH] using (Nat.measure_induction _ (@length N)).
  destruct s as [|c s]; [done|].
  destruct (quote_units_cons c s) as [(d & s' & -> & [Hc Hd]%andb_true_iff & ->) | ->].
  - apply H2; [done..|]. apply IH. cbn. lia.
  - apply H1. apply IH. cbn. lia.
Qed.

Lemma surrogate_plain c : is_high c = true \/ is_low c = true -> (c <> 34 /\ c <> 92 /\ 32 <= c)%N.
Proof. unfold is_high, is_low. rewrite !andb_true_iff, !N.leb_le. lia. Qed.

Lemma quote_units_reads s : reads (quote_units s) s.
Proof.
  revert s. apply (quote_ind (fun s q => reads q s)).
  - intros t. cbn. by destruct (parse_units t) as [[??]|].
  - intros c s q H. change (c :: s) with ([c] ++ s). apply reads_app; [apply quote_unit_reads|done].
  - intros c d s q Hc Hd H. change (c :: d :: s) with ([c] ++ ([d] ++ s)).
    change (c :: d :: q) with ([c] ++ ([d] ++ q)).
    destruct (surrogate_plain c) as (?&?&?); [by left|]. destruct (surrogate_plain d) as (?&?&?); [by right|].
    apply reads_app; [by apply reads_plain|]. apply reads_app; [by apply reads_plain|done].
Qed.

Lemma parse_units_quoted s r : parse_units (quote_units s ++ 34%N :: r) = Some (s, r).
Proof. rewrite quote_units_reads. cbn. by rewrite app_nil_r. Qed.

Lemma JSON_parse_quote s : JSON_parse (json_quote s) = Ret (JStr s).
Proof.
  unfold JSON_parse. cbn [parse_value]. unfold skip_ws, json_quote. cbn [drop_while].
  change (json_ws 34) with false. cbv iota. cbn [N.eqb].
  change (34 =? 34)%N with true. cbv iota. by rewrite parse_units_quoted.
Qed.

(** A quoted string holds no control unit. *)
Lemma quote_unit_ge c : Forall (fun x => 32 <= x)%N (quote_unit c).
Proof.
  unfold quote_unit. repeat match goal with |- context [(c =? ?n)%N] =>
    destruct (c =? n)%N; [unfold js; cbn; rewrite ?Forall_cons, Forall_nil; lia|] end.
  destruct ((c <? 32)%N || is_high c || is_low c) eqn:E.
  - unfold u_escape, hex4. change (js "\u") with [92; 117]%N. cbn [app].
    assert (forall n, 32 <= hex_digit n)%N as Hh.
    { intros n. unfold hex_digit. destruct (n <? 10)%N; lia. }
    rewrite !Forall_cons, Forall_nil. split_and!; apply Hh || lia || done.
  - rewrite !orb_false_iff, N.ltb_ge in E. apply Forall_singleton. tauto.
Qed.
