(* ===== verification/JsonText.v ===== *)
(** * JSON values as text

    [JSON.stringify] on the values that [JSON.parse] yields, the theorem that parsing undoes
    it, and a class of data that is kept as JSON: how it is written, when it is read, and that
    reading undoes writing. *)

From S2P Require Import Prelude JsValue JsText.
#[global] Open Scope Z_scope.

(** ** [JSON.stringify] *)

(** [None] where the result is undefined: a member is left out, an element is written null. *)
Fixpoint stringify (v : jsval) : option jstring :=
  match v with
  | JUndefined => None
  | JNull => Some (js "null")
  | JBool b => Some (if b then js "true" else js "false")
  | JNum n => Some (if isFinite n then string_of_num n else js "null")
  | JStr s => Some (json_quote s)
  | JArr l => Some (js "[" ++ join (js ",") (map (fun x => coalesce (stringify x) (js "null")) l) ++ js "]")
  | JObj fields =>
      let members := (fix members (fields : list (jstring * jsval)) : list jstring :=
        match fields with
        | [] => []
        | (k, x) :: fields' =>
            match stringify x with
            | Some t => (json_quote k ++ js ":" ++ t) :: members fields'
            | None => members fields'
            end
        end) in
      Some (js "{" ++ join (js ",") (members fields) ++ js "}")
  end.

(** [JSON.stringify(v)] for a value that is not undefined. *)
Definition JSON_stringify (v : jsval) : jstring := coalesce (stringify v) [].

(** ** What is read back *)

(** The number is read back from its text. *)
Definition readable (n : jsnum) : Prop := isFinite n = true /\ json_number (string_of_num n) = Some (n, []).

(** Induction on a value, with the elements and members of the nested ones. *)
Lemma jsval_nested_ind (P : jsval -> Prop) :
  P JUndefined -> P JNull -> (forall b, P (JBool b)) -> (forall n, P (JNum n)) -> (forall s, P (JStr s)) ->
  (forall l, Forall P l -> P (JArr l)) -> (forall fs, Forall (fun f => P f.2) fs -> P (JObj fs)) -> forall v, P v.
Proof.
  intros H1 H2 H3 H4 H5 H6 H7. fix IH 1. intros [| |b|n|s|l|fs]; [done..|apply H4|apply H5| |].
  - apply H6. induction l as [|x l IHl]; constructor; [apply IH|exact IHl].
  - apply H7. induction fs as [|[k x] fs IHl]; constructor; [apply IH|exact IHl].
Qed.

(** No undefined, every number readable, the names of an object distinct. *)
Inductive plain_json : jsval -> Prop :=
| plain_null : plain_json JNull
| plain_bool b : plain_json (JBool b)
| plain_num n : readable n -> plain_json (JNum n)
| plain_str s : plain_json (JStr s)
| plain_arr l : Forall plain_json l -> plain_json (JArr l)
| plain_obj fs : NoDup (map fst fs) -> Forall (fun f => plain_json f.2) fs -> plain_json (JObj fs).

(** The rest does not go on a number. *)
Definition num_stops (r : jstring) : Prop :=
  match r with
  | [] => True
  | c :: _ => is_digit c = false /\ c <> 46%N /\ c <> 101%N /\ c <> 69%N
  end.

Lemma digits_app s ds r0 r : digits s = (ds, r0) -> num_stops r -> digits (s ++ r) = (ds, r0 ++ r).
Proof.
  intros H Hr. revert ds r0 H. induction s as [|c s IH]; intros ds r0 H; cbn [digits app] in *.
  - injection H as <- <-. destruct r as [|c r]; [done|]. cbn [digits]. by destruct Hr as [-> _].
  - destruct (is_digit c) eqn:E; [|by injection H as <- <-]. destruct (digits s) as [ds' r'].
    injection H as <- <-. by rewrite (IH ds' r' eq_refl).
Qed.

Lemma json_int_app s i r0 r : json_int s = Some (i, r0) -> num_stops r -> json_int (s ++ r) = Some (i, r0 ++ r).
Proof.
  unfold json_int. intros H Hr. destruct (digits s) as [ds r1] eqn:E. rewrite (digits_app s ds r1 r E Hr).
  destruct ds as [|c [|d ds]]; [done|by injection H as <- <-|].
  destruct (c =? 48)%N; injection H as <- <-; [|done]. destruct s; [done|]. done.
Qed.

Lemma json_frac_app s f r0 r : json_frac s = Some (f, r0) -> num_stops r -> json_frac (s ++ r) = Some (f, r0 ++ r).
Proof.
  intros H Hr. destruct s as [|c s]; cbn [json_frac app] in *.
  - injection H as <- <-. destruct r as [|c r]; [done|]. cbn. destruct Hr as (_ & Hc & _).
    by rewrite (proj2 (N.eqb_neq c 46) Hc).
  - destruct (c =? 46)%N; [|by injection H as <- <-]. destruct (digits s) as [ds r1] eqn:E.
    rewrite (digits_app s ds r1 r E Hr). destruct (truthy ds); [|done]. by injection H as <- <-.
Qed.

Lemma json_exp_app s e r0 r : json_exp s = Some (e, r0) -> num_stops r -> json_exp (s ++ r) = Some (e, r0 ++ r).
Proof.
  intros H Hr. destruct s as [|c s]; cbn [json_exp app] in *.
  - injection H as <- <-. destruct r as [|c r]; [done|]. cbn. destruct Hr as (_ & _ & H1 & H2).
    by rewrite (proj2 (N.eqb_neq c 101) H1), (proj2 (N.eqb_neq c 69) H2).
  - destruct ((c =? 101)%N || (c =? 69)%N); [|by injection H as <- <-]. destruct s as [|d s]; [done|]. cbn [app].
    set (sg := if (d =? 43)%N || (d =? 45)%N then [d] else []) in *.
    assert (drop (length sg) (d :: s ++ r) = drop (length sg) (d :: s) ++ r) as -> by (unfold sg; by destruct (_ || _)).
    destruct (digits (drop (length sg) (d :: s))) as [ds r1] eqn:E. rewrite (digits_app _ ds r1 r E Hr).
    destruct (truthy ds); [|done]. by injection H as <- <-.
Qed.

Lemma json_number_app s n r : json_number s = Some (n, []) -> num_stops r -> json_number (s ++ r) = Some (n, r).
Proof.
  unfold json_number. intros H Hr. destruct s as [|c s]; [done|]. cbn [app].
  assert (forall (b : bool), (if b then ([c], s ++ r) else ([], c :: s ++ r)) =
    let '(sg, u) := if b then ([c], s) else ([], c :: s) in (sg, u ++ r)) as -> by (by intros []).
  destruct (if (c =? 45)%N then ([c], s) else ([], c :: s)) as [sg u].
  destruct (json_int u) as [[i r1]|] eqn:E1; [|done]. rewrite (json_int_app _ _ _ r E1 Hr).
  destruct (json_frac r1) as [[f r2]|] eqn:E2; [|done]. rewrite (json_frac_app _ _ _ r E2 Hr).
  destruct (json_exp r2) as [[e r3]|] eqn:E3; [|done]. rewrite (json_exp_app _ _ _ r E3 Hr). by injection H as <- ->.
Qed.

(** A number begins with a sign or a digit. *)
Lemma json_number_head s n r : json_number s = Some (n, r) -> exists c s', s = c :: s' /\ (c = 45%N \/ is_digit c = true).
Proof.
  destruct s as [|c s]; [done|]. intros H. exists c, s. split; [done|].
  unfold json_number in H. destruct (N.eqb_spec c 45) as [->|]; [by left|]. right.
  unfold json_int in H. cbn [digits] in H. by destruct (is_digit c).
Qed.

(** ** Parsing undoes printing *)

(** The text of a plain value. *)
Definition text_of (v : jsval) : jstring := JSON_stringify v.

(** The head of a value's text is no white space, bracket or sign that the parser acts on first. *)
Lemma number_text n fuel r : readable n -> num_stops r -> parse_value (S fuel) (string_of_num n ++ r) = Some (JNum n, r).
Proof.
  intros [_ H] Hr. destruct (json_number_head _ _ _ H) as (c & s & E & Hc).
  pose proof (json_number_app _ _ r H Hr) as Hn. rewrite E in *. cbn [parse_value app] in *.
  assert (c ∈ [45; 48; 49; 50; 51; 52; 53; 54; 55; 56; 57]%N) as Hin.
  { rewrite !elem_of_cons. destruct Hc as [-> | Hc]; [by left|]. unfold is_digit in Hc.
    apply andb_true_iff in Hc as [H1%N.leb_le H2%N.leb_le]. lia. }
  assert (forall X Y : jstring, startsWith (c :: s ++ r) (js "true") = false /\ startsWith (c :: s ++ r) (js "false") = false /\
    startsWith (c :: s ++ r) (js "null") = false /\ json_ws c = false /\ (c =? 34)%N = false /\ (c =? 91)%N = false /\ (c =? 123)%N = false)
    as Hc2.
  { intros _ _. clear - Hin. rewrite !elem_of_cons, elem_of_nil in Hin.
    repeat destruct Hin as [-> | Hin]; done. }
  destruct (Hc2 [] []) as (E1 & E2 & E3 & E4 & E5 & E6 & E7).
  unfold skip_ws. cbn [drop_while]. rewrite E4, E5, E6, E7, E1, E2, E3, Hn. done.
Qed.

Lemma literal_text fuel r : parse_value (S fuel) (js "true" ++ r) = Some (JBool true, r) /\
  parse_value (S fuel) (js "false" ++ r) = Some (JBool false, r) /\ parse_value (S fuel) (js "null" ++ r) = Some (JNull, r).
Proof. split_and!; reflexivity. Qed.

Lemma string_text fuel s r : parse_value (S fuel) (json_quote s ++ r) = Some (JStr s, r).
Proof.
  unfold json_quote. cbn [app parse_value]. change (skip_ws (34%N :: ?x)) with (34%N :: x).
  cbv beta iota. change (34 =? 34)%N with true. cbv iota. rewrite <- app_assoc. cbn [app]. by rewrite parse_units_quoted.
Qed.

(** Every value's text is read by [parse_value] given enough fuel, whatever follows it. *)
Definition read_with (v : jsval) : Prop :=
  forall fuel r, (length (text_of v) < fuel)%nat -> num_stops r -> parse_value fuel (text_of v ++ r) = Some (v, r).

Lemma text_num n : readable n -> text_of (JNum n) = string_of_num n.
Proof. intros [H _]. unfold text_of, JSON_stringify. cbn. by rewrite H. Qed.

Lemma plain_text v : plain_json v -> stringify v = Some (text_of v).
Proof. unfold text_of, JSON_stringify. by destruct 1. Qed.

Definition member_text (f : jstring * jsval) : jstring := json_quote f.1 ++ js ":" ++ text_of f.2.

Lemma text_arr l : Forall plain_json l -> text_of (JArr l) = js "[" ++ join (js ",") (map text_of l) ++ js "]".
Proof.
  intros H.
  assert (map (fun x => coalesce (stringify x) (js "null")) l = map text_of l) as E.
  { apply map_ext_Forall. eapply Forall_impl; [exact H|]. intros v Hv. by rewrite (plain_text v Hv). }
  unfold text_of at 1, JSON_stringify. cbn [stringify]. by rewrite E.
Qed.

(** The members of an object, as [stringify] writes them. *)
Definition members_of : list (jstring * jsval) -> list jstring :=
  fix members (fields : list (jstring * jsval)) : list jstring :=
    match fields with
    | [] => []
    | (k, x) :: fields' =>
        match stringify x with
        | Some t => (json_quote k ++ js ":" ++ t) :: members fields'
        | None => members fields'
        end
    end.

Lemma text_obj fs : Forall (fun f => plain_json f.2) fs ->
  text_of (JObj fs) = js "{" ++ join (js ",") (map member_text fs) ++ js "}".
Proof.
  intros H. change (text_of (JObj fs)) with (js "{" ++ join (js ",") (members_of fs) ++ js "}").
  assert (members_of fs = map member_text fs) as ->; [|done].
  induction H as [|[k v] fs Hv _ IH]; [done|]. cbn in Hv. cbn [map members_of]. by rewrite (plain_text v Hv), IH.
Qed.

(** The elements of an array and the members of an object, as [parse_value] reads them. *)
Definition read_elements (fl : nat) : nat -> jstring -> option (list jsval * jstring) :=
  fix elements n s :=
  match n with
  | O => None
  | S n' =>
      match parse_value fl s with
      | Some (v, r) =>
          match skip_ws r with
          | c :: r' =>
              if (c =? 44)%N then
                match elements n' r' with Some (vs, r2) => Some (v :: vs, r2) | None => None end
              else if (c =? 93)%N then Some ([v], r') else None
          | [] => None
          end
      | None => None
      end
  end.

Definition read_members (fl : nat) : nat -> list (jstring * jsval) -> jstring -> option (list (jstring * jsval) * jstring) :=
  fix members n acc s :=
  match n, skip_ws s with
  | S n', q :: s1 =>
      if (q =? 34)%N then
        match parse_units s1 with
        | Some (key, r) =>
            match skip_ws r with
            | c :: r1 =>
                if (c =? 58)%N then
                  match parse_value fl r1 with
                  | Some (v, r2) =>
                      match skip_ws r2 with
                      | d :: r3 =>
                          if (d =? 44)%N then members n' (mset acc key v) r3
                          else if (d =? 125)%N then Some (mset acc key v, r3) else None
                      | [] => None
                      end
                  | None => None
                  end
                else None
            | [] => None
            end
        | None => None
        end
      else None
  | _, _ => None
  end.

Lemma parse_array fl s : parse_value (S fl) (91%N :: s) =
  match skip_ws s with
  | d :: r => if (d =? 93)%N then Some (JArr [], r)
              else match read_elements fl fl s with Some (vs, r2) => Some (JArr vs, r2) | None => None end
  | [] => None
  end.
Proof. reflexivity. Qed.

Lemma parse_object fl s : parse_value (S fl) (123%N :: s) =
  match skip_ws s with
  | d :: r => if (d =? 125)%N then Some (JObj [], r)
              else match read_members fl fl [] s with Some (ms, r2) => Some (JObj ms, r2) | None => None end
  | [] => None
  end.
Proof. reflexivity. Qed.

Lemma read_element_more fl n v s : read_with v -> (length (text_of v) < fl)%nat ->
  read_elements fl (S n) (text_of v ++ 44%N :: s) =
  match read_elements fl n s with Some (vs, r2) => Some (v :: vs, r2) | None => None end.
Proof. intros Hv Hl. cbn. by rewrite Hv. Qed.

Lemma read_element_last fl n v r : read_with v -> (length (text_of v) < fl)%nat ->
  read_elements fl (S n) (text_of v ++ 93%N :: r) = Some ([v], r).
Proof. intros Hv Hl. cbn. by rewrite Hv. Qed.

(** The texts between commas. *)
Lemma commas (t u : jstring) l : join (js ",") (t :: u :: l) = t ++ 44%N :: join (js ",") (u :: l).
Proof. done. Qed.

Lemma elements_read fl l : forall n r, l <> [] -> Forall read_with l ->
  (length (join (js ",") (map text_of l)) < n)%nat -> (length (join (js ",") (map text_of l)) < fl)%nat ->
  read_elements fl n (join (js ",") (map text_of l) ++ 93%N :: r) = Some (l, r).
Proof.
  induction l as [|v l IH]; intros n r Hl Hr Hn Hfl; [done|]. apply Forall_cons in Hr as [Hv Hr].
  destruct n as [|n]; [lia|]. destruct l as [|v2 l]; [by apply read_element_last|].
  cbn [map] in *. rewrite commas, length_app in Hn, Hfl. cbn [length] in Hn, Hfl.
  rewrite commas, <- app_assoc. cbn [app]. rewrite read_element_more by (done || lia).
  rewrite IH; [done|done|done|lia|lia].
Qed.

Lemma read_member fl n acc f s : read_with f.2 -> (length (text_of f.2) < fl)%nat ->
  read_members fl (S n) acc (member_text f ++ 44%N :: s) = read_members fl n (mset acc f.1 f.2) s /\
  read_members fl (S n) acc (member_text f ++ 125%N :: s) = Some (mset acc f.1 f.2, s).
Proof.
  intros Hv Hl. unfold member_text, json_quote. cbn [app]. rewrite <- !app_assoc. cbn [app].
  change (js ":") with [58%N]. cbn [app read_members]. change (skip_ws (34%N :: ?x)) with (34%N :: x).
  cbv beta iota. change (34 =? 34)%N with true. cbv iota. rewrite !parse_units_quoted.
  change (skip_ws (58%N :: ?x)) with (58%N :: x). cbv beta iota. change (58 =? 58)%N with true. cbv iota.
  by rewrite !Hv.
Qed.

Lemma member_length f : (length (text_of f.2) < length (member_text f))%nat.
Proof. unfold member_text, json_quote. rewrite length_app. cbn [length]. rewrite !length_app. cbn. lia. Qed.

Lemma members_read fl fs : forall n acc r, fs <> [] -> Forall (fun f => read_with f.2) fs ->
  NoDup (map fst (acc ++ fs)) ->
  (length (join (js ",") (map member_text fs)) < n)%nat -> (length (join (js ",") (map member_text fs)) < fl)%nat ->
  read_members fl n acc (join (js ",") (map member_text fs) ++ 125%N :: r) = Some (acc ++ fs, r).
Proof.
  induction fs as [|f fs IH]; intros n acc r Hl Hr Hnd Hn Hfl; [done|]. apply Forall_cons in Hr as [Hv Hr].
  pose proof (member_length f).
  assert (mset acc f.1 f.2 = acc ++ [f]) as Hset.
  { destruct f as [k v]. apply mset_new, mget_None. cbn [fst]. rewrite map_app in Hnd. apply NoDup_app in Hnd as (_ & Hd & _).
    intros Hin. apply (Hd k Hin). cbn. by left. }
  destruct n as [|n]; [lia|]. destruct fs as [|f2 fs]; cbn [map] in *.
  - cbn [join] in *. rewrite (proj2 (read_member fl n acc f r Hv ltac:(lia))). by rewrite Hset.
  - rewrite commas, length_app in Hn, Hfl. cbn [length] in Hn, Hfl.
    rewrite commas, <- app_assoc. cbn [app]. rewrite (proj1 (read_member fl n acc f _ Hv ltac:(lia))).
    rewrite Hset, IH; [by rewrite <- app_assoc|done|done| |lia|lia]. by rewrite <- app_assoc.
Qed.

Lemma Forall_mp {A} (P Q : A -> Prop) l : Forall (fun x => P x -> Q x) l -> Forall P l -> Forall Q l.
Proof. induction 1; intros Hp; [done|]. apply Forall_cons in Hp as [? ?]. constructor; auto. Qed.

(** A value's text begins with no white space, and with no closing bracket. *)
Lemma text_opens v : plain_json v -> exists c s, text_of v = c :: s /\ json_ws c = false /\ c <> 93%N.
Proof.
  destruct 1 as [|b|n Hn|s|l Hl|fs Hnd Hfs]; try (by eexists _, _).
  - destruct b; by eexists _, _.
  - rewrite text_num by done. destruct (json_number_head _ _ _ (proj2 Hn)) as (c & s & -> & Hc).
    exists c, s. split; [done|]. destruct Hc as [-> | Hc]; [done|]. unfold is_digit in Hc.
    apply andb_true_iff in Hc as [H1%N.leb_le H2%N.leb_le]. split; [|lia].
    unfold json_ws. rewrite !orb_false_iff, !N.eqb_neq. lia.
Qed.

Lemma plain_read v : plain_json v -> read_with v.
Proof.
  induction v as [| |b|n|s|l IH|fs IH] using jsval_nested_ind; intros Hp;
    inversion Hp as [|b' E|n' Hn E|s' E|l' Hl E|fs' Hnd Hfs E]; subst; intros fuel r Hf Hr; (destruct fuel as [|fuel]; [lia|]).
  - apply literal_text.
  - destruct b; apply literal_text.
  - rewrite text_num by done. by apply number_text.
  - apply string_text.
  - rewrite text_arr in Hf |- * by done. rewrite <- !app_assoc. change (js "[") with [91%N]. change (js "]") with [93%N].
    cbn [app]. rewrite parse_array. change (js "[") with [91%N] in Hf. cbn [app length] in Hf. rewrite length_app in Hf.
    pose proof (Forall_mp _ _ _ IH Hl) as Hrl. destruct l as [|v l]; [done|].
    destruct (text_opens v) as (c & s & E & Hc & Hc93); [by apply Forall_inv in Hl|].
    assert (exists s2, join (js ",") (map text_of (v :: l)) = c :: s2) as [s2 E2].
    { cbn [map]. destruct (map text_of l); [by exists s|]. rewrite commas, E. by eexists. }
    rewrite E2 at 1. cbn [app]. unfold skip_ws. cbn [drop_while]. rewrite Hc. rewrite (proj2 (N.eqb_neq c 93) Hc93).
    rewrite elements_read; [done|done|done|lia|lia].
  - rewrite text_obj in Hf |- * by done. rewrite <- !app_assoc. change (js "{") with [123%N]. change (js "}") with [125%N].
    cbn [app]. rewrite parse_object. change (js "{") with [123%N] in Hf. cbn [app length] in Hf. rewrite length_app in Hf.
    pose proof (Forall_mp _ _ _ IH Hfs) as Hrl. destruct fs as [|f fs]; [done|].
    assert (exists s2, join (js ",") (map member_text (f :: fs)) = 34%N :: s2) as [s2 E2].
    { cbn [map]. unfold member_text at 1, json_quote. destruct (map member_text fs); [by eexists|]. rewrite commas. by eexists. }
    rewrite E2 at 1. cbn [app]. change (skip_ws (34%N :: ?x)) with (34%N :: x). cbv beta iota.
    change (34 =? 125)%N with false. cbv iota. rewrite (members_read fuel (f :: fs) fuel []); [done|done|done|done|lia|lia].
Qed.

(** C99. Parsing undoes printing: a value without undefined, whose numbers are read back from
    their text and whose objects name each member once, comes back from its JSON text. *)
Theorem parse_stringify v : plain_json v -> JSON_parse (JSON_stringify v) = Ret v.
Proof.
  intros Hv. change (JSON_stringify v) with (text_of v). unfold JSON_parse.
  rewrite <- (app_nil_r (text_of v)) at 2. rewrite (plain_read v Hv); [done|lia|done].
Qed.

(** ** Whole numbers are read back *)

Lemma Qred_whole z : Qred (z # 1) = z # 1.
Proof. unfold Qred. pose proof (Z.ggcd_gcd z 1) as Hg. pose proof (Z.ggcd_correct_divisors z 1) as Hd.
  destruct (Z.ggcd z 1) as [g [a b]]. cbn in *. rewrite Z.gcd_1_r in Hg. subst g. destruct Hd as [Ha Hb].
  assert (a = z) as -> by lia. assert (b = 1) as -> by lia. done.
Qed.

(** A number equal to a whole one, in lowest terms. *)
Lemma lowest_whole q z : Qred q = q -> (q == z # 1)%Q -> q = z # 1.
Proof. intros Hq E. rewrite <- Hq, (Qred_complete _ _ E). apply Qred_whole. Qed.

Lemma round_ratio_lowest n d q : round_ratio n d = Fin q -> Qred q = q.
Proof.
  unfold round_ratio. destruct (n =? 0); [by intros [= <-]|]. cbv zeta.
  repeat match goal with |- context [if ?b then _ else _] => destruct b end; try done; intros [= <-];
    try apply Qred_whole; unfold num_of_Z, inject_Z; apply Qred_complete, Qred_correct.
Qed.

Lemma dec_val_bound ds : Forall (fun c => is_digit c = true) ds -> (dec_val ds < 10 ^ N.of_nat (length ds))%N.
Proof.
  induction ds as [|d ds IH] using rev_ind; intros H; [done|]. apply Forall_app in H as [H Hd%Forall_inv].
  specialize (IH H). unfold dec_val in *. rewrite dec_val_from_app, length_app. cbn [length].
  replace (N.of_nat (length ds + 1)) with (N.succ (N.of_nat (length ds))) by lia. rewrite N.pow_succ_r'.
  change (dec_val_from ?x [d]) with (10 * x + (d - 48))%N. unfold is_digit in Hd. apply andb_true_iff in Hd as [H1%N.leb_le H2%N.leb_le].
  revert IH. generalize (dec_val_from 0 ds) (10 ^ N.of_nat (length ds))%N. lia.
Qed.

Lemma dec_go_length fuel : forall n acc, (0 < n)%N -> (n < 10 ^ N.of_nat fuel)%N -> (0 < fuel)%nat ->
  exists ds, dec_go fuel n acc = ds ++ acc /\ (10 ^ N.of_nat (length ds - 1) <= n)%N.
Proof.
  induction fuel as [|f IH]; intros n acc Hp Hn Hf; [lia|]. cbn [dec_go].
  destruct (N.eqb_spec (n / 10) 0) as [E|E]; [exists [(48 + n mod 10)%N]; split; [done|cbn; lia]|].
  destruct f as [|f]; [exfalso; apply E, N.div_small; done|].
  destruct (IH (n / 10)%N ((48 + n mod 10)%N :: acc)) as (ds & -> & Hv); [by apply N.neq_0_lt_0| |lia|].
  { apply N.Div0.div_lt_upper_bound. rewrite <- N.pow_succ_r'. by replace (N.succ (N.of_nat (S f))) with (N.of_nat (S (S f))) by lia. }
  exists (ds ++ [(48 + n mod 10)%N]). split; [by rewrite <- app_assoc|]. rewrite length_app. cbn [length].
  replace (length ds + 1 - 1)%nat with (length ds) by lia. pose proof (N.Div0.div_mod n 10) as Hdm.
  destruct (length ds) as [|k]; [cbn; lia|]. replace (N.of_nat (S k)) with (N.succ (N.of_nat (S k - 1))) by lia.
  rewrite N.pow_succ_r'. revert Hdm Hv. generalize (n / 10)%N (n mod 10)%N (10 ^ N.of_nat (S k - 1))%N. lia.
Qed.

(** The digits of a positive number: no zero at their head, and as many as its size. *)
Lemma dec_of_N_size n : (0 < n)%N ->
  (10 ^ N.of_nat (length (dec_of_N n) - 1) <= n < 10 ^ N.of_nat (length (dec_of_N n)))%N /\
  exists c ds, dec_of_N n = c :: ds /\ c <> 48%N.
Proof.
  intros Hp. destruct (dec_of_N_spec n) as (Hne & Hd & Hv).
  assert (10 ^ N.of_nat (length (dec_of_N n) - 1) <= n)%N as Hlow.
  { unfold dec_of_N. destruct (dec_go_length (S (N.to_nat (N.log2 n))) n []) as (ds & -> & H); [done| |lia|by rewrite app_nil_r].
    rewrite Nat2N.inj_succ, N2Nat.id. eapply N.lt_le_trans; [apply N.log2_spec; lia|]. apply N.pow_le_mono_l. lia. }
  assert (n < 10 ^ N.of_nat (length (dec_of_N n)))%N as Hhigh by (rewrite <- Hv at 1; by apply dec_val_bound).
  split; [done|]. destruct (dec_of_N n) as [|c ds]; [done|]. exists c, ds. split; [done|]. intros ->.
  apply Forall_cons in Hd as [_ Hd]. pose proof (dec_val_bound ds Hd) as Hb. cbn [length] in Hlow.
  replace (S (length ds) - 1)%nat with (length ds) in Hlow by lia.
  assert (dec_val (48%N :: ds) = dec_val ds) as E by done. rewrite <- Hv, E in Hlow. lia.
Qed.

Lemma digits_all ds : Forall (fun c => is_digit c = true) ds -> digits ds = (ds, []).
Proof. induction 1 as [|c ds Hc _ IH]; [done|]. cbn [digits]. by rewrite Hc, IH. Qed.

Lemma digit_range c : is_digit c = true -> (48 <= c <= 57)%N.
Proof. unfold is_digit. intros [H1%N.leb_le H2%N.leb_le]%andb_true_iff. done. Qed.

(** A run of digits that begins with no zero. *)
Definition whole_digits (ds : jstring) : Prop :=
  Forall (fun c => is_digit c = true) ds /\ exists c ds', ds = c :: ds' /\ c <> 48%N.

Lemma decimal_digits ds : ds <> [] -> Forall (fun c => is_digit c = true) ds -> decimal ds = Some (Z.of_N (dec_val ds), 0).
Proof. intros Hne Hd. unfold decimal. rewrite (digits_all ds Hd). cbn. rewrite app_nil_r. by destruct ds. Qed.

Lemma Number_digits ds : whole_digits ds -> Number ds = round_dec (Z.of_N (dec_val ds)) 0.
Proof.
  intros [Hd (c & ds' & E & Hc)]. unfold Number.
  assert (trim ds = ds) as -> by (apply trim_id; eapply Forall_impl; [exact Hd|]; intros x; apply is_digit_not_ws).
  pose proof (decimal_digits ds ltac:(by rewrite E) Hd) as Hdec. rewrite E in Hdec |- *. rewrite E in Hd.
  pose proof (digit_range c (Forall_inv Hd)) as Hr.
  assert (c ∈ [49; 50; 51; 52; 53; 54; 55; 56; 57]%N) as Hin by (rewrite !elem_of_cons; lia).
  cbv zeta.
  assert (startsWith (c :: ds') (js "0x") = false /\ startsWith (c :: ds') (js "0X") = false /\
    startsWith (c :: ds') (js "0o") = false /\ startsWith (c :: ds') (js "0O") = false /\
    startsWith (c :: ds') (js "0b") = false /\ startsWith (c :: ds') (js "0B") = false /\
    sign_of (c :: ds') = (false, c :: ds') /\ jeqb (c :: ds') (js "Infinity") = false) as (-> & -> & -> & -> & -> & -> & -> & ->).
  { clear - Hin. rewrite !elem_of_cons, elem_of_nil in Hin. repeat destruct Hin as [-> | Hin]; done. }
  cbn [orb]. by rewrite Hdec.
Qed.

Lemma json_number_digits ds : whole_digits ds -> json_number ds = Some (round_dec (Z.of_N (dec_val ds)) 0, []).
Proof.
  intros Hw. pose proof (Number_digits ds Hw) as HN. destruct Hw as [Hd (c & ds' & E & Hc)]. unfold json_number.
  assert (json_int ds = Some (ds, [])) as Hi.
  { unfold json_int. rewrite (digits_all ds Hd), E. destruct ds'; [done|]. by rewrite (proj2 (N.eqb_neq c 48) Hc). }
  rewrite E in Hd, Hi, HN |- *. pose proof (digit_range c (Forall_inv Hd)) as Hr.
  rewrite (proj2 (N.eqb_neq c 45)) by lia. rewrite Hi. cbn [json_frac json_exp app]. rewrite app_nil_r. by rewrite HN.
Qed.

Lemma dec_val_zeros ds m : dec_val (ds ++ repeat 48%N m) = (dec_val ds * 10 ^ N.of_nat m)%N.
Proof.
  induction m as [|m IH] using nat_ind; [by rewrite app_nil_r, N.mul_1_r|].
  replace (S m) with (m + 1)%nat by lia. rewrite repeat_app, app_assoc. unfold dec_val in *. rewrite dec_val_from_app, IH.
  change (dec_val_from ?x (repeat 48%N 1)) with (10 * x + 0)%N.
  replace (N.of_nat (m + 1)) with (N.succ (N.of_nat m)) by lia. rewrite N.pow_succ_r'. lia.
Qed.

(** The nearest double of a whole number below 2^53 is the number. *)
Lemma round_ratio_whole z : 0 < z < 2 ^ 53 -> round_ratio z 1 = Fin (z # 1).
Proof.
  intros Hz. unfold round_ratio. rewrite (proj2 (Z.eqb_neq z 0)) by lia. cbv zeta. change (Z.log2 1) with 0.
  rewrite Z.sub_0_r. pose proof (Z.log2_spec z ltac:(lia)) as [Hl1 Hl2]. pose proof (Z.log2_nonneg z) as Hl0.
  assert (Z.log2 z <= 52) as Hl by (apply Z.lt_succ_r, Z.log2_lt_pow2; lia).
  rewrite (Z.max_r 0 (Z.log2 z)), (Z.max_l 0 (- Z.log2 z)) by lia.
  rewrite (proj2 (Z.leb_le (1 * 2 ^ Z.log2 z) (z * 2 ^ 0))) by lia. rewrite (Z.max_l (Z.log2 z - 52)) by lia.
  assert (exists k, Z.log2 z - 52 = - k /\ k = 52 - Z.log2 z) as (k & -> & Hk) by (exists (52 - Z.log2 z); lia).
  rewrite Z.opp_involutive, (Z.max_r 0 k), (Z.max_l 0 (- k)) by lia.
  change (1 * 2 ^ 0) with 1. rewrite Z.div_1_r, Z.mod_1_r. change ((1 <? 2 * 0) || ((2 * 0 =? 1) && Z.odd (z * 2 ^ k))) with false.
  cbv iota. change (2 ^ 0) with 1. rewrite Z.mul_1_r.
  assert (z * 2 ^ k < 2 ^ 53) as Hsmall.
  { replace 53 with (Z.succ (Z.log2 z) + k) by lia. rewrite Z.pow_add_r by lia. apply Z.mul_lt_mono_pos_r; [|done].
    apply Z.pow_pos_nonneg; lia. }
  rewrite (proj2 (Z.leb_gt (2 ^ 1024) (z * 2 ^ k))) by (eapply Z.lt_trans; [exact Hsmall|]; reflexivity).
  destruct (Z.leb_spec 0 (- k)) as [Hk0|Hk0].
  - replace k with 0 by lia. unfold num_of_Z, inject_Z. f_equal. f_equal. change (2 ^ 0) with 1. change (2 ^ (- 0)) with 1. lia.
  - f_equal. rewrite <- (Qred_whole z). apply Qred_complete. unfold Qeq. cbn [Qnum Qden].
    rewrite Z2Pos.id by (apply Z.pow_pos_nonneg; lia). lia.
Qed.

(** The search for the fewest digits ends at the latest with all of them. *)
Lemma shortest_whole z n left : forall k, 0 < z < 2 ^ 53 -> k + Z.of_nat left = 18 -> 1 <= k <= n -> n <= 16 ->
  exists k', k <= k' <= n /\
    let s := scaled (z # 1) (n - k') in
    num_eqb (round_dec s (n - k')) (Fin (z # 1)) = true /\
    shortest left k n (z # 1) = if s =? 10 ^ k' then (1, n + 1) else (s, n).
Proof.
  induction left as [|left IH]; intros k Hz Hk Hkn Hn; [lia|]. cbn [shortest]. cbv zeta.
  destruct (num_eqb (round_dec (scaled (z # 1) (n - k)) (n - k)) (Fin (z # 1))) eqn:E.
  - exists k. split; [lia|]. by split.
  - destruct (Z.eq_dec k n) as [->|Hne].
    + exfalso. rewrite Z.sub_diag in E. unfold scaled, round_dec in E. cbn [Qnum Qden] in E.
      change (Z.max 0 0) with 0 in E. change (- 0) with 0 in E. change (Z.max 0 0) with 0 in E. change (10 ^ 0) with 1 in E.
      replace ((2 * (z * 1) + 1 * 1) / (2 * (1 * 1))) with z in E by (apply (Z.div_unique _ _ z 1); lia).
      rewrite Z.mul_1_r, round_ratio_whole in E by done. unfold num_eqb in E. by rewrite Qeq_bool_refl in E.
    + destruct (IH (k + 1)) as (k' & Hk' & H1 & H2); [done|lia|lia|done|]. exists k'. split; [lia|]. done.
Qed.

(** The digits the search finds stand for the number. *)
Lemma scaled_whole z p : 0 < z -> 0 <= p -> scaled (z # 1) p = (2 * z + 10 ^ p) / (2 * 10 ^ p).
Proof.
  intros Hz Hp. unfold scaled. cbn [Qnum Qden]. rewrite (Z.max_r 0 p), (Z.max_l 0 (- p)) by lia. f_equal; lia.
Qed.

Lemma round_dec_up s p : 0 <= p -> round_dec s p = round_dec (s * 10 ^ p) 0.
Proof.
  intros Hp. unfold round_dec. rewrite (Z.max_r 0 p), (Z.max_l 0 (- p)) by lia. change (Z.max 0 0) with 0.
  change (- 0) with 0. change (Z.max 0 0) with 0. by rewrite Z.pow_0_r, Z.mul_1_r.
Qed.

(** The digits of a positive integer, as integers. *)
Lemma dec_of_Z_size z : 0 < z -> let d := Z.of_nat (length (dec_of_Z z)) in
  10 ^ (d - 1) <= z < 10 ^ d /\ 1 <= d /\ whole_digits (dec_of_Z z) /\ Z.of_N (dec_val (dec_of_Z z)) = z.
Proof.
  intros Hz d. unfold d, whole_digits. rewrite dec_of_Z_nonneg by lia.
  destruct (dec_of_N_size (Z.to_N z) ltac:(lia)) as [[H1 H2] Hh]. destruct (dec_of_N_spec (Z.to_N z)) as (Hne & Hd & Hv).
  assert (1 <= length (dec_of_N (Z.to_N z)))%nat as Hlen by (destruct (dec_of_N (Z.to_N z)); cbn; [done|lia]).
  revert H1 H2 Hlen. generalize (length (dec_of_N (Z.to_N z))). intros len H1 H2 Hlen.
  apply N2Z.inj_le in H1. apply N2Z.inj_lt in H2. rewrite N2Z.inj_pow in H1, H2. rewrite Z2N.id in H1, H2 by lia.
  change (Z.of_N 10) with 10 in *. rewrite nat_N_Z in H1, H2. replace (Z.of_nat (len - 1)) with (Z.of_nat len - 1) in H1 by lia.
  split; [done|]. split; [lia|]. split; [done|]. rewrite Hv. lia.
Qed.

(** A size is determined by the number. *)
Lemma size_unique z a b : 1 <= a -> 1 <= b -> 10 ^ (a - 1) <= z < 10 ^ a -> 10 ^ (b - 1) <= z < 10 ^ b -> a = b.
Proof.
  intros Ha Hb [H1 H2] [H3 H4].
  assert (a - 1 < b) by (apply (Z.pow_lt_mono_r_iff 10); lia). assert (b - 1 < a) by (apply (Z.pow_lt_mono_r_iff 10); lia). lia.
Qed.

Lemma whole_digits_zeros ds m : whole_digits ds -> whole_digits (ds ++ repeat 48%N m).
Proof.
  intros [Hd (c & ds' & -> & Hc)]. split; [|by exists c, (ds' ++ repeat 48%N m)].
  apply Forall_app. split; [done|]. apply Forall_forall. intros x Hx. apply list_elem_of_In, repeat_spec in Hx. by subst.
Qed.

Lemma scaled_range z p k : 0 <= p -> 1 <= k -> 10 ^ (p + k - 1) <= z < 10 ^ (p + k) ->
  10 ^ (k - 1) <= scaled (z # 1) p <= 10 ^ k.
Proof.
  intros Hp Hk [H1 H2]. assert (0 < 10 ^ p) as HT by (apply Z.pow_pos_nonneg; lia).
  assert (0 < 10 ^ (p + k - 1)) by (apply Z.pow_pos_nonneg; lia).
  rewrite scaled_whole by lia. replace (p + k - 1) with (p + (k - 1)) in * by lia. rewrite Z.pow_add_r in * by lia.
  revert HT H1 H2. generalize (10 ^ p) (10 ^ (k - 1)) (10 ^ k). intros T A B HT H1 H2.
  split; [apply Z.div_le_lower_bound; nia|]. apply Z.lt_succ_r, Z.div_lt_upper_bound; nia.
Qed.

Lemma read_back z s p : 0 <= p -> num_eqb (round_dec s p) (Fin (z # 1)) = true -> round_dec (s * 10 ^ p) 0 = Fin (z # 1).
Proof.
  intros Hp H. rewrite (round_dec_up s p Hp) in H. unfold num_eqb, round_dec in *.
  destruct (round_ratio _ _) as [|b|q] eqn:E; [done|done|]. f_equal. apply lowest_whole; [by eapply round_ratio_lowest|].
  by apply Qeq_bool_eq.
Qed.

Lemma whole_text z : 0 < z < 2 ^ 53 ->
  whole_digits (string_of_pos (z # 1)) /\ round_dec (Z.of_N (dec_val (string_of_pos (z # 1)))) 0 = Fin (z # 1).
Proof.
  intros Hz. unfold string_of_pos, magnitude. change (Qle_bool 1 (z # 1)) with (1 * 1 <=? z * 1).
  rewrite (proj2 (Z.leb_le (1 * 1) (z * 1))) by lia. cbn [Qnum Qden]. rewrite Z.div_1_r.
  destruct (dec_of_Z_size z ltac:(lia)) as (Hs & Hn1 & _). set (n := Z.of_nat (length (dec_of_Z z))) in *.
  assert (n <= 16) as Hn16.
  { assert (n - 1 < 16); [|lia]. apply (Z.pow_lt_mono_r_iff 10); [lia..|]. eapply Z.le_lt_trans; [apply Hs|].
    eapply Z.lt_trans; [apply Hz|]. reflexivity. }
  destruct (shortest_whole z n 17 1 Hz) as (k & Hk & Heq & ->); [lia..|].
  pose proof (scaled_range z (n - k) k ltac:(lia) ltac:(lia) ltac:(replace (n - k + k - 1) with (n - 1) by lia; replace (n - k + k) with n by lia; exact Hs)) as Hrange.
  apply read_back in Heq; [|lia]. set (s := scaled (z # 1) (n - k)) in *.
  destruct (Z.eqb_spec s (10 ^ k)) as [E|E].
  - change (dec_of_Z 1) with [49%N]. cbn [length]. change (Z.of_nat 1) with 1.
    rewrite (proj2 (Z.leb_le 1 (n + 1))), (proj2 (Z.leb_le (n + 1) 21)) by lia. cbn [andb]. unfold zeros.
    assert (whole_digits [49%N]) as Hw by (split; [by repeat constructor|by exists 49%N, []]).
    split; [by apply whole_digits_zeros|]. rewrite dec_val_zeros. change (dec_val [49%N]) with 1%N. rewrite N.mul_1_l.
    rewrite E, <- Z.pow_add_r in Heq by lia. replace (k + (n - k)) with n in Heq by lia. rewrite <- Heq. f_equal.
    rewrite N2Z.inj_pow. change (Z.of_N 10) with 10. f_equal. lia.
  - assert (10 ^ (k - 1) <= s < 10 ^ k) as Hrange' by lia.
    assert (0 < 10 ^ (k - 1)) by (apply Z.pow_pos_nonneg; lia).
    destruct (dec_of_Z_size s ltac:(lia)) as (Hs2 & Hk1 & Hw & Hv).
    rewrite (size_unique s (Z.of_nat (length (dec_of_Z s))) k) by (done || lia).
    rewrite (proj2 (Z.leb_le k n)), (proj2 (Z.leb_le n 21)) by lia. cbn [andb]. unfold zeros.
    split; [by apply whole_digits_zeros|]. rewrite dec_val_zeros, N2Z.inj_mul, Hv, N2Z.inj_pow. change (Z.of_N 10) with 10.
    rewrite <- Heq. f_equal. f_equal. f_equal. lia.
Qed.

(** Whole numbers below 2^53 are read back from their text. *)
Lemma readable_whole z : 0 <= z < 2 ^ 53 -> readable (num_of_Z z).
Proof.
  intros Hz. split; [done|]. destruct (Z.eq_dec z 0) as [->|Hne]; [by vm_compute|].
  unfold num_of_Z, inject_Z. cbn [string_of_num Qnum]. rewrite (proj2 (Z.eqb_neq z 0)), (proj2 (Z.ltb_ge z 0)) by lia.
  destruct (whole_text z ltac:(lia)) as [Hw Hv]. rewrite json_number_digits by done. by rewrite Hv.
Qed.
