(* ===== verification/JsonPretty.v ===== *)
(** * JSON text with white space

    [JSON.stringify(v, null, 2)], and that [JSON.parse] reads it back: a text of a value is
    described with any white space between its tokens, and every such text is read as the value. *)

From S2P Require Import Prelude JsValue JsText JsonText.
#[global] Open Scope Z_scope.

(** A new line, indented to the depth. *)
Definition indentation (depth : nat) : jstring := 10%N :: repeat 32%N (2 * depth).

(** [JSON.stringify(v, null, 2)] of a value within [depth] others. *)
Fixpoint stringify_indented (depth : nat) (v : jsval) : option jstring :=
  let between := js "," ++ indentation (S depth) in
  match v with
  | JArr (x :: l) =>
      Some (js "[" ++ indentation (S depth) ++
        join between (map (fun x => coalesce (stringify_indented (S depth) x) (js "null")) (x :: l)) ++ indentation depth ++ js "]")
  | JObj fields =>
      let members := (fix members (fields : list (jstring * jsval)) : list jstring :=
        match fields with
        | [] => []
        | (k, x) :: fields' =>
            match stringify_indented (S depth) x with
            | Some t => (json_quote k ++ js ": " ++ t) :: members fields'
            | None => members fields'
            end
        end) in
      match members fields with
      | [] => Some (js "{}")
      | ms => Some (js "{" ++ indentation (S depth) ++ join between ms ++ indentation depth ++ js "}")
      end
  | _ => stringify v
  end.

Definition JSON_stringify_2 (v : jsval) : jstring := coalesce (stringify_indented 0 v) [].

Definition blank (w : jstring) : Prop := Forall (fun c => json_ws c = true) w.

(** The texts of a value: white space may stand between the tokens.  Elements and members with
    the bracket that closes them. *)
Inductive prints : jsval -> jstring -> Prop :=
| prints_null : prints JNull (js "null")
| prints_bool b : prints (JBool b) (if b then js "true" else js "false")
| prints_num n : readable n -> prints (JNum n) (string_of_num n)
| prints_str s : prints (JStr s) (json_quote s)
| prints_empty_arr w : blank w -> prints (JArr []) (91%N :: w ++ [93%N])
| prints_arr l s : prints_elements l s -> prints (JArr l) (91%N :: s)
| prints_empty_obj w : blank w -> prints (JObj []) (123%N :: w ++ [125%N])
| prints_obj fs s : NoDup (map fst fs) -> prints_members fs s -> prints (JObj fs) (123%N :: s)
with prints_elements : list jsval -> jstring -> Prop :=
| element_last v t w w' : blank w -> blank w' -> prints v t -> prints_elements [v] (w ++ t ++ w' ++ [93%N])
| element_more v t w w' l s : blank w -> blank w' -> prints v t -> prints_elements l s ->
    prints_elements (v :: l) (w ++ t ++ w' ++ 44%N :: s)
with prints_members : list (jstring * jsval) -> jstring -> Prop :=
| member_last k v t w w1 w2 w3 : blank w -> blank w1 -> blank w2 -> blank w3 -> prints v t ->
    prints_members [(k, v)] (w ++ json_quote k ++ w1 ++ 58%N :: w2 ++ t ++ w3 ++ [125%N])
| member_more k v t w w1 w2 w3 fs s : blank w -> blank w1 -> blank w2 -> blank w3 -> prints v t -> prints_members fs s ->
    prints_members ((k, v) :: fs) (w ++ json_quote k ++ w1 ++ 58%N :: w2 ++ t ++ w3 ++ 44%N :: s).

Scheme prints_mind := Minimality for prints Sort Prop
  with prints_elements_mind := Minimality for prints_elements Sort Prop
  with prints_members_mind := Minimality for prints_members Sort Prop.
Combined Scheme prints_mutual_ind from prints_mind, prints_elements_mind, prints_members_mind.

Lemma skip_blank w s : blank w -> skip_ws (w ++ s) = skip_ws s.
Proof. unfold skip_ws. induction 1 as [|c w Hc _ IH]; [done|]. cbn. by rewrite Hc. Qed.

Lemma skip_at c s : json_ws c = false -> skip_ws (c :: s) = c :: s.
Proof. intros H. unfold skip_ws. cbn. by rewrite H. Qed.

(** What follows a number may be white space. *)
Lemma blank_stops w c s : blank w -> num_stops (c :: s) -> num_stops (w ++ c :: s).
Proof.
  destruct 1 as [|x w Hx _]; [done|]. intros _. cbn. unfold json_ws in Hx.
  rewrite !orb_true_iff, !N.eqb_eq in Hx. destruct Hx as [[[-> | ->] | ->] | ->]; done.
Qed.

(** A text is read, white space before it skipped, given as much fuel as it is long. *)
Lemma parse_skips fl w s : blank w -> parse_value (S fl) (w ++ s) = parse_value (S fl) s.
Proof. intros Hw. cbn [parse_value]. by rewrite (skip_blank w s Hw). Qed.

Lemma prints_opens v t : prints v t -> exists c s, t = c :: s /\ json_ws c = false /\ c <> 93%N.
Proof.
  destruct 1 as [|b|n Hn|s|w Hw|l s Hl|w Hw|fs s Hd Hm]; try by eexists _, _.
  - destruct b; by eexists _, _.
  - rewrite <- text_num by done. apply text_opens. by constructor.
Qed.

Lemma read_blank_elements fl n w s : blank w -> read_elements (S fl) n (w ++ s) = read_elements (S fl) n s.
Proof. intros Hw. destruct n as [|n]; [done|]. cbn [read_elements]. by rewrite parse_skips. Qed.

Lemma read_blank_members fl n acc w s : blank w -> read_members fl n acc (w ++ s) = read_members fl n acc s.
Proof. intros Hw. destruct n as [|n]; [done|]. cbn [read_members]. by rewrite (skip_blank w s Hw). Qed.

(** A member of the name [k], up to what follows its value. *)
Lemma read_one_member fl n acc k v t w1 w2 w3 d s : blank w1 -> blank w2 -> blank w3 -> json_ws d = false ->
  num_stops (d :: s) -> parse_value (S fl) (t ++ w3 ++ d :: s) = Some (v, w3 ++ d :: s) ->
  read_members (S fl) (S n) acc (json_quote k ++ w1 ++ 58%N :: w2 ++ t ++ w3 ++ d :: s) =
  if (d =? 44)%N then read_members (S fl) n (mset acc k v) s else if (d =? 125)%N then Some (mset acc k v, s) else None.
Proof.
  intros H1 H2 H3 Hd Hs Ht. unfold json_quote. cbn [app read_members]. rewrite skip_at by done. change (34 =? 34)%N with true. cbv iota.
  rewrite <- app_assoc. cbn [app]. rewrite parse_units_quoted, (skip_blank w1 _ H1), skip_at by done.
  change (58 =? 58)%N with true. cbv iota. rewrite parse_skips, Ht by done. by rewrite (skip_blank w3 _ H3), skip_at by done.
Qed.

Lemma prints_read :
  (forall v t, prints v t -> forall fuel r, (length t < fuel)%nat -> num_stops r -> parse_value fuel (t ++ r) = Some (v, r)) /\
  (forall l s, prints_elements l s -> forall fl n r, (length s < n)%nat -> (length s < fl)%nat ->
     read_elements fl n (s ++ r) = Some (l, r)) /\
  (forall fs s, prints_members fs s -> forall fl n acc r, NoDup (map fst (acc ++ fs)) -> (length s < n)%nat -> (length s < fl)%nat ->
     read_members fl n acc (s ++ r) = Some (acc ++ fs, r)).
Proof.
  apply prints_mutual_ind.
  - intros fuel r Hf _. destruct fuel; [cbn in Hf; lia|]. apply literal_text.
  - intros b fuel r Hf _. destruct fuel; [cbn in Hf; lia|]. destruct b; apply literal_text.
  - intros n Hn fuel r Hf Hr. destruct fuel; [cbn in Hf; lia|]. by apply number_text.
  - intros s fuel r Hf _. destruct fuel; [cbn in Hf; lia|]. apply string_text.
  - intros w Hw fuel r Hf _. destruct fuel as [|fuel]; [cbn in Hf; lia|]. cbn [app]. rewrite parse_array, <- app_assoc.
    by rewrite (skip_blank w _ Hw).
  - intros l s Hl IH fuel r Hf _. destruct fuel as [|fuel]; [cbn in Hf; lia|]. cbn [app length] in *. rewrite parse_array.
    assert (exists c s', skip_ws (s ++ r) = c :: s' /\ c <> 93%N) as (c & s' & -> & Hc).
    { destruct Hl as [v t w w' Hw _ Ht|v t w w' l s Hw _ Ht _]; destruct (prints_opens _ _ Ht) as (c & t' & -> & Hc & Hn);
        rewrite <- app_assoc, (skip_blank w _ Hw); cbn [app]; rewrite skip_at by done; eauto. }
    rewrite (proj2 (N.eqb_neq c 93) Hc), IH by lia. done.
  - intros w Hw fuel r Hf _. destruct fuel as [|fuel]; [cbn in Hf; lia|]. cbn [app]. rewrite parse_object, <- app_assoc.
    by rewrite (skip_blank w _ Hw).
  - intros fs s Hd Hm IH fuel r Hf _. destruct fuel as [|fuel]; [cbn in Hf; lia|]. cbn [app length] in *. rewrite parse_object.
    assert (exists s', skip_ws (s ++ r) = 34%N :: s') as (s' & ->).
    { destruct Hm as [k v t w w1 w2 w3 Hw _ _ _ _|k v t w w1 w2 w3 fs s Hw _ _ _ _ _]; unfold json_quote;
        rewrite <- app_assoc, (skip_blank w _ Hw); cbn [app]; rewrite skip_at by done; eauto. }
    cbv beta iota. change (34 =? 125)%N with false. cbv iota. by rewrite IH by (done || lia).
  - intros v t w w' Hw Hw' _ IH fl n r Hn Hf. rewrite !length_app in *. cbn [length] in *.
    destruct fl as [|fl]; [lia|]. destruct n as [|n]; [lia|]. rewrite <- !app_assoc. cbn [app].
    rewrite read_blank_elements by done. cbn [read_elements]. rewrite IH by (lia || by apply blank_stops).
    by rewrite (skip_blank w' _ Hw').
  - intros v t w w' l s Hw Hw' _ IH _ IHl fl n r Hn Hf. rewrite !length_app in *. cbn [length] in *.
    destruct fl as [|fl]; [lia|]. destruct n as [|n]; [lia|]. rewrite <- !app_assoc. cbn [app].
    rewrite read_blank_elements by done. cbn [read_elements]. rewrite IH by (lia || by apply blank_stops).
    rewrite (skip_blank w' _ Hw'), skip_at by done. change (44 =? 44)%N with true. cbv iota. by rewrite IHl by lia.
  - intros k v t w w1 w2 w3 Hw H1 H2 H3 _ IH fl n acc r Hd Hn Hf.
    rewrite !length_app in *. cbn [length] in *. rewrite !length_app in *. cbn [length] in *.
    destruct fl as [|fl]; [lia|]. destruct n as [|n]; [lia|].
    repeat (rewrite <- !app_assoc; cbn [app]). rewrite read_blank_members by done.
    rewrite (read_one_member fl n acc k v t) by first [done|apply IH; [lia|by apply blank_stops]].
    change (125 =? 44)%N with false. change (125 =? 125)%N with true. cbv iota. f_equal. f_equal.
    apply mset_new, mget_None. rewrite map_app in Hd. apply NoDup_app in Hd as (_ & Hd & _). intros Hin. apply (Hd k Hin). by left.
  - intros k v t w w1 w2 w3 fs s Hw H1 H2 H3 _ IH _ IHm fl n acc r Hd Hn Hf.
    rewrite !length_app in *. cbn [length] in *. rewrite !length_app in *. cbn [length] in *.
    destruct fl as [|fl]; [lia|]. destruct n as [|n]; [lia|].
    repeat (rewrite <- !app_assoc; cbn [app]). rewrite read_blank_members by done.
    rewrite (read_one_member fl n acc k v t) by first [done|apply IH; [lia|by apply blank_stops]].
    change (44 =? 44)%N with true. cbv iota.
    assert (mset acc k v = acc ++ [(k, v)]) as ->.
    { apply mset_new, mget_None. rewrite map_app in Hd. apply NoDup_app in Hd as (_ & Hd & _). intros Hin. apply (Hd k Hin). by left. }
    rewrite IHm; [by rewrite <- app_assoc|by rewrite <- app_assoc|lia|lia].
Qed.

(** Every text of a value is read as the value, white space around it included. *)
Lemma parse_printed v t w w' : prints v t -> blank w -> blank w' -> JSON_parse (w ++ t ++ w') = Ret v.
Proof.
  intros Ht Hw Hw'. unfold JSON_parse. rewrite parse_skips by done.
  rewrite (proj1 prints_read v t Ht); [|rewrite !length_app; lia|].
  - rewrite <- (app_nil_r w'), (skip_blank w' [] Hw'). done.
  - destruct Hw' as [|c w' Hc _]; [done|]. unfold json_ws in Hc. rewrite !orb_true_iff, !N.eqb_eq in Hc.
    destruct Hc as [[[-> | ->] | ->] | ->]; done.
Qed.

(** ** The indented text is one of them *)

Lemma blank_indentation d : blank (indentation d).
Proof. apply Forall_cons_2; [done|]. induction (2 * d)%nat; by constructor. Qed.

Definition indented (d : nat) (v : jsval) : jstring := coalesce (stringify_indented d v) [].

(** The elements or members of a list, each on a line of its own, with the closing bracket. *)
Definition lines (d : nat) (close : N) (ts : list jstring) : jstring :=
  indentation (S d) ++ join (js "," ++ indentation (S d)) ts ++ indentation d ++ [close].

Lemma lines_one d close t : lines d close [t] = indentation (S d) ++ t ++ indentation d ++ [close].
Proof. done. Qed.

Lemma lines_more d close t u ts : lines d close (t :: u :: ts) = indentation (S d) ++ t ++ [] ++ 44%N :: lines d close (u :: ts).
Proof.
  unfold lines. change (join ?sep (t :: u :: ts)) with (t ++ sep ++ join sep (u :: ts)).
  change (js ",") with [44%N]. by rewrite <- !app_assoc.
Qed.

Lemma elements_printed d l : l <> [] -> Forall (fun v => prints v (indented (S d) v)) l ->
  prints_elements l (lines d 93%N (map (indented (S d)) l)).
Proof.
  intros Hl H. induction H as [|v l Hv H IH]; [done|]. destruct l as [|v2 l].
  - cbn [map]. rewrite lines_one. apply element_last; [apply blank_indentation..|done].
  - cbn [map]. rewrite lines_more. apply element_more; [apply blank_indentation|constructor|done|by apply IH].
Qed.

Definition indented_member (d : nat) (f : jstring * jsval) : jstring := json_quote f.1 ++ js ": " ++ indented d f.2.

Lemma members_printed d fs : fs <> [] -> Forall (fun f => prints f.2 (indented (S d) f.2)) fs ->
  prints_members fs (lines d 125%N (map (indented_member (S d)) fs)).
Proof.
  assert (forall f x, indented_member (S d) f ++ x = json_quote f.1 ++ [] ++ 58%N :: [32%N] ++ indented (S d) f.2 ++ x) as E.
  { intros f x. unfold indented_member. change (js ": ") with [58%N; 32%N]. by rewrite <- !app_assoc. }
  assert (blank [32%N]) as Hb by by repeat constructor.
  intros Hl H. induction H as [|[k v] fs Hv H IH]; [done|]. destruct fs as [|f2 fs].
  - cbn [map]. rewrite lines_one, E. apply member_last; [apply blank_indentation|constructor|done|apply blank_indentation|done].
  - cbn [map]. rewrite lines_more, E. apply member_more; [apply blank_indentation|constructor|done|constructor|done|by apply IH].
Qed.

Definition indented_members (d : nat) : list (jstring * jsval) -> list jstring :=
  fix members (fields : list (jstring * jsval)) : list jstring :=
    match fields with
    | [] => []
    | (k, x) :: fields' =>
        match stringify_indented (S d) x with
        | Some t => (json_quote k ++ js ": " ++ t) :: members fields'
        | None => members fields'
        end
    end.

Lemma indented_object d f fs : (forall g, g ∈ f :: fs -> is_Some (stringify_indented (S d) g.2)) ->
  stringify_indented d (JObj (f :: fs)) = Some (123%N :: lines d 125%N (map (indented_member (S d)) (f :: fs))).
Proof.
  intros H. change (stringify_indented d (JObj (f :: fs))) with
    (match indented_members d (f :: fs) with
     | [] => Some (js "{}")
     | ms => Some (js "{" ++ indentation (S d) ++ join (js "," ++ indentation (S d)) ms ++ indentation d ++ js "}")
     end).
  assert (indented_members d (f :: fs) = map (indented_member (S d)) (f :: fs)) as E; [|by rewrite E].
  induction (f :: fs) as [|[k v] gs IH]; [done|]. cbn [map indented_members]. unfold indented_member, indented. cbn [fst snd].
  destruct (H (k, v)) as [t Ht]; [by left|]. cbn [snd] in Ht. rewrite Ht, IH; [done|]. intros g Hg. apply H. by right.
Qed.

Lemma indented_printed v : plain_json v -> forall d, is_Some (stringify_indented d v) /\ prints v (indented d v).
Proof.
  unfold indented.
  induction v as [| |b|n|s|l IH|fs IH] using jsval_nested_ind; intros Hp d;
    inversion Hp as [|b' E|n' Hn E|s' E|l' Hl E|fs' Hnd Hfs E]; subst.
  - split; [done|constructor].
  - split; [done|apply prints_bool].
  - cbn. rewrite (proj1 Hn). split; [done|by constructor].
  - split; [done|constructor].
  - pose proof (Forall_mp _ _ _ IH Hl) as Hr. destruct l as [|v l]; [split; [done|apply (prints_empty_arr []); constructor]|].
    split; [done|].
    change (prints (JArr (v :: l)) (91%N :: lines d 93%N (map (fun x => coalesce (stringify_indented (S d) x) (js "null")) (v :: l)))).
    assert (map (fun x => coalesce (stringify_indented (S d) x) (js "null")) (v :: l) = map (indented (S d)) (v :: l)) as E.
    { apply map_ext_Forall. eapply Forall_impl; [exact Hr|]. intros x Hx. unfold indented. by destruct (Hx (S d)) as [[t ->] _]. }
    rewrite E. apply prints_arr, elements_printed; [done|].
    eapply Forall_impl; [exact Hr|]. intros x Hx. apply Hx.
  - pose proof (Forall_mp _ _ _ IH Hfs) as Hr. destruct fs as [|f fs]; [split; [done|apply (prints_empty_obj []); constructor]|].
    rewrite indented_object; [split; [done|]; apply prints_obj; [done|]; apply members_printed; [done|]|].
    + eapply Forall_impl; [exact Hr|]. intros x Hx. apply Hx.
    + intros g Hg. rewrite Forall_forall in Hr. by apply Hr.
Qed.

(** Parsing undoes indented printing. *)
Theorem parse_stringify_2 v : plain_json v -> JSON_parse (JSON_stringify_2 v) = Ret v.
Proof.
  intros Hv. rewrite <- (app_nil_r (JSON_stringify_2 v)). apply (parse_printed v _ [] []); [|constructor..].
  by apply (indented_printed v Hv 0).
Qed.
