(* ===== verification/JsObject.v ===== *)
(** * Objects that are edited

    Reading, setting and deleting members of an object whose values are of unknown type, as the
    code does on parsed JSON: [o.k = v], [delete o.k], [v || d], [v?.trim()], [Number(v)].  Members are kept in
    the order they were added. *)

From S2P Require Import Prelude JsValue JsText JsonText.
#[global] Open Scope Z_scope.

(** ** Operators on values *)

(** [v || d] *)
Definition vor (v d : jsval) : jsval := if jtruthy v then v else d.

(** [v ?? d] *)
Definition vcoalesce (v d : jsval) : jsval := match v with JUndefined | JNull => d | _ => v end.

(** [v.trim()]; what is no string has no such method, and undefined and null no methods. *)
Definition trim_value (v : jsval) : exc jstring := match v with JStr s => Ret (trim s) | _ => Throw end.

(** [v?.trim()]: [JUndefined] where there is nothing to call. *)
Definition trim_optional (v : jsval) : exc jsval :=
  match v with JUndefined | JNull => Ret JUndefined | JStr s => Ret (JStr (trim s)) | _ => Throw end.

(** [Number(v)] *)
Definition number_of (v : jsval) : exc jsnum :=
  match v with
  | JUndefined => Ret NaN
  | JNull => Ret (num_of_Z 0)
  | JBool b => Ret (num_of_Z (if b then 1 else 0))
  | JNum n => Ret n
  | JStr s => Ret (Number s)
  | _ => ebind (String_of v) (fun s => Ret (Number s))
  end.

(** ** Members *)

Definition members := list (jstring * jsval).

(** [o.k = v] *)
Definition put (k : jstring) (v : jsval) (fs : members) : members := mset fs k v.
(** [delete o.k] *)
Definition del (k : jstring) (fs : members) : members := List.filter (fun f => negb (jeqb f.1 k)) fs.

Lemma assoc_mget {A} (k : jstring) (l : list (jstring * A)) : assoc k l = mget l k.
Proof.
  induction l as [|[k' v] l IH]; cbn; [done|]. unfold jeqb. case_bool_decide; destruct (decide (k' = k)); congruence.
Qed.

Lemma assoc_put k v fs k' : assoc k' (put k v fs) = if decide (k = k') then Some v else assoc k' fs.
Proof. unfold put. rewrite !assoc_mget. apply mget_mset. Qed.

Lemma assoc_put_same k v fs : assoc k (put k v fs) = Some v.
Proof. rewrite assoc_put. by rewrite decide_True. Qed.

Lemma assoc_put_other k v fs k' : k <> k' -> assoc k' (put k v fs) = assoc k' fs.
Proof. intros H. rewrite assoc_put. by rewrite decide_False. Qed.

Lemma assoc_del_same k fs : assoc k (del k fs) = None.
Proof.
  induction fs as [|[k' v] fs IH]; cbn; [done|]. destruct (jeqb k' k) eqn:E; cbn; [done|]. by rewrite E.
Qed.

Lemma assoc_del_other k fs k' : k <> k' -> assoc k' (del k fs) = assoc k' fs.
Proof.
  intros H. unfold del. induction fs as [|[k0 v] fs IH]; cbn; [done|]. destruct (jeqb k0 k) eqn:E; cbn; rewrite IH; [|done].
  apply jeqb_eq in E as ->. by rewrite (proj2 (jeqb_neq k k') H).
Qed.

(** Setting a member to what it is changes nothing, deleting one that is not there neither. *)
Lemma put_id k v fs : assoc k fs = Some v -> put k v fs = fs.
Proof.
  unfold put. rewrite assoc_mget. induction fs as [|[k0 v0] fs IH]; cbn; [done|].
  destruct (decide (k0 = k)); [by intros [= ->]|]. intros H. by rewrite IH.
Qed.

Lemma del_id k fs : assoc k fs = None -> del k fs = fs.
Proof.
  unfold del. induction fs as [|[k0 v0] fs IH]; cbn; [done|]. destruct (jeqb k0 k); [done|]. cbn. intros H. by rewrite IH.
Qed.

(** The objects whose text is read back. *)
Definition plain_members (fs : members) : Prop := NoDup (map fst fs) /\ Forall (fun f => plain_json f.2) fs.

Lemma plain_members_obj fs : plain_members fs <-> plain_json (JObj fs).
Proof. split; [intros []; by constructor|]. inversion 1. by split. Qed.

Lemma plain_put k v fs : plain_json v -> plain_members fs -> plain_members (put k v fs).
Proof.
  intros Hv [Hd Hp]. split; [by apply mset_NoDup|]. unfold put. clear Hd.
  induction Hp as [|[k0 v0] fs H0 Hp IH]; cbn; [by constructor|]. destruct (decide (k0 = k)); by constructor.
Qed.

Lemma plain_del k fs : plain_members fs -> plain_members (del k fs).
Proof.
  intros [Hd Hp]. unfold del. split.
  - induction fs as [|[k0 v0] fs IH]; cbn; [done|]. apply NoDup_cons in Hd as [Hk Hd]. apply Forall_cons in Hp as [_ Hp].
    destruct (negb (jeqb k0 k)); cbn; [|by apply IH]. apply NoDup_cons. split; [|by apply IH].
    intros ([k1 v1] & -> & Hin)%list_elem_of_fmap. apply Hk. apply list_elem_of_fmap. exists (k1, v1). split; [done|].
    apply list_elem_of_In, filter_In in Hin as [Hin _]. by apply list_elem_of_In.
  - apply List.Forall_forall. intros f [Hin _]%filter_In. rewrite List.Forall_forall in Hp. auto.
Qed.

Lemma plain_assoc k v fs : plain_members fs -> assoc k fs = Some v -> plain_json v.
Proof.
  intros [_ Hp]. induction Hp as [|[k0 v0] fs H0 _ IH]; cbn; [done|]. destruct (jeqb k0 k); [by intros [= <-]|done].
Qed.

Lemma plain_get v k : plain_json v -> jget v k = JUndefined \/ plain_json (jget v k).
Proof.
  destruct 1 as [| | | | |fs Hd Hp]; try by left. cbn. destruct (assoc k fs) eqn:E; [|by left]. right.
  by apply (plain_assoc k _ fs).
Qed.

Lemma plain_vor v d : v = JUndefined \/ plain_json v -> plain_json d -> plain_json (vor v d).
Proof. unfold vor. intros [-> | Hv] Hd; [done|]. by destruct (jtruthy v). Qed.

Lemma vor_twice v d : vor (vor v d) d = vor v d.
Proof. unfold vor. destruct (jtruthy v) eqn:E; [by rewrite E|]. by destruct (jtruthy d). Qed.

Create HintDb plain.
#[export] Hint Resolve plain_put plain_del plain_vor plain_get : plain.
#[export] Hint Constructors plain_json : plain.
