(* ===== verification/AdvancedCustomText.v ===== *)
(** * The text of an advanced custom configuration

    features/channels/lib/advanced-custom.ts, what it does with values of unknown type: a stored configuration is parsed,
    normalized and printed before any of it is checked.  [AdvancedCustom] normalizes
    configurations that have the declared types; here the same on any value, with what throws,
    and that both agree. *)

From S2P Require Import Prelude JsValue JsText JsonText JsonPretty JsObject AdvancedCustom.
#[global] Open Scope Z_scope.

(** ** On values of unknown type *)

(** [getAdvancedCustomRouteUpstreamPath] *)
Definition upstream_path_value (route : jsval) : exc jstring := trim_value (vor (jget route (js "upstream_path")) (JStr [])).

(** [normalizeAdvancedCustomRouteModels] *)
Definition models_value (models : jsval) : exc (list jstring) :=
  match models with
  | JArr l => ebind (emap trim_value l) (fun ms => Ret (List.filter truthy ms))
  | _ => Ret []
  end.

(** A member that is undefined is not recorded: it reads as undefined, and no text has it. *)
Definition unless_undefined (k : jstring) (v : jsval) : members := match v with JUndefined => [] | _ => [(k, v)] end.

Definition auth_value_of (auth : jsval) : jsval :=
  JObj (unless_undefined (js "type") (jget auth (js "type")) ++
        [(js "name", vor (jget auth (js "name")) (JStr [])); (js "value", vor (jget auth (js "value")) (JStr []))]).

(** [normalizeAdvancedCustomRoute] *)
Definition route_value (route : jsval) : exc jsval :=
  match route with
  | JUndefined | JNull => Throw
  | _ =>
      ebind (upstream_path_value route) (fun up =>
      ebind (models_value (jget route (js "models"))) (fun ms =>
      Ret (JObj ([(js "incoming_path", vor (jget route (js "incoming_path")) (JStr [])); (js "upstream_path", JStr up);
                  (js "converter", vor (jget route (js "converter")) (JStr c_none))] ++
                 match ms with [] => [] | _ => [(js "models", JArr (map JStr ms))] end ++
                 (if jtruthy (jget route (js "auth")) then [(js "auth", auth_value_of (jget route (js "auth")))] else [])))))
  end.

(** [normalizeAdvancedCustomConfig], of a value that is neither undefined nor null. *)
Definition config_value (config : jsval) : exc jsval :=
  ebind match jget config (js "advanced_routes") with JArr l => emap route_value l | _ => Ret [] end
    (fun routes => Ret (JObj [(js "advanced_routes", JArr routes)])).

(** [None] for null. *)
Definition parseAdvancedCustomConfig (value : option jstring) : option jsval :=
  match value with
  | Some text =>
      if truthy (trim text) then
        catch (ebind (JSON_parse text) (fun parsed =>
          match parsed with JObj _ => ebind (config_value parsed) (fun c => Ret (Some c)) | _ => Ret None end)) None
      else None
  | None => None
  end.

Definition stringifyAdvancedCustomConfig (config : jsval) : exc jstring :=
  ebind (config_value config) (fun c => Ret (JSON_stringify_2 c)).

(** ** Of the declared types *)

Definition z_text (v : jsval) : option (option jstring) :=
  match v with JUndefined => Some None | JStr s => Some (Some s) | _ => None end.

Definition typed_models (v : jsval) : option (option (list jstring)) :=
  match v with
  | JUndefined => Some None
  | JArr l => Some <$> mapM (fun x => match x with JStr s => Some s | _ => None end) l
  | _ => None
  end.

Definition typed_auth (v : jsval) : option (option AdvancedCustomRouteAuth) :=
  match v with
  | JUndefined => Some None
  | JObj _ =>
      t ← z_text (jget v (js "type")); n ← z_text (jget v (js "name")); x ← z_text (jget v (js "value"));
      Some (Some (MkAuth t n x))
  | _ => None
  end.

Definition typed_route (v : jsval) : option AdvancedCustomRoute :=
  match v with
  | JObj _ =>
      i ← z_text (jget v (js "incoming_path")); u ← z_text (jget v (js "upstream_path")); c ← z_text (jget v (js "converter"));
      m ← typed_models (jget v (js "models")); a ← typed_auth (jget v (js "auth")); Some (MkRoute i u c m a)
  | _ => None
  end.

(** A value as a configuration, where its members have the declared types. *)
Definition typed_config (v : jsval) : option AdvancedCustomConfig :=
  match v with
  | JObj _ =>
      match jget v (js "advanced_routes") with
      | JUndefined => Some (MkConfig None)
      | JArr l => MkConfig ∘ Some <$> mapM typed_route l
      | _ => None
      end
  | _ => None
  end.

(** A configuration as a value. *)
Definition text_member (k : jstring) (o : option jstring) : members := match o with Some s => [(k, JStr s)] | None => [] end.

Definition auth_object (a : AdvancedCustomRouteAuth) : jsval :=
  JObj (text_member (js "type") (auth_type a) ++ text_member (js "name") (auth_name a) ++ text_member (js "value") (auth_value a)).
Definition route_object (r : AdvancedCustomRoute) : jsval :=
  JObj (text_member (js "incoming_path") (incoming_path r) ++ text_member (js "upstream_path") (upstream_path r) ++
        text_member (js "converter") (converter r) ++
        match models r with Some ms => [(js "models", JArr (map JStr ms))] | None => [] end ++
        match auth r with Some a => [(js "auth", auth_object a)] | None => [] end).
Definition config_object (c : AdvancedCustomConfig) : jsval :=
  JObj match advanced_routes c with Some rs => [(js "advanced_routes", JArr (map route_object rs))] | None => [] end.

(** ** The badge of a configuration *)

Definition ADVANCED_CUSTOM_ROUTE_SUMMARY_LABELS : list (jstring * jstring) :=
  [(js "/v1/chat/completions", js "OpenAI Chat"); (ADVANCED_CUSTOM_MODEL_LIST_PATH, ADVANCED_CUSTOM_MODEL_LIST_LABEL);
   (ADVANCED_CUSTOM_BALANCE_PATH, ADVANCED_CUSTOM_BALANCE_LABEL)].

(** A label, or the member every object inherits where the path is the name of one: the table is a plain object. *)
Inductive summary_label := Label (text : jstring) | Inherited (name : jstring).

#[export] Instance summary_label_eq_dec : EqDecision summary_label.
Proof. solve_decision. Defined.

Definition getAdvancedCustomRouteSummaryLabel (route : AdvancedCustomRoute) : option summary_label :=
  let incomingPath := routePath route in
  if negb (truthy incomingPath) then None
  else match assoc incomingPath ADVANCED_CUSTOM_ROUTE_SUMMARY_LABELS with
       | Some label => Some (Label label)
       | None => if bool_decide (incomingPath ∈ inheritedMembers) then Some (Inherited incomingPath)
                 else Some (Label (getAdvancedCustomIncomingPathLabel incomingPath))
       end.

Record AdvancedCustomStats := { routeCount : nat; valid : bool; routeTypeLabels : list summary_label }.

(** Of the configuration that was parsed; [URL] is the browser's. *)
Definition getAdvancedCustomStats (URL : jstring -> option (jstring * jstring)) (config : option AdvancedCustomConfig) : AdvancedCustomStats :=
  match config with
  | None => {| routeCount := 0; valid := false; routeTypeLabels := [] |}
  | Some c =>
      let normalized := normalizeAdvancedCustomConfig c in
      {| routeCount := length (coalesce (advanced_routes normalized) []);
         valid := bool_decide (validateAdvancedCustomConfig URL (Some normalized) = None);
         routeTypeLabels := uniq (omap getAdvancedCustomRouteSummaryLabel (coalesce (advanced_routes normalized) [])) |}
  end.

(** ** Both agree *)

Lemma vor_text (o : option jstring) d : vor (match o with Some s => JStr s | None => JUndefined end) (JStr d) = JStr (ojor o d).
Proof. unfold ojor, jor, vor. destruct o as [[|c s]|]; done. Qed.

(** The members of a route's value, read back one by one. *)
Lemma route_members (r : AdvancedCustomRoute) :
  let text o := match o with Some s => JStr s | None => JUndefined end in
  jget (route_object r) (js "incoming_path") = text (incoming_path r) /\
  jget (route_object r) (js "upstream_path") = text (upstream_path r) /\
  jget (route_object r) (js "converter") = text (converter r) /\
  jget (route_object r) (js "models") = match models r with Some ms => JArr (map JStr ms) | None => JUndefined end /\
  jget (route_object r) (js "auth") = match auth r with Some a => auth_object a | None => JUndefined end.
Proof. destruct r as [[i|] [u|] [c|] [m|] [a|]]; split_and!; reflexivity. Qed.

Lemma auth_members (a : AdvancedCustomRouteAuth) :
  let text o := match o with Some s => JStr s | None => JUndefined end in
  jget (auth_object a) (js "type") = text (auth_type a) /\ jget (auth_object a) (js "name") = text (auth_name a) /\
  jget (auth_object a) (js "value") = text (auth_value a).
Proof. destruct a as [[t|] [n|] [v|]]; split_and!; reflexivity. Qed.

Lemma emap_trim l : emap trim_value (map JStr l) = Ret (map trim l).
Proof. induction l as [|s l IH]; [done|]. cbn. by rewrite IH. Qed.

Lemma models_agree ms : models_value (match ms with Some l => JArr (map JStr l) | None => JUndefined end) =
  Ret (normalizeAdvancedCustomRouteModels ms).
Proof. destruct ms as [l|]; [|done]. cbn. by rewrite emap_trim. Qed.

Lemma route_agrees r : route_value (route_object r) = Ret (route_object (normalizeAdvancedCustomRoute r)).
Proof.
  destruct (route_members r) as (E1 & E2 & E3 & E4 & E5).
  unfold route_value. unfold route_object at 1.
  unfold upstream_path_value. rewrite E1, E2, E3, E4, E5, !vor_text, models_agree. cbn [trim_value ebind].
  unfold normalizeAdvancedCustomRoute, route_object. cbn [incoming_path upstream_path converter models auth text_member].
  unfold getAdvancedCustomRouteUpstreamPath. cbn [app]. do 5 f_equal.
  f_equal; [by destruct (normalizeAdvancedCustomRouteModels (models r))|].
  destruct (auth r) as [a|]; [|done]. destruct (auth_members a) as (F1 & F2 & F3).
  change (jtruthy (auth_object a)) with true. cbv iota. unfold auth_value_of. rewrite F1, F2, F3, !vor_text.
  unfold auth_object. cbn [auth_type auth_name auth_value text_member]. by destruct (auth_type a).
Qed.

Lemma emap_agrees {A B} (f : jsval -> exc jsval) (g : A -> B) (enc : A -> jsval) (enc' : B -> jsval) l :
  (forall x, f (enc x) = Ret (enc' (g x))) -> emap f (map enc l) = Ret (map enc' (map g l)).
Proof. intros H. induction l as [|x l IH]; [done|]. cbn. by rewrite H, IH. Qed.

(** On a configuration of the declared types, normalizing the value is normalizing the configuration. *)
Lemma config_agrees c : config_value (config_object c) = Ret (config_object (normalizeAdvancedCustomConfig c)).
Proof.
  unfold config_value. destruct c as [[rs|]]; [|done]. unfold config_object at 1. cbn [advanced_routes jget assoc].
  change (jeqb (js "advanced_routes") (js "advanced_routes")) with true. cbn [coalesce from_option id].
  rewrite (emap_agrees _ normalizeAdvancedCustomRoute _ route_object) by apply route_agrees. done.
Qed.

(** ** Normalizing again changes nothing *)

Lemma models_value_plain v ms : models_value v = Ret ms -> models_value (JArr (map JStr ms)) = Ret ms.
Proof.
  assert (forall l ys, emap trim_value l = Ret ys -> Forall (fun s => trim s = s) ys) as Htrim.
  { induction l as [|x l IH]; cbn; [by intros ys [= <-]|]. intros ys. destruct x; try done. cbn.
    destruct (emap trim_value l) as [zs|]; [|done]. intros [= <-]. constructor; [apply trim_idem|auto]. }
  assert (forall ys, Forall (fun s => trim s = s) ys -> models_value (JArr (map JStr (List.filter truthy ys))) = Ret (List.filter truthy ys))
    as Hkeep.
  { intros ys Hy. cbn. rewrite emap_trim. cbn. f_equal.
    induction Hy as [|y ys Hy _ IH]; [done|]. cbn. destruct (truthy y) eqn:E; [|done]. cbn. rewrite Hy, E. by f_equal. }
  destruct v as [| | | | |l|]; cbn; try (intros [= <-]; done).
  destruct (emap trim_value l) as [ys|] eqn:E; [|done]. cbn. intros [= <-]. apply Hkeep. eauto.
Qed.

Lemma auth_value_twice a : auth_value_of (auth_value_of a) = auth_value_of a.
Proof.
  assert (forall o n v, let x := JObj (unless_undefined (js "type") o ++ [(js "name", n); (js "value", v)]) in
    jget x (js "type") = o /\ jget x (js "name") = n /\ jget x (js "value") = v) as Hget by (by intros []).
  unfold auth_value_of. cbv zeta in Hget.
  destruct (Hget (jget a (js "type")) (vor (jget a (js "name")) (JStr [])) (vor (jget a (js "value")) (JStr []))) as (E1 & E2 & E3).
  by rewrite E1, E2, E3, !vor_twice.
Qed.

(** The parts of a normalized route. *)
Definition route_parts (i : jsval) (u : jstring) (c : jsval) (ms : list jstring) (a : option jsval) : jsval :=
  JObj ([(js "incoming_path", i); (js "upstream_path", JStr u); (js "converter", c)] ++
        match ms with [] => [] | _ => [(js "models", JArr (map JStr ms))] end ++
        match a with Some a => [(js "auth", a)] | None => [] end).

Lemma route_value_parts r v : route_value r = Ret v -> exists u ms,
  trim u = u /\ models_value (JArr (map JStr ms)) = Ret ms /\
  v = route_parts (vor (jget r (js "incoming_path")) (JStr [])) u (vor (jget r (js "converter")) (JStr c_none)) ms
        (if jtruthy (jget r (js "auth")) then Some (auth_value_of (jget r (js "auth"))) else None).
Proof.
  assert (ebind (upstream_path_value r) (fun up => ebind (models_value (jget r (js "models"))) (fun ms =>
      Ret (route_parts (vor (jget r (js "incoming_path")) (JStr [])) up (vor (jget r (js "converter")) (JStr c_none)) ms
             (if jtruthy (jget r (js "auth")) then Some (auth_value_of (jget r (js "auth"))) else None)))) = Ret v ->
    exists u ms, trim u = u /\ models_value (JArr (map JStr ms)) = Ret ms /\
      v = route_parts (vor (jget r (js "incoming_path")) (JStr [])) u (vor (jget r (js "converter")) (JStr c_none)) ms
        (if jtruthy (jget r (js "auth")) then Some (auth_value_of (jget r (js "auth"))) else None)) as H.
  { destruct (upstream_path_value r) as [u|] eqn:Eu; [|done]. destruct (models_value _) as [ms|] eqn:Em; [|done].
    cbn [ebind]. intros [= <-]. exists u, ms. split; [|split; [by eapply models_value_plain|done]].
    unfold upstream_path_value, trim_value in Eu. destruct (vor _ _) as [| | | |s| |]; try done. injection Eu as <-. apply trim_idem. }
  intros Hr. apply H. unfold route_value in Hr. destruct r; try done; rewrite <- Hr; repeat f_equal;
    by destruct (jtruthy _).
Qed.

Lemma route_parts_get i u c ms a : let v := route_parts i u c ms a in
  jget v (js "incoming_path") = i /\ jget v (js "upstream_path") = JStr u /\ jget v (js "converter") = c /\
  jget v (js "models") = match ms with [] => JUndefined | _ => JArr (map JStr ms) end /\ jget v (js "auth") = coalesce a JUndefined.
Proof. destruct ms, a; split_and!; reflexivity. Qed.

Lemma route_value_twice r v : route_value r = Ret v -> route_value v = Ret v.
Proof.
  intros (u & ms & Hu & Hm & Hv)%route_value_parts.
  destruct (route_parts_get (vor (jget r (js "incoming_path")) (JStr [])) u (vor (jget r (js "converter")) (JStr c_none)) ms
    (if jtruthy (jget r (js "auth")) then Some (auth_value_of (jget r (js "auth"))) else None)) as (E1 & E2 & E3 & E4 & E5).
  rewrite <- Hv in E1, E2, E3, E4, E5.
  assert (upstream_path_value v = Ret u) as Hup.
  { unfold upstream_path_value, vor. rewrite E2. cbn. destruct (truthy u) eqn:Et; cbn; [by rewrite Hu|].
    destruct u; [done|]. done. }
  assert (models_value (jget v (js "models")) = Ret ms) as Hms by (rewrite E4; by destruct ms).
  unfold route_value. rewrite Hup, Hms, E1, E3, E5, !vor_twice. cbn [ebind]. rewrite Hv at 1. unfold route_parts at 1.
  rewrite Hv. unfold route_parts. destruct (jtruthy (jget r (js "auth"))); cbn [coalesce from_option id]; [|done].
  change (jtruthy (auth_value_of ?a)) with true. cbv iota. by rewrite auth_value_twice.
Qed.

Lemma emap_fixed {A} (f : A -> exc A) l ys : (forall x y, f x = Ret y -> f y = Ret y) -> emap f l = Ret ys -> emap f ys = Ret ys.
Proof.
  intros Hf. revert ys. induction l as [|x l IH]; cbn; [by intros ys [= <-]|]. intros ys.
  destruct (f x) as [y|] eqn:E; [|done]. cbn. destruct (emap f l) as [zs|]; [|done]. cbn. intros [= <-]. cbn.
  by rewrite (Hf x y E), (IH zs eq_refl).
Qed.

Lemma config_value_twice c v : config_value c = Ret v -> config_value v = Ret v.
Proof.
  unfold config_value. set (rs := match jget c (js "advanced_routes") with JArr l => emap route_value l | _ => Ret [] end).
  destruct rs as [routes|] eqn:E; [|done]. cbn [ebind]. intros [= <-]. cbn [jget assoc].
  change (jeqb (js "advanced_routes") (js "advanced_routes")) with true. cbn [coalesce from_option id].
  assert (emap route_value routes = Ret routes) as ->; [|done].
  subst rs. destruct (jget c (js "advanced_routes")); try (by injection E as <-).
  eapply emap_fixed, E. intros x y. apply route_value_twice.
Qed.

(** ** The text is read back *)

Lemma plain_unless k v rest : v = JUndefined \/ plain_json v -> k ∉ map fst rest -> plain_members rest ->
  plain_members (unless_undefined k v ++ rest).
Proof.
  intros Hv Hk [Hd Hp]. destruct Hv as [-> | Hv]; [by split|]. destruct v; [by inversion Hv|..]; cbn;
    (split; [by apply NoDup_cons|by apply Forall_cons_2]).
Qed.

Lemma plain_auth a : a = JUndefined \/ plain_json a -> plain_json (auth_value_of a).
Proof.
  assert (forall k, a = JUndefined \/ plain_json a -> jget a k = JUndefined \/ plain_json (jget a k)) as Hg
    by (intros k [-> | Ha]; [by left|by apply plain_get]).
  intros Ha. apply plain_members_obj, plain_unless; [by apply Hg|by vm_compute; set_solver|].
  split; [vm_compute; repeat constructor; set_solver|]. apply Forall_cons_2; [apply plain_vor; auto with plain|].
  apply Forall_cons_2; [apply plain_vor; auto with plain|constructor].
Qed.

Lemma plain_texts ms : plain_json (JArr (map JStr ms)).
Proof. constructor. apply Forall_map. apply Forall_forall. constructor. Qed.

Lemma plain_route r v : plain_json r -> route_value r = Ret v -> plain_json v.
Proof.
  intros Hr (u & ms & _ & _ & ->)%route_value_parts. pose proof (fun k => plain_get r k Hr) as Hg.
  apply plain_members_obj. unfold route_parts. split.
  - by destruct ms, (jtruthy (jget r (js "auth"))); vm_compute; repeat (constructor; [set_solver|]); constructor.
  - apply Forall_cons_2; [apply plain_vor; auto with plain|]. apply Forall_cons_2; [constructor|].
    apply Forall_cons_2; [apply plain_vor; auto with plain|]. apply Forall_app. split.
    + destruct ms; [constructor|]. apply Forall_cons_2; [apply plain_texts|constructor].
    + destruct (jtruthy _); [|constructor]. apply Forall_cons_2; [by apply plain_auth|constructor].
Qed.

Lemma plain_config c v : c = JUndefined \/ plain_json c -> config_value c = Ret v -> plain_json v.
Proof.
  intros Hc. unfold config_value.
  assert (forall l routes, Forall plain_json l -> emap route_value l = Ret routes -> Forall plain_json routes) as Hall.
  { induction l as [|r l IH]; cbn; intros routes Hl; [by intros [= <-]|]. apply Forall_cons in Hl as [Hr Hl].
    destruct (route_value r) as [x|] eqn:E; [|done]. cbn. destruct (emap route_value l) as [xs|]; [|done].
    cbn. intros [= <-]. constructor; [by eapply plain_route|auto]. }
  assert (forall routes, Forall plain_json routes -> plain_json (JObj [(js "advanced_routes", JArr routes)])) as Hobj.
  { intros routes H. constructor; [by apply NoDup_singleton|]. apply Forall_cons_2; [by constructor|constructor]. }
  destruct (jget c (js "advanced_routes")) as [| | | | |l|] eqn:E; cbn; try (intros [= <-]; by apply Hobj).
  destruct (emap route_value l) as [routes|] eqn:Em; [|done]. cbn. intros [= <-]. apply Hobj. eapply Hall, Em.
  destruct Hc as [-> | Hc]; [done|]. destruct (plain_get c (js "advanced_routes") Hc) as [Hu | Hu]; rewrite E in Hu; [done|].
  by inversion Hu.
Qed.

(** What is printed is read as the same configuration. *)
Lemma parse_stringified c v text : c = JUndefined \/ plain_json c -> config_value c = Ret v ->
  stringifyAdvancedCustomConfig c = Ret text -> parseAdvancedCustomConfig (Some text) = Some v.
Proof.
  intros Hc Hv. unfold stringifyAdvancedCustomConfig. rewrite Hv. cbn [ebind]. intros [= <-].
  pose proof (plain_config c v Hc Hv) as Hp.
  assert (exists routes, v = JObj [(js "advanced_routes", JArr routes)]) as [routes Er].
  { unfold config_value in Hv. destruct (match jget c (js "advanced_routes") with JArr l => emap route_value l | _ => Ret [] end);
      [|done]. injection Hv as <-. eauto. }
  unfold parseAdvancedCustomConfig. rewrite parse_stringify_2 by done.
  assert (truthy (trim (JSON_stringify_2 v)) = true) as ->.
  { rewrite Er. destruct routes; by apply (trim_nonblank 123%N). }
  cbn [ebind]. rewrite Er at 1. rewrite (config_value_twice c v Hv). cbn. by rewrite Er.
Qed.

Lemma plain_config_object c : plain_json (config_object c).
Proof.
  assert (forall a, plain_json (auth_object a)) as Ha.
  { intros [[t|] [n|] [x|]]; constructor; try (vm_compute; repeat (constructor; [set_solver|]); by constructor);
      repeat apply Forall_cons_2; cbn; auto with plain. }
  assert (forall r, plain_json (route_object r)) as Hr.
  { intros [[i|] [u|] [k|] [m|] [a|]]; constructor; try (vm_compute; repeat (constructor; [set_solver|]); by constructor);
      repeat apply Forall_cons_2; cbn; auto using plain_texts with plain. }
  destruct c as [[rs|]]; unfold config_object; cbn [advanced_routes].
  - constructor; [by apply NoDup_singleton|]. apply Forall_cons_2; [|constructor]. constructor. apply Forall_map, Forall_forall. auto.
  - constructor; [by apply NoDup_nil|constructor].
Qed.

(** C36. The text of a configuration is read back as the configuration: what [stringifyAdvancedCustomConfig] prints,
    [parseAdvancedCustomConfig] reads, and what it reads has the declared types and is the configuration normalized. *)
Theorem config_read_back (c : AdvancedCustomConfig) :
  exists text, stringifyAdvancedCustomConfig (config_object c) = Ret text /\
    parseAdvancedCustomConfig (Some text) = Some (config_object (normalizeAdvancedCustomConfig c)).
Proof.
  exists (JSON_stringify_2 (config_object (normalizeAdvancedCustomConfig c))).
  assert (stringifyAdvancedCustomConfig (config_object c) = Ret (JSON_stringify_2 (config_object (normalizeAdvancedCustomConfig c)))) as E.
  { unfold stringifyAdvancedCustomConfig. by rewrite config_agrees. }
  split; [done|]. eapply parse_stringified; [right; apply plain_config_object|apply config_agrees|done].
Qed.
