(* ===== verification/ChannelForm.v ===== *)
(** * The form of a channel

    features/channels/lib/channel-form.ts (and the sets of channel types in constants.ts): what the form refuses, how
    a channel becomes a form, and how the form becomes what is sent when a channel is created or
    changed.  Two members of a channel are JSON texts; what is parsed from them has any type until it is
    checked, so the fields of the form that come from there hold values of unknown type. *)

From S2P Require Import Prelude JsValue JsText JsonText JsonPretty JsObject AdvancedCustom AdvancedCustomText.
#[global] Open Scope Z_scope.

(** ** Types of channels (constants.ts) *)

Definition CHANNEL_TYPE_NEW_API : Z := 61.
Definition CHANNEL_TYPE_TASK_PLUGIN : Z := 62.
Definition CHANNEL_TYPE_CUBE_STACK : Z := 64.
Definition CHANNEL_TYPE_ADVANCED_CUSTOM : Z := 58.
Definition CHANNEL_STATUS_ENABLED : Z := 1.

Definition MODEL_FETCHABLE_TYPES : list Z :=
  [1; 4; 14; 17; 20; 23; 24; 25; 26; 27; 31; 34; 35; 40; 42; 43; 47; 48; 57; 58; 59; 60; 61; CHANNEL_TYPE_CUBE_STACK].
Definition FIELD_PASSTHROUGH_TYPES : list Z := [1; 14; 57; 58; 60; CHANNEL_TYPE_NEW_API].
Definition OPENAI_FIELD_PASSTHROUGH_TYPES : list Z := [1; 57; 58; 60; CHANNEL_TYPE_NEW_API].
Definition CLAUDE_FIELD_PASSTHROUGH_TYPES : list Z := [14; 58; 60; CHANNEL_TYPE_NEW_API].

(** [set.has(n)], [list.includes(n)] *)
Definition has_type (l : list Z) (n : Z) : bool := existsb (Z.eqb n) l.

(** ** Data *)

(** A channel as the server sends it; [None] is null or undefined. *)
Record Channel := {
  ch_name : jstring; ch_type : Z; ch_base_url : option jstring; ch_openai_organization : option jstring;
  ch_models : jstring; ch_group : jstring; ch_model_mapping : option jstring; ch_priority : option Z;
  ch_weight : option Z; ch_test_model : option jstring; ch_auto_ban : option Z; ch_status : Z;
  ch_status_code_mapping : option jstring; ch_tag : option jstring; ch_remark : jstring; ch_setting : option jstring;
  ch_param_override : option jstring; ch_header_override : option jstring; ch_settings : jstring; ch_other : jstring;
  ch_multi_key_mode : jstring
}.

(** The values of the form.  An optional text that is undefined is the empty one, an optional flag false: the code tells them
    apart nowhere. *)
Record ChannelFormValues := {
  f_name : jstring; f_type : Z; f_base_url : jstring; f_task_plugin_key : jsval; f_key : jstring;
  f_openai_organization : jstring; f_models : jstring; f_group : list jstring; f_model_mapping : jstring;
  f_priority : option Z; f_weight : option Z; f_test_model : jstring; f_auto_ban : option Z; f_status : Z;
  f_status_code_mapping : jstring; f_tag : jstring; f_remark : jstring; f_setting : jstring;
  f_param_override : jstring; f_header_override : jstring; f_settings : jstring; f_other : jstring;
  f_multi_key_mode : jstring; f_multi_key_type : jstring; f_batch_add_set_key_prefix_2_name : bool; f_key_mode : jstring;
  (* kept in the text of [setting] *)
  f_force_format : jsval; f_thinking_to_content : jsval; f_proxy : jsval; f_http_protocol : jstring;
  f_http2_connection_shards : jsval; f_pass_through_body_enabled : jsval; f_system_prompt : jsval; f_system_prompt_override : jsval;
  (* kept in the text of [settings] *)
  f_is_enterprise_account : bool; f_vertex_key_type : jsval; f_aws_key_type : jsval; f_azure_responses_version : jsval;
  f_allow_service_tier : bool; f_disable_store : bool; f_allow_safety_identifier : bool; f_allow_include_obfuscation : bool;
  f_allow_inference_geo : bool; f_allow_speed : bool; f_claude_beta_query : bool; f_disable_task_polling_sleep : bool;
  f_upstream_model_update_check_enabled : bool; f_upstream_model_update_auto_sync_enabled : bool;
  f_upstream_model_update_ignored_models : jstring; f_advanced_custom : jstring
}.

(** ** Protocol and connections *)

Definition HTTP_PROTOCOL_AUTO : jstring := js "auto".
Definition HTTP_PROTOCOL_HTTP1 : jstring := js "http1".
Definition MAX_HTTP2_CONNECTION_SHARDS : Z := 8.

(** No letter outside ASCII is one of [http1] in lower case. *)
Definition normalizeHttpProtocol (value : jsval) : exc jstring :=
  ebind (String_of (vor value (JStr []))) (fun s =>
    Ret (if jeqb (map ascii_lower (trim s)) HTTP_PROTOCOL_HTTP1 then HTTP_PROTOCOL_HTTP1 else HTTP_PROTOCOL_AUTO)).

Definition one_shard : jsval := JNum (num_of_Z 1).

Definition normalizeHttp2ConnectionShards (value : jsval) : exc jsval :=
  match value with
  | JUndefined | JNull => Ret one_shard
  | JNum NaN => Ret one_shard
  | _ =>
      if (match value with JNum n => negb (num_truthy n) | _ => false end) then Ret one_shard
      else ebind (number_of value) (fun n =>
        Ret (if num_ltb n (num_of_Z 1) then one_shard
             else if num_ltb (num_of_Z MAX_HTTP2_CONNECTION_SHARDS) n then JNum (num_of_Z MAX_HTTP2_CONNECTION_SHARDS)
             else value))
  end.

(** ** Lists of names *)

Definition parseModels (models : jstring) : list jstring := List.filter truthy (map trim (split_on ch_comma models)).
Definition parseGroups (groups : jstring) : list jstring := List.filter truthy (map trim (split_on ch_comma groups)).
Definition formatModels (models : list jstring) : jstring := join (js ",") models.
Definition formatGroups (groups : list jstring) : jstring := join (js ",") groups.

(** ** From a channel to the form *)

Definition text (o : option jstring) : jstring := coalesce o [].
Definition zero (o : option Z) : Z := coalesce o 0.
Definition is_true (v : jsval) : bool := match v with JBool true => true | _ => false end.
Definition falsy : jsval := JBool false.

(** What the text of [setting] holds. *)
Record ExtraSettings := {
  x_task_plugin_key : jsval; x_force_format : jsval; x_thinking_to_content : jsval; x_proxy : jsval; x_http_protocol : jstring;
  x_http2_connection_shards : jsval; x_pass_through_body_enabled : jsval; x_system_prompt : jsval; x_system_prompt_override : jsval
}.

Definition no_extra : ExtraSettings :=
  {| x_task_plugin_key := JStr []; x_force_format := falsy; x_thinking_to_content := falsy; x_proxy := JStr [];
     x_http_protocol := HTTP_PROTOCOL_AUTO; x_http2_connection_shards := one_shard; x_pass_through_body_enabled := falsy;
     x_system_prompt := JStr []; x_system_prompt_override := falsy |}.

(** The members of null cannot be read. *)
Definition members_of_value (v : jsval) : exc (jstring -> jsval) :=
  match v with JUndefined | JNull => Throw | _ => Ret (jget v) end.

Definition extra_of (parsed : jsval) : exc ExtraSettings :=
  ebind (members_of_value parsed) (fun g =>
  ebind (normalizeHttpProtocol (g (js "http_protocol"))) (fun protocol =>
  ebind (normalizeHttp2ConnectionShards (g (js "http2_connection_shards"))) (fun shards =>
  Ret {| x_task_plugin_key := vor (g (js "task_plugin_key")) (JStr []);
         x_force_format := vor (g (js "force_format")) falsy;
         x_thinking_to_content := vor (g (js "thinking_to_content")) falsy;
         x_proxy := vor (g (js "proxy")) (JStr []);
         x_http_protocol := protocol;
         x_http2_connection_shards := if jeqb protocol HTTP_PROTOCOL_HTTP1 then one_shard else shards;
         x_pass_through_body_enabled := vor (g (js "pass_through_body_enabled")) falsy;
         x_system_prompt := vor (g (js "system_prompt")) (JStr []);
         x_system_prompt_override := vor (g (js "system_prompt_override")) falsy |}))).

Definition extraSettings (setting : option jstring) : ExtraSettings :=
  match setting with
  | Some ((_ :: _) as t) => catch (ebind (JSON_parse t) extra_of) no_extra
  | _ => no_extra
  end.

(** The value of the text of [settings]; null where there is none, or it is no JSON. *)
Definition other_settings (settings : jstring) : jsval :=
  match settings with [] => JNull | _ => catch (JSON_parse settings) JNull end.

(** The names a list holds, as one text; nothing else is assigned once this throws. *)
Definition ignored_models (parsed : jsval) : exc jstring :=
  match jget parsed (js "upstream_model_update_ignored_models") with
  | JArr l => String_of (JArr l)
  | _ => Ret []
  end.

Definition advanced_text (parsed : jsval) : jstring :=
  catch (ebind (ignored_models parsed) (fun _ =>
    let config := jget parsed (js "advanced_custom") in
    if jtruthy config then stringifyAdvancedCustomConfig config else Ret [])) [].

Definition transformChannelToFormDefaults (channel : Channel) : ChannelFormValues :=
  let x := extraSettings (ch_setting channel) in
  let parsed := other_settings (ch_settings channel) in
  let flag k := is_true (jget parsed (js k)) in
  {| f_name := ch_name channel; f_type := ch_type channel; f_base_url := text (ch_base_url channel);
     f_task_plugin_key := x_task_plugin_key x; f_key := [];
     f_openai_organization := text (ch_openai_organization channel); f_models := ch_models channel;
     f_group := parseGroups (jor (ch_group channel) (js "default")); f_model_mapping := text (ch_model_mapping channel);
     f_priority := Some (zero (ch_priority channel)); f_weight := Some (zero (ch_weight channel));
     f_test_model := text (ch_test_model channel); f_auto_ban := Some (coalesce (ch_auto_ban channel) 1);
     f_status := ch_status channel; f_status_code_mapping := text (ch_status_code_mapping channel);
     f_tag := text (ch_tag channel); f_remark := ch_remark channel; f_setting := text (ch_setting channel);
     f_param_override := text (ch_param_override channel); f_header_override := text (ch_header_override channel);
     f_settings := jor (ch_settings channel) (js "{}"); f_other := ch_other channel;
     f_multi_key_mode := js "single"; f_multi_key_type := jor (ch_multi_key_mode channel) (js "random");
     f_batch_add_set_key_prefix_2_name := false; f_key_mode := js "append";
     f_force_format := x_force_format x; f_thinking_to_content := x_thinking_to_content x; f_proxy := x_proxy x;
     f_http_protocol := x_http_protocol x; f_http2_connection_shards := x_http2_connection_shards x;
     f_pass_through_body_enabled := x_pass_through_body_enabled x; f_system_prompt := x_system_prompt x;
     f_system_prompt_override := x_system_prompt_override x;
     f_is_enterprise_account := flag "openrouter_enterprise";
     f_vertex_key_type := vor (jget parsed (js "vertex_key_type")) (JStr (js "json"));
     f_aws_key_type := vor (jget parsed (js "aws_key_type")) (JStr (js "ak_sk"));
     f_azure_responses_version := vor (jget parsed (js "azure_responses_version")) (JStr []);
     f_allow_service_tier := flag "allow_service_tier"; f_disable_store := flag "disable_store";
     f_allow_safety_identifier := flag "allow_safety_identifier"; f_allow_include_obfuscation := flag "allow_include_obfuscation";
     f_allow_inference_geo := flag "allow_inference_geo"; f_allow_speed := flag "allow_speed";
     f_claude_beta_query := flag "claude_beta_query"; f_disable_task_polling_sleep := flag "disable_task_polling_sleep";
     f_upstream_model_update_check_enabled := flag "upstream_model_update_check_enabled";
     f_upstream_model_update_auto_sync_enabled := flag "upstream_model_update_auto_sync_enabled";
     f_upstream_model_update_ignored_models := catch (ignored_models parsed) [];
     f_advanced_custom := advanced_text parsed |}.

Definition CHANNEL_FORM_DEFAULT_VALUES : ChannelFormValues :=
  {| f_name := []; f_type := 1; f_base_url := []; f_task_plugin_key := JStr []; f_key := []; f_openai_organization := [];
     f_models := []; f_group := [js "default"]; f_model_mapping := []; f_priority := Some 0; f_weight := Some 0;
     f_test_model := []; f_auto_ban := Some 1; f_status := CHANNEL_STATUS_ENABLED; f_status_code_mapping := []; f_tag := [];
     f_remark := []; f_setting := []; f_param_override := []; f_header_override := []; f_settings := js "{}"; f_other := [];
     f_multi_key_mode := js "single"; f_multi_key_type := js "random"; f_batch_add_set_key_prefix_2_name := false;
     f_key_mode := js "append"; f_force_format := falsy; f_thinking_to_content := falsy; f_proxy := JStr [];
     f_http_protocol := HTTP_PROTOCOL_AUTO; f_http2_connection_shards := one_shard; f_pass_through_body_enabled := falsy;
     f_system_prompt := JStr []; f_system_prompt_override := falsy; f_is_enterprise_account := false;
     f_vertex_key_type := JStr (js "json"); f_aws_key_type := JStr (js "ak_sk"); f_azure_responses_version := JStr [];
     f_allow_service_tier := false; f_disable_store := false; f_allow_safety_identifier := false;
     f_allow_include_obfuscation := false; f_allow_inference_geo := false; f_allow_speed := false; f_claude_beta_query := false;
     f_disable_task_polling_sleep := false; f_upstream_model_update_check_enabled := false;
     f_upstream_model_update_auto_sync_enabled := false; f_upstream_model_update_ignored_models := []; f_advanced_custom := [] |}.

(** ** The two texts *)

(** The members of [setting], in the order they are written; an undefined one is not. *)
Definition setting_members (formData : ChannelFormValues) : exc members :=
  ebind (if f_type formData =? CHANNEL_TYPE_TASK_PLUGIN
         then ebind (trim_optional (f_task_plugin_key formData)) (fun key => Ret [(js "task_plugin_key", vor key (JStr []))])
         else Ret []) (fun plugin =>
  ebind (trim_optional (f_proxy formData)) (fun proxy =>
  ebind (normalizeHttpProtocol (JStr (f_http_protocol formData))) (fun protocol =>
  ebind (if jeqb protocol HTTP_PROTOCOL_HTTP1 then Ret one_shard
         else normalizeHttp2ConnectionShards (f_http2_connection_shards formData)) (fun shards =>
  ebind (number_of shards) (fun n =>
  Ret (plugin ++
       [(js "force_format", vor (f_force_format formData) falsy);
        (js "thinking_to_content", vor (f_thinking_to_content formData) falsy);
        (js "proxy", vor proxy (JStr []));
        (js "pass_through_body_enabled", vor (f_pass_through_body_enabled formData) falsy);
        (js "system_prompt", vor (f_system_prompt formData) (JStr []));
        (js "system_prompt_override", vor (f_system_prompt_override formData) falsy)] ++
       (if jeqb protocol HTTP_PROTOCOL_HTTP1 then [(js "http_protocol", JStr HTTP_PROTOCOL_HTTP1)]
        else if num_ltb (num_of_Z 1) n then [(js "http2_connection_shards", shards)] else []))))))).

Definition buildSettingJSON (formData : ChannelFormValues) : exc jstring :=
  ebind (setting_members formData) (fun fs => Ret (JSON_stringify (JObj fs))).

(** Set for the types that have the member, deleted for the others. *)
Definition member_if (b : bool) (k : string) (v : jsval) (fs : members) : members :=
  if b then put (js k) v fs else del (js k) fs.

Definition vertex_setting (f : ChannelFormValues) : members -> members :=
  member_if (f_type f =? 41) "vertex_key_type" (vor (f_vertex_key_type f) (JStr (js "json"))).
Definition azure_setting (f : ChannelFormValues) : members -> members :=
  member_if ((f_type f =? 3) && jtruthy (f_azure_responses_version f)) "azure_responses_version" (f_azure_responses_version f).
Definition openrouter_setting (f : ChannelFormValues) : members -> members :=
  member_if (f_type f =? 20) "openrouter_enterprise" (JBool (f_is_enterprise_account f)).
Definition aws_setting (f : ChannelFormValues) : members -> members :=
  member_if (f_type f =? 33) "aws_key_type" (vor (f_aws_key_type f) (JStr (js "ak_sk"))).

Definition passthrough_settings (f : ChannelFormValues) (fs : members) : members :=
  let any := has_type FIELD_PASSTHROUGH_TYPES (f_type f) in
  let openai := has_type OPENAI_FIELD_PASSTHROUGH_TYPES (f_type f) in
  let claude := has_type CLAUDE_FIELD_PASSTHROUGH_TYPES (f_type f) in
  let fs := member_if any "allow_service_tier" (JBool (f_allow_service_tier f)) fs in
  let fs := member_if openai "disable_store" (JBool (f_disable_store f)) fs in
  let fs := member_if openai "allow_safety_identifier" (JBool (f_allow_safety_identifier f)) fs in
  let fs := member_if openai "allow_include_obfuscation" (JBool (f_allow_include_obfuscation f)) fs in
  let fs := member_if (openai || claude) "allow_inference_geo" (JBool (f_allow_inference_geo f)) fs in
  let fs := member_if claude "allow_speed" (JBool (f_allow_speed f)) fs in
  member_if (f_type f =? 14) "claude_beta_query" (JBool (f_claude_beta_query f)) fs.

(** The members of the update check, for the types whose models can be fetched. *)
Definition ignored_list (s : jstring) : list jstring := uniq (List.filter truthy (map trim (split_on ch_comma s))).

Definition detected_setting (check : bool) (fs : members) : members :=
  match assoc (js "upstream_model_update_last_detected_models") fs with
  | Some (JArr _) => if check then fs else put (js "upstream_model_update_last_detected_models") (JArr []) fs
  | _ => put (js "upstream_model_update_last_detected_models") (JArr []) fs
  end.

Definition check_time_setting (fs : members) : members :=
  match assoc (js "upstream_model_update_last_check_time") fs with
  | Some (JNum _) => fs
  | _ => put (js "upstream_model_update_last_check_time") (JNum (num_of_Z 0)) fs
  end.

Definition update_settings (f : ChannelFormValues) (fs : members) : members :=
  let check := f_upstream_model_update_check_enabled f in
  if has_type MODEL_FETCHABLE_TYPES (f_type f) then
    check_time_setting (detected_setting check
      (put (js "upstream_model_update_ignored_models") (JArr (map JStr (ignored_list (f_upstream_model_update_ignored_models f))))
      (put (js "upstream_model_update_auto_sync_enabled") (JBool (check && f_upstream_model_update_auto_sync_enabled f))
      (put (js "upstream_model_update_check_enabled") (JBool check) fs))))
  else fs.

Definition advanced_setting (f : ChannelFormValues) (fs : members) : members :=
  if f_type f =? CHANNEL_TYPE_ADVANCED_CUSTOM then
    match parseAdvancedCustomConfig (Some (f_advanced_custom f)) with
    | Some config => put (js "advanced_custom") config fs
    | None => fs
    end
  else del (js "advanced_custom") fs.

(** [buildSettingsJSON] on an object. *)
Definition settings_members (f : ChannelFormValues) (fs : members) : members :=
  let fs := aws_setting f (openrouter_setting f (azure_setting f (vertex_setting f fs))) in
  let fs := passthrough_settings f fs in
  let fs := put (js "disable_task_polling_sleep") (JBool (f_disable_task_polling_sleep f)) fs in
  advanced_setting f (update_settings f fs).

(** What the settings start from: text that is no JSON counts as no settings. *)
Definition stored_settings (settings : jstring) : jsval :=
  if truthy settings && negb (jeqb settings (js "{}")) then catch (JSON_parse settings) (JObj []) else JObj [].

(** The text of an array is not changed by the members that are set on it; on other values a member cannot be set. *)
Definition buildSettingsJSON (formData : ChannelFormValues) : exc jstring :=
  match stored_settings (f_settings formData) with
  | JObj fs => Ret (JSON_stringify (JObj (settings_members formData fs)))
  | JArr l => Ret (JSON_stringify (JArr l))
  | _ => Throw
  end.

(** ** What is sent *)

(** [/\/+$/] removed. *)
Definition normalizeBaseUrl (value : jstring) : jstring :=
  rev (drop_while (fun c => (c =? ch_slash)%N) (rev (trim value))).

(** [s || null] *)
Definition or_null (s : jstring) : jsval := if truthy s then JStr s else JNull.
(** [n || null] *)
Definition number_or_null (o : option Z) : jsval := match o with Some n => if n =? 0 then JNull else JNum (num_of_Z n) | None => JNull end.
Definition number_value (n : Z) : jsval := JNum (num_of_Z n).

(** Empty texts become null. *)
Definition clean (payload : members) : members :=
  map (fun f => (f.1, match f.2 with JStr [] => JNull | v => v end)) payload.

Record CreatePayload := {
  create_mode : jstring; create_multi_key_mode : option jstring; create_prefix : option bool; create_channel : members
}.

Definition transformFormDataToCreatePayload (formData : ChannelFormValues) : exc CreatePayload :=
  let mode := jor (f_multi_key_mode formData) (js "single") in
  ebind (buildSettingJSON formData) (fun setting =>
  ebind (buildSettingsJSON formData) (fun settings =>
  Ret {| create_mode := mode;
         create_multi_key_mode := if jeqb mode (js "multi_to_single") then Some (f_multi_key_type formData) else None;
         create_prefix := if jeqb mode (js "batch") then Some (f_batch_add_set_key_prefix_2_name formData) else None;
         create_channel := clean [
           (js "name", JStr (f_name formData)); (js "type", number_value (f_type formData));
           (js "base_url", or_null (normalizeBaseUrl (f_base_url formData))); (js "key", JStr (f_key formData));
           (js "openai_organization", or_null (f_openai_organization formData)); (js "models", JStr (f_models formData));
           (js "group", JStr (formatGroups (f_group formData))); (js "model_mapping", or_null (f_model_mapping formData));
           (js "priority", number_or_null (f_priority formData)); (js "weight", number_or_null (f_weight formData));
           (js "test_model", or_null (f_test_model formData)); (js "auto_ban", number_value (coalesce (f_auto_ban formData) 1));
           (js "status", number_value (f_status formData)); (js "status_code_mapping", or_null (f_status_code_mapping formData));
           (js "tag", or_null (f_tag formData)); (js "remark", JStr (f_remark formData)); (js "setting", JStr setting);
           (js "param_override", or_null (f_param_override formData)); (js "header_override", or_null (f_header_override formData));
           (js "settings", JStr settings); (js "other", JStr (f_other formData))] |})).

(** The members that are sent empty, so that the server clears them. *)
Definition explicit_texts (f : ChannelFormValues) : list (jstring * jstring) :=
  [(js "base_url", normalizeBaseUrl (f_base_url f)); (js "openai_organization", f_openai_organization f);
   (js "test_model", f_test_model f); (js "tag", f_tag f); (js "remark", f_remark f); (js "model_mapping", f_model_mapping f);
   (js "status_code_mapping", f_status_code_mapping f); (js "param_override", f_param_override f);
   (js "header_override", f_header_override f)].

(** The members that are sent, given the two texts. *)
Definition update_payload (formData : ChannelFormValues) (channelId : Z) (setting settings : jstring) : members :=
  let payload := [
    (js "id", number_value channelId); (js "name", JStr (f_name formData)); (js "type", number_value (f_type formData));
    (js "base_url", or_null (normalizeBaseUrl (f_base_url formData)));
    (js "openai_organization", or_null (f_openai_organization formData)); (js "models", JStr (f_models formData));
    (js "group", JStr (formatGroups (f_group formData))); (js "model_mapping", or_null (f_model_mapping formData));
    (js "priority", number_value (zero (f_priority formData))); (js "weight", number_value (zero (f_weight formData)));
    (js "test_model", or_null (f_test_model formData)); (js "auto_ban", number_value (coalesce (f_auto_ban formData) 1));
    (js "status_code_mapping", or_null (f_status_code_mapping formData)); (js "tag", or_null (f_tag formData));
    (js "remark", JStr (f_remark formData)); (js "setting", JStr setting);
    (js "param_override", or_null (f_param_override formData)); (js "header_override", or_null (f_header_override formData));
    (js "settings", JStr settings); (js "other", JStr (f_other formData))] in
  let payload := if truthy (f_key formData) && truthy (trim (f_key formData)) then put (js "key") (JStr (f_key formData)) payload else payload in
  fold_left (fun p f => put f.1 (JStr f.2) p) (explicit_texts formData) (clean payload).

Definition transformFormDataToUpdatePayload (formData : ChannelFormValues) (channelId : Z) : exc members :=
  ebind (buildSettingJSON formData) (fun setting =>
  ebind (buildSettingsJSON formData) (fun settings => Ret (update_payload formData channelId setting settings))).

(** ** What the form refuses *)

Definition SUPPORTED_PROXY_PROTOCOLS : list jstring := [js "http:"; js "https:"; js "socks5:"; js "socks5h:"].

Record parsed_url := { u_protocol : jstring; u_hostname : jstring; u_port : jstring }.

(** [parseOptionalJson]: undefined for a blank text. *)
Definition parseOptionalJson (value : jstring) : exc jsval := if truthy (trim value) then JSON_parse value else Ret JUndefined.

Definition isJsonObjectValue (v : jsval) : bool := match v with JObj _ => true | _ => false end.

Definition isOptionalJsonObject (value : jstring) : bool :=
  catch (ebind (parseOptionalJson value) (fun parsed =>
    Ret (match parsed with JUndefined => true | _ => isJsonObjectValue parsed end))) false.

Definition isOptionalModelMapping (value : jstring) : bool :=
  catch (ebind (parseOptionalJson value) (fun parsed =>
    Ret (match parsed with JUndefined => true | JObj fs => forallb (fun f => isString f.2) fs | _ => false end))) false.

Definition within (a b : Z) (n : jsnum) : bool := negb (num_ltb n (num_of_Z a)) && negb (num_ltb (num_of_Z b) n).
Definition http_code (n : jsnum) : bool := isInteger n && within 100 599 n.

(** Entries are looked at in order until one fails. *)
Fixpoint every_code (fs : members) : exc bool :=
  match fs with
  | [] => Ret true
  | (from, to) :: fs' =>
      ebind (number_of to) (fun toCode =>
        if http_code (Number from) && http_code toCode then every_code fs' else Ret false)
  end.

Definition isOptionalStatusCodeMapping (value : jstring) : bool :=
  catch (ebind (parseOptionalJson value) (fun parsed =>
    match parsed with JUndefined => Ret true | JObj fs => every_code fs | _ => Ret false end)) false.

Definition nonblank (v : jsval) : bool := match v with JStr s => truthy (trim s) | _ => false end.

Definition isCodexCredential (value : jstring) : bool :=
  catch (ebind (parseOptionalJson value) (fun parsed =>
    Ret (match parsed with
         | JUndefined => true
         | JObj _ => nonblank (jget parsed (js "access_token")) && nonblank (jget parsed (js "account_id"))
         | _ => false
         end))) false.

Definition isVertexJsonKey (value : jstring) : bool :=
  catch (ebind (parseOptionalJson value) (fun parsed =>
    Ret (match parsed with JUndefined => true | JArr l => forallb isJsonObjectValue l | _ => isJsonObjectValue parsed end))) false.

Section Schema.
(** [new URL], of the browser: the parts of an address; and as [AdvancedCustom] takes it. *)
Context (parse_url : jstring -> option parsed_url) (URL : jstring -> option (jstring * jstring)).

Definition isOptionalProxyURL (value : jstring) : bool :=
  let trimmedValue := trim value in
  if negb (truthy trimmedValue) then true
  else match indexOf trimmedValue (js "://") with
       | None | Some O => false
       | Some i =>
           let authorityAndSuffix := drop (i + 3) trimmedValue in
           let suffix := find_index (fun c => (c =? ch_slash) || (c =? 63) || (c =? 35))%N authorityAndSuffix in
           if (match suffix with Some n => negb (jeqb (drop n authorityAndSuffix) (js "/")) | None => false end) then false
           else match parse_url trimmedValue with
                | Some u => bool_decide (u_protocol u ∈ SUPPORTED_PROXY_PROTOCOLS) && truthy (u_hostname u) && negb (jeqb (u_port u) (js "0"))
                | None => false
                end
       end.

(** Of the declared type, for a field that is optional. *)
Definition optional_text (v : jsval) : bool := match v with JUndefined | JStr _ => true | _ => false end.
Definition optional_flag (v : jsval) : bool := match v with JUndefined | JBool _ => true | _ => false end.
Definition optional_of (l : list jstring) (v : jsval) : bool :=
  match v with JUndefined => true | JStr s => bool_decide (s ∈ l) | _ => false end.
Definition optional_whole (v : jsval) : bool := match v with JUndefined => true | JNum n => isInteger n | _ => false end.

(** The fields one by one. *)
Definition fields_ok (f : ChannelFormValues) : bool :=
  truthy (f_name f) && (0 <=? f_type f) && optional_text (f_task_plugin_key f) && truthy (f_models f) &&
  (match f_group f with [] => false | _ => true end) && isOptionalModelMapping (f_model_mapping f) &&
  isOptionalStatusCodeMapping (f_status_code_mapping f) && (length (f_remark f) <=? 255)%nat &&
  isOptionalJsonObject (f_setting f) && isOptionalJsonObject (f_param_override f) &&
  isOptionalJsonObject (f_header_override f) && isOptionalJsonObject (f_settings f) &&
  bool_decide (f_multi_key_mode f ∈ [js "single"; js "batch"; js "multi_to_single"]) &&
  bool_decide (f_multi_key_type f ∈ [js "random"; js "polling"]) && bool_decide (f_key_mode f ∈ [js "append"; js "replace"]) &&
  optional_flag (f_force_format f) && optional_flag (f_thinking_to_content f) &&
  (match f_proxy f with JUndefined => true | JStr s => isOptionalProxyURL s | _ => false end) &&
  bool_decide (f_http_protocol f ∈ [HTTP_PROTOCOL_AUTO; HTTP_PROTOCOL_HTTP1]) && optional_whole (f_http2_connection_shards f) &&
  optional_flag (f_pass_through_body_enabled f) && optional_text (f_system_prompt f) && optional_flag (f_system_prompt_override f) &&
  optional_of [js "json"; js "api_key"] (f_vertex_key_type f) && optional_of [js "ak_sk"; js "api_key"] (f_aws_key_type f) &&
  optional_text (f_azure_responses_version f).

Definition issue := (jstring * jstring)%type.
Definition required (b : bool) (path message : string) : list issue := if b then [(js path, js message)] else [].

(** A configuration whose members have other types than declared makes the validator report one, or throw. *)
Definition ill_typed : AdvancedCustomValidationError := MkError (js "Advanced custom configuration is required") None.
Definition advanced_config (f : ChannelFormValues) : option (option AdvancedCustomConfig) :=
  match parseAdvancedCustomConfig (Some (f_advanced_custom f)) with
  | Some v => Some <$> typed_config v
  | None => Some None
  end.
Definition advanced_error (f : ChannelFormValues) : option AdvancedCustomValidationError :=
  match advanced_config f with Some config => validateAdvancedCustomConfig URL config | None => Some ill_typed end.

Definition advanced_issues (f : ChannelFormValues) : list issue :=
  let config := coalesce (advanced_config f) None in
  match advanced_error f with Some e => [(js "advanced_custom", message e)] | None => [] end ++
  required (advancedCustomConfigUsesRelativeUpstreamPath config && negb (truthy (trim (f_base_url f)))) "base_url"
    "Base URL is required when an advanced route uses an upstream path" ++
  required (f_upstream_model_update_check_enabled f && negb (hasValidAdvancedCustomModelListRoute URL config))
    "upstream_model_update_check_enabled" "OpenAI Models route is required to enable upstream model checks".

Definition multiple (f : ChannelFormValues) : bool := truthy (f_multi_key_mode f) && negb (jeqb (f_multi_key_mode f) (js "single")).

Definition shard_issues (f : ChannelFormValues) : list issue :=
  let protocol := catch (normalizeHttpProtocol (JStr (f_http_protocol f))) HTTP_PROTOCOL_AUTO in
  let shards := asNum (vcoalesce (f_http2_connection_shards f) one_shard) in
  required (num_ltb shards (num_of_Z 1) || num_ltb (num_of_Z MAX_HTTP2_CONNECTION_SHARDS) shards) "http2_connection_shards"
    "HTTP/2 connection shards must be between 1 and 8" ++
  required (jeqb protocol HTTP_PROTOCOL_HTTP1 && num_ltb (num_of_Z 1) shards) "http2_connection_shards"
    "HTTP/2 connection shards must be 1 when HTTP/1.1 is selected".

(** [superRefine] *)
Definition refine_issues (f : ChannelFormValues) : list issue :=
  required (has_type [3; 8; 36; 45; CHANNEL_TYPE_NEW_API; CHANNEL_TYPE_TASK_PLUGIN] (f_type f) && negb (truthy (trim (f_base_url f))))
    "base_url" "Base URL is required for this channel type" ++
  required ((f_type f =? CHANNEL_TYPE_TASK_PLUGIN) && negb (nonblank (f_task_plugin_key f))) "task_plugin_key" "Task plugin is required" ++
  (if f_type f =? CHANNEL_TYPE_ADVANCED_CUSTOM then advanced_issues f else []) ++
  required (has_type [3; 18; 21; 39; 41; 49] (f_type f) && negb (truthy (trim (f_other f)))) "other"
    "This channel type requires additional configuration" ++
  (if f_type f =? 57 then
     required (multiple f) "multi_key_mode" "Codex channels do not support batch creation" ++
     required (truthy (trim (f_key f)) && negb (isCodexCredential (f_key f))) "key"
       "Codex credential must be a JSON object with access_token and account_id"
   else []) ++
  required ((f_type f =? 41) && (match f_vertex_key_type f with JStr s => jeqb s (js "json") | _ => false end) &&
            truthy (trim (f_key f)) && negb (isVertexJsonKey (f_key f))) "key" "Vertex AI service account key must be valid JSON" ++
  required ((f_type f =? 41) && (match f_vertex_key_type f with JStr s => jeqb s (js "api_key") | _ => false end) && multiple f)
    "multi_key_mode" "Vertex AI API Key mode does not support batch creation" ++
  shard_issues f.

(** The form can be submitted. *)
Definition channelFormSchema (f : ChannelFormValues) : bool :=
  fields_ok f && match refine_issues f with [] => true | _ => false end.
End Schema.

(** ** Other checks of texts *)

Definition validateJSON (value : jstring) : bool :=
  if negb (truthy (trim value)) then true else catch (ebind (JSON_parse value) (fun _ => Ret true)) false.
Definition validateModelMapping (value : jstring) : bool :=
  if negb (truthy (trim value)) then true else validateJSON value.

(** ** Names between commas *)

(** A name as a list of names holds it: with no comma, no blank around it, and not empty. *)
Definition clean_name (s : jstring) : Prop := Forall (fun c => c <> ch_comma) s /\ trim s = s /\ truthy s = true.

Lemma split_free c s : Forall (Forall (fun d => d <> c)) (split_on c s).
Proof.
  induction s as [|d s IH]; cbn; [by repeat constructor|]. destruct (d =? c)%N eqn:E; [by constructor|].
  destruct (split_on_cons c s) as (w & ws & Hw). rewrite Hw in IH |- *. apply Forall_cons in IH as [Hh Ht].
  constructor; [|done]. constructor; [by apply N.eqb_neq|done].
Qed.

Lemma trim_free c s : Forall (fun d => d <> c) s -> Forall (fun d => d <> c) (trim s).
Proof.
  assert (forall l : jstring, Forall (fun d => d <> c) l -> Forall (fun d => d <> c) (trimStart l)) as H.
  { intros l Hl. unfold trimStart. induction Hl as [|x l Hx Hl IH]; cbn; [constructor|]. destruct (is_ws x); [done|by constructor]. }
  intros Hs. unfold trim, trimEnd. apply Forall_rev, H, Forall_rev, H, Hs.
Qed.

Lemma names_clean s : Forall clean_name (List.filter truthy (map trim (split_on ch_comma s))).
Proof.
  apply List.Forall_forall. intros x [Hx Ht]%filter_In. apply in_map_iff in Hx as (y & <- & Hy).
  split; [|split; [apply trim_idem|done]]. apply trim_free.
  pose proof (split_free ch_comma s) as H. rewrite List.Forall_forall in H. auto.
Qed.

Lemma names_kept l : Forall clean_name l -> List.filter truthy (map trim l) = l.
Proof. induction 1 as [|x l (_ & Ht & Hx) _ IH]; [done|]. cbn. by rewrite Ht, Hx, IH. Qed.

Lemma names_joined l : Forall clean_name l -> List.filter truthy (map trim (split_on ch_comma (join (js ",") l))) = l.
Proof.
  intros H. destruct l as [|x l]; [done|]. change (js ",") with [ch_comma]. rewrite split_on_join; [by apply names_kept|done|].
  eapply Forall_impl; [exact H|]. by intros y [Hy _].
Qed.

Lemma groups_again s : formatGroups (parseGroups (formatGroups (parseGroups s))) = formatGroups (parseGroups s).
Proof. unfold parseGroups, formatGroups. rewrite names_joined; [done|apply names_clean]. Qed.

Lemma uniq_Forall {A} `{EqDecision A} (P : A -> Prop) l : Forall P l -> Forall P (uniq l).
Proof. rewrite !Forall_forall. intros H x Hx. apply H. by apply (uniq_elem l x). Qed.

Lemma ignored_again s : ignored_list (join (js ",") (ignored_list s)) = ignored_list s.
Proof.
  unfold ignored_list. rewrite names_joined; [apply uniq_id, uniq_NoDup|apply uniq_Forall, names_clean].
Qed.

Lemma String_of_texts l : String_of (JArr (map JStr l)) = Ret (join (js ",") l).
Proof.
  cbn. assert (emap (fun x => match x with JUndefined | JNull => Ret [] | _ => String_of x end) (map JStr l) = Ret l) as ->; [|done].
  induction l as [|s l IH]; [done|]. cbn. by rewrite IH.
Qed.

Ltac decided := apply (bool_decide_unpack _); vm_compute; exact I.

(** ** The settings are written once *)

(** What the form shows of the settings. *)
Record shows (f : ChannelFormValues) (parsed : jsval) : Prop := {
  s_vertex : f_vertex_key_type f = vor (jget parsed (js "vertex_key_type")) (JStr (js "json"));
  s_aws : f_aws_key_type f = vor (jget parsed (js "aws_key_type")) (JStr (js "ak_sk"));
  s_azure : f_azure_responses_version f = vor (jget parsed (js "azure_responses_version")) (JStr []);
  s_enterprise : f_is_enterprise_account f = is_true (jget parsed (js "openrouter_enterprise"));
  s_tier : f_allow_service_tier f = is_true (jget parsed (js "allow_service_tier"));
  s_store : f_disable_store f = is_true (jget parsed (js "disable_store"));
  s_safety : f_allow_safety_identifier f = is_true (jget parsed (js "allow_safety_identifier"));
  s_obfuscation : f_allow_include_obfuscation f = is_true (jget parsed (js "allow_include_obfuscation"));
  s_geo : f_allow_inference_geo f = is_true (jget parsed (js "allow_inference_geo"));
  s_speed : f_allow_speed f = is_true (jget parsed (js "allow_speed"));
  s_beta : f_claude_beta_query f = is_true (jget parsed (js "claude_beta_query"));
  s_sleep : f_disable_task_polling_sleep f = is_true (jget parsed (js "disable_task_polling_sleep"));
  s_check : f_upstream_model_update_check_enabled f = is_true (jget parsed (js "upstream_model_update_check_enabled"));
  s_auto : f_upstream_model_update_auto_sync_enabled f = is_true (jget parsed (js "upstream_model_update_auto_sync_enabled"));
  s_ignored : f_upstream_model_update_ignored_models f = catch (ignored_models parsed) [];
  s_advanced : f_advanced_custom f = advanced_text parsed
}.

Lemma load_shows c : shows (transformChannelToFormDefaults c) (other_settings (ch_settings c)).
Proof. by split. Qed.

Lemma assoc_member_if (b : bool) (k : string) (v : jsval) (fs : members) k' : assoc k' (member_if b k v fs) =
  if decide (js k = k') then (if b then Some v else None) else assoc k' fs.
Proof.
  unfold member_if. destruct b; [apply assoc_put|]. destruct (decide (js k = k')) as [<-|Hk]; [apply assoc_del_same|by apply assoc_del_other].
Qed.

(** A step that finds its member as it leaves it changes nothing. *)
Lemma member_if_id (b : bool) (k : string) (v : jsval) (fs : members) : assoc (js k) fs = (if b then Some v else None) -> member_if b k v fs = fs.
Proof. unfold member_if. destruct b; [apply put_id|apply del_id]. Qed.

Lemma plain_member_if b k v fs : plain_json v -> plain_members fs -> plain_members (member_if b k v fs).
Proof. unfold member_if. destruct b; auto with plain. Qed.

(** The members the update check may set. *)
Definition update_keys : list jstring :=
  [js "upstream_model_update_check_enabled"; js "upstream_model_update_auto_sync_enabled"; js "upstream_model_update_ignored_models";
   js "upstream_model_update_last_detected_models"; js "upstream_model_update_last_check_time"].

Lemma assoc_detected check (fs : members) k : k <> js "upstream_model_update_last_detected_models" ->
  assoc k (detected_setting check fs) = assoc k fs.
Proof. intros Hk. unfold detected_setting. repeat case_match; by rewrite ?assoc_put_other. Qed.

Lemma assoc_check_time (fs : members) k : k <> js "upstream_model_update_last_check_time" ->
  assoc k (check_time_setting fs) = assoc k fs.
Proof. intros Hk. unfold check_time_setting. repeat case_match; by rewrite ?assoc_put_other. Qed.

Lemma assoc_update_other f (fs : members) k : k ∉ update_keys -> assoc k (update_settings f fs) = assoc k fs.
Proof.
  unfold update_keys. rewrite !not_elem_of_cons. intros (H1 & H2 & H3 & H4 & H5 & _). unfold update_settings.
  destruct (has_type _ _); [|done]. by rewrite assoc_check_time, assoc_detected, !assoc_put_other by congruence.
Qed.

Lemma assoc_advanced_other f (fs : members) k : k <> js "advanced_custom" -> assoc k (advanced_setting f fs) = assoc k fs.
Proof.
  intros Hk. unfold advanced_setting. destruct (_ =? _); [|by apply assoc_del_other]. case_match; [by apply assoc_put_other|done].
Qed.

(** Reads a member of the settings through the steps that do not touch it. *)
Ltac through := try rewrite assoc_advanced_other by decided; try rewrite assoc_update_other by decided;
  try rewrite assoc_put_other by decided; repeat rewrite assoc_member_if, decide_False by decided.

Ltac at_step := through; rewrite assoc_member_if, decide_True by reflexivity.

(** What the update check leaves in the settings. *)
Lemma update_members f fs : has_type MODEL_FETCHABLE_TYPES (f_type f) = true ->
  let check := f_upstream_model_update_check_enabled f in
  let u := update_settings f fs in
  assoc (js "upstream_model_update_check_enabled") u = Some (JBool check) /\
  assoc (js "upstream_model_update_auto_sync_enabled") u = Some (JBool (check && f_upstream_model_update_auto_sync_enabled f)) /\
  assoc (js "upstream_model_update_ignored_models") u =
    Some (JArr (map JStr (ignored_list (f_upstream_model_update_ignored_models f)))) /\
  (exists l, assoc (js "upstream_model_update_last_detected_models") u = Some (JArr l) /\ (check = false -> l = [])) /\
  (exists n, assoc (js "upstream_model_update_last_check_time") u = Some (JNum n)).
Proof.
  intros Ht check u. subst u. unfold update_settings. rewrite Ht. fold check. split_and!.
  - rewrite assoc_check_time, assoc_detected, !assoc_put_other by decided. apply assoc_put_same.
  - rewrite assoc_check_time, assoc_detected, assoc_put_other by decided. apply assoc_put_same.
  - rewrite assoc_check_time, assoc_detected by decided. apply assoc_put_same.
  - rewrite assoc_check_time by decided. generalize (put (js "upstream_model_update_ignored_models")
      (JArr (map JStr (ignored_list (f_upstream_model_update_ignored_models f))))
      (put (js "upstream_model_update_auto_sync_enabled") (JBool (check && f_upstream_model_update_auto_sync_enabled f))
      (put (js "upstream_model_update_check_enabled") (JBool check) fs))). intros v. unfold detected_setting.
    destruct (assoc (js "upstream_model_update_last_detected_models") v) as [[| | | | |l|]|] eqn:E;
      try (exists []; split; [apply assoc_put_same|done]).
    destruct check; [by exists l|]. exists []. split; [apply assoc_put_same|done].
  - generalize (detected_setting check (put (js "upstream_model_update_ignored_models")
      (JArr (map JStr (ignored_list (f_upstream_model_update_ignored_models f))))
      (put (js "upstream_model_update_auto_sync_enabled") (JBool (check && f_upstream_model_update_auto_sync_enabled f))
      (put (js "upstream_model_update_check_enabled") (JBool check) fs)))). intros v. unfold check_time_setting.
    destruct (assoc (js "upstream_model_update_last_check_time") v) as [[| | |n| | |]|] eqn:E; try (eexists; apply assoc_put_same). by exists n.
Qed.

Section SettingsAgain.
Context (f f' : ChannelFormValues) (fs : members).

#[local] Abbreviation fs1 := (settings_members f fs).
Context (Hf' : shows f' (JObj fs1)) (Htype : f_type f' = f_type f).

Ltac member := unfold settings_members, aws_setting, openrouter_setting, azure_setting, vertex_setting, passthrough_settings; cbv zeta; at_step.

Lemma is_true_member (b x : bool) : (if b then Some (JBool (is_true (coalesce (if b then Some (JBool x) else None) JUndefined))) else None) =
  if b then Some (JBool x) else None.
Proof. by destruct b, x. Qed.

Lemma vertex_again : vertex_setting f' fs1 = fs1.
Proof.
  apply member_if_id. rewrite Htype, (s_vertex f' _ Hf'). cbn [jget]. member. destruct (_ =? _); [|done].
  cbn. by rewrite !vor_twice.
Qed.

Lemma azure_again : azure_setting f' fs1 = fs1.
Proof.
  apply member_if_id. rewrite Htype, (s_azure f' _ Hf'). cbn [jget]. member. destruct (_ =? _); [|done]. cbn [andb].
  destruct (jtruthy (f_azure_responses_version f)) eqn:E; cbn [coalesce from_option id]; unfold vor; [by rewrite E, E|done].
Qed.

Lemma openrouter_again : openrouter_setting f' fs1 = fs1.
Proof.
  apply member_if_id. rewrite Htype, (s_enterprise f' _ Hf'). cbn [jget]. member. symmetry. apply is_true_member.
Qed.

Lemma aws_again : aws_setting f' fs1 = fs1.
Proof.
  apply member_if_id. rewrite Htype, (s_aws f' _ Hf'). cbn [jget]. member. destruct (_ =? _); [|done].
  cbn. by rewrite !vor_twice.
Qed.

Lemma passthrough_again : passthrough_settings f' fs1 = fs1.
Proof.
  unfold passthrough_settings. cbv zeta. rewrite Htype.
  rewrite (s_tier f' _ Hf'), (s_store f' _ Hf'), (s_safety f' _ Hf'), (s_obfuscation f' _ Hf'), (s_geo f' _ Hf'), (s_speed f' _ Hf'), (s_beta f' _ Hf').
  cbn [jget]. repeat (rewrite (member_if_id _ _ _ fs1); [|member; symmetry; apply is_true_member]). done.
Qed.

Lemma sleep_again : put (js "disable_task_polling_sleep") (JBool (f_disable_task_polling_sleep f')) fs1 = fs1.
Proof.
  apply put_id. rewrite (s_sleep f' _ Hf'). cbn [jget]. unfold settings_members. cbv zeta.
  rewrite assoc_advanced_other by decided. rewrite assoc_update_other by decided. rewrite assoc_put_same. by destruct (f_disable_task_polling_sleep f).
Qed.

Lemma update_again : update_settings f' fs1 = fs1.
Proof.
  destruct (has_type MODEL_FETCHABLE_TYPES (f_type f)) eqn:Ht; [|unfold update_settings; by rewrite Htype, Ht].
  pose proof (update_members f (put (js "disable_task_polling_sleep") (JBool (f_disable_task_polling_sleep f))
    (passthrough_settings f (aws_setting f (openrouter_setting f (azure_setting f (vertex_setting f fs)))))) Ht) as H.
  cbv zeta in H. destruct H as (H1 & H2 & H3 & (l & H4 & Hl) & (n & H5)).
  assert (forall k, k <> js "advanced_custom" -> assoc k fs1 = assoc k (update_settings f (put (js "disable_task_polling_sleep")
    (JBool (f_disable_task_polling_sleep f)) (passthrough_settings f (aws_setting f (openrouter_setting f (azure_setting f (vertex_setting f fs)))))))) as E.
  { intros k Hk. unfold settings_members. cbv zeta. by apply assoc_advanced_other. }
  rewrite <- E in H1, H2, H3, H4, H5 by decided. clear E.
  set (check := f_upstream_model_update_check_enabled f) in *.
  assert (f_upstream_model_update_check_enabled f' = check) as Hc.
  { rewrite (s_check f' _ Hf'). cbn [jget]. rewrite H1. by destruct check. }
  assert (f_upstream_model_update_auto_sync_enabled f' = check && f_upstream_model_update_auto_sync_enabled f) as Ha.
  { rewrite (s_auto f' _ Hf'). cbn [jget]. rewrite H2. by destruct (check && _). }
  assert (ignored_list (f_upstream_model_update_ignored_models f') = ignored_list (f_upstream_model_update_ignored_models f)) as Hi.
  { rewrite (s_ignored f' _ Hf'). unfold ignored_models. cbn [jget]. rewrite H3. cbn [coalesce from_option id].
    rewrite String_of_texts. cbn [catch]. apply ignored_again. }
  unfold update_settings. rewrite Htype, Ht, Hc, Ha, Hi, andb_assoc, andb_diag. cbv zeta.
  rewrite (put_id _ _ fs1 H1), (put_id _ _ fs1 H2), (put_id _ _ fs1 H3).
  assert (detected_setting check fs1 = fs1) as ->.
  { unfold detected_setting. rewrite H4. destruct check; [done|]. apply put_id. by rewrite H4, Hl. }
  unfold check_time_setting. by rewrite H5.
Qed.

(** Before the configuration is set, its member is as it was. *)
Lemma advanced_before : assoc (js "advanced_custom") (update_settings f (put (js "disable_task_polling_sleep")
    (JBool (f_disable_task_polling_sleep f)) (passthrough_settings f (aws_setting f (openrouter_setting f (azure_setting f (vertex_setting f fs))))))) =
  assoc (js "advanced_custom") fs.
Proof.
  rewrite assoc_update_other by decided. rewrite assoc_put_other by decided.
  unfold aws_setting, openrouter_setting, azure_setting, vertex_setting, passthrough_settings. cbv zeta. by through.
Qed.

Lemma ignored_fetchable : has_type MODEL_FETCHABLE_TYPES (f_type f) = true -> exists s, ignored_models (JObj fs1) = Ret s.
Proof.
  intros Ht. unfold ignored_models. cbn [jget]. unfold settings_members. cbv zeta. rewrite assoc_advanced_other by decided.
  match goal with |- context [update_settings f ?x] => destruct (update_members f x Ht) as (_ & _ & -> & _) end.
  cbn [coalesce from_option id]. rewrite String_of_texts. eauto.
Qed.

Lemma advanced_again : shows f (JObj fs) -> plain_members fs -> ignored_models (JObj fs) <> Throw -> advanced_setting f' fs1 = fs1.
Proof.
  intros Hf Hp Hi. unfold advanced_setting at 1. rewrite Htype.
  destruct (f_type f =? CHANNEL_TYPE_ADVANCED_CUSTOM) eqn:Ht.
  2: { apply del_id. unfold settings_members, advanced_setting. cbv zeta. rewrite Ht. apply assoc_del_same. }
  assert (has_type MODEL_FETCHABLE_TYPES (f_type f) = true) as Hfetch by (by apply Z.eqb_eq in Ht as ->).
  destruct (ignored_fetchable Hfetch) as [s1 Hs1]. destruct (ignored_models (JObj fs)) as [s0|] eqn:Hs0; [|done].
  pose proof (s_advanced f _ Hf) as Ha. pose proof (s_advanced f' _ Hf') as Ha'. unfold advanced_text in Ha, Ha'.
  rewrite Hs0 in Ha. rewrite Hs1 in Ha'. cbn [ebind] in Ha, Ha'.
  set (a0 := jget (JObj fs) (js "advanced_custom")) in *.
  assert (a0 = JUndefined \/ plain_json a0) as Hpa by (apply plain_get, plain_members_obj, Hp).
  assert (fs1 = match parseAdvancedCustomConfig (Some (f_advanced_custom f)) with
                | Some config => put (js "advanced_custom") config (update_settings f (put (js "disable_task_polling_sleep")
                    (JBool (f_disable_task_polling_sleep f)) (passthrough_settings f (aws_setting f (openrouter_setting f (azure_setting f (vertex_setting f fs)))))))
                | None => update_settings f (put (js "disable_task_polling_sleep")
                    (JBool (f_disable_task_polling_sleep f)) (passthrough_settings f (aws_setting f (openrouter_setting f (azure_setting f (vertex_setting f fs))))))
                end) as E by (unfold settings_members, advanced_setting; cbv zeta; by rewrite Ht).
  destruct (if jtruthy a0 then config_value a0 else Throw) as [v|] eqn:Ev.
  - destruct (jtruthy a0) eqn:Etr; [|done].
    assert (stringifyAdvancedCustomConfig a0 = Ret (JSON_stringify_2 v)) as Es by (unfold stringifyAdvancedCustomConfig; by rewrite Ev).
    assert (parseAdvancedCustomConfig (Some (JSON_stringify_2 v)) = Some v) as Epv by (by eapply parse_stringified).
    rewrite Es in Ha. cbn [catch] in Ha. rewrite Ha, Epv in E.
    assert (assoc (js "advanced_custom") fs1 = Some v) as Ev1 by (rewrite E; apply assoc_put_same).
    assert (jget (JObj fs1) (js "advanced_custom") = v) as Eg by (cbn [jget]; by rewrite Ev1).
    rewrite Eg in Ha'. pose proof (config_value_twice a0 v Ev) as Etw.
    assert (jtruthy v = true) as Ett.
    { unfold config_value in Ev. destruct (match jget a0 (js "advanced_routes") with JArr l => emap route_value l | _ => Ret [] end); [|done].
      by injection Ev as <-. }
    rewrite Ett in Ha'. unfold stringifyAdvancedCustomConfig in Ha'. rewrite Etw in Ha'. cbn [ebind catch] in Ha'.
    rewrite Ha', Epv. by apply put_id.
  - assert (f_advanced_custom f = []) as Hn.
    { rewrite Ha. destruct (jtruthy a0); [|done]. unfold stringifyAdvancedCustomConfig. by rewrite Ev. }
    rewrite Hn in E. change (parseAdvancedCustomConfig (Some [])) with (@None jsval) in E. cbv iota in E.
    assert (jget (JObj fs1) (js "advanced_custom") = a0) as Eg by (cbn [jget]; by rewrite E, advanced_before).
    rewrite Eg in Ha'. assert (f_advanced_custom f' = []) as Hn'.
    { rewrite Ha'. destruct (jtruthy a0); [|done]. unfold stringifyAdvancedCustomConfig. by rewrite Ev. }
    by rewrite Hn'.
Qed.

(** Written again from a form that shows them, the settings are as they were written. *)
Lemma settings_again : shows f (JObj fs) -> plain_members fs -> ignored_models (JObj fs) <> Throw -> settings_members f' fs1 = fs1.
Proof.
  intros Hf Hp Hi. unfold settings_members at 1. cbv zeta.
  rewrite vertex_again, azure_again, openrouter_again, aws_again, passthrough_again, sleep_again, update_again. by apply advanced_again.
Qed.

End SettingsAgain.

(** What is written is read back. *)
Lemma settings_plain f fs : shows f (JObj fs) -> plain_members fs -> plain_members (settings_members f fs).
Proof.
  intros Hf Hp. pose proof (fun k => plain_get (JObj fs) k (proj1 (plain_members_obj fs) Hp)) as Hg.
  assert (plain_json (f_vertex_key_type f)) as Hv by (rewrite (s_vertex f _ Hf); apply plain_vor; auto with plain).
  assert (plain_json (f_aws_key_type f)) as Ha by (rewrite (s_aws f _ Hf); apply plain_vor; auto with plain).
  assert (plain_json (f_azure_responses_version f)) as Hz by (rewrite (s_azure f _ Hf); apply plain_vor; auto with plain).
  unfold settings_members. cbv zeta. match goal with |- plain_members (advanced_setting f (update_settings f ?y)) =>
    assert (plain_members y) as Hx; [|generalize dependent y] end.
  { unfold aws_setting, openrouter_setting, azure_setting, vertex_setting, passthrough_settings. cbv zeta.
    apply plain_put; [constructor|]. repeat apply plain_member_if; auto with plain. }
  intros x Hx. assert (plain_members (update_settings f x)) as Hu.
  { unfold update_settings. destruct (has_type _ _); [|done].
    assert (plain_members (put (js "upstream_model_update_ignored_models") (JArr (map JStr (ignored_list (f_upstream_model_update_ignored_models f))))
      (put (js "upstream_model_update_auto_sync_enabled")
        (JBool (f_upstream_model_update_check_enabled f && f_upstream_model_update_auto_sync_enabled f))
      (put (js "upstream_model_update_check_enabled") (JBool (f_upstream_model_update_check_enabled f)) x)))) as Hl
      by (apply plain_put; [apply plain_texts|]; auto with plain).
    assert (plain_json (JNum (num_of_Z 0))) by (constructor; by apply readable_whole).
    assert (plain_json (JArr [])) by (constructor; constructor).
    match goal with |- plain_members (check_time_setting (detected_setting ?b ?y)) => assert (plain_members (detected_setting b y)) as Hd end.
    { unfold detected_setting. repeat case_match; auto with plain. }
    generalize dependent (detected_setting (f_upstream_model_update_check_enabled f)
      (put (js "upstream_model_update_ignored_models") (JArr (map JStr (ignored_list (f_upstream_model_update_ignored_models f))))
      (put (js "upstream_model_update_auto_sync_enabled")
        (JBool (f_upstream_model_update_check_enabled f && f_upstream_model_update_auto_sync_enabled f))
      (put (js "upstream_model_update_check_enabled") (JBool (f_upstream_model_update_check_enabled f)) x)))).
    intros y Hy. unfold check_time_setting. repeat case_match; auto with plain. }
  unfold advanced_setting. destruct (_ =? _); [|by apply plain_del].
  destruct (parseAdvancedCustomConfig (Some (f_advanced_custom f))) as [v|] eqn:Ev; [|done]. apply plain_put; [|done].
  rewrite (s_advanced f _ Hf) in Ev. unfold advanced_text in Ev.
  destruct (ignored_models (JObj fs)) as [s|]; [|done]. cbn [ebind] in Ev.
  destruct (jtruthy (jget (JObj fs) (js "advanced_custom"))); [|done].
  destruct (config_value (jget (JObj fs) (js "advanced_custom"))) as [w|] eqn:Ew; unfold stringifyAdvancedCustomConfig in Ev; rewrite Ew in Ev; [|done].
  cbn [ebind catch] in Ev. erewrite parse_stringified in Ev; [|apply Hg|exact Ew|by unfold stringifyAdvancedCustomConfig; rewrite Ew].
  injection Ev as <-. eapply plain_config; [apply Hg|exact Ew].
Qed.

(** ** The setting is written once *)

(** What the form shows of the setting. *)
Record shows_extra (f : ChannelFormValues) (x : ExtraSettings) : Prop := {
  e_plugin : f_task_plugin_key f = x_task_plugin_key x;
  e_format : f_force_format f = x_force_format x;
  e_thinking : f_thinking_to_content f = x_thinking_to_content x;
  e_proxy : f_proxy f = x_proxy x;
  e_protocol : f_http_protocol f = x_http_protocol x;
  e_shards : f_http2_connection_shards f = x_http2_connection_shards x;
  e_pass : f_pass_through_body_enabled f = x_pass_through_body_enabled x;
  e_prompt : f_system_prompt f = x_system_prompt x;
  e_override : f_system_prompt_override f = x_system_prompt_override x
}.

Lemma load_shows_extra c : shows_extra (transformChannelToFormDefaults c) (extraSettings (ch_setting c)).
Proof. by split. Qed.

(** The members, given what they hold: whether the protocol is HTTP/1.1, and the connections that are written. *)
Definition setting_list (plugin : option jstring) (format thinking : jsval) (proxy : jstring) (pass prompt override : jsval)
    (http1 : bool) (shards : option jsval) : members :=
  match plugin with Some k => [(js "task_plugin_key", JStr k)] | None => [] end ++
  [(js "force_format", format); (js "thinking_to_content", thinking); (js "proxy", JStr proxy);
   (js "pass_through_body_enabled", pass); (js "system_prompt", prompt); (js "system_prompt_override", override)] ++
  (if http1 then [(js "http_protocol", JStr HTTP_PROTOCOL_HTTP1)]
   else match shards with Some v => [(js "http2_connection_shards", v)] | None => [] end).

(** Connections that a form may hold: a value that normalizing leaves as it is. *)
Definition normal_shards (v : jsval) : Prop := normalizeHttp2ConnectionShards v = Ret v.

Lemma shards_normal v w : normalizeHttp2ConnectionShards v = Ret w -> normal_shards w.
Proof.
  unfold normal_shards. unfold normalizeHttp2ConnectionShards at 1.
  assert (normalizeHttp2ConnectionShards one_shard = Ret one_shard) as H1 by (by vm_compute).
  assert (normalizeHttp2ConnectionShards (JNum (num_of_Z MAX_HTTP2_CONNECTION_SHARDS)) = Ret (JNum (num_of_Z MAX_HTTP2_CONNECTION_SHARDS)))
    as H8 by (by vm_compute).
  destruct v as [| |b|n|s|l|fs]; try (intros [= <-]; done).
  all: try (destruct (number_of _) as [n|] eqn:En; [|done]; cbn [ebind];
            destruct (num_ltb n (num_of_Z 1)) eqn:E1; [by intros [= <-]|];
            destruct (num_ltb (num_of_Z MAX_HTTP2_CONNECTION_SHARDS) n) eqn:E2; [by intros [= <-]|];
            intros [= <-]; unfold normalizeHttp2ConnectionShards; by rewrite En; cbn [ebind]; rewrite E1, E2).
  destruct (num_truthy n) eqn:Et; [|destruct n; cbn [negb]; by intros [= <-]].
  destruct n as [|neg|q]; [by intros [= <-]|..]; cbn [negb number_of ebind].
  all: match goal with |- context [num_ltb ?n (num_of_Z 1)] => destruct (num_ltb n (num_of_Z 1)) eqn:E1; [by intros [= <-]|];
    destruct (num_ltb (num_of_Z MAX_HTTP2_CONNECTION_SHARDS) n) eqn:E2; [by intros [= <-]|] end;
    intros [= <-]; unfold normalizeHttp2ConnectionShards; rewrite Et; cbn [negb number_of ebind]; by rewrite E1, E2.
Qed.

(** Connections that are written: normal, and more than one. *)
Definition written_shards (v : jsval) : Prop :=
  normal_shards v /\ exists n, number_of v = Ret n /\ num_ltb (num_of_Z 1) n = true.

Lemma trimmed_text v w : trim_optional v = Ret w -> exists s, vor w (JStr []) = JStr s /\ trim s = s.
Proof.
  destruct v as [| | | |s| |]; cbn; try done; intros [= <-]; [by exists []..|]. unfold vor. cbn.
  destruct (truthy (trim s)) eqn:E; [exists (trim s); split; [done|apply trim_idem]|by exists []].
Qed.

Lemma protocol_cases v s : normalizeHttpProtocol v = Ret s -> s = HTTP_PROTOCOL_HTTP1 \/ s = HTTP_PROTOCOL_AUTO.
Proof. unfold normalizeHttpProtocol. destruct (String_of _); [|done]. cbn. intros [= <-]. case_match; auto. Qed.

Lemma Ret_inj {A} (a b : A) : Ret a = Ret b -> a = b.
Proof. congruence. Qed.

Lemma setting_parts f fs : setting_members f = Ret fs -> exists plugin proxy http1 shards,
  fs = setting_list plugin (vor (f_force_format f) falsy) (vor (f_thinking_to_content f) falsy) proxy
         (vor (f_pass_through_body_enabled f) falsy) (vor (f_system_prompt f) (JStr [])) (vor (f_system_prompt_override f) falsy) http1 shards /\
  (is_Some plugin <-> f_type f = CHANNEL_TYPE_TASK_PLUGIN) /\ (forall k, plugin = Some k -> trim k = k) /\ trim proxy = proxy /\
  (forall v, shards = Some v -> http1 = false /\ normalizeHttp2ConnectionShards (f_http2_connection_shards f) = Ret v /\ written_shards v).
Proof.
  intros H. unfold setting_members in H. revert H.
  set (p := if f_type f =? CHANNEL_TYPE_TASK_PLUGIN then _ else _).
  destruct p as [ps|] eqn:Ep; [|done]. subst p. cbn [ebind]. intros H.
  assert (exists plugin, ps = match plugin with Some k => [(js "task_plugin_key", JStr k)] | None => [] end /\
    (is_Some plugin <-> f_type f = CHANNEL_TYPE_TASK_PLUGIN) /\ (forall k, plugin = Some k -> trim k = k)) as (plugin & -> & Hp1 & Hp2).
  { destruct (Z.eqb_spec (f_type f) CHANNEL_TYPE_TASK_PLUGIN) as [E|E].
    - destruct (trim_optional (f_task_plugin_key f)) as [key|] eqn:Ek; [|done]. cbn [ebind] in Ep. injection Ep as <-.
      destruct (trimmed_text _ _ Ek) as (s & -> & Hs). exists (Some s). split; [done|]. split; [split; eauto|]. by intros k [= <-].
    - injection Ep as <-. exists None. split; [done|]. split; [|done]. split; [by intros []|done]. }
  destruct (trim_optional (f_proxy f)) as [pr|] eqn:Epr; [|done]. cbn [ebind] in H. destruct (trimmed_text _ _ Epr) as (proxy & Epx & Hpr). rewrite Epx in H.
  destruct (normalizeHttpProtocol (JStr (f_http_protocol f))) as [protocol|] eqn:Eh; [|done]. cbn [ebind] in H.
  exists plugin, proxy, (jeqb protocol HTTP_PROTOCOL_HTTP1).
  destruct (jeqb protocol HTTP_PROTOCOL_HTTP1).
  - cbn [ebind] in H. destruct (number_of one_shard); [|done]. cbn [ebind] in H. exists None. apply Ret_inj in H. by subst fs.
  - destruct (normalizeHttp2ConnectionShards (f_http2_connection_shards f)) as [sh|] eqn:Es; [|done]. cbn [ebind] in *.
    destruct (number_of sh) as [n|] eqn:En; [|done]. cbn [ebind] in *.
    apply Ret_inj in H. subst fs. destruct (num_ltb (num_of_Z 1) n) eqn:E1; [exists (Some sh)|exists None]; [|done].
    split; [done|]. split; [done|]. split; [done|]. split; [done|]. intros v [= <-].
    split; [done|]. split; [done|]. split; [by eapply shards_normal|by exists n].
Qed.

(** What the form shows of a setting that was written. *)
Lemma extra_of_list plugin format thinking proxy pass prompt override http1 shards :
  (forall v, shards = Some v -> normal_shards v) ->
  extra_of (JObj (setting_list plugin format thinking proxy pass prompt override http1 shards)) =
  Ret {| x_task_plugin_key := vor (match plugin with Some k => JStr k | None => JUndefined end) (JStr []);
         x_force_format := vor format falsy; x_thinking_to_content := vor thinking falsy; x_proxy := vor (JStr proxy) (JStr []);
         x_http_protocol := if http1 then HTTP_PROTOCOL_HTTP1 else HTTP_PROTOCOL_AUTO;
         x_http2_connection_shards := if http1 then one_shard else coalesce shards one_shard;
         x_pass_through_body_enabled := vor pass falsy; x_system_prompt := vor prompt (JStr []);
         x_system_prompt_override := vor override falsy |}.
Proof.
  intros Hs. unfold extra_of, members_of_value. cbn [ebind].
  assert (jget (JObj (setting_list plugin format thinking proxy pass prompt override http1 shards)) (js "http_protocol") =
    if http1 then JStr HTTP_PROTOCOL_HTTP1 else JUndefined) as -> by (by destruct plugin, http1, shards).
  assert (jget (JObj (setting_list plugin format thinking proxy pass prompt override http1 shards)) (js "http2_connection_shards") =
    if http1 then JUndefined else coalesce shards JUndefined) as -> by (by destruct plugin, http1, shards).
  assert (normalizeHttpProtocol (if http1 then JStr HTTP_PROTOCOL_HTTP1 else JUndefined) =
    Ret (if http1 then HTTP_PROTOCOL_HTTP1 else HTTP_PROTOCOL_AUTO)) as -> by (by destruct http1).
  assert (normalizeHttp2ConnectionShards (if http1 then JUndefined else coalesce shards JUndefined) =
    Ret (if http1 then one_shard else coalesce shards one_shard)) as ->.
  { destruct http1; [done|]. destruct shards as [v|]; [by apply Hs|done]. }
  cbn [ebind]. destruct plugin, http1, shards; reflexivity.
Qed.

Lemma trim_vor s : trim s = s -> trim_optional (vor (JStr s) (JStr [])) = Ret (vor (JStr s) (JStr [])).
Proof. intros Hs. unfold vor. cbn. destruct (truthy s); cbn; [by rewrite Hs|done]. Qed.

Lemma vor_text_id s : vor (JStr s) (JStr []) = JStr s.
Proof. by destruct s. Qed.

(** Written again from a form that shows it, the setting is as it was written. *)
Lemma setting_again f f' fs : setting_members f = Ret fs -> plain_members fs ->
  shows_extra f' (extraSettings (Some (JSON_stringify (JObj fs)))) -> f_type f' = f_type f -> setting_members f' = Ret fs.
Proof.
  intros (plugin & proxy & http1 & shards & -> & Hp1 & Hp2 & Hpr & Hsh)%setting_parts Hplain Hx Ht.
  set (fs := setting_list _ _ _ _ _ _ _ _ _) in *.
  assert (extraSettings (Some (JSON_stringify (JObj fs))) = catch (extra_of (JObj fs)) no_extra) as E.
  { unfold extraSettings. rewrite parse_stringify by by apply plain_members_obj. done. }
  unfold fs in E. rewrite extra_of_list in E by (intros v Hv; by apply Hsh). cbn [catch] in E. fold fs in E. rewrite E in Hx.
  destruct Hx as [X1 X2 X3 X4 X5 X6 X7 X8 X9].
  cbn [x_task_plugin_key x_force_format x_thinking_to_content x_proxy x_http_protocol x_http2_connection_shards
    x_pass_through_body_enabled x_system_prompt x_system_prompt_override] in *.
  unfold setting_members. rewrite X1, X2, X3, X4, X5, X6, X7, X8, X9, Ht.
  assert ((if f_type f =? CHANNEL_TYPE_TASK_PLUGIN
      then ebind (trim_optional (vor (match plugin with Some k => JStr k | None => JUndefined end) (JStr [])))
             (fun key => Ret [(js "task_plugin_key", vor key (JStr []))])
      else Ret []) = Ret match plugin with Some k => [(js "task_plugin_key", JStr k)] | None => [] end) as ->.
  { destruct (Z.eqb_spec (f_type f) CHANNEL_TYPE_TASK_PLUGIN) as [Ep|Ep].
    - apply Hp1 in Ep as [k ->]. rewrite trim_vor by (by apply Hp2). cbn [ebind]. by rewrite vor_twice, vor_text_id.
    - destruct plugin; [|done]. destruct Ep. by apply Hp1. }
  cbn [ebind]. rewrite trim_vor by done. cbn [ebind].
  assert (normalizeHttpProtocol (JStr (if http1 then HTTP_PROTOCOL_HTTP1 else HTTP_PROTOCOL_AUTO)) =
    Ret (if http1 then HTTP_PROTOCOL_HTTP1 else HTTP_PROTOCOL_AUTO)) as -> by (by destruct http1).
  cbn [ebind]. rewrite !vor_twice, vor_text_id. unfold fs, setting_list. destruct http1.
  - change (jeqb HTTP_PROTOCOL_HTTP1 HTTP_PROTOCOL_HTTP1) with true. cbv iota. cbn [ebind]. by destruct shards.
  - change (jeqb HTTP_PROTOCOL_AUTO HTTP_PROTOCOL_HTTP1) with false. cbv iota. destruct shards as [v|]; cbn [coalesce from_option id]; [|done].
    destruct (Hsh v eq_refl) as (_ & _ & Hn & n & En & E1). rewrite Hn. cbn [ebind]. rewrite En. cbn [ebind]. by rewrite E1.
Qed.

(** ** Saving *)

(** The channel after the server took what was sent: null and what is not sent leave a member as it was. *)
Definition saved_text (p : members) (k : string) (old : jstring) : jstring :=
  match assoc (js k) p with Some (JStr s) => s | _ => old end.
Definition saved_option (p : members) (k : string) (old : option jstring) : option jstring :=
  match assoc (js k) p with Some (JStr s) => Some s | _ => old end.
Definition saved_number (p : members) (k : string) (old : Z) : Z :=
  match assoc (js k) p with Some (JNum (Fin q)) => Qnum q | _ => old end.

Definition saved (c : Channel) (p : members) : Channel :=
  {| ch_name := saved_text p "name" (ch_name c); ch_type := saved_number p "type" (ch_type c);
     ch_base_url := saved_option p "base_url" (ch_base_url c);
     ch_openai_organization := saved_option p "openai_organization" (ch_openai_organization c);
     ch_models := saved_text p "models" (ch_models c); ch_group := saved_text p "group" (ch_group c);
     ch_model_mapping := saved_option p "model_mapping" (ch_model_mapping c);
     ch_priority := Some (saved_number p "priority" (zero (ch_priority c)));
     ch_weight := Some (saved_number p "weight" (zero (ch_weight c)));
     ch_test_model := saved_option p "test_model" (ch_test_model c);
     ch_auto_ban := Some (saved_number p "auto_ban" (coalesce (ch_auto_ban c) 1)); ch_status := ch_status c;
     ch_status_code_mapping := saved_option p "status_code_mapping" (ch_status_code_mapping c);
     ch_tag := saved_option p "tag" (ch_tag c); ch_remark := saved_text p "remark" (ch_remark c);
     ch_setting := saved_option p "setting" (ch_setting c); ch_param_override := saved_option p "param_override" (ch_param_override c);
     ch_header_override := saved_option p "header_override" (ch_header_override c);
     ch_settings := saved_text p "settings" (ch_settings c); ch_other := saved_text p "other" (ch_other c);
     ch_multi_key_mode := ch_multi_key_mode c |}.

(** A text, or nothing that counts as one. *)
Definition textual (v : jsval) : Prop := jtruthy v = false \/ exists s, v = JStr s.

(** No blank stands before a slash in the address, the blanks around it left aside. *)
Definition solid_address (s : jstring) : Prop := forall before c after, trim s = before ++ c :: ch_slash :: after -> is_ws c = false.

(** A channel as the server keeps it: the two texts are JSON whose numbers are read back, their texts are texts, and no blank
    stands before a slash of the address. *)
Record good_channel (c : Channel) : Prop := {
  g_settings : ch_settings c = [] \/ exists fs, JSON_parse (ch_settings c) = Ret (JObj fs) /\ plain_members fs /\
    ignored_models (JObj fs) <> Throw;
  g_setting : forall t, ch_setting c = Some t -> t = [] \/ exists v, JSON_parse t = Ret v /\ plain_json v /\
    textual (jget v (js "proxy")) /\ textual (jget v (js "task_plugin_key"));
  g_base : solid_address (text (ch_base_url c))
}.

Lemma no_blanks_solid s : Forall (fun c => is_ws c = false) (trim s) -> solid_address s.
Proof. intros H before c after E. rewrite E in H. by apply Forall_app in H as [_ H%Forall_inv]. Qed.

Lemma drop_while_stops {A} (f : A -> bool) l d k : drop_while f l = d :: k -> f d = false.
Proof. induction l as [|x l IH]; [done|]. cbn. destruct (f x) eqn:E; [done|]. by intros [= <- _]. Qed.

(** Such an address is the same after the next save. *)
Lemma solid_stable s : solid_address s -> normalizeBaseUrl (normalizeBaseUrl s) = normalizeBaseUrl s.
Proof.
  unfold solid_address, normalizeBaseUrl. set (slash := fun c => (c =? ch_slash)%N).
  destruct (trim_shape s) as [-> | (c & l & -> & Hc & Hl)]; [done|]. intros Hs.
  cbn [rev] in Hs |- *. rewrite rev_involutive.
  destruct (drop_while_suffix slash (l ++ [c])) as (k & Ek & Hk).
  destruct (drop_while slash (l ++ [c])) as [|d D] eqn:ED; [done|].
  assert (slash d = false) as Hd by (by apply (drop_while_stops slash (l ++ [c]) d D)).
  assert (c :: rev l = rev D ++ d :: rev k) as ET.
  { apply (f_equal (@rev N)) in Ek. rewrite rev_app_distr in Ek. cbn in Ek. rewrite rev_app_distr in Ek. cbn in Ek.
    by rewrite <- app_assoc in Ek. }
  assert (is_ws d = false) as Hw.
  { destruct k as [|x k] using rev_ind; [|clear IHk].
    - cbn [app] in Ek. rewrite Ek in Hl. cbn [drop_while] in Hl. destruct (is_ws d); [|done].
      pose proof (drop_while_length is_ws D) as Hlen. rewrite Hl in Hlen. cbn in Hlen. lia.
    - apply Forall_app in Hk as [_ Hx]. apply Forall_inv in Hx. cbn in Hx. apply N.eqb_eq in Hx as ->.
      rewrite rev_app_distr in ET. by apply (Hs (rev D) d (rev k)). }
  cbn [rev].
  assert (trim (rev D ++ [d]) = rev D ++ [d]) as ->.
  { unfold trim, trimEnd, trimStart. assert (drop_while is_ws (rev D ++ [d]) = rev D ++ [d]) as ->.
    { destruct (rev D) as [|e E]; cbn in ET |- *; [by rewrite Hw|]. injection ET as <- _. by rewrite Hc. }
    rewrite rev_app_distr. cbn. rewrite Hw. cbn. by rewrite rev_involutive. }
  rewrite rev_app_distr. cbn. rewrite Hd. cbn. by rewrite rev_involutive.
Qed.

(** The members of a loaded setting. *)
Record good_extra (x : ExtraSettings) : Prop := {
  ge_plugin : exists s, x_task_plugin_key x = JStr s;
  ge_proxy : exists s, x_proxy x = JStr s;
  ge_plain : Forall plain_json [x_force_format x; x_thinking_to_content x; x_pass_through_body_enabled x; x_system_prompt x;
    x_system_prompt_override x; x_http2_connection_shards x];
  ge_shards : normal_shards (x_http2_connection_shards x)
}.

Lemma vor_textual v : textual v -> exists s, vor v (JStr []) = JStr s.
Proof. unfold vor. intros [-> | [s ->]]; [by exists []|]. destruct (jtruthy (JStr s)); [by exists s|by exists []]. Qed.

Lemma plain_shards v w : v = JUndefined \/ plain_json v -> normalizeHttp2ConnectionShards v = Ret w -> plain_json w.
Proof.
  assert (plain_json one_shard) as H1 by (constructor; by apply readable_whole).
  assert (plain_json (JNum (num_of_Z MAX_HTTP2_CONNECTION_SHARDS))) as H8 by (constructor; by apply readable_whole).
  intros [-> | Hv]; [by intros [= <-]|]. unfold normalizeHttp2ConnectionShards.
  destruct v as [| |b|n|s|l|fs]; try (by intros [= <-]); try (destruct n as [|neg|q]; [by intros [= <-]|..]);
    try (destruct (negb (num_truthy _)); [by intros [= <-]|]); (destruct (number_of _) as [m|]; [|done]); cbn [ebind]; intros [= <-];
    by repeat case_match.
Qed.

Lemma good_extra_no : good_extra no_extra.
Proof.
  split; [by eexists|by eexists| |by vm_compute]. repeat apply Forall_cons_2; try constructor. by apply readable_whole.
Qed.

Lemma good_extra_of v x : plain_json v -> textual (jget v (js "proxy")) -> textual (jget v (js "task_plugin_key")) ->
  extra_of v = Ret x -> good_extra x.
Proof.
  intros Hv Hp Hk. unfold extra_of. pose proof (fun k => plain_get v k Hv) as Hg.
  destruct (members_of_value v) as [g|] eqn:Eg; [|done]. assert (g = jget v) as -> by (destruct v; try discriminate Eg; by injection Eg as <-).
  cbn [ebind]. destruct (normalizeHttpProtocol _) as [protocol|]; [|done]. cbn [ebind].
  destruct (normalizeHttp2ConnectionShards _) as [sh|] eqn:Es; [|done]. cbn [ebind]. intros [= <-].
  assert (plain_json sh /\ normal_shards sh) as [Hps Hns] by (split; [by eapply plain_shards|by eapply shards_normal]).
  assert (plain_json one_shard) as H1 by (constructor; by apply readable_whole).
  split; cbn [x_task_plugin_key x_force_format x_thinking_to_content x_proxy x_http_protocol x_http2_connection_shards
    x_pass_through_body_enabled x_system_prompt x_system_prompt_override]; try (by apply vor_textual).
  - repeat apply Forall_cons_2; try (apply plain_vor; auto with plain; constructor); [by case_match|constructor].
  - by case_match.
Qed.

Lemma good_extra_channel c : good_channel c -> good_extra (extraSettings (ch_setting c)).
Proof.
  intros Hc. unfold extraSettings. destruct (ch_setting c) as [[|u t]|] eqn:E; try apply good_extra_no.
  destruct (g_setting c Hc _ E) as [|(v & Hv & Hp & Hx & Hk)]; [done|]. rewrite Hv. cbn [ebind].
  destruct (extra_of v) as [x|] eqn:Ex; [|apply good_extra_no]. by eapply good_extra_of.
Qed.

Lemma normal_number v : normal_shards v -> exists n, number_of v = Ret n.
Proof.
  unfold normal_shards, normalizeHttp2ConnectionShards. destruct v as [| |b|n|s|l|fs]; try by eexists.
  all: destruct (number_of _); [by eexists|done].
Qed.

Lemma trim_text_value s : exists w, trim_optional (JStr s) = Ret w.
Proof. by eexists. Qed.

Lemma setting_written f x : shows_extra f x -> good_extra x -> exists fs, setting_members f = Ret fs /\ plain_members fs.
Proof.
  intros Hf [(k & Hk) (pr & Hpr) Hpl Hsh].
  assert (exists fs, setting_members f = Ret fs) as (fs & Hfs).
  { unfold setting_members. rewrite (e_plugin f x Hf), (e_proxy f x Hf), (e_shards f x Hf), Hk, Hpr. cbn [trim_optional ebind].
    destruct (normal_number _ Hsh) as [n Hn]. destruct (normal_number one_shard) as [n1 Hn1]; [by vm_compute|].
    unfold normalizeHttpProtocol at 1. destruct (String_of (vor (JStr (f_http_protocol f)) (JStr []))) as [w|] eqn:Ew.
    2: { unfold vor in Ew. by destruct (jtruthy _). }
    destruct (f_type f =? CHANNEL_TYPE_TASK_PLUGIN); cbn [ebind]; (case_match; cbn [ebind]; [rewrite Hn1|rewrite Hsh; cbn [ebind]; rewrite Hn]);
      cbn [ebind]; by eexists. }
  exists fs. split; [done|].
  destruct (setting_parts f fs Hfs) as (plugin & proxy & http1 & shards & -> & _ & _ & _ & Hws).
  assert (forall v, shards = Some v -> plain_json v) as Hps.
  { intros v Hv. destruct (Hws v Hv) as (_ & Hn & _). rewrite (e_shards f x Hf), Hsh in Hn. injection Hn as <-.
    rewrite !Forall_cons in Hpl. tauto. }
  rewrite !Forall_cons in Hpl. destruct Hpl as (H1 & H2 & H3 & H4 & H5 & _).
  rewrite (e_format f x Hf), (e_thinking f x Hf), (e_pass f x Hf), (e_prompt f x Hf), (e_override f x Hf). split.
  - destruct plugin, http1, shards; decided.
  - unfold setting_list. repeat apply Forall_app_2; [destruct plugin; repeat constructor| |].
    + repeat apply Forall_cons_2; try apply plain_vor; auto with plain; try constructor.
    + destruct http1; [repeat constructor|]. destruct shards as [v|]; [|constructor]. apply Forall_cons_2; [by apply Hps|constructor].
Qed.

(** ** Saving again *)

(** A text, null where it is empty. *)
Definition null_if_empty (s : jstring) : jsval := match JStr s with JStr [] => JNull | v => v end.

Lemma update_list f id setting settings : f_key f = [] -> update_payload f id setting settings =
  [(js "id", number_value id); (js "name", null_if_empty (f_name f)); (js "type", number_value (f_type f));
   (js "base_url", JStr (normalizeBaseUrl (f_base_url f))); (js "openai_organization", JStr (f_openai_organization f));
   (js "models", null_if_empty (f_models f)); (js "group", null_if_empty (formatGroups (f_group f)));
   (js "model_mapping", JStr (f_model_mapping f)); (js "priority", number_value (zero (f_priority f)));
   (js "weight", number_value (zero (f_weight f))); (js "test_model", JStr (f_test_model f));
   (js "auto_ban", number_value (coalesce (f_auto_ban f) 1)); (js "status_code_mapping", JStr (f_status_code_mapping f));
   (js "tag", JStr (f_tag f)); (js "remark", JStr (f_remark f)); (js "setting", null_if_empty setting);
   (js "param_override", JStr (f_param_override f)); (js "header_override", JStr (f_header_override f));
   (js "settings", null_if_empty settings); (js "other", null_if_empty (f_other f))].
Proof. unfold update_payload. intros ->. reflexivity. Qed.

Lemma stored_parsed s fs : JSON_parse s = Ret (JObj fs) -> stored_settings s = JObj fs.
Proof.
  intros H. unfold stored_settings. destruct (truthy s) eqn:Et; [|by destruct s].
  destruct (jeqb s (js "{}")) eqn:E; cbn [negb andb]; [|by rewrite H].
  apply jeqb_eq in E as ->. vm_compute in H. by injection H as <-.
Qed.

Lemma no_settings_shown f : shows f JNull -> shows f (JObj []).
Proof. by intros []; split. Qed.

(** What a channel's settings are, for the form that is opened on it. *)
Lemma opened_settings c : good_channel c -> exists fs, stored_settings (f_settings (transformChannelToFormDefaults c)) = JObj fs /\
  shows (transformChannelToFormDefaults c) (JObj fs) /\ plain_members fs /\ ignored_models (JObj fs) <> Throw.
Proof.
  intros Hc. pose proof (load_shows c) as Hs. change (f_settings (transformChannelToFormDefaults c)) with (jor (ch_settings c) (js "{}")).
  destruct (g_settings c Hc) as [E | (fs & Hp & Hpl & Hi)].
  - exists []. rewrite E in Hs |- *. split; [done|]. split; [by apply no_settings_shown|]. split; [|done].
    split; [by apply NoDup_nil|constructor].
  - exists fs. destruct (ch_settings c) as [|u s] eqn:E; [done|]. change (jor (u :: s) (js "{}")) with (u :: s).
    split; [by apply stored_parsed|]. split; [|done]. unfold other_settings in Hs. rewrite Hp in Hs. done.
Qed.

Lemma object_text (fs : members) : exists u s, JSON_stringify (JObj fs) = u :: s.
Proof. by eexists _, _. Qed.

(** No text is the text of undefined. *)
Lemma parse_defined s : JSON_parse s <> Ret JUndefined.
Proof.
  unfold JSON_parse. destruct (parse_value _ s) as [[v r]|] eqn:E; [|done]. destruct (truthy (skip_ws r)); [done|]. intros [= ->].
  cbn [parse_value] in E. repeat case_match; congruence.
Qed.

(** A blank text is no JSON. *)
Lemma blank_no_json s : truthy (trim s) = false -> JSON_parse s = Throw.
Proof.
  intros H%trim_blank_all. unfold JSON_parse. cbn [parse_value].
  assert (Forall (fun c => is_ws c = true) (skip_ws s)) as Hs.
  { unfold skip_ws. induction H as [|c s Hc H IH]; [constructor|]. cbn [drop_while]. destruct (json_ws c); [exact IH|by constructor]. }
  destruct (skip_ws s) as [|c r]; [done|]. apply Forall_cons in Hs as [Hc _].
  assert (forall k, is_ws k = false -> (c =? k)%N = false) as Hne.
  { intros k Hk. apply N.eqb_neq. intros ->. congruence. }
  assert (forall k w, is_ws k = false -> startsWith (c :: r) (k :: w) = false) as Hst.
  { intros k w Hk. cbn [startsWith]. by rewrite N.eqb_sym, (Hne k Hk). }
  rewrite !Hne by done. change (js "true") with (116%N :: js "rue"). change (js "false") with (102%N :: js "alse").
  change (js "null") with (110%N :: js "ull"). rewrite !Hst by done.
  destruct (json_number (c :: r)) as [[n t]|] eqn:En; [|done].
  destruct (json_number_head _ _ _ En) as (c' & s' & [= <- <-] & [-> | Hd]); [done|].
  unfold is_digit in Hd. apply andb_true_iff in Hd as [H1%N.leb_le H2%N.leb_le].
  unfold is_ws in Hc. rewrite !orb_true_iff, !andb_true_iff, !N.leb_le, !N.eqb_eq in Hc. lia.
Qed.

Lemma kept_text s : match null_if_empty s with JStr w => w | _ => s end = s.
Proof. by destruct s. Qed.

Lemma group_kept g : let joined := formatGroups (parseGroups (jor g (js "default"))) in
  let g' := match null_if_empty joined with JStr w => w | _ => g end in
  formatGroups (parseGroups (jor g' (js "default"))) = joined.
Proof.
  cbv zeta. set (joined := formatGroups (parseGroups (jor g (js "default")))). destruct joined as [|u s] eqn:E; [exact E|].
  cbn [null_if_empty]. change (jor (u :: s) (js "default")) with (u :: s). rewrite <- E. apply groups_again.
Qed.

(** The members that are sent, from a channel. *)
Definition sent (c : Channel) (id : Z) (setting settings : jstring) : members :=
  [(js "id", number_value id); (js "name", null_if_empty (ch_name c)); (js "type", number_value (ch_type c));
   (js "base_url", JStr (normalizeBaseUrl (text (ch_base_url c)))); (js "openai_organization", JStr (text (ch_openai_organization c)));
   (js "models", null_if_empty (ch_models c)); (js "group", null_if_empty (formatGroups (parseGroups (jor (ch_group c) (js "default")))));
   (js "model_mapping", JStr (text (ch_model_mapping c))); (js "priority", number_value (zero (ch_priority c)));
   (js "weight", number_value (zero (ch_weight c))); (js "test_model", JStr (text (ch_test_model c)));
   (js "auto_ban", number_value (coalesce (ch_auto_ban c) 1)); (js "status_code_mapping", JStr (text (ch_status_code_mapping c)));
   (js "tag", JStr (text (ch_tag c))); (js "remark", JStr (ch_remark c)); (js "setting", null_if_empty setting);
   (js "param_override", JStr (text (ch_param_override c))); (js "header_override", JStr (text (ch_header_override c)));
   (js "settings", null_if_empty settings); (js "other", null_if_empty (ch_other c))].

Lemma sent_update c id setting settings : update_payload (transformChannelToFormDefaults c) id setting settings = sent c id setting settings.
Proof. by rewrite update_list. Qed.

(** The channel after it took them. *)
Lemma saved_sent c id setting settings : saved c (sent c id setting settings) =
  {| ch_name := ch_name c; ch_type := ch_type c; ch_base_url := Some (normalizeBaseUrl (text (ch_base_url c)));
     ch_openai_organization := Some (text (ch_openai_organization c)); ch_models := ch_models c;
     ch_group := match null_if_empty (formatGroups (parseGroups (jor (ch_group c) (js "default")))) with JStr w => w | _ => ch_group c end;
     ch_model_mapping := Some (text (ch_model_mapping c)); ch_priority := Some (zero (ch_priority c)); ch_weight := Some (zero (ch_weight c));
     ch_test_model := Some (text (ch_test_model c)); ch_auto_ban := Some (coalesce (ch_auto_ban c) 1); ch_status := ch_status c;
     ch_status_code_mapping := Some (text (ch_status_code_mapping c)); ch_tag := Some (text (ch_tag c)); ch_remark := ch_remark c;
     ch_setting := match null_if_empty setting with JStr w => Some w | _ => ch_setting c end;
     ch_param_override := Some (text (ch_param_override c)); ch_header_override := Some (text (ch_header_override c));
     ch_settings := match null_if_empty settings with JStr w => w | _ => ch_settings c end; ch_other := ch_other c;
     ch_multi_key_mode := ch_multi_key_mode c |}.
Proof.
  unfold saved. f_equal; try reflexivity; [transitivity (match null_if_empty (ch_name c) with JStr w => w | _ => ch_name c end)|
    transitivity (match null_if_empty (ch_models c) with JStr w => w | _ => ch_models c end)|
    transitivity (match null_if_empty (ch_other c) with JStr w => w | _ => ch_other c end)]; try reflexivity; apply kept_text.
Qed.

Lemma sent_again c id setting settings : good_channel c -> sent (saved c (sent c id setting settings)) id setting settings = sent c id setting settings.
Proof.
  intros Hc. pose proof (group_kept (ch_group c)) as Hg. pose proof (solid_stable _ (g_base c Hc)) as Hb. cbv zeta in Hg.
  rewrite saved_sent. unfold sent.
  cbn [ch_name ch_type ch_base_url ch_openai_organization ch_models ch_group ch_model_mapping ch_priority ch_weight ch_test_model ch_auto_ban
    ch_status ch_status_code_mapping ch_tag ch_remark ch_param_override ch_header_override ch_other text zero coalesce from_option Datatypes.id].
  by rewrite Hg, Hb.
Qed.

(** C21. Saving twice is saving once, for a channel as the server keeps it: when the form is opened on it and submitted as it is, what
    is sent is taken by the server, and when the form is opened again and submitted as it is, the same is sent, down to the two JSON
    texts - members the form does not know, numbers, the order of members and a configuration of routes included.  As the server
    keeps it means ([good_channel]): the settings are empty or the JSON of an object, the setting is empty or JSON, both with numbers
    that are read back; the list of ignored models in the one can be joined to a text, and the proxy and the plugin key in the other are texts or nothing;
    and no blank stands before a slash of the address ([solid_address]; base_url_unstable is an address with one, which is another
    after each save). *)
Theorem saving_again (c : Channel) (id : Z) : good_channel c ->
  exists p, transformFormDataToUpdatePayload (transformChannelToFormDefaults c) id = Ret p /\
    transformFormDataToUpdatePayload (transformChannelToFormDefaults (saved c p)) id = Ret p.
Proof.
  intros Hc. set (f := transformChannelToFormDefaults c).
  destruct (opened_settings c Hc) as (fs & Hst & Hs & Hp & Hi). fold f in Hst, Hs.
  destruct (setting_written f _ (load_shows_extra c) (good_extra_channel c Hc)) as (gs & Hgs & Hgp).
  pose proof (settings_plain f fs Hs Hp) as Hp1. remember (settings_members f fs) as fs1 eqn:Efs1.
  destruct (object_text gs) as (u & s & Et). destruct (object_text fs1) as (u' & s' & Et').
  exists (sent c id (u :: s) (u' :: s')). unfold transformFormDataToUpdatePayload, buildSettingJSON, buildSettingsJSON.
  rewrite Hgs, Hst. cbn [ebind]. rewrite <- Efs1, Et, Et'. cbn [ebind]. split; [unfold f; by rewrite sent_update|].
  set (c' := saved c (sent c id (u :: s) (u' :: s'))). set (f' := transformChannelToFormDefaults c').
  assert (ch_type c' = ch_type c /\ ch_setting c' = Some (u :: s) /\ ch_settings c' = u' :: s') as (Ey & Ex & Es) by (subst c'; by rewrite saved_sent).
  assert (JSON_parse (u' :: s') = Ret (JObj fs1)) as Hparse by (rewrite <- Et'; by apply parse_stringify, plain_members_obj).
  assert (shows f' (JObj fs1)) as Hs'.
  { pose proof (load_shows c') as H. rewrite Es in H. unfold other_settings in H. by rewrite Hparse in H. }
  assert (setting_members f' = Ret gs) as ->.
  { eapply setting_again; [exact Hgs|done| |exact Ey]. pose proof (load_shows_extra c') as H. by rewrite Ex, <- Et in H. }
  assert (stored_settings (f_settings f') = JObj fs1) as ->.
  { change (f_settings f') with (jor (ch_settings c') (js "{}")). rewrite Es. by apply stored_parsed. }
  assert (settings_members f' fs1 = fs1) as -> by (subst fs1; by apply (settings_again f f' fs)).
  cbn [ebind]. rewrite Et, Et'. unfold f'. rewrite sent_update. f_equal. by apply sent_again.
Qed.

(** The members that belong to types of channels, and the types. *)
Definition members_of_types : list (string * (Z -> bool)) :=
  [("vertex_key_type"%string, Z.eqb 41); ("openrouter_enterprise"%string, Z.eqb 20); ("aws_key_type"%string, Z.eqb 33);
   ("allow_service_tier"%string, has_type [1; 14; 57; 58; 60; 61]); ("disable_store"%string, has_type [1; 57; 58; 60; 61]);
   ("allow_safety_identifier"%string, has_type [1; 57; 58; 60; 61]); ("allow_include_obfuscation"%string, has_type [1; 57; 58; 60; 61]);
   ("allow_inference_geo"%string, has_type [1; 14; 57; 58; 60; 61]); ("allow_speed"%string, has_type [14; 58; 60; 61]);
   ("claude_beta_query"%string, Z.eqb 14)].

(** A channel keeps no setting of another type: whatever the settings held and whatever the form says, a member that
    belongs to some types of channels is written exactly for these - a changed type leaves nothing behind. *)
Theorem settings_follow_type (f : ChannelFormValues) (fs : members) (k : string) (types : Z -> bool) :
  (k, types) ∈ members_of_types -> is_Some (assoc (js k) (settings_members f fs)) <-> types (f_type f) = true.
Proof.
  assert (forall (b c : bool) (v : jsval), b = c -> is_Some (if b then Some v else None) <-> c = true) as Hb.
  { intros b c v <-. destruct b; split; try done; by intros []. }
  assert (has_type OPENAI_FIELD_PASSTHROUGH_TYPES (f_type f) || has_type CLAUDE_FIELD_PASSTHROUGH_TYPES (f_type f) =
    has_type [1; 14; 57; 58; 60; 61] (f_type f)) as Hgeo.
  { unfold has_type, OPENAI_FIELD_PASSTHROUGH_TYPES, CLAUDE_FIELD_PASSTHROUGH_TYPES, CHANNEL_TYPE_NEW_API. cbn [existsb].
    destruct (f_type f =? 1), (f_type f =? 14), (f_type f =? 57), (f_type f =? 58), (f_type f =? 60), (f_type f =? 61); done. }
  unfold members_of_types. rewrite !elem_of_cons, elem_of_nil. intros H.
  repeat (destruct H as [[= -> ->] | H]; [
    unfold settings_members, aws_setting, openrouter_setting, azure_setting, vertex_setting, passthrough_settings; cbv zeta; at_step;
    apply Hb; first [done | apply Z.eqb_sym | exact Hgeo] |]). done.
Qed.

(** A valid form has both texts. *)
Lemma valid_setting parse_url URL f : channelFormSchema parse_url URL f = true -> exists gs, setting_members f = Ret gs.
Proof.
  unfold channelFormSchema, fields_ok. rewrite !andb_true_iff. intros H. destruct_and?. unfold setting_members.
  assert (exists w, trim_optional (f_task_plugin_key f) = Ret w) as (w1 & ->) by (destruct (f_task_plugin_key f); try done; by eexists).
  assert (exists w, trim_optional (f_proxy f) = Ret w) as (w2 & ->) by (destruct (f_proxy f); try done; by eexists).
  assert (exists w, normalizeHttpProtocol (JStr (f_http_protocol f)) = Ret w) as (w3 & ->)
    by (unfold normalizeHttpProtocol; destruct (f_http_protocol f); by eexists).
  assert (exists w n, normalizeHttp2ConnectionShards (f_http2_connection_shards f) = Ret w /\ number_of w = Ret n) as (w4 & n4 & E4 & N4).
  { destruct (f_http2_connection_shards f) as [| | |[| |q]| | |]; try done; [by eexists _, _|].
    unfold normalizeHttp2ConnectionShards. cbn [number_of ebind]. destruct (negb (num_truthy (Fin q))); [by eexists _, _|].
    destruct (num_ltb (Fin q) _); [by eexists _, _|]. destruct (num_ltb _ (Fin q)); by eexists _, _. }
  destruct (f_type f =? CHANNEL_TYPE_TASK_PLUGIN); cbn [ebind]; destruct (jeqb w3 _); cbn [ebind];
    rewrite ?E4; cbn [ebind]; rewrite ?N4; by eexists.
Qed.

Lemma valid_settings parse_url URL f : channelFormSchema parse_url URL f = true -> exists fs, stored_settings (f_settings f) = JObj fs.
Proof.
  unfold channelFormSchema, fields_ok. rewrite !andb_true_iff. intros H. destruct_and?.
  match goal with H : isOptionalJsonObject (f_settings f) = true |- _ => unfold isOptionalJsonObject, parseOptionalJson in H; rename H into Hj end.
  unfold stored_settings. destruct (truthy (f_settings f) && _) eqn:Et; [|by eexists].
  destruct (JSON_parse (f_settings f)) as [v|] eqn:Ep; cbn [catch]; [|by eexists].
  destruct (truthy (trim (f_settings f))) eqn:Eb; cbn [ebind catch] in Hj.
  - destruct v; try done; [by destruct (parse_defined (f_settings f))|by eexists].
  - by rewrite blank_no_json in Ep.
Qed.

(** A form without issues is sent: nothing on the way throws, when a channel is created and when it is changed, and the two
    texts that are sent are texts of JSON objects. *)
Theorem valid_form_submits (parse_url : jstring -> option parsed_url) (URL : jstring -> option (jstring * jstring))
    (f : ChannelFormValues) (id : Z) : channelFormSchema parse_url URL f = true ->
  exists gs fs p c, transformFormDataToUpdatePayload f id = Ret p /\ transformFormDataToCreatePayload f = Ret c /\
    assoc (js "setting") p = Some (JStr (JSON_stringify (JObj gs))) /\ assoc (js "settings") p = Some (JStr (JSON_stringify (JObj fs))) /\
    assoc (js "setting") (create_channel c) = Some (JStr (JSON_stringify (JObj gs))) /\
    assoc (js "settings") (create_channel c) = Some (JStr (JSON_stringify (JObj fs))).
Proof.
  intros H. destruct (valid_setting _ _ _ H) as [gs Hgs]. destruct (valid_settings _ _ _ H) as [fs Hfs].
  destruct (object_text gs) as (u & s & Eg). destruct (object_text (settings_members f fs)) as (u' & s' & Ef).
  unfold transformFormDataToUpdatePayload, transformFormDataToCreatePayload, buildSettingJSON, buildSettingsJSON.
  rewrite Hgs, Hfs. cbn [ebind]. rewrite Eg, Ef.
  exists gs, (settings_members f fs). eexists _, _. split; [done|]. split; [done|]. rewrite Eg, Ef.
  unfold update_payload. destruct (truthy (f_key f) && truthy (trim (f_key f))); split_and!; reflexivity.
Qed.

(** ** On concrete channels *)

Definition sample_settings : members :=
  [(js "tool_loss_policy", JStr (js "safe")); (js "vertex_key_type", JStr (js "api_key")); (js "aws_key_type", JStr (js "ak_sk"));
   (js "upstream_model_update_ignored_models", JArr [JStr (js "a"); JStr (js "b , c")])].
Definition sample_setting : jsval :=
  JObj [(js "proxy", JStr (js " http://proxy ")); (js "http2_connection_shards", JNum (num_of_Z 4)); (js "http_protocol", JNull)].

Definition sample_channel : Channel :=
  {| ch_name := js "Vertex"; ch_type := 41; ch_base_url := Some (js " https://example.com// "); ch_openai_organization := None;
     ch_models := js "gemini"; ch_group := js " vip, default"; ch_model_mapping := None; ch_priority := None; ch_weight := Some 3;
     ch_test_model := None; ch_auto_ban := None; ch_status := 1; ch_status_code_mapping := None; ch_tag := Some (js "t"); ch_remark := [];
     ch_setting := Some (JSON_stringify sample_setting); ch_param_override := None; ch_header_override := None;
     ch_settings := JSON_stringify (JObj sample_settings); ch_other := js "us"; ch_multi_key_mode := [] |}.

(** What the form makes of the settings: the key type of Vertex stays, that of AWS goes, what it does not know stays. *)
Example sample_saved : settings_members (transformChannelToFormDefaults sample_channel) sample_settings =
  [(js "tool_loss_policy", JStr (js "safe")); (js "vertex_key_type", JStr (js "api_key"));
   (js "upstream_model_update_ignored_models", JArr [JStr (js "a"); JStr (js "b , c")]); (js "disable_task_polling_sleep", JBool false)].
Proof. by vm_compute. Qed.

(** An address that ends in a blank and a slash is another one after each save. *)
Example base_url_unstable : normalizeBaseUrl (js "https://example.com /") = js "https://example.com " /\
  normalizeBaseUrl (normalizeBaseUrl (js "https://example.com /")) = js "https://example.com".
Proof. by vm_compute. Qed.

Lemma sample_plain : plain_members sample_settings /\ plain_json sample_setting.
Proof.
  split; [split; [decided|]|constructor; [decided|]]; repeat apply Forall_cons_2; try apply Forall_nil_2; cbn; auto with plain.
  constructor. by apply readable_whole.
Qed.

Lemma sample_good : good_channel sample_channel.
Proof.
  destruct sample_plain as [H1 H2]. split.
  - right. exists sample_settings. split; [by apply parse_stringify, plain_members_obj|]. by split.
  - intros t [= <-]. right. exists sample_setting. split; [by apply parse_stringify|]. split; [done|]. split; [right; by eexists|by left].
  - apply no_blanks_solid, (bool_decide_unpack _). by vm_compute.
Qed.

Lemma saving_again_witness : exists p, transformFormDataToUpdatePayload (transformChannelToFormDefaults sample_channel) 7 = Ret p /\
  transformFormDataToUpdatePayload (transformChannelToFormDefaults (saved sample_channel p)) 7 = Ret p.
Proof. apply (saving_again sample_channel 7). exact sample_good. Defined.

Lemma settings_follow_type_witness : is_Some (assoc (js "aws_key_type") (settings_members CHANNEL_FORM_DEFAULT_VALUES sample_settings)) <->
  (33 =? 1) = true.
Proof. apply (settings_follow_type CHANNEL_FORM_DEFAULT_VALUES sample_settings "aws_key_type" (Z.eqb 33)). right. right. by left. Defined.

Definition valid_form : ChannelFormValues := transformChannelToFormDefaults
  {| ch_name := js "Own"; ch_type := 1; ch_base_url := None; ch_openai_organization := None; ch_models := js "gpt"; ch_group := js "default";
     ch_model_mapping := None; ch_priority := None; ch_weight := None; ch_test_model := None; ch_auto_ban := None; ch_status := 1;
     ch_status_code_mapping := None; ch_tag := None; ch_remark := []; ch_setting := None; ch_param_override := None; ch_header_override := None;
     ch_settings := []; ch_other := []; ch_multi_key_mode := [] |}.

Lemma valid_form_submits_witness : exists gs fs p c, transformFormDataToUpdatePayload valid_form 7 = Ret p /\
  transformFormDataToCreatePayload valid_form = Ret c /\
  assoc (js "setting") p = Some (JStr (JSON_stringify (JObj gs))) /\ assoc (js "settings") p = Some (JStr (JSON_stringify (JObj fs))) /\
  assoc (js "setting") (create_channel c) = Some (JStr (JSON_stringify (JObj gs))) /\
  assoc (js "settings") (create_channel c) = Some (JStr (JSON_stringify (JObj fs))).
Proof. apply (valid_form_submits (fun _ => None) (fun _ => None) valid_form 7). by vm_compute. Defined.
