(* ===== verification/ModelMapping.v ===== *)
(** * Names of models, and what a channel maps

    features/channels/lib/model-mapping-validation.ts and status-code-risk-guard.ts: what the drawer of a channel looks at before it sends
    the form - the models a mapping names and the channel does not have, the redirected models the channel shows although they
    are mapped to, and the status codes that a mapping may not turn into others. *)

From S2P Require Import Prelude JsValue JsText JsonText JsonPretty JsObject AdvancedCustom AdvancedCustomText ChannelForm.
From Stdlib Require Import Qround.
#[global] Open Scope Z_scope.

(** ** Models *)

Definition parseModelsString (modelsStr : jstring) : list jstring :=
  if truthy modelsStr then List.filter truthy (map trim (split_on ch_comma modelsStr)) else [].

Definition formatModelsArray (models : list jstring) : jstring := join (js ",") (uniq models).

Definition normalizeModelName (model : jstring) : jstring := trim model.

(** The members of the mapping, where the text is that of an object. *)
Definition mapping_members (text : jstring) : option members :=
  match JSON_parse text with Ret (JObj fs) => Some fs | _ => None end.

Definition extractMappingSourceModels (modelMapping : jstring) : list jstring :=
  let trimmed := trim modelMapping in
  if negb (truthy trimmed) then []
  else match mapping_members trimmed with
       | Some parsed => uniq (List.filter truthy (map trim (map fst parsed)))
       | None => []
       end.

(** What a member redirects to: its text without blanks, unless it is no text. *)
Definition target_of (value : jsval) : jstring := match value with JStr s => trim s | _ => [] end.

Definition extractRedirectModels (modelMapping : jstring) : list jstring :=
  let trimmed := trim modelMapping in
  if negb (truthy trimmed) then []
  else match mapping_members trimmed with
       | Some parsed => uniq (List.filter truthy (map target_of (map snd parsed)))
       | None => []
       end.

(** Compared element by element once the lengths agree. *)
Fixpoint some_differs (a b : list jstring) : bool :=
  match a, b with
  | x :: a', y :: b' => negb (jeqb x y) || some_differs a' b'
  | _, _ => false
  end.

Definition hasModelConfigChanged (currentModels : list jstring) (currentModelMapping : jstring)
    (initialModels : list jstring) (initialModelMapping : jstring) : bool :=
  if (length initialModels =? 0)%nat && negb (truthy initialModelMapping) then true
  else if negb (length currentModels =? length initialModels)%nat then true
  else if some_differs currentModels initialModels then true
  else negb (jeqb (trim currentModelMapping) (trim initialModelMapping)).

Definition findMissingModelsInMapping (modelMapping : jstring) (currentModels : list jstring) : list jstring :=
  if negb (truthy modelMapping) || negb (truthy (trim modelMapping)) then []
  else match mapping_members modelMapping with
       | None => []
       | Some parsedMapping =>
           let modelSet := map normalizeModelName currentModels in
           uniq (List.filter (fun key => truthy key && negb (bool_decide (key ∈ modelSet))) (map normalizeModelName (map fst parsedMapping)))
       end.

Record Validation := { valid : bool; validation_error : option jstring }.

Definition validateModelMappingJson (modelMapping : jstring) : Validation :=
  if negb (truthy modelMapping) || negb (truthy (trim modelMapping)) then {| valid := true; validation_error := None |}
  else match JSON_parse modelMapping with
       | Ret (JObj parsed) =>
           if existsb (fun f => negb (isString f.2)) parsed
           then {| valid := false; validation_error := Some (js "Model mapping values must be strings") |}
           else {| valid := true; validation_error := None |}
       | Ret _ => {| valid := false; validation_error := Some (js "Model mapping must be a valid JSON object") |}
       | Throw => {| valid := false; validation_error := Some (js "Model mapping must be valid JSON format") |}
       end.

Definition findExposedTargetModels (modelMapping : jstring) (currentModels : list jstring) : list jstring :=
  let redirectModels := extractRedirectModels modelMapping in
  let modelSet := map normalizeModelName currentModels in
  List.filter (fun model => bool_decide (normalizeModelName model ∈ modelSet)) redirectModels.

(** Sets are lists without repetitions, in the order of insertion. *)
Record Categories := {
  normalizedCurrentModels : list jstring; normalizedRedirectModels : list jstring; classificationSet : list jstring;
  redirectOnlySet : list jstring
}.

Definition categorizeModelsWithRedirect (currentModels redirectModels : list jstring) : Categories :=
  let current := uniq (List.filter truthy (map normalizeModelName currentModels)) in
  let redirect := uniq (List.filter truthy (map normalizeModelName redirectModels)) in
  {| normalizedCurrentModels := current; normalizedRedirectModels := redirect;
     classificationSet := uniq (current ++ redirect);
     redirectOnlySet := List.filter (fun m => negb (bool_decide (m ∈ current))) redirect |}.

(** ** Status codes *)

Definition NON_REDIRECTABLE_STATUS_CODES : list Z := [504; 524].

(** [/^[1-5]\d{2}$/] *)
Definition three_digits (s : jstring) : bool :=
  match s with [a; b; c] => (49 <=? a)%N && (a <=? 53)%N && is_digit b && is_digit c | _ => false end.

Definition parseStatusCodeKey (rawKey : jstring) : option Z :=
  let normalized := trim rawKey in
  if three_digits normalized then Some (Z.of_N (dec_val normalized)) else None.

Definition parseStatusCodeMappingTarget (rawValue : jsval) : option Z :=
  match rawValue with
  | JNum (Fin q) =>
      if isInteger (Fin q) then if within 100 599 (Fin q) then Some (Qfloor q) else None else None
  | JStr s =>
      let normalized := trim s in
      if three_digits normalized
      then let code := Z.of_N (dec_val normalized) in if (100 <=? code) && (code <=? 599) then Some code else None
      else None
  | _ => None
  end.

(** The members of the mapping; nothing where the text is blank or no object. *)
Definition status_members (statusCodeMappingStr : jstring) : members :=
  if negb (truthy (trim statusCodeMappingStr)) then [] else coalesce (mapping_members statusCodeMappingStr) [].

(** The text of a value may throw: that of an object with a member toString. *)
Fixpoint invalid_entries (entries : members) : exc (list jstring) :=
  match entries with
  | [] => Ret []
  | (rawKey, rawValue) :: rest =>
      match parseStatusCodeKey rawKey, parseStatusCodeMappingTarget rawValue with
      | Some _, Some _ => invalid_entries rest
      | _, _ =>
          ebind (String_of rawValue) (fun shown =>
          ebind (invalid_entries rest) (fun more => Ret ((rawKey ++ [32%N; 8594%N; 32%N] ++ shown) :: more)))
      end
  end.

Definition collectInvalidStatusCodeEntries (statusCodeMappingStr : jstring) : exc (list jstring) :=
  invalid_entries (status_members statusCodeMappingStr).

(** The redirect an entry makes of a code that may not be redirected. *)
Definition risky (entry : jstring * jsval) : list jstring :=
  match parseStatusCodeKey entry.1, parseStatusCodeMappingTarget entry.2 with
  | Some fromCode, Some toCode =>
      if has_type NON_REDIRECTABLE_STATUS_CODES fromCode && negb (fromCode =? toCode)
      then [dec_of_Z fromCode ++ js " -> " ++ dec_of_Z toCode] else []
  | _, _ => []
  end.

Definition collectDisallowedStatusCodeRedirects (statusCodeMappingStr : jstring) : list jstring :=
  js_sort unitCompare (uniq (flat_map risky (status_members statusCodeMappingStr))).

Definition collectNewDisallowedStatusCodeRedirects (originalStr currentStr : jstring) : list jstring :=
  let originalRiskySet := collectDisallowedStatusCodeRedirects originalStr in
  List.filter (fun mapping => negb (bool_decide (mapping ∈ originalRiskySet))) (collectDisallowedStatusCodeRedirects currentStr).

(** ** Lists of models as text *)

Lemma parseModelsString_names s : parseModelsString s = List.filter truthy (map trim (split_on ch_comma s)).
Proof. by destruct s. Qed.

Lemma models_clean s : Forall clean_name (parseModelsString s).
Proof. rewrite parseModelsString_names. apply names_clean. Qed.

Lemma models_read_back l : Forall clean_name l -> parseModelsString (formatModelsArray l) = uniq l.
Proof. intros H. rewrite parseModelsString_names. unfold formatModelsArray. apply names_joined. by apply uniq_Forall. Qed.

(** Clean names are what they are compared by. *)
Lemma clean_normal l : Forall clean_name l -> map normalizeModelName l = l.
Proof. induction 1 as [|x l (_ & Hx & _) _ IH]; [done|]. cbn. unfold normalizeModelName at 1. by rewrite Hx, IH. Qed.

(** ** What is missing, what is exposed *)

Lemma mapping_members_blank s : truthy (trim s) = false -> mapping_members s = None.
Proof. intros H. unfold mapping_members. by rewrite blank_no_json. Qed.

Lemma blank_empty s : truthy (trim s) = true -> truthy s = true.
Proof. by destruct s. Qed.

(** The cases of [findMissingModelsInMapping] without its early returns. *)
Lemma findMissing_members s current : findMissingModelsInMapping s current =
  match mapping_members s with
  | Some fs => uniq (List.filter (fun key => truthy key && negb (bool_decide (key ∈ map normalizeModelName current))) (map trim (map fst fs)))
  | None => []
  end.
Proof.
  unfold findMissingModelsInMapping. destruct (truthy (trim s)) eqn:Et.
  - rewrite (blank_empty _ Et). done.
  - rewrite orb_true_r. by rewrite mapping_members_blank.
Qed.

Lemma missing_elem s current m : m ∈ findMissingModelsInMapping s current <->
  exists fs, mapping_members s = Some fs /\ truthy m = true /\ m ∈ map trim (map fst fs) /\ m ∉ map normalizeModelName current.
Proof.
  rewrite findMissing_members. destruct (mapping_members s) as [fs|]; [|split; [by intros []%elem_of_nil|by intros (fs & [=] & _)]].
  rewrite uniq_elem. rewrite list_elem_of_In, filter_In, <- list_elem_of_In, andb_true_iff, negb_true_iff, bool_decide_eq_false.
  split; [intros (H1 & H2 & H3); by exists fs|]. by intros (fs' & [= <-] & H1 & H2 & H3).
Qed.

Lemma target_elem (fs : members) m : truthy m = true -> m ∈ map target_of (map snd fs) <-> exists k s, (k, JStr s) ∈ fs /\ trim s = m.
Proof.
  intros Hm. rewrite map_map, list_elem_of_In, in_map_iff. split.
  - intros ([k v] & <- & Hk). destruct v; try done. exists k, s. by rewrite list_elem_of_In.
  - intros (k & s & Hk & <-). exists (k, JStr s). by rewrite <- list_elem_of_In.
Qed.

(** A model that a mapping redirects to and that the channel shows all the same. *)
Lemma exposed_elem s current m : m ∈ findExposedTargetModels s current <->
  exists fs, mapping_members (trim s) = Some fs /\ truthy m = true /\ m ∈ map normalizeModelName current /\
    exists k v, (k, JStr v) ∈ fs /\ trim v = m.
Proof.
  unfold findExposedTargetModels. rewrite list_elem_of_In, filter_In, <- list_elem_of_In, bool_decide_eq_true.
  unfold extractRedirectModels. destruct (truthy (trim s)) eqn:Et; cbn [negb].
  - destruct (mapping_members (trim s)) as [fs|]; [|split; [by intros [[]%elem_of_nil _]|by intros (fs & [=] & _)]].
    rewrite uniq_elem, list_elem_of_In, filter_In, <- list_elem_of_In. split.
    + intros ((H1 & H2) & H3). exists fs. pose proof (proj1 (target_elem fs m H2) H1) as (k & v & Hk & <-).
      unfold normalizeModelName at 1 in H3. rewrite trim_idem in H3. split_and!; try done. by exists k, v.
    + intros (fs' & [= <-] & Hm & H3 & k & v & Hk & E). split; [split; [|done]|].
      * apply target_elem; [done|]. by exists k, v.
      * subst m. unfold normalizeModelName at 1. by rewrite trim_idem.
  - split; [by intros [[]%elem_of_nil _]|]. intros (fs & Hf & _). by rewrite mapping_members_blank in Hf by (by rewrite trim_idem).
Qed.

(** The drawer and the schema of the form take the same mappings. *)
Lemma validators_agree s : valid (validateModelMappingJson s) = isOptionalModelMapping s.
Proof.
  unfold validateModelMappingJson, isOptionalModelMapping, parseOptionalJson. destruct (truthy (trim s)) eqn:Et.
  - rewrite (blank_empty _ Et). cbn [negb orb]. pose proof (parse_defined s) as Hd. destruct (JSON_parse s) as [[]|]; try done.
    cbn [ebind catch]. assert (existsb (fun f : jstring * jsval => negb (isString f.2)) fields = negb (forallb (fun f => isString f.2) fields)) as ->.
    { induction fields as [|f l IH]; [done|]. cbn. rewrite negb_andb. by rewrite IH. }
    by destruct (forallb _ _).
  - by rewrite orb_true_r.
Qed.

(** The answer "add" of the drawer: the missing models join the list, as text. *)
Definition with_missing (models missing : list jstring) : jstring := formatModelsArray (uniq (models ++ missing)).

(** The names of a mapping that can stand in a list of models: no comma divides them. *)
Definition listable (fs : members) : Prop := Forall (fun f => Forall (fun c => c <> ch_comma) f.1) fs.

Lemma missing_clean s current fs : mapping_members s = Some fs -> listable fs -> Forall clean_name (findMissingModelsInMapping s current).
Proof.
  intros Hs Hl. apply List.Forall_forall. intros m Hm. apply list_elem_of_In, missing_elem in Hm as (fs' & Hf & Ht & Hm & _).
  rewrite Hs in Hf. injection Hf as <-. apply list_elem_of_In, in_map_iff in Hm as (k & <- & Hk).
  apply in_map_iff in Hk as (f & <- & Hf). split; [|split; [apply trim_idem|done]]. apply trim_free.
  unfold listable in Hl. rewrite List.Forall_forall in Hl. auto.
Qed.

(** Adding what is missing leaves nothing missing, and keeps the models in their order, before those that are added. *)
Lemma adding_settles s models fs : mapping_members s = Some fs -> listable fs -> Forall clean_name models ->
  let text := with_missing models (findMissingModelsInMapping s models) in
  findMissingModelsInMapping s (parseModelsString text) = [] /\
  forall m, m ∈ parseModelsString text <-> m ∈ models \/ m ∈ findMissingModelsInMapping s models.
Proof.
  intros Hs Hl Hm text. set (missing := findMissingModelsInMapping s models).
  assert (Forall clean_name (uniq (models ++ missing))) as Hc.
  { apply uniq_Forall, Forall_app. split; [done|]. by eapply missing_clean. }
  assert (forall m, m ∈ parseModelsString text <-> m ∈ models \/ m ∈ missing) as He.
  { intros m. unfold text, with_missing. fold missing. rewrite models_read_back by done. by rewrite !uniq_elem, elem_of_app. }
  split; [|done]. destruct (findMissingModelsInMapping s (parseModelsString text)) as [|m l] eqn:E; [done|exfalso].
  assert (m ∈ findMissingModelsInMapping s (parseModelsString text)) as H by (rewrite E; by left).
  apply missing_elem in H as (fs' & Hf & Ht & Hk & Hn). apply Hn.
  rewrite clean_normal by apply models_clean. apply He.
  destruct (decide (m ∈ models)) as [Hi|Hi]; [by left|right]. apply missing_elem. exists fs'.
  rewrite (clean_normal models) by done. exact (conj Hf (conj Ht (conj Hk Hi))).
Qed.

(** A configuration counts as unchanged only with the same models in the same order and the same mapping up to blanks. *)
Lemma some_differs_spec a : forall b, length a = length b -> some_differs a b = false <-> a = b.
Proof.
  induction a as [|x a IH]; intros [|y b] Hl; try done. cbn. rewrite orb_false_iff, negb_false_iff, jeqb_eq.
  rewrite IH by (by injection Hl). split; [by intros [-> ->]|by intros [= -> ->]].
Qed.

Lemma unchanged_spec current m initial m0 : hasModelConfigChanged current m initial m0 = false <->
  (initial <> [] \/ m0 <> []) /\ current = initial /\ trim m = trim m0.
Proof.
  unfold hasModelConfigChanged. destruct ((length initial =? 0)%nat && negb (truthy m0)) eqn:E1.
  - split; [done|]. apply andb_true_iff in E1 as [H1%Nat.eqb_eq H2%negb_true_iff].
    apply truthy_false in H2. destruct initial; [|done]. intros [[H|H] _]; congruence.
  - assert (initial <> [] \/ m0 <> []) as Hn.
    { apply andb_false_iff in E1 as [H|H]; [left; by intros ->|right; by intros ->]. }
    destruct (length current =? length initial)%nat eqn:E2; cbn [negb].
    + apply Nat.eqb_eq in E2. pose proof (some_differs_spec current initial E2) as Hd. destruct (some_differs current initial).
      * split; [done|]. intros (_ & H & _). apply Hd in H. done.
      * rewrite negb_false_iff, jeqb_eq. split; [intros H; by rewrite (proj1 Hd)|by intros (_ & _ & H)].
    + split; [done|]. intros (_ & -> & _). by rewrite Nat.eqb_refl in E2.
Qed.

(** The redirected models that are no models of the channel complete its models to what is classified. *)
Lemma categories_split current redirect m : let c := categorizeModelsWithRedirect current redirect in
  m ∈ classificationSet c <-> (m ∈ normalizedCurrentModels c \/ m ∈ redirectOnlySet c).
Proof.
  cbn [categorizeModelsWithRedirect classificationSet normalizedCurrentModels redirectOnlySet]. rewrite uniq_elem, elem_of_app.
  set (a := uniq _). set (b := uniq (List.filter truthy (map normalizeModelName redirect))).
  rewrite !list_elem_of_In, filter_In, negb_true_iff, bool_decide_eq_false, list_elem_of_In.
  destruct (in_dec (List.list_eq_dec N.eq_dec) m a); tauto.
Qed.

(** ** Status codes *)

Definition all_codes : list jstring :=
  flat_map (fun a => flat_map (fun b => map (fun c => [a; b; c]) (js "0123456789")) (js "0123456789")) (js "12345").

Lemma digit_listed c : is_digit c = true -> In c (js "0123456789").
Proof.
  unfold is_digit. rewrite andb_true_iff, !N.leb_le. intros H. change (js "0123456789") with (map N.of_nat (seq 48 10)).
  apply in_map_iff. exists (N.to_nat c). rewrite N2Nat.id, in_seq. split; [done|lia].
Qed.

Lemma code_listed s : three_digits s = true -> In s all_codes.
Proof.
  destruct s as [|a [|b [|c [|d s]]]]; try done. cbn [three_digits]. rewrite !andb_true_iff, !N.leb_le. intros (((H1 & H2) & H3) & H4).
  apply in_flat_map. exists a. split.
  - change (js "12345") with (map N.of_nat (seq 49 5)). apply in_map_iff. exists (N.to_nat a). rewrite N2Nat.id, in_seq. split; [done|lia].
  - apply in_flat_map. exists b. split; [by apply digit_listed|]. by apply (in_map (fun c => [a; b; c])), digit_listed.
Qed.

Lemma codes_are_numbers : forallb (fun s => let n := Z.of_N (dec_val s) in
  num_eqb (Number s) (num_of_Z n) && http_code (Number s) && (100 <=? n) && (n <=? 599)) all_codes = true.
Proof. by vm_compute. Qed.

Lemma Number_trim s : Number s = Number (trim s).
Proof. unfold Number. by rewrite trim_idem. Qed.

Lemma key_code s n : parseStatusCodeKey s = Some n -> http_code (Number s) = true /\ 100 <= n <= 599.
Proof.
  unfold parseStatusCodeKey. destruct (three_digits (trim s)) eqn:E; [|done]. intros [= <-]. rewrite Number_trim.
  apply code_listed in E. pose proof codes_are_numbers as H. rewrite forallb_forall in H. specialize (H _ E). cbv zeta in H.
  rewrite !andb_true_iff, !Z.leb_le in H. tauto.
Qed.

Lemma target_code v n : parseStatusCodeMappingTarget v = Some n -> exists m, number_of v = Ret m /\ http_code m = true.
Proof.
  destruct v as [| | |[| |q]|s| |]; try done; cbn [parseStatusCodeMappingTarget].
  - destruct (isInteger (Fin q)) eqn:E1; [|done]. destruct (within 100 599 (Fin q)) eqn:E2; [|done]. intros _.
    exists (Fin q). split; [done|]. unfold http_code. by rewrite E1, E2.
  - intros H. exists (Number s). split; [done|]. apply (key_code s (Z.of_N (dec_val (trim s)))).
    unfold parseStatusCodeKey. by destruct (three_digits (trim s)).
Qed.

(** An entry the drawer takes is one the schema takes. *)
Lemma drawer_stricter fs : invalid_entries fs = Ret [] -> every_code fs = Ret true.
Proof.
  induction fs as [|[k v] fs IH]; [done|]. cbn [invalid_entries every_code].
  destruct (parseStatusCodeKey k) as [a|] eqn:Ek; [destruct (parseStatusCodeMappingTarget v) as [b|] eqn:Ev|].
  - intros H. destruct (target_code v b Ev) as (m & -> & Hm). destruct (key_code k a Ek) as [Hk _]. cbn [ebind]. by rewrite Hk, Hm, IH.
  - destruct (String_of v); [|done]. cbn [ebind]. by destruct (invalid_entries fs).
  - destruct (String_of v); [|done]. cbn [ebind]. by destruct (invalid_entries fs).
Qed.
