(* ===== verification/ChannelSave.v ===== *)
(** * Saving a channel

    What happens between the form of a channel and the server: the permissions of an administrator (lib/admin-permissions.ts), the checks and
    questions of the drawer before it sends the form (components/drawers/channel-mutate-drawer.tsx, onSubmit), and the request
    (hooks/use-channel-mutate-form.ts). *)

From S2P Require Import Prelude JsValue JsText JsonText JsonPretty JsObject AdvancedCustom AdvancedCustomText ChannelForm ModelMapping.
#[global] Open Scope Z_scope.

(** ** Permissions *)

Definition CHANNEL : jstring := js "channel".
Definition TASK_PLUGIN : jstring := js "task_plugin".
Definition SENSITIVE_WRITE : jstring := js "sensitive_write".
Definition BIND : jstring := js "bind".
Definition ADMIN_ROLE_KEY : jstring := js "admin".
Definition SUPER_ADMIN : Z := 100.

(** The members of a user that decide; [admin_permissions] is [user.permissions?.admin_permissions], as the server sent it. *)
Record AuthUser := { user_role : Z; admin_permissions : jsval }.

Definition hasPermission (user : option AuthUser) (resource action : jstring) : bool :=
  match user with
  | None => false
  | Some u => if user_role u =? SUPER_ADMIN then true else is_true (jget (jget (admin_permissions u) resource) action)
  end.

Definition Matrix := list (jstring * list (jstring * bool)).
Record PermissionResourceDef := { pr_resource : jstring; pr_actions : list jstring }.
Record PermissionRoleDef := { role_key : jstring; role_grants : Matrix }.
Record PermissionCatalog := { cat_resources : list PermissionResourceDef; cat_roles : list PermissionRoleDef }.

(** [matrix?.[resource]?.[action]] *)
Definition granted (m : Matrix) (resource action : jstring) : option bool :=
  match mget m resource with Some actions => mget actions action | None => None end.

Definition roleGrants (catalog : PermissionCatalog) (roleKey : jstring) : Matrix :=
  match find (fun role => jeqb (role_key role) roleKey) (cat_roles catalog) with Some role => role_grants role | None => [] end.

(** What the value says, or else the baseline. *)
Definition effective (value baseline : Matrix) (resource action : jstring) : bool :=
  coalesce (granted value resource action) (coalesce (granted baseline resource action) false).

Definition normalized_actions (value baseline : Matrix) (r : PermissionResourceDef) : list (jstring * bool) :=
  fold_left (fun actions a => mset actions a (effective value baseline (pr_resource r) a)) (pr_actions r) [].

Definition normalizeAdminPermissions (value : Matrix) (catalog : PermissionCatalog) : Matrix :=
  let baseline := roleGrants catalog ADMIN_ROLE_KEY in
  fold_left (fun m r => mset m (pr_resource r) (normalized_actions value baseline r)) (cat_resources catalog) [].

(** ** The request *)

Definition SENSITIVE_UPDATE_FIELDS : list string :=
  ["type"; "key"; "base_url"; "openai_organization"; "param_override"; "header_override"; "setting"; "settings"; "other"]%string.

Definition delete_fields (fields : list string) (payload : members) : members :=
  fold_left (fun p field => del (js field) p) fields payload.

(** The members that are sent when a channel is changed. *)
Definition update_request (canEditSensitive isMultiKeyChannel : bool) (data : ChannelFormValues) (payload : members) : members :=
  let payload := if negb (truthy (trim (f_key data))) then del (js "key") payload else payload in
  let payload := if negb canEditSensitive then delete_fields SENSITIVE_UPDATE_FIELDS payload else payload in
  if canEditSensitive && isMultiKeyChannel && truthy (trim (f_key data)) && truthy (f_key_mode data)
  then put (js "key_mode") (JStr (f_key_mode data)) payload else payload.

(** [{ id, ...data }] of updateChannel. *)
Definition update_body (id : Z) (data : members) : members := fold_left (fun p f => put f.1 f.2 p) data [(js "id", number_value id)].

Inductive request := PutChannel (body : members) | PostChannel (data : CreatePayload).

Section Mutation.
(** [t], the translations. *)
Context (t : jstring -> jstring).
Context (canEditSensitive isMultiKeyChannel : bool).
(** [props.isEditing && props.currentRow]: the channel that is edited. *)
Context (currentRow : option Z).

Definition mutation_request (data : ChannelFormValues) : exc request :=
  match currentRow with
  | Some id => ebind (transformFormDataToUpdatePayload data id) (fun payload =>
      Ret (PutChannel (update_body id (update_request canEditSensitive isMultiKeyChannel data payload))))
  | None => ebind (transformFormDataToCreatePayload data) (fun payload => Ret (PostChannel payload))
  end.

Record api_response := { success : bool; response_message : jstring }.

(** What is thrown: an error with a message, or some other value. *)
Inductive thrown := ErrorWith (message : jstring) | Other (value : jsval).

(** The text of [mutationFn], or what it throws once the server answered. *)
Definition mutation_result (response : api_response) : jstring + thrown :=
  match currentRow with
  | Some _ => if success response then inl (js "Channel updated successfully")
              else inr (ErrorWith (jor (response_message response) (t (js "Failed to update channel"))))
  | None => if success response then inl (js "Channel created successfully")
            else inr (ErrorWith (jor (response_message response) (t (js "Failed to create channel"))))
  end.

Definition getErrorMessage (error : thrown) : option jstring :=
  match error with
  | ErrorWith message => Some message
  | Other v =>
      match jget (jget (jget v (js "response")) (js "data")) (js "message") with
      | JStr message => Some message
      | _ => match jget v (js "message") with JStr message => Some message | _ => None end
      end
  end.

(** What the user sees: success or error, and the text. *)
Definition toast (result : jstring + thrown) : bool * jstring :=
  match result with
  | inl messageKey => (true, t messageKey)
  | inr error => (false, ojor (getErrorMessage error) (t (js "Failed to create channel")))
  end.
End Mutation.

(** ** The checks of the drawer *)

Definition SENSITIVE_FORM_FIELDS : list string :=
  ["type"; "base_url"; "key"; "openai_organization"; "other"; "key_mode"; "param_override"; "header_override"; "settings"; "setting";
   "advanced_custom"; "is_enterprise_account"; "vertex_key_type"; "aws_key_type"; "azure_responses_version"; "force_format";
   "thinking_to_content"; "proxy"; "http_protocol"; "http2_connection_shards"; "pass_through_body_enabled"; "system_prompt";
   "system_prompt_override"; "allow_service_tier"; "disable_store"; "allow_safety_identifier"; "allow_include_obfuscation";
   "allow_inference_geo"; "allow_speed"; "claude_beta_query"; "disable_task_polling_sleep"; "upstream_model_update_check_enabled";
   "upstream_model_update_auto_sync_enabled"; "upstream_model_update_ignored_models"]%string.

Inductive MissingModelsAction := Cancel | Submit | Add.

Record drawer := {
  canEditSensitive : bool; isEditing : bool;
  dirtyFields : list jstring;   (* the fields the form knows as changed *)
  initialModels : list jstring; initialModelMapping : jstring; initialStatusCodeMapping : jstring
}.

Definition optional_number (o : option Z) : jsval := match o with Some n => number_value n | None => JUndefined end.

(** The fields of the form by name. *)
Definition form_fields : list (string * (ChannelFormValues -> jsval)) :=
  [("name"%string, fun f => JStr (f_name f)); ("type"%string, fun f => number_value (f_type f));
   ("base_url"%string, fun f => JStr (f_base_url f)); ("task_plugin_key"%string, fun f => f_task_plugin_key f);
   ("key"%string, fun f => JStr (f_key f)); ("openai_organization"%string, fun f => JStr (f_openai_organization f));
   ("models"%string, fun f => JStr (f_models f)); ("group"%string, fun f => JArr (map JStr (f_group f)));
   ("model_mapping"%string, fun f => JStr (f_model_mapping f)); ("priority"%string, fun f => optional_number (f_priority f));
   ("weight"%string, fun f => optional_number (f_weight f)); ("test_model"%string, fun f => JStr (f_test_model f));
   ("auto_ban"%string, fun f => optional_number (f_auto_ban f)); ("status"%string, fun f => number_value (f_status f));
   ("status_code_mapping"%string, fun f => JStr (f_status_code_mapping f)); ("tag"%string, fun f => JStr (f_tag f));
   ("remark"%string, fun f => JStr (f_remark f)); ("setting"%string, fun f => JStr (f_setting f));
   ("param_override"%string, fun f => JStr (f_param_override f));
   ("header_override"%string, fun f => JStr (f_header_override f)); ("settings"%string, fun f => JStr (f_settings f));
   ("other"%string, fun f => JStr (f_other f)); ("multi_key_mode"%string, fun f => JStr (f_multi_key_mode f));
   ("multi_key_type"%string, fun f => JStr (f_multi_key_type f));
   ("batch_add_set_key_prefix_2_name"%string, fun f => JBool (f_batch_add_set_key_prefix_2_name f));
   ("key_mode"%string, fun f => JStr (f_key_mode f)); ("force_format"%string, fun f => f_force_format f);
   ("thinking_to_content"%string, fun f => f_thinking_to_content f); ("proxy"%string, fun f => f_proxy f);
   ("http_protocol"%string, fun f => JStr (f_http_protocol f));
   ("http2_connection_shards"%string, fun f => f_http2_connection_shards f);
   ("pass_through_body_enabled"%string, fun f => f_pass_through_body_enabled f);
   ("system_prompt"%string, fun f => f_system_prompt f);
   ("system_prompt_override"%string, fun f => f_system_prompt_override f);
   ("is_enterprise_account"%string, fun f => JBool (f_is_enterprise_account f));
   ("vertex_key_type"%string, fun f => f_vertex_key_type f); ("aws_key_type"%string, fun f => f_aws_key_type f);
   ("azure_responses_version"%string, fun f => f_azure_responses_version f);
   ("allow_service_tier"%string, fun f => JBool (f_allow_service_tier f));
   ("disable_store"%string, fun f => JBool (f_disable_store f));
   ("allow_safety_identifier"%string, fun f => JBool (f_allow_safety_identifier f));
   ("allow_include_obfuscation"%string, fun f => JBool (f_allow_include_obfuscation f));
   ("allow_inference_geo"%string, fun f => JBool (f_allow_inference_geo f));
   ("allow_speed"%string, fun f => JBool (f_allow_speed f));
   ("claude_beta_query"%string, fun f => JBool (f_claude_beta_query f));
   ("disable_task_polling_sleep"%string, fun f => JBool (f_disable_task_polling_sleep f));
   ("upstream_model_update_check_enabled"%string, fun f => JBool (f_upstream_model_update_check_enabled f));
   ("upstream_model_update_auto_sync_enabled"%string, fun f => JBool (f_upstream_model_update_auto_sync_enabled f));
   ("upstream_model_update_ignored_models"%string, fun f => JStr (f_upstream_model_update_ignored_models f));
   ("advanced_custom"%string, fun f => JStr (f_advanced_custom f))].

Definition with_base_url (base_url : jstring) (f : ChannelFormValues) : ChannelFormValues :=
  {| f_name := f_name f; f_type := f_type f; f_base_url := base_url; f_task_plugin_key := f_task_plugin_key f; f_key := f_key f;
     f_openai_organization := f_openai_organization f; f_models := f_models f; f_group := f_group f; f_model_mapping := f_model_mapping f;
     f_priority := f_priority f; f_weight := f_weight f; f_test_model := f_test_model f; f_auto_ban := f_auto_ban f; f_status := f_status f;
     f_status_code_mapping := f_status_code_mapping f; f_tag := f_tag f; f_remark := f_remark f; f_setting := f_setting f;
     f_param_override := f_param_override f; f_header_override := f_header_override f; f_settings := f_settings f; f_other := f_other f;
     f_multi_key_mode := f_multi_key_mode f; f_multi_key_type := f_multi_key_type f;
     f_batch_add_set_key_prefix_2_name := f_batch_add_set_key_prefix_2_name f; f_key_mode := f_key_mode f;
     f_force_format := f_force_format f; f_thinking_to_content := f_thinking_to_content f; f_proxy := f_proxy f;
     f_http_protocol := f_http_protocol f; f_http2_connection_shards := f_http2_connection_shards f;
     f_pass_through_body_enabled := f_pass_through_body_enabled f; f_system_prompt := f_system_prompt f;
     f_system_prompt_override := f_system_prompt_override f; f_is_enterprise_account := f_is_enterprise_account f;
     f_vertex_key_type := f_vertex_key_type f; f_aws_key_type := f_aws_key_type f; f_azure_responses_version := f_azure_responses_version f;
     f_allow_service_tier := f_allow_service_tier f; f_disable_store := f_disable_store f;
     f_allow_safety_identifier := f_allow_safety_identifier f; f_allow_include_obfuscation := f_allow_include_obfuscation f;
     f_allow_inference_geo := f_allow_inference_geo f; f_allow_speed := f_allow_speed f; f_claude_beta_query := f_claude_beta_query f;
     f_disable_task_polling_sleep := f_disable_task_polling_sleep f;
     f_upstream_model_update_check_enabled := f_upstream_model_update_check_enabled f;
     f_upstream_model_update_auto_sync_enabled := f_upstream_model_update_auto_sync_enabled f;
     f_upstream_model_update_ignored_models := f_upstream_model_update_ignored_models f; f_advanced_custom := f_advanced_custom f |}.

Definition CODING_PLAN : jstring := js "doubao-coding-plan".
Definition VOLCENGINE_ADDRESS : jstring := js "https://ark.cn-beijing.volces.com".

(** The effect that puts the address in the place of the name of the plan, and does not count it as a change. *)
Definition fill_base_url (f : ChannelFormValues) : ChannelFormValues :=
  if (f_type f =? 45) && jeqb (f_base_url f) CODING_PLAN then with_base_url VOLCENGINE_ADDRESS f else f.

(** What the form library says of the fields it does not list as changed: they have the values the form was opened with, after this
    effect.  It says nothing of the models: the buttons that fill them in do not count as changes either. *)
Definition tracked (opened submitted : ChannelFormValues) (dirty : list jstring) : Prop :=
  Forall (fun e => e.1 <> "models"%string -> js e.1 ∉ dirty -> e.2 submitted = e.2 (fill_base_url opened)) form_fields.

(** What the user answers when asked. *)
Record answers := { confirmStatusCodeRisk : list jstring -> bool; confirmMissingModelMappings : list jstring -> MissingModelsAction }.

Definition sensitiveLocked (d : drawer) : bool := isEditing d && negb (canEditSensitive d).

Inductive submission :=
| KeyRequired
| NotPermitted
| InvalidEntries (entries : list jstring)
| RiskDeclined
| InvalidMapping (error : jstring)
| MissingDeclined
| Sends (data : ChannelFormValues).

(** [data.models = models] *)
Definition with_models (models : jstring) (f : ChannelFormValues) : ChannelFormValues :=
  {| f_name := f_name f; f_type := f_type f; f_base_url := f_base_url f; f_task_plugin_key := f_task_plugin_key f; f_key := f_key f;
     f_openai_organization := f_openai_organization f; f_models := models; f_group := f_group f; f_model_mapping := f_model_mapping f;
     f_priority := f_priority f; f_weight := f_weight f; f_test_model := f_test_model f; f_auto_ban := f_auto_ban f; f_status := f_status f;
     f_status_code_mapping := f_status_code_mapping f; f_tag := f_tag f; f_remark := f_remark f; f_setting := f_setting f;
     f_param_override := f_param_override f; f_header_override := f_header_override f; f_settings := f_settings f; f_other := f_other f;
     f_multi_key_mode := f_multi_key_mode f; f_multi_key_type := f_multi_key_type f;
     f_batch_add_set_key_prefix_2_name := f_batch_add_set_key_prefix_2_name f; f_key_mode := f_key_mode f;
     f_force_format := f_force_format f; f_thinking_to_content := f_thinking_to_content f; f_proxy := f_proxy f;
     f_http_protocol := f_http_protocol f; f_http2_connection_shards := f_http2_connection_shards f;
     f_pass_through_body_enabled := f_pass_through_body_enabled f; f_system_prompt := f_system_prompt f;
     f_system_prompt_override := f_system_prompt_override f; f_is_enterprise_account := f_is_enterprise_account f;
     f_vertex_key_type := f_vertex_key_type f; f_aws_key_type := f_aws_key_type f; f_azure_responses_version := f_azure_responses_version f;
     f_allow_service_tier := f_allow_service_tier f; f_disable_store := f_disable_store f;
     f_allow_safety_identifier := f_allow_safety_identifier f; f_allow_include_obfuscation := f_allow_include_obfuscation f;
     f_allow_inference_geo := f_allow_inference_geo f; f_allow_speed := f_allow_speed f; f_claude_beta_query := f_claude_beta_query f;
     f_disable_task_polling_sleep := f_disable_task_polling_sleep f;
     f_upstream_model_update_check_enabled := f_upstream_model_update_check_enabled f;
     f_upstream_model_update_auto_sync_enabled := f_upstream_model_update_auto_sync_enabled f;
     f_upstream_model_update_ignored_models := f_upstream_model_update_ignored_models f; f_advanced_custom := f_advanced_custom f |}.

(** The check of the status codes, and the question about the risky ones: what stops the submission. *)
Definition check_status (d : drawer) (a : answers) (data : ChannelFormValues) : exc (option submission) :=
  if truthy (trim (f_status_code_mapping data)) then
    ebind (collectInvalidStatusCodeEntries (f_status_code_mapping data)) (fun invalidEntries =>
      match invalidEntries with
      | _ :: _ => Ret (Some (InvalidEntries invalidEntries))
      | [] =>
          match collectNewDisallowedStatusCodeRedirects (initialStatusCodeMapping d) (f_status_code_mapping data) with
          | [] => Ret None
          | riskyRedirects => Ret (if confirmStatusCodeRisk a riskyRedirects then None else Some RiskDeclined)
          end
      end)
  else Ret None.

(** The check of the mapping, and the question about missing models: what is sent. *)
Definition check_models (d : drawer) (a : answers) (data : ChannelFormValues) : submission :=
  if negb (truthy (trim (f_model_mapping data))) then Sends data
  else
    let validation := validateModelMappingJson (f_model_mapping data) in
    if negb (valid validation) then InvalidMapping (ojor (validation_error validation) (js "Invalid model mapping"))
    else
      let normalizedModels := parseModelsString (f_models data) in
      let missingModels := findMissingModelsInMapping (f_model_mapping data) normalizedModels in
      if negb (length missingModels =? 0)%nat &&
         hasModelConfigChanged normalizedModels (f_model_mapping data) (initialModels d) (initialModelMapping d)
      then match confirmMissingModelMappings a missingModels with
           | Cancel => MissingDeclined
           | Add => Sends (with_models (with_missing normalizedModels missingModels) data)
           | Submit => Sends data
           end
      else Sends data.

Definition onSubmit (d : drawer) (a : answers) (data : ChannelFormValues) : exc submission :=
  if negb (isEditing d) && negb (truthy (trim (f_key data))) then Ret KeyRequired
  else if sensitiveLocked d && existsb (fun field => bool_decide (js field ∈ dirtyFields d)) SENSITIVE_FORM_FIELDS then Ret NotPermitted
  else ebind (check_status d a data) (fun stopped =>
    match stopped with Some refusal => Ret refusal | None => Ret (check_models d a data) end).

(** ** Permissions are complete for the catalog *)

Lemma fold_mset_get {K V E} `{EqDecision K} (key : E -> K) (value : E -> V) (es : list E) : forall (m : list (K * V)) k,
  mget (fold_left (fun m e => mset m (key e) (value e)) es m) k =
  match find (fun e => bool_decide (key e = k)) (rev es) with Some e => Some (value e) | None => mget m k end.
Proof.
  induction es as [|e es IH]; intros m k; [done|]. cbn [fold_left rev]. rewrite IH.
  assert (forall l1 l2, find (fun e => bool_decide (key e = k)) (l1 ++ l2) =
    match find (fun e => bool_decide (key e = k)) l1 with Some x => Some x | None => find (fun e => bool_decide (key e = k)) l2 end) as ->.
  { intros l1 l2. induction l1 as [|x l1 IH1]; [done|]. cbn. by destruct (bool_decide _). }
  destruct (find _ (rev es)); [done|]. cbn [find]. rewrite mget_mset. case_bool_decide; by case_decide.
Qed.

Lemma actions_get value baseline r a : mget (normalized_actions value baseline r) a =
  if bool_decide (a ∈ pr_actions r) then Some (effective value baseline (pr_resource r) a) else None.
Proof.
  unfold normalized_actions. rewrite (fold_mset_get (fun a => a) (effective value baseline (pr_resource r))).
  destruct (find _ _) as [b|] eqn:E.
  - apply find_some in E as [Hin E]. apply bool_decide_eq_true in E as ->. rewrite <- in_rev, <- list_elem_of_In in Hin.
    by rewrite bool_decide_true.
  - rewrite bool_decide_false; [done|]. intros Ha%list_elem_of_In. rewrite in_rev in Ha. pose proof (find_none _ _ E a Ha) as Hn. cbn in Hn.
    by rewrite bool_decide_true in Hn.
Qed.

(** The resource a catalog ends up with under a name: the last of that name. *)
Definition last_resource (catalog : PermissionCatalog) (name : jstring) : option PermissionResourceDef :=
  find (fun r => bool_decide (pr_resource r = name)) (rev (cat_resources catalog)).

(** The matrix has a cell exactly for the actions of the catalog, and it is what the value says or else the baseline of administrators. *)
Lemma normalized_cell value catalog resource action :
  granted (normalizeAdminPermissions value catalog) resource action =
  match last_resource catalog resource with
  | Some r => if bool_decide (action ∈ pr_actions r)
      then Some (effective value (roleGrants catalog ADMIN_ROLE_KEY) resource action) else None
  | None => None
  end.
Proof.
  unfold granted, normalizeAdminPermissions, last_resource. rewrite (fold_mset_get pr_resource). destruct (find _ _) as [r|] eqn:E; [|done].
  apply find_some in E as [_ E]. apply bool_decide_eq_true in E as <-. apply actions_get.
Qed.

(** Normalizing twice changes nothing. *)
Lemma normalized_again value catalog resource action : let m := normalizeAdminPermissions value catalog in
  granted (normalizeAdminPermissions m catalog) resource action = granted m resource action.
Proof.
  cbv zeta. rewrite !normalized_cell. destruct (last_resource catalog resource) as [r|] eqn:E; [|done]. case_bool_decide as Ha; [|done].
  unfold effective at 1. rewrite normalized_cell, E. by rewrite bool_decide_true.
Qed.

(** ** What is left out *)

Lemma delete_assoc fields : forall p k, assoc k (delete_fields fields p) = if existsb (fun f => jeqb (js f) k) fields then None else assoc k p.
Proof.
  unfold delete_fields. induction fields as [|f fs IH]; intros p k; [done|]. cbn [fold_left existsb]. rewrite IH.
  destruct (existsb _ fs); [by rewrite orb_true_r|]. rewrite orb_false_r. unfold jeqb. case_bool_decide as E.
  - subst k. apply assoc_del_same.
  - by apply assoc_del_other.
Qed.

Lemma body_assoc (data : members) : forall base k, k ∉ map fst data -> assoc k (fold_left (fun p f => put f.1 f.2 p) data base) = assoc k base.
Proof.
  induction data as [|[k' v] data IH]; intros base k Hk; [done|]. cbn [map] in Hk. apply not_elem_of_cons in Hk as [H1 H2].
  cbn [fold_left fst snd]. rewrite IH by done. by apply assoc_put_other.
Qed.

Lemma assoc_keys {A} k (l : list (jstring * A)) : assoc k l = None -> k ∉ map fst l.
Proof. rewrite assoc_mget. apply mget_None. Qed.

(** A member that is not in the payload is not in the body, except the id. *)
Lemma body_without id data k : k <> js "id" -> assoc k data = None -> assoc k (update_body id data) = None.
Proof.
  intros Hk H. unfold update_body. rewrite body_assoc by (by apply assoc_keys). cbn [assoc].
  replace (jeqb (js "id") k) with false; [done|]. symmetry. apply jeqb_neq. congruence.
Qed.

Lemma locked_fields mk data p k : In k SENSITIVE_UPDATE_FIELDS -> assoc (js k) (update_request false mk data p) = None.
Proof.
  intros Hk. unfold update_request. cbn [negb andb]. rewrite delete_assoc.
  replace (existsb _ _) with true; [done|]. symmetry. apply existsb_exists. exists k. by rewrite jeqb_refl.
Qed.

Lemma sensitive_named k : In k SENSITIVE_UPDATE_FIELDS -> js k <> js "id".
Proof.
  intros H. assert (Forall (fun k => js k <> js "id") SENSITIVE_UPDATE_FIELDS) as Hf by decided.
  rewrite List.Forall_forall in Hf. auto.
Qed.

(** The key mode is sent on top of the payload. *)
Lemma payload_no_key_mode f id p : transformFormDataToUpdatePayload f id = Ret p -> assoc (js "key_mode") p = None.
Proof.
  unfold transformFormDataToUpdatePayload. destruct (buildSettingJSON f); [|done]. destruct (buildSettingsJSON f); [|done].
  cbn [ebind]. intros H. apply Ret_inj in H as <-. unfold update_payload. by destruct (truthy (f_key f) && _).
Qed.

(** C22. Without the permission nothing sensitive leaves the form: when a user who may not edit sensitive settings saves a channel, whatever
    the form holds, the body of the request has none of the sensitive members and no key mode, and the channel the server keeps is
    the old one in its type, address, organization, overrides, settings and additional configuration. *)
Theorem locked_request (isMultiKeyChannel : bool) (id : Z) (data : ChannelFormValues) (body : members) (c : Channel) :
  mutation_request false isMultiKeyChannel (Some id) data = Ret (PutChannel body) ->
  Forall (fun k => assoc (js k) body = None) ("key_mode"%string :: SENSITIVE_UPDATE_FIELDS) /\
  (ch_type (saved c body) = ch_type c /\ ch_base_url (saved c body) = ch_base_url c /\
   ch_openai_organization (saved c body) = ch_openai_organization c /\ ch_param_override (saved c body) = ch_param_override c /\
   ch_header_override (saved c body) = ch_header_override c /\ ch_setting (saved c body) = ch_setting c /\
   ch_settings (saved c body) = ch_settings c /\ ch_other (saved c body) = ch_other c).
Proof.
  cbn [mutation_request]. destruct (transformFormDataToUpdatePayload data id) as [p|] eqn:Ep; [|done]. cbn [ebind].
  intros H. apply Ret_inj in H as [= <-].
  assert (forall k, In k SENSITIVE_UPDATE_FIELDS -> assoc (js k) (update_body id (update_request false isMultiKeyChannel data p)) = None) as Hs.
  { intros k Hk. apply body_without; [by apply sensitive_named|by apply locked_fields]. }
  split.
  - apply List.Forall_cons; [|by apply List.Forall_forall]. apply body_without; [decided|]. apply payload_no_key_mode in Ep.
    unfold update_request. cbn [negb andb]. rewrite delete_assoc. destruct (existsb _ _); [done|].
    destruct (negb (truthy (trim (f_key data)))); [|done]. rewrite assoc_del_other; [done|decided].
  - unfold saved, saved_number, saved_option, saved_text.
    cbn [ch_type ch_base_url ch_openai_organization ch_param_override ch_header_override ch_setting ch_settings ch_other].
    rewrite (Hs "type"%string), (Hs "base_url"%string), (Hs "openai_organization"%string), (Hs "param_override"%string),
      (Hs "header_override"%string), (Hs "setting"%string), (Hs "settings"%string), (Hs "other"%string) by (cbn; tauto). done.
Qed.

(** The fields the sensitive members are made of. *)
Definition sensitive_fields : list string := "task_plugin_key"%string :: SENSITIVE_FORM_FIELDS.

(** The values of these fields. *)
Definition sensitive_values (f : ChannelFormValues) : list jsval :=
  map (fun e => e.2 f) (List.filter (fun e => existsb (fun k => bool_decide (e.1 = k)) sensitive_fields) form_fields).

Lemma tracked_values opened submitted dirty : tracked opened submitted dirty -> (forall k, In k sensitive_fields -> js k ∉ dirty) ->
  sensitive_values submitted = sensitive_values (fill_base_url opened).
Proof.
  intros Ht Hd. unfold sensitive_values. apply List.map_ext_in. intros e [He Hs]%filter_In.
  unfold tracked in Ht. rewrite List.Forall_forall in Ht.
  apply existsb_exists in Hs as (k & Hk & E). apply bool_decide_eq_true in E.
  apply Ht; [done| |by rewrite E; apply Hd]. rewrite E. intros ->.
  apply list_elem_of_In in Hk. revert Hk. decided.
Qed.

Lemma number_value_inj a b : number_value a = number_value b -> a = b.
Proof. by intros [=]. Qed.

(** The sensitive members of a payload, by what they are made of. *)
Definition sensitive_members (f : ChannelFormValues) (setting settings : jstring) : members :=
  [(js "type", number_value (f_type f)); (js "base_url", JStr (normalizeBaseUrl (f_base_url f)));
   (js "openai_organization", JStr (f_openai_organization f)); (js "param_override", JStr (f_param_override f));
   (js "header_override", JStr (f_header_override f)); (js "setting", null_if_empty setting); (js "settings", null_if_empty settings);
   (js "other", null_if_empty (f_other f))] ++
  (if truthy (f_key f) && truthy (trim (f_key f)) then [(js "key", null_if_empty (f_key f))] else []).

Lemma payload_sensitive f id setting settings k : In k SENSITIVE_UPDATE_FIELDS ->
  assoc (js k) (update_payload f id setting settings) = assoc (js k) (sensitive_members f setting settings).
Proof.
  intros H. unfold update_payload, sensitive_members. destruct (truthy (f_key f) && _);
    repeat (destruct H as [<- | H]; [reflexivity|]); destruct H.
Qed.

(** Forms with the same values there have the same texts, and the same sensitive members. *)
Lemma same_sensitive f g : sensitive_values f = sensitive_values g ->
  buildSettingJSON f = buildSettingJSON g /\ buildSettingsJSON f = buildSettingsJSON g /\ sensitive_members f = sensitive_members g.
Proof.
  destruct f, g. intros H. vm_compute in H. simplify_eq. split; [reflexivity|]. split; reflexivity.
Qed.

(** ** What is sent *)

Lemma with_models_same f : with_models (f_models f) f = f.
Proof. by destruct f. Qed.

Lemma check_status_stops d a f r : check_status d a f = Ret (Some r) -> (exists l, r = InvalidEntries l) \/ r = RiskDeclined.
Proof.
  unfold check_status. destruct (truthy _); [|done]. destruct (collectInvalidStatusCodeEntries _) as [[|e l]|]; [| |done]; cbn [ebind].
  - destruct (collectNewDisallowedStatusCodeRedirects _ _); [done|]. destruct (confirmStatusCodeRisk _ _); [done|].
    intros [= <-]. by right.
  - intros [= <-]. left. by eexists.
Qed.

Lemma onSubmit_sends d a f g : onSubmit d a f = Ret (Sends g) ->
  (isEditing d || truthy (trim (f_key f)) = true) /\
  (sensitiveLocked d = true -> forall k, In k SENSITIVE_FORM_FIELDS -> js k ∉ dirtyFields d) /\
  check_status d a f = Ret None /\ check_models d a f = Sends g.
Proof.
  unfold onSubmit. destruct (negb (isEditing d) && negb (truthy (trim (f_key f)))) eqn:Ek; [done|].
  destruct (sensitiveLocked d && existsb _ _) eqn:El; [done|]. destruct (check_status d a f) as [[r|]|] eqn:Es; cbn [ebind]; try done.
  - intros H. apply Ret_inj in H as ->. apply check_status_stops in Es as [(l & [=]) | [=]].
  - intros H. apply Ret_inj in H. split; [|split; [|by split]].
    + by destruct (isEditing d), (truthy (trim (f_key f))).
    + intros Hl k Hk Hd. rewrite Hl in El. cbn [andb] in El.
      assert (existsb (fun field => bool_decide (js field ∈ dirtyFields d)) SENSITIVE_FORM_FIELDS = true) as E; [|congruence].
      apply existsb_exists. exists k. split; [done|]. by apply bool_decide_eq_true.
Qed.

Lemma check_models_sends d a f g : check_models d a f = Sends g ->
  g = with_models (f_models g) f /\ valid (validateModelMappingJson (f_model_mapping f)) = true /\
  (f_models g = f_models f \/
   f_models g = with_missing (parseModelsString (f_models f)) (findMissingModelsInMapping (f_model_mapping f) (parseModelsString (f_models f)))).
Proof.
  unfold check_models. destruct (truthy (trim (f_model_mapping f))) eqn:Et; cbn [negb].
  - destruct (valid _) eqn:Ev; [|done]. cbn [negb]. destruct (_ && _).
    + destruct (confirmMissingModelMappings a _); [done| |]; intros [= <-].
      * rewrite with_models_same. by split_and!; [| |left].
      * split_and!; [done|done|by right].
    + intros [= <-]. rewrite with_models_same. by split_and!; [| |left].
  - intros [= <-]. rewrite with_models_same, validators_agree. split_and!; [done| |by left].
    unfold isOptionalModelMapping, parseOptionalJson. by rewrite Et.
Qed.

Lemma with_models_sensitive m f : sensitive_values (with_models m f) = sensitive_values f.
Proof. reflexivity. Qed.

(** The address is all the effect changes. *)
Lemma filled_members f setting settings : Forall (fun k => k <> "base_url"%string ->
  assoc (js k) (sensitive_members (fill_base_url f) setting settings) = assoc (js k) (sensitive_members f setting settings)) SENSITIVE_UPDATE_FIELDS.
Proof. unfold fill_base_url. destruct (_ && _); repeat (apply Forall_cons_2; [done|]); apply Forall_nil_2. Qed.

Lemma filled_texts f : buildSettingJSON (fill_base_url f) = buildSettingJSON f /\ buildSettingsJSON (fill_base_url f) = buildSettingsJSON f.
Proof. unfold fill_base_url. by destruct (_ && _). Qed.

(** C23. What a user without the permission may submit loses nothing by leaving the sensitive members out: where the drawer lets the form
    through, each sensitive member of the payload is the one the form as it was opened would send.  There is one exception, which the
    drawer makes itself: the address it puts in the place of the name of the coding plan ([fill_base_url]) is not sent, and not saved.
    Of the fields the form library does not list as changed, nothing is asked but that they have the values of the opened form after
    this effect ([tracked]), and of the models nothing at all.  The plugin of the channel has to be unchanged: the drawer does not look at it
    (plugin_change_dropped). *)
Theorem nothing_dropped (d : drawer) (a : answers) (opened f g : ChannelFormValues) (id : Z) (p p0 : members) :
  sensitiveLocked d = true -> tracked opened f (dirtyFields d) -> js "task_plugin_key" ∉ dirtyFields d ->
  onSubmit d a f = Ret (Sends g) ->
  transformFormDataToUpdatePayload g id = Ret p -> transformFormDataToUpdatePayload opened id = Ret p0 ->
  Forall (fun k => assoc (js k) p = assoc (js k) p0 \/
    k = "base_url"%string /\ f_type opened = 45 /\ f_base_url opened = CODING_PLAN /\ assoc (js k) p = Some (JStr VOLCENGINE_ADDRESS))
    SENSITIVE_UPDATE_FIELDS.
Proof.
  intros Hl Ht Hp Hs Eg E0. apply onSubmit_sends in Hs as (_ & Hd & _ & Hm). apply check_models_sends in Hm as (Hg & _).
  assert (sensitive_values g = sensitive_values f) as Hgf by (rewrite Hg; apply with_models_sensitive).
  assert (forall k, In k sensitive_fields -> js k ∉ dirtyFields d) as Hf by (intros k [<-|Hk]; [done|by apply Hd]).
  pose proof (tracked_values _ _ _ Ht Hf) as Hv. rewrite <- Hgf in Hv.
  apply same_sensitive in Hv as (H1 & H2 & H3). destruct (filled_texts opened) as [F1 F2].
  unfold transformFormDataToUpdatePayload in Eg, E0. rewrite H1, H2, F1, F2 in Eg.
  destruct (buildSettingJSON opened) as [s1|]; [|done]. destruct (buildSettingsJSON opened) as [s2|]; [|done]. cbn [ebind] in Eg, E0.
  apply Ret_inj in Eg as <-. apply Ret_inj in E0 as <-. apply List.Forall_forall. intros k Hk. rewrite !payload_sensitive, H3 by done.
  destruct (String.string_dec k "base_url") as [->|Hn].
  - unfold fill_base_url. destruct (f_type opened =? 45) eqn:Ey; [|by left]. cbn [andb].
    destruct (jeqb (f_base_url opened) CODING_PLAN) eqn:Eb; [|by left]. right.
    apply Z.eqb_eq in Ey. apply jeqb_eq in Eb. split; [done|]. split; [done|]. split; [done|]. by vm_compute.
  - left. pose proof (filled_members opened s1 s2) as H. rewrite List.Forall_forall in H. by apply H.
Qed.

(** The models the user is asked about: those missing from what the form says. *)
Definition missing_of (f : ChannelFormValues) : list jstring :=
  findMissingModelsInMapping (f_model_mapping f) (parseModelsString (f_models f)).

(** The configuration of models is the one the drawer was opened with. *)
Definition same_models (d : drawer) (f : ChannelFormValues) : Prop :=
  hasModelConfigChanged (parseModelsString (f_models f)) (f_model_mapping f) (initialModels d) (initialModelMapping d) = false.

Lemma blank_not_missing f : truthy (trim (f_model_mapping f)) = false -> missing_of f = [].
Proof. intros H. unfold missing_of. rewrite findMissing_members. by rewrite mapping_members_blank. Qed.

(** Either nothing is missing from what is sent, or the user was asked and submitted all the same, or nothing about the models changed. *)
Lemma sent_missing d a f g fs : mapping_members (f_model_mapping f) = Some fs -> listable fs -> check_models d a f = Sends g ->
  missing_of g = [] \/ g = f /\ (confirmMissingModelMappings a (missing_of f) = Submit \/ same_models d f).
Proof.
  intros Hf Hl. unfold check_models. destruct (truthy (trim (f_model_mapping f))) eqn:Et; cbn [negb].
  2: { intros [= <-]. left. by apply blank_not_missing. }
  destruct (valid _); [|done]. cbn [negb]. fold (missing_of f). destruct (length (missing_of f) =? 0)%nat eqn:E0; cbn [negb andb].
  { intros [= <-]. left. apply Nat.eqb_eq in E0. by destruct (missing_of f). }
  destruct (hasModelConfigChanged _ _ _ _) eqn:Ec; [|intros [= <-]; right; by split; [|right]].
  destruct (confirmMissingModelMappings a (missing_of f)) eqn:Ea; [done| |].
  - intros [= <-]. right. by split; [|left].
  - intros [= <-]. left. apply (adding_settles _ _ fs); [done|done|apply models_clean].
Qed.

Lemma sent_redirects d a f : check_status d a f = Ret None ->
  collectInvalidStatusCodeEntries (f_status_code_mapping f) = Ret [] /\
  forall r, r ∈ collectDisallowedStatusCodeRedirects (f_status_code_mapping f) ->
    r ∈ collectDisallowedStatusCodeRedirects (initialStatusCodeMapping d) \/
    confirmStatusCodeRisk a (collectNewDisallowedStatusCodeRedirects (initialStatusCodeMapping d) (f_status_code_mapping f)) = true.
Proof.
  unfold check_status. destruct (truthy (trim (f_status_code_mapping f))) eqn:Et.
  - destruct (collectInvalidStatusCodeEntries _) as [[|e l]|]; cbn [ebind]; [|done..].
    destruct (collectNewDisallowedStatusCodeRedirects _ _) as [|r0 l] eqn:En.
    + intros _. split; [done|]. intros r Hr. left. destruct (decide (r ∈ collectDisallowedStatusCodeRedirects (initialStatusCodeMapping d))); [done|].
      assert (r ∈ collectNewDisallowedStatusCodeRedirects (initialStatusCodeMapping d) (f_status_code_mapping f)) as H.
      { unfold collectNewDisallowedStatusCodeRedirects. rewrite list_elem_of_In, filter_In, <- list_elem_of_In. by rewrite bool_decide_false. }
      rewrite En in H. by apply elem_of_nil in H.
    + destruct (confirmStatusCodeRisk a (r0 :: l)) eqn:Ea; [|done]. intros _. split; [done|]. intros r _. by right.
  - intros _. unfold collectInvalidStatusCodeEntries, collectDisallowedStatusCodeRedirects, status_members. rewrite Et. cbn [negb].
    split; [done|]. intros r []%elem_of_nil.
Qed.

(** C24. What the drawer sends has passed its checks: it is the submitted form up to the list of models; the mapping is one the schema
    takes; every entry of the status codes is valid, and a redirect of a code that should not be redirected was there before or was
    confirmed; and, where no name of the mapping holds a comma ([listable]), a model that the mapping names and the channel lacks - after
    those that the user let be added - is one the user was asked about and submitted all the same, or the models and the mapping are
    those the drawer was opened with.  A name with a comma cannot be added: the user chooses to add it, and it is still missing from what
    is sent (comma_stays_missing). *)
Theorem submitted_form (d : drawer) (a : answers) (f g : ChannelFormValues) :
  onSubmit d a f = Ret (Sends g) ->
  (isEditing d = false -> truthy (trim (f_key g)) = true) /\
  (exists models, g = with_models models f) /\ isOptionalModelMapping (f_model_mapping g) = true /\
  collectInvalidStatusCodeEntries (f_status_code_mapping g) = Ret [] /\
  (forall r, r ∈ collectDisallowedStatusCodeRedirects (f_status_code_mapping g) ->
     r ∈ collectDisallowedStatusCodeRedirects (initialStatusCodeMapping d) \/
     confirmStatusCodeRisk a (collectNewDisallowedStatusCodeRedirects (initialStatusCodeMapping d) (f_status_code_mapping g)) = true) /\
  (forall fs, mapping_members (f_model_mapping g) = Some fs -> listable fs ->
     missing_of g = [] \/ g = f /\ (confirmMissingModelMappings a (missing_of f) = Submit \/ same_models d f)).
Proof.
  intros (Hk & _ & Hs & Hm)%onSubmit_sends. destruct (sent_redirects _ _ _ Hs) as [Hi Hr].
  pose proof (check_models_sends _ _ _ _ Hm) as (Hg & Hv & _).
  assert (f_key g = f_key f /\ f_model_mapping g = f_model_mapping f /\ f_status_code_mapping g = f_status_code_mapping f) as (-> & -> & ->)
    by (rewrite Hg; done).
  split; [intros He; by rewrite He in Hk|]. split; [by eexists|]. split; [by rewrite <- validators_agree|]. split; [done|]. split; [done|].
  intros fs Hf Hl. by apply (sent_missing d a f g fs).
Qed.

(** ** Every submission is answered *)

Lemma number_shown v n : number_of v = Ret n -> exists s, String_of v = Ret s.
Proof.
  destruct v; cbn [number_of]; try (by eexists).
  - destruct (String_of (JArr l)) as [s|]; [by exists s|done].
  - destruct (String_of (JObj fields)) as [s|]; [by exists s|done].
Qed.

Lemma entries_shown fs : every_code fs = Ret true -> exists l, invalid_entries fs = Ret l.
Proof.
  induction fs as [|[k v] fs IH]; [by exists []|]. cbn [every_code invalid_entries].
  destruct (number_of v) as [n|] eqn:En; [|done]. cbn [ebind]. destruct (http_code _ && http_code n); [|done]. intros (l & Hl)%IH.
  destruct (number_shown v n En) as (s & Hs). rewrite Hs, Hl. cbn [ebind].
  destruct (parseStatusCodeKey k), (parseStatusCodeMappingTarget v); by eexists.
Qed.

Lemma entries_of_valid s : isOptionalStatusCodeMapping s = true -> exists l, collectInvalidStatusCodeEntries s = Ret l.
Proof.
  unfold isOptionalStatusCodeMapping, parseOptionalJson, collectInvalidStatusCodeEntries, status_members, mapping_members.
  destruct (truthy (trim s)) eqn:Et; cbn [negb]; [|by exists []].
  destruct (JSON_parse s) as [v|]; [|by exists []]. cbn [ebind]. destruct v; try (intros; by exists []).
  intros H. cbn [coalesce from_option Datatypes.id]. apply entries_shown. by destruct (every_code fields) as [[]|].
Qed.

Lemma join_truthy l : l <> [] -> Forall (fun s => truthy s = true) l -> truthy (join (js ",") l) = true.
Proof.
  intros Hl H. destruct H as [|x l Hx H]; [done|]. destruct x; [done|]. by destruct l.
Qed.

Lemma with_missing_truthy models missing : missing <> [] -> Forall (fun s => truthy s = true) (models ++ missing) ->
  truthy (with_missing models missing) = true.
Proof.
  intros Hn H. unfold with_missing, formatModelsArray. rewrite (uniq_id (uniq _)) by apply uniq_NoDup.
  apply join_truthy; [|by apply uniq_Forall]. intros E. destruct missing as [|m l]; [done|].
  assert (m ∈ uniq (models ++ m :: l)) as Hm by (apply uniq_elem, elem_of_app; right; by left). rewrite E in Hm. by apply elem_of_nil in Hm.
Qed.

(** The schema says nothing of the models but that there are some. *)
Lemma schema_models parse_url URL models f : truthy models = true -> channelFormSchema parse_url URL f = true ->
  channelFormSchema parse_url URL (with_models models f) = true.
Proof.
  intros Hm H. assert (truthy (f_models f) = true) as Hf.
  { unfold channelFormSchema, fields_ok in H. rewrite !andb_true_iff in H. tauto. }
  transitivity (channelFormSchema parse_url URL f); [|done]. unfold channelFormSchema. f_equal. unfold fields_ok.
  cbn [f_models with_models]. rewrite Hm, Hf. reflexivity.
Qed.

Lemma models_truthy s : Forall (fun m => truthy m = true) (parseModelsString s).
Proof. eapply Forall_impl; [apply models_clean|]. by intros x (_ & _ & H). Qed.

Lemma missing_truthy s current : Forall (fun m => truthy m = true) (findMissingModelsInMapping s current).
Proof. apply Forall_forall. intros m Hm. apply missing_elem in Hm. destruct Hm as (fs & _ & Ht & _). done. Qed.

(** C25. A form the schema accepts is always answered: the checks of the drawer do not throw, whatever the user answers, and where they
    send the form it is still one the schema accepts, and becomes a request. *)
Theorem submission_answered (parse_url : jstring -> option parsed_url) (URL : jstring -> option (jstring * jstring))
    (d : drawer) (a : answers) (f : ChannelFormValues) (canEdit isMultiKeyChannel : bool) (row : option Z) :
  channelFormSchema parse_url URL f = true ->
  exists s, onSubmit d a f = Ret s /\
    forall g, s = Sends g -> channelFormSchema parse_url URL g = true /\ exists r, mutation_request canEdit isMultiKeyChannel row g = Ret r.
Proof.
  intros Hf. assert (exists s, onSubmit d a f = Ret s) as (s & Hs).
  { unfold onSubmit. destruct (_ && _); [by eexists|]. destruct (_ && _); [by eexists|].
    assert (exists stopped, check_status d a f = Ret stopped) as ([r|] & ->); [|by eexists..].
    unfold check_status. destruct (truthy _); [|by eexists].
    destruct (entries_of_valid (f_status_code_mapping f)) as (l & ->).
    { unfold channelFormSchema, fields_ok in Hf. rewrite !andb_true_iff in Hf. tauto. }
    cbn [ebind]. destruct l; [|by eexists]. destruct (collectNewDisallowedStatusCodeRedirects _ _); by eexists. }
  exists s. split; [done|]. intros g ->. apply onSubmit_sends in Hs as (_ & _ & _ & Hm).
  assert (channelFormSchema parse_url URL g = true) as Hg.
  { pose proof (check_models_sends _ _ _ _ Hm) as (Hg & _ & [E|E]); rewrite Hg.
    - by rewrite E, with_models_same.
    - rewrite E. destruct (findMissingModelsInMapping (f_model_mapping f) (parseModelsString (f_models f))) as [|m l] eqn:El.
      + revert Hm. unfold check_models. rewrite El. cbn [length Nat.eqb negb andb].
        destruct (negb (truthy _)); [intros [= <-]; by rewrite <- E, with_models_same|].
        destruct (negb (valid _)); [done|]. intros [= <-]. by rewrite <- E, with_models_same.
      + apply schema_models; [|done]. apply with_missing_truthy; [done|]. rewrite <- El. apply Forall_app.
        split; [apply models_truthy|apply missing_truthy]. }
  split; [done|]. destruct (valid_setting _ _ _ Hg) as [gs Hgs]. destruct (valid_settings _ _ _ Hg) as [fs Hfs].
  unfold mutation_request, transformFormDataToUpdatePayload, transformFormDataToCreatePayload, buildSettingJSON, buildSettingsJSON.
  rewrite Hgs, Hfs. destruct row; by eexists.
Qed.

(** ** On concrete forms *)

Definition operator : drawer :=
  {| canEditSensitive := false; isEditing := true; dirtyFields := [js "models"]; initialModels := [js "gemini"]; initialModelMapping := [];
     initialStatusCodeMapping := [] |}.
Definition adding : answers := {| confirmStatusCodeRisk := fun _ => false; confirmMissingModelMappings := fun _ => Add |}.

Definition with_mapping (models mapping : jstring) : ChannelFormValues :=
  transformChannelToFormDefaults
  {| ch_name := js "Own"; ch_type := 1; ch_base_url := None; ch_openai_organization := None; ch_models := models; ch_group := js "default";
     ch_model_mapping := Some mapping; ch_priority := None; ch_weight := None; ch_test_model := None; ch_auto_ban := None; ch_status := 1;
     ch_status_code_mapping := Some (JSON_stringify (JObj [(js "429", JNum (num_of_Z 503))])); ch_tag := None; ch_remark := [];
     ch_setting := None; ch_param_override := None; ch_header_override := None; ch_settings := []; ch_other := []; ch_multi_key_mode := [] |}.

Definition mapping_text : jstring := JSON_stringify (JObj [(js "fast", JStr (js "gpt-4o")); (js " gpt ", JStr (js "gpt-4o"))]).
Definition opened_form : ChannelFormValues := with_mapping (js "gpt") mapping_text.
Definition edited_form : ChannelFormValues := with_mapping (js "gpt, o1") mapping_text.

(** The missing model is added to the list. *)
Example missing_added : onSubmit operator adding edited_form = Ret (Sends (with_models (js "gpt,o1,fast") edited_form)).
Proof. by vm_compute. Qed.

(** A name with a comma cannot be added: it stays missing, and is asked about again. *)
Example comma_stays_missing :
  let mapping := JSON_stringify (JObj [(js "a,b", JStr (js "gpt"))]) in
  let missing := findMissingModelsInMapping mapping [js "gpt"] in
  missing = [js "a,b"] /\ findMissingModelsInMapping mapping (parseModelsString (with_missing [js "gpt"] missing)) = [js "a,b"].
Proof. by vm_compute. Qed.

(** The schema takes codes that the drawer refuses. *)
Example entry_refused_late : let text := JSON_stringify (JObj [(js "5e2", JArr [JNum (num_of_Z 429)])]) in
  isOptionalStatusCodeMapping text = true /\ collectInvalidStatusCodeEntries text = Ret [js "5e2 " ++ 8594%N :: js " 429"].
Proof. by vm_compute. Qed.

(** A plugin another user bound. *)
Definition plugin_form (plugin : string) : ChannelFormValues := transformChannelToFormDefaults
  {| ch_name := js "Tasks"; ch_type := 62; ch_base_url := Some (js "https://t"); ch_openai_organization := None; ch_models := js "m";
     ch_group := js "default"; ch_model_mapping := None; ch_priority := None; ch_weight := None; ch_test_model := None; ch_auto_ban := None;
     ch_status := 1; ch_status_code_mapping := None; ch_tag := None; ch_remark := [];
     ch_setting := Some (JSON_stringify (JObj [(js "task_plugin_key", JStr (js plugin))])); ch_param_override := None;
     ch_header_override := None; ch_settings := []; ch_other := []; ch_multi_key_mode := [] |}.

Definition binder : AuthUser := {| user_role := 10; admin_permissions := JObj [(TASK_PLUGIN, JObj [(BIND, JBool true)])] |}.

(** A user who may bind plugins but not edit sensitive settings binds another plugin to a channel: the drawer submits the form, the
    request does not hold the plugin, and success is reported. *)
Example plugin_change_dropped :
  let d := {| canEditSensitive := hasPermission (Some binder) CHANNEL SENSITIVE_WRITE; isEditing := true;
              dirtyFields := [js "task_plugin_key"]; initialModels := [js "m"]; initialModelMapping := []; initialStatusCodeMapping := [] |} in
  hasPermission (Some binder) TASK_PLUGIN BIND = true /\
  onSubmit d adding (plugin_form "new") = Ret (Sends (plugin_form "new")) /\
  (exists setting body, buildSettingJSON (plugin_form "new") = Ret setting /\ includes setting (js "new") = true /\
    mutation_request (canEditSensitive d) false (Some 7) (plugin_form "new") = Ret (PutChannel body) /\ assoc (js "setting") body = None) /\
  toast (fun s => s) (mutation_result (fun s => s) (Some 7) {| success := true; response_message := [] |}) =
    (true, js "Channel updated successfully").
Proof.
  cbv zeta. split; [by vm_compute|]. split; [by vm_compute|]. split; [|by vm_compute].
  eexists _, _. split; [by vm_compute|]. split; [by vm_compute|]. split; by vm_compute.
Qed.

(** A channel of the coding plan, opened by a user without the permission: the drawer shows the address and lets the form through, and
    the request does not hold it; the channel keeps the name of the plan. *)
Definition plan_channel : Channel :=
  {| ch_name := js "Plan"; ch_type := 45; ch_base_url := Some CODING_PLAN; ch_openai_organization := None; ch_models := js "m";
     ch_group := js "default"; ch_model_mapping := None; ch_priority := None; ch_weight := None; ch_test_model := None; ch_auto_ban := None;
     ch_status := 1; ch_status_code_mapping := None; ch_tag := None; ch_remark := []; ch_setting := None; ch_param_override := None;
     ch_header_override := None; ch_settings := []; ch_other := []; ch_multi_key_mode := [] |}.

Example shown_address_not_saved :
  let shown := fill_base_url (transformChannelToFormDefaults plan_channel) in
  f_base_url shown = VOLCENGINE_ADDRESS /\ onSubmit operator adding shown = Ret (Sends shown) /\
  exists body, mutation_request false false (Some 7) shown = Ret (PutChannel body) /\
    assoc (js "base_url") body = None /\ ch_base_url (saved plan_channel body) = Some CODING_PLAN.
Proof. cbv zeta. split; [by vm_compute|]. split; [by vm_compute|]. eexists. split; [by vm_compute|]. split; by vm_compute. Qed.

Lemma locked_request_witness : exists body, mutation_request false true (Some 7) opened_form = Ret (PutChannel body) /\
  Forall (fun k => assoc (js k) body = None) ("key_mode"%string :: SENSITIVE_UPDATE_FIELDS).
Proof.
  eexists. split; [by vm_compute|]. refine (proj1 (locked_request true 7 opened_form _ sample_channel _)). by vm_compute.
Defined.

Lemma nothing_dropped_witness : exists p p0, transformFormDataToUpdatePayload (with_models (js "gpt,o1,fast") edited_form) 7 = Ret p /\
  transformFormDataToUpdatePayload opened_form 7 = Ret p0 /\
  Forall (fun k => assoc (js k) p = assoc (js k) p0 \/
    k = "base_url"%string /\ f_type opened_form = 45 /\ f_base_url opened_form = CODING_PLAN /\
    assoc (js k) p = Some (JStr VOLCENGINE_ADDRESS)) SENSITIVE_UPDATE_FIELDS.
Proof.
  eexists _, _. split; [by vm_compute|]. split; [by vm_compute|].
  refine (nothing_dropped operator adding opened_form edited_form (with_models (js "gpt,o1,fast") edited_form) 7 _ _ _ _ _ missing_added _ _);
    [done| |decided|by vm_compute|by vm_compute].
  unfold tracked, form_fields.
  repeat first [apply Forall_nil_2 | apply Forall_cons_2; [cbn [fst snd]; first [intros _ _; reflexivity | intros H; by destruct H]|]].
Defined.

Lemma submitted_form_witness : onSubmit operator adding edited_form = Ret (Sends (with_models (js "gpt,o1,fast") edited_form)) /\
  isOptionalModelMapping mapping_text = true.
Proof.
  split; [exact missing_added|]. destruct (submitted_form _ _ _ _ missing_added) as (_ & _ & H & _). exact H.
Defined.

Lemma submission_answered_witness : exists s, onSubmit operator adding edited_form = Ret s.
Proof.
  destruct (submission_answered (fun _ => None) (fun _ => None) operator adding edited_form false true (Some 7)) as (s & Hs & _);
    [by vm_compute|]. by exists s.
Defined.
