(* ===== verification/ParamOverride.v ===== *)
(** * Overrides of request parameters

    features/channels/components/dialogs/param-override-editor-dialog.tsx, the functions above the dialog: the rules of an override as the
    visual editor holds them, their reading from JSON text and the text that is saved, the check before saving, the drafts of the two
    kinds of value with an editor of their own, and the order of the rules.  Identifiers are numbers: the clock in front of them plays no
    part.  A problem is a text with the line it names; the translator is left to the dialog. *)

From S2P Require Import Prelude JsValue JsText JsonText JsonPretty JsObject.
#[global] Open Scope Z_scope.

(** ** Outcomes *)

Inductive Message :=
| AtRule (text : jstring) (line : nat)
| Said (text : jstring)
| TypeError.

Inductive attempt (A : Type) :=
| Done (a : A)
| Failed (m : Message).
Arguments Done {A} a.
Arguments Failed {A} m.

Definition abind {A B} (m : attempt A) (f : A -> attempt B) : attempt B := match m with Done a => f a | Failed m => Failed m end.

(** What the language throws by itself is a type error. *)
Definition of_exc {A} (m : exc A) : attempt A := match m with Ret a => Done a | Throw => Failed TypeError end.

(** ** Tables *)

Definition texts (l : list string) : list jstring := map js l.

Definition OPERATION_MODE_LABEL_MAP : list (jstring * jstring) :=
  map (fun e => (js e.1, js e.2))
    [("set", "Set Field"); ("delete", "Delete Field"); ("append", "Append to End"); ("prepend", "Prepend to Start"); ("copy", "Copy Field");
     ("move", "Move Field"); ("replace", "String Replace"); ("regex_replace", "Regex Replace"); ("trim_prefix", "Trim Prefix");
     ("trim_suffix", "Trim Suffix"); ("ensure_prefix", "Ensure Prefix"); ("ensure_suffix", "Ensure Suffix"); ("trim_space", "Trim Space");
     ("to_lower", "To Lowercase"); ("to_upper", "To Uppercase"); ("return_error", "Return Custom Error"); ("prune_objects", "Prune Object Items");
     ("pass_headers", "Pass Through Headers"); ("sync_fields", "Sync Fields"); ("set_header", "Set Request Header");
     ("delete_header", "Delete Request Header"); ("copy_header", "Copy Request Header"); ("move_header", "Move Request Header")]%string.

Definition OPERATION_MODE_VALUES : list jstring := map fst OPERATION_MODE_LABEL_MAP.

Definition CONDITION_MODE_VALUES : list jstring := texts ["full"; "prefix"; "suffix"; "contains"; "gt"; "gte"; "lt"; "lte"]%string.

(** The parts of a rule that a mode uses. *)
Record Meta := { m_path : bool; m_pathOptional : bool; m_value : bool; m_from : bool; m_to : bool; m_keepOrigin : bool; m_pathAlias : bool }.

Definition uses (parts : list string) : Meta :=
  let has part := existsb (String.eqb part) parts in
  {| m_path := has "path"%string; m_pathOptional := has "pathOptional"%string; m_value := has "value"%string; m_from := has "from"%string;
     m_to := has "to"%string; m_keepOrigin := has "keepOrigin"%string; m_pathAlias := has "pathAlias"%string |}.

Definition MODE_META : list (jstring * Meta) :=
  map (fun e => (js e.1, uses e.2))
    [("delete", ["path"]); ("set", ["path"; "value"; "keepOrigin"]); ("append", ["path"; "value"; "keepOrigin"]);
     ("prepend", ["path"; "value"; "keepOrigin"]); ("copy", ["from"; "to"]); ("move", ["from"; "to"]); ("replace", ["path"; "from"]);
     ("regex_replace", ["path"; "from"]); ("trim_prefix", ["path"; "value"]); ("trim_suffix", ["path"; "value"]);
     ("ensure_prefix", ["path"; "value"]); ("ensure_suffix", ["path"; "value"]); ("trim_space", ["path"]); ("to_lower", ["path"]);
     ("to_upper", ["path"]); ("return_error", ["value"]); ("prune_objects", ["pathOptional"; "value"]);
     ("pass_headers", ["value"; "keepOrigin"]); ("sync_fields", ["from"; "to"]); ("set_header", ["path"; "value"; "keepOrigin"]);
     ("delete_header", ["path"]); ("copy_header", ["from"; "to"; "keepOrigin"; "pathAlias"]);
     ("move_header", ["from"; "to"; "keepOrigin"; "pathAlias"])]%string.

(** [MODE_META[mode] || MODE_META.set] *)
Definition meta_of (mode : jstring) : Meta := coalesce (mget MODE_META mode) (uses ["path"; "value"; "keepOrigin"]%string).

Definition VALUE_REQUIRED_MODES : list jstring :=
  texts ["trim_prefix"; "trim_suffix"; "ensure_prefix"; "ensure_suffix"; "set_header"; "return_error"; "prune_objects"; "pass_headers"]%string.
Definition FROM_REQUIRED_MODES : list jstring :=
  texts ["copy"; "move"; "replace"; "regex_replace"; "copy_header"; "move_header"; "sync_fields"]%string.
Definition TO_REQUIRED_MODES : list jstring := texts ["copy"; "move"; "copy_header"; "move_header"; "sync_fields"]%string.

Definition one_of (l : list jstring) (s : jstring) : bool := bool_decide (s ∈ l).

(** ** Rules *)

Record Condition := {
  k_id : nat; k_path : jstring; k_mode : jstring; k_value_text : jstring; k_invert : bool; k_pass_missing_key : bool
}.

Record Operation := {
  o_id : nat; o_description : jstring; o_path : jstring; o_mode : jstring; o_from : jstring; o_to : jstring; o_value_text : jstring;
  o_keep_origin : bool; o_logic : jstring; o_conditions : list Condition
}.

Definition toValueText (value : jsval) : jstring :=
  match value with JUndefined => [] | JStr s => s | _ => JSON_stringify value end.

Definition parseLooseValue (valueText : jstring) : jsval :=
  let raw := trim valueText in
  if negb (truthy raw) then JStr [] else catch (JSON_parse raw) (JStr raw).

Definition verifyJSON (text : jstring) : bool := match JSON_parse text with Ret _ => true | Throw => false end.

(** A member that is a text, or the empty one; a member that is true. *)
Definition text_of_member (v : jsval) (key : string) : jstring := asString (jget v (js key)).
Definition is_true (v : jsval) (key : string) : bool := match jget v (js key) with JBool true => true | _ => false end.

(** The mode of a value, where it is one of those known. *)
Definition known_mode (values : list jstring) (v : jsval) (fallback : string) : jstring :=
  match jget v (js "mode") with JStr s => if one_of values s then s else js fallback | _ => js fallback end.

(** A condition read from a value, numbered; null has no members to read. *)
Definition normalizeCondition (next : nat) (condition : jsval) : attempt (Condition * nat) :=
  match condition with
  | JNull => Failed TypeError
  | _ => Done ({| k_id := next; k_path := text_of_member condition "path"; k_mode := known_mode CONDITION_MODE_VALUES condition "full";
                  k_value_text := toValueText (jget condition (js "value")); k_invert := is_true condition "invert";
                  k_pass_missing_key := is_true condition "pass_missing_key" |}, S next)
  end.

Definition createDefaultCondition (next : nat) : Condition :=
  {| k_id := next; k_path := []; k_mode := js "full"; k_value_text := []; k_invert := false; k_pass_missing_key := false |}.

(** [l.map(f)] for a function that takes numbers. *)
Fixpoint numbered {A} (f : nat -> jsval -> attempt (A * nat)) (next : nat) (l : list jsval) : attempt (list A * nat) :=
  match l with
  | [] => Done ([], next)
  | v :: l => abind (f next v) (fun r => abind (numbered f r.2 l) (fun rs => Done (r.1 :: rs.1, rs.2)))
  end.

(** [s.toUpperCase() === w] for a word of A, D, N, O and R: no letter outside ASCII is one of these in upper case. *)
Definition ascii_upper (c : N) : N := if ((97 <=? c) && (c <=? 122))%N then (c - 32)%N else c.
Definition upper_is (s : jstring) (word : string) : bool := jeqb (map ascii_upper s) (js word).

Definition normalizeOperation (next : nat) (operation : jsval) : attempt (Operation * nat) :=
  match operation with
  | JNull => Failed TypeError
  | _ =>
      abind (of_exc (String_of (vor (jget operation (js "logic")) (JStr (js "OR"))))) (fun logic =>
      abind (match jget operation (js "conditions") with
             | JArr l => numbered normalizeCondition (S next) l
             | _ => Done ([], S next) end) (fun conditions =>
      Done ({| o_id := next; o_description := text_of_member operation "description"; o_path := text_of_member operation "path";
               o_mode := known_mode OPERATION_MODE_VALUES operation "set"; o_from := text_of_member operation "from";
               o_to := text_of_member operation "to"; o_value_text := toValueText (jget operation (js "value"));
               o_keep_origin := is_true operation "keep_origin"; o_logic := if upper_is logic "AND" then js "AND" else js "OR";
               o_conditions := conditions.1 |}, conditions.2)))
  end.

Definition createDefaultOperation (next : nat) : Operation :=
  {| o_id := next; o_description := []; o_path := []; o_mode := js "set"; o_from := []; o_to := []; o_value_text := []; o_keep_origin := false;
     o_logic := js "OR"; o_conditions := [] |}.

(** ** The order of the rules *)

Inductive Position := Before | After.

(** [l.splice(i, 0, x)], and the list without its element at an index. *)
Definition insert_at {A} (i : nat) (x : A) (l : list A) : list A := take i l ++ x :: drop i l.
Definition without {A} (i : nat) (l : list A) : list A := take i l ++ drop (S i) l.

Definition has_id (id : nat) (o : Operation) : bool := (o_id o =? id)%nat.

(** An identifier that is the empty text names none. *)
Definition reorderOperations (ops : list Operation) (sourceId targetId : option nat) (position : Position) : list Operation :=
  match sourceId, targetId with
  | Some source, Some target =>
      if (source =? target)%nat then ops
      else match find_index (has_id source) ops with
           | None => ops
           | Some srcIdx =>
               let next := without srcIdx ops in
               match ops !! srcIdx, find_index (has_id target) next with
               | Some moved, Some insertIdx => insert_at (match position with Before => insertIdx | After => S insertIdx end) moved next
               | _, _ => ops
               end
           end
  | _, _ => ops
  end.

(** ** What a rule shows *)

Definition is_blank_condition (c : Condition) : bool :=
  negb (truthy (trim (k_path c)) || truthy (trim (k_value_text c)) || negb (jeqb (k_mode c) (js "full")) || k_invert c || k_pass_missing_key c).

Definition isOperationBlank (o : Operation) : bool :=
  jeqb (o_mode o) (js "set") && negb (truthy (trim (o_path o))) && negb (truthy (trim (o_from o))) && negb (truthy (trim (o_to o))) &&
  negb (truthy (trim (o_value_text o))) && negb (o_keep_origin o) && forallb is_blank_condition (o_conditions o).

Definition getOperationSummary (o : Operation) (index : nat) : jstring :=
  let mode := jor (o_mode o) (js "set") in
  let modeLabel := jor (coalesce (mget OPERATION_MODE_LABEL_MAP mode) []) mode in
  let rest := jor (trim (o_from o)) (jor (trim (o_to o)) (js "-")) in
  dec_of_Z (Z.of_nat index + 1) ++ js ". " ++ modeLabel ++ [32; 183; 32]%N ++
    (if jeqb mode (js "sync_fields") then rest else jor (trim (o_path o)) rest).

(** ** The ends of a synchronization *)

Record SyncTarget := { s_type : jstring; s_key : jstring }.

Definition parseSyncTargetSpec (spec : jstring) : SyncTarget :=
  let raw := trim spec in
  if negb (truthy raw) then {| s_type := js "json"; s_key := [] |}
  else match indexOf raw (js ":") with
       | None => {| s_type := js "json"; s_key := raw |}
       | Some idx =>
           let prefix := map ascii_lower (trim (slice raw 0 idx)) in
           let key := trim (drop (S idx) raw) in
           if jeqb prefix (js "header") then {| s_type := js "header"; s_key := key |} else {| s_type := js "json"; s_key := key |}
       end.

Definition buildSyncTargetSpec (type key : jstring) : jstring :=
  let normalizedType := if jeqb type (js "header") then js "header" else js "json" in
  let normalizedKey := trim key in
  if negb (truthy normalizedKey) then [] else normalizedType ++ js ":" ++ normalizedKey.

(** ** The draft of a returned error *)

Record ReturnErrorDraft := { e_message : jstring; e_statusCode : jsnum; e_code : jstring; e_type : jstring; e_skipRetry : bool; e_simpleMode : bool }.

Definition error_defaults (message : jstring) : ReturnErrorDraft :=
  {| e_message := message; e_statusCode := num_of_Z 400; e_code := []; e_type := []; e_skipRetry := true; e_simpleMode := true |}.

(** A whole number from 100 to 599, or 400. *)
Definition status_or_400 (n : jsnum) : jsnum :=
  if isInteger n && negb (num_ltb n (num_of_Z 100)) && negb (num_ltb (num_of_Z 599) n) then n else num_of_Z 400.

(** [String(v || '').trim()] *)
Definition trimmed_text (v : jsval) : exc jstring := ebind (String_of (vor v (JStr []))) (fun s => Ret (trim s)).

Definition is_false (v : jsval) : bool := match v with JBool false => true | _ => false end.

Definition error_of_object (parsed : jsval) : exc ReturnErrorDraft :=
  let statusRaw := match jget parsed (js "status_code") with JUndefined => jget parsed (js "status") | v => v end in
  ebind (number_of statusRaw) (fun statusValue =>
  ebind (trimmed_text (vor (jget parsed (js "message")) (jget parsed (js "msg")))) (fun message =>
  ebind (trimmed_text (jget parsed (js "code"))) (fun code =>
  ebind (trimmed_text (jget parsed (js "type"))) (fun type =>
  Ret {| e_message := message; e_statusCode := status_or_400 statusValue; e_code := code; e_type := type;
         e_skipRetry := negb (is_false (jget parsed (js "skip_retry"))); e_simpleMode := false |})))).

Definition parseReturnErrorDraft (valueText : jstring) : ReturnErrorDraft :=
  let raw := trim valueText in
  if negb (truthy raw) then error_defaults []
  else match JSON_parse raw with
       | Ret (JObj fs) => catch (error_of_object (JObj fs)) (error_defaults raw)
       | _ => error_defaults raw
       end.

(** A member that is written only where it holds something. *)
Definition put_text (key : string) (s : jstring) (fs : members) : members := if truthy s then put (js key) (JStr s) fs else fs.
Definition put_flag (key : string) (b : bool) (v : jsval) (fs : members) : members := if b then put (js key) v fs else fs.

Definition error_payload (draft : ReturnErrorDraft) : members :=
  put_flag "skip_retry" (negb (e_skipRetry draft)) (JBool false)
    (put_text "type" (trim (e_type draft)) (put_text "code" (trim (e_code draft))
      [(js "message", JStr (trim (e_message draft))); (js "status_code", JNum (status_or_400 (e_statusCode draft)))])).

Definition buildReturnErrorValueText (draft : ReturnErrorDraft) : jstring :=
  if e_simpleMode draft then trim (e_message draft) else JSON_stringify (JObj (error_payload draft)).

(** ** The draft of objects to prune *)

Definition PruneRule : Type := Condition.

Record PruneObjectsDraft := { p_simpleMode : bool; p_typeText : jstring; p_logic : jstring; p_recursive : bool; p_rules : list PruneRule }.

Definition prune_defaults (typeText : jstring) : PruneObjectsDraft :=
  {| p_simpleMode := true; p_typeText := typeText; p_logic := js "AND"; p_recursive := true; p_rules := [] |}.

Definition normalizePruneRule (next : nat) (rule : jsval) : attempt (PruneRule * nat) :=
  match rule with
  | JNull => Failed TypeError
  | _ => Done ({| k_id := next; k_path := text_of_member rule "path"; k_mode := known_mode CONDITION_MODE_VALUES rule "full";
                  k_value_text := toValueText (jget rule (js "value")); k_invert := is_true rule "invert";
                  k_pass_missing_key := is_true rule "pass_missing_key" |}, S next)
  end.

(** A rule for each member of an object: its name, with its value. *)
Definition rules_of_members (fs : members) : list jsval :=
  map (fun f => JObj [(js "path", JStr f.1); (js "mode", JStr (js "full")); (js "value", f.2)]) fs.

Definition is_object (v : jsval) : bool := isRecord v.

(** The rules of an object, in the order they are pushed: those of [where], then those of [conditions]. *)
Definition prune_rules (parsed : jsval) : list jsval :=
  match jget parsed (js "where") with JObj fs => rules_of_members fs | _ => [] end ++
  match jget parsed (js "conditions") with
  | JArr l => List.filter is_object l
  | JObj fs => rules_of_members fs
  | _ => []
  end.

Definition is_defined (v : jsval) : bool := match v with JUndefined => false | _ => true end.

(** The draft of a text, with the next number; its rules are numbered anew. *)
Definition parsePruneObjectsDraft (next : nat) (valueText : jstring) : PruneObjectsDraft * nat :=
  let raw := trim valueText in
  if negb (truthy raw) then (prune_defaults [], next)
  else match JSON_parse raw with
       | Throw => (prune_defaults raw, next)
       | Ret (JStr s) => (prune_defaults (trim s), next)
       | Ret (JObj fs as parsed) =>
           let read :=
             abind (numbered normalizePruneRule next (prune_rules parsed)) (fun rules =>
             abind (of_exc (match jget parsed (js "type") with JUndefined => Ret [] | v => ebind (String_of v) (fun s => Ret (trim s)) end)) (fun typeText =>
             abind (of_exc (String_of (vor (jget parsed (js "logic")) (JStr (js "AND"))))) (fun logic =>
             Done ({| p_simpleMode := negb (existsb (fun key => is_defined (jget parsed (js key))) ["logic"; "recursive"; "where"; "conditions"]%string);
                      p_typeText := typeText; p_logic := if upper_is logic "OR" then js "OR" else js "AND";
                      p_recursive := negb (is_false (jget parsed (js "recursive"))); p_rules := rules.1 |}, rules.2)))) in
           match read with Done r => r | Failed _ => (prune_defaults raw, next) end
       | Ret v => (prune_defaults (catch (ebind (String_of (vcoalesce v (JStr []))) (fun s => Ret (trim s))) raw), next)
       end.

Definition prune_condition (rule : PruneRule) : jsval :=
  let valueRaw := trim (k_value_text rule) in
  JObj (put_flag "pass_missing_key" (k_pass_missing_key rule) (JBool true)
    (put_flag "invert" (k_invert rule) (JBool true)
      (put_flag "value" (truthy valueRaw) (parseLooseValue valueRaw)
        [(js "path", JStr (trim (k_path rule)));
         (js "mode", JStr (if one_of CONDITION_MODE_VALUES (k_mode rule) then k_mode rule else js "full"))]))).

Definition prune_payload (draft : PruneObjectsDraft) : members :=
  let typeText := trim (p_typeText draft) in
  let conditions := map prune_condition (List.filter (fun rule => truthy (trim (k_path rule))) (p_rules draft)) in
  put_flag "conditions" (negb (bool_decide (conditions = []))) (JArr conditions)
    (put_flag "recursive" (negb (p_recursive draft)) (JBool false)
      (put_flag "logic" (upper_is (jor (p_logic draft) (js "AND")) "OR") (JStr (js "OR")) (put_text "type" typeText []))).

Definition buildPruneObjectsValueText (draft : PruneObjectsDraft) : jstring :=
  let typeText := trim (p_typeText draft) in
  if p_simpleMode draft then typeText
  else
    let payload := prune_payload draft in
    if negb (jtruthy (jget (JObj payload) (js "type"))) && negb (jtruthy (jget (JObj payload) (js "conditions")))
    then JSON_stringify (JObj [(js "logic", JStr (js "AND"))])
    else JSON_stringify (JObj payload).

(** ** Names of headers *)

Definition header_names (l : list jsval) : exc (list jstring) :=
  ebind (emap (fun v => ebind (String_of (vcoalesce v (JStr []))) (fun s => Ret (trim s))) l) (fun names => Ret (List.filter truthy names)).

Definition parsePassHeaderNames (rawValue : jsval) : exc (list jstring) :=
  match rawValue with
  | JArr l => header_names l
  | JObj _ =>
      match jget rawValue (js "headers") with
      | JArr l => header_names l
      | _ => match jget rawValue (js "header") with JUndefined => Ret [] | v => header_names [v] end
      end
  | JStr s => Ret (List.filter truthy (map trim (split_on ch_comma s)))
  | _ => Ret []
  end.

(** ** The check before saving *)

Definition check (ok : bool) (text : string) (line : nat) : attempt unit := if ok then Done tt else Failed (AtRule (js text) line).

(** An object needs a message; what is no object is the message itself. *)
Definition error_has_message (raw : jstring) : bool :=
  match JSON_parse raw with
  | Ret (JObj fs) => match trimmed_text (jget (JObj fs) (js "message")) with Ret s => truthy s | Throw => true end
  | _ => true
  end.

Definition validateOperation (line : nat) (op : Operation) : attempt unit :=
  let mode := jor (o_mode op) (js "set") in
  let meta := meta_of mode in
  let aliased := m_pathAlias meta && truthy (trim (o_path op)) in
  let raw := trim (o_value_text op) in
  abind (check (negb (m_path meta) || truthy (trim (o_path op))) "Rule {{line}} is missing target path" line) (fun _ =>
  abind (check (negb (one_of FROM_REQUIRED_MODES mode) || truthy (trim (o_from op)) || aliased) "Rule {{line}} is missing source field" line) (fun _ =>
  abind (check (negb (one_of TO_REQUIRED_MODES mode) || truthy (trim (o_to op)) || aliased) "Rule {{line}} is missing target field" line) (fun _ =>
  abind (check (negb (one_of VALUE_REQUIRED_MODES mode) || truthy raw) "Rule {{line}} is missing value" line) (fun _ =>
  abind (check (negb (jeqb mode (js "return_error")) || error_has_message raw) "Rule {{line}} return_error requires a message field" line) (fun _ =>
  if jeqb mode (js "pass_headers") then
    abind (of_exc (parsePassHeaderNames (parseLooseValue raw))) (fun headers =>
      check (negb (bool_decide (headers = []))) "Rule {{line}} pass_headers format is invalid" line)
  else Done tt))))).

Fixpoint validate_from (line : nat) (operations : list Operation) : attempt unit :=
  match operations with
  | [] => Done tt
  | op :: operations => abind (validateOperation line op) (fun _ => validate_from (S line) operations)
  end.

Definition validateOperations (operations : list Operation) : attempt unit := validate_from 1 operations.

(** ** The text that is saved *)

Definition buildConditionPayload (condition : Condition) : option jsval :=
  let path := trim (k_path condition) in
  if negb (truthy path) then None
  else Some (JObj (put_flag "pass_missing_key" (k_pass_missing_key condition) (JBool true)
    (put_flag "invert" (k_invert condition) (JBool true)
      [(js "path", JStr path); (js "mode", JStr (jor (k_mode condition) (js "full"))); (js "value", parseLooseValue (k_value_text condition))]))).

(** [if (!payload.k && path) payload.k = path] *)
Definition alias (key : string) (path : jstring) (fs : members) : members :=
  put_flag key (negb (jtruthy (jget (JObj fs) (js key))) && truthy path) (JStr path) fs.

Definition operation_members (o : Operation) : members :=
  let mode := jor (o_mode o) (js "set") in
  let meta := meta_of mode in
  let path := trim (o_path o) in
  let fs := put_text "description" (trim (o_description o)) [(js "mode", JStr mode)] in
  let fs := put_flag "path" (m_path meta) (JStr path) fs in
  let fs := put_flag "path" (m_pathOptional meta && truthy path) (JStr path) fs in
  let fs := put_flag "value" (m_value meta) (parseLooseValue (o_value_text o)) fs in
  let fs := put_flag "keep_origin" (m_keepOrigin meta && o_keep_origin o) (JBool true) fs in
  let fs := put_flag "from" (m_from meta) (JStr (trim (o_from o))) fs in
  let fs := put_flag "to" (negb (m_to meta) && truthy (trim (o_to o))) (JStr (trim (o_to o))) fs in
  let fs := put_flag "to" (m_to meta) (JStr (trim (o_to o))) fs in
  let fs := if m_pathAlias meta then alias "to" path (alias "from" path fs) else fs in
  let conditions := omap buildConditionPayload (o_conditions o) in
  if bool_decide (conditions = []) then fs
  else put (js "logic") (JStr (if jeqb (o_logic o) (js "AND") then js "AND" else js "OR")) (put (js "conditions") (JArr conditions) fs).

Definition operation_payload (o : Operation) : jsval := JObj (operation_members o).

Definition document (ops : list Operation) : jsval := JObj [(js "operations", JArr (map operation_payload ops))].

Definition buildOperationsJson (sourceOperations : list Operation) (validate : bool) : attempt jstring :=
  let filteredOps := List.filter (fun o => negb (isOperationBlank o)) sourceOperations in
  match filteredOps with
  | [] => Done []
  | _ => abind (if validate then validateOperations filteredOps else Done tt) (fun _ => Done (JSON_stringify_2 (document filteredOps)))
  end.

(** ** What the editor starts from *)

Inductive EditMode := Visual | Json.
Inductive VisualMode := Operations | Legacy.

Record EditorState := {
  editMode : EditMode; visualMode : VisualMode; legacyValue : jstring; operations : list Operation; jsonText : jstring; jsonError : option Message
}.

Definition starts (edit : EditMode) (next : nat) (text : jstring) (error : option Message) : EditorState * nat :=
  ({| editMode := edit; visualMode := Operations; legacyValue := []; operations := [createDefaultOperation next]; jsonText := text; jsonError := error |}, S next).

(** The rules of a document, or one empty rule where there is none. *)
Definition rules_of (next : nat) (l : list jsval) : attempt (list Operation * nat) :=
  match l with [] => Done ([createDefaultOperation next], S next) | _ => numbered normalizeOperation next l end.

Definition parseInitialState (next : nat) (text : jstring) : attempt (EditorState * nat) :=
  let trimmed := trim text in
  if negb (truthy trimmed) then Done (starts Visual next [] None)
  else match JSON_parse trimmed with
       | Throw => Done (starts Json next text (Some (Said (js "Invalid JSON format"))))
       | Ret parsed =>
           let pretty := JSON_stringify_2 parsed in
           match parsed, jget parsed (js "operations") with
           | JObj _, JArr l =>
               abind (rules_of next l) (fun ops =>
                 Done ({| editMode := Visual; visualMode := Operations; legacyValue := []; operations := ops.1; jsonText := pretty; jsonError := None |}, ops.2))
           | JObj _, _ =>
               Done ({| editMode := Visual; visualMode := Legacy; legacyValue := pretty; operations := [createDefaultOperation next]; jsonText := pretty;
                        jsonError := None |}, S next)
           | _, _ => Done (starts Json next pretty None)
           end
       end.

(** ** What a saved rule is read as *)

(** A value text that saving and reading keep: its value is one whose text is read back, its text again has that value, and is blank only
    if it was. *)
Record settled (valueText : jstring) : Prop := {
  st_plain : plain_json (parseLooseValue valueText);
  st_again : parseLooseValue (toValueText (parseLooseValue valueText)) = parseLooseValue valueText;
  st_blank : truthy (trim valueText) = true -> truthy (trim (toValueText (parseLooseValue valueText))) = true
}.

Definition sound_condition (c : Condition) : Prop := k_mode c ∈ CONDITION_MODE_VALUES /\ (truthy (trim (k_path c)) = true -> settled (k_value_text c)).

(** A rule as the editor holds it: of known modes, with a logic of the two. *)
Record sound_rule (o : Operation) : Prop := {
  sr_mode : o_mode o ∈ OPERATION_MODE_VALUES;
  sr_logic : o_logic o = js "AND" \/ o_logic o = js "OR";
  sr_value : m_value (meta_of (o_mode o)) = true -> settled (o_value_text o);
  sr_conditions : Forall sound_condition (o_conditions o)
}.

(** The condition and the rule that are read from what is saved. *)
Definition kept_condition (id : nat) (c : Condition) : Condition :=
  {| k_id := id; k_path := trim (k_path c); k_mode := k_mode c; k_value_text := toValueText (parseLooseValue (k_value_text c));
     k_invert := k_invert c; k_pass_missing_key := k_pass_missing_key c |}.

Definition kept_conditions (id : nat) (l : list Condition) : list Condition :=
  let named := List.filter (fun c => truthy (trim (k_path c))) l in zip_with kept_condition (seq id (length named)) named.

Definition kept_rule (id : nat) (o : Operation) : Operation :=
  let meta := meta_of (o_mode o) in
  let path := trim (o_path o) in
  let named := kept_conditions (S id) (o_conditions o) in
  {| o_id := id; o_description := trim (o_description o); o_path := if m_path meta || m_pathOptional meta then path else [];
     o_mode := o_mode o; o_from := if m_from meta then jor (trim (o_from o)) (if m_pathAlias meta then path else []) else [];
     o_to := jor (trim (o_to o)) (if m_pathAlias meta then path else []);
     o_value_text := if m_value meta then toValueText (parseLooseValue (o_value_text o)) else [];
     o_keep_origin := m_keepOrigin meta && o_keep_origin o;
     o_logic := if bool_decide (named = []) then js "OR" else o_logic o; o_conditions := named |}.

(** The rules of a document, numbered as they are read. *)
Fixpoint kept_rules (id : nat) (l : list Operation) : list Operation :=
  match l with [] => [] | o :: l => let r := kept_rule id o in r :: kept_rules (S id + length (o_conditions r)) l end.

(** ** Values and their texts *)

Definition visible (s : jstring) : Prop := Forall (fun c => is_ws c = false) s.

Lemma digits_visible ds : Forall (fun c => is_digit c = true) ds -> visible ds.
Proof.
  intros H. unfold visible. eapply Forall_impl; [exact H|]. intros c Hc%digit_range. unfold is_ws.
  rewrite !orb_false_iff, !andb_false_iff, !N.leb_gt, !N.eqb_neq. lia.
Qed.

Lemma dec_visible z : visible (dec_of_Z z).
Proof.
  unfold dec_of_Z. destruct (z <? 0); [constructor; [done|]|]; apply digits_visible, dec_of_N_spec.
Qed.

Lemma zeros_visible n : visible (zeros n).
Proof. unfold zeros, visible. apply Forall_forall. intros c H%list_elem_of_In%repeat_spec. by subst. Qed.

Lemma num_visible n : visible (string_of_num n).
Proof.
  assert (forall q, visible (string_of_pos q)) as Hp.
  { intros q. unfold string_of_pos. destruct (shortest 17 1 (magnitude q) q) as [s k]. pose proof (dec_visible s) as Hd. unfold visible in *.
    repeat case_match; rewrite ?Forall_app; repeat split;
      try exact Hd; try apply zeros_visible; try apply dec_visible; try (by apply Forall_take); try (by apply Forall_drop); try (by repeat constructor); constructor. }
  unfold string_of_num. destruct n as [|b|q]; [by repeat constructor|by destruct b; repeat constructor|].
  destruct (Qnum q =? 0); [by repeat constructor|]. destruct (Qnum q <? 0); [|apply Hp]. apply Forall_app. split; [by repeat constructor|apply Hp].
Qed.

(** A text that begins and ends with units that are no white space. *)
Definition edged (s : jstring) : Prop := exists c d w, (s = [c] \/ s = c :: w ++ [d]) /\ is_ws c = false /\ is_ws d = false.

Lemma edged_trim s : edged s -> trim s = s.
Proof.
  intros (c & d & w & [-> | ->] & Hc & Hd).
  - apply trim_id. by repeat constructor.
  - unfold trim, trimStart at 1. cbn [drop_while]. rewrite Hc. unfold trimEnd. cbn [rev]. rewrite rev_app_distr. cbn [rev app].
    unfold trimStart. cbn [drop_while]. rewrite Hd. cbn [rev]. rewrite rev_app_distr, rev_involutive. cbn [rev app]. done.
Qed.

Lemma text_edged v : plain_json v -> (forall s, v <> JStr s) -> edged (text_of v) \/ visible (text_of v).
Proof.
  intros Hv Hs. destruct Hv as [|b|n Hn|s|l Hl|fs Hnd Hfs].
  - right. by vm_compute; repeat constructor.
  - right. destruct b; by vm_compute; repeat constructor.
  - right. rewrite text_num by done. apply num_visible.
  - by destruct (Hs s).
  - left. rewrite text_arr by done. exists 91%N, 93%N, (join (js ",") (map text_of l)). split; [by right|done].
  - left. rewrite text_obj by done. eexists 123%N, 125%N, _. split; [right; reflexivity|done].
Qed.

Lemma text_trim v : plain_json v -> (forall s, v <> JStr s) -> trim (text_of v) = text_of v.
Proof. intros Hv Hs. destruct (text_edged v Hv Hs); [by apply edged_trim|by apply trim_id]. Qed.

Lemma value_text v : plain_json v -> (forall s, v <> JStr s) -> toValueText v = text_of v.
Proof. intros Hv Hs. destruct Hv; try done. by destruct (Hs s). Qed.

(** A text that is no JSON is settled, and so is one whose value is no text. *)
Lemma settled_words valueText : JSON_parse (trim valueText) = Throw -> settled valueText.
Proof.
  intros H. assert (parseLooseValue valueText = JStr (trim valueText)) as E.
  { unfold parseLooseValue. destruct (truthy (trim valueText)) eqn:Et; cbn [negb]; [by rewrite H|]. by destruct (trim valueText). }
  constructor; rewrite E; cbn [toValueText].
  - constructor.
  - unfold parseLooseValue. rewrite trim_idem. rewrite H. destruct (truthy (trim valueText)) eqn:Et; cbn [negb catch]; [done|]. by destruct (trim valueText).
  - by rewrite trim_idem.
Qed.

Lemma settled_value valueText v : JSON_parse (trim valueText) = Ret v -> plain_json v -> (forall s, v <> JStr s) -> settled valueText.
Proof.
  intros H Hv Hs. assert (truthy (trim valueText) = true) as Et by (destruct (trim valueText); [by vm_compute in H|done]).
  assert (parseLooseValue valueText = v) as E by (unfold parseLooseValue; by rewrite Et, H).
  assert (truthy (text_of v) = true) as Etv by (destruct (text_opens v Hv) as (c & s & -> & _); done).
  constructor; rewrite E, ?value_text by done; [done| |by rewrite text_trim].
  unfold parseLooseValue. rewrite text_trim by done. rewrite Etv. cbn [negb]. unfold text_of. by rewrite parse_stringify.
Qed.

(** ** Members by name *)

Lemma js_inj a b : js a = js b -> a = b.
Proof.
  intros H. rewrite <- (String.string_of_list_ascii_of_string a), <- (String.string_of_list_ascii_of_string b). f_equal.
  assert (forall l, map Ascii.ascii_of_N (map Ascii.N_of_ascii l) = l) as Hl
    by (intros l; induction l as [|c l IH]; [done|]; cbn [map]; by rewrite Ascii.ascii_N_embedding, IH).
  rewrite <- (Hl (String.list_ascii_of_string a)), <- (Hl (String.list_ascii_of_string b)). by f_equal.
Qed.

Lemma put_get key v fs k : assoc (js k) (put (js key) v fs) = if String.eqb key k then Some v else assoc (js k) fs.
Proof.
  rewrite assoc_put. destruct (String.eqb_spec key k) as [->|Hk]; [by rewrite decide_True|]. rewrite decide_False; [done|]. by intros H%js_inj.
Qed.

Lemma flag_get key b v fs k : assoc (js k) (put_flag key b v fs) = if String.eqb key k && b then Some v else assoc (js k) fs.
Proof. unfold put_flag. destruct b; rewrite ?andb_true_r, ?andb_false_r; [apply put_get|done]. Qed.

Lemma text_get key s fs k : assoc (js k) (put_text key s fs) = if String.eqb key k && truthy s then Some (JStr s) else assoc (js k) fs.
Proof. apply flag_get. Qed.

Lemma put_twice {V} (m : list (jstring * V)) k v v' : mset (mset m k v) k v' = mset m k v'.
Proof. induction m as [|[k0 v0] m IH]; cbn; [by rewrite decide_True|]. destruct (decide (k0 = k)) eqn:E; cbn; rewrite E; [done|]. by rewrite IH. Qed.

Lemma put_inner {V} (m : list (jstring * V)) a b x y z : a <> b -> mset (mset (mset m a x) b y) a z = mset (mset m a z) b y.
Proof.
  intros H. induction m as [|[k0 v0] m IH]; cbn.
  - rewrite (decide_False (P := a = b)) by done. cbn. rewrite ?decide_True by done. rewrite ?decide_False by done. done.
  - destruct (decide (k0 = a)) as [->|Ha]; cbn.
    + repeat (case_decide; cbn; try congruence).
    + destruct (decide (k0 = b)) as [->|Hb]; cbn; repeat (case_decide; cbn; try congruence);
      by rewrite ?put_twice, ?IH.
Qed.

(** ** Modes *)

(** What is aliased has two ends and nothing else but the flag; a path is needed or offered, not both. *)
Lemma meta_facts mode : let m := meta_of mode in
  (m_pathAlias m = true -> m_from m = true /\ m_to m = true /\ m_path m = false /\ m_pathOptional m = false) /\
  (m_pathOptional m = true -> m_path m = false).
Proof.
  cbv zeta. assert (Forall (fun e => (negb (m_pathAlias e.2) || (m_from e.2 && m_to e.2 && negb (m_path e.2) && negb (m_pathOptional e.2))) &&
    (negb (m_pathOptional e.2) || negb (m_path e.2)) = true) MODE_META) as H by (vm_compute; repeat constructor).
  unfold meta_of. destruct (mget MODE_META mode) as [m|] eqn:E; cbn [coalesce from_option]; unfold Datatypes.id; [|by vm_compute].
  apply mget_In in E. rewrite List.Forall_forall in H. specialize (H _ E). cbn in H. destruct (m_pathAlias m), (m_pathOptional m), (m_path m), (m_from m), (m_to m); done.
Qed.

Lemma modes_true mode : mode ∈ OPERATION_MODE_VALUES -> truthy mode = true.
Proof.
  assert (Forall (fun m => truthy m = true) OPERATION_MODE_VALUES) as H by (vm_compute; repeat constructor). rewrite Forall_forall in H. apply H.
Qed.

Lemma condition_modes_true mode : mode ∈ CONDITION_MODE_VALUES -> truthy mode = true.
Proof.
  assert (Forall (fun m => truthy m = true) CONDITION_MODE_VALUES) as H by (vm_compute; repeat constructor). rewrite Forall_forall in H. apply H.
Qed.

Lemma jor_true s t : truthy s = true -> jor s t = s.
Proof. intros H. unfold jor. by rewrite H. Qed.

(** ** A condition is read back *)

Definition condition_members (c : Condition) : members :=
  put_flag "pass_missing_key" (k_pass_missing_key c) (JBool true) (put_flag "invert" (k_invert c) (JBool true)
    [(js "path", JStr (trim (k_path c))); (js "mode", JStr (jor (k_mode c) (js "full"))); (js "value", parseLooseValue (k_value_text c))]).

Lemma condition_payload c : buildConditionPayload c = if truthy (trim (k_path c)) then Some (JObj (condition_members c)) else None.
Proof. unfold buildConditionPayload. by destruct (truthy _). Qed.

Lemma one_of_true l s : s ∈ l -> one_of l s = true.
Proof. intros H. by apply bool_decide_eq_true. Qed.

Lemma condition_get c k : assoc (js k) (condition_members c) =
  if String.eqb "pass_missing_key" k && k_pass_missing_key c then Some (JBool true)
  else if String.eqb "invert" k && k_invert c then Some (JBool true)
  else assoc (js k) [(js "path", JStr (trim (k_path c))); (js "mode", JStr (jor (k_mode c) (js "full"))); (js "value", parseLooseValue (k_value_text c))].
Proof. unfold condition_members. by rewrite !flag_get. Qed.

Lemma condition_read id c : sound_condition c -> truthy (trim (k_path c)) = true ->
  normalizeCondition id (JObj (condition_members c)) = Done (kept_condition id c, S id) /\
  condition_members (kept_condition id c) = condition_members c /\ plain_members (condition_members c).
Proof.
  intros [Hm Hv] Hp. specialize (Hv Hp). pose proof (condition_modes_true _ Hm) as Hmt. split; [|split].
  - unfold normalizeCondition, text_of_member, known_mode, is_true. cbn [jget]. rewrite !condition_get. cbn [String.eqb Ascii.eqb Bool.eqb andb].
    unfold kept_condition. f_equal. f_equal. rewrite jor_true by done.
    assert (forall a b c : jsval, assoc (js "path") [(js "path", a); (js "mode", b); (js "value", c)] = Some a /\
      assoc (js "mode") [(js "path", a); (js "mode", b); (js "value", c)] = Some b /\ assoc (js "value") [(js "path", a); (js "mode", b); (js "value", c)] = Some c /\
      assoc (js "invert") [(js "path", a); (js "mode", b); (js "value", c)] = None /\
      assoc (js "pass_missing_key") [(js "path", a); (js "mode", b); (js "value", c)] = None) as Hg by (intros; vm_compute; auto).
    destruct (Hg (JStr (trim (k_path c))) (JStr (k_mode c)) (parseLooseValue (k_value_text c))) as (-> & -> & -> & -> & ->).
    cbn [coalesce from_option Datatypes.id asString]. rewrite one_of_true by done. by destruct (k_invert c), (k_pass_missing_key c).
  - unfold condition_members, kept_condition. cbn [k_path k_mode k_value_text k_invert k_pass_missing_key]. rewrite trim_idem. by rewrite (st_again _ Hv).
  - unfold condition_members, put_flag. assert (plain_members [(js "path", JStr (trim (k_path c))); (js "mode", JStr (jor (k_mode c) (js "full"))); (js "value", parseLooseValue (k_value_text c))]).
    { split; [apply (bool_decide_unpack _); by vm_compute|]. repeat constructor. apply st_plain, Hv. }
    assert (plain_json (JBool true)) by constructor. destruct (k_invert c), (k_pass_missing_key c); auto using plain_put.
Qed.

Lemma named_payloads l : omap buildConditionPayload l = map (fun c => JObj (condition_members c)) (List.filter (fun c => truthy (trim (k_path c))) l).
Proof.
  induction l as [|c l IH]; [done|]. cbn [omap list_omap List.filter]. rewrite condition_payload.
  destruct (truthy _); cbn; by rewrite IH.
Qed.

Lemma payloads_read id l : Forall sound_condition l ->
  numbered normalizeCondition id (omap buildConditionPayload l) = Done (kept_conditions id l, (id + length (kept_conditions id l))%nat) /\
  omap buildConditionPayload (kept_conditions id l) = omap buildConditionPayload l /\
  Forall plain_json (omap buildConditionPayload l) /\ (kept_conditions id l = [] <-> omap buildConditionPayload l = []).
Proof.
  intros Hl. unfold kept_conditions. rewrite named_payloads. set (named := List.filter _ l).
  assert (Forall (fun c => sound_condition c /\ truthy (trim (k_path c)) = true) named) as Hn.
  { apply Forall_forall. intros c [Hc Hp]%list_elem_of_In%filter_In. split; [|done]. rewrite List.Forall_forall in Hl. by apply Hl. }
  clearbody named. clear Hl. revert id. induction Hn as [|c named [Hc Hp] _ IH]; intros id.
  - cbn. rewrite Nat.add_0_r. repeat split; auto.
  - destruct (condition_read id c Hc Hp) as (H1 & H2 & H3). destruct (IH (S id)) as (I1 & I2 & I3 & _).
    cbn [length seq zip_with map numbered]. rewrite H1. cbn [abind fst snd]. rewrite I1. cbn [abind fst snd]. split; [do 2 f_equal; lia|].
    split; [|split; [constructor; [by apply plain_members_obj|done]|done]].
    cbn [omap list_omap]. rewrite condition_payload. cbn [kept_condition k_path]. rewrite trim_idem, Hp. fold (kept_condition id c). by rewrite H2, I2.
Qed.

(** ** A rule is read back *)

Definition base_members (o : Operation) : members :=
  let meta := meta_of (o_mode o) in
  let path := trim (o_path o) in
  put_flag "keep_origin" (m_keepOrigin meta && o_keep_origin o) (JBool true)
    (put_flag "value" (m_value meta) (parseLooseValue (o_value_text o))
      (put_flag "path" (m_path meta || (m_pathOptional meta && truthy path)) (JStr path)
        (put_text "description" (trim (o_description o)) [(js "mode", JStr (o_mode o))]))).

Definition end_members (o : Operation) : members :=
  let meta := meta_of (o_mode o) in
  let other := if m_pathAlias meta then trim (o_path o) else [] in
  put_flag "to" (m_to meta || truthy (trim (o_to o))) (JStr (jor (trim (o_to o)) other))
    (put_flag "from" (m_from meta) (JStr (jor (trim (o_from o)) other)) (base_members o)).

Definition condition_tail (o : Operation) (fs : members) : members :=
  let conditions := omap buildConditionPayload (o_conditions o) in
  if bool_decide (conditions = []) then fs
  else put (js "logic") (JStr (if jeqb (o_logic o) (js "AND") then js "AND" else js "OR")) (put (js "conditions") (JArr conditions) fs).

Lemma jor_nil s : jor s [] = s.
Proof. unfold jor. by destruct s. Qed.

Lemma alias_put key path s fs : alias key path (put (js key) (JStr s) fs) = put (js key) (JStr (jor s path)) fs.
Proof.
  unfold alias. cbn [jget]. rewrite assoc_put_same. cbn [coalesce from_option Datatypes.id jtruthy]. unfold jor, put_flag.
  destruct (truthy s) eqn:Es; cbn [negb andb]; [done|]. destruct (truthy path) eqn:Ep; [apply put_twice|]. destruct s, path; done.
Qed.

Lemma alias_inner a b path s v fs : js a <> js b ->
  alias a path (put (js b) v (put (js a) (JStr s) fs)) = put (js b) v (put (js a) (JStr (jor s path)) fs).
Proof.
  intros Hab. unfold alias. cbn [jget]. rewrite assoc_put_other by done. rewrite assoc_put_same. cbn [coalesce from_option Datatypes.id jtruthy].
  unfold jor, put_flag. destruct (truthy s) eqn:Es; cbn [negb andb]; [done|]. destruct (truthy path) eqn:Ep; [|by destruct s, path].
  apply put_inner. done.
Qed.

Lemma operation_shape o : o_mode o ∈ OPERATION_MODE_VALUES -> operation_members o = condition_tail o (end_members o).
Proof.
  intros Hm. unfold operation_members. rewrite jor_true by by apply modes_true. cbv zeta. fold (condition_tail o).
  unfold condition_tail, end_members, base_members. cbv zeta.
  destruct (meta_facts (o_mode o)) as [Ha Ho]. set (meta := meta_of (o_mode o)) in *. clearbody meta. set (path := trim (o_path o)).
  assert (forall v fs, put_flag "path" (m_pathOptional meta && truthy path) v (put_flag "path" (m_path meta) v fs) =
    put_flag "path" (m_path meta || (m_pathOptional meta && truthy path)) v fs) as ->.
  { intros v fs. unfold put_flag. destruct (m_pathOptional meta); [rewrite Ho by done|]; cbn [andb orb]; by rewrite ?orb_false_r. }
  set (base := put_flag "keep_origin" _ _ _). clearbody base.
  assert (forall t fs, put_flag "to" (m_to meta) t (put_flag "to" (negb (m_to meta) && truthy (trim (o_to o))) t fs) =
    put_flag "to" (m_to meta || truthy (trim (o_to o))) t fs) as -> by (intros; by destruct (m_to meta)).
  destruct (m_pathAlias meta); [|by rewrite !jor_nil]. destruct (Ha eq_refl) as (-> & -> & _). cbn [orb].
  assert (alias "to" path (alias "from" path (put_flag "to" true (JStr (trim (o_to o))) (put_flag "from" true (JStr (trim (o_from o))) base))) =
    put_flag "to" true (JStr (jor (trim (o_to o)) path)) (put_flag "from" true (JStr (jor (trim (o_from o)) path)) base)) as ->; [|done].
  unfold put_flag at 1 2. rewrite (alias_inner "from" "to") by by vm_compute. by rewrite alias_put.
Qed.

Lemma base_get o k : assoc (js k) (base_members o) =
  let meta := meta_of (o_mode o) in
  if String.eqb "keep_origin" k && (m_keepOrigin meta && o_keep_origin o) then Some (JBool true)
  else if String.eqb "value" k && m_value meta then Some (parseLooseValue (o_value_text o))
  else if String.eqb "path" k && (m_path meta || (m_pathOptional meta && truthy (trim (o_path o)))) then Some (JStr (trim (o_path o)))
  else if String.eqb "description" k && truthy (trim (o_description o)) then Some (JStr (trim (o_description o)))
  else if String.eqb "mode" k then Some (JStr (o_mode o)) else None.
Proof.
  unfold base_members. rewrite !flag_get, text_get. cbv zeta. repeat (case_match; try done).
  all: cbn [assoc]; destruct (jeqb (js "mode") (js k)) eqn:E; [apply jeqb_eq, js_inj in E as <-|]; try done.
  destruct (String.eqb_spec "mode" k) as [<-|]; [by rewrite jeqb_refl in E|done].
Qed.

Lemma end_get o k : assoc (js k) (end_members o) =
  let meta := meta_of (o_mode o) in
  let other := if m_pathAlias meta then trim (o_path o) else [] in
  if String.eqb "to" k && (m_to meta || truthy (trim (o_to o))) then Some (JStr (jor (trim (o_to o)) other))
  else if String.eqb "from" k && m_from meta then Some (JStr (jor (trim (o_from o)) other))
  else assoc (js k) (base_members o).
Proof. unfold end_members. by rewrite !flag_get. Qed.

Lemma tail_get o fs k : assoc (js k) (condition_tail o fs) =
  let conditions := omap buildConditionPayload (o_conditions o) in
  if bool_decide (conditions = []) then assoc (js k) fs
  else if String.eqb "logic" k then Some (JStr (if jeqb (o_logic o) (js "AND") then js "AND" else js "OR"))
  else if String.eqb "conditions" k then Some (JArr conditions) else assoc (js k) fs.
Proof. unfold condition_tail. case_bool_decide; [done|]. by rewrite !put_get. Qed.

(** The members of a rule, as [normalizeOperation] looks for them. *)
Lemma payload_get o k v : o_mode o ∈ OPERATION_MODE_VALUES -> assoc (js k) (operation_members o) = v -> jget (operation_payload o) (js k) = coalesce v JUndefined.
Proof. intros _ <-. done. Qed.

#[local] Ltac member_computes Hm :=
  rewrite (operation_shape _ Hm), tail_get; cbv zeta; cbn [String.eqb Ascii.eqb Bool.eqb];
  rewrite ?end_get; cbv zeta; cbn [String.eqb Ascii.eqb Bool.eqb andb];
  rewrite ?base_get; cbv zeta; cbn [String.eqb Ascii.eqb Bool.eqb andb].

Lemma rule_members o : o_mode o ∈ OPERATION_MODE_VALUES -> let get k := jget (operation_payload o) (js k) in
  let meta := meta_of (o_mode o) in
  let other := if m_pathAlias meta then trim (o_path o) else [] in
  let conditions := omap buildConditionPayload (o_conditions o) in
  get "mode"%string = JStr (o_mode o) /\ asString (get "description"%string) = trim (o_description o) /\
  asString (get "path"%string) = (if m_path meta || m_pathOptional meta then trim (o_path o) else []) /\
  toValueText (get "value"%string) = (if m_value meta then toValueText (parseLooseValue (o_value_text o)) else []) /\
  get "keep_origin"%string = (if m_keepOrigin meta && o_keep_origin o then JBool true else JUndefined) /\
  asString (get "from"%string) = (if m_from meta then jor (trim (o_from o)) other else []) /\
  asString (get "to"%string) = jor (trim (o_to o)) other /\
  get "conditions"%string = (if bool_decide (conditions = []) then JUndefined else JArr conditions) /\
  get "logic"%string = (if bool_decide (conditions = []) then JUndefined else JStr (if jeqb (o_logic o) (js "AND") then js "AND" else js "OR")).
Proof.
  intros Hm get meta other conditions. unfold get, operation_payload. cbn [jget].
  split; [member_computes Hm; fold conditions; by case_bool_decide|].
  split; [member_computes Hm; fold conditions; case_bool_decide; destruct (trim (o_description o)); done|].
  split; [member_computes Hm; fold conditions; fold meta; case_bool_decide; destruct (m_path meta), (m_pathOptional meta), (trim (o_path o)); done|].
  split; [member_computes Hm; fold conditions; fold meta; case_bool_decide; destruct (m_value meta); done|].
  split; [member_computes Hm; fold conditions; fold meta; case_bool_decide; destruct (m_keepOrigin meta && o_keep_origin o); done|].
  split; [member_computes Hm; fold conditions; fold meta; fold other; case_bool_decide; destruct (m_from meta); done|].
  split; [member_computes Hm; fold conditions; fold meta; fold other; case_bool_decide|].
  1,2: destruct (m_to meta) eqn:Et; cbn [orb]; [done|]; assert (other = []) as -> by
    (unfold other; destruct (m_pathAlias meta) eqn:Ea; [|done]; destruct (meta_facts (o_mode o)) as [Ha _]; fold meta in Ha; destruct (Ha Ea) as (_ & ? & _); congruence);
    rewrite jor_nil; by destruct (trim (o_to o)).
  split; member_computes Hm; fold conditions; by case_bool_decide.
Qed.

Lemma known_kept o : o_mode o ∈ OPERATION_MODE_VALUES -> known_mode OPERATION_MODE_VALUES (operation_payload o) "set" = o_mode o.
Proof. intros Hm. unfold known_mode. destruct (rule_members o Hm) as (-> & _). by rewrite one_of_true. Qed.

Lemma rule_read id o : sound_rule o ->
  normalizeOperation id (operation_payload o) = Done (kept_rule id o, (S id + length (o_conditions (kept_rule id o)))%nat).
Proof.
  intros [Hm Hl _ Hc]. pose proof (rule_members o Hm) as H. cbv zeta in H. destruct H as (_ & Hd & Hp & Hv & Hk & Hf & Ht & Hcs & Hlog).
  pose proof (known_kept o Hm) as Hmode. destruct (payloads_read (S id) (o_conditions o) Hc) as (Hread & _ & _ & Hnil).
  assert (forall v, v = operation_payload o -> normalizeOperation id v =
    abind (of_exc (String_of (vor (jget v (js "logic")) (JStr (js "OR"))))) (fun logic =>
      abind (match jget v (js "conditions") with JArr l => numbered normalizeCondition (S id) l | _ => Done ([], S id) end) (fun conditions =>
      Done ({| o_id := id; o_description := text_of_member v "description"; o_path := text_of_member v "path";
               o_mode := known_mode OPERATION_MODE_VALUES v "set"; o_from := text_of_member v "from";
               o_to := text_of_member v "to"; o_value_text := toValueText (jget v (js "value"));
               o_keep_origin := is_true v "keep_origin"; o_logic := if upper_is logic "AND" then js "AND" else js "OR";
               o_conditions := conditions.1 |}, conditions.2)))) as -> by (by intros v ->).
  2: done.
  unfold text_of_member, is_true. rewrite Hd, Hp, Hv, Hk, Hf, Ht, Hcs, Hlog, Hmode. clear Hd Hp Hv Hk Hf Ht Hcs Hlog Hmode.
  unfold kept_rule. cbv zeta. case_bool_decide as Hcond.
  - assert (kept_conditions (S id) (o_conditions o) = []) as -> by by apply Hnil. cbn [o_conditions length]. rewrite Nat.add_0_r.
    change (of_exc (String_of (vor JUndefined (JStr (js "OR"))))) with (Done (js "OR")). cbn [abind fst snd].
    rewrite (bool_decide_true ([] = [])) by done. do 2 f_equal.
    assert (upper_is (js "OR") "AND" = false) as -> by by vm_compute. by destruct (m_keepOrigin _ && _).
  - rewrite bool_decide_false by (intros E; by apply Hcond, Hnil).
    assert (of_exc (String_of (vor (JStr (if jeqb (o_logic o) (js "AND") then js "AND" else js "OR")) (JStr (js "OR")))) = Done (o_logic o) /\
      (if upper_is (o_logic o) "AND" then js "AND" else js "OR") = o_logic o) as [-> Hup] by (destruct Hl as [-> | ->]; by vm_compute).
    cbn [abind]. rewrite Hread. cbn [abind fst snd]. rewrite Hup. do 2 f_equal.
    by destruct (m_keepOrigin _ && _).
Qed.

Lemma kept_payload id o : sound_rule o -> operation_members (kept_rule id o) = operation_members o.
Proof.
  intros [Hm Hl Hv Hc]. rewrite !operation_shape by done. destruct (payloads_read (S id) (o_conditions o) Hc) as (_ & Hcs & _ & Hnil).
  assert (end_members (kept_rule id o) = end_members o) as ->.
  { unfold end_members, base_members. cbv zeta. cbn [kept_rule o_mode o_path o_description o_value_text o_keep_origin o_from o_to].
    destruct (meta_facts (o_mode o)) as [Ha Ho]. set (meta := meta_of (o_mode o)) in *. clearbody meta. rewrite trim_idem.
    assert (forall x y, trim (jor (trim x) (trim y)) = jor (trim x) (trim y)) as Hj by (intros; unfold jor; case_match; apply trim_idem).
    assert (put_flag "value" (m_value meta) (parseLooseValue (if m_value meta then toValueText (parseLooseValue (o_value_text o)) else [])) =
      put_flag "value" (m_value meta) (parseLooseValue (o_value_text o))) as ->.
    { destruct (m_value meta) eqn:Ev; [|done]. by rewrite (st_again _ (Hv eq_refl)). }
    assert (m_keepOrigin meta && (m_keepOrigin meta && o_keep_origin o) = m_keepOrigin meta && o_keep_origin o) as -> by by destruct (m_keepOrigin meta).
    destruct (m_pathAlias meta) eqn:Eal.
    - destruct (Ha eq_refl) as (-> & -> & -> & ->). cbn [orb andb]. rewrite !Hj. change (trim []) with ([] : jstring). rewrite !jor_nil. done.
    - rewrite !jor_nil, !trim_idem.
      assert (put_flag "path" (m_path meta || m_pathOptional meta && truthy (trim (if m_path meta || m_pathOptional meta then trim (o_path o) else [])))
        (JStr (trim (if m_path meta || m_pathOptional meta then trim (o_path o) else []))) =
        put_flag "path" (m_path meta || m_pathOptional meta && truthy (trim (o_path o))) (JStr (trim (o_path o)))) as ->.
      { destruct (m_path meta), (m_pathOptional meta); cbn [orb andb]; by rewrite ?trim_idem. }
      destruct (m_from meta); rewrite ?jor_nil, ?trim_idem; done. }
  unfold condition_tail. cbv zeta. cbn [kept_rule o_conditions o_logic]. rewrite Hcs. case_bool_decide as Hcond; [done|].
  rewrite bool_decide_false by (intros E; by apply Hcond, Hnil). done.
Qed.

Lemma operation_plain o : sound_rule o -> plain_json (operation_payload o).
Proof.
  intros [Hm Hl Hv Hc]. apply plain_members_obj. rewrite operation_shape by done. destruct (payloads_read 0 (o_conditions o) Hc) as (_ & _ & Hcp & _).
  assert (forall key b v fs, (b = true -> plain_json v) -> plain_members fs -> plain_members (put_flag key b v fs)) as Hflag
    by (intros key b v fs Hb; unfold put_flag; destruct b; auto using plain_put).
  assert (plain_members (end_members o)) as He.
  { unfold end_members, base_members, put_text. repeat (apply Hflag; [try (intros; constructor; done)|]); [by intros E; apply st_plain, Hv|].
    split; [apply NoDup_singleton|]. repeat constructor. }
  unfold condition_tail. case_bool_decide; [done|]. apply plain_put; [by constructor|]. apply plain_put; [by constructor|]. done.
Qed.

(** ** The check holds again *)

Lemma check_holds ok text line f : abind (check ok text line) f = Done tt <-> ok = true /\ f tt = Done tt.
Proof. unfold check. destruct ok; cbn; [tauto|]. by split; [|intros []]. Qed.

(** What the check asks of a rule: only its trimmed texts and the value matter. *)
Lemma valid_rule line o : o_mode o ∈ OPERATION_MODE_VALUES -> validateOperation line o = Done tt <->
  let meta := meta_of (o_mode o) in
  let aliased := m_pathAlias meta && truthy (trim (o_path o)) in
  negb (m_path meta) || truthy (trim (o_path o)) = true /\
  negb (one_of FROM_REQUIRED_MODES (o_mode o)) || truthy (trim (o_from o)) || aliased = true /\
  negb (one_of TO_REQUIRED_MODES (o_mode o)) || truthy (trim (o_to o)) || aliased = true /\
  negb (one_of VALUE_REQUIRED_MODES (o_mode o)) || truthy (trim (o_value_text o)) = true /\
  negb (jeqb (o_mode o) (js "return_error")) || error_has_message (trim (o_value_text o)) = true /\
  (jeqb (o_mode o) (js "pass_headers") = true -> exists names, parsePassHeaderNames (parseLooseValue (o_value_text o)) = Ret names /\ names <> []).
Proof.
  intros Hm. unfold validateOperation. rewrite jor_true by by apply modes_true. cbv zeta. rewrite !check_holds.
  assert (parseLooseValue (trim (o_value_text o)) = parseLooseValue (o_value_text o)) as -> by (unfold parseLooseValue; by rewrite trim_idem).
  assert ((if jeqb (o_mode o) (js "pass_headers") then abind (of_exc (parsePassHeaderNames (parseLooseValue (o_value_text o)))) (fun headers =>
      check (negb (bool_decide (headers = []))) "Rule {{line}} pass_headers format is invalid" line) else Done tt) = Done tt <->
    (jeqb (o_mode o) (js "pass_headers") = true -> exists names, parsePassHeaderNames (parseLooseValue (o_value_text o)) = Ret names /\ names <> [])) as ->; [|tauto].
  destruct (jeqb _ _); [|by split]. destruct (parsePassHeaderNames _) as [names|]; cbn [of_exc abind].
  - unfold check. case_bool_decide as E; cbn [negb]; split; [done| |eauto|done]. intros H. destruct (H eq_refl) as (n & [= <-] & Hn). done.
  - split; [done|]. intros H. by destruct (H eq_refl) as (n & ? & _).
Qed.

Lemma message_of_value valueText : error_has_message (trim valueText) =
  match parseLooseValue valueText with JObj fs => match trimmed_text (jget (JObj fs) (js "message")) with Ret s => truthy s | Throw => true end | _ => true end.
Proof.
  unfold error_has_message, parseLooseValue. destruct (truthy (trim valueText)) eqn:Et; cbn [negb].
  - by destruct (JSON_parse (trim valueText)).
  - destruct (trim valueText); [|done]. by vm_compute.
Qed.

Lemma value_modes mode : one_of VALUE_REQUIRED_MODES mode = true \/ jeqb mode (js "return_error") = true \/ jeqb mode (js "pass_headers") = true ->
  m_value (meta_of mode) = true.
Proof.
  intros H. assert (mode ∈ VALUE_REQUIRED_MODES) as Hin.
  { destruct H as [H|[H|H]]; [by apply bool_decide_eq_true in H| |]; apply jeqb_eq in H as ->; apply (bool_decide_unpack _); by vm_compute. }
  assert (forallb (fun m => m_value (meta_of m)) VALUE_REQUIRED_MODES = true) as Hall by (vm_compute; reflexivity).
  rewrite forallb_forall in Hall. by apply Hall, list_elem_of_In.
Qed.

Lemma from_modes mode : one_of FROM_REQUIRED_MODES mode = true -> m_from (meta_of mode) = true.
Proof.
  intros H%bool_decide_eq_true. assert (forallb (fun m => m_from (meta_of m)) FROM_REQUIRED_MODES = true) as Hall by (vm_compute; reflexivity).
  rewrite forallb_forall in Hall. by apply Hall, list_elem_of_In.
Qed.

Lemma kept_valid line id o : sound_rule o -> validateOperation line o = Done tt -> validateOperation line (kept_rule id o) = Done tt.
Proof.
  intros [Hm Hl Hv Hc] H. apply (valid_rule line o Hm) in H. apply (valid_rule line (kept_rule id o) Hm). cbv zeta in *.
  cbn [kept_rule o_mode o_path o_from o_to o_value_text]. set (meta := meta_of (o_mode o)) in *.
  destruct (meta_facts (o_mode o)) as [Ha _]. fold meta in Ha. destruct H as (H1 & H2 & H3 & H4 & H5 & H6).
  assert (forall x y, truthy (trim (jor (trim x) y)) = truthy (trim x) || truthy (trim y)) as Hj
    by (intros x y; unfold jor; destruct (truthy (trim x)) eqn:E; [by rewrite trim_idem, E|done]).
  assert (one_of VALUE_REQUIRED_MODES (o_mode o) = true \/ jeqb (o_mode o) (js "return_error") = true \/ jeqb (o_mode o) (js "pass_headers") = true ->
    m_value meta = true) as Hval by apply value_modes.
  split; [|split; [|split; [|split; [|split]]]].
  - destruct (m_path meta); [|done]. cbn [orb]. by rewrite trim_idem.
  - destruct (one_of FROM_REQUIRED_MODES (o_mode o)) eqn:E; [|done]. cbn [negb orb] in *. rewrite (from_modes _ E : m_from meta = true), Hj.
    destruct (m_pathAlias meta) eqn:Eal; cbn [andb] in *; [|by rewrite orb_false_r in *; rewrite H2].
    rewrite trim_idem. destruct (truthy (trim (o_from o))), (truthy (trim (o_path o))); done.
  - destruct (one_of TO_REQUIRED_MODES (o_mode o)) eqn:E; [|done]. cbn [negb orb] in *. rewrite Hj.
    destruct (m_pathAlias meta) eqn:Eal; cbn [andb] in *; [|by rewrite orb_false_r in *; rewrite H3].
    rewrite trim_idem. destruct (truthy (trim (o_to o))), (truthy (trim (o_path o))); done.
  - destruct (one_of VALUE_REQUIRED_MODES (o_mode o)) eqn:E; [|done]. cbn [negb orb] in *. rewrite Hval by auto.
    apply st_blank; [|done]. apply Hv, Hval. auto.
  - destruct (jeqb (o_mode o) (js "return_error")) eqn:E; [|done]. cbn [negb orb] in *. assert (m_value meta = true) as Emv by auto.
    rewrite Emv, message_of_value, (st_again _ (Hv Emv)), <- message_of_value. done.
  - intros E. assert (m_value meta = true) as Emv by auto. rewrite Emv, (st_again _ (Hv Emv)). auto.
Qed.

Lemma valid_not_blank line o : o_mode o ∈ OPERATION_MODE_VALUES -> validateOperation line o = Done tt -> isOperationBlank o = false.
Proof.
  intros Hm H. unfold isOperationBlank. destruct (jeqb (o_mode o) (js "set")) eqn:E; [|done]. apply jeqb_eq in E.
  apply (valid_rule line o Hm) in H as [H _]. rewrite E in H. change (m_path (meta_of (js "set"))) with true in H. cbn [negb orb] in H. by rewrite H.
Qed.

(** ** A saved override is read back *)

Lemma rules_read id l : Forall sound_rule l -> exists next,
  numbered normalizeOperation id (map operation_payload l) = Done (kept_rules id l, next).
Proof.
  intros Hl. induction Hl as [|o l Ho _ IH] in id |- *; [by exists id|]. cbn [map numbered]. rewrite rule_read by done. cbn [abind fst snd].
  destruct (IH (S id + length (o_conditions (kept_rule id o)))%nat) as (next & ->). exists next. done.
Qed.

Lemma kept_payloads id l : Forall sound_rule l -> map operation_payload (kept_rules id l) = map operation_payload l.
Proof.
  intros Hl. induction Hl as [|o l Ho _ IH] in id |- *; [done|]. cbn [kept_rules map]. cbv zeta. cbn [map]. rewrite IH. f_equal.
  unfold operation_payload. by rewrite kept_payload.
Qed.

Lemma all_valid line l : Forall (fun o => o_mode o ∈ OPERATION_MODE_VALUES) l -> validate_from line l = Done tt ->
  List.filter (fun o => negb (isOperationBlank o)) l = l.
Proof.
  intros Hl. induction Hl as [|o l Ho _ IH] in line |- *; [done|]. cbn [validate_from List.filter]. unfold abind.
  destruct (validateOperation line o) as [[]|] eqn:E; [|done]. intros H. rewrite (valid_not_blank line o Ho E). cbn [negb]. f_equal. by apply (IH (S line)).
Qed.

Lemma kept_all_valid line id l : Forall sound_rule l -> validate_from line l = Done tt -> validate_from line (kept_rules id l) = Done tt.
Proof.
  intros Hl. induction Hl as [|o l Ho _ IH] in line, id |- *; [done|]. cbn [kept_rules validate_from]. cbv zeta. cbn [validate_from]. unfold abind.
  destruct (validateOperation line o) as [[]|] eqn:E; [|done]. intros H. rewrite kept_valid by done. by apply IH.
Qed.

Lemma kept_sound_modes id l : Forall sound_rule l -> Forall (fun o => o_mode o ∈ OPERATION_MODE_VALUES) (kept_rules id l).
Proof. intros Hl. induction Hl as [|o l [Ho _ _ _] _ IH] in id |- *; cbn [kept_rules]; cbv zeta; constructor; [done|apply IH]. Qed.

Lemma document_plain l : Forall sound_rule l -> plain_json (document l).
Proof.
  intros Hl. apply plain_members_obj. split; [apply NoDup_singleton|]. constructor; [|constructor]. constructor. apply Forall_map.
  eapply Forall_impl; [exact Hl|]. intros o Ho. by apply operation_plain.
Qed.

(** The text of an object begins and ends with its braces. *)
Lemma members_close fs s : prints_members fs s -> exists w, s = w ++ [125%N].
Proof.
  induction 1.
  - exists (w ++ json_quote k ++ w1 ++ 58%N :: w2 ++ t ++ w3).
    repeat (rewrite <- app_assoc; cbn [app]). done.
  - destruct IHprints_members as (u & ->). exists (w ++ json_quote k ++ w1 ++ 58%N :: w2 ++ t ++ w3 ++ 44%N :: u).
    repeat (rewrite <- app_assoc; cbn [app]). done.
Qed.

Lemma object_text_trim fs : plain_json (JObj fs) -> trim (JSON_stringify_2 (JObj fs)) = JSON_stringify_2 (JObj fs) /\ truthy (JSON_stringify_2 (JObj fs)) = true.
Proof.
  intros H. destruct (indented_printed _ H 0) as [_ Hp]. change (indented 0 (JObj fs)) with (JSON_stringify_2 (JObj fs)) in Hp.
  assert (exists w, JSON_stringify_2 (JObj fs) = 123%N :: w ++ [125%N]) as (w & ->).
  { revert Hp. generalize (JSON_stringify_2 (JObj fs)). intros t Hp. inversion Hp as [| | | | | |w Hw|fs' s Hnd Hs]; subst; [by exists w|].
    apply members_close in Hs as (w & ->). by exists w. }
  split; [|done]. apply edged_trim. exists 123%N, 125%N, w. split; [by right|done].
Qed.

Lemma build_text ops text : buildOperationsJson ops true = Done text -> text <> [] ->
  let kept := List.filter (fun o => negb (isOperationBlank o)) ops in
  kept <> [] /\ validateOperations kept = Done tt /\ text = JSON_stringify_2 (document kept).
Proof.
  unfold buildOperationsJson. cbv zeta. destruct (List.filter _ ops) as [|o l]; [by intros [= <-]|].
  destruct (validateOperations (o :: l)) as [[]|]; cbn [abind]; [|done]. by intros [= <-] _.
Qed.

Definition not_blank (ops : list Operation) : list Operation := List.filter (fun o => negb (isOperationBlank o)) ops.

(** What the text of checked rules is read as: the document, with the rules that were not blank, whose text is the same. *)
Lemma built_read ops text next : Forall sound_rule ops -> buildOperationsJson ops true = Done text -> text <> [] ->
  trim text = text /\ truthy text = true /\ JSON_parse text = Ret (document (not_blank ops)) /\ JSON_stringify_2 (document (not_blank ops)) = text /\
  (exists next', rules_of next (map operation_payload (not_blank ops)) = Done (kept_rules next (not_blank ops), next')) /\
  buildOperationsJson (kept_rules next (not_blank ops)) true = Done text.
Proof.
  intros Hops Hb Hne. apply build_text in Hb as (Hk & Hv & ->); [|done]. fold (not_blank ops) in *. set (kept := not_blank ops) in *.
  assert (Forall sound_rule kept) as Hs.
  { apply Forall_forall. intros o [Ho _]%list_elem_of_In%filter_In. rewrite List.Forall_forall in Hops. by apply Hops. }
  clearbody kept. clear Hops. pose proof (document_plain kept Hs) as Hplain. destruct (object_text_trim _ Hplain) as [Htrim Htruthy]. fold (document kept) in Htrim, Htruthy.
  destruct (rules_read next kept Hs) as (next' & Hread). split; [done|]. split; [done|]. split; [by apply parse_stringify_2|]. split; [done|]. split.
  - exists next'. unfold rules_of. destruct kept as [|o l]; [done|]. exact Hread.
  - pose proof (kept_all_valid 1 next kept Hs Hv) as Hv'. unfold buildOperationsJson. cbv zeta.
    rewrite (all_valid 1 _ (kept_sound_modes next kept Hs) Hv').
    assert (kept_rules next kept <> []) as Hne' by by destruct kept.
    destruct (kept_rules next kept) as [|o l] eqn:E; [done|]. unfold validateOperations. rewrite Hv'. cbn [abind].
    unfold document. rewrite <- E, kept_payloads by done. done.
Qed.

Lemma document_rules ops : jget (document ops) (js "operations") = JArr (map operation_payload ops).
Proof. unfold document. cbn [jget assoc]. by rewrite jeqb_refl. Qed.

(** C26. An override that passes the check and is saved is read back: the editor opens with the rules that were not blank, each with its
    texts trimmed, its conditions that name a path and the parts that its mode uses; saving again, checked again, gives the same text.  The
    values in the rules are ones that keep their meaning when they are written and read; what is no JSON is such a value, and what is
    JSON but no text. *)
Theorem override_read_back ops text next : Forall sound_rule ops -> buildOperationsJson ops true = Done text -> text <> [] ->
  exists next', parseInitialState next text = Done
    ({| editMode := Visual; visualMode := Operations; legacyValue := []; operations := kept_rules next (not_blank ops);
        jsonText := text; jsonError := None |}, next') /\
    buildOperationsJson (kept_rules next (not_blank ops)) true = Done text.
Proof.
  intros Hops Hb Hne. destruct (built_read ops text next Hops Hb Hne) as (Htrim & Htruthy & Hp & Htext & (next' & Hread) & Hagain). exists next'.
  split; [|exact Hagain]. unfold parseInitialState. cbv zeta. rewrite Htrim, Htruthy. cbn [negb]. rewrite Hp. unfold document at 1. fold (document (not_blank ops)).
  rewrite document_rules, Htext, Hread. done.
Qed.

(** The first template: the temperature of some models. *)
Definition sample_rule : Operation :=
  {| o_id := 0; o_description := js " Default temperature "; o_path := js "temperature"; o_mode := js "set"; o_from := []; o_to := [];
     o_value_text := js "0.7"; o_keep_origin := true; o_logic := js "AND";
     o_conditions := [{| k_id := 1; k_path := js "model"; k_mode := js "prefix"; k_value_text := js "openai/"; k_invert := false; k_pass_missing_key := true |};
                      createDefaultCondition 2] |}.
Definition sample_header : Operation :=
  {| o_id := 3; o_description := []; o_path := js " x-auth "; o_mode := js "copy_header"; o_from := []; o_to := js "x-other"; o_value_text := js "left over";
     o_keep_origin := false; o_logic := js "OR"; o_conditions := [] |}.

Lemma sample_sound : Forall sound_rule [sample_rule; createDefaultOperation 4; sample_header].
Proof.
  assert (settled []) as Hnil by (apply settled_words; by vm_compute).
  assert (settled (js "0.7")) as Hnum.
  { eapply settled_value; [vm_compute; reflexivity| |done]. constructor. split; vm_compute; reflexivity. }
  assert (settled (js "openai/")) as Hword by (apply settled_words; by vm_compute).
  assert (forall (m : jstring) (l : list jstring), bool_decide (m ∈ l) = true -> m ∈ l) as Hin by (intros m l; apply bool_decide_eq_true).
  apply Forall_cons. split; [|apply Forall_cons; split; [|apply Forall_singleton]].
  - constructor; [by apply Hin; vm_compute|by left|done|]. apply Forall_cons. split; [|apply Forall_singleton].
    + split; [by apply Hin; vm_compute|done].
    + split; [by apply Hin; vm_compute|done].
  - constructor; [by apply Hin; vm_compute|by right|done|constructor].
  - constructor; [by apply Hin; vm_compute|by right|by vm_compute|constructor].
Qed.

Lemma override_read_back_witness : exists text next', parseInitialState 10 text = Done
  ({| editMode := Visual; visualMode := Operations; legacyValue := []; operations := kept_rules 10 [sample_rule; sample_header]; jsonText := text; jsonError := None |}, next') /\
  buildOperationsJson (kept_rules 10 [sample_rule; sample_header]) true = Done text.
Proof.
  set (text := match buildOperationsJson [sample_rule; createDefaultOperation 4; sample_header] true with Done t => t | Failed _ => [] end).
  exists text. refine (override_read_back [sample_rule; createDefaultOperation 4; sample_header] text 10 sample_sound _ _); vm_compute; [reflexivity|discriminate].
Defined.

Example header_alias : omap (fun o => Some (operation_members o)) [sample_header] =
  [[(js "mode", JStr (js "copy_header")); (js "from", JStr (js "x-auth")); (js "to", JStr (js "x-other"))]].
Proof. vm_compute. reflexivity. Qed.

(** What one save and the next write, the editor opened in between. *)
Definition saved_again (ops : list Operation) : attempt jstring :=
  abind (buildOperationsJson ops true) (fun text => abind (parseInitialState 0 text) (fun st => buildOperationsJson (operations st.1) true)).

Definition set_rule (value : jstring) : Operation :=
  {| o_id := 0; o_description := []; o_path := js "a"; o_mode := js "set"; o_from := []; o_to := []; o_value_text := value; o_keep_origin := false;
     o_logic := js "OR"; o_conditions := [] |}.

(** A text that looks like a number is saved as a text, shown without its quotes, and the next save makes it a number. *)
Example text_becomes_number :
  operation_members (set_rule (ch_quote :: js "7" ++ [ch_quote])) = [(js "mode", JStr (js "set")); (js "path", JStr (js "a")); (js "value", JStr (js "7"))] /\
  saved_again [set_rule (ch_quote :: js "7" ++ [ch_quote])] = buildOperationsJson [set_rule (js "7")] true /\
  operation_members (set_rule (js "7")) = [(js "mode", JStr (js "set")); (js "path", JStr (js "a")); (js "value", JNum (num_of_Z 7))].
Proof. vm_compute. auto. Qed.

(** Members beside the rules are not saved. *)
Example other_members_lost :
  abind (parseInitialState 0 (JSON_stringify (JObj [(js "operations", JArr [operation_payload (set_rule (js "7"))]); (js "temperature", JNum (num_of_Z 0))])))
    (fun st => buildOperationsJson (operations st.1) true) = buildOperationsJson [set_rule (js "7")] true.
Proof. vm_compute. reflexivity. Qed.

(** A list of rules with null in it stops the editor when it is opened. *)
Example null_rule_throws : parseInitialState 0 (JSON_stringify (JObj [(js "operations", JArr [JNull])])) = Failed TypeError.
Proof. vm_compute. reflexivity. Qed.

(** ** The order of the rules *)

Lemma without_split {A} (l1 l2 : list A) x : without (length l1) (l1 ++ x :: l2) = l1 ++ l2.
Proof. unfold without. rewrite take_app_length. f_equal. rewrite (cons_middle x l1 l2), app_assoc. rewrite <- (drop_app_length (l1 ++ [x]) l2) at 2. f_equal. rewrite length_app. cbn. lia. Qed.

Lemma insert_split {A} (l1 l2 : list A) x : insert_at (length l1) x (l1 ++ l2) = l1 ++ x :: l2.
Proof. unfold insert_at. by rewrite take_app_length, drop_app_length. Qed.

(** Dragging a rule moves it beside the rule it is dropped on, before or after it, and leaves the others as they are, in their order;
    where one of the two is not there, nothing moves. *)
Theorem rule_moved ops source target position : source <> target -> NoDup (map o_id ops) ->
  let result := reorderOperations ops (Some source) (Some target) position in
  result ≡ₚ ops /\
  List.filter (fun o => negb (has_id source o)) result = List.filter (fun o => negb (has_id source o)) ops /\
  (source ∈ map o_id ops -> target ∈ map o_id ops -> exists l1 s t l2, o_id s = source /\ o_id t = target /\
    result = l1 ++ (match position with Before => [s; t] | After => [t; s] end) ++ l2) /\
  (source ∉ map o_id ops \/ target ∉ map o_id ops -> result = ops).
Proof.
  intros Hst Hnd. cbv zeta. unfold reorderOperations. destruct (Nat.eqb_spec source target) as [|_]; [done|].
  assert (forall l id, find_index (has_id id) l = None -> id ∉ map o_id l) as Hnone.
  { intros l id H%find_index_None. intros (o & -> & Ho)%list_elem_of_fmap. rewrite Forall_forall in H. specialize (H o Ho). unfold has_id in H. by rewrite Nat.eqb_refl in H. }
  destruct (find_index (has_id source) ops) as [i|] eqn:Ei.
  2: { repeat split; auto. intros Hs. by apply Hnone in Ei. }
  apply find_index_Some in Ei as (l1 & s & l2 & -> & <- & Hs & _). unfold has_id in Hs. apply Nat.eqb_eq in Hs. rewrite without_split, list_lookup_middle by done.
  assert (forall o, o ∈ l1 ++ l2 -> o_id o <> source) as Hother.
  { intros o Ho E. rewrite map_app in Hnd. cbn [map] in Hnd. apply NoDup_app in Hnd as (_ & Hd & [Hn _]%NoDup_cons). rewrite Hs in *.
    apply elem_of_app in Ho as [Ho|Ho]; [apply (Hd (o_id o)); [by apply list_elem_of_fmap_2|rewrite E; by left]|]. apply Hn. rewrite <- E. by apply list_elem_of_fmap_2. }
  assert (source ∈ map o_id (l1 ++ s :: l2)) as Hin by (rewrite map_app; cbn; rewrite Hs; set_solver).
  destruct (find_index (has_id target) (l1 ++ l2)) as [j|] eqn:Ej.
  2: { repeat split; auto. intros _ Ht. exfalso. apply (Hnone _ _ Ej). rewrite map_app in *. cbn in Ht. rewrite Hs in Ht. rewrite elem_of_app in *. rewrite elem_of_cons in Ht. naive_solver. }
  apply find_index_Some in Ej as (k1 & t & k2 & Ek & <- & Ht & _). unfold has_id in Ht. apply Nat.eqb_eq in Ht.
  assert (match position with Before => insert_at (length k1) s (l1 ++ l2) | After => insert_at (S (length k1)) s (l1 ++ l2) end =
    k1 ++ (match position with Before => [s; t] | After => [t; s] end) ++ k2) as Er.
  { rewrite Ek. destruct position; [by rewrite insert_split|]. rewrite (cons_middle t k1 k2), app_assoc. replace (S (length k1)) with (length (k1 ++ [t])) by (rewrite length_app; cbn; lia).
    rewrite insert_split, <- app_assoc. done. }
  assert (insert_at (match position with Before => length k1 | After => S (length k1) end) s (l1 ++ l2) =
    k1 ++ (match position with Before => [s; t] | After => [t; s] end) ++ k2) as -> by (by destruct position).
  split; [|split; [|split]].
  - transitivity (s :: l1 ++ l2); [rewrite Ek|apply Permutation_middle]. symmetry. destruct position; cbn [app]; [apply Permutation_middle|].
    transitivity (k1 ++ s :: t :: k2); [apply Permutation_middle|apply Permutation_app_head, Permutation_swap].
  - assert (forall a b, List.filter (fun o => negb (has_id source o)) (a ++ s :: b) = List.filter (fun o => negb (has_id source o)) (a ++ b)) as Hskip.
    { intros a b. rewrite !List.filter_app. cbn [List.filter]. assert (has_id source s = true) as -> by (unfold has_id; by rewrite Hs, Nat.eqb_refl). done. }
    rewrite Hskip, Ek. destruct position; cbn [app]; [apply Hskip|]. rewrite (cons_middle t k1), app_assoc, Hskip, <- app_assoc. done.
  - intros _ _. exists k1, s, t, k2. auto.
  - intros [H|H]; [done|]. exfalso. apply H. assert (t ∈ l1 ++ l2) as Hin' by (rewrite Ek; set_solver). rewrite <- Ht. apply list_elem_of_fmap_2.
    rewrite elem_of_app in *. rewrite elem_of_cons. tauto.
Qed.

Lemma rule_moved_witness : reorderOperations [createDefaultOperation 0; createDefaultOperation 1; createDefaultOperation 2] (Some 0%nat) (Some 2%nat) Before ≡ₚ
  [createDefaultOperation 0; createDefaultOperation 1; createDefaultOperation 2].
Proof.
  refine (proj1 (rule_moved [createDefaultOperation 0; createDefaultOperation 1; createDefaultOperation 2] 0 2 Before _ _));
    [discriminate|apply (bool_decide_unpack _); vm_compute; exact I].
Defined.
