(* ===== verification/ParamEditor.v ===== *)
(** * The editor of request parameter overrides

    ParamOverrideEditorDialog of param-override-editor-dialog.tsx as a machine over the rules of ParamOverride: opening, the edits of
    rules, conditions and drafts, dragging, switching between the visual editor and the text, templates, and saving.  An updater of the
    renderer runs at once; the effect that keeps a rule selected runs after every step.  Numbers of drafts and conditions come from the
    one counter of the page. *)

From S2P Require Import Prelude JsValue JsText JsonText JsonPretty JsObject ParamOverride.
From S2P Require ChannelForm.
#[global] Open Scope Z_scope.

(** ** Templates *)

Definition obj (fs : list (string * jsval)) : jsval := JObj (map (fun f => (js f.1, f.2)) fs).
Definition txt (s : string) : jsval := JStr (js s).
Definition int (z : Z) : jsval := JNum (num_of_Z z).
Definition rules (l : list jsval) : jsval := obj [("operations"%string, JArr l)].

Definition LEGACY_TEMPLATE : jsval := obj [("temperature", int 0); ("max_tokens", int 1000)]%string.

Definition OPERATION_TEMPLATE : jsval :=
  rules [obj [("description", txt "Set default temperature for openai/* models."); ("path", txt "temperature"); ("mode", txt "set");
              ("value", JNum (Number (js "0.7"))); ("conditions", JArr [obj [("path", txt "model"); ("mode", txt "prefix"); ("value", txt "openai/")]]);
              ("logic", txt "AND")]]%string.

Definition HEADER_PASSTHROUGH_TEMPLATE : jsval :=
  rules [obj [("description", txt "Pass through X-Request-Id header to upstream."); ("mode", txt "pass_headers");
              ("value", JArr [txt "X-Request-Id"]); ("keep_origin", JBool true)]]%string.

Definition original_model (mode value : string) : jsval := obj [("path", txt "original_model"); ("mode", txt mode); ("value", txt value)]%string.

Definition GEMINI_IMAGE_4K_TEMPLATE : jsval :=
  rules [obj [("description", txt "Set imageSize to 4K when model contains gemini/image and ends with 4k."); ("mode", txt "set");
              ("path", txt "generationConfig.imageConfig.imageSize"); ("value", txt "4K");
              ("conditions", JArr [original_model "contains" "gemini"; original_model "contains" "image"; original_model "suffix" "4k"]);
              ("logic", txt "AND")]]%string.

Definition CODEX_CLI_HEADER_PASSTHROUGH_HEADERS : list string :=
  ["Originator"; "Session_id"; "Thread_id"; "Session-Id"; "Thread-Id"; "X-Client-Request-Id"; "User-Agent"; "X-Codex-Beta-Features";
   "X-Codex-Turn-State"; "X-Codex-Turn-Metadata"; "X-Codex-Window-Id"; "X-Codex-Parent-Thread-Id"; "X-OpenAI-Subagent"; "X-OpenAI-Memgen-Request";
   "X-ResponsesAPI-Include-Timing-Metrics"; "X-OpenAI-Internal-Codex-Responses-Lite"]%string.

Definition CLAUDE_CLI_HEADER_PASSTHROUGH_HEADERS : list string :=
  ["X-Stainless-Arch"; "X-Stainless-Lang"; "X-Stainless-Os"; "X-Stainless-Package-Version"; "X-Stainless-Retry-Count"; "X-Stainless-Runtime";
   "X-Stainless-Runtime-Version"; "X-Stainless-Timeout"; "User-Agent"; "X-App"; "Anthropic-Beta"; "Anthropic-Dangerous-Direct-Browser-Access";
   "Anthropic-Version"]%string.

Definition buildPassHeadersTemplate (headers : list string) : jsval :=
  rules [obj [("mode", txt "pass_headers"); ("value", JArr (map txt headers)); ("keep_origin", JBool true)]]%string.

Definition CODEX_CLI_HEADER_PASSTHROUGH_TEMPLATE : jsval := buildPassHeadersTemplate CODEX_CLI_HEADER_PASSTHROUGH_HEADERS.
Definition CLAUDE_CLI_HEADER_PASSTHROUGH_TEMPLATE : jsval := buildPassHeadersTemplate CLAUDE_CLI_HEADER_PASSTHROUGH_HEADERS.

Definition AWS_BEDROCK_ANTHROPIC_COMPAT_TEMPLATE : jsval :=
  rules
    [obj [("description", txt "Normalize anthropic-beta header tokens for Bedrock compatibility."); ("mode", txt "set_header");
          ("path", txt "anthropic-beta");
          ("value", obj
            [("advanced-tool-use-2025-11-20", txt "tool-search-tool-2025-10-19"); ("bash_20241022", JNull); ("bash_20250124", JNull);
             ("code-execution-2025-08-25", JNull); ("compact-2026-01-12", txt "compact-2026-01-12");
             ("computer-use-2025-01-24", txt "computer-use-2025-01-24"); ("computer-use-2025-11-24", txt "computer-use-2025-11-24");
             ("context-1m-2025-08-07", txt "context-1m-2025-08-07"); ("context-management-2025-06-27", txt "context-management-2025-06-27");
             ("effort-2025-11-24", JNull); ("fast-mode-2026-02-01", JNull); ("files-api-2025-04-14", JNull);
             ("fine-grained-tool-streaming-2025-05-14", JNull); ("interleaved-thinking-2025-05-14", txt "interleaved-thinking-2025-05-14");
             ("mcp-client-2025-11-20", JNull); ("mcp-client-2025-04-04", JNull); ("mcp-servers-2025-12-04", JNull);
             ("output-128k-2025-02-19", JNull); ("structured-output-2024-03-01", JNull); ("prompt-caching-scope-2026-01-05", JNull);
             ("skills-2025-10-02", JNull); ("structured-outputs-2025-11-13", JNull); ("text_editor_20241022", JNull);
             ("text_editor_20250124", JNull); ("token-efficient-tools-2025-02-19", JNull);
             ("tool-search-tool-2025-10-19", txt "tool-search-tool-2025-10-19"); ("web-fetch-2025-09-10", JNull);
             ("web-search-2025-03-05", JNull); ("oauth-2025-04-20", JNull)])];
     obj [("description", txt "Remove all tools[*].custom.input_examples before upstream relay."); ("mode", txt "delete");
          ("path", txt "tools.*.custom.input_examples")]]%string.

(** The kind and the payload of a preset. *)
Definition TEMPLATE_PRESET_CONFIG : list (jstring * (VisualMode * jsval)) :=
  map (fun e => (js e.1, e.2))
    [("operations_default", (Operations, OPERATION_TEMPLATE)); ("legacy_default", (Legacy, LEGACY_TEMPLATE));
     ("pass_headers_auth", (Operations, HEADER_PASSTHROUGH_TEMPLATE)); ("gemini_image_4k", (Operations, GEMINI_IMAGE_4K_TEMPLATE));
     ("claude_cli_headers_passthrough", (Operations, CLAUDE_CLI_HEADER_PASSTHROUGH_TEMPLATE));
     ("codex_cli_headers_passthrough", (Operations, CODEX_CLI_HEADER_PASSTHROUGH_TEMPLATE));
     ("aws_bedrock_anthropic_beta_override", (Operations, AWS_BEDROCK_ANTHROPIC_COMPAT_TEMPLATE))]%string.

(** ** The state *)

Record Editor := {
  ed : EditorState; operationSearch : jstring; selectedOperationId : option nat; expandedConditions : list (nat * bool);
  draggedOperationId : option nat; dragOverOperationId : option nat; dragOverPosition : Position; templatePresetKey : jstring;
  localIdSeed : nat; saved : list jstring; toasts : list Message; is_open : bool
}.

Definition with_ed (s : EditorState) (e : Editor) : Editor :=
  {| ed := s; operationSearch := operationSearch e; selectedOperationId := selectedOperationId e; expandedConditions := expandedConditions e;
     draggedOperationId := draggedOperationId e; dragOverOperationId := dragOverOperationId e; dragOverPosition := dragOverPosition e;
     templatePresetKey := templatePresetKey e; localIdSeed := localIdSeed e; saved := saved e; toasts := toasts e; is_open := is_open e |}.
Definition with_selected (id : option nat) (e : Editor) : Editor :=
  {| ed := ed e; operationSearch := operationSearch e; selectedOperationId := id; expandedConditions := expandedConditions e;
     draggedOperationId := draggedOperationId e; dragOverOperationId := dragOverOperationId e; dragOverPosition := dragOverPosition e;
     templatePresetKey := templatePresetKey e; localIdSeed := localIdSeed e; saved := saved e; toasts := toasts e; is_open := is_open e |}.
Definition with_expanded (l : list (nat * bool)) (e : Editor) : Editor :=
  {| ed := ed e; operationSearch := operationSearch e; selectedOperationId := selectedOperationId e; expandedConditions := l;
     draggedOperationId := draggedOperationId e; dragOverOperationId := dragOverOperationId e; dragOverPosition := dragOverPosition e;
     templatePresetKey := templatePresetKey e; localIdSeed := localIdSeed e; saved := saved e; toasts := toasts e; is_open := is_open e |}.
Definition with_drag (dragged over : option nat) (position : Position) (e : Editor) : Editor :=
  {| ed := ed e; operationSearch := operationSearch e; selectedOperationId := selectedOperationId e; expandedConditions := expandedConditions e;
     draggedOperationId := dragged; dragOverOperationId := over; dragOverPosition := position;
     templatePresetKey := templatePresetKey e; localIdSeed := localIdSeed e; saved := saved e; toasts := toasts e; is_open := is_open e |}.
Definition with_preset (key : jstring) (e : Editor) : Editor :=
  {| ed := ed e; operationSearch := operationSearch e; selectedOperationId := selectedOperationId e; expandedConditions := expandedConditions e;
     draggedOperationId := draggedOperationId e; dragOverOperationId := dragOverOperationId e; dragOverPosition := dragOverPosition e;
     templatePresetKey := key; localIdSeed := localIdSeed e; saved := saved e; toasts := toasts e; is_open := is_open e |}.
Definition with_search (s : jstring) (e : Editor) : Editor :=
  {| ed := ed e; operationSearch := s; selectedOperationId := selectedOperationId e; expandedConditions := expandedConditions e;
     draggedOperationId := draggedOperationId e; dragOverOperationId := dragOverOperationId e; dragOverPosition := dragOverPosition e;
     templatePresetKey := templatePresetKey e; localIdSeed := localIdSeed e; saved := saved e; toasts := toasts e; is_open := is_open e |}.
Definition with_seed (n : nat) (e : Editor) : Editor :=
  {| ed := ed e; operationSearch := operationSearch e; selectedOperationId := selectedOperationId e; expandedConditions := expandedConditions e;
     draggedOperationId := draggedOperationId e; dragOverOperationId := dragOverOperationId e; dragOverPosition := dragOverPosition e;
     templatePresetKey := templatePresetKey e; localIdSeed := n; saved := saved e; toasts := toasts e; is_open := is_open e |}.
Definition with_toast (m : Message) (e : Editor) : Editor :=
  {| ed := ed e; operationSearch := operationSearch e; selectedOperationId := selectedOperationId e; expandedConditions := expandedConditions e;
     draggedOperationId := draggedOperationId e; dragOverOperationId := dragOverOperationId e; dragOverPosition := dragOverPosition e;
     templatePresetKey := templatePresetKey e; localIdSeed := localIdSeed e; saved := saved e; toasts := toasts e ++ [m]; is_open := is_open e |}.
Definition with_saved (text : jstring) (e : Editor) : Editor :=
  {| ed := ed e; operationSearch := operationSearch e; selectedOperationId := selectedOperationId e; expandedConditions := expandedConditions e;
     draggedOperationId := draggedOperationId e; dragOverOperationId := dragOverOperationId e; dragOverPosition := dragOverPosition e;
     templatePresetKey := templatePresetKey e; localIdSeed := localIdSeed e; saved := saved e ++ [text]; toasts := toasts e; is_open := false |}.

Definition set_operations (ops : list Operation) (s : EditorState) : EditorState :=
  {| editMode := editMode s; visualMode := visualMode s; legacyValue := legacyValue s; operations := ops; jsonText := jsonText s; jsonError := jsonError s |}.
Definition set_edit (m : EditMode) (s : EditorState) : EditorState :=
  {| editMode := m; visualMode := visualMode s; legacyValue := legacyValue s; operations := operations s; jsonText := jsonText s; jsonError := jsonError s |}.
Definition set_visual (m : VisualMode) (s : EditorState) : EditorState :=
  {| editMode := editMode s; visualMode := m; legacyValue := legacyValue s; operations := operations s; jsonText := jsonText s; jsonError := jsonError s |}.
Definition set_legacy (t : jstring) (s : EditorState) : EditorState :=
  {| editMode := editMode s; visualMode := visualMode s; legacyValue := t; operations := operations s; jsonText := jsonText s; jsonError := jsonError s |}.
Definition set_json (t : jstring) (s : EditorState) : EditorState :=
  {| editMode := editMode s; visualMode := visualMode s; legacyValue := legacyValue s; operations := operations s; jsonText := t; jsonError := jsonError s |}.
Definition set_error (m : option Message) (s : EditorState) : EditorState :=
  {| editMode := editMode s; visualMode := visualMode s; legacyValue := legacyValue s; operations := operations s; jsonText := jsonText s; jsonError := m |}.

Definition ops_of (e : Editor) : list Operation := operations (ed e).

(** [setOperations(prev => ...)] *)
Definition update_ops (f : list Operation -> list Operation) (e : Editor) : Editor := with_ed (set_operations (f (ops_of e)) (ed e)) e.

(** The effect that keeps a rule selected. *)
Definition keep_selected (e : Editor) : Editor :=
  match ops_of e with
  | [] => with_selected None e
  | first :: _ =>
      if existsb (fun o => bool_decide (Some (o_id o) = selectedOperationId e)) (ops_of e) then e else with_selected (Some (o_id first)) e
  end.

(** The effect of opening the dialog on a value; reading the value may throw, and then the page is gone. *)
Definition open_dialog (value : jstring) (e : Editor) : option Editor :=
  match parseInitialState (localIdSeed e) value with
  | Failed _ => None
  | Done (s, next) =>
      Some {| ed := s; operationSearch := []; selectedOperationId := o_id <$> head (operations s); expandedConditions := [];
              draggedOperationId := None; dragOverOperationId := None; dragOverPosition := Before;
              templatePresetKey := match visualMode s with Legacy => js "legacy_default" | Operations => js "operations_default" end;
              localIdSeed := next; saved := saved e; toasts := toasts e; is_open := true |}
  end.

(** ** Rules and conditions *)

(** What an input of the rule editor changes. *)
Inductive Patch :=
| PDescription (s : jstring) | PPath (s : jstring) | PMode (s : jstring) | PFrom (s : jstring) | PTo (s : jstring) | PEnds (from to : jstring)
| PValue (s : jstring) | PKeepOrigin (b : bool) | PLogic (s : jstring).

Definition patch_operation (p : Patch) (o : Operation) : Operation :=
  {| o_id := o_id o; o_description := match p with PDescription s => s | _ => o_description o end;
     o_path := match p with PPath s => s | _ => o_path o end; o_mode := match p with PMode s => s | _ => o_mode o end;
     o_from := match p with PFrom s => s | PEnds s _ => s | _ => o_from o end; o_to := match p with PTo s => s | PEnds _ s => s | _ => o_to o end;
     o_value_text := match p with PValue s => s | _ => o_value_text o end;
     o_keep_origin := match p with PKeepOrigin b => b | _ => o_keep_origin o end; o_logic := match p with PLogic s => s | _ => o_logic o end;
     o_conditions := o_conditions o |}.

Inductive ConditionPatch := KPath (s : jstring) | KMode (s : jstring) | KValue (s : jstring) | KInvert (b : bool) | KPassMissing (b : bool).

Definition patch_condition (p : ConditionPatch) (c : Condition) : Condition :=
  {| k_id := k_id c; k_path := match p with KPath s => s | _ => k_path c end; k_mode := match p with KMode s => s | _ => k_mode c end;
     k_value_text := match p with KValue s => s | _ => k_value_text c end; k_invert := match p with KInvert b => b | _ => k_invert c end;
     k_pass_missing_key := match p with KPassMissing b => b | _ => k_pass_missing_key c end |}.

Definition set_conditions (l : list Condition) (o : Operation) : Operation :=
  {| o_id := o_id o; o_description := o_description o; o_path := o_path o; o_mode := o_mode o; o_from := o_from o; o_to := o_to o;
     o_value_text := o_value_text o; o_keep_origin := o_keep_origin o; o_logic := o_logic o; o_conditions := l |}.

(** [prev.map((o) => (o.id === id ? f(o) : o))] *)
Definition at_rule (id : nat) (f : Operation -> Operation) (ops : list Operation) : list Operation :=
  map (fun o => if has_id id o then f o else o) ops.

Definition updateOperation (id : nat) (p : Patch) (e : Editor) : Editor := update_ops (at_rule id (patch_operation p)) e.

Definition addOperation (e : Editor) : Editor :=
  let created := createDefaultOperation (localIdSeed e) in
  with_selected (Some (o_id created)) (with_seed (S (localIdSeed e)) (update_ops (fun prev => prev ++ [created]) e)).

(** The object a copy of a rule is made from. *)
Definition clone_source (source : Operation) : jsval :=
  obj [("description", JStr (o_description source)); ("path", JStr (o_path source)); ("mode", JStr (o_mode source));
       ("value", parseLooseValue (o_value_text source)); ("keep_origin", JBool (o_keep_origin source)); ("from", JStr (o_from source));
       ("to", JStr (o_to source)); ("logic", JStr (o_logic source));
       ("conditions", JArr (map (fun c => obj [("path", JStr (k_path c)); ("mode", JStr (k_mode c)); ("value", parseLooseValue (k_value_text c));
          ("invert", JBool (k_invert c)); ("pass_missing_key", JBool (k_pass_missing_key c))]) (o_conditions source)))]%string.

Definition duplicateOperation (id : nat) (e : Editor) : Editor :=
  match find_index (has_id id) (ops_of e) with
  | None => e
  | Some idx =>
      match ops_of e !! idx with
      | None => e
      | Some source =>
          match normalizeOperation (localIdSeed e) (clone_source source) with
          | Failed _ => e
          | Done (cloned, next) => with_selected (Some (o_id cloned)) (with_seed next (update_ops (insert_at (S idx) cloned) e))
          end
      end
  end.

Definition removeOperation (id : nat) (e : Editor) : Editor :=
  if (length (ops_of e) <=? 1)%nat
  then with_seed (S (localIdSeed e)) (update_ops (fun _ => [createDefaultOperation (localIdSeed e)]) e)
  else update_ops (List.filter (fun o => negb (has_id id o))) e.

(** [{ ...prev, [id]: open }] *)
Definition set_expanded (id : nat) (open : bool) (l : list (nat * bool)) : list (nat * bool) := mset l id open.

Definition addCondition (id : nat) (e : Editor) : Editor :=
  let created := createDefaultCondition (localIdSeed e) in
  with_expanded (set_expanded (k_id created) true (expandedConditions e))
    (with_seed (S (localIdSeed e)) (update_ops (at_rule id (fun o => set_conditions (o_conditions o ++ [created]) o)) e)).

Definition updateCondition (id cid : nat) (p : ConditionPatch) (e : Editor) : Editor :=
  update_ops (at_rule id (fun o => set_conditions (map (fun c => if (k_id c =? cid)%nat then patch_condition p c else c) (o_conditions o)) o)) e.

Definition removeCondition (id cid : nat) (e : Editor) : Editor :=
  update_ops (at_rule id (fun o => set_conditions (List.filter (fun c => negb (k_id c =? cid)%nat) (o_conditions o)) o)) e.

Definition selectedOperation (e : Editor) : option Operation :=
  List.find (fun o => bool_decide (Some (o_id o) = selectedOperationId e)) (ops_of e).

Definition all_conditions (open : bool) (e : Editor) : Editor :=
  match selectedOperation e with
  | None => e
  | Some o => with_expanded (fold_left (fun l c => set_expanded (k_id c) open l) (o_conditions o) (expandedConditions e)) e
  end.
Definition expandAllConditions : Editor -> Editor := all_conditions true.
Definition collapseAllConditions : Editor -> Editor := all_conditions false.

(** ** Drafts *)

Definition set_value (t : jstring) (o : Operation) : Operation := patch_operation (PValue t) o.

Definition updateReturnErrorDraft (id : nat) (patch : ReturnErrorDraft -> ReturnErrorDraft) (e : Editor) : Editor :=
  update_ops (at_rule id (fun o => set_value (buildReturnErrorValueText (patch (parseReturnErrorDraft (o_value_text o)))) o)) e.

(** The rules with the draft of one edited; the draft is read anew, and its rules take new numbers. *)
Fixpoint edit_prune (id : nat) (updater : nat -> PruneObjectsDraft -> PruneObjectsDraft) (next : nat) (ops : list Operation) : list Operation * nat :=
  match ops with
  | [] => ([], next)
  | o :: ops =>
      if has_id id o then
        let (draft, next) := parsePruneObjectsDraft next (o_value_text o) in
        let (ops, next') := edit_prune id updater (S next) ops in
        (set_value (buildPruneObjectsValueText (updater next draft)) o :: ops, next')
      else let (ops, next) := edit_prune id updater next ops in (o :: ops, next)
  end.

(** The updater gets the next number, for a rule that it makes. *)
Definition updatePruneObjectsDraft (id : nat) (updater : nat -> PruneObjectsDraft -> PruneObjectsDraft) (e : Editor) : Editor :=
  let (ops, next) := edit_prune id updater (localIdSeed e) (ops_of e) in with_seed next (update_ops (fun _ => ops) e).

Definition with_rules (simple : bool) (l : list PruneRule) (d : PruneObjectsDraft) : PruneObjectsDraft :=
  {| p_simpleMode := simple; p_typeText := p_typeText d; p_logic := p_logic d; p_recursive := p_recursive d; p_rules := l |}.

Definition addPruneRule (id : nat) : Editor -> Editor :=
  updatePruneObjectsDraft id (fun next d => with_rules false (p_rules d ++ [createDefaultCondition next]) d).

Definition updatePruneRule (id rid : nat) (p : ConditionPatch) : Editor -> Editor :=
  updatePruneObjectsDraft id (fun _ d => with_rules (p_simpleMode d) (map (fun r => if (k_id r =? rid)%nat then patch_condition p r else r) (p_rules d)) d).

Definition removePruneRule (id rid : nat) : Editor -> Editor :=
  updatePruneObjectsDraft id (fun _ d => with_rules (p_simpleMode d) (List.filter (fun r => negb (k_id r =? rid)%nat) (p_rules d)) d).

(** The drafts shown for a selected rule. *)
Definition returnErrorDraft (e : Editor) : option ReturnErrorDraft :=
  match selectedOperation e with
  | Some o => if jeqb (o_mode o) (js "return_error") then Some (parseReturnErrorDraft (o_value_text o)) else None
  | None => None
  end.

(** The draft of the objects to prune; showing it takes numbers for its conditions. *)
Definition pruneObjectsDraft (e : Editor) : option (PruneObjectsDraft * nat) :=
  match selectedOperation e with
  | Some o => if jeqb (o_mode o) (js "prune_objects") then Some (parsePruneObjectsDraft (localIdSeed e) (o_value_text o)) else None
  | None => None
  end.

Definition show_draft (e : Editor) : Editor := match pruneObjectsDraft e with Some (_, next) => with_seed next e | None => e end.

(** ** What the page counts *)

Definition operationCount (e : Editor) : nat := length (not_blank (ops_of e)).

(** [(counts[mode] || 0) + 1]; the modes in the order they are met. *)
Definition mode_counts (ops : list Operation) : list (jstring * nat) :=
  fold_left (fun counts op => let mode := jor (o_mode op) (js "set") in mset counts mode (S (coalesce (mget counts mode) 0%nat))) ops [].

(** The four modes that are used most, of equals the first. *)
Definition topOperationModes (e : Editor) : list (jstring * nat) := take 4 (js_sort (fun a b => Z.of_nat b.2 - Z.of_nat a.2) (mode_counts (ops_of e))).

(** ** Dragging *)

Definition handleDragStart (id : nat) (e : Editor) : Editor := with_selected (Some id) (with_drag (Some id) (dragOverOperationId e) (dragOverPosition e) e).

(** [lower] : whether the pointer is in the lower half. *)
Definition handleDragOver (id : nat) (lower : bool) (e : Editor) : Editor :=
  match draggedOperationId e with
  | None => e
  | Some d => if (d =? id)%nat then e else with_drag (Some d) (Some id) (if lower then After else Before) e
  end.

Definition resetDragState (e : Editor) : Editor := with_drag None None Before e.

(** [carried] : the identifier the drag itself carries. *)
Definition handleDrop (id : nat) (carried : option nat) (e : Editor) : Editor :=
  let sourceId := match draggedOperationId e with Some d => Some d | None => carried end in
  let position := if bool_decide (dragOverOperationId e = Some id) then dragOverPosition e else Before in
  resetDragState
    (match sourceId with
     | Some d => if (d =? id)%nat then e else with_selected (Some d) (update_ops (fun prev => reorderOperations prev (Some d) (Some id) position) e)
     | None => e
     end).

(** ** Modes *)

(** The text of a value that must be an object. *)
Definition legacy_text (t : jstring) : attempt jstring :=
  let trimmed := trim t in
  if negb (truthy trimmed) then Done []
  else match JSON_parse trimmed with
       | Throw => Failed (Said (js "Parameter override must be valid JSON format"))
       | Ret (JObj fs) => Done (JSON_stringify_2 (JObj fs))
       | Ret _ => Failed (Said (js "Legacy format must be a JSON object"))
       end.

Definition buildVisualJson (s : EditorState) : attempt jstring :=
  match visualMode s with Legacy => legacy_text (legacyValue s) | Operations => buildOperationsJson (operations s) true end.

Definition visualValidationError (s : EditorState) : option Message :=
  match editMode s with
  | Json => None
  | Visual => match buildVisualJson s with Done _ => None | Failed m => Some m end
  end.

Definition unchecked_text (s : EditorState) : jstring :=
  match visualMode s with
  | Legacy => legacyValue s
  | Operations => match buildOperationsJson (operations s) false with Done t => t | Failed _ => [] end
  end.

Definition switchToJsonMode (e : Editor) : Editor :=
  match editMode (ed e) with
  | Json => e
  | Visual =>
      match buildVisualJson (ed e) with
      | Done t => with_ed (set_edit Json (set_error None (set_json t (ed e)))) e
      | Failed m => with_ed (set_edit Json (set_error (Some m) (set_json (unchecked_text (ed e)) (ed e)))) (with_toast m e)
      end
  end.

(** The rules, in the visual editor. *)
Definition show_rules (ops : list Operation) (s : EditorState) : EditorState :=
  {| editMode := Visual; visualMode := Operations; legacyValue := []; operations := ops; jsonText := jsonText s; jsonError := None |}.
Definition show_legacy (text : jstring) (ops : list Operation) (s : EditorState) : EditorState :=
  {| editMode := Visual; visualMode := Legacy; legacyValue := text; operations := ops; jsonText := jsonText s; jsonError := None |}.

Definition switchToVisualMode (e : Editor) : Editor :=
  match editMode (ed e) with
  | Visual => e
  | Json =>
      let trimmed := trim (jsonText (ed e)) in
      let fallback := createDefaultOperation (localIdSeed e) in
      if negb (truthy trimmed) then
        with_seed (S (localIdSeed e)) (with_selected (Some (o_id fallback)) (with_ed (show_rules [fallback] (ed e)) e))
      else match JSON_parse trimmed with
           | Throw => with_toast (Said (js "Parameter override must be valid JSON format")) e
           | Ret parsed =>
               match parsed, jget parsed (js "operations") with
               | JObj _, JArr l =>
                   match rules_of (localIdSeed e) l with
                   | Failed _ => e
                   | Done (nextOps, next) =>
                       with_preset (js "operations_default")
                         (with_seed next (with_selected (o_id <$> head nextOps) (with_ed (show_rules nextOps (ed e)) e)))
                   end
               | JObj _, _ =>
                   with_preset (js "legacy_default") (with_seed (S (localIdSeed e))
                     (with_selected (Some (o_id fallback)) (with_ed (show_legacy (JSON_stringify_2 parsed) [fallback] (ed e)) e)))
               | _, _ => with_toast (Said (js "Parameter override must be a valid JSON object")) e
               end
           end
  end.

(** ** Templates into the editor *)

(** [{ ...v }]: the members of an object, the elements of an array or a text by their index. *)
Definition spread_members (v : jsval) : members :=
  let indexed l := imap (fun i x => (dec_of_Z (Z.of_nat i), x)) l in
  match v with JObj fs => fs | JArr l => indexed l | JStr s => indexed (map (fun c => JStr [c]) s) | _ => [] end.

(** [{ ...payload, ...current }]; the integers among the names come first. *)
Definition merged_members (payload current : jsval) : members :=
  match current with
  | JObj fs => fold_left (fun m f => put f.1 f.2 m) fs (spread_members payload)
  | _ => spread_members current ++ spread_members payload
  end.

Definition preset_of (e : Editor) : VisualMode * jsval := coalesce (mget TEMPLATE_PRESET_CONFIG (templatePresetKey e)) (Operations, OPERATION_TEMPLATE).

Definition fill_legacy (text : jstring) (e : Editor) : Editor :=
  with_seed (S (localIdSeed e)) (with_ed (set_json text (show_legacy text [createDefaultOperation (localIdSeed e)] (ed e))) e).

Definition payload_rules (payload : jsval) : list jsval := match jget payload (js "operations") with JArr l => l | _ => [] end.

Definition fillTemplate (append : bool) (e : Editor) : Editor :=
  let (kind, payload) := preset_of e in
  match kind with
  | Legacy =>
      match append, visualMode (ed e) with
      | true, Legacy =>
          let trimmed := trim (legacyValue (ed e)) in
          if negb (truthy trimmed) then fill_legacy (JSON_stringify_2 (JObj (merged_members payload (JObj [])))) e
          else match JSON_parse trimmed with
               | Throw => with_toast (Said (js "Current legacy JSON is invalid, cannot append")) e
               | Ret current => fill_legacy (JSON_stringify_2 (JObj (merged_members payload current))) e
               end
      | _, _ => fill_legacy (JSON_stringify_2 payload) e
      end
  | Operations =>
      match numbered normalizeOperation (localIdSeed e) (payload_rules payload) with
      | Failed _ => e
      | Done (read, next) =>
          if append then
            let existing := match visualMode (ed e) with Operations => List.filter (fun o => negb (isOperationBlank o)) (ops_of e) | Legacy => [] end in
            let nextOps := existing ++ read in
            with_seed next (with_selected (o_id <$> head nextOps) (with_ed (set_json [] (show_rules nextOps (ed e))) e))
          else
            let (finalOps, next) := match read with [] => ([createDefaultOperation next], S next) | _ => (read, next) end in
            with_seed next (with_selected (o_id <$> head finalOps)
              (with_ed (set_json (JSON_stringify_2 (rules (payload_rules payload))) (set_legacy (legacyValue (ed e)) (show_rules finalOps (ed e)))) e))
      end
  end.

Definition resetEditorState (e : Editor) : Editor :=
  let fallback := createDefaultOperation (localIdSeed e) in
  with_preset (js "operations_default") (with_seed (S (localIdSeed e)) (with_selected (Some (o_id fallback))
    (with_ed (set_json [] (show_rules [fallback] (ed e))) e))).

(** ** The text, and saving *)

Definition handleJsonChange (nextValue : jstring) (e : Editor) : Editor :=
  let trimmed := trim nextValue in
  let error := if negb (truthy trimmed) then None else if verifyJSON trimmed then None else Some (Said (js "JSON format error")) in
  with_ed (set_error error (set_json nextValue (ed e))) e.

Definition json_result (text : jstring) : attempt jstring :=
  let trimmed := trim text in
  if negb (truthy trimmed) then Done []
  else match JSON_parse trimmed with
       | Throw => Failed (Said (js "Parameter override must be valid JSON format"))
       | Ret v => Done (JSON_stringify_2 v)
       end.

Definition handleSave (e : Editor) : Editor :=
  match (match editMode (ed e) with Json => json_result (jsonText (ed e)) | Visual => buildVisualJson (ed e) end) with
  | Done result => with_saved result e
  | Failed m => with_toast m e
  end.

(** ** Steps *)

Inductive event :=
| EOpen (value : jstring) | EClose
| EUpdate (id : nat) (p : Patch) | EAdd | EDuplicate (id : nat) | ERemove (id : nat) | ESelect (id : nat)
| EAddCondition (id : nat) | EUpdateCondition (id cid : nat) (p : ConditionPatch) | ERemoveCondition (id cid : nat)
| EExpand (id : nat) (open : bool) | EExpandAll | ECollapseAll
| EErrorDraft (id : nat) (patch : ReturnErrorDraft -> ReturnErrorDraft) | EPruneDraft (id : nat) (patch : PruneObjectsDraft -> PruneObjectsDraft)
| EAddPrune (id : nat) | EUpdatePrune (id rid : nat) (p : ConditionPatch) | ERemovePrune (id rid : nat)
| EDragStart (id : nat) | EDragOver (id : nat) (lower : bool) | EDrop (id : nat) (carried : option nat) | EDragEnd
| EToJson | EToVisual | EPreset (key : jstring) | EFill (append : bool) | EReset | EJson (text : jstring) | ELegacy (text : jstring) | ESearch (s : jstring)
| ESave | EShow.

Definition handle (ev : event) (e : Editor) : option Editor :=
  match ev with
  | EOpen value => open_dialog value e
  | EClose => Some {| ed := ed e; operationSearch := operationSearch e; selectedOperationId := selectedOperationId e;
      expandedConditions := expandedConditions e; draggedOperationId := draggedOperationId e; dragOverOperationId := dragOverOperationId e;
      dragOverPosition := dragOverPosition e; templatePresetKey := templatePresetKey e; localIdSeed := localIdSeed e; saved := saved e;
      toasts := toasts e; is_open := false |}
  | EUpdate id p => Some (updateOperation id p e)
  | EAdd => Some (addOperation e)
  | EDuplicate id => Some (duplicateOperation id e)
  | ERemove id => Some (removeOperation id e)
  | ESelect id => Some (with_selected (Some id) e)
  | EAddCondition id => Some (addCondition id e)
  | EUpdateCondition id cid p => Some (updateCondition id cid p e)
  | ERemoveCondition id cid => Some (removeCondition id cid e)
  | EExpand id open => Some (with_expanded (set_expanded id open (expandedConditions e)) e)
  | EExpandAll => Some (expandAllConditions e)
  | ECollapseAll => Some (collapseAllConditions e)
  | EErrorDraft id patch => Some (updateReturnErrorDraft id patch e)
  | EPruneDraft id patch => Some (updatePruneObjectsDraft id (fun _ => patch) e)
  | EAddPrune id => Some (addPruneRule id e)
  | EUpdatePrune id rid p => Some (updatePruneRule id rid p e)
  | ERemovePrune id rid => Some (removePruneRule id rid e)
  | EDragStart id => Some (handleDragStart id e)
  | EDragOver id lower => Some (handleDragOver id lower e)
  | EDrop id carried => Some (handleDrop id carried e)
  | EDragEnd => Some (resetDragState e)
  | EToJson => Some (switchToJsonMode e)
  | EToVisual => Some (switchToVisualMode e)
  | EPreset key => Some (with_preset (jor key (js "operations_default")) e)
  | EFill append => Some (fillTemplate append e)
  | EReset => Some (resetEditorState e)
  | EJson text => Some (handleJsonChange text e)
  | ELegacy text => Some (with_ed (set_legacy text (ed e)) e)
  | ESearch s => Some (with_search s e)
  | ESave => Some (handleSave e)
  | EShow => Some (show_draft e)
  end.

(** One event, with the effect after it; none where the page is gone. *)
Definition editor_step (e : Editor) (ev : event) : option Editor := keep_selected <$> handle ev e.

(** What the selects offer. *)
Definition offered (ev : event) : Prop :=
  match ev with
  | EUpdate _ (PMode m) => m ∈ OPERATION_MODE_VALUES
  | EUpdate _ (PLogic l) => l = js "AND" \/ l = js "OR"
  | EUpdateCondition _ _ (KMode m) => m ∈ CONDITION_MODE_VALUES
  | _ => True
  end.

Definition initial_editor : Editor :=
  {| ed := {| editMode := Visual; visualMode := Operations; legacyValue := []; operations := [createDefaultOperation 0]; jsonText := []; jsonError := None |};
     operationSearch := []; selectedOperationId := None; expandedConditions := []; draggedOperationId := None; dragOverOperationId := None;
     dragOverPosition := Before; templatePresetKey := js "operations_default"; localIdSeed := 1; saved := []; toasts := []; is_open := false |}.

Inductive reachable : Editor -> Prop :=
| r_start : reachable initial_editor
| r_step e ev e' : reachable e -> offered ev -> editor_step e ev = Some e' -> reachable e'.

(** ** The numbers in use *)

Definition numbers1 (o : Operation) : list nat := o_id o :: map k_id (o_conditions o).
Definition numbers (ops : list Operation) : list nat := flat_map numbers1 ops.

(** A rule of known modes and logic. *)
Definition rule_modes (o : Operation) : Prop :=
  o_mode o ∈ OPERATION_MODE_VALUES /\ (o_logic o = js "AND" \/ o_logic o = js "OR") /\ Forall (fun c => k_mode c ∈ CONDITION_MODE_VALUES) (o_conditions o).

(** The rules of an editor: some, with numbers that differ and were given out, of known modes, and one of them selected. *)
Record sound_editor (e : Editor) : Prop := {
  se_some : ops_of e <> [];
  se_distinct : NoDup (numbers (ops_of e));
  se_given : Forall (fun n => n < localIdSeed e)%nat (numbers (ops_of e));
  se_modes : Forall rule_modes (ops_of e)
}.

Definition selection_valid (e : Editor) : Prop := exists o, o ∈ ops_of e /\ selectedOperationId e = Some (o_id o).

(** What an event may do to the rules: leave out numbers and take new ones. *)
Record grows (e e' : Editor) : Prop := {
  gr_some : ops_of e' <> [];
  gr_seed : (localIdSeed e <= localIdSeed e')%nat;
  gr_numbers : numbers (ops_of e') ⊆+ numbers (ops_of e) ++ seq (localIdSeed e) (localIdSeed e' - localIdSeed e);
  gr_modes : Forall rule_modes (ops_of e')
}.

Lemma submseteq_distinct {A} (l k : list A) : l ⊆+ k -> NoDup k -> NoDup l.
Proof. intros H Hk. apply submseteq_Permutation in H as [r Hr]. rewrite Hr in Hk. by apply NoDup_app in Hk as [? _]. Qed.

Lemma grows_sound e e' : sound_editor e -> grows e e' -> sound_editor e'.
Proof.
  intros [_ Hd Hg _] [Hs Hn Hsub Hm].
  assert (NoDup (numbers (ops_of e) ++ seq (localIdSeed e) (localIdSeed e' - localIdSeed e))) as Hnd.
  { apply NoDup_app. split; [done|]. split; [|apply NoDup_seq]. intros n Hin Hseq. rewrite Forall_forall in Hg. specialize (Hg n Hin).
    apply elem_of_seq in Hseq. lia. }
  constructor; [done| | |done].
  - by eapply submseteq_distinct.
  - apply Forall_forall. intros n Hin. apply (elem_of_submseteq _ _ _ Hin) in Hsub. apply elem_of_app in Hsub as [Hin'|Hin'].
    + rewrite Forall_forall in Hg. specialize (Hg n Hin'). lia.
    + apply elem_of_seq in Hin'. lia.
Qed.

(** *** Reading gives numbers in a row *)

Lemma default_modes n : rule_modes (createDefaultOperation n).
Proof. split; [apply (bool_decide_unpack _); by vm_compute|]. split; [by right|constructor]. Qed.

Lemma known_mode_in l v d : js d ∈ l -> known_mode l v d ∈ l.
Proof. intros Hd. unfold known_mode. destruct (jget v (js "mode")); try done. unfold one_of. by case_bool_decide. Qed.

Lemma condition_numbers n v c n' : normalizeCondition n v = Done (c, n') -> k_id c = n /\ n' = S n /\ k_mode c ∈ CONDITION_MODE_VALUES.
Proof.
  unfold normalizeCondition. assert (js "full" ∈ CONDITION_MODE_VALUES) as Hf by (apply (bool_decide_unpack _); by vm_compute).
  destruct v; intros H; try done; injection H as <- <-; (split; [done|split; [done|by apply known_mode_in]]).
Qed.

Lemma conditions_numbers l : forall n cs n', numbered normalizeCondition n l = Done (cs, n') ->
  map k_id cs = seq n (length cs) /\ n' = (n + length cs)%nat /\ Forall (fun c => k_mode c ∈ CONDITION_MODE_VALUES) cs.
Proof.
  induction l as [|v l IH]; intros n cs n'; cbn [numbered]; [intros [= <- <-]; cbn; rewrite Nat.add_0_r; by split_and!|].
  destruct (normalizeCondition n v) as [[c m]|] eqn:Ec; cbn [abind]; [|done]. apply condition_numbers in Ec as (Hid & -> & Hm). cbn [fst snd].
  destruct (numbered normalizeCondition (S n) l) as [[cs' m']|] eqn:E; cbn [abind]; [|done]. intros [= <- <-]. cbn [fst snd].
  destruct (IH _ _ _ E) as (H1 & -> & H2). cbn [map length seq]. rewrite Hid, H1. split; [done|]. split; [lia|by constructor].
Qed.

Lemma operation_numbers n v o n' : normalizeOperation n v = Done (o, n') -> numbers1 o = seq n (n' - n) /\ (n < n')%nat /\ rule_modes o.
Proof.
  intros H. assert (exists logic cs, n' = cs.2 /\ o_id o = n /\ o_conditions o = cs.1 /\ o_mode o = known_mode OPERATION_MODE_VALUES v "set" /\
    o_logic o = (if upper_is logic "AND" then js "AND" else js "OR") /\
    match jget v (js "conditions") with JArr l => numbered normalizeCondition (S n) l | _ => Done ([], S n) end = Done cs) as (logic & [cs m] & -> & Hid & Hc & Hm & Hl & Hcs).
  { unfold normalizeOperation in H. destruct v; try done; destruct (of_exc _) as [logic|]; cbn [abind] in H; try done;
      match type of H with abind ?r _ = _ => destruct r as [cs|] eqn:E end; cbn [abind] in H; try done;
      injection H as <- <-; exists logic, cs; split_and!; done. }
  cbn [fst snd] in *. assert (map k_id cs = seq (S n) (length cs) /\ m = (S n + length cs)%nat /\ Forall (fun c => k_mode c ∈ CONDITION_MODE_VALUES) cs) as (H1 & -> & H2).
  { destruct (jget v (js "conditions")); try (by apply conditions_numbers in Hcs); injection Hcs as <- <-; cbn; rewrite Nat.add_0_r; by split_and!. }
  unfold numbers1. rewrite Hid, Hc, H1. split; [replace (S n + length cs - n)%nat with (S (length cs)) by lia; done|]. split; [lia|].
  split; [rewrite Hm; apply known_mode_in; apply (bool_decide_unpack _); by vm_compute|]. split; [rewrite Hl; destruct (upper_is logic "AND"); auto|by rewrite Hc].
Qed.

Lemma rules_numbers l : forall n ops n', numbered normalizeOperation n l = Done (ops, n') ->
  numbers ops = seq n (n' - n) /\ (n <= n')%nat /\ Forall rule_modes ops /\ length ops = length l.
Proof.
  induction l as [|v l IH]; intros n ops n'; cbn [numbered]; [intros [= <- <-]; rewrite Nat.sub_diag; by split_and!|].
  destruct (normalizeOperation n v) as [[o m]|] eqn:Eo; cbn [abind]; [|done]. apply operation_numbers in Eo as (Hn & Hlt & Hm). cbn [fst snd].
  destruct (numbered normalizeOperation m l) as [[ops' m']|] eqn:E; cbn [abind]; [|done]. intros [= <- <-]. cbn [fst snd].
  destruct (IH _ _ _ E) as (H1 & Hle & H2 & H3). cbn [numbers flat_map length]. fold (numbers ops'). rewrite Hn, H1.
  split; [|split; [lia|split; [by constructor|by rewrite H3]]].
  replace (m' - n)%nat with ((m - n) + (m' - m))%nat by lia. rewrite seq_app. do 2 f_equal. lia.
Qed.

Lemma default_numbers n : numbers [createDefaultOperation n] = seq n (S n - n).
Proof. replace (S n - n)%nat with 1%nat by lia. done. Qed.

Lemma rules_of_numbers n l ops n' : rules_of n l = Done (ops, n') -> numbers ops = seq n (n' - n) /\ (n <= n')%nat /\ Forall rule_modes ops /\ ops <> [].
Proof.
  unfold rules_of. destruct l as [|v l]; intros H.
  - injection H as <- <-. rewrite default_numbers. split_and!; [done|lia|apply Forall_singleton, default_modes|done].
  - apply rules_numbers in H as (H1 & H2 & H3 & H4). split_and!; try done. by destruct ops.
Qed.

Lemma initial_numbers n text s n' : parseInitialState n text = Done (s, n') ->
  numbers (operations s) = seq n (n' - n) /\ (n <= n')%nat /\ Forall rule_modes (operations s) /\ operations s <> [].
Proof.
  assert (numbers [createDefaultOperation n] = seq n (S n - n) /\ (n <= S n)%nat /\ Forall rule_modes [createDefaultOperation n] /\ [createDefaultOperation n] <> []) as Hd
    by (split_and!; [apply default_numbers|lia|apply Forall_singleton, default_modes|done]).
  unfold parseInitialState, starts. cbv zeta. destruct (negb _); [by intros [= <- <-]|].
  destruct (JSON_parse (trim text)) as [parsed|]; [|by intros [= <- <-]].
  destruct parsed as [| | | | | |fs]; try (by intros [= <- <-]). destruct (jget (JObj fs) (js "operations")) as [| | | | |l|]; try (by intros [= <- <-]).
  destruct (rules_of n l) as [[ops m]|] eqn:E; cbn [abind]; [|done]. intros [= <- <-]. by apply rules_of_numbers in E.
Qed.

(** *** Lists of rules *)

Lemma numbers_app l k : numbers (l ++ k) = numbers l ++ numbers k.
Proof. apply List.flat_map_app. Qed.

Lemma numbers_permutation l k : l ≡ₚ k -> numbers l ≡ₚ numbers k.
Proof.
  induction 1 as [|o l k _ IH|o p l|l k m _ IH1 _ IH2]; cbn [numbers flat_map]; [done|by apply Permutation_app_head| |by etrans].
  rewrite !app_assoc. apply Permutation_app_tail, Permutation_app_comm.
Qed.

Lemma numbers_map f l : (forall o, numbers1 (f o) ⊆+ numbers1 o) -> numbers (map f l) ⊆+ numbers l.
Proof. intros Hf. induction l as [|o l IH]; cbn [map numbers flat_map]; [done|]. by apply submseteq_app. Qed.

Lemma numbers_filter f l : numbers (List.filter f l) ⊆+ numbers l.
Proof.
  induction l as [|o l IH]; cbn [List.filter numbers flat_map]; [done|]. destruct (f o); cbn [flat_map].
  - by apply submseteq_app.
  - by apply submseteq_inserts_l.
Qed.

Lemma modes_filter f l : Forall rule_modes l -> Forall rule_modes (List.filter f l).
Proof. intros H. apply Forall_forall. intros o [Ho _]%list_elem_of_In%filter_In. rewrite Forall_forall in H. apply H. by apply list_elem_of_In. Qed.

Lemma ids_distinct l : NoDup (numbers l) -> NoDup (map o_id l).
Proof.
  intros H. eapply submseteq_distinct; [|exact H]. clear H. induction l as [|o l IH]; cbn [map numbers flat_map numbers1 app]; [done|].
  apply submseteq_skip. by apply submseteq_inserts_l.
Qed.

(** The rule of a number changes; only it does, for its number is its own. *)
Lemma at_rule_numbers id f r l : (forall o, numbers1 (f o) ⊆+ numbers1 o ++ r) -> NoDup (map o_id l) -> numbers (at_rule id f l) ⊆+ numbers l ++ r.
Proof.
  intros Hf. induction l as [|o l IH]; cbn [map]; [intros _; apply submseteq_nil_l|]. intros [Hn Hd]%NoDup_cons.
  unfold at_rule. cbn [map numbers flat_map]. fold (at_rule id f l) (numbers (at_rule id f l)) (numbers l). destruct (has_id id o) eqn:E.
  - assert (at_rule id f l = l) as ->.
    { unfold at_rule. rewrite <- (map_id l) at 2. apply map_ext_in. intros p Hp%list_elem_of_In. unfold has_id in *. apply Nat.eqb_eq in E. subst id.
      destruct (Nat.eqb_spec (o_id p) (o_id o)) as [Hpo|]; [|done]. destruct Hn. rewrite <- Hpo. by apply list_elem_of_fmap_2. }
    transitivity ((numbers1 o ++ r) ++ numbers l); [by apply submseteq_app|]. rewrite <- !app_assoc. apply Permutation_submseteq, Permutation_app_head, Permutation_app_comm.
  - rewrite <- app_assoc. apply submseteq_app; [done|by apply IH].
Qed.

Lemma at_rule_modes id f l : (forall o, rule_modes o -> rule_modes (f o)) -> Forall rule_modes l -> Forall rule_modes (at_rule id f l).
Proof. intros Hf Hl. apply Forall_map. eapply Forall_impl; [exact Hl|]. intros o Ho. cbn. destruct (has_id id o); auto. Qed.

Lemma insert_permutation {A} i (x : A) l : insert_at i x l ≡ₚ x :: l.
Proof. unfold insert_at. rewrite <- Permutation_middle. by rewrite take_drop. Qed.

Lemma without_permutation {A} i (x : A) l : l !! i = Some x -> x :: without i l ≡ₚ l.
Proof. intros H. unfold without. rewrite Permutation_middle. by rewrite take_drop_middle. Qed.

Lemma reorder_permutation l s t p : reorderOperations l s t p ≡ₚ l.
Proof.
  unfold reorderOperations. destruct s as [s|], t as [t|]; try done. destruct (s =? t)%nat; [done|]. destruct (find_index _ l) as [i|]; [|done].
  destruct (l !! i) as [x|] eqn:Ex; [|done]. destruct (find_index _ (without i l)) as [j|]; [|done]. rewrite insert_permutation. by apply without_permutation.
Qed.

Lemma prune_rules_numbers l : forall n rs n', numbered normalizePruneRule n l = Done (rs, n') -> map k_id rs = seq n (length rs) /\ n' = (n + length rs)%nat.
Proof.
  induction l as [|v l IH]; intros n rs n'; cbn [numbered]; [intros [= <- <-]; cbn; by rewrite Nat.add_0_r|].
  destruct (normalizePruneRule n v) as [[r m]|] eqn:Er; cbn [abind]; [|done]. cbn [fst snd].
  assert (k_id r = n /\ m = S n) as [Hr ->] by (unfold normalizePruneRule in Er; destruct v; by inversion Er).
  destruct (numbered normalizePruneRule (S n) l) as [[rs' m']|] eqn:E; cbn [abind]; [|done]. intros [= <- <-].
  destruct (IH _ _ _ E) as [H1 ->]. cbn [map length seq fst snd]. rewrite Hr, H1. split; [done|lia].
Qed.

(** The rules of a draft have numbers that were not given out before. *)
Lemma prune_draft_numbers n text d m : parsePruneObjectsDraft n text = (d, m) ->
  (n <= m)%nat /\ Forall (fun r => n <= k_id r < m)%nat (p_rules d).
Proof.
  assert (forall t, (n <= n)%nat /\ Forall (fun r => n <= k_id r < n)%nat (p_rules (prune_defaults t))) as Hd by (intros t; split; [done|constructor]).
  unfold parsePruneObjectsDraft. cbv zeta. destruct (negb _); [by intros [= <- <-]|]. destruct (JSON_parse (trim text)) as [[| | | | | |fs]|]; try (by intros [= <- <-]).
  destruct (numbered normalizePruneRule n (prune_rules (JObj fs))) as [[rs k]|] eqn:E; cbn [abind]; [|by intros [= <- <-]].
  destruct (of_exc _) as [typeText|]; cbn [abind]; [|by intros [= <- <-]]. destruct (of_exc _) as [logic|]; cbn [abind]; [|by intros [= <- <-]].
  intros [= <- <-]. cbn [p_rules fst snd]. apply prune_rules_numbers in E as [Hs ->]. split; [lia|].
  apply Forall_forall. intros r Hr. assert (k_id r ∈ map k_id rs) as Hin by by apply list_elem_of_fmap_2. rewrite Hs in Hin. apply elem_of_seq in Hin. lia.
Qed.

Lemma edit_prune_spec id updater l : forall next ops next', edit_prune id updater next l = (ops, next') ->
  numbers ops = numbers l /\ (next <= next')%nat /\ length ops = length l /\ (Forall rule_modes l -> Forall rule_modes ops).
Proof.
  induction l as [|o l IH]; intros next ops next'; cbn [edit_prune]; [by intros [= <- <-]|]. destruct (has_id id o).
  - destruct (parsePruneObjectsDraft next (o_value_text o)) as [draft m] eqn:Ed. destruct (edit_prune id updater (S m) l) as [k m'] eqn:E. intros [= <- <-].
    apply IH in E as (H1 & H2 & H3 & H4). assert (next <= m)%nat by by eapply prune_draft_numbers. cbn [numbers flat_map length]. fold (numbers k). rewrite H1, H3.
    split; [done|]. split; [lia|]. split; [done|]. intros [Ho Hl]%Forall_cons. constructor; [exact Ho|auto].
  - destruct (edit_prune id updater next l) as [k m'] eqn:E. intros [= <- <-].
    apply IH in E as (H1 & H2 & H3 & H4). cbn [numbers flat_map length]. fold (numbers k). rewrite H1, H3.
    split; [done|]. split; [lia|]. split; [done|]. intros [Ho Hl]%Forall_cons. constructor; [exact Ho|auto].
Qed.

(** A preset of rules has some. *)
Lemma preset_rules e : (preset_of e).1 = Operations -> payload_rules (preset_of e).2 <> [].
Proof.
  assert (Forall (fun c => c.2.1 = Operations -> payload_rules c.2.2 <> []) TEMPLATE_PRESET_CONFIG) as H by (vm_compute; repeat constructor; discriminate).
  unfold preset_of. destruct (mget _ _) as [c|] eqn:E; [|by vm_compute]. apply mget_In in E. rewrite List.Forall_forall in H. exact (H _ E).
Qed.

(** ** What an event does to the numbers *)

Section Handlers.
Context (e : Editor) (He : sound_editor e).

(** Rules that only lose numbers, at a counter that only grows. *)
Lemma grows_fewer e' : (length (ops_of e') > 0)%nat -> (localIdSeed e <= localIdSeed e')%nat -> numbers (ops_of e') ⊆+ numbers (ops_of e) ->
  Forall rule_modes (ops_of e') -> grows e e'.
Proof. intros Hl Hs Hn Hm. constructor; [by intros E; rewrite E in Hl; inversion Hl|done|by apply submseteq_inserts_r|done]. Qed.

(** Rules that take the next numbers in a row. *)
Lemma grows_fresh e' : ops_of e' <> [] -> (localIdSeed e <= localIdSeed e')%nat ->
  numbers (ops_of e') = seq (localIdSeed e) (localIdSeed e' - localIdSeed e) -> Forall rule_modes (ops_of e') -> grows e e'.
Proof. intros Hl Hs Hn Hm. constructor; [done|done|rewrite Hn; by apply submseteq_inserts_l|done]. Qed.

Lemma some_rules : (length (ops_of e) > 0)%nat.
Proof. destruct He as [Hs _ _ _]. destruct (ops_of e); [done|cbn; lia]. Qed.

Lemma grows_same e' : ops_of e' = ops_of e -> localIdSeed e' = localIdSeed e -> grows e e'.
Proof. intros Ho Hs. apply grows_fewer; rewrite ?Ho, ?Hs; [apply some_rules|done|done|apply He]. Qed.

Lemma default_grows e' : ops_of e' = [createDefaultOperation (localIdSeed e)] -> localIdSeed e' = S (localIdSeed e) -> grows e e'.
Proof. intros Ho Hs. apply grows_fresh; rewrite ?Ho, ?Hs; [done|lia|apply default_numbers|apply Forall_singleton, default_modes]. Qed.

(** A change of the rule of a number that keeps its numbers. *)
Lemma at_rule_grows id f : (forall o, numbers1 (f o) ⊆+ numbers1 o) -> (forall o, rule_modes o -> rule_modes (f o)) -> grows e (update_ops (at_rule id f) e).
Proof.
  intros Hf Hm. apply grows_fewer; cbn.
  - unfold at_rule. rewrite length_map. apply some_rules.
  - done.
  - rewrite <- (app_nil_r (numbers (ops_of e))). apply at_rule_numbers; [by intros o; rewrite app_nil_r|apply ids_distinct, He].
  - apply at_rule_modes; [done|apply He].
Qed.

Lemma update_grows id p : offered (EUpdate id p) -> grows e (updateOperation id p e).
Proof.
  intros Hp. apply at_rule_grows; [done|]. intros o (Hm & Hl & Hc). split; [|split; [|exact Hc]]; destruct p; cbn; try done; exact Hp.
Qed.

Lemma error_draft_grows id patch : grows e (updateReturnErrorDraft id patch e).
Proof. by apply at_rule_grows. Qed.

Lemma update_condition_grows id cid p : offered (EUpdateCondition id cid p) -> grows e (updateCondition id cid p e).
Proof.
  intros Hp. apply at_rule_grows.
  - intros o. unfold numbers1. cbn. rewrite map_map. rewrite (map_ext _ k_id); [done|]. intros c. by destruct (k_id c =? cid)%nat.
  - intros o (Hm & Hl & Hc). split; [done|split; [done|]]. cbn. apply Forall_map. eapply Forall_impl; [exact Hc|]. intros c Hmode. cbn.
    destruct (k_id c =? cid)%nat; [|done]. destruct p; cbn; done.
Qed.

Lemma remove_condition_grows id cid : grows e (removeCondition id cid e).
Proof.
  apply at_rule_grows.
  - intros o. unfold numbers1. cbn. apply submseteq_skip, sublist_submseteq. induction (o_conditions o) as [|c l IH]; cbn; [done|].
    destruct (negb _); cbn; [by apply sublist_skip|by apply sublist_cons].
  - intros o (Hm & Hl & Hc). split; [done|split; [done|]]. cbn. apply Forall_forall. intros c [Hin _]%list_elem_of_In%filter_In.
    rewrite Forall_forall in Hc. by apply Hc, list_elem_of_In.
Qed.

Lemma add_condition_grows id : grows e (addCondition id e).
Proof.
  constructor; cbn.
  - pose proof some_rules as Hs. destruct (ops_of e); [cbn in Hs; lia|done].
  - lia.
  - replace (S (localIdSeed e) - localIdSeed e)%nat with 1%nat by lia. apply at_rule_numbers; [|apply ids_distinct, He].
    intros o. unfold numbers1. cbn. by rewrite map_app.
  - apply at_rule_modes; [|apply He]. intros o (Hm & Hl & Hc). split; [done|split; [done|]]. apply Forall_app. split; [done|].
    apply Forall_singleton. apply (bool_decide_unpack _); by vm_compute.
Qed.

Lemma add_grows : grows e (addOperation e).
Proof.
  constructor; cbn.
  - by destruct (ops_of e).
  - lia.
  - rewrite numbers_app, default_numbers. done.
  - apply Forall_app. split; [apply He|apply Forall_singleton, default_modes].
Qed.

Lemma duplicate_grows id : grows e (duplicateOperation id e).
Proof.
  unfold duplicateOperation. destruct (find_index _ _) as [i|]; [|by apply grows_same]. destruct (ops_of e !! i) as [source|]; [|by apply grows_same].
  destruct (normalizeOperation _ _) as [[cloned next]|] eqn:E; [|by apply grows_same]. apply operation_numbers in E as (Hn & Hlt & Hm). constructor; cbn.
  - unfold insert_at. by destruct (take _ _).
  - lia.
  - rewrite (numbers_permutation _ _ (insert_permutation _ _ _)). cbn [numbers flat_map]. fold (numbers (ops_of e)). rewrite Hn.
    apply Permutation_submseteq, Permutation_app_comm.
  - rewrite insert_permutation. constructor; [done|apply He].
Qed.

Lemma remove_grows id : grows e (removeOperation id e).
Proof.
  unfold removeOperation. destruct (Nat.leb_spec (length (ops_of e)) 1) as [|Hl]; [by apply default_grows|]. apply grows_fewer; cbn.
  - destruct He as [_ Hd%ids_distinct _ _]. destruct (ops_of e) as [|o [|p l]]; [cbn in Hl; lia..|]. cbn in Hd. apply NoDup_cons in Hd as [Hop _].
    cbn [List.filter]. unfold has_id. destruct (Nat.eqb_spec (o_id o) id) as [<-|]; [|cbn; lia].
    destruct (Nat.eqb_spec (o_id p) (o_id o)) as [Hpo|]; [|cbn; lia]. destruct Hop. rewrite <- Hpo. by left.
  - done.
  - apply numbers_filter.
  - apply modes_filter, He.
Qed.

Lemma prune_grows id updater : grows e (updatePruneObjectsDraft id updater e).
Proof.
  unfold updatePruneObjectsDraft. destruct (edit_prune _ _ _ _) as [ops next] eqn:E. apply edit_prune_spec in E as (H1 & H2 & H3 & H4).
  apply grows_fewer; cbn; [rewrite H3; apply some_rules|done| |apply H4, He].
  change (numbers ops ⊆+ numbers (ops_of e)). by rewrite H1.
Qed.

Lemma drop_grows id carried : grows e (handleDrop id carried e).
Proof.
  unfold handleDrop. destruct (match draggedOperationId e with Some d => Some d | None => carried end) as [d|]; [|by apply grows_same].
  destruct (d =? id)%nat; [by apply grows_same|]. generalize (if bool_decide (dragOverOperationId e = Some id) then dragOverPosition e else Before). intros p.
  pose proof (reorder_permutation (ops_of e) (Some d) (Some id) p) as Hp. apply grows_fewer; cbn.
  - rewrite Hp. apply some_rules.
  - done.
  - by apply Permutation_submseteq, numbers_permutation.
  - rewrite Hp. apply He.
Qed.

Lemma to_json_grows : grows e (switchToJsonMode e).
Proof. unfold switchToJsonMode. destruct (editMode (ed e)); [|by apply grows_same]. destruct (buildVisualJson (ed e)); by apply grows_same. Qed.

Lemma to_visual_grows : grows e (switchToVisualMode e).
Proof.
  unfold switchToVisualMode. cbv zeta. destruct (editMode (ed e)); [by apply grows_same|]. destruct (negb _); [by apply default_grows|].
  destruct (JSON_parse _) as [parsed|]; [|by apply grows_same]. destruct parsed; try (by apply grows_same).
  destruct (jget _ _); try (by apply default_grows). destruct (rules_of _ _) as [[ops next]|] eqn:E; [|by apply grows_same].
  apply rules_of_numbers in E as (H1 & H2 & H3 & H4). by apply grows_fresh.
Qed.

Lemma fill_grows append : grows e (fillTemplate append e).
Proof.
  unfold fillTemplate. pose proof (preset_rules e) as Hpay. destruct (preset_of e) as [[|] payload]; cbn in Hpay.
  - destruct (numbered _ _ _) as [[read next]|] eqn:E; [|by apply grows_same]. apply rules_numbers in E as (H1 & H2 & H3 & H4). destruct append; cbv zeta.
    + set (existing := match visualMode (ed e) with Operations => _ | Legacy => _ end).
      assert (numbers existing ⊆+ numbers (ops_of e) /\ Forall rule_modes existing) as [He1 He2].
      { unfold existing. destruct (visualMode (ed e)); [split; [apply numbers_filter|apply modes_filter, He]|split; [apply submseteq_nil_l|constructor]]. }
      clearbody existing. constructor; cbn.
      * intros Hnil%app_eq_nil. destruct Hnil as [_ ->]. cbn in H4. symmetry in H4. apply nil_length_inv in H4. by apply Hpay.
      * done.
      * rewrite numbers_app, H1. by apply submseteq_app.
      * by apply Forall_app.
    + destruct read as [|o read]; [cbn in H4; symmetry in H4; apply nil_length_inv in H4; by apply Hpay in H4|]. by apply grows_fresh.
  - destruct append; [|by apply default_grows]. destruct (visualMode (ed e)); [by apply default_grows|]. cbv zeta.
    destruct (negb _); [by apply default_grows|]. destruct (JSON_parse _); [by apply default_grows|by apply grows_same].
Qed.

Lemma open_grows value e' : open_dialog value e = Some e' -> grows e e'.
Proof.
  unfold open_dialog. destruct (parseInitialState _ _) as [[s next]|] eqn:E; [|done]. intros [= <-].
  apply initial_numbers in E as (H1 & H2 & H3 & H4). by apply grows_fresh.
Qed.

End Handlers.

Lemma handle_grows e ev e' : sound_editor e -> offered ev -> handle ev e = Some e' -> grows e e'.
Proof.
  intros He Ho. destruct ev; cbn [handle]; first [by apply open_grows|intros [= <-]]; try (by apply grows_same); auto using update_grows, add_grows,
    duplicate_grows, remove_grows, add_condition_grows, update_condition_grows, remove_condition_grows, error_draft_grows, drop_grows,
    to_json_grows, to_visual_grows, fill_grows.
  all: try (by apply prune_grows).
  - unfold expandAllConditions, all_conditions. destruct (selectedOperation e); by apply grows_same.
  - unfold collapseAllConditions, all_conditions. destruct (selectedOperation e); by apply grows_same.
  - unfold handleDragOver. destruct (draggedOperationId e) as [d|]; [|by apply grows_same]. destruct (d =? id)%nat; by apply grows_same.
  - by apply default_grows.
  - unfold handleSave. destruct (match editMode (ed e) with Visual => _ | Json => _ end); by apply grows_same.
  - unfold show_draft, pruneObjectsDraft. destruct (selectedOperation e) as [o|]; [|by apply grows_same]. destruct (jeqb _ _); [|by apply grows_same].
    destruct (parsePruneObjectsDraft _ _) as [d m] eqn:E. apply prune_draft_numbers in E as [Hm _]. apply grows_fewer; [exact (some_rules e He)|done|done|apply He].
Qed.

Lemma keep_selected_same e : ops_of (keep_selected e) = ops_of e /\ localIdSeed (keep_selected e) = localIdSeed e.
Proof. unfold keep_selected. destruct (ops_of e) as [|o l] eqn:E; [done|]. destruct (existsb _ _); by rewrite <- E. Qed.

Lemma keep_selected_valid e : ops_of e <> [] -> selection_valid (keep_selected e).
Proof.
  intros Hs. unfold keep_selected, selection_valid. destruct (ops_of e) as [|o l] eqn:E; [done|]. destruct (existsb _ _) eqn:Ex.
  - apply existsb_exists in Ex as (p & Hp & Hid%bool_decide_eq_true). exists p. rewrite E. by split; [apply list_elem_of_In|].
  - exists o. cbn. split; [|done]. change (o ∈ ops_of e). rewrite E. by left.
Qed.

Lemma editor_step_sound e ev e' : sound_editor e -> offered ev -> editor_step e ev = Some e' -> sound_editor e' /\ selection_valid e'.
Proof.
  intros He Ho. unfold editor_step. destruct (handle ev e) as [m|] eqn:E; [|done]. cbn. intros [= <-]. apply handle_grows in E; [|done..].
  destruct (grows_sound _ _ He E) as [Hs Hd Hg Hm]. destruct (keep_selected_same m) as [Ho' Hn]. split; [|by apply keep_selected_valid].
  constructor; rewrite ?Ho', ?Hn; done.
Qed.

(** C27. Whatever is done in the editor, it shows at least one rule; the rules and the conditions in it have numbers of their own, which the
    counter gave out and does not give out again, and modes that are known; and once anything was done, exactly one rule is selected. *)
Theorem editor_sound e : reachable e ->
  sound_editor e /\ (e = initial_editor \/ exists l1 o l2, ops_of e = l1 ++ o :: l2 /\ selectedOperationId e = Some (o_id o) /\
    Forall (fun p => selectedOperationId e <> Some (o_id p)) (l1 ++ l2)).
Proof.
  intros H. assert (sound_editor e /\ (e = initial_editor \/ selection_valid e)) as [He Hsel].
  { induction H as [|e ev e' _ [IH _] Ho Hstep]; [split; [|by left]|].
    - constructor; cbn; [done|apply NoDup_singleton|apply Forall_singleton; cbn; lia|apply Forall_singleton, default_modes].
    - apply editor_step_sound in Hstep as [H1 H2]; auto. }
  split; [done|]. destruct Hsel as [?|(o & Ho & Hid)]; [by left|right]. apply list_elem_of_split in Ho as (l1 & l2 & E). exists l1, o, l2. split; [done|]. split; [done|].
  apply Forall_forall. intros p Hp. rewrite Hid. intros [= Heq]. pose proof (ids_distinct _ (se_distinct e He)) as Hd. rewrite E, map_app in Hd. cbn [map] in Hd.
  rewrite <- Permutation_middle, <- map_app in Hd. apply NoDup_cons in Hd as [Hn _]. apply Hn. rewrite Heq. by apply list_elem_of_fmap_2.
Qed.

Definition run (evs : list event) (e : Editor) : option Editor := fold_left (fun s ev => s ≫= fun e => editor_step e ev) evs (Some e).

Lemma editor_sound_witness : exists e, run [EOpen []; EAdd; EUpdate 2 (PMode (js "prune_objects"))] initial_editor = Some e /\
  map o_id (ops_of e) = [1; 2]%nat /\ sound_editor e.
Proof.
  assert (forall m : jstring, bool_decide (m ∈ OPERATION_MODE_VALUES) = true -> m ∈ OPERATION_MODE_VALUES) as Hin by (intros m; apply bool_decide_eq_true).
  eexists. split; [vm_compute; reflexivity|]. split; [reflexivity|]. refine (proj1 (editor_sound _ _)).
  eapply (r_step _ (EUpdate 2 (PMode (js "prune_objects"))));
    [eapply (r_step _ EAdd); [eapply (r_step _ (EOpen [])); [apply r_start|exact I|vm_compute; reflexivity]|exact I|vm_compute; reflexivity]| |vm_compute; reflexivity].
  cbn. apply Hin. vm_compute. reflexivity.
Defined.

(** ** Drafts of pruned objects *)

(** Where two updaters write the same text for every draft whose rules were numbered late enough, they do the same. *)
Lemma edit_prune_same id base u1 u2 l : (forall n d, (base <= n)%nat -> Forall (fun r => base <= k_id r)%nat (p_rules d) ->
    buildPruneObjectsValueText (u1 n d) = buildPruneObjectsValueText (u2 n d)) ->
  forall next, (base <= next)%nat -> edit_prune id u1 next l = edit_prune id u2 next l.
Proof.
  intros Hu. induction l as [|o l IH]; intros next Hb; cbn [edit_prune]; [done|]. destruct (has_id id o); [|by rewrite IH].
  destruct (parsePruneObjectsDraft next (o_value_text o)) as [d m] eqn:Ed. apply prune_draft_numbers in Ed as [Hm Hr]. rewrite IH by lia.
  rewrite Hu; [done|lia|]. eapply Forall_impl; [exact Hr|]. cbn. lia.
Qed.

Lemma prune_same id u1 u2 e : (forall n d, (localIdSeed e <= n)%nat -> Forall (fun r => localIdSeed e <= k_id r)%nat (p_rules d) ->
    buildPruneObjectsValueText (u1 n d) = buildPruneObjectsValueText (u2 n d)) ->
  updatePruneObjectsDraft id u1 e = updatePruneObjectsDraft id u2 e.
Proof. intros Hu. unfold updatePruneObjectsDraft. by rewrite (edit_prune_same id (localIdSeed e) u1 u2). Qed.

Lemma with_same_rules d : with_rules (p_simpleMode d) (p_rules d) d = d.
Proof. by destruct d. Qed.

(** C29. The conditions of a rule that prunes objects cannot be edited: the draft is read anew for every change and its conditions take new
    numbers, so that a change or a removal of the condition of a number on the page writes what writing the draft unchanged does; and a
    condition that is added names no path, so that writing the draft leaves it out, and all that adding does is to ask for the advanced
    form. *)
Theorem prune_edits_ignored id rid p e : (rid < localIdSeed e)%nat ->
  updatePruneRule id rid p e = updatePruneObjectsDraft id (fun _ d => d) e /\
  removePruneRule id rid e = updatePruneObjectsDraft id (fun _ d => d) e /\
  addPruneRule id e = updatePruneObjectsDraft id (fun _ d => with_rules false (p_rules d) d) e.
Proof.
  intros Hrid. assert (forall rs, Forall (fun r => localIdSeed e <= k_id r)%nat rs -> Forall (fun r => (k_id r =? rid)%nat = false) rs) as Hother.
  { intros rs Hrs. eapply Forall_impl; [exact Hrs|]. cbn. intros r Hr. apply Nat.eqb_neq. lia. }
  split; [|split].
  - apply prune_same. intros n d _ Hd%Hother. f_equal. etransitivity; [|apply with_same_rules]. f_equal. induction Hd as [|r rs Hr _ IH]; cbn; [done|]. by rewrite Hr, IH.
  - apply prune_same. intros n d _ Hd%Hother. f_equal. etransitivity; [|apply with_same_rules]. f_equal. induction Hd as [|r rs Hr _ IH]; cbn; [done|]. by rewrite Hr, IH.
  - apply prune_same. intros n d _ _. unfold buildPruneObjectsValueText, prune_payload. cbn [with_rules p_typeText p_simpleMode p_rules p_logic p_recursive].
    rewrite List.filter_app. cbn [List.filter createDefaultCondition k_path]. by rewrite app_nil_r.
Qed.

Definition prune_rule (text : jstring) : Operation :=
  {| o_id := 0; o_description := []; o_path := []; o_mode := js "prune_objects"; o_from := []; o_to := []; o_value_text := text; o_keep_origin := false;
     o_logic := js "OR"; o_conditions := [] |}.
Definition prune_text : jstring := JSON_stringify (obj [("conditions", JArr [obj [("path", txt "type"); ("mode", txt "full"); ("value", txt "x")]])]%string).
Definition with_rule (o : Operation) : Editor := with_ed (set_operations [o] (ed initial_editor)) (with_seed 9 initial_editor).

Lemma prune_edits_ignored_witness : map o_value_text (ops_of (removePruneRule 0 5 (with_rule (prune_rule prune_text)))) = [prune_text].
Proof.
  refine (eq_trans (f_equal (fun e => map o_value_text (ops_of e))
    (proj1 (proj2 (prune_edits_ignored 0 5 (KPath []) (with_rule (prune_rule prune_text)) _)))) _); [vm_compute; repeat constructor|vm_compute; reflexivity].
Defined.

(** The advanced form is refused for a type alone: the text that is written is read as the simple form. *)
Example advanced_refused : let e := updatePruneObjectsDraft 0 (fun _ d => with_rules false (p_rules d) d) (with_rule (prune_rule (js "thinking"))) in
  map o_value_text (ops_of e) = [JSON_stringify (obj [("type", txt "thinking")]%string)] /\
  map (fun o => p_simpleMode (parsePruneObjectsDraft 0 (o_value_text o)).1) (ops_of e) = [true].
Proof. vm_compute. auto. Qed.

(** A space at the end of a message is gone before the next word is typed. *)
Example space_dropped : let e := updateReturnErrorDraft 0 (fun d => {| e_message := js "no "; e_statusCode := e_statusCode d; e_code := e_code d;
    e_type := e_type d; e_skipRetry := e_skipRetry d; e_simpleMode := e_simpleMode d |})
    (with_rule (patch_operation (PMode (js "return_error")) (prune_rule []))) in
  e_message <$> returnErrorDraft (with_selected (Some 0%nat) e) = Some (js "no").
Proof. vm_compute. reflexivity. Qed.

(** ** Through the text and back *)

(** C28. Rules that pass the check, of which one at least is not blank (so that the text is not empty), shown as text and then as rules
    again, are the rules that were not blank, as a save would keep them, with new numbers; nothing is reported, and their text is the
    text that was shown.  The values of the rules and of their conditions are ones that keep their meaning when they are written and
    read ([sound_rule], [settled]): what is no JSON, and what is JSON but no text; a text written as JSON, with its quotes, that is JSON
    itself is not, for it comes back as that JSON (text_becomes_number).  The modes and the logic are those of the menus. *)
Theorem text_and_back e text : editMode (ed e) = Visual -> visualMode (ed e) = Operations -> Forall sound_rule (ops_of e) ->
  buildVisualJson (ed e) = Done text -> text <> [] ->
  let e' := switchToVisualMode (switchToJsonMode e) in
  ops_of e' = kept_rules (localIdSeed e) (not_blank (ops_of e)) /\ editMode (ed e') = Visual /\ visualMode (ed e') = Operations /\
  buildVisualJson (ed e') = Done text /\ toasts e' = toasts e /\ saved e' = saved e.
Proof.
  intros Hm Hv Hs Hb Hne. pose proof Hb as Hb0. unfold buildVisualJson in Hb. rewrite Hv in Hb.
  destruct (built_read _ text (localIdSeed e) Hs Hb Hne) as (Htrim & Htruthy & Hp & Htext & (next' & Hread) & Hagain). cbv zeta.
  set (shown := with_ed (set_edit Json (set_error None (set_json text (ed e)))) e).
  assert (switchToJsonMode e = shown) as -> by (unfold switchToJsonMode; by rewrite Hm, Hb0).
  assert (switchToVisualMode shown = with_preset (js "operations_default") (with_seed next' (with_selected
    (o_id <$> head (kept_rules (localIdSeed e) (not_blank (ops_of e)))) (with_ed (show_rules (kept_rules (localIdSeed e) (not_blank (ops_of e))) (ed shown)) shown)))) as ->.
  { unfold switchToVisualMode. cbn [shown with_ed ed set_edit editMode set_json set_error jsonText localIdSeed]. cbv zeta.
    rewrite Htrim, Htruthy. cbn [negb]. rewrite Hp. unfold document at 1. fold (document (not_blank (ops_of e))). rewrite document_rules.
    change (localIdSeed shown) with (localIdSeed e). rewrite Hread. reflexivity. }
  split_and!; try reflexivity. unfold buildVisualJson. cbn. exact Hagain.
Qed.

Lemma text_and_back_witness : exists e text, buildVisualJson (ed e) = Done text /\
  ops_of (switchToVisualMode (switchToJsonMode e)) = kept_rules 9 [sample_rule; sample_header].
Proof.
  pose (e := with_ed (set_operations [sample_rule; createDefaultOperation 4; sample_header] (ed initial_editor)) (with_seed 9 initial_editor)).
  pose (text := match buildVisualJson (ed e) with Done t => t | Failed _ => [] end). exists e, text.
  assert (buildVisualJson (ed e) = Done text) as Ht by (vm_compute; reflexivity). split; [exact Ht|].
  assert (ops_of (switchToVisualMode (switchToJsonMode e)) = kept_rules 9 (not_blank (ops_of e))) as ->
    by exact (proj1 (text_and_back e text eq_refl eq_refl sample_sound Ht ltac:(vm_compute; discriminate))).
  vm_compute. reflexivity.
Defined.

(** ** What is saved *)

(** A text that the rule editor saves is one that the form of the channel takes. *)
Lemma rules_saved_taken e e' : editMode (ed e) = Visual -> visualMode (ed e) = Operations -> Forall sound_rule (ops_of e) ->
  handleSave e = e' -> (exists text, saved e' = saved e ++ [text] /\ ChannelForm.isOptionalJsonObject text = true /\ is_open e' = false) \/
    (exists m, toasts e' = toasts e ++ [m] /\ saved e' = saved e /\ is_open e' = is_open e).
Proof.
  intros Hm Hv Hs <-. unfold handleSave, buildVisualJson. rewrite Hm, Hv. destruct (buildOperationsJson _ true) as [text|m] eqn:Hb; [left|right; by exists m].
  exists text. split; [done|]. split; [|done]. destruct (decide (text = [])) as [->|Hne]; [by vm_compute|].
  destruct (built_read _ text 0 Hs Hb Hne) as (Htrim & Htruthy & Hp & _). unfold ChannelForm.isOptionalJsonObject, ChannelForm.parseOptionalJson.
  rewrite ?Htrim. rewrite Htruthy. cbn. by rewrite Hp.
Qed.

(** As a text, what is no object is saved as well, and the form refuses it. *)
Example list_saved : let e := handleSave (with_ed (set_edit Json (set_json (js "[1]") (ed initial_editor))) initial_editor) in
  map (fun t => (JSON_parse t, ChannelForm.isOptionalJsonObject t)) (saved e) = [(Ret (JArr [int 1]), false)].
Proof. vm_compute. reflexivity. Qed.

(** Every preset of rules passes the check, as it is filled in. *)
Example presets_pass : forallb (fun c => match c.2.1 with Legacy => true | Operations =>
    match ed (fillTemplate false (with_preset c.1 initial_editor)) with s => match buildVisualJson s with Done t => truthy t | Failed _ => false end end end)
  TEMPLATE_PRESET_CONFIG = true.
Proof. vm_compute. reflexivity. Qed.

(** ** What the page counts *)

Definition count_of_mode (m : jstring) (ops : list Operation) : nat := length (List.filter (fun o => jeqb (jor (o_mode o) (js "set")) m) ops).

(** Each mode is counted as often as it occurs. *)
Lemma modes_counted ops m : coalesce (mget (mode_counts ops) m) 0%nat = count_of_mode m ops.
Proof.
  induction ops as [|o ops IH] using rev_ind; [done|]. unfold mode_counts, count_of_mode in *. rewrite fold_left_app, List.filter_app, length_app, <- IH. cbn [fold_left List.filter].
  set (counts := fold_left _ ops []). destruct (jeqb (jor (o_mode o) (js "set")) m) eqn:E.
  - apply jeqb_eq in E as ->. rewrite mget_mset, decide_True by done. cbn. lia.
  - rewrite mget_mset, decide_False by (intros <-; by rewrite jeqb_refl in E). cbn. lia.
Qed.
