(* ===== verification/ChannelTools.v ===== *)
(** * Tools around channels

    features/channels/lib: the keys, groups and texts of a channel and its rows by tag (channel-utils.ts), the field that is saved a
    moment after its last change (channel-field-update.ts), whether models may be fetched (channel-model-fetch.ts), the models an
    upstream announces (upstream-update-utils.ts) and those of an Ollama server (ollama-utils.ts).  Times, amounts of money and the
    tables of names and icons are left to the user interface. *)

From S2P Require Import Prelude JsValue JsText JsObject AdvancedCustom ChannelForm ModelMapping.
#[global] Open Scope Z_scope.

(** ** Keys *)

Definition key_lines (key : jstring) : list jstring := List.filter (fun k => truthy (trim k)) (split_on 10 key).

(** [s.slice(-n)] *)
Definition last_units (n : nat) (s : jstring) : jstring := drop (length s - n) s.

Definition formatChannelKey (key : jstring) (isMultiKey : bool) : jstring :=
  if negb (truthy key) then []
  else if isMultiKey then dec_of_Z (Z.of_nat (length (key_lines key))) ++ js " keys"
  else if (length key <=? 16)%nat then slice key 0 4 ++ js "..." ++ last_units 4 key
  else slice key 0 8 ++ js "..." ++ last_units 8 key.

Definition formatKeyPreview (key : jstring) (maxLength : nat) : jstring :=
  if negb (truthy key) then [] else if (length key <=? maxLength)%nat then key else slice key 0 maxLength ++ js "...".

Definition countKeys (key : jstring) : nat := if negb (truthy key) then 0%nat else length (key_lines key).

Record Deduplicated := { deduplicatedText : jstring; beforeCount : nat; afterCount : nat; removedCount : nat }.

Definition add_key (state : list jstring * list jstring) (line : jstring) : list jstring * list jstring :=
  let '(keySet, deduplicatedKeys) := state in
  let trimmedLine := trim line in
  if truthy trimmedLine && negb (bool_decide (trimmedLine ∈ keySet))
  then (trimmedLine :: keySet, deduplicatedKeys ++ [trimmedLine]) else state.

Definition deduplicateKeys (keysText : jstring) : Deduplicated :=
  if negb (truthy keysText) || negb (truthy (trim keysText)) then
    {| deduplicatedText := []; beforeCount := 0; afterCount := 0; removedCount := 0 |}
  else
    let keyLines := split_on 10 keysText in
    let deduplicatedKeys := (fold_left add_key keyLines ([], [])).2 in
    {| deduplicatedText := join [10%N] deduplicatedKeys; beforeCount := length keyLines; afterCount := length deduplicatedKeys;
       removedCount := length keyLines - length deduplicatedKeys |}.

(** ** Models and groups *)

Definition parseModelsList (models : jstring) : list jstring :=
  if negb (truthy models) then [] else List.filter truthy (map trim (split_on ch_comma models)).

Section Groups.
Context (localeCompare : jstring -> jstring -> Z).

Definition group_order (a b : jstring) : Z :=
  if jeqb a (js "default") then -1 else if jeqb b (js "default") then 1 else localeCompare a b.

Definition parseGroupsList (groups : jstring) : list jstring :=
  if negb (truthy groups) then [] else js_sort group_order (List.filter truthy (map trim (split_on ch_comma groups))).

Definition validateGroups (groups : jstring) : bool := (0 <? length (parseGroupsList groups))%nat.
End Groups.

Definition formatModelsString (models : list jstring) : jstring := join (js ",") models.
Definition formatGroupsString (groups : list jstring) : jstring := join (js ",") groups.

Definition validateChannelName (name : jstring) : bool := (0 <? length (trim name))%nat.
Definition validateApiKey (key : jstring) : bool := (0 <? length (trim key))%nat.
Definition validateModels (models : jstring) : bool := (0 <? length (parseModelsList models))%nat.

(** ** Settings *)

Definition parseChannelSettings (settingStr : option jstring) : jsval :=
  match settingStr with
  | Some (_ :: _ as s) => catch (JSON_parse s) (JObj [])
  | _ => JObj []
  end.

Definition parseChannelOtherSettings (settingsStr : option jstring) : jsval :=
  match settingsStr with
  | Some (_ :: _ as s) => if jeqb s (js "{}") then JObj [] else catch (JSON_parse s) (JObj [])
  | _ => JObj []
  end.

Definition validateChannelSettings (settings : jstring) : bool :=
  if negb (truthy settings) || negb (truthy (trim settings)) then true
  else match JSON_parse settings with Ret _ => true | Throw => false end.

(** ** Channels of a list *)

(** What is known of the keys of a channel. *)
Record ChannelInfo := { is_multi_key : bool; multi_key_size : Z; multi_key_status_list : option (list (jstring * Z)) }.

(** A channel as it is listed.  [None] is null or undefined; [c_rest] are the members that are only carried along. *)
Record Listed := {
  c_id : Z; c_name : jstring; c_type : Z; c_key : jstring; c_tag : option jstring; c_status : Z; c_group : jstring; c_models : jstring;
  c_used_quota : Z; c_response_time : Z; c_priority : option Z; c_weight : option Z; c_balance : jsnum;
  c_channel_info : option ChannelInfo; c_rest : members
}.

Definition isChannelEnabled (channel : Listed) : bool := c_status channel =? 1.
Definition isMultiKeyChannel (channel : Listed) : bool := match c_channel_info channel with Some i => is_multi_key i | None => false end.

Definition low_balance (channel : Listed) : bool :=
  match c_balance channel with Fin b => negb (Qle_bool b 0) && negb (Qle_bool 1 b) | _ => false end.

Definition all_keys_disabled (channel : Listed) : bool :=
  match c_channel_info channel with
  | Some i => is_multi_key i &&
      match multi_key_status_list i with Some l => multi_key_size i <=? Z.of_nat (length l) | None => false end
  | None => false
  end.

Definition channelNeedsAttention (channel : Listed) : bool :=
  if c_status channel =? 3 then true
  else if low_balance channel then true
  else if all_keys_disabled channel then true
  else false.

Definition getAttentionReason (channel : Listed) : option jstring :=
  if c_status channel =? 3 then Some (js "Auto-disabled")
  else if low_balance channel then Some (js "Low balance")
  else if all_keys_disabled channel then Some (js "All keys disabled")
  else None.

(** ** Rows by tag *)

(** The row of a tag: the members of its first channel, those below replaced, and the channels themselves. *)
Record TagRow := {
  r_tag : jstring; r_name : jstring; r_key : jstring; r_type : Z; r_status : option Z; r_group : jstring; r_models : jstring;
  r_used_quota : Z; r_response_time : jsnum; r_priority : option Z; r_weight : option Z; r_balance : jsnum;
  r_info : option ChannelInfo; r_rest : members; children : list Listed
}.

Inductive TableRow :=
| ChannelRow (c : Listed)
| AggregateRow (r : TagRow).

Definition isTagAggregateRow (row : TableRow) : bool := match row with AggregateRow _ => true | ChannelRow _ => false end.

Definition getChannelTableRowId (row : TableRow) : jstring :=
  match row with
  | AggregateRow r => js "tag:" ++ jor (r_tag r) []
  | ChannelRow c => js "channel:" ++ dec_of_Z (c_id c)
  end.

Definition tag_of (channel : Listed) : jstring := ojor (c_tag channel) [].

Definition new_row (channel : Listed) : TagRow :=
  let tag := tag_of channel in
  {| r_tag := tag; r_name := tag; r_key := tag; r_type := 0; r_status := None; r_group := []; r_models := []; r_used_quota := 0;
     r_response_time := num_of_Z 0; r_priority := Some (-1); r_weight := Some (-1); r_balance := num_of_Z 0;
     r_info := c_channel_info channel; r_rest := c_rest channel; children := [] |}.

(** One value for all, or null. *)
Definition agree (of_row of_channel : option Z) : option Z :=
  if bool_decide (of_row = Some (-1)) then of_channel else if bool_decide (of_row = of_channel) then of_row else None.

Definition names_of (group : jstring) : list jstring := List.filter truthy (split_on ch_comma group).

Definition add_groups (group added : jstring) : jstring :=
  if negb (truthy group) then added
  else
    let existingGroups := names_of group in
    fold_left (fun group g => if bool_decide (g ∈ existingGroups) then group else group ++ ch_comma :: g) (names_of added) group.

Definition add_child (channel : Listed) (row : TagRow) : TagRow :=
  let kids := children row ++ [channel] in
  let childCount := length kids in
  {| r_tag := r_tag row; r_name := r_name row; r_key := r_key row; r_type := r_type row;
     r_status := if c_status channel =? 1 then Some 1 else match r_status row with Some s => Some s | None => Some (c_status channel) end;
     r_group := add_groups (r_group row) (c_group channel); r_models := r_models row;
     r_used_quota := r_used_quota row + c_used_quota channel;
     r_response_time := num_div (num_add (num_mul (r_response_time row) (num_of_Z (Z.of_nat childCount - 1))) (num_of_Z (c_response_time channel)))
       (Pos.of_nat childCount);
     r_priority := agree (r_priority row) (c_priority channel); r_weight := agree (r_weight row) (c_weight channel);
     r_balance := r_balance row; r_info := r_info row; r_rest := r_rest row; children := kids |}.

(** [tagMap], whose rows are those of the result, in the same order. *)
Definition tagMap (channels : list Listed) : list (jstring * TagRow) := accumulate tag_of new_row add_child [] channels.

Definition aggregateChannelsByTag (channels : list Listed) : list TagRow := map snd (tagMap channels).

(** ** Fetching models *)

Inductive ModelFetchBlockReason := unsupported_type | missing_permission | missing_key.

Definition KEYLESS_MODEL_FETCH_TYPES : list Z := [CHANNEL_TYPE_ADVANCED_CUSTOM; CHANNEL_TYPE_CUBE_STACK].

Definition resolveModelFetchBlock (type : Z) (isEditing canEditSensitive : bool) (apiKey : option jstring) : option ModelFetchBlockReason :=
  if negb (has_type MODEL_FETCHABLE_TYPES type) then Some unsupported_type
  else if negb isEditing && negb canEditSensitive then Some missing_permission
  else if negb isEditing && negb (has_type KEYLESS_MODEL_FETCH_TYPES type) && negb (truthy (trim (coalesce apiKey []))) then Some missing_key
  else None.

(** ** Models of an upstream *)

(** [normalizeModelList]; what has no [map] throws. *)
Definition normalizeModelList (models : jsval) : exc (list jstring) :=
  match vor models (JArr []) with
  | JArr l => ebind (emap (fun model => ebind (String_of (vor model (JStr []))) (fun s => Ret (trim s))) l)
                (fun names => Ret (uniq (List.filter truthy names)))
  | _ => Throw
  end.

Record UpstreamUpdateMeta := { enabled : bool; pendingAddModels : list jstring; pendingRemoveModels : list jstring }.

Definition parseUpstreamUpdateMeta (settings : jsval) : exc UpstreamUpdateMeta :=
  let parsed := match settings with
                | JObj _ => settings
                | JStr s => catch (JSON_parse s) JNull
                | _ => JNull
                end in
  match parsed with
  | JObj _ | JArr _ =>
      ebind (normalizeModelList (jget parsed (js "upstream_model_update_last_detected_models"))) (fun add =>
      ebind (normalizeModelList (jget parsed (js "upstream_model_update_last_removed_models"))) (fun remove =>
      Ret {| enabled := match jget parsed (js "upstream_model_update_check_enabled") with JBool true => true | _ => false end;
             pendingAddModels := add; pendingRemoveModels := remove |}))
  | _ => Ret {| enabled := false; pendingAddModels := []; pendingRemoveModels := [] |}
  end.

(** ** Models of an Ollama server *)

Definition isRecord (v : jsval) : bool := match v with JObj _ | JArr _ => true | _ => false end.
Definition getString (v : jsval) : jstring := match v with JStr s => s | _ => [] end.

(** [getNumber(v)], where it is a number. *)
Definition getNumber (v : jsval) : option jsnum := match v with JNum n => Some n | _ => None end.

Definition parseMaybeJSON (value : jsval) : jsval :=
  if negb (jtruthy value) then JNull
  else match value with
       | JObj _ | JArr _ => value
       | JStr s => catch (JSON_parse s) JNull
       | _ => JNull
       end.

(** The channel by its members; [None] is null. *)
Definition resolveOllamaBaseUrl (channel : option jsval) : jstring :=
  match channel with
  | None => []
  | Some channel =>
      let parsed := parseMaybeJSON (jget channel (js "other_info")) in
      let of_info := if isRecord parsed
        then jor (trim (getString (jget parsed (js "base_url"))))
               (jor (trim (getString (jget parsed (js "public_url")))) (trim (getString (jget parsed (js "api_url")))))
        else [] in
      jor (trim (getString (jget channel (js "base_url")))) (jor (trim (getString (jget channel (js "ollama_base_url")))) of_info)
  end.

Definition set_if (test : bool) (key : string) (v : jsval) (fs : members) : members := if test then put (js key) v fs else fs.

(** Whether a member is there and true. *)
Definition has (fs : members) (key : string) : bool := jtruthy (jget (JObj fs) (js key)).

Definition candidate_id (item : jsval) : jstring :=
  fold_right (fun key rest => jor (getString (jget item (js key))) rest) [] ["id"; "ID"; "name"; "model"; "Model"]%string.

Definition from_metadata (metadata : jsval) (fs : members) : members :=
  if negb (isRecord metadata) then fs
  else
    let fs := match getNumber (jget metadata (js "size")) with
              | Some n => set_if (negb (has fs "size")) "size" (JNum n) fs
              | None => fs end in
    let metaDigest := getString (jget metadata (js "digest")) in
    let fs := set_if (negb (has fs "digest") && truthy metaDigest) "digest" (JStr metaDigest) fs in
    let metaModifiedAt := getString (jget metadata (js "modified_at")) in
    let fs := set_if (negb (has fs "modified_at") && truthy metaModifiedAt) "modified_at" (JStr metaModifiedAt) fs in
    set_if (jtruthy (jget metadata (js "details")) && negb (has fs "details")) "details" (jget metadata (js "details")) fs.

Definition normalize_item (item : jsval) : option jsval :=
  if negb (jtruthy item) then None
  else match item with
       | JStr s => Some (JObj [(js "id", JStr s); (js "owned_by", JStr (js "ollama"))])
       | JObj own =>
           let candidateId := candidate_id item in
           if negb (truthy candidateId) then None
           else
             let metadata := vcoalesce (jget item (js "metadata")) (jget item (js "Metadata")) in
             let owned_by := jor (getString (jget item (js "owned_by"))) (jor (getString (jget item (js "ownedBy"))) (js "ollama")) in
             let fs := put (js "owned_by") (JStr owned_by) (put (js "id") (JStr candidateId) own) in
             let fs := match getNumber (jget item (js "size")) with
                       | Some n => set_if (negb (has fs "size")) "size" (JNum n) fs
                       | None => fs end in
             Some (JObj (from_metadata metadata fs))
       | _ => None
       end.

Definition normalizeOllamaModels (items : jsval) : list jsval :=
  match items with JArr l => omap normalize_item l | _ => [] end.

(** ** A field that is saved a moment later *)

Definition CHANNEL_FIELD_UPDATE_DELAY_MS : Z := 800.

(** The scheduler and the timers: the timers that are running, by number, all of them of this scheduler, the number of the next, and
    the values handed to [onUpdate]. *)
Record Scheduler := { timeoutId : option nat; pendingValue : option Z; running : list nat; next_timer : nat; updates : list Z }.

Definition createChannelFieldUpdateScheduler (first : nat) : Scheduler :=
  {| timeoutId := None; pendingValue := None; running := []; next_timer := first; updates := [] |}.

Definition clearPendingTimer (s : Scheduler) : Scheduler :=
  match timeoutId s with
  | None => s
  | Some id => {| timeoutId := None; pendingValue := pendingValue s; running := List.filter (fun t => negb (t =? id)%nat) (running s);
                  next_timer := next_timer s; updates := updates s |}
  end.

Definition commitPendingValue (s : Scheduler) : Scheduler :=
  let s := clearPendingTimer s in
  match pendingValue s with
  | None => s
  | Some value => {| timeoutId := timeoutId s; pendingValue := None; running := running s; next_timer := next_timer s;
                     updates := updates s ++ [value] |}
  end.

Definition schedule (value : Z) (s : Scheduler) : Scheduler :=
  let s := clearPendingTimer s in
  {| timeoutId := Some (next_timer s); pendingValue := Some value; running := running s ++ [next_timer s];
     next_timer := S (next_timer s); updates := updates s |}.

Definition flush : Scheduler -> Scheduler := commitPendingValue.

(** What happens to it: the field is changed, it is left, or the time of a running timer is over. *)
Inductive field_event := Change (value : Z) | Leave | Expire (timer : nat).
#[export] Instance field_event_eq : EqDecision field_event.
Proof. solve_decision. Defined.

Definition field_step (s : Scheduler) (e : field_event) : Scheduler :=
  match e with
  | Change value => schedule value s
  | Leave => flush s
  | Expire t =>
      if bool_decide (t ∈ running s)
      then commitPendingValue {| timeoutId := timeoutId s; pendingValue := pendingValue s;
             running := List.filter (fun u => negb (u =? t)%nat) (running s); next_timer := next_timer s; updates := updates s |}
      else s
  end.

Definition field_run (events : list field_event) (s : Scheduler) : Scheduler := fold_left field_step events s.

(** ** What the rows promise *)

(** One value for all channels, where those that come first with the value -1 count as having none yet. *)
Definition agreed (values : list (option Z)) : option Z :=
  match drop_while (fun v => bool_decide (v = Some (-1))) values with
  | [] => Some (-1)
  | v :: rest => if forallb (fun w => bool_decide (w = v)) rest then v else None
  end.

Record row_of_tag (channels : list Listed) (r : TagRow) : Prop := {
  rt_children : children r = List.filter (fun c => jeqb (tag_of c) (r_tag r)) channels;
  rt_some : children r <> [];
  rt_quota : r_used_quota r = zsum_of c_used_quota (children r);
  rt_enabled : r_status r = Some 1 <-> Exists (fun c => c_status c = 1) (children r);
  rt_status : Exists (fun c => r_status r = Some (c_status c)) (children r);
  rt_groups : forall g, g ∈ names_of (r_group r) <-> Exists (fun c => g ∈ names_of (c_group c)) (children r);
  rt_priority : r_priority r = agreed (map c_priority (children r));
  rt_weight : r_weight r = agreed (map c_weight (children r))
}.

(** ** Entries gathered by key *)

Section Gathered.
Context {K V E : Type} `{EqDecision K} (key : E -> K) (init : E -> V) (step : E -> V -> V).

(** The entry of a key: its elements added in order, from what the first starts with. *)
Definition gathered (k : K) (es : list E) : option V :=
  fold_left (fun v e => Some (step e (coalesce v (init e)))) (List.filter (fun e => bool_decide (key e = k)) es) None.

Lemma gathered_get es k : mget (accumulate key init step [] es) k = gathered k es.
Proof.
  induction es as [|e es IH] using rev_ind; [done|]. unfold accumulate, gathered in *.
  rewrite foldl_snoc, List.filter_app, fold_left_app. set (m := foldl _ [] es) in *. clearbody m.
  unfold mupdate. rewrite mget_mset. cbn [List.filter].
  destruct (decide (key e = k)) as [<-|Hk]; [rewrite bool_decide_true by done|rewrite bool_decide_false by done].
  all: cbn [fold_left].
  all: by rewrite IH.
Qed.

Lemma uniq_go_snoc (l : list K) x seen : uniq_go seen (l ++ [x]) = if decide (x ∈ seen \/ x ∈ l) then uniq_go seen l else uniq_go seen l ++ [x].
Proof.
  revert seen. induction l as [|y l IH]; intros seen; cbn.
  - case_bool_decide; [by rewrite decide_True by tauto|]. rewrite decide_False; [done|]. intros [?|?%elem_of_nil]; done.
  - case_bool_decide as Hy; rewrite IH; repeat case_decide; set_solver.
Qed.

Lemma gathered_keys es : map fst (accumulate key init step [] es) = uniq (map key es).
Proof.
  induction es as [|e es IH] using rev_ind; [done|]. unfold accumulate in *. rewrite foldl_snoc. set (m := foldl _ [] es) in *. clearbody m.
  unfold mupdate. rewrite mset_keys, IH, map_app.
  unfold uniq. cbn [map]. rewrite uniq_go_snoc. pose proof (uniq_elem (map key es) (key e)) as Hu. unfold uniq in Hu.
  repeat case_decide; set_solver.
Qed.

(** What holds of the first entry and is kept by each step holds of every entry and its elements. *)
Lemma gathered_ind (P : list E -> V -> Prop) k es v :
  (forall e, key e = k -> P [e] (step e (init e))) -> (forall l e w, P l w -> P (l ++ [e]) (step e w)) ->
  gathered k es = Some v -> P (List.filter (fun e => bool_decide (key e = k)) es) v.
Proof.
  intros H1 H2. unfold gathered. assert (Forall (fun e => key e = k) (List.filter (fun e => bool_decide (key e = k)) es)) as Hk.
  { apply List.Forall_forall. intros e [_ He]%filter_In. by apply bool_decide_eq_true in He. }
  revert v Hk. set (l := List.filter _ es). clearbody l. induction l as [|e l IH] using rev_ind; intros v Hall; [done|]. apply Forall_app in Hall as [Hl He].
  rewrite fold_left_app. cbn. intros [= <-]. destruct (fold_left _ l None) as [w|] eqn:E'; cbn.
  - by apply H2, IH.
  - destruct l as [|e' l]; [apply H1; by apply Forall_inv in He|]. exfalso. cbn in E'. clear -E'. revert E'.
    generalize (step e' (init e')). induction l; cbn; [done|]. intros w. apply IHl.
Qed.
End Gathered.

(** ** Names between commas *)

Lemma split_on_mid c a b : split_on c (a ++ c :: b) = split_on c a ++ split_on c b.
Proof.
  induction a as [|d a IH]; cbn; [by rewrite N.eqb_refl|]. rewrite IH. destruct (d =? c)%N; [done|].
  destruct (split_on_cons c a) as (w & ws & ->). done.
Qed.

Lemma names_of_snoc group g : Forall (fun c => c <> ch_comma) g -> truthy g = true -> names_of (group ++ ch_comma :: g) = names_of group ++ [g].
Proof. intros Hg Ht. unfold names_of. rewrite split_on_mid, List.filter_app, (split_on_free _ g) by done. cbn. by rewrite Ht. Qed.

Lemma names_of_clean group : Forall (fun g => Forall (fun c => c <> ch_comma) g /\ truthy g = true) (names_of group).
Proof.
  apply List.Forall_forall. intros g [Hin Ht]%filter_In. split; [|done].
  pose proof (split_free ch_comma group) as H. rewrite List.Forall_forall in H. auto.
Qed.

Lemma groups_appended (old l : list jstring) (g : jstring) : Forall (fun g => Forall (fun c => c <> ch_comma) g /\ truthy g = true) l -> forall group,
  (forall x, x ∈ old -> x ∈ names_of group) ->
  g ∈ names_of (fold_left (fun group g => if bool_decide (g ∈ old) then group else group ++ ch_comma :: g) l group) <->
  g ∈ names_of group \/ g ∈ l.
Proof.
  induction 1 as [|x l [Hx Htx] _ IH]; intros group Hold; cbn [fold_left].
  - rewrite elem_of_nil. tauto.
  - rewrite elem_of_cons. case_bool_decide as Hin.
    + rewrite IH by auto. split; [tauto|]. intros [?|[->|?]]; auto.
    + rewrite IH; rewrite ?names_of_snoc by done; [rewrite elem_of_app, list_elem_of_singleton; tauto|].
      intros y Hy. apply elem_of_app. auto.
Qed.

Lemma add_groups_names group added g : g ∈ names_of (add_groups group added) <-> g ∈ names_of group \/ g ∈ names_of added.
Proof.
  unfold add_groups. destruct (truthy group) eqn:Et; cbn [negb]; [|destruct group; [|done]; cbn; rewrite elem_of_nil; tauto].
  apply groups_appended; [apply names_of_clean|done].
Qed.

(** ** One value for all *)

Lemma agree_null l : fold_left agree l None = None.
Proof. induction l as [|v l IH]; [done|]. cbn. unfold agree at 2. rewrite bool_decide_false by done. by case_bool_decide. Qed.

Lemma agree_same v l : v <> Some (-1) -> fold_left agree l v = if forallb (fun w => bool_decide (w = v)) l then v else None.
Proof.
  intros Hv. induction l as [|w l IH]; [done|]. cbn. unfold agree at 2. rewrite bool_decide_false by done.
  destruct (decide (v = w)) as [->|Hw]; [by rewrite !bool_decide_true by done|].
  rewrite !bool_decide_false by congruence. cbn. apply agree_null.
Qed.

Lemma agree_all l : fold_left agree l (Some (-1)) = agreed l.
Proof.
  unfold agreed. induction l as [|v l IH]; [done|]. cbn. unfold agree at 2. rewrite bool_decide_true by done.
  case_bool_decide as Hv; [by subst|]. by apply agree_same.
Qed.

(** ** The rows *)

Lemma row_adds channels k r : mget (tagMap channels) k = Some r ->
  r_tag r = k /\ children r = List.filter (fun c => bool_decide (tag_of c = k)) channels /\ children r <> [] /\
  r_used_quota r = zsum_of c_used_quota (children r) /\ r_priority r = fold_left agree (map c_priority (children r)) (Some (-1)) /\
  r_weight r = fold_left agree (map c_weight (children r)) (Some (-1)).
Proof.
  unfold tagMap. rewrite gathered_get. intros H.
  apply (gathered_ind tag_of new_row add_child (fun l r => r_tag r = k /\ children r = l /\ children r <> [] /\
    r_used_quota r = zsum_of c_used_quota (children r) /\ r_priority r = fold_left agree (map c_priority (children r)) (Some (-1)) /\
    r_weight r = fold_left agree (map c_weight (children r)) (Some (-1)))) in H; [done| |].
  - intros c Hc. cbn. repeat split; try done. unfold zsum_of, zsum. cbn. lia.
  - intros l c w (Ht & <- & _ & Hq & Hp & Hw).
    cbn [add_child r_tag children r_used_quota r_priority r_weight].
    split; [done|]. split; [done|]. split; [by intros [_ ?]%app_eq_nil|]. split; [|split].
    + rewrite zsum_of_app, Hq. unfold zsum_of, zsum. cbn. lia.
    + by rewrite map_app, fold_left_app, Hp.
    + by rewrite map_app, fold_left_app, Hw.
Qed.

Lemma row_states channels k r : mget (tagMap channels) k = Some r ->
  (r_status r = Some 1 <-> Exists (fun c => c_status c = 1) (children r)) /\ Exists (fun c => r_status r = Some (c_status c)) (children r) /\
  forall g, g ∈ names_of (r_group r) <-> Exists (fun c => g ∈ names_of (c_group c)) (children r).
Proof.
  unfold tagMap. rewrite gathered_get. intros H.
  apply (gathered_ind tag_of new_row add_child (fun l r => 
    (r_status r = Some 1 <-> Exists (fun c => c_status c = 1) (children r)) /\ Exists (fun c => r_status r = Some (c_status c)) (children r) /\
    forall g, g ∈ names_of (r_group r) <-> Exists (fun c => g ∈ names_of (c_group c)) (children r))) in H; [done| |].
  - intros c _. cbn [add_child new_row r_status children r_group]. cbn [app]. rewrite !Exists_cons, !Exists_nil.
    split; [|split; [|intros g; rewrite Exists_cons, Exists_nil; unfold add_groups; cbn [negb truthy]; tauto]].
    + destruct (Z.eqb_spec (c_status c) 1); [naive_solver|]. split; [congruence|]. intros [|[]]; done.
    + left. destruct (Z.eqb_spec (c_status c) 1); congruence.
  - intros l c w (Hs & He & Hg). cbn [add_child r_status children r_group]. rewrite !Exists_app, !Exists_cons, !Exists_nil.
    split; [|split].
    + destruct (Z.eqb_spec (c_status c) 1); [naive_solver|]. rewrite <- Hs. destruct (r_status w); naive_solver.
    + destruct (Z.eqb_spec (c_status c) 1) as [Hc|]; [right; left; congruence|].
      destruct (r_status w); [by left|right; by left].
    + intros g. rewrite add_groups_names, Hg, Exists_app, Exists_cons, Exists_nil. tauto.
Qed.

Lemma tag_ids_differ tags : NoDup tags -> NoDup (map (fun t => js "tag:" ++ jor t []) tags).
Proof.
  assert (Inj (=) (=) (fun t => js "tag:" ++ jor t [])) as Hinj by (intros a b E; apply app_inv_head in E; by destruct a, b).
  intros H. by apply (NoDup_fmap_2 (fun t => js "tag:" ++ jor t [])).
Qed.

(** C32. The table by tags has one row for each tag that occurs, in the order of their first channels, under identifiers that differ.
    A row holds the channels of its tag in their order; its used quota is their sum, it is enabled exactly when one of them is, its
    groups are all of theirs, and its priority and weight are those of its channels where these agree.  No channel is lost. *)
Theorem rows_by_tag channels :
  let rows := aggregateChannelsByTag channels in
  map r_tag rows = uniq (map tag_of channels) /\
  NoDup (map (fun r => getChannelTableRowId (AggregateRow r)) rows) /\
  Forall (row_of_tag channels) rows /\
  (forall c, c ∈ channels <-> exists r, r ∈ rows /\ c ∈ children r).
Proof.
  cbv zeta. set (rows := aggregateChannelsByTag channels).
  assert (NoDup (map fst (tagMap channels))) as Hnd by (apply accumulate_NoDup; constructor).
  assert (forall r, r ∈ rows -> mget (tagMap channels) (r_tag r) = Some r) as Hget.
  { intros r ([k r'] & -> & Hin)%list_elem_of_fmap. cbn [snd]. apply list_elem_of_In, In_mget in Hin; [|done].
    pose proof (row_adds _ _ _ Hin) as (Ht & _). by rewrite Ht. }
  assert (map r_tag rows = uniq (map tag_of channels)) as Htags.
  { rewrite <- (gathered_keys tag_of new_row add_child). unfold rows, aggregateChannelsByTag. rewrite map_map. apply map_ext_in.
    intros [k r] Hin. cbn. apply In_mget in Hin; [|done]. by apply row_adds in Hin as (-> & _). }
  split; [done|]. split.
  { rewrite <- (map_map r_tag (fun t => js "tag:" ++ jor t [])). apply tag_ids_differ. rewrite Htags. apply uniq_NoDup. }
  assert (forall r, r ∈ rows -> children r = List.filter (fun c => jeqb (tag_of c) (r_tag r)) channels) as Hkids.
  { intros r Hr%Hget. apply row_adds in Hr as (_ & -> & _). apply List.filter_ext. intros c. destruct (jeqb (tag_of c) (r_tag r)) eqn:E; [by apply bool_decide_eq_true, jeqb_eq|by apply bool_decide_eq_false, jeqb_neq]. }
  split.
  - apply Forall_forall. intros r Hr. pose proof (Hget r Hr) as Hm. pose proof (row_adds _ _ _ Hm) as (_ & _ & Hne & Hq & Hp & Hw).
    pose proof (row_states _ _ _ Hm) as (Hs & He & Hg). constructor; auto; by rewrite ?Hp, ?Hw, agree_all.
  - intros c. split.
    + intros Hc. assert (tag_of c ∈ map r_tag rows) as Hin by (rewrite Htags, uniq_elem; by apply list_elem_of_fmap_2).
      apply list_elem_of_fmap in Hin as (r & Et & Hr). exists r. split; [done|]. rewrite Hkids by done.
      apply list_elem_of_In, filter_In. split; [by apply list_elem_of_In|]. by apply jeqb_eq.
    + intros (r & Hr & Hc). rewrite Hkids in Hc by done. apply list_elem_of_In, filter_In in Hc as [Hc _]. by apply list_elem_of_In.
Qed.

Definition sample_channel (id : Z) (tag group : string) (priority status : Z) : Listed :=
  {| c_id := id; c_name := js "c"; c_type := 1; c_key := []; c_tag := Some (js tag); c_status := status; c_group := js group; c_models := [];
     c_used_quota := 5; c_response_time := 100; c_priority := Some priority; c_weight := None; c_balance := num_of_Z 0;
     c_channel_info := None; c_rest := [] |}.

(** The priority -1 of a channel counts as none: the row shows the priority of the other one, not that they differ. *)
Example minus_one_counts_as_none :
  map r_priority (aggregateChannelsByTag [sample_channel 1 "t" "a" (-1) 1; sample_channel 2 "t" "a" 7 2]) = [Some 7] /\
  map r_priority (aggregateChannelsByTag [sample_channel 2 "t" "a" 7 2; sample_channel 1 "t" "a" (-1) 1]) = [None].
Proof. vm_compute. by split. Qed.

(** A group named twice by one channel stands twice in the row. *)
Example group_repeated :
  map r_group (aggregateChannelsByTag [sample_channel 1 "t" "a" 0 1; sample_channel 2 "t" "b,b" 0 1]) = [js "a,b,b"].
Proof. vm_compute. reflexivity. Qed.

(** A short key is shown whole, and twice where it has four units or fewer. *)
Example short_key_shown : formatChannelKey (js "abcdefgh") false = js "abcd...efgh" /\ formatChannelKey (js "abcd") false = js "abcd...abcd".
Proof. vm_compute. by split. Qed.

Lemma attention_has_reason channel : channelNeedsAttention channel = true <-> getAttentionReason channel <> None.
Proof. unfold channelNeedsAttention, getAttentionReason. repeat case_match; done. Qed.

(** ** Keys without duplicates *)

Lemma add_keys lines seen kept : (forall x, x ∈ seen <-> x ∈ kept) ->
  (fold_left add_key lines (seen, kept)).2 = kept ++ uniq_go seen (List.filter truthy (map trim lines)).
Proof.
  revert seen kept. induction lines as [|line lines IH]; intros seen kept Hs; cbn [fold_left map List.filter]; [by rewrite app_nil_r|].
  unfold add_key at 2. destruct (truthy (trim line)); cbn [andb]; [|by apply IH]. cbn [uniq_go].
  destruct (bool_decide (trim line ∈ seen)); cbn [negb]; [by apply IH|]. rewrite IH, <- app_assoc; [done|].
  intros x. rewrite elem_of_cons, elem_of_app, list_elem_of_singleton, Hs. tauto.
Qed.

Definition keys_of (text : jstring) : list jstring := uniq (List.filter truthy (map trim (split_on 10 text))).

(** A key as a line holds it. *)
Definition clean_key (k : jstring) : Prop := Forall (fun c => c <> 10%N) k /\ trim k = k /\ truthy k = true.

Lemma keys_clean text : Forall clean_key (keys_of text).
Proof.
  apply uniq_Forall, List.Forall_forall. intros x [Hx Ht]%filter_In. apply in_map_iff in Hx as (y & <- & Hy).
  split; [|split; [apply trim_idem|done]]. apply trim_free. pose proof (split_free 10 text) as H. rewrite List.Forall_forall in H. auto.
Qed.

Lemma keys_joined l : Forall clean_key l -> NoDup l -> keys_of (join [10%N] l) = l.
Proof.
  intros H Hnd. unfold keys_of. destruct l as [|x l]; [done|]. rewrite split_on_join; [|done|by eapply Forall_impl; [exact H|intros y []]].
  rewrite <- (uniq_id (x :: l)) at 2 by done. f_equal. clear Hnd. induction H as [|y k (_ & Ht & Hy) _ IH]; [done|]. cbn. by rewrite Ht, Hy, IH.
Qed.

Lemma blank_keys text : truthy (trim text) = false -> keys_of text = [].
Proof.
  intros H%trim_blank_all. unfold keys_of. replace (List.filter truthy (map trim (split_on 10 text))) with ([] : list jstring); [done|].
  symmetry. apply Forall_false_filter, Forall_map. rewrite <- (join_split_on 10 text) in H. revert H. generalize (split_on 10 text).
  intros ws. induction ws as [|w ws IH]; [constructor|]. intros H. assert (Forall (fun c => is_ws c = true) w) as Hw.
  { destruct ws; cbn in H; [done|]. by apply Forall_app in H as [? _]. }
  constructor; [|apply IH; destruct ws; [constructor|]; cbn in H; by apply Forall_app in H as [_ [_ ?]%Forall_cons]].
  apply trimStart_nil in Hw. unfold trim. by rewrite Hw.
Qed.

Lemma uniq_go_length {A} `{EqDecision A} (l seen : list A) : (length (uniq_go seen l) <= length l)%nat.
Proof. revert seen. induction l as [|x l IH]; intros seen; [done|]. cbn. case_bool_decide; cbn; [specialize (IH seen)|specialize (IH (x :: seen))]; lia. Qed.

Lemma deduplicate_text text : deduplicatedText (deduplicateKeys text) = join [10%N] (keys_of text).
Proof.
  unfold deduplicateKeys. destruct (truthy text) eqn:E; cbn [negb orb]; [|by destruct text].
  destruct (truthy (trim text)) eqn:E'; cbn [negb]; [|by rewrite blank_keys].
  cbn [deduplicatedText]. rewrite add_keys by done. done.
Qed.

(** Removing duplicate keys keeps the first of each key, trimmed, in order; it counts what it took away, the empty lines with
    them; and doing it again changes nothing and takes nothing away. *)
Theorem keys_deduplicated text :
  let d := deduplicateKeys text in
  deduplicatedText d = join [10%N] (keys_of text) /\ afterCount d = length (keys_of text) /\
  (afterCount d + removedCount d = beforeCount d)%nat /\
  deduplicatedText (deduplicateKeys (deduplicatedText d)) = deduplicatedText d /\ removedCount (deduplicateKeys (deduplicatedText d)) = 0%nat.
Proof.
  cbv zeta. pose proof (keys_clean text) as Hc. pose proof (uniq_NoDup (List.filter truthy (map trim (split_on 10 text)))) as Hnd.
  fold (keys_of text) in Hnd.
  assert (forall t, afterCount (deduplicateKeys t) = length (keys_of t) /\ (afterCount (deduplicateKeys t) + removedCount (deduplicateKeys t) = beforeCount (deduplicateKeys t))%nat
    /\ (beforeCount (deduplicateKeys t) = 0%nat \/ beforeCount (deduplicateKeys t) = length (split_on 10 t))) as Hcount.
  { intros t. unfold deduplicateKeys. destruct (truthy t) eqn:E; cbn [negb orb]; [|destruct t; by auto].
    destruct (truthy (trim t)) eqn:E'; cbn [negb]; [|rewrite blank_keys by done; by auto].
    cbn [afterCount removedCount beforeCount]. rewrite add_keys by done. cbn [app]. fold (uniq (List.filter truthy (map trim (split_on 10 t)))).
    fold (keys_of t). split; [done|]. split; [|by right].
    assert (length (keys_of t) <= length (split_on 10 t))%nat; [|lia]. unfold keys_of. etransitivity; [apply uniq_go_length|].
    etransitivity; [apply List.filter_length_le|]. by rewrite length_map. }
  rewrite deduplicate_text. destruct (Hcount text) as (H1 & H2 & _). split; [done|]. split; [done|]. split; [done|].
  rewrite deduplicate_text, keys_joined by done. split; [done|].
  destruct (Hcount (join [10%N] (keys_of text))) as (H3 & H4 & H5). rewrite keys_joined in H3 by done.
  destruct (keys_of text) as [|k l] eqn:E; [vm_compute; reflexivity|].
  assert (length (split_on 10 (join [10%N] (k :: l))) = length (k :: l)) as Hl.
  { rewrite split_on_join; [done|done|]. eapply Forall_impl; [exact Hc|]. by intros y []. }
  destruct H5 as [H5|H5]; lia.
Qed.

(** ** Groups in order *)

Section GroupFacts.
Context (localeCompare : jstring -> jstring -> Z) `{!Comparator localeCompare}.

(** The order in which the default group equals itself: the comparator calls it smaller than itself. *)
Definition group_order' (a b : jstring) : Z :=
  if jeqb a (js "default") then (if jeqb b (js "default") then 0 else -1) else group_order localeCompare a b.

#[local] Instance group_comparator : Comparator group_order'.
Proof.
  constructor; unfold group_order', group_order.
  - intros x y. destruct (jeqb x _), (jeqb y _); try lia. apply cmp_total.
  - intros x y z. destruct (jeqb x _), (jeqb y _), (jeqb z _); try lia. apply cmp_trans.
Qed.

Lemma same_sort l : js_sort (group_order localeCompare) l = js_sort group_order' l.
Proof.
  induction l as [|x l IH]; [done|]. unfold js_sort in *. cbn [foldr]. rewrite IH. generalize (foldr (sort_insert group_order') [] l).
  intros k. induction k as [|y k IHk]; [done|]. cbn. rewrite IHk. unfold group_order', group_order.
  destruct (jeqb x _), (jeqb y _); done.
Qed.

(** The groups are those of the text, the default group before all others and the others in their order. *)
Lemma groups_sorted text : let names := List.filter truthy (map trim (split_on ch_comma text)) in
  parseGroupsList localeCompare text ≡ₚ names /\ StronglySorted (cmp_le group_order') (parseGroupsList localeCompare text) /\
  (js "default" ∈ names -> head (parseGroupsList localeCompare text) = Some (js "default")).
Proof.
  intros names. assert (parseGroupsList localeCompare text = js_sort group_order' names) as E.
  { unfold parseGroupsList. destruct text; [done|]. cbn [truthy negb]. apply same_sort. }
  rewrite E. split; [apply js_sort_perm|]. pose proof (js_sort_sorted group_order' names) as Hs. split; [done|].
  intros Hin. rewrite <- (js_sort_elem_of group_order') in Hin. destruct (js_sort group_order' names) as [|x l]; [by apply elem_of_nil in Hin|].
  cbn. apply elem_of_cons in Hin as [->|Hin]; [done|]. apply StronglySorted_inv in Hs as [_ Hx]. rewrite Forall_forall in Hx.
  specialize (Hx _ Hin). unfold cmp_le, group_order', group_order in Hx. destruct (jeqb x (js "default")) eqn:Ex; [by apply jeqb_eq in Ex as ->|].
  by rewrite jeqb_refl in Hx.
Qed.
End GroupFacts.

(** ** Models of an Ollama server *)

(** A member that is there and true is not replaced. *)
Lemma set_if_other test key v fs k : js key <> k -> assoc k (set_if test key v fs) = assoc k fs.
Proof. intros H. unfold set_if. destruct test; [by apply assoc_put_other|done]. Qed.

Lemma has_set fs key v : has (put (js key) v fs) key = jtruthy v.
Proof. unfold has. cbn [jget]. by rewrite assoc_put_same. Qed.

(** The members a description of a model is completed with, on condition that none is there; [None] is nothing to write. *)
Definition completed (key : string) (v : option jsval) (fs : members) : members :=
  match v with Some v => set_if (negb (has fs key)) key v fs | None => fs end.

Lemma completed_get key v fs k : assoc k (completed key v fs) =
  if decide (js key = k) then (match v with Some v => if has fs key then assoc k fs else Some v | None => assoc k fs end) else assoc k fs.
Proof.
  unfold completed, set_if. destruct v as [v|]; [|by case_decide]. destruct (has fs key); cbn [negb]; [by case_decide|]. apply assoc_put.
Qed.

(** Completing again with the same value changes nothing. *)
Lemma completed_again key v fs gs : assoc (js key) gs = assoc (js key) (completed key v fs) -> completed key v gs = gs.
Proof.
  intros H. destruct v as [v|]; [|done]. unfold completed, set_if. destruct (has gs key) eqn:E; [done|]. cbn [negb]. apply put_id.
  rewrite H, completed_get, decide_True by done. destruct (has fs key) eqn:E'; [|done].
  exfalso. rewrite completed_get, decide_True, E' in H by done. unfold has in E, E'. cbn [jget] in E, E'. rewrite H in E. congruence.
Qed.

Definition text_member (v : jstring) : option jsval := if truthy v then Some (JStr v) else None.

(** What the metadata write. *)
Definition metadata_size (m : jsval) : option jsval := JNum <$> getNumber (jget m (js "size")).
Definition metadata_details (m : jsval) : option jsval := if jtruthy (jget m (js "details")) then Some (jget m (js "details")) else None.

Lemma text_step key v fs : set_if (negb (has fs key) && truthy v) key (JStr v) fs = completed key (text_member v) fs.
Proof. unfold text_member, completed. destruct (truthy v); by rewrite ?andb_true_r, ?andb_false_r. Qed.

Lemma size_step m fs : match getNumber (jget m (js "size")) with Some n => set_if (negb (has fs "size")) "size" (JNum n) fs | None => fs end =
  completed "size" (metadata_size m) fs.
Proof. unfold metadata_size, completed. by destruct (getNumber _). Qed.

Lemma details_step m fs : set_if (jtruthy (jget m (js "details")) && negb (has fs "details")) "details" (jget m (js "details")) fs =
  completed "details" (metadata_details m) fs.
Proof. unfold metadata_details, completed. by destruct (jtruthy _). Qed.

Lemma from_metadata_steps m fs : isRecord m = true -> from_metadata m fs =
  completed "details" (metadata_details m) (completed "modified_at" (text_member (getString (jget m (js "modified_at"))))
    (completed "digest" (text_member (getString (jget m (js "digest")))) (completed "size" (metadata_size m) fs))).
Proof. intros Hm. unfold from_metadata. rewrite Hm. cbn [negb]. cbv zeta. by rewrite size_step, !text_step, details_step. Qed.

#[local] Ltac other_key := by vm_compute.

(** The members a normalized model is known by, which completing keeps. *)
Lemma from_metadata_keeps m fs k : k ∈ map js ["id"; "owned_by"; "metadata"; "Metadata"]%string -> assoc k (from_metadata m fs) = assoc k fs.
Proof.
  intros Hk. destruct (isRecord m) eqn:Hm; [|unfold from_metadata; by rewrite Hm].
  rewrite from_metadata_steps by done. rewrite !completed_get.
  cbn [map] in Hk. rewrite !elem_of_cons, elem_of_nil in Hk.
  destruct Hk as [->|[->|[->|[->|[]]]]]; rewrite !decide_False by other_key; done.
Qed.

Lemma completed_other key v fs k : js key <> k -> assoc k (completed key v fs) = assoc k fs.
Proof. intros H. by rewrite completed_get, decide_False. Qed.

(** Completing a description that already holds what completing gave. *)
Lemma completing_again size digest modified details fs gs :
  let out := completed "details" details (completed "modified_at" modified (completed "digest" digest (completed "size" size fs))) in
  (forall k, assoc k gs = assoc k out) ->
  completed "details" details (completed "modified_at" modified (completed "digest" digest (completed "size" size gs))) = gs.
Proof.
  intros out H. unfold out in H. clear out.
  rewrite (completed_again "size" size fs gs) by (rewrite H; rewrite !completed_other by other_key; done).
  rewrite (completed_again "digest" digest (completed "size" size fs) gs) by (rewrite H; rewrite 2 completed_other by other_key; done).
  rewrite (completed_again "modified_at" modified (completed "digest" digest (completed "size" size fs)) gs)
    by (rewrite H; rewrite 1 completed_other by other_key; done).
  apply (completed_again "details" details (completed "modified_at" modified (completed "digest" digest (completed "size" size fs)))).
  apply H.
Qed.

Lemma from_metadata_again m fs gs : (forall k, assoc k gs = assoc k (from_metadata m fs)) -> from_metadata m gs = gs.
Proof.
  intros H. destruct (isRecord m) eqn:Hm; [|unfold from_metadata; by rewrite Hm].
  rewrite from_metadata_steps by done. apply (completing_again _ _ _ _ fs). intros k. rewrite H. by rewrite from_metadata_steps.
Qed.

Lemma candidate_first item : truthy (getString (jget item (js "id"))) = true -> candidate_id item = getString (jget item (js "id")).
Proof. intros H. unfold candidate_id. cbn [fold_right]. unfold jor at 1. by rewrite H. Qed.

(** A model that is named, as it is kept. *)
Lemma normalized_item item v : normalize_item item = Some v ->
  exists fs, v = JObj fs /\ (exists id, assoc (js "id") fs = Some (JStr id) /\ (truthy id = true \/ item = JStr id)) /\
    (exists owner, assoc (js "owned_by") fs = Some (JStr owner) /\ truthy owner = true).
Proof.
  unfold normalize_item. destruct (negb (jtruthy item)) eqn:Et; [done|]. destruct item as [| | | |s| |own]; try done.
  - intros [= <-]. eexists. split; [reflexivity|]. split; eexists; (split; [reflexivity|]); auto.
  - destruct (negb (truthy (candidate_id (JObj own)))) eqn:Ec; [done|]. intros [= <-]. eexists. split; [reflexivity|].
    apply negb_false_iff in Ec. set (fs := put _ _ (put _ _ own)).
    assert (forall k, k ∈ map js ["id"; "owned_by"]%string -> assoc k (match getNumber (jget (JObj own) (js "size")) with
      | Some n => set_if (negb (has fs "size")) "size" (JNum n) fs | None => fs end) = assoc k fs) as Hsize.
    { intros k Hk. destruct (getNumber _); [|done]. apply set_if_other. cbn [map] in Hk. rewrite !elem_of_cons, elem_of_nil in Hk.
      destruct Hk as [->|[->|[]]]; other_key. }
    split; eexists; rewrite from_metadata_keeps by (apply list_elem_of_In; cbn; tauto); rewrite Hsize by (apply list_elem_of_In; cbn; tauto).
    + unfold fs. rewrite assoc_put_other by other_key. rewrite assoc_put_same. split; [reflexivity|by left].
    + unfold fs. rewrite assoc_put_same. split; [reflexivity|]. unfold jor. repeat case_match; done.
Qed.

Lemma own_size_kept own fs : assoc (js "size") fs = assoc (js "size") own ->
  match getNumber (jget (JObj own) (js "size")) with Some n => set_if (negb (has fs "size")) "size" (JNum n) fs | None => fs end = fs.
Proof.
  intros H. destruct (getNumber (jget (JObj own) (js "size"))) as [n|] eqn:En; [|done]. unfold set_if. destruct (negb _); [|done].
  apply put_id. rewrite H. cbn [jget] in En. destruct (assoc (js "size") own) as [[]|]; cbn in En; try done. by injection En as ->.
Qed.

Lemma normalize_again item v : normalize_item item = Some v -> normalize_item v = Some v.
Proof.
  intros H. destruct (normalized_item _ _ H) as (fs & -> & (id & Hid & Hidt) & (owner & Ho & Hot)).
  unfold normalize_item in *. destruct (negb (jtruthy item)) eqn:Et; [done|]. destruct item as [| | | |s| |own]; try done.
  { injection H as <-. destruct s as [|c s]; [done|]. vm_compute. reflexivity. }
  assert (truthy id = true) as Hit by (destruct Hidt; [done|congruence]). clear Hidt.
  destruct (negb (truthy (candidate_id (JObj own)))); [done|].
  assert (jget (JObj fs) (js "id") = JStr id) as Ej by (cbn [jget]; by rewrite Hid).
  rewrite (candidate_first (JObj fs)) by (by rewrite Ej). cbn [jtruthy negb]. rewrite Ej. cbn [getString].
  rewrite Hit. cbn [negb]. f_equal. f_equal.
  assert (put (js "owned_by") (JStr (jor (getString (jget (JObj fs) (js "owned_by"))) (jor (getString (jget (JObj fs) (js "ownedBy"))) (js "ollama"))))
    (put (js "id") (JStr id) fs) = fs) as ->.
  { rewrite (put_id (js "id")) by done. apply put_id. cbn [jget]. rewrite Ho. cbn [coalesce from_option Datatypes.id getString]. unfold jor at 1. by rewrite Hot. }
  rewrite own_size_kept by done.
  match type of H with Some (JObj ?x) = _ => assert (x = fs) as Hx by congruence end. clear H. rename Hx into H. set (fs1 := put (js "owned_by") _ _) in H. rewrite (own_size_kept own fs1) in H.
  2: { unfold fs1. rewrite !assoc_put_other by other_key. done. }
  set (m := vcoalesce _ _) in H. assert (vcoalesce (jget (JObj fs) (js "metadata")) (jget (JObj fs) (js "Metadata")) = m) as ->.
  { unfold m. cbn [jget]. rewrite <- H, !from_metadata_keeps by (apply list_elem_of_In; cbn; tauto). unfold fs1. by rewrite !assoc_put_other by other_key. }
  apply (from_metadata_again m fs1). intros k. by rewrite H.
Qed.

(** The models of an Ollama server, normalized, are what normalizing keeps: every one of them has an identifier and an owner, none is
    without a name, and normalizing the list again gives it back. *)
Theorem ollama_models_settled items :
  Forall (fun v => exists fs id owner, v = JObj fs /\ assoc (js "id") fs = Some (JStr id) /\ truthy id = true /\
    assoc (js "owned_by") fs = Some (JStr owner) /\ truthy owner = true) (normalizeOllamaModels items) /\
  normalizeOllamaModels (JArr (normalizeOllamaModels items)) = normalizeOllamaModels items.
Proof.
  destruct items as [| | | | |l|]; try (split; [constructor|done]). cbn [normalizeOllamaModels].
  assert (Forall (fun v => exists item, normalize_item item = Some v) (omap normalize_item l)) as Hl.
  { apply Forall_forall. intros v (item & _ & H)%list_elem_of_omap. eauto. }
  split.
  - eapply Forall_impl; [exact Hl|]. intros v (item & H). pose proof (normalized_item _ _ H) as (fs & -> & (id & Hid & Ht) & owner & Ho & Hot).
    exists fs, id, owner. repeat split; try done. destruct Ht as [Ht| ->]; [done|]. by destruct id.
  - induction Hl as [|v k (item & H) _ IH]; [done|]. cbn. rewrite (normalize_again _ _ H). by f_equal.
Qed.

Example ollama_sample : normalizeOllamaModels (JArr [JStr (js "llama3"); JNull; JObj [(js "name", JStr (js "qwen")); (js "metadata", JObj [(js "size", JNum (num_of_Z 7))])]]) =
  [JObj [(js "id", JStr (js "llama3")); (js "owned_by", JStr (js "ollama"))];
   JObj [(js "name", JStr (js "qwen")); (js "metadata", JObj [(js "size", JNum (num_of_Z 7))]); (js "id", JStr (js "qwen"));
         (js "owned_by", JStr (js "ollama")); (js "size", JNum (num_of_Z 7))]].
Proof. vm_compute. reflexivity. Qed.

(** ** A field that is saved a moment later *)

(** At most one timer runs, and one runs exactly while a value waits. *)
Record scheduled (s : Scheduler) : Prop := {
  sd_running : running s = match timeoutId s with Some t => [t] | None => [] end;
  sd_waiting : timeoutId s = None <-> pendingValue s = None;
  sd_old : match timeoutId s with Some t => (t < next_timer s)%nat | None => True end
}.

Lemma commit_effect s : scheduled s -> commitPendingValue s =
  {| timeoutId := None; pendingValue := None; running := []; next_timer := next_timer s;
     updates := updates s ++ match pendingValue s with Some v => [v] | None => [] end |}.
Proof.
  intros [Hr Hw _]. unfold commitPendingValue, clearPendingTimer. destruct s as [[t|] [v|] r n u]; cbn in *; subst r; try (exfalso; naive_solver).
  - cbn. by rewrite Nat.eqb_refl.
  - by rewrite app_nil_r.
Qed.

Lemma expire_effect s t : scheduled s -> field_step s (Expire t) = if bool_decide (timeoutId s = Some t) then commitPendingValue s else s.
Proof.
  intros [Hr Hw _]. cbn [field_step]. destruct s as [[u|] [v|] r n ups]; cbn in *; subst r; try (exfalso; naive_solver).
  - destruct (decide (u = t)) as [->|Hu].
    + rewrite !bool_decide_true by set_solver. unfold commitPendingValue, clearPendingTimer. cbn. by rewrite Nat.eqb_refl.
    + rewrite !bool_decide_false by set_solver. done.
  - rewrite !bool_decide_false by set_solver. done.
Qed.

Lemma commit_scheduled s : scheduled s -> scheduled (commitPendingValue s).
Proof. intros H. rewrite commit_effect by done. by constructor. Qed.

Lemma change_effect v s : scheduled s -> schedule v s =
  {| timeoutId := Some (next_timer s); pendingValue := Some v; running := [next_timer s]; next_timer := S (next_timer s); updates := updates s |}.
Proof.
  intros [Hr Hw _]. unfold schedule, clearPendingTimer. destruct s as [[t|] p r n u]; cbn in *; subst r; cbn; [by rewrite Nat.eqb_refl|done].
Qed.

Lemma step_scheduled s e : scheduled s -> scheduled (field_step s e).
Proof.
  intros H. destruct e as [v| |t].
  - cbn [field_step]. rewrite change_effect by done. constructor; cbn; [done|done|lia].
  - by apply commit_scheduled.
  - rewrite expire_effect by done. case_bool_decide; [by apply commit_scheduled|done].
Qed.

Lemma run_scheduled events n : scheduled (field_run events (createChannelFieldUpdateScheduler n)).
Proof.
  unfold field_run. assert (scheduled (createChannelFieldUpdateScheduler n)) as H by by constructor. revert H.
  generalize (createChannelFieldUpdateScheduler n). induction events as [|e events IH]; intros s H; [done|]. by apply IH, step_scheduled.
Qed.

(** An event that changes nothing in the field. *)
Definition no_change (e : field_event) : Prop := match e with Change _ => False | _ => True end.

(** Nothing happens to a scheduler with nothing waiting, unless the field is changed. *)
Lemma nothing_waits events s : scheduled s -> pendingValue s = None -> Forall no_change events -> updates (field_run events s) = updates s.
Proof.
  intros Hs Hp He. revert s Hs Hp. induction He as [|e events He _ IH]; intros s Hs Hp; [done|]. cbn. rewrite IH.
  - destruct e as [| |t]; [done| |].
    + cbn. unfold flush. rewrite commit_effect by done. cbn. by rewrite Hp, app_nil_r.
    + rewrite expire_effect by done. case_bool_decide; [|done]. rewrite commit_effect by done. cbn. by rewrite Hp, app_nil_r.
  - by apply step_scheduled.
  - destruct e as [| |t]; [done| |].
    + cbn. unfold flush. by rewrite commit_effect.
    + rewrite expire_effect by done. case_bool_decide; [by rewrite commit_effect|done].
Qed.

Lemma waits_until events s t v : scheduled s -> timeoutId s = Some t -> pendingValue s = Some v -> Forall no_change events ->
  updates (field_run events s) = updates s ++ if bool_decide (Leave ∈ events \/ Expire t ∈ events) then [v] else [].
Proof.
  intros Hs Ht Hp He. induction He as [|e events He Hes IH] in s, Hs, Ht, Hp |- *; [by rewrite bool_decide_false, app_nil_r by set_solver|].
  assert (updates (field_run events (commitPendingValue s)) = updates s ++ [v]) as Hc.
  { rewrite nothing_waits by (rewrite ?commit_effect by done; auto using commit_scheduled; by constructor).
    rewrite commit_effect by done. cbn. by rewrite Hp. }
  destruct e as [| |u]; [done| |].
  - change (field_run (Leave :: events) s) with (field_run events (commitPendingValue s)). rewrite Hc, bool_decide_true; [done|]. left. by left.
  - change (field_run (Expire u :: events) s) with (field_run events (field_step s (Expire u))). rewrite expire_effect by done.
    destruct (decide (timeoutId s = Some u)) as [Hu|Hu];
      [rewrite (bool_decide_true (timeoutId s = Some u)) by done|rewrite (bool_decide_false (timeoutId s = Some u)) by done].
    + rewrite Hc, bool_decide_true; [done|]. right. assert (u = t) as -> by congruence. by left.
    + rewrite (IH s) by done. f_equal. assert (u <> t) by congruence. apply (f_equal (fun b : bool => if b then [v] else [])).
      apply bool_decide_ext. rewrite !elem_of_cons. naive_solver.
Qed.

(** C33. A change of the field is saved once: whatever happened before, until the field is left or the time of its own timer is over, nothing
    is saved; from then on it has been saved, once, however often the field is left and whatever old timers do.  A change that is followed by
    another before that is not saved at all.  One timer runs at most, and only while a change waits. *)
Theorem change_saved_once n before value later : Forall no_change later ->
  let s := field_run before (createChannelFieldUpdateScheduler n) in
  updates (field_run (Change value :: later) s) =
    updates s ++ (if bool_decide (Leave ∈ later \/ Expire (next_timer s) ∈ later) then [value] else []) /\
  (forall again, updates (field_run (Change value :: Change again :: later) s) =
    updates s ++ (if bool_decide (Leave ∈ later \/ Expire (S (next_timer s)) ∈ later) then [again] else [])) /\
  (length (running (field_run (Change value :: later) s)) <= 1)%nat /\
  (running (field_run (Change value :: later) s) <> [] <-> pendingValue (field_run (Change value :: later) s) <> None).
Proof.
  intros Hl s. pose proof (run_scheduled before n) as Hs. fold s in Hs.
  assert (scheduled (schedule value s)) as H1 by by apply (step_scheduled s (Change value)).
  split; [|split].
  - change (field_run (Change value :: later) s) with (field_run later (schedule value s)).
    rewrite (waits_until _ _ (next_timer s) value) by (auto; by rewrite change_effect by done). by rewrite change_effect by done.
  - intros again. change (field_run (Change value :: Change again :: later) s) with (field_run later (schedule again (schedule value s))).
    rewrite (waits_until _ _ (S (next_timer s)) again); [by rewrite change_effect, change_effect by done|by apply (step_scheduled _ (Change again))|..|done];
      by rewrite change_effect, change_effect by done.
  - assert (scheduled (field_run (Change value :: later) s)) as H.
    { revert H1. change (field_run (Change value :: later) s) with (field_run later (schedule value s)). generalize (schedule value s). clear.
      induction later as [|e l IH]; intros s H; [done|]. by apply IH, step_scheduled. }
    destruct H as [Hr Hw _]. rewrite Hr. destruct (timeoutId _); cbn; [|naive_solver]. split; [lia|]. split; [|done]. intros _ E. by apply Hw in E.
Qed.

Lemma change_saved_once_witness : updates (field_run [Change 3; Expire 0; Leave; Leave] (createChannelFieldUpdateScheduler 0)) = [3].
Proof.
  refine (eq_trans (proj1 (change_saved_once 0 [] 3 [Expire 0; Leave; Leave] _)) _); [by repeat constructor|vm_compute; reflexivity].
Defined.
