(* ===== verification/RatioSync.v ===== *)
(** * Prices taken over from upstream

    features/system-settings/models/upstream-ratio-sync-helpers.ts, and what the page (upstream-ratio-sync.tsx) and its table
    (upstream-ratio-sync-table.tsx) do with them: the differences between the local prices and those of upstream channels, the
    values the user selects from them, the categories that exclude each other, the warning before a category changes, and the
    options that are saved. *)

From S2P Require Import Prelude JsValue JsText JsonText JsonPretty JsObject.
#[global] Open Scope Z_scope.

(** ** Data *)

(** The name of a price field; the server may send more than the code knows. *)
#[local] Abbreviation RatioType := jstring.

Record RatioDifference := { current : jsval; upstreams : members }.
Definition ModelDiffs := list (RatioType * RatioDifference).
Definition DifferencesMap := list (jstring * ModelDiffs).

(** What is selected for a model, field by field, and for all models.  An object of values is the list of its members. *)
Definition ResolutionsMap := list (jstring * members).

Record ResolutionSelection := { s_model : jstring; s_type : RatioType; s_value : jsval; s_source : jstring }.
Record ResolutionRemoval := { r_model : jstring; r_type : RatioType }.
Definition ResolutionRemovalPlan := list (jstring * list RatioType).

Definition model_price : RatioType := js "model_price".
Definition billing_mode : RatioType := js "billing_mode".
Definition billing_expr : RatioType := js "billing_expr".

Definition RATIO_SYNC_FIELDS : list RatioType :=
  map js ["model_ratio"; "completion_ratio"; "cache_ratio"; "create_cache_ratio"; "image_ratio"; "audio_ratio";
          "audio_completion_ratio"]%string.
Definition SYNC_FIELD_ORDER : list RatioType := RATIO_SYNC_FIELDS ++ [model_price; billing_mode; billing_expr].
Definition NUMERIC_SYNC_FIELDS : list RatioType := RATIO_SYNC_FIELDS ++ [model_price].

(** [s.add(x)] *)
Definition sadd (s : list jstring) (x : jstring) : list jstring := if bool_decide (x ∈ s) then s else s ++ [x].

(** ** Fields of a model *)

(** [ratioTypes[type]?.upstreams?.[source]] *)
Definition upstream_value (d : ModelDiffs) (t : RatioType) (source : jstring) : jsval :=
  match mget d t with Some e => coalesce (mget (upstreams e) source) JUndefined | None => JUndefined end.

Definition isSelectableUpstreamValue (v : jsval) : bool :=
  match v with JUndefined | JNull => false | JStr s => negb (jeqb s (js "same")) | _ => true end.

(** The filter, where one is chosen. *)
Definition filter_types (filter : jstring) (l : list RatioType) : list RatioType :=
  if negb (truthy filter) || jeqb filter (js "__all__") then l else List.filter (jeqb filter) l.

Definition getOrderedRatioTypes (ratioTypes : ModelDiffs) (filter : jstring) : list RatioType :=
  let keys := map fst ratioTypes in
  filter_types filter (List.filter (fun f => bool_decide (f ∈ keys)) SYNC_FIELD_ORDER ++
                       List.filter (fun f => negb (bool_decide (f ∈ SYNC_FIELD_ORDER))) keys).

Definition getPreferredSyncField (ratioTypes : ModelDiffs) (t : RatioType) (sourceName : jstring) : RatioType :=
  if negb (jeqb t billing_expr) && isSelectableUpstreamValue (upstream_value ratioTypes billing_expr sourceName)
  then billing_expr else t.

Definition getVisibleRatioTypesForSource (ratioTypes : ModelDiffs) (sourceName filter : jstring) : list RatioType :=
  List.filter (fun t => jeqb (getPreferredSyncField ratioTypes t sourceName) t) (getOrderedRatioTypes ratioTypes filter).

Definition getAlignedRatioTypes (ratioTypes : ModelDiffs) (sourceNames : list jstring) (filter : jstring) : list RatioType :=
  let ordered := getOrderedRatioTypes ratioTypes filter in
  match sourceNames with
  | [] => ordered
  | _ => let visible := flat_map (fun sourceName => getVisibleRatioTypesForSource ratioTypes sourceName filter) sourceNames in
         List.filter (fun t => bool_decide (t ∈ visible)) ordered
  end.

Inductive BillingCategory := Price | Ratio | Tiered.
#[export] Instance category_dec : EqDecision BillingCategory.
Proof. solve_decision. Defined.

Definition getBillingCategory (t : RatioType) : BillingCategory :=
  if jeqb t model_price then Price
  else if jeqb t billing_mode || jeqb t billing_expr then Tiered else Ratio.

(** ** Selecting *)

(** The field and the value that are set in place of those selected: the expression, where the source has one. *)
Definition resolved_type (modelDiffs : option ModelDiffs) (s : ResolutionSelection) : RatioType :=
  getPreferredSyncField (coalesce modelDiffs []) (s_type s) (s_source s).

Definition resolved_value (modelDiffs : option ModelDiffs) (s : ResolutionSelection) : jsval :=
  if jeqb (resolved_type modelDiffs s) (s_type s) then s_value s
  else vcoalesce (match modelDiffs with
                  | Some d => upstream_value d (resolved_type modelDiffs s) (s_source s) | None => JUndefined end) (s_value s).

Definition resolveResolutionSelection (differences : DifferencesMap) (s : ResolutionSelection) : ResolutionSelection :=
  let modelDiffs := mget differences (s_model s) in
  {| s_model := s_model s; s_type := resolved_type modelDiffs s; s_value := resolved_value modelDiffs s; s_source := s_source s |}.

(** Prices by amount and by ratio exclude each other. *)
Definition excludes (category : BillingCategory) (t : RatioType) : bool :=
  negb (bool_decide (category = Tiered)) && negb (bool_decide (getBillingCategory t = Tiered)) &&
  negb (bool_decide (getBillingCategory t = category)).

(** The mode and the expression go together. *)
Definition with_tiered (modelDiffs : option ModelDiffs) (t : RatioType) (source : jstring) (draft : members) : members :=
  match modelDiffs with
  | Some d =>
      let modeVal := upstream_value d billing_mode source in
      let exprVal := upstream_value d billing_expr source in
      let draft := if isSelectableUpstreamValue modeVal then mset draft billing_mode modeVal
                   else if jeqb t billing_expr then mset draft billing_mode (JStr (js "tiered_expr")) else draft in
      if isSelectableUpstreamValue exprVal then mset draft billing_expr exprVal else draft
  | None => draft
  end.

(** [applyResolutionSelectionToDraft], on the draft of the model. *)
Definition select_in_draft (modelDiffs : option ModelDiffs) (s : ResolutionSelection) (draft : members) : members :=
  let finalType := resolved_type modelDiffs s in
  let category := getBillingCategory finalType in
  let draft := List.filter (fun e => negb (excludes category e.1)) draft in
  let draft := mset draft finalType (resolved_value modelDiffs s) in
  if bool_decide (category = Tiered) then with_tiered modelDiffs finalType (s_source s) draft else draft.

(** [getDraftModelResolution]: the draft there is, or a copy of what is selected. *)
Definition draft_of (drafts resolutions : ResolutionsMap) (model : jstring) : members :=
  match mget drafts model with Some d => d | None => coalesce (mget resolutions model) [] end.

(** The drafts take the places of what was selected; an empty one removes it. *)
Definition take_drafts (drafts next : ResolutionsMap) : ResolutionsMap :=
  fold_left (fun next e => match e.2 with [] => mdel next e.1 | _ => mset next e.1 e.2 end) drafts next.

Definition drafts_of (resolutions : ResolutionsMap) (differences : DifferencesMap) (selections : list ResolutionSelection) : ResolutionsMap :=
  fold_left (fun drafts s => mset drafts (s_model s)
    (select_in_draft (mget differences (s_model s)) s (draft_of drafts resolutions (s_model s)))) selections [].

Definition applyResolutionSelections (resolutions : ResolutionsMap) (differences : DifferencesMap)
    (selections : list ResolutionSelection) : ResolutionsMap :=
  match selections with
  | [] => resolutions
  | _ => take_drafts (drafts_of resolutions differences selections) resolutions
  end.

Definition applyResolutionSelection (resolutions : ResolutionsMap) (differences : DifferencesMap) (s : ResolutionSelection) : ResolutionsMap :=
  applyResolutionSelections resolutions differences [s].

(** The two presets of the server carry their id in their name. *)
Definition OFFICIAL_CHANNEL_NAME : jstring := [23448; 26041; 20493; 29575; 39044; 35774]%N.
Definition MODELS_DEV_PRESET_NAME : jstring := js "models.dev " ++ [20215; 26684; 39044; 35774]%N.
Definition getUpstreamDisplayName (sourceName : jstring) : jstring :=
  match find (fun p : jstring * jstring => jeqb sourceName (p.1 ++ js "(" ++ p.2 ++ js ")"))
    [(OFFICIAL_CHANNEL_NAME, js "-100"); (MODELS_DEV_PRESET_NAME, js "-101")] with
  | Some p => p.1
  | None => sourceName
  end.

(** The selections of many that last, keyed by model and field. *)
Definition selection_key (s : ResolutionSelection) : jstring := s_model s ++ 0%N :: s_type s.

Definition add_effective (differences : DifferencesMap) (m : list (jstring * ResolutionSelection)) (s : ResolutionSelection)
    : list (jstring * ResolutionSelection) :=
  let resolved := resolveResolutionSelection differences s in
  let category := getBillingCategory (s_type resolved) in
  let m := List.filter (fun e => negb (jeqb (s_model e.2) (s_model resolved) && excludes category (s_type e.2))) m in
  mset m (selection_key resolved) resolved.

Definition getEffectiveResolutionSelections (differences : DifferencesMap) (selections : list ResolutionSelection) : list ResolutionSelection :=
  map snd (fold_left (add_effective differences) selections []).

(** [Number(v)] of a number or a text. *)
Definition as_number (v : jsval) : jsnum := match v with JNum n => n | JStr s => Number s | _ => NaN end.

(** [===] of numbers and texts. *)
Definition strictly_equal (a b : jsval) : bool :=
  match a, b with JNum m, JNum n => num_eqb m n | JStr s, JStr t => jeqb s t | _, _ => false end.

Definition selected_value (resolutions : ResolutionsMap) (model : jstring) (t : RatioType) : option jsval :=
  match mget resolutions model with Some d => mget d t | None => None end.

Definition isSelectedResolutionValue (resolutions : ResolutionsMap) (model : jstring) (t : RatioType) (upstreamValue : jsval) : bool :=
  if negb (isSelectableUpstreamValue upstreamValue) then false
  else match selected_value resolutions model t with
       | None => false
       | Some selectedValue =>
           if bool_decide (t ∈ NUMERIC_SYNC_FIELDS)
           then isFinite (as_number selectedValue) && isFinite (as_number upstreamValue) &&
                num_eqb (as_number selectedValue) (as_number upstreamValue)
           else strictly_equal selectedValue upstreamValue
       end.

(** ** Removing *)

(** The fields that go with one. *)
Definition removed_fields (t : RatioType) : list RatioType :=
  [t] ++ (if jeqb t billing_expr then [billing_mode] else []) ++ (if jeqb t billing_mode then [billing_expr] else []).

Definition remove_fields (ts : list RatioType) (draft : members) : members :=
  fold_left mdel (flat_map removed_fields ts) draft.

Definition remove_entry (resolutions next : ResolutionsMap) (e : jstring * list RatioType) : ResolutionsMap :=
  match mget resolutions e.1 with
  | None => next
  | Some current => match remove_fields e.2 current with [] => mdel next e.1 | draft => mset next e.1 draft end
  end.

Definition applyResolutionRemovalPlan (resolutions : ResolutionsMap) (plan : ResolutionRemovalPlan) : ResolutionsMap :=
  match plan with [] => resolutions | _ => fold_left (remove_entry resolutions) plan resolutions end.

(** [plan.get(model)] extended by a field. *)
Definition plan_add (plan : ResolutionRemovalPlan) (model : jstring) (t : RatioType) : ResolutionRemovalPlan :=
  mset plan model (match mget plan model with Some ts => sadd ts t | None => [t] end).

Definition applyResolutionRemovals (resolutions : ResolutionsMap) (removals : list ResolutionRemoval) : ResolutionsMap :=
  match removals with
  | [] => resolutions
  | _ => applyResolutionRemovalPlan resolutions (fold_left (fun plan r => plan_add plan (r_model r) (r_type r)) removals [])
  end.

Definition deleteResolutionField (resolutions : ResolutionsMap) (model : jstring) (t : RatioType) : ResolutionsMap :=
  applyResolutionRemovals resolutions [{| r_model := model; r_type := t |}].

(** ** The table *)

Record BulkState := { b_selections : list ResolutionSelection; b_removalPlan : ResolutionRemovalPlan; b_selectedCount : nat }.

Section Table.
(** [toLowerCase] *)
Context (lower : jstring -> jstring).

Definition filteredData (differences : DifferencesMap) (search ratioTypeFilter : jstring) : DifferencesMap :=
  let data := if truthy (trim search)
              then List.filter (fun row => includes (lower row.1) (lower search)) differences else differences in
  if truthy ratioTypeFilter && negb (jeqb ratioTypeFilter (js "__all__"))
  then List.filter (fun row => bool_decide (ratioTypeFilter ∈ map fst row.2)) data else data.

(** [billingConflict] of a row *)
Definition billingConflict (row : ModelDiffs) : bool :=
  bool_decide (model_price ∈ map fst row) && existsb (fun t => bool_decide (t ∈ map fst row)) RATIO_SYNC_FIELDS.

Definition upstreamNames (rows : DifferencesMap) (ratioTypeFilter : jstring) : list jstring :=
  fold_left sadd (flat_map (fun row => flat_map (fun t => match mget row.2 t with Some e => map fst (upstreams e) | None => [] end)
    (getOrderedRatioTypes row.2 ratioTypeFilter)) rows) [].

(** The values of a source that can be selected, row by row. *)
Definition row_selections (source ratioTypeFilter : jstring) (row : jstring * ModelDiffs) : list ResolutionSelection :=
  flat_map (fun t => let v := upstream_value row.2 t source in
    if isSelectableUpstreamValue v then [{| s_model := row.1; s_type := t; s_value := v; s_source := source |}] else [])
    (getAlignedRatioTypes row.2 [source] ratioTypeFilter).

Definition bulk_selections (rows : DifferencesMap) (source ratioTypeFilter : jstring) : list ResolutionSelection :=
  flat_map (row_selections source ratioTypeFilter) rows.

Definition bulkSelectState (differences rows : DifferencesMap) (resolutions : ResolutionsMap) (source ratioTypeFilter : jstring) : BulkState :=
  let selections := bulk_selections rows source ratioTypeFilter in
  let effectiveSelections := getEffectiveResolutionSelections differences selections in
  {| b_selections := effectiveSelections;
     b_removalPlan := fold_left (fun plan s => plan_add plan (s_model s) (s_type s)) selections [];
     b_selectedCount := length (List.filter (fun s => isSelectedResolutionValue resolutions (s_model s) (s_type s) (s_value s)) effectiveSelections) |}.
End Table.

(** ** The options that are saved *)

Definition ModelPrice : jstring := js "ModelPrice".
Definition ratio_options : list jstring :=
  map js ["ModelRatio"; "CompletionRatio"; "CacheRatio"; "CreateCacheRatio"; "ImageRatio"; "AudioRatio"; "AudioCompletionRatio"]%string.
Definition mode_option : jstring := js "billing_setting.billing_mode".
Definition expr_option : jstring := js "billing_setting.billing_expr".
Definition option_keys : list jstring := ratio_options ++ [ModelPrice; mode_option; expr_option].

(** [word.charAt(0).toUpperCase() + word.slice(1)] of an ASCII word *)
Definition capitalized (w : jstring) : jstring :=
  match w with c :: r => (if (97 <=? c)%N && (c <=? 122)%N then (c - 32)%N else c) :: r | [] => [] end.

Definition optionKeyBySyncField (t : RatioType) : jstring :=
  if jeqb t billing_mode then mode_option
  else if jeqb t billing_expr then expr_option
  else concat (map capitalized (split_on 95 t)).

(** The local prices: an object for each option. *)
Definition Options := list (jstring * members).

Definition parseJsonRecord (raw : jstring) : jsval := catch (JSON_parse (jor raw (js "{}"))) (JObj []).

(** [{ ...value }] of an object; the server keeps no other value there. *)
Definition spread (v : jsval) : members := match v with JObj fs => fs | _ => [] end.

Definition parsedRatios (texts : list (jstring * jstring)) : Options :=
  map (fun key => (key, spread (parseJsonRecord (coalesce (mget texts key) [])))) option_keys.

(** [options[key][model]] *)
Definition cell (options : Options) (key model : jstring) : option jsval :=
  match mget options key with Some fs => mget fs model | None => None end.

Definition del_cell (options : Options) (key model : jstring) : Options :=
  match mget options key with Some fs => mset options key (mdel fs model) | None => options end.

(** A key that is no option has no object to set the model on. *)
Definition set_cell (options : Options) (key model : jstring) (v : jsval) : exc Options :=
  match mget options key with Some fs => Ret (mset options key (mset fs model v)) | None => Throw end.

Definition has_ratio (ratios : members) : bool := existsb (fun t => bool_decide (t ∈ RATIO_SYNC_FIELDS)) (map fst ratios).
Definition has_price (ratios : members) : bool := bool_decide (model_price ∈ map fst ratios).

Definition synced_value (t : RatioType) (v : jsval) : jsval :=
  if bool_decide (t ∈ NUMERIC_SYNC_FIELDS) then JNum (as_number v) else v.

Fixpoint set_fields (model : jstring) (ratios : members) (options : Options) : exc Options :=
  match ratios with
  | [] => Ret options
  | (t, v) :: rest => ebind (set_cell options (optionKeyBySyncField t) model (synced_value t v)) (set_fields model rest)
  end.

(** What is selected for a model, taken into the options. *)
Definition sync_model (model : jstring) (ratios : members) (options : Options) : exc Options :=
  let options := if has_price ratios then fold_left (fun o key => del_cell o key model) ratio_options options else options in
  let options := if has_ratio ratios then del_cell options ModelPrice model else options in
  set_fields model ratios options.

Fixpoint sync_models (resolutions : ResolutionsMap) (options : Options) : exc Options :=
  match resolutions with
  | [] => Ret options
  | (model, ratios) :: rest => ebind (sync_model model ratios options) (sync_models rest)
  end.

(** [performSync]: the options that are sent, one after the other. *)
Definition performSync (resolutions : ResolutionsMap) (currentRatios : Options) : exc (list (jstring * jstring)) :=
  ebind (sync_models resolutions currentRatios) (fun finalRatios =>
    Ret (map (fun e => (e.1, JSON_stringify_2 (JObj e.2))) finalRatios)).

(** ** The warning *)

Definition getLocalBillingCategory (model : jstring) (currentRatios : Options) : option BillingCategory :=
  match cell currentRatios ModelPrice model with
  | Some _ => Some Price
  | None => if existsb (fun key => match cell currentRatios key model with Some _ => true | None => false end) ratio_options
            then Some Ratio else None
  end.

Definition new_category (ratios : members) : BillingCategory :=
  if has_price ratios then Price else if has_ratio ratios then Ratio else Tiered.

Record ConflictItem := { c_channel : jstring; c_model : jstring; c_current : jstring; c_newVal : jstring }.

Definition findSourceChannel (differences : DifferencesMap) (model : jstring) (t : RatioType) (value : jsval) : jstring :=
  match mget differences model with
  | Some d => match mget d t with
      | Some e => match find (fun u => strictly_equal u.2 value) (upstreams e) with Some u => u.1 | None => js "Unknown" end
      | None => js "Unknown"
      end
  | None => js "Unknown"
  end.

(** A value in a text: a number, a text, or a dash where there is none. *)
Definition shown (v : option jsval) : jstring :=
  match v with Some (JNum n) => string_of_num n | Some (JStr s) => s | Some (JBool b) => if b then js "true" else js "false" | _ => js "-" end.

(** [`${value}`] of a price *)
Definition shown_price (v : option jsval) : jstring :=
  match v with Some JNull => js "null" | None | Some JUndefined => js "undefined" | _ => shown v end.

Section Conflicts.
(** [t] *)
Context (t : jstring -> jstring).

Definition price_desc (v : option jsval) : jstring := t (js "Fixed price") ++ js ": " ++ shown_price v.
Definition ratio_desc (r c : option jsval) : jstring :=
  t (js "Model ratio") ++ js ": " ++ shown r ++ 10%N :: t (js "Completion ratio") ++ js ": " ++ shown c.

Definition conflict_of (differences : DifferencesMap) (currentRatios : Options) (e : jstring * members) : list ConflictItem :=
  let (model, ratios) := e in
  match getLocalBillingCategory model currentRatios with
  | Some localCat =>
      let newCat := new_category ratios in
      if negb (bool_decide (newCat = Tiered)) && negb (bool_decide (localCat = newCat)) then
        [{| c_channel := join (js ", ") (uniq (map (fun r => findSourceChannel differences model r.1 r.2) ratios));
            c_model := model;
            c_current := if bool_decide (localCat = Price) then price_desc (cell currentRatios ModelPrice model)
                         else ratio_desc (cell currentRatios (js "ModelRatio") model) (cell currentRatios (js "CompletionRatio") model);
            c_newVal := if bool_decide (newCat = Price) then price_desc (mget ratios model_price)
                        else ratio_desc (mget ratios (js "model_ratio")) (mget ratios (js "completion_ratio")) |}]
      else []
  | None => []
  end.

Inductive apply_outcome := AsksFirst (conflicts : list ConflictItem) | SyncsNow (updates : exc (list (jstring * jstring))).

Definition handleApplySync (differences : DifferencesMap) (resolutions : ResolutionsMap) (currentRatios : Options) : apply_outcome :=
  match flat_map (conflict_of differences currentRatios) resolutions with
  | [] => SyncsNow (performSync resolutions currentRatios)
  | conflicts => AsksFirst conflicts
  end.
End Conflicts.

(** ** The page *)

Record sync_page := { differences : DifferencesMap; resolutions : ResolutionsMap }.

(** After a sync the synced fields go from the differences, and a model without any. *)
Definition drop_synced (e : jstring * members) (diffs : DifferencesMap) : DifferencesMap :=
  fold_left (fun diffs r =>
    match mget diffs e.1 with
    | Some d => match mget d r.1 with
        | Some _ => match mdel d r.1 with [] => mdel diffs e.1 | d' => mset diffs e.1 d' end
        | None => diffs
        end
    | None => diffs
    end) e.2 diffs.

Inductive sync_event :=
| Fetched (diffs : DifferencesMap)
| SelectValue (s : ResolutionSelection)
| SelectValues (ss : list ResolutionSelection)
| UnselectValue (model : jstring) (t : RatioType)
| UnselectValues (plan : ResolutionRemovalPlan)
| Synced.

Definition sync_step (p : sync_page) (e : sync_event) : sync_page :=
  match e with
  | Fetched diffs => {| differences := diffs; resolutions := [] |}
  | SelectValue s => {| differences := differences p; resolutions := applyResolutionSelection (resolutions p) (differences p) s |}
  | SelectValues ss => {| differences := differences p; resolutions := applyResolutionSelections (resolutions p) (differences p) ss |}
  | UnselectValue model t => {| differences := differences p; resolutions := deleteResolutionField (resolutions p) model t |}
  | UnselectValues plan => {| differences := differences p; resolutions := applyResolutionRemovalPlan (resolutions p) plan |}
  | Synced => {| differences := fold_left (fun diffs e => drop_synced e diffs) (resolutions p) (differences p); resolutions := [] |}
  end.

Definition sync_run (es : list sync_event) : sync_page := fold_left sync_step es {| differences := []; resolutions := [] |}.

(** ** Objects *)

Lemma mget_filter {V} (p : jstring -> bool) (m : list (jstring * V)) k :
  mget (List.filter (fun e => p e.1) m) k = if p k then mget m k else None.
Proof.
  induction m as [|[k0 v0] m IH]; cbn; [by destruct (p k)|]. destruct (decide (k0 = k)) as [->|Hne].
  - destruct (p k) eqn:E; cbn; [by rewrite decide_True|]. by rewrite IH.
  - destruct (p k0); cbn; [rewrite decide_False by done|]; by rewrite IH.
Qed.

Lemma mset_not_nil {V} (m : list (jstring * V)) k v : mset m k v <> [].
Proof. destruct m as [|[k0 v0] m]; cbn; [done|]. by destruct (decide _). Qed.

Lemma mget_nil_ext {V} (m : list (jstring * V)) : (forall k, mget m k = None) -> m = [].
Proof. destruct m as [|[k v] m]; [done|]. intros H. specialize (H k). cbn in H. by rewrite decide_True in H. Qed.

(** ** Selections, model by model *)

Definition of_model (model : jstring) (selections : list ResolutionSelection) : list ResolutionSelection :=
  List.filter (fun s => jeqb (s_model s) model) selections.

(** The draft of a model after selections. *)
Definition select_all (modelDiffs : option ModelDiffs) (selections : list ResolutionSelection) (draft : members) : members :=
  fold_left (fun d s => select_in_draft modelDiffs s d) selections draft.

Lemma draft_not_nil md s d : select_in_draft md s d <> [].
Proof.
  unfold select_in_draft, with_tiered. repeat case_match; apply mset_not_nil.
Qed.

Lemma draft_of_mset drafts res k d model : draft_of (mset drafts k d) res model = if decide (k = model) then d else draft_of drafts res model.
Proof. unfold draft_of. rewrite mget_mset. by case_decide. Qed.

Lemma drafts_get res diffs sels model : forall drafts,
  mget (fold_left (fun drafts s => mset drafts (s_model s)
    (select_in_draft (mget diffs (s_model s)) s (draft_of drafts res (s_model s)))) sels drafts) model =
  match of_model model sels with
  | [] => mget drafts model
  | ss => Some (select_all (mget diffs model) ss (draft_of drafts res model))
  end.
Proof.
  induction sels as [|s sels IH]; intros drafts; [done|]. cbn [fold_left]. rewrite IH. unfold of_model at 2. cbn [List.filter].
  fold (of_model model sels). destruct (jeqb (s_model s) model) eqn:E.
  - apply jeqb_eq in E. subst model. unfold select_all at 2. cbn [fold_left]. fold (select_all (mget diffs (s_model s)) (of_model (s_model s) sels)
      (select_in_draft (mget diffs (s_model s)) s (draft_of drafts res (s_model s)))).
    rewrite draft_of_mset, mget_mset, !decide_True by done. by destruct (of_model _ sels).
  - apply jeqb_neq in E. by rewrite draft_of_mset, mget_mset, !decide_False.
Qed.

Lemma drafts_keys res diffs sels : forall drafts, NoDup (map fst drafts) -> NoDup (map fst (fold_left (fun drafts s => mset drafts (s_model s)
    (select_in_draft (mget diffs (s_model s)) s (draft_of drafts res (s_model s)))) sels drafts)).
Proof. induction sels as [|s sels IH]; intros drafts H; [done|]. cbn. apply IH. by apply mset_NoDup. Qed.

Lemma take_get drafts model : NoDup (map fst drafts) -> forall next,
  mget (take_drafts drafts next) model = match mget drafts model with Some [] => None | Some d => Some d | None => mget next model end.
Proof.
  unfold take_drafts. induction drafts as [|[k d] drafts IH]; intros Hn next; [done|]. cbn [map fst] in Hn.
  apply NoDup_cons in Hn as [Hk Hn]. cbn [fold_left mget fst snd]. rewrite IH by done. destruct (decide (k = model)) as [->|Hne].
  - apply mget_None in Hk. rewrite Hk. destruct d; [by rewrite mget_mdel, decide_True|by rewrite mget_mset, decide_True].
  - destruct (mget drafts model) as [[|]|]; [done..|]. destruct d; [by rewrite mget_mdel, decide_False|by rewrite mget_mset, decide_False].
Qed.

(** What is selected for a model afterwards: its selections one after the other, on what was selected before. *)
Lemma apply_get res diffs sels model : mget (applyResolutionSelections res diffs sels) model =
  match of_model model sels with
  | [] => mget res model
  | ss => Some (select_all (mget diffs model) ss (coalesce (mget res model) []))
  end.
Proof.
  destruct sels as [|s sels]; [done|]. unfold applyResolutionSelections.
  rewrite take_get by (apply drafts_keys, NoDup_nil_2). unfold drafts_of. rewrite drafts_get.
  destruct (of_model model (s :: sels)) as [|s' ss] eqn:E; [done|]. unfold draft_of at 1. cbn [mget].
  unfold draft_of. cbn [mget].
  assert (select_all (mget diffs model) (s' :: ss) (coalesce (mget res model) []) <> []) as Hn.
  { rewrite <- (rev_involutive (s' :: ss)). destruct (rev (s' :: ss)) as [|r rs] eqn:Er; [by apply (f_equal (@length _)) in Er; rewrite length_rev in Er|].
    cbn [rev]. unfold select_all. rewrite fold_left_app. apply draft_not_nil. }
  by destruct (select_all _ _ _).
Qed.

Lemma apply_app res diffs a b model :
  mget (applyResolutionSelections res diffs (a ++ b)) model =
  mget (applyResolutionSelections (applyResolutionSelections res diffs a) diffs b) model.
Proof.
  rewrite !apply_get. unfold of_model. rewrite List.filter_app. fold (of_model model a) (of_model model b).
  destruct (of_model model b) as [|s ss] eqn:Eb; [by rewrite app_nil_r|].
  destruct (of_model model a) as [|r rs] eqn:Ea; [done|]. cbn [app coalesce from_option Datatypes.id]. f_equal. unfold select_all.
  change (r :: rs ++ s :: ss) with ((r :: rs) ++ s :: ss). by rewrite fold_left_app.
Qed.

(** Selecting many at once is selecting them one after the other. *)
Lemma apply_one_by_one diffs sels model : forall res, mget (applyResolutionSelections res diffs sels) model =
  mget (fold_left (fun r s => applyResolutionSelection r diffs s) sels res) model.
Proof.
  induction sels as [|s sels IH]; intros res; [done|]. cbn [fold_left]. rewrite <- IH. apply (apply_app res diffs [s] sels).
Qed.

(** ** Removals *)

Lemma mget_mdels {V} (ks : list jstring) k : forall m : list (jstring * V),
  mget (fold_left mdel ks m) k = if bool_decide (k ∈ ks) then None else mget m k.
Proof.
  induction ks as [|k0 ks IH]; intros m; [done|]. cbn [fold_left]. rewrite IH, mget_mdel.
  destruct (decide (k0 = k)) as [->|Hne]; [rewrite (bool_decide_true (k ∈ k :: ks)) by (by left); by case_bool_decide|].
  destruct (bool_decide (k ∈ ks)) eqn:E.
  - apply bool_decide_eq_true in E. by rewrite bool_decide_true by (by right).
  - apply bool_decide_eq_false in E. rewrite bool_decide_false; [done|]. intros [->|H]%elem_of_cons; done.
Qed.

Lemma remove_get ts d k : mget (remove_fields ts d) k = if bool_decide (k ∈ flat_map removed_fields ts) then None else mget d k.
Proof. apply mget_mdels. Qed.

(** What stays of a model when fields are removed: nothing where none is left. *)
Definition left_of (ts : list RatioType) (d : members) : option members := match remove_fields ts d with [] => None | d' => Some d' end.

Lemma plan_get res (plan : ResolutionRemovalPlan) model : NoDup (map fst plan) -> forall next, mget next model = mget res model ->
  mget (fold_left (remove_entry res) plan next) model =
  match mget plan model, mget res model with Some ts, Some d => left_of ts d | _, r => r end.
Proof.
  assert (forall plan next, mget plan model = None -> mget (fold_left (remove_entry res) plan next) model = mget next model) as Hskip.
  { clear plan. induction plan as [|[k ts] plan IH]; intros next H; [done|]. cbn [mget] in H. destruct (decide (k = model)); [done|].
    cbn [fold_left]. rewrite IH by done. unfold remove_entry. cbn [fst snd]. destruct (mget res k); [|done].
    destruct (remove_fields ts m); [by rewrite mget_mdel, decide_False|by rewrite mget_mset, decide_False]. }
  induction plan as [|[k ts] plan IH]; intros Hn next Hnext; [cbn; by rewrite Hnext; destruct (mget res model)|].
  cbn [map fst] in Hn. apply NoDup_cons in Hn as [Hk Hn]. cbn [fold_left mget]. destruct (decide (k = model)) as [->|Hne].
  - rewrite Hskip by (by apply mget_None). unfold remove_entry, left_of. cbn [fst snd]. destruct (mget res model); [|done].
    destruct (remove_fields ts m); [by rewrite mget_mdel, decide_True|by rewrite mget_mset, decide_True].
  - apply IH; [done|]. unfold remove_entry. cbn [fst snd]. destruct (mget res k); [|done].
    destruct (remove_fields ts m); [by rewrite mget_mdel, decide_False|by rewrite mget_mset, decide_False].
Qed.

Lemma removal_get res plan model : NoDup (map fst plan) -> mget (applyResolutionRemovalPlan res plan) model =
  match mget plan model, mget res model with Some ts, Some d => left_of ts d | _, r => r end.
Proof. intros Hn. destruct plan as [|e plan]; [cbn; by destruct (mget res model)|]. by apply plan_get. Qed.

Lemma removal_keys res plan : NoDup (map fst res) -> NoDup (map fst (applyResolutionRemovalPlan res plan)).
Proof.
  intros H. unfold applyResolutionRemovalPlan. destruct plan as [|e plan]; [done|]. generalize (e :: plan). clear e plan. intros plan.
  assert (forall next, NoDup (map fst next) -> NoDup (map fst (fold_left (remove_entry res) plan next))) as Hf; [|by apply Hf].
  induction plan as [|e plan IH]; intros next Hn; [done|]. cbn. apply IH. unfold remove_entry. destruct (mget res e.1); [|done].
  destruct (remove_fields _ _); [by apply mdel_keys|by apply mset_NoDup].
Qed.

Lemma plan_add_keys sels : forall plan, NoDup (map fst plan) ->
  NoDup (map fst (fold_left (fun plan (s : jstring * RatioType) => plan_add plan s.1 s.2) sels plan)).
Proof. induction sels as [|s sels IH]; intros plan H; [done|]. cbn. apply IH. by apply mset_NoDup. Qed.

Lemma sadd_elem s x y : y ∈ sadd s x <-> y ∈ s \/ y = x.
Proof. unfold sadd. case_bool_decide; [naive_solver|]. rewrite elem_of_app, list_elem_of_singleton. done. Qed.

(** The fields the plan has for a model. *)
Definition planned (plan : ResolutionRemovalPlan) (model : jstring) (t : RatioType) : Prop := exists ts, mget plan model = Some ts /\ t ∈ ts.

Lemma plan_add_planned plan model t model' t' : planned (plan_add plan model t) model' t' <-> planned plan model' t' \/ (model', t') = (model, t).
Proof.
  unfold planned, plan_add. rewrite mget_mset. destruct (decide (model = model')) as [<-|Hne].
  - destruct (mget plan model) as [ts|] eqn:E.
    + split; [intros (ts' & [= <-] & [H| ->]%sadd_elem); [left; by exists ts|by right]|].
      intros [(ts' & [= <-] & H)|[= ->]]; exists (sadd ts t); (split; [done|]); apply sadd_elem; [by left|by right].
    + split; [intros (ts' & [= <-] & ->%list_elem_of_singleton); by right|]. intros [(ts' & [=] & _)|[= ->]]. exists [t]. split; [done|by left].
  - split; [by left|]. intros [H|[= -> _]]; [done|congruence].
Qed.

Lemma planned_all sels model t : forall plan,
  planned (fold_left (fun plan s => plan_add plan (s_model s) (s_type s)) sels plan) model t <->
  planned plan model t \/ exists s, s ∈ sels /\ s_model s = model /\ s_type s = t.
Proof.
  induction sels as [|s sels IH]; intros plan; cbn [fold_left].
  - split; [by left|]. intros [H|(s & []%elem_of_nil & _)]. done.
  - rewrite IH, plan_add_planned. split.
    + intros [[H|[= -> ->]]|(s' & Hs & H)]; [by left|right; exists s; split; [by left|done]|right; exists s'; split; [by right|done]].
    + intros [H|(s' & [-> | Hs]%elem_of_cons & H)]; [by left; left|left; right; by destruct H as [-> ->]|right; by exists s'].
Qed.

(** ** What can be selected together *)

(** What is selected for a model: something, of fields the code knows, not both a price by amount and one by ratio, and no
    expression without a mode. *)
Record clean_draft (d : members) : Prop := {
  c_some : d <> [];
  c_keys : NoDup (map fst d);
  c_known : forall t, is_Some (mget d t) -> t ∈ SYNC_FIELD_ORDER;
  c_one : mget d model_price = None \/ forall t, t ∈ RATIO_SYNC_FIELDS -> mget d t = None;
  c_mode : is_Some (mget d billing_expr) -> is_Some (mget d billing_mode)
}.

Definition clean_resolutions (res : ResolutionsMap) : Prop :=
  NoDup (map fst res) /\ forall m d, mget res m = Some d -> clean_draft d.

(** What the table lets the user select: a known field of a model in the differences. *)
Definition sound_selection (diffs : DifferencesMap) (s : ResolutionSelection) : Prop :=
  s_type s ∈ SYNC_FIELD_ORDER /\ is_Some (mget diffs (s_model s)).

Definition sound_sync_event (p : sync_page) (e : sync_event) : Prop :=
  match e with
  | SelectValue s => sound_selection (differences p) s
  | SelectValues ss => Forall (sound_selection (differences p)) ss
  | UnselectValues plan => NoDup (map fst plan)
  | _ => True
  end.

Inductive reachable_page : sync_page -> Prop :=
| page_opened : reachable_page {| differences := []; resolutions := [] |}
| page_stepped p e : reachable_page p -> sound_sync_event p e -> reachable_page (sync_step p e).

Lemma known_category t : t ∈ SYNC_FIELD_ORDER -> getBillingCategory t = Ratio <-> t ∈ RATIO_SYNC_FIELDS.
Proof.
  intros H. assert (Forall (fun t => getBillingCategory t = Ratio <-> t ∈ RATIO_SYNC_FIELDS) SYNC_FIELD_ORDER) as Hf;
    [|by rewrite Forall_forall in Hf; auto]. clear.
  assert (forall t, bool_decide (getBillingCategory t = Ratio) = bool_decide (t ∈ RATIO_SYNC_FIELDS) ->
    getBillingCategory t = Ratio <-> t ∈ RATIO_SYNC_FIELDS) as Hb by (intros t; do 2 case_bool_decide; by split).
  repeat (apply Forall_cons_2; [apply Hb; by vm_compute|]). apply Forall_nil_2.
Qed.

Lemma ratio_category t : t ∈ RATIO_SYNC_FIELDS -> getBillingCategory t = Ratio.
Proof. intros H. apply known_category; [|done]. apply elem_of_app. by left. Qed.

Lemma resolved_known md s : s_type s ∈ SYNC_FIELD_ORDER -> resolved_type md s ∈ SYNC_FIELD_ORDER.
Proof. unfold resolved_type, getPreferredSyncField. destruct (_ && _); [|done]. intros _. apply elem_of_app. right. right. right. by left. Qed.

Lemma tiered_known t : t ∈ [billing_mode; billing_expr] -> t ∈ SYNC_FIELD_ORDER /\ getBillingCategory t = Tiered.
Proof.
  intros [->|[->|[]%elem_of_nil]%elem_of_cons]%elem_of_cons; (split; [apply elem_of_app; right; right|by vm_compute]);
    [by left|right; by left].
Qed.

(** Setting a tiered field adds to what is selected; its lookups: *)
Lemma with_tiered_get md t source draft k : mget (with_tiered md t source draft) k =
  match md with
  | None => mget draft k
  | Some d =>
      if decide (billing_expr = k) then (if isSelectableUpstreamValue (upstream_value d billing_expr source)
        then Some (upstream_value d billing_expr source) else mget draft k)
      else if decide (billing_mode = k) then
        (if isSelectableUpstreamValue (upstream_value d billing_mode source) then Some (upstream_value d billing_mode source)
         else if jeqb t billing_expr then Some (JStr (js "tiered_expr")) else mget draft k)
      else mget draft k
  end.
Proof.
  unfold with_tiered. destruct md as [d|]; [|done].
  assert (billing_mode <> billing_expr) as Hne by done.
  destruct (isSelectableUpstreamValue (upstream_value d billing_expr source)),
    (isSelectableUpstreamValue (upstream_value d billing_mode source)), (jeqb t billing_expr); rewrite ?mget_mset;
    repeat case_decide; congruence.
Qed.

Lemma select_get md s draft k : mget (select_in_draft md s draft) k =
  let t := resolved_type md s in let c := getBillingCategory t in
  let base := if decide (t = k) then Some (resolved_value md s) else if excludes c k then None else mget draft k in
  if bool_decide (c = Tiered) then mget (with_tiered md t (s_source s) (mset (List.filter (fun e => negb (excludes c e.1)) draft) t (resolved_value md s))) k
  else base.
Proof.
  unfold select_in_draft. cbv zeta. case_bool_decide; [done|]. rewrite mget_mset, (mget_filter (fun k => negb (excludes _ k))).
  by destruct (decide _), (excludes (getBillingCategory (resolved_type md s)) k).
Qed.

Lemma tiered_excludes k : excludes Tiered k = false.
Proof. done. Qed.

Lemma filter_tiered (d : members) : List.filter (fun e => negb (excludes Tiered e.1)) d = d.
Proof. apply Forall_true_filter. apply List.Forall_forall. by intros. Qed.

Lemma select_tiered md s draft k : getBillingCategory (resolved_type md s) = Tiered ->
  mget (select_in_draft md s draft) k = mget (with_tiered md (resolved_type md s) (s_source s) (mset draft (resolved_type md s) (resolved_value md s))) k.
Proof. intros H. rewrite select_get. cbv zeta. by rewrite H, bool_decide_true, filter_tiered. Qed.

Lemma select_plain md s draft k : getBillingCategory (resolved_type md s) <> Tiered ->
  mget (select_in_draft md s draft) k = if decide (resolved_type md s = k) then Some (resolved_value md s)
    else if excludes (getBillingCategory (resolved_type md s)) k then None else mget draft k.
Proof. intros H. rewrite select_get. cbv zeta. by rewrite bool_decide_false. Qed.

Lemma select_keys md s draft : NoDup (map fst draft) -> NoDup (map fst (select_in_draft md s draft)).
Proof.
  intros H. assert (NoDup (map fst (List.filter (fun e => negb (excludes (getBillingCategory (resolved_type md s)) e.1)) draft))) as Hf.
  { clear - H. induction draft as [|[k v] d IH]; cbn in *; [done|]. apply NoDup_cons in H as [Hk Hd]. destruct (negb _); cbn; [|by apply IH].
    apply NoDup_cons. split; [|by apply IH]. intros ([k1 v1] & -> & Hin)%list_elem_of_fmap. apply Hk. apply list_elem_of_fmap.
    exists (k1, v1). split; [done|]. apply list_elem_of_In, filter_In in Hin as [Hin _]. by apply list_elem_of_In. }
  unfold select_in_draft, with_tiered. repeat case_match; by repeat apply mset_NoDup.
Qed.

Lemma excludes_price t : t ∈ RATIO_SYNC_FIELDS -> excludes Price t = true.
Proof. intros H. unfold excludes. by rewrite (ratio_category t H). Qed.

Lemma excludes_ratio : excludes Ratio model_price = true.
Proof. by vm_compute. Qed.

(** A tiered selection leaves the other fields, and sets the mode with the expression. *)
Lemma select_tiered_other md s d k : getBillingCategory (resolved_type md s) = Tiered -> getBillingCategory k <> Tiered ->
  mget (select_in_draft md s d) k = mget d k.
Proof.
  intros H Hk. rewrite select_tiered, with_tiered_get by done.
  assert (forall t, getBillingCategory t = Tiered -> t <> k) as Hne by congruence.
  pose proof (Hne billing_expr eq_refl). pose proof (Hne billing_mode eq_refl). pose proof (Hne _ H).
  destruct md; rewrite ?mget_mset, !decide_False by done; done.
Qed.

Lemma select_tiered_mode diffs s d : getBillingCategory (resolved_type (Some diffs) s) = Tiered ->
  (is_Some (mget d billing_expr) -> is_Some (mget d billing_mode)) ->
  is_Some (mget (select_in_draft (Some diffs) s d) billing_expr) -> is_Some (mget (select_in_draft (Some diffs) s d) billing_mode).
Proof.
  intros Ht Hd. rewrite !select_tiered, !with_tiered_get by done.
  rewrite (decide_True (P := billing_expr = billing_expr)), (decide_False (P := billing_expr = billing_mode)),
    (decide_True (P := billing_mode = billing_mode)) by done.
  destruct (isSelectableUpstreamValue (upstream_value diffs billing_mode _)); [by eexists|].
  destruct (jeqb (resolved_type (Some diffs) s) billing_expr) eqn:E; [by eexists|]. apply jeqb_neq in E.
  destruct (isSelectableUpstreamValue (upstream_value diffs billing_expr (s_source s))) eqn:Ee.
  - exfalso. apply E. unfold resolved_type, getPreferredSyncField. cbn [coalesce from_option Datatypes.id]. rewrite Ee, andb_true_r.
    destruct (jeqb (s_type s) billing_expr) eqn:Es; [by apply jeqb_eq in Es|done].
  - rewrite !mget_mset. repeat case_decide; done.
Qed.

Lemma select_known md s d t : s_type s ∈ SYNC_FIELD_ORDER -> (forall t, is_Some (mget d t) -> t ∈ SYNC_FIELD_ORDER) ->
  is_Some (mget (select_in_draft md s d) t) -> t ∈ SYNC_FIELD_ORDER.
Proof.
  intros Hs Hd. pose proof (resolved_known md s Hs) as Hr. destruct (decide (getBillingCategory (resolved_type md s) = Tiered)) as [E|E].
  - destruct (decide (t ∈ [billing_mode; billing_expr])) as [Ht|Ht]; [by intros _; apply tiered_known|].
    rewrite select_tiered, with_tiered_get by done.
    assert (billing_expr <> t /\ billing_mode <> t) as [H1 H2] by (split; intros <-; apply Ht; [right; by left|by left]).
    destruct md; rewrite mget_mset; repeat case_decide; subst; first [done | apply Hd].
  - rewrite select_plain by done. case_decide; [by subst|]. destruct (excludes _ _); [by intros []|apply Hd].
Qed.

(** A selection keeps what is selected clean. *)
Lemma select_clean diffs s d : s_type s ∈ SYNC_FIELD_ORDER -> d = [] \/ clean_draft d -> clean_draft (select_in_draft (Some diffs) s d).
Proof.
  intros Hs Hd.
  assert (NoDup (map fst d) /\ (forall t, is_Some (mget d t) -> t ∈ SYNC_FIELD_ORDER) /\
    (mget d model_price = None \/ forall t, t ∈ RATIO_SYNC_FIELDS -> mget d t = None) /\
    (is_Some (mget d billing_expr) -> is_Some (mget d billing_mode))) as (H1 & H2 & H3 & H4).
  { destruct Hd as [-> | [_ H1 H2 H3 H4]]; [|done]. split; [by apply NoDup_nil_2|]. split; [by intros t []|]. split; [by left|by intros []]. }
  split; [apply draft_not_nil|by apply select_keys|by intros t; apply select_known| |].
  - destruct (getBillingCategory (resolved_type (Some diffs) s)) eqn:E.
    + right. intros t Ht. rewrite select_plain, E by (by rewrite E). rewrite decide_False, excludes_price; [done|done|].
      intros <-. by rewrite (ratio_category _ Ht) in E.
    + left. rewrite select_plain, E by (by rewrite E). rewrite decide_False, excludes_ratio; [done|]. intros H. by rewrite H in E.
    + destruct H3 as [H3|H3]; [left|right; intros t Ht]; (rewrite select_tiered_other; [auto|done|]);
        [by vm_compute|by rewrite (ratio_category _ Ht)].
  - destruct (getBillingCategory (resolved_type (Some diffs) s)) eqn:E; [| |by apply select_tiered_mode];
      rewrite !select_plain, E by (by rewrite E); (rewrite !decide_False by (intros H; by rewrite H in E)); done.
Qed.

Lemma select_all_clean diffs ss : forall d, Forall (fun s => s_type s ∈ SYNC_FIELD_ORDER) ss -> ss <> [] -> d = [] \/ clean_draft d ->
  clean_draft (select_all (Some diffs) ss d).
Proof.
  induction ss as [|s ss IH]; intros d Hs Hn Hd; [done|]. apply Forall_cons in Hs as [Hs Hss]. unfold select_all. cbn [fold_left].
  pose proof (select_clean diffs s d Hs Hd) as Hc. destruct ss as [|s' ss]; [done|]. apply IH; [done|done|by right].
Qed.

Lemma remove_clean ts d d' : clean_draft d -> left_of ts d = Some d' -> clean_draft d'.
Proof.
  intros Hc. unfold left_of. destruct (remove_fields ts d) as [|e r] eqn:E; [done|]. rewrite <- E. intros [= <-].
  assert (forall k, mget (remove_fields ts d) k = None \/ mget (remove_fields ts d) k = mget d k) as Hk.
  { intros k. rewrite remove_get. case_bool_decide; [by left|by right]. }
  split.
  - by rewrite E.
  - clear -Hc. unfold remove_fields. generalize (flat_map removed_fields ts). intros ks. pose proof (c_keys d Hc) as H. revert H. clear.
    revert d. induction ks as [|k ks IH]; intros d H; [done|]. cbn. apply IH. by apply mdel_keys.
  - intros t Ht. apply (c_known d Hc). destruct (Hk t) as [H|H]; rewrite H in Ht; [by destruct Ht|done].
  - destruct (c_one d Hc) as [H|H]; [left|right; intros t Ht].
    + destruct (Hk model_price) as [H'|H']; congruence.
    + destruct (Hk t) as [H'|H']; [done|]. rewrite H'. auto.
  - rewrite !remove_get. destruct (bool_decide (billing_expr ∈ flat_map removed_fields ts)) eqn:Hb; [by intros []|]. intros He.
    apply bool_decide_eq_false in Hb. rewrite bool_decide_false; [by apply (c_mode d Hc)|].
    intros Hm. apply Hb. clear - Hm. apply list_elem_of_In, in_flat_map in Hm as (t & Ht & Hm). apply list_elem_of_In, in_flat_map. exists t. split; [done|].
    unfold removed_fields in *. apply in_app_or in Hm as [[->|[]]|Hm]; [vm_compute; right; left; reflexivity|].
    destruct (jeqb t billing_expr) eqn:E; [apply jeqb_eq in E as ->; by left|]. cbn [app] in Hm.
    destruct (jeqb t billing_mode) eqn:E'; [|done]. apply jeqb_eq in E' as ->. right. by left.
Qed.

Lemma take_keys drafts : forall next, NoDup (map fst next) -> NoDup (map fst (take_drafts drafts next)).
Proof.
  unfold take_drafts. induction drafts as [|[k d] drafts IH]; intros next H; [done|]. cbn [fold_left fst snd]. apply IH.
  destruct d; [by apply mdel_keys|by apply mset_NoDup].
Qed.

Lemma apply_clean res diffs sels : Forall (sound_selection diffs) sels -> clean_resolutions res ->
  clean_resolutions (applyResolutionSelections res diffs sels).
Proof.
  intros Hs [Hn Hc]. split; [destruct sels; [done|]; by apply take_keys|]. intros m d. rewrite apply_get.
  destruct (of_model m sels) as [|s ss] eqn:E; [by apply Hc|]. intros [= <-].
  assert (Forall (fun s => s_type s ∈ SYNC_FIELD_ORDER /\ is_Some (mget diffs m)) (s :: ss)) as Hf.
  { rewrite <- E. apply List.Forall_forall. intros x [Hx Ex]%filter_In. apply jeqb_eq in Ex as <-. rewrite List.Forall_forall in Hs. by apply Hs. }
  destruct (Forall_inv Hf) as [_ [md Hmd]]. rewrite Hmd. apply (select_all_clean md (s :: ss)); [|done|].
  - eapply Forall_impl; [exact Hf|]. by intros x [Hx _].
  - destruct (mget res m) eqn:Er; [right; by apply Hc in Er|by left].
Qed.

Lemma removal_clean res plan : NoDup (map fst plan) -> clean_resolutions res -> clean_resolutions (applyResolutionRemovalPlan res plan).
Proof.
  intros Hp [Hn Hc]. split; [by apply removal_keys|]. intros m d. rewrite removal_get by done.
  destruct (mget plan m) as [ts|]; [|intros H; apply (Hc m); revert H; by destruct (mget res m)].
  destruct (mget res m) eqn:E; [|done]. apply remove_clean. by apply Hc in E.
Qed.

Lemma removals_plan res removals : exists plan, NoDup (map fst plan) /\ applyResolutionRemovals res removals = applyResolutionRemovalPlan res plan.
Proof.
  destruct removals as [|r rs]; [exists []; split; [by apply NoDup_nil_2|done]|]. eexists. split; [|reflexivity].
  assert (forall l plan, NoDup (map fst plan) -> NoDup (map fst (fold_left (fun plan r => plan_add plan (r_model r) (r_type r)) l plan))) as H.
  { induction l as [|x l IH]; intros plan H; [done|]. cbn. apply IH. by apply mset_NoDup. }
  apply H. by apply NoDup_nil_2.
Qed.

(** One event keeps what is selected clean. *)
Lemma step_clean p e : sound_sync_event p e -> clean_resolutions (resolutions p) -> clean_resolutions (resolutions (sync_step p e)).
Proof.
  intros He IH. destruct e; cbn [sync_step resolutions].
  - split; [by apply NoDup_nil_2|done].
  - apply apply_clean; [by apply Forall_cons_2|done].
  - by apply apply_clean.
  - destruct (removals_plan (resolutions p) [{| r_model := model; r_type := t |}]) as (plan & Hp & E).
    unfold deleteResolutionField. rewrite E. by apply removal_clean.
  - by apply removal_clean.
  - split; [by apply NoDup_nil_2|done].
Qed.

Lemma reachable_clean p : reachable_page p -> clean_resolutions (resolutions p).
Proof. induction 1 as [|p e _ IH He]; [split; [by apply NoDup_nil_2|done]|]. by apply step_clean. Qed.

(** ** What a sync makes of the options *)

(** The field of an option. *)
Definition field_of (key : jstring) : option RatioType := find (fun t => jeqb (optionKeyBySyncField t) key) SYNC_FIELD_ORDER.

Definition is_ratio_option (key : jstring) : bool := bool_decide (key ∈ ratio_options).

(** The cell of an option and a model after what is selected for the model was taken over. *)
Definition synced_cell (ratios : members) (key : jstring) (old : option jsval) : option jsval :=
  match field_of key with
  | Some t =>
      match mget ratios t with
      | Some v => Some (synced_value t v)
      | None => if is_ratio_option key && has_price ratios || jeqb key ModelPrice && has_ratio ratios then None else old
      end
  | None => old
  end.

Lemma cell_del options key model key' model' : is_Some (mget options key) -> cell (del_cell options key model) key' model' =
  if decide (key = key' /\ model = model') then None else cell options key' model'.
Proof.
  intros [fs Hfs]. unfold del_cell, cell. rewrite Hfs, mget_mset. destruct (decide (key = key')) as [<-|Hk].
  - rewrite Hfs, mget_mdel. destruct (decide (model = model')) as [<-|Hm]; [by rewrite decide_True|]. rewrite decide_False; naive_solver.
  - rewrite decide_False; [done|naive_solver].
Qed.

Lemma del_keys options key model : map fst (del_cell options key model) = map fst options.
Proof.
  unfold del_cell. destruct (mget options key) eqn:E; [|done]. rewrite mset_keys, decide_True; [done|].
  destruct (decide (key ∈ map fst options)) as [H|H]; [done|]. apply mget_None in H. congruence.
Qed.

Lemma key_there (options : Options) key : map fst options = option_keys -> key ∈ option_keys -> is_Some (mget options key).
Proof. intros Hk Hin. destruct (mget options key) eqn:E; [by eexists|]. apply mget_None in E. by rewrite Hk in E. Qed.

Lemma dels_cell model key' model' keys : forall options, map fst options = option_keys -> Forall (fun k => k ∈ option_keys) keys ->
  let options' := fold_left (fun o key => del_cell o key model) keys options in
  map fst options' = option_keys /\
  cell options' key' model' = if bool_decide (key' ∈ keys) && bool_decide (model = model') then None else cell options key' model'.
Proof.
  induction keys as [|k keys IH]; intros options Ho Hk; [done|]. apply Forall_cons in Hk as [Hk Hks]. cbn [fold_left].
  destruct (IH (del_cell options k model)) as [H1 H2]; [by rewrite del_keys|done|]. split; [done|]. rewrite H2, cell_del by (by apply key_there).
  destruct (decide (k = key' /\ model = model')) as [[-> ->]|Hne].
  - rewrite (bool_decide_true (key' ∈ key' :: keys)) by (by left). rewrite (bool_decide_true (model' = model')) by done. by destruct (bool_decide _).
  - destruct (bool_decide (model = model')) eqn:Em; [|by rewrite !andb_false_r]. apply bool_decide_eq_true in Em.
    rewrite !andb_true_r. destruct (bool_decide (key' ∈ keys)) eqn:E.
    + rewrite bool_decide_true; [done|]. right. by apply bool_decide_eq_true in E.
    + rewrite bool_decide_false; [done|]. apply bool_decide_eq_false in E. intros [->|H]%elem_of_cons; [naive_solver|done].
Qed.

Lemma options_known t : t ∈ SYNC_FIELD_ORDER -> optionKeyBySyncField t ∈ option_keys /\ field_of (optionKeyBySyncField t) = Some t.
Proof.
  intros H. assert (Forall (fun t => bool_decide (optionKeyBySyncField t ∈ option_keys) = true /\ field_of (optionKeyBySyncField t) = Some t)
    SYNC_FIELD_ORDER) as Hf.
  { repeat (apply Forall_cons_2; [split; by vm_compute|]). apply Forall_nil_2. }
  rewrite Forall_forall in Hf. destruct (Hf t H) as [H1 H2]. by apply bool_decide_eq_true in H1.
Qed.

Lemma field_of_key key t : field_of key = Some t -> optionKeyBySyncField t = key /\ t ∈ SYNC_FIELD_ORDER.
Proof. intros [Hin E]%find_some. apply jeqb_eq in E. split; [done|]. by apply list_elem_of_In. Qed.

Lemma cell_set options key model v : is_Some (mget options key) -> exists o, set_cell options key model v = Ret o /\
  map fst o = map fst options /\
  forall key' model', cell o key' model' = if decide (key = key' /\ model = model') then Some v else cell options key' model'.
Proof.
  intros [fs Hfs]. unfold set_cell. rewrite Hfs. eexists. split; [done|]. split.
  - rewrite mset_keys, decide_True; [done|]. destruct (decide (key ∈ map fst options)) as [H|H]; [done|]. apply mget_None in H. congruence.
  - intros key' model'. unfold cell. rewrite mget_mset. destruct (decide (key = key')) as [<-|Hk].
    + rewrite Hfs, mget_mset. destruct (decide (model = model')); [by rewrite decide_True|]. rewrite decide_False; naive_solver.
    + rewrite decide_False; [done|naive_solver].
Qed.

(** What was selected for the field of an option. *)
Definition chosen (ratios : members) (key : jstring) : option (RatioType * jsval) :=
  match field_of key with Some t => (fun v => (t, v)) <$> mget ratios t | None => None end.

Lemma set_fields_cells model ratios : forall options, map fst options = option_keys -> NoDup (map fst ratios) ->
  (forall t, is_Some (mget ratios t) -> t ∈ SYNC_FIELD_ORDER) ->
  exists o, set_fields model ratios options = Ret o /\ map fst o = option_keys /\
    forall key' model', cell o key' model' =
      match chosen ratios key' with
      | Some (t, v) => if decide (model = model') then Some (synced_value t v) else cell options key' model'
      | None => cell options key' model'
      end.
Proof.
  induction ratios as [|[t v] ratios IH]; intros options Ho Hn Hk.
  { exists options. split; [done|]. split; [done|]. intros key' model'. unfold chosen. by destruct (field_of key'). }
  cbn [map fst] in Hn. apply NoDup_cons in Hn as [Ht Hn].
  assert (t ∈ SYNC_FIELD_ORDER) as Hkt by (apply Hk; cbn; rewrite decide_True by done; by eexists).
  destruct (options_known t Hkt) as [Hin Hf].
  destruct (cell_set options (optionKeyBySyncField t) model (synced_value t v)) as (o1 & E1 & K1 & C1); [by apply key_there|].
  destruct (IH o1) as (o & Eo & Ko & Co); [by rewrite K1|done| |].
  { intros t' H. destruct (decide (t = t')) as [<-|Hne]; [done|]. apply Hk. cbn. by rewrite decide_False. }
  exists o. cbn [set_fields]. rewrite E1. split; [done|]. split; [done|]. intros key' model'. rewrite Co, C1.
  unfold chosen. destruct (field_of key') as [t'|] eqn:Ef; cbn [mget].
  - apply field_of_key in Ef as [Ek Hk']. destruct (decide (t = t')) as [<-|Hne].
    + apply mget_None in Ht. rewrite Ht. cbn. subst key'. destruct (decide (model = model')); [by rewrite decide_True|].
      rewrite decide_False; [done|naive_solver].
    + assert (optionKeyBySyncField t <> key') as Hok.
      { intros E. rewrite <- E in Ek. destruct (options_known t' Hk') as [_ H']. rewrite Ek, Hf in H'. congruence. }
      rewrite decide_False by naive_solver. by destruct (mget ratios t').
  - rewrite decide_False; [done|]. intros [E _]. subst key'. congruence.
Qed.

Lemma ratio_keys_options : Forall (fun k => k ∈ option_keys) ratio_options.
Proof. apply Forall_forall. intros k H. apply elem_of_app. by left. Qed.

(** One model. *)
Lemma sync_model_cells model ratios options : map fst options = option_keys -> NoDup (map fst ratios) ->
  (forall t, is_Some (mget ratios t) -> t ∈ SYNC_FIELD_ORDER) ->
  exists o, sync_model model ratios options = Ret o /\ map fst o = option_keys /\
    forall key' model', key' ∈ option_keys -> cell o key' model' =
      if decide (model = model') then synced_cell ratios key' (cell options key' model') else cell options key' model'.
Proof.
  intros Ho Hn Hk. unfold sync_model.
  set (o1 := if has_price ratios then fold_left (fun o key => del_cell o key model) ratio_options options else options).
  assert (map fst o1 = option_keys /\ forall key' model', cell o1 key' model' =
    if is_ratio_option key' && has_price ratios && bool_decide (model = model') then None else cell options key' model') as [K1 C1].
  { unfold o1. destruct (has_price ratios).
    - split; [|intros key' model']; pose proof (dels_cell model) as H.
      + by apply (H [] [] ratio_options options Ho ratio_keys_options).
      + destruct (H key' model' ratio_options options Ho ratio_keys_options) as [_ ->]. unfold is_ratio_option. by rewrite andb_true_r.
    - split; [done|]. intros. by rewrite andb_false_r. }
  set (o2 := if has_ratio ratios then del_cell o1 ModelPrice model else o1).
  assert (map fst o2 = option_keys /\ forall key' model', cell o2 key' model' =
    if jeqb key' ModelPrice && has_ratio ratios && bool_decide (model = model') then None else cell o1 key' model') as [K2 C2].
  { unfold o2. destruct (has_ratio ratios).
    - split; [by rewrite del_keys|]. intros key' model'. rewrite cell_del by (apply key_there; [done|apply elem_of_app; right; by left]).
      rewrite andb_true_r. destruct (jeqb key' ModelPrice) eqn:E.
      + apply jeqb_eq in E as ->. cbn [andb]. case_bool_decide; [by rewrite decide_True|]. rewrite decide_False; naive_solver.
      + apply jeqb_neq in E. rewrite decide_False; [done|naive_solver].
    - split; [done|]. intros. by rewrite andb_false_r. }
  destruct (set_fields_cells model ratios o2 K2 Hn Hk) as (o & Eo & Ko & Co). exists o. split; [done|]. split; [done|].
  intros key' model' Hkey. rewrite Co, C2, C1. unfold chosen, synced_cell. destruct (decide (model = model')) as [Hm|Hm].
  - rewrite bool_decide_true, !andb_true_r by done. destruct (field_of key') as [t|] eqn:Ef.
    + destruct (mget ratios t); [done|]. cbn. by destruct (is_ratio_option key' && has_price ratios), (jeqb key' ModelPrice && has_ratio ratios).
    + exfalso. assert (Forall (fun k => is_Some (field_of k)) option_keys) as Hf
        by (repeat (apply Forall_cons_2; [by vm_compute; eexists|]); apply Forall_nil_2).
      rewrite Forall_forall in Hf. destruct (Hf key' Hkey). congruence.
  - rewrite bool_decide_false, !andb_false_r by done. destruct (field_of key') as [t|]; [|done]. by destruct (mget ratios t).
Qed.

Lemma sync_models_cells res : clean_resolutions res -> forall options, map fst options = option_keys ->
  exists final, sync_models res options = Ret final /\ map fst final = option_keys /\
    forall key model, key ∈ option_keys -> cell final key model =
      match mget res model with Some d => synced_cell d key (cell options key model) | None => cell options key model end.
Proof.
  induction res as [|[m d] res IH]; intros [Hn Hc] options Ho; [by exists options|]. cbn [map fst] in Hn. apply NoDup_cons in Hn as [Hm Hn].
  assert (clean_draft d) as Hd by (apply (Hc m); cbn; by rewrite decide_True).
  destruct (sync_model_cells m d options Ho (c_keys d Hd) (c_known d Hd)) as (o1 & E1 & K1 & C1).
  destruct (IH ltac:(split; [done|]; intros m' d' H; apply (Hc m'); cbn; rewrite decide_False; [done|];
    intros <-; apply mget_None in Hm; congruence) o1 K1) as (final & Ef & Kf & Cf).
  exists final. cbn [sync_models]. rewrite E1. split; [done|]. split; [done|]. intros key model Hkey. rewrite Cf, C1 by done. cbn [mget].
  destruct (decide (m = model)) as [<-|Hne]; [|done]. apply mget_None in Hm. by rewrite Hm.
Qed.

(** A model is priced one way: by amount, or by ratios; a billing expression may stand beside either. *)
Definition one_price (options : Options) (model : jstring) : Prop :=
  cell options ModelPrice model = None \/ forall key, key ∈ ratio_options -> cell options key model = None.

Lemma has_price_get ratios : has_price ratios = true <-> is_Some (mget ratios model_price).
Proof.
  unfold has_price. rewrite bool_decide_eq_true. destruct (mget ratios model_price) eqn:E.
  - split; [by eexists|]. intros _. destruct (decide (model_price ∈ map fst ratios)) as [H|H]; [done|]. apply mget_None in H. congruence.
  - apply mget_None in E. split; [done|by intros []].
Qed.

Lemma has_ratio_get ratios : has_ratio ratios = true <-> exists t, t ∈ RATIO_SYNC_FIELDS /\ is_Some (mget ratios t).
Proof.
  assert (forall t, t ∈ map fst ratios <-> is_Some (mget ratios t)) as Hk.
  { intros t. destruct (mget ratios t) eqn:E.
    - split; [by eexists|]. intros _. destruct (decide (t ∈ map fst ratios)) as [H|H]; [done|]. apply mget_None in H. congruence.
    - apply mget_None in E. split; [done|by intros []]. }
  unfold has_ratio. rewrite existsb_exists. split.
  - intros (t & Ht & Hr). apply bool_decide_eq_true in Hr. exists t. split; [done|]. apply Hk. by apply list_elem_of_In.
  - intros (t & Hr & Ht). exists t. split; [by apply list_elem_of_In, Hk|]. by apply bool_decide_eq_true.
Qed.

(** The fields of the options of ratios are those of ratios. *)
Lemma field_of_ratio key : key ∈ ratio_options -> exists t, field_of key = Some t /\ t ∈ RATIO_SYNC_FIELDS.
Proof.
  intros H. assert (Forall (fun k => exists t, field_of k = Some t /\ bool_decide (t ∈ RATIO_SYNC_FIELDS) = true) ratio_options) as Hf
    by (repeat (apply Forall_cons_2; [eexists; split; by vm_compute|]); apply Forall_nil_2).
  rewrite Forall_forall in Hf. destruct (Hf key H) as (t & H1 & H2). exists t. by apply bool_decide_eq_true in H2.
Qed.

Lemma ratio_not_price key : key ∈ ratio_options -> jeqb key ModelPrice = false /\ is_ratio_option key = true.
Proof.
  intros H. split; [|by apply bool_decide_eq_true].
  assert (Forall (fun k => jeqb k ModelPrice = false) ratio_options) as Hf
    by (repeat (apply Forall_cons_2; [by vm_compute|]); apply Forall_nil_2).
  rewrite Forall_forall in Hf. auto.
Qed.

Lemma synced_one_price d options final model : clean_draft d -> one_price options model ->
  (forall key, key ∈ option_keys -> cell final key model = synced_cell d key (cell options key model)) -> one_price final model.
Proof.
  intros Hd Ho Hf. unfold one_price. rewrite Hf by (apply elem_of_app; right; by left).
  unfold synced_cell at 1.
  replace (field_of ModelPrice) with (Some model_price) by (by vm_compute).
  replace (is_ratio_option ModelPrice) with false by (by vm_compute). replace (jeqb ModelPrice ModelPrice) with true by (by vm_compute).
  destruct (mget d model_price) as [v|] eqn:Ep.
  - right. intros key Hkey. rewrite Hf by (apply elem_of_app; by left). destruct (field_of_ratio key Hkey) as (t & Et & Ht).
    destruct (ratio_not_price key Hkey) as [E1 E2]. unfold synced_cell. rewrite Et, E1, E2.
    destruct (c_one d Hd) as [H|H]; [congruence|]. rewrite (H t Ht), (proj2 (has_price_get d)) by (by rewrite Ep; eexists). done.
  - cbn [andb orb]. destruct (has_ratio d) eqn:Er; [by left|].
    destruct Ho as [Ho|Ho]; [by left|right]. intros key Hkey. rewrite Hf by (apply elem_of_app; by left).
    destruct (field_of_ratio key Hkey) as (t & Et & Ht). unfold synced_cell. rewrite Et.
    destruct (mget d t) as [v|] eqn:Ev; [|case_match; auto].
    exfalso. apply not_true_iff_false in Er. apply Er, has_ratio_get. exists t. split; [done|]. by rewrite Ev; eexists.
Qed.

(** C30. A sync takes over exactly what is selected.  It does not throw; the cell of an option for a model becomes the selected value, as a
    number where the field is numeric; a selected price by amount clears the ratios of the model and selected ratios clear its price;
    every other cell stays.  So a model that was priced one way - by amount or by ratios; a billing expression may remain beside either
    (price_under_expression) - is priced one way afterwards. *)
Theorem sync_takes_selection (p : sync_page) (local : Options) : reachable_page p -> map fst local = option_keys ->
  exists final, performSync (resolutions p) local = Ret (map (fun e => (e.1, JSON_stringify_2 (JObj e.2))) final) /\
    map fst final = option_keys /\
    (forall key model, key ∈ option_keys -> cell final key model =
       match mget (resolutions p) model with Some d => synced_cell d key (cell local key model) | None => cell local key model end) /\
    (forall model, one_price local model -> one_price final model).
Proof.
  intros Hp%reachable_clean Hl. destruct (sync_models_cells _ Hp local Hl) as (final & E & Hk & Hc). exists final. unfold performSync. rewrite E.
  split; [done|]. split; [done|]. split; [done|]. intros model Ho. destruct (mget (resolutions p) model) as [d|] eqn:Em.
  - apply (synced_one_price d local); [by apply (proj2 Hp model)|done|]. intros key Hkey. by rewrite Hc, Em.
  - destruct Ho as [H|H]; [left|right; intros key Hkey]; (rewrite Hc, Em; [auto|]); apply elem_of_app; [right; by left|by left].
Qed.

(** ** Nothing goes without a warning *)

Lemma new_category_price d : mget d model_price <> None -> new_category d = Price.
Proof. intros H. unfold new_category. rewrite (proj2 (has_price_get d)); [done|]. by destruct (mget d model_price). Qed.

Lemma local_price local model v : cell local ModelPrice model = Some v -> getLocalBillingCategory model local = Some Price.
Proof. unfold getLocalBillingCategory. by intros ->. Qed.

Lemma local_ratio local model key v : cell local ModelPrice model = None -> key ∈ ratio_options -> cell local key model = Some v ->
  getLocalBillingCategory model local = Some Ratio.
Proof.
  intros H0 Hk Hv. unfold getLocalBillingCategory. rewrite H0. replace (existsb _ ratio_options) with true; [done|]. symmetry.
  apply existsb_exists. exists key. split; [by apply list_elem_of_In|]. by rewrite Hv.
Qed.

(** Without a conflict a model keeps every cell it has. *)
Lemma no_conflict_keeps t diffs local model d key : conflict_of t diffs local (model, d) = [] -> clean_draft d ->
  is_Some (cell local key model) -> is_Some (synced_cell d key (cell local key model)) \/
    key ∈ ratio_options /\ is_Some (cell local ModelPrice model) /\ has_price d = true.
Proof.
  intros Hc Hd [v Hv]. rewrite Hv. unfold synced_cell. destruct (field_of key) as [f|]; [|left; by eexists].
  destruct (mget d f); [left; by eexists|]. destruct (is_ratio_option key && has_price d) eqn:E1; cbn [orb].
  - right. apply andb_true_iff in E1 as [Hk Hpr]. apply bool_decide_eq_true in Hk. split; [done|]. split; [|done].
    destruct (cell local ModelPrice model) as [w|] eqn:H0; [by eexists|]. exfalso.
    unfold conflict_of in Hc. rewrite (local_ratio local model key v H0 Hk Hv) in Hc. unfold new_category in Hc. by rewrite Hpr in Hc.
  - left. destruct (jeqb key ModelPrice && has_ratio d) eqn:E2; [|by eexists]. exfalso. apply andb_true_iff in E2 as [Hk Hr]. apply jeqb_eq in Hk as ->.
    unfold conflict_of in Hc. rewrite (local_price local model v Hv) in Hc. unfold new_category in Hc. rewrite Hr in Hc.
    destruct (has_price d) eqn:Hpr; [|done]. apply has_price_get in Hpr as [w Hw]. apply has_ratio_get in Hr as (r & Hr & Hrr).
    destruct (c_one d Hd) as [H|H]; [congruence|]. rewrite (H r Hr) in Hrr. by destruct Hrr.
Qed.

(** C31. Nothing of a model that is priced one way is removed without being asked about: where the page syncs at once, every price that
    was set before is still set afterwards - only a conflict, which is shown first, clears the price or the ratios of such a model.  Of a
    model that has both a price by amount and ratios, as some of the default prices have, the ratios may go without a word, when a
    price by amount is selected: these are all that can, and the price by amount is set before and after (both_ways_loses_ratios). *)
Theorem no_silent_removal (t : jstring -> jstring) (p : sync_page) (local : Options) (updates : exc (list (jstring * jstring))) :
  reachable_page p -> map fst local = option_keys ->
  handleApplySync t (differences p) (resolutions p) local = SyncsNow updates ->
  exists final, updates = Ret (map (fun e => (e.1, JSON_stringify_2 (JObj e.2))) final) /\
    forall key model, key ∈ option_keys -> is_Some (cell local key model) ->
      is_Some (cell final key model) \/
      ~ one_price local model /\ key ∈ ratio_options /\ is_Some (cell local ModelPrice model) /\ is_Some (cell final ModelPrice model).
Proof.
  intros Hp%reachable_clean Hl. unfold handleApplySync. destruct (flat_map _ _) as [|c cs] eqn:E; [|done]. intros [= <-].
  destruct (sync_models_cells _ Hp local Hl) as (final & Ef & _ & Hc). exists final. unfold performSync. rewrite Ef. split; [done|].
  intros key model Hkey Hs. rewrite !Hc by first [done | apply elem_of_app; right; by left].
  destruct (mget (resolutions p) model) as [d|] eqn:Em; [|by left].
  destruct (no_conflict_keeps t (differences p) local model d key) as [H|(Hr & H0 & Hpr)]; [|by apply (proj2 Hp model)|done|by left|].
  - apply mget_In in Em. destruct (conflict_of t (differences p) local (model, d)) as [|x l] eqn:Ex; [done|].
    assert (In x (flat_map (conflict_of t (differences p) local) (resolutions p))) as H; [|by rewrite E in H].
    apply in_flat_map. exists (model, d). split; [done|]. rewrite Ex. by left.
  - right. split; [|split; [done|split; [done|]]].
    + intros [H|H]; [rewrite H in H0; by destruct H0|]. rewrite (H key Hr) in Hs. by destruct Hs.
    + apply has_price_get in Hpr as [v Hv]. unfold synced_cell.
      assert (field_of ModelPrice = Some model_price) as -> by (by vm_compute).
      rewrite Hv. by eexists.
Qed.

(** ** Selecting and unselecting a whole source *)

Section Bulk.
Context (diffs : DifferencesMap) (source : jstring).

(** A value of the source as the table offers it: that of the field itself, not of the expression in its place. *)
Record offered (s : ResolutionSelection) : Prop := {
  o_source : s_source s = source;
  o_diffs : exists d, mget diffs (s_model s) = Some d /\ s_value s = upstream_value d (s_type s) source /\
    getPreferredSyncField d (s_type s) source = s_type s;
  o_value : isSelectableUpstreamValue (s_value s) = true
}.

Lemma offered_resolved s d : offered s -> mget diffs (s_model s) = Some d ->
  resolved_type (Some d) s = s_type s /\ resolved_value (Some d) s = s_value s.
Proof.
  intros [Hs (d' & Hd & _ & Hp) _] E. rewrite E in Hd. injection Hd as <-.
  assert (resolved_type (Some d) s = s_type s) as Ht by (unfold resolved_type; rewrite Hs; exact Hp).
  split; [done|]. unfold resolved_value. by rewrite Ht, jeqb_refl.
Qed.

Lemma offered_resolve s : offered s -> resolveResolutionSelection diffs s = s.
Proof.
  intros Ho. destruct (o_diffs s Ho) as (d & Hd & _). destruct (offered_resolved s d Ho Hd) as [Ht Hv].
  unfold resolveResolutionSelection. rewrite Hd, Ht, Hv. by destruct s.
Qed.

(** Two selections that do not push each other out. *)
Definition together (a b : ResolutionSelection) : Prop :=
  s_model a = s_model b -> excludes (getBillingCategory (s_type a)) (s_type b) = false.

Lemma excludes_sym a b : excludes (getBillingCategory a) b = excludes (getBillingCategory b) a.
Proof. unfold excludes. by destruct (getBillingCategory a), (getBillingCategory b). Qed.

Lemma together_sym a b : together a b -> together b a.
Proof. intros H E. rewrite excludes_sym. by apply H. Qed.

Lemma together_self a : together a a.
Proof. intros _. unfold excludes. destruct (getBillingCategory (s_type a)); by vm_compute. Qed.

Definition all_together (m : list (jstring * ResolutionSelection)) : Prop :=
  forall a b, a ∈ map snd m -> b ∈ map snd m -> together a b.

Lemma mset_values {V} (m : list (jstring * V)) k v x : x ∈ map snd (mset m k v) -> x = v \/ x ∈ map snd m.
Proof.
  induction m as [|[k0 v0] m IH]; cbn; [by intros ->%list_elem_of_singleton; left|]. destruct (decide (k0 = k)); cbn; rewrite !elem_of_cons.
  - intros [->|H]; [by left|right; by right].
  - intros [->|H]; [right; by left|]. destruct (IH H); [by left|right; by right].
Qed.

(** What lasts of offered values is offered, does not push itself out, and comes from them. *)
Lemma effective_offered sels : forall m, all_together m -> Forall offered sels ->
  let m' := fold_left (add_effective diffs) sels m in
  all_together m' /\ forall s, s ∈ map snd m' -> s ∈ map snd m \/ s ∈ sels.
Proof.
  induction sels as [|s sels IH]; intros m Hm Ho; [split; [done|]; intros s H; by left|]. apply Forall_cons in Ho as [Hs Ho]. cbn [fold_left].
  set (m1 := List.filter (fun e => negb (jeqb (s_model e.2) (s_model s) && excludes (getBillingCategory (s_type s)) (s_type e.2))) m).
  assert (add_effective diffs m s = mset m1 (selection_key s) s) as -> by (unfold add_effective; by rewrite (offered_resolve s Hs)).
  assert (forall x, x ∈ map snd m1 -> x ∈ map snd m /\ together s x) as H1.
  { intros x ([k y] & -> & Hin)%list_elem_of_fmap. apply list_elem_of_In, filter_In in Hin as [Hin E]. cbn in *. split.
    - apply list_elem_of_fmap. exists (k, y). split; [done|]. by apply list_elem_of_In.
    - intros Hmod. rewrite <- Hmod, jeqb_refl in E. cbn in E. by apply negb_true_iff in E. }
  destruct (IH (mset m1 (selection_key s) s)) as [Ht Hin]; [|done|split; [done|]].
  - intros a b [->|Ha]%mset_values [->|Hb]%mset_values; [apply together_self|by apply H1|by apply together_sym, H1|by apply Hm; apply H1].
  - intros x Hx. destruct (Hin x Hx) as [H|H]; [|right; by right]. apply mset_values in H as [->|H]; [right; by left|left; by apply H1].
Qed.

(** A selection puts its value in the draft, and leaves those that go with it. *)
Lemma offered_set s d draft : offered s -> mget diffs (s_model s) = Some d ->
  mget (select_in_draft (Some d) s draft) (s_type s) = Some (s_value s).
Proof.
  intros Ho Hd. destruct (offered_resolved s d Ho Hd) as [Ht Hv]. destruct (o_diffs s Ho) as (d' & Hd' & Hval & _).
  rewrite Hd in Hd'. injection Hd' as <-. pose proof (o_value s Ho) as Hsel. rewrite Hval in Hsel.
  destruct (decide (getBillingCategory (resolved_type (Some d) s) = Tiered)) as [E|E].
  - rewrite select_tiered, with_tiered_get, Ht, (o_source s Ho), mget_mset by done. rewrite Ht in E.
    destruct (decide (billing_expr = s_type s)) as [Ee|Ee]; [rewrite Ee, Hsel; by rewrite Hval|].
    destruct (decide (billing_mode = s_type s)) as [Em|Em]; [rewrite Em, Hsel; by rewrite Hval|].
    rewrite Hv. by destruct (decide _).
  - rewrite select_plain, Ht, Hv by done. by rewrite decide_True.
Qed.

Lemma offered_keep s y d draft : offered s -> offered y -> s_model y = s_model s -> together y s -> mget diffs (s_model s) = Some d ->
  mget draft (s_type s) = Some (s_value s) -> mget (select_in_draft (Some d) y draft) (s_type s) = Some (s_value s).
Proof.
  intros Hs Hy Hm Hty Hd Hdraft. pose proof (Hty Hm) as Hx.
  assert (mget diffs (s_model y) = Some d) as Hdy by (by rewrite Hm).
  destruct (offered_resolved y d Hy Hdy) as [Ht Hv]. destruct (o_diffs s Hs) as (d' & Hd' & Hval & _). rewrite Hd in Hd'. injection Hd' as <-.
  destruct (o_diffs y Hy) as (d'' & Hd'' & Hvy & _). rewrite Hdy in Hd''. injection Hd'' as <-.
  pose proof (o_value s Hs) as Hsel. rewrite Hval in Hsel.
  destruct (decide (getBillingCategory (resolved_type (Some d) y) = Tiered)) as [E|E].
  - rewrite select_tiered, with_tiered_get, (o_source y Hy), mget_mset by done.
    destruct (decide (billing_expr = s_type s)) as [Ee|Ee]; [rewrite Ee, Hsel; by rewrite Hval|].
    destruct (decide (billing_mode = s_type s)) as [Em|Em]; [rewrite Em, Hsel; by rewrite Hval|].
    rewrite Ht, Hv. destruct (decide (s_type y = s_type s)) as [Es|Es]; [|done]. by rewrite Hvy, Hval, Es.
  - rewrite select_plain, Ht, Hv by done. rewrite Ht in E. destruct (decide (s_type y = s_type s)) as [Es|Es]; [by rewrite Hvy, Hval, Es|].
    by rewrite Hx.
Qed.

(** Offered values that go together are all in the draft after they were selected one after the other. *)
Lemma offered_all ss d s : forall draft, Forall (fun y => offered y /\ s_model y = s_model s /\ together y s) ss -> offered s ->
  mget diffs (s_model s) = Some d -> s ∈ ss \/ mget draft (s_type s) = Some (s_value s) ->
  mget (select_all (Some d) ss draft) (s_type s) = Some (s_value s).
Proof.
  induction ss as [|y ss IH]; intros draft Hss Ho Hd Hin; [by destruct Hin as [[]%elem_of_nil|H]|].
  apply Forall_cons in Hss as [(Hy & Hmy & Hty) Hss]. unfold select_all. cbn [fold_left]. apply IH; [done|done|done|].
  destruct Hin as [[->|Hin]%elem_of_cons|Hin]; [right; by apply offered_set|by left|right; by apply offered_keep].
Qed.

(** Every one of them is what is selected afterwards. *)
Lemma effective_selected sels s : Forall offered sels -> forall res,
  let effective := getEffectiveResolutionSelections diffs sels in
  s ∈ effective -> selected_value (applyResolutionSelections res diffs effective) (s_model s) (s_type s) = Some (s_value s).
Proof.
  intros Hsels res effective Hs. destruct (effective_offered sels [] ltac:(by intros a b []%elem_of_nil) Hsels) as [Ht Hin].
  assert (forall x, x ∈ effective -> offered x) as Hoff.
  { intros x Hx. destruct (Hin x Hx) as [[]%elem_of_nil|H]. rewrite Forall_forall in Hsels. by apply Hsels. }
  unfold selected_value. rewrite apply_get. destruct (o_diffs s (Hoff s Hs)) as (d & Hd & _).
  assert (s ∈ of_model (s_model s) effective) as Hsm by (unfold of_model; rewrite list_elem_of_In, filter_In, <- list_elem_of_In; by rewrite jeqb_refl).
  destruct (of_model (s_model s) effective) as [|x xs] eqn:E; [by apply elem_of_nil in Hsm|]. rewrite Hd. apply offered_all; [|by apply Hoff|done|by left].
  rewrite <- E. apply List.Forall_forall. intros y [Hy Em]%filter_In. apply jeqb_eq in Em. rewrite <- list_elem_of_In in Hy.
  split; [by apply Hoff|]. split; [done|]. by apply Ht.
Qed.
End Bulk.

Lemma filtered_rows lower diffs search f : NoDup (map fst diffs) ->
  Forall (fun row => mget diffs row.1 = Some row.2) (filteredData lower diffs search f).
Proof.
  intros Hn. apply List.Forall_forall. intros [m d] H. apply In_mget; [done|]. unfold filteredData in H.
  repeat case_match; repeat (apply filter_In in H as [H _]); done.
Qed.

Lemma bulk_offered diffs rows source f : Forall (fun row => mget diffs row.1 = Some row.2) rows ->
  Forall (offered diffs source) (bulk_selections rows source f).
Proof.
  intros Hr. apply List.Forall_forall. intros s Hs. unfold bulk_selections in Hs. apply in_flat_map in Hs as ([m d] & Hrow & Hs).
  rewrite List.Forall_forall in Hr. specialize (Hr _ Hrow). cbn in Hr. unfold row_selections in Hs. apply in_flat_map in Hs as (t & Ht & Hs).
  cbn [fst snd] in *. destruct (isSelectableUpstreamValue (upstream_value d t source)) eqn:E; [|done]. destruct Hs as [<-|[]].
  split; [done| |done]. exists d. split; [done|]. split; [done|]. cbn. unfold getAlignedRatioTypes in Ht. apply filter_In in Ht as [_ Ht].
  apply bool_decide_eq_true in Ht. cbn [flat_map] in Ht. rewrite app_nil_r in Ht. apply list_elem_of_In, filter_In in Ht as [_ Ht]. by apply jeqb_eq in Ht.
Qed.

(** A value that can be compared with itself: numeric where the field is. *)
Definition comparable (s : ResolutionSelection) : Prop :=
  if bool_decide (s_type s ∈ NUMERIC_SYNC_FIELDS) then isFinite (as_number (s_value s)) = true
  else strictly_equal (s_value s) (s_value s) = true.

Lemma num_eqb_refl n : isFinite n = true -> num_eqb n n = true.
Proof. destruct n; try done. intros _. cbn. apply Qeq_bool_iff. reflexivity. Qed.

Lemma selected_shows res s : comparable s -> isSelectableUpstreamValue (s_value s) = true ->
  selected_value res (s_model s) (s_type s) = Some (s_value s) ->
  isSelectedResolutionValue res (s_model s) (s_type s) (s_value s) = true.
Proof.
  intros Hc Hs Hv. unfold isSelectedResolutionValue. rewrite Hs, Hv. cbn [negb]. unfold comparable in Hc. destruct (bool_decide _); [|done].
  rewrite Hc. cbn. by apply num_eqb_refl.
Qed.

Lemma removed_value res plan s : NoDup (map fst plan) -> planned plan (s_model s) (s_type s) ->
  selected_value (applyResolutionRemovalPlan res plan) (s_model s) (s_type s) = None.
Proof.
  intros Hn (ts & Hts & Ht). unfold selected_value. rewrite removal_get, Hts by done. destruct (mget res (s_model s)) as [d|]; [|done].
  unfold left_of. assert (mget (remove_fields ts d) (s_type s) = None) as H.
  { rewrite remove_get, bool_decide_true; [done|]. apply list_elem_of_In, in_flat_map. exists (s_type s).
    split; [by apply list_elem_of_In|]. by left. }
  by destruct (remove_fields ts d).
Qed.

Lemma plan_keys sels : forall plan, NoDup (map fst plan) -> NoDup (map fst (fold_left (fun plan s => plan_add plan (s_model s) (s_type s)) sels plan)).
Proof. induction sels as [|s sels IH]; intros plan H; [done|]. cbn. apply IH. by apply mset_NoDup. Qed.

(** A plan has fields for each of its models. *)
Lemma planned_some sels : forall plan model, (forall m, mget plan m <> Some []) ->
  mget (fold_left (fun plan s => plan_add plan (s_model s) (s_type s)) sels plan) model <> Some [].
Proof.
  induction sels as [|x l IH]; intros plan m Hp; [apply Hp|]. cbn. apply IH. intros m'. unfold plan_add. rewrite mget_mset.
  case_decide; [|apply Hp]. destruct (mget plan (s_model x)) as [ts|] eqn:Et; [|done]. unfold sadd. case_bool_decide; [|by destruct ts].
  intros [= ->]. by apply (Hp (s_model x)).
Qed.

Lemma bulk_in_rows rows source f s : s ∈ bulk_selections rows source f -> s_model s ∈ map fst rows.
Proof.
  intros Hs. apply list_elem_of_In, in_flat_map in Hs as (row & Hrow & Hs). apply in_flat_map in Hs as (t & _ & Hs). cbv zeta in Hs.
  destruct (isSelectableUpstreamValue (upstream_value row.2 t source)); [|done]. destruct Hs as [<-|[]]. cbn. by apply list_elem_of_In, in_map.
Qed.

(** The box in the head of a source's column does what it shows.  After it is ticked, every value it counts is selected; after it is
    cleared none is - whatever was selected before, whatever is searched for and whatever field the table is filtered by - and models
    that the table does not show under the filter keep what is selected for them. *)
Theorem bulk_toggle (lower : jstring -> jstring) (diffs : DifferencesMap) (res : ResolutionsMap) (source search f : jstring) :
  NoDup (map fst diffs) -> Forall comparable (bulk_selections (filteredData lower diffs search f) source f) ->
  let rows := filteredData lower diffs search f in
  let st := bulkSelectState diffs rows res source f in
  let ticked := applyResolutionSelections res diffs (b_selections st) in
  let cleared := applyResolutionRemovalPlan res (b_removalPlan st) in
  b_selectedCount (bulkSelectState diffs rows ticked source f) = length (b_selections st) /\
  b_selectedCount (bulkSelectState diffs rows cleared source f) = 0%nat /\
  forall model, model ∉ map fst rows -> mget ticked model = mget res model /\ mget cleared model = mget res model.
Proof.
  intros Hn Hc rows st ticked cleared. pose proof (bulk_offered diffs rows source f (filtered_rows lower diffs search f Hn)) as Ho.
  set (sels := bulk_selections rows source f) in *. set (eff := getEffectiveResolutionSelections diffs sels).
  destruct (effective_offered diffs source sels [] ltac:(by intros a b []%elem_of_nil) Ho) as [_ Hin].
  assert (forall s, s ∈ eff -> s ∈ sels) as Hsub by (intros s Hs; by destruct (Hin s Hs) as [[]%elem_of_nil|H]).
  pose proof (fun s => bulk_in_rows rows source f s) as Hmod. fold sels in Hmod.
  assert (NoDup (map fst (b_removalPlan st))) as Hpn by (apply plan_keys, NoDup_nil_2).
  rewrite Forall_forall in Hc, Ho. split; [|split].
  - cbn [bulkSelectState b_selectedCount b_selections st]. fold sels eff. f_equal. apply Forall_true_filter. apply Forall_forall. intros s Hs.
    apply selected_shows; [by apply Hc, Hsub|apply (o_value diffs source), Ho, Hsub, Hs|].
    apply (effective_selected diffs source sels); [by apply Forall_forall|done].
  - cbn [bulkSelectState b_selectedCount]. fold sels eff. rewrite Forall_false_filter; [done|]. apply Forall_forall. intros s Hs.
    unfold isSelectedResolutionValue, cleared. rewrite removed_value; [by destruct (negb _)|done|].
    apply planned_all. right. exists s. split; [by apply Hsub|done].
  - intros model Hm. split.
    + unfold ticked. rewrite apply_get. destruct (of_model model (b_selections st)) as [|s ss] eqn:E; [done|]. exfalso. apply Hm.
      assert (In s (of_model model (b_selections st))) as [Hs Em]%filter_In by (rewrite E; by left). apply jeqb_eq in Em as <-.
      apply Hmod, Hsub. by apply list_elem_of_In.
    + unfold cleared. rewrite removal_get by done. destruct (mget (b_removalPlan st) model) as [ts|] eqn:E; [|by destruct (mget res model)].
      exfalso. apply Hm. destruct ts as [|t ts]; [by destruct (planned_some sels [] model ltac:(done) E)|].
      assert (planned (b_removalPlan st) model t) as Hp by (exists (t :: ts); split; [done|by left]).
      apply planned_all in Hp as [(ts' & [=] & _)|(s & Hs & <- & _)]. by apply Hmod.
Qed.

(** ** The updater that runs twice

    The rows of the differences are objects that the updater after a sync changes in place: the copy it returns shares them with
    the state it was given.  [shown] are the models of a state, [rows] the objects they name. *)
Definition drop_in_place (resolutions : ResolutionsMap) (shown : list jstring) (rows : DifferencesMap) : list jstring * DifferencesMap :=
  fold_left (fun w e => fold_left (fun (w : list jstring * DifferencesMap) (r : jstring * jsval) =>
      let (shown, rows) := w in
      match (if bool_decide (e.1 ∈ shown) then mget rows e.1 else None) with
      | Some d => match mget d r.1 with
          | Some _ => let d' := mdel d r.1 in
              (match d' with [] => List.filter (fun m => negb (jeqb m e.1)) shown | _ => shown end, mset rows e.1 d')
          | None => w
          end
      | None => w
      end) e.2 w) resolutions (shown, rows).

(** ** On concrete prices *)

Definition offer (v : Z) : RatioDifference :=
  {| current := JNull; upstreams := [(js "up(1)", JNum (num_of_Z v)); (js "other(2)", JStr (js "same"))] |}.
Definition sample_diffs : DifferencesMap :=
  [(js "gpt", [(model_price, offer 7); (js "model_ratio", offer 2); (js "completion_ratio", offer 3)]);
   (js "video", [(js "model_ratio", offer 4);
     (billing_expr, {| current := JNull; upstreams := [(js "up(1)", JStr (js "tier(1)"))] |})])].

Definition picked (model : string) (t : RatioType) (v : Z) : ResolutionSelection :=
  {| s_model := js model; s_type := t; s_value := JNum (num_of_Z v); s_source := js "up(1)" |}.

(** A price by amount takes the place of the ratios; a field of a model with an expression selects the expression and its mode. *)
Example selecting :
  applyResolutionSelections [] sample_diffs [picked "gpt" (js "model_ratio") 2; picked "gpt" model_price 7; picked "video" (js "model_ratio") 4] =
  [(js "gpt", [(model_price, JNum (num_of_Z 7))]);
   (js "video", [(billing_expr, JStr (js "tier(1)")); (billing_mode, JStr (js "tiered_expr"))])].
Proof. by vm_compute. Qed.

(** An expression that was selected stays when a price is selected after it: both are saved, and the mode keeps the expression in force. *)
Example price_under_expression :
  applyResolutionSelections [] sample_diffs
    [picked "video" (js "model_ratio") 4;
     {| s_model := js "video"; s_type := model_price; s_value := JNum (num_of_Z 9); s_source := js "other(2)" |}] =
  [(js "video", [(billing_expr, JStr (js "tier(1)")); (billing_mode, JStr (js "tiered_expr")); (model_price, JNum (num_of_Z 9))])].
Proof. by vm_compute. Qed.

(** The updater run twice on one state, as in development, leaves a model without fields. *)
Example updater_runs_twice : let res := [(js "m", [(model_price, JNum (num_of_Z 7))])] in
  let rows := [(js "m", [(model_price, offer 7)])] in
  (drop_in_place res [js "m"] rows).1 = [] /\
  drop_in_place res [js "m"] (drop_in_place res [js "m"] rows).2 = ([js "m"], [(js "m", [])]).
Proof. by vm_compute. Qed.

(** A model of the default prices, with an amount and ratios: an amount is selected, the page syncs at once, and the ratios are gone. *)
Definition both_ways : Options :=
  map (fun key => (key, if jeqb key ModelPrice then [(js "gpt-4o-mini-tts", JNum (num_of_Z 3))]
                        else if jeqb key (js "CompletionRatio") then [(js "gpt-4o-mini-tts", JNum (num_of_Z 1))] else [])) option_keys.

Example both_ways_loses_ratios :
  let page := sync_run [Fetched [(js "gpt-4o-mini-tts", [(model_price, offer 7)])]; SelectValues [picked "gpt-4o-mini-tts" model_price 7]] in
  exists updates final, handleApplySync (fun s => s) (differences page) (resolutions page) both_ways = SyncsNow updates /\
    sync_models (resolutions page) both_ways = Ret final /\
    cell both_ways (js "CompletionRatio") (js "gpt-4o-mini-tts") = Some (JNum (num_of_Z 1)) /\
    cell final (js "CompletionRatio") (js "gpt-4o-mini-tts") = None.
Proof. eexists _, _. split; [by vm_compute|]. split; [by vm_compute|]. split; by vm_compute. Qed.

Definition synced_page : sync_page :=
  sync_run [Fetched sample_diffs; SelectValues [picked "gpt" (js "model_ratio") 2; picked "gpt" (js "completion_ratio") 3]].

Lemma synced_page_reachable : reachable_page synced_page.
Proof.
  apply (page_stepped (sync_run [Fetched sample_diffs])
    (SelectValues [picked "gpt" (js "model_ratio") 2; picked "gpt" (js "completion_ratio") 3])).
  - apply (page_stepped {| differences := []; resolutions := [] |} (Fetched sample_diffs)); [apply page_opened|done].
  - apply Forall_cons_2; [split; [apply (bool_decide_unpack _); by vm_compute|by eexists]|].
    apply Forall_cons_2; [split; [apply (bool_decide_unpack _); by vm_compute|by eexists]|by apply Forall_nil_2].
Qed.

Definition local_prices : Options := parsedRatios [(ModelPrice, JSON_stringify (JObj [(js "old", JNum (num_of_Z 1))]))].

Lemma local_one_price model : one_price local_prices model.
Proof.
  right. intros key H. assert (Forall (fun k => forall m, cell local_prices k m = None) ratio_options) as Hf
    by (repeat (apply Forall_cons_2; [intros m; by vm_compute|]); apply Forall_nil_2).
  rewrite Forall_forall in Hf. by apply Hf.
Qed.

Lemma sync_takes_selection_witness : exists final, performSync (resolutions synced_page) local_prices =
  Ret (map (fun e => (e.1, JSON_stringify_2 (JObj e.2))) final) /\ forall model, one_price final model.
Proof.
  destruct (sync_takes_selection synced_page local_prices synced_page_reachable eq_refl) as (final & E & _ & _ & H).
  exists final. split; [exact E|]. intros model. apply H, local_one_price.
Defined.

Lemma no_silent_removal_witness : exists updates,
  handleApplySync (fun s => s) (differences synced_page) (resolutions synced_page) local_prices = SyncsNow updates /\
  exists final, updates = Ret (map (fun e => (e.1, JSON_stringify_2 (JObj e.2))) final) /\ is_Some (cell final ModelPrice (js "old")).
Proof.
  eexists. split; [vm_compute; reflexivity|].
  destruct (no_silent_removal (fun s => s) synced_page local_prices _ synced_page_reachable eq_refl ltac:(vm_compute; reflexivity)) as (final & E & H).
  exists final. split; [exact E|].
  destruct (H ModelPrice (js "old")) as [Hf|(_ & _ & _ & Hf)]; [apply elem_of_app; right; by left|by eexists|exact Hf|exact Hf].
Defined.

Lemma bulk_toggle_witness :
  let rows := filteredData (fun s => s) sample_diffs [] [] in
  let st := bulkSelectState sample_diffs rows [] (js "up(1)") [] in
  length (b_selections st) = 2%nat /\
  b_selectedCount (bulkSelectState sample_diffs rows (applyResolutionSelections [] sample_diffs (b_selections st)) (js "up(1)") []) = 2%nat.
Proof.
  split; [by vm_compute|].
  refine (proj1 (bulk_toggle (fun s => s) sample_diffs [] (js "up(1)") [] [] _ _)); [apply (bool_decide_unpack _); by vm_compute|].
  repeat apply Forall_cons_2; try apply Forall_nil_2; by vm_compute.
Defined.
