(* ===== verification/Base64.v ===== *)
(** * Base64

    The two functions of the language that turn bytes into text and back, [btoa] and [atob], on texts of code units
    below 256; passkeys and the uploads of the media studio are built on them. *)

From S2P Require Import Prelude JsText.
#[global] Open Scope Z_scope.

(** Sixty-four digits as characters, and back. *)
Definition digit64 (n : N) : N :=
  (if n <? 26 then 65 + n else if n <? 52 then 71 + n else if n <? 62 then n - 4 else if n =? 62 then 43 else 47)%N.

Definition value64 (c : N) : option N :=
  (if (65 <=? c) && (c <=? 90) then Some (c - 65)
   else if (97 <=? c) && (c <=? 122) then Some (c - 71)
   else if (48 <=? c) && (c <=? 57) then Some (c + 4)
   else if c =? 43 then Some 62 else if c =? 47 then Some 63 else None)%N.

(** Three bytes are four digits; the last one or two bytes are two or three. *)
Fixpoint digits64 (bytes : list N) : list N :=
  (match bytes with
   | a :: b :: c :: rest => a / 4 :: a mod 4 * 16 + b / 16 :: b mod 16 * 4 + c / 64 :: c mod 64 :: digits64 rest
   | [a; b] => [a / 4; a mod 4 * 16 + b / 16; b mod 16 * 4]
   | [a] => [a / 4; a mod 4 * 16]
   | [] => []
   end)%N.

Fixpoint bytes64 (digits : list N) : option (list N) :=
  (match digits with
   | p :: q :: r :: s :: rest =>
       match bytes64 rest with
       | Some l => Some (p * 4 + q / 16 :: q mod 16 * 16 + r / 4 :: r mod 4 * 64 + s :: l)
       | None => None
       end
   | [p; q; r] => Some [p * 4 + q / 16; q mod 16 * 16 + r / 4]
   | [p; q] => Some [p * 4 + q / 16]
   | [_] => None
   | [] => Some []
   end)%N.

Definition ch_pad : N := 61.
(** The number of padding characters after [n] digits. *)
Definition padding (n : nat) : nat := (4 - n mod 4) mod 4.

(** [btoa]: throws where a unit is no byte. *)
Definition btoa (bytes : jstring) : exc jstring :=
  if forallb (fun b => (b <? 256)%N) bytes
  then let d := digits64 bytes in Ret (map digit64 d ++ repeat ch_pad (padding (length d)))
  else Throw.

Definition ascii_ws (c : N) : bool := ((c =? 9) || (c =? 10) || (c =? 12) || (c =? 13) || (c =? 32))%N.

(** One or two padding characters at the end of a text whose length is a multiple of four. *)
Definition unpad (s : jstring) : jstring :=
  if (length s mod 4 =? 0)%nat then
    match rev s with
    | 61%N :: 61%N :: r => rev r
    | 61%N :: r => rev r
    | _ => s
    end
  else s.

Fixpoint values64 (s : jstring) : option (list N) :=
  match s with
  | [] => Some []
  | c :: s' => match value64 c, values64 s' with Some v, Some l => Some (v :: l) | _, _ => None end
  end.

(** [atob]: white space is skipped; throws on other characters, and on a single digit at the end. *)
Definition atob (text : jstring) : exc jstring :=
  match values64 (unpad (List.filter (fun c => negb (ascii_ws c)) text)) with
  | Some d => match bytes64 d with Some l => Ret l | None => Throw end
  | None => Throw
  end.

Example base64_texts : (btoa (js "Man"), btoa (js "Ma"), btoa (js "M"), btoa [256%N], atob (js " TW Fu"), atob (js "TQ=="), atob (js "TQ"), atob (js "T")) =
  (Ret (js "TWFu"), Ret (js "TWE="), Ret (js "TQ=="), Throw, Ret (js "Man"), Ret (js "M"), Ret (js "M"), Throw).
Proof. by vm_compute. Qed.

(** ** Reading back *)

Definition is_byte (b : N) : Prop := (b < 256)%N.

Lemma unpack (x y k : N) : (y < k -> (x * k + y) / k = x /\ (x * k + y) mod k = y)%N.
Proof.
  intros H. rewrite N.div_add_l, N.div_small, N.add_0_r by lia. split; [done|].
  rewrite N.add_comm, N.Div0.mod_add. by apply N.mod_small.
Qed.

Lemma div_mod_bytes (a b c : N) : is_byte a -> is_byte b -> is_byte c ->
  (a / 4 * 4 + (a mod 4 * 16 + b / 16) / 16 = a /\ (a mod 4 * 16 + b / 16) mod 16 * 16 + (b mod 16 * 4 + c / 64) / 4 = b /\
   (b mod 16 * 4 + c / 64) mod 4 * 64 + c mod 64 = c /\ a / 4 < 64 /\ a mod 4 * 16 + b / 16 < 64 /\ b mod 16 * 4 + c / 64 < 64 /\ c mod 64 < 64)%N.
Proof.
  unfold is_byte. intros Ha Hb Hc.
  pose proof (N.Div0.div_lt_upper_bound a 4 64 ltac:(lia)). pose proof (N.Div0.div_lt_upper_bound b 16 16 ltac:(lia)).
  pose proof (N.Div0.div_lt_upper_bound c 64 4 ltac:(lia)). pose proof (N.mod_upper_bound a 4 ltac:(lia)).
  pose proof (N.mod_upper_bound b 16 ltac:(lia)). pose proof (N.mod_upper_bound c 64 ltac:(lia)).
  pose proof (N.div_mod a 4 ltac:(lia)). pose proof (N.div_mod b 16 ltac:(lia)). pose proof (N.div_mod c 64 ltac:(lia)).
  destruct (unpack (a mod 4) (b / 16) 16) as [-> ->]; [lia|]. destruct (unpack (b mod 16) (c / 64) 4) as [-> ->]; [lia|]. lia.
Qed.

(** Three bytes at a time. *)
Lemma three_ind (P : list N -> Prop) :
  P [] -> (forall a, P [a]) -> (forall a b, P [a; b]) -> (forall a b c l, P l -> P (a :: b :: c :: l)) -> forall l, P l.
Proof.
  intros H0 H1 H2 H3. fix IH 1. intros [|a [|b [|c l]]]; [exact H0|apply H1|apply H2|apply H3, IH].
Qed.

Lemma digits_read bytes : Forall is_byte bytes -> bytes64 (digits64 bytes) = Some bytes /\ Forall (fun d => (d < 64)%N) (digits64 bytes).
Proof.
  induction bytes as [|a|a b|a b c l IH] using three_ind; intros H.
  - by split.
  - apply Forall_inv in H. destruct (div_mod_bytes a 0 0 H) as (E & _ & _ & L1 & L2 & _); [done|done|]. change (0 / 16)%N with 0%N in *.
    rewrite N.add_0_r in E, L2. cbn [digits64 bytes64]. rewrite E. split; [done|]. by repeat constructor.
  - apply Forall_cons in H as [Ha H]. apply Forall_inv in H. destruct (div_mod_bytes a b 0 Ha H) as (E1 & E2 & _ & L1 & L2 & L3 & _); [done|].
    change (0 / 64)%N with 0%N in *. rewrite N.add_0_r in E2, L3. cbn [digits64 bytes64]. rewrite E1, E2. split; [done|]. by repeat constructor.
  - apply Forall_cons in H as [Ha H]. apply Forall_cons in H as [Hb H]. apply Forall_cons in H as [Hc H].
    destruct (div_mod_bytes a b c Ha Hb Hc) as (E1 & E2 & E3 & L1 & L2 & L3 & L4). destruct (IH H) as [Hr Hf].
    cbn [digits64 bytes64]. rewrite Hr, E1, E2, E3. split; [done|]. by repeat apply Forall_cons_2.
Qed.

(** The digits, up to sixty-three, one by one. *)
Lemma each_digit (p : N -> bool) n : forallb p (map N.of_nat (seq 0 64)) = true -> (n < 64)%N -> p n = true.
Proof.
  intros H Hn. rewrite forallb_forall in H. apply H. apply in_map_iff. exists (N.to_nat n). rewrite N2Nat.id, in_seq. split; [done|lia].
Qed.

Lemma digit_value n : (n < 64)%N -> value64 (digit64 n) = Some n.
Proof.
  intros H. apply (each_digit (fun n => bool_decide (value64 (digit64 n) = Some n))) in H; [|by vm_compute].
  by apply bool_decide_eq_true in H.
Qed.

Lemma digit_plain n : (n < 64)%N -> digit64 n <> ch_pad /\ ascii_ws (digit64 n) = false.
Proof.
  intros H. apply (each_digit (fun n => negb (digit64 n =? ch_pad)%N && negb (ascii_ws (digit64 n)))) in H; [|by vm_compute].
  apply andb_true_iff in H as [H1%negb_true_iff%N.eqb_neq H2%negb_true_iff]. done.
Qed.

Lemma digits_values d : Forall (fun d => (d < 64)%N) d -> values64 (map digit64 d) = Some d.
Proof. induction 1 as [|n d Hn _ IH]; [done|]. cbn. by rewrite digit_value, IH. Qed.

Lemma unpad_digits s k : Forall (fun c => c <> ch_pad) s -> k = padding (length s) -> (length s mod 4)%nat <> 1%nat -> unpad (s ++ repeat ch_pad k) = s.
Proof.
  intros Hs -> Hl. unfold unpad, padding. rewrite length_app, repeat_length.
  assert (forall x, In x (rev s) -> x <> ch_pad) as Hr.
  { intros x Hx. apply in_rev in Hx. rewrite List.Forall_forall in Hs. auto. }
  pose proof (Nat.mod_upper_bound (length s) 4 ltac:(lia)) as Hb.
  assert (length s mod 4 = 0 \/ length s mod 4 = 2 \/ length s mod 4 = 3)%nat as [E|[E|E]] by lia; rewrite E.
  - change ((4 - 0) mod 4)%nat with 0%nat. cbn [repeat]. rewrite app_nil_r, Nat.add_0_r, E. cbn [Nat.eqb]. destruct (rev s) as [|c r] eqn:Er; [done|].
    assert (c <> ch_pad) as Hc by (apply Hr; by left). unfold ch_pad in Hc. repeat (case_match; try done).
  - change ((4 - 2) mod 4)%nat with 2%nat. replace ((length s + 2) mod 4)%nat with 0%nat by (rewrite Nat.Div0.add_mod, E; done). cbn [Nat.eqb]. rewrite rev_app_distr. cbn. apply rev_involutive.
  - change ((4 - 3) mod 4)%nat with 1%nat. replace ((length s + 1) mod 4)%nat with 0%nat by (rewrite Nat.Div0.add_mod, E; done). cbn [Nat.eqb]. rewrite rev_app_distr. cbn.
    destruct (rev s) as [|c r] eqn:Er; [by rewrite <- (rev_involutive s), Er|].
    assert (c <> ch_pad) as Hc by (apply Hr; by left). unfold ch_pad in Hc. rewrite <- (rev_involutive s), Er. repeat (case_match; try done).
Qed.

Lemma digits_length bytes : (length (digits64 bytes) mod 4)%nat <> 1%nat.
Proof.
  induction bytes as [|a|a b|a b c l IH] using three_ind; try done. cbn [digits64 length].
  replace (S (S (S (S (length (digits64 l)))))) with (length (digits64 l) + 1 * 4)%nat by lia. by rewrite Nat.Div0.mod_add.
Qed.

Lemma plain_filter s : Forall (fun c => ascii_ws c = false) s -> List.filter (fun c => negb (ascii_ws c)) s = s.
Proof. intros H. apply Forall_true_filter. eapply Forall_impl; [exact H|]. by intros x ->. Qed.

(** A text of digits with its padding is the bytes again. *)
Lemma atob_digits bytes : Forall is_byte bytes ->
  atob (map digit64 (digits64 bytes) ++ repeat ch_pad (padding (length (digits64 bytes)))) = Ret bytes.
Proof.
  intros H. destruct (digits_read bytes H) as [Hr Hd]. unfold atob. rewrite plain_filter.
  - rewrite unpad_digits; [by rewrite digits_values, Hr| |by rewrite length_map|rewrite length_map; apply digits_length].
    apply Forall_map. eapply Forall_impl; [exact Hd|]. intros x Hx. by apply digit_plain.
  - apply Forall_app. split; [|by apply Forall_forall; intros x ->%list_elem_of_In%repeat_spec].
    apply Forall_map. eapply Forall_impl; [exact Hd|]. intros x Hx. by apply digit_plain.
Qed.

Lemma btoa_bytes bytes : Forall is_byte bytes ->
  btoa bytes = Ret (map digit64 (digits64 bytes) ++ repeat ch_pad (padding (length (digits64 bytes)))).
Proof.
  intros H. unfold btoa. replace (forallb _ bytes) with true; [done|]. symmetry. apply forallb_forall. intros x Hx.
  rewrite List.Forall_forall in H. by apply N.ltb_lt, H.
Qed.

Lemma atob_btoa bytes : Forall is_byte bytes -> ebind (btoa bytes) atob = Ret bytes.
Proof. intros H. rewrite btoa_bytes by done. by apply atob_digits. Qed.
