(* ===== verification/Passkey.v ===== *)
(** * Passkeys

    lib/passkey.ts: the text of credentials. The server writes bytes as base64url text, the browser wants buffers, and answers with buffers
    that go back as text; and whether the browser knows passkeys at all.  The two calls into the browser are not modelled. *)

From S2P Require Import Prelude JsValue JsText JsObject Base64.
#[global] Open Scope Z_scope.

(** ** Bytes as text *)

(** [base64UrlToArrayBuffer] on a value of unknown type. *)
Definition base64UrlToArrayBuffer (value : jsval) : exc (list N) :=
  if negb (jtruthy value) then Ret []
  else
    let pad := match value with JStr s => padding (length s) | JArr l => padding (length l) | _ => 0%nat end in
    ebind (String_of value) (fun text => atob (replace_unit 95 47 (replace_unit 45 43 (text ++ repeat ch_pad pad)))).

(** [/=+$/] removed. *)
Definition strip_padding (s : jstring) : jstring := rev (drop_while (fun c => (c =? ch_pad)%N) (rev s)).

Definition arrayBufferToBase64Url (buffer : option (list N)) : exc jstring :=
  match buffer with
  | None => Ret []
  | Some bytes => ebind (btoa bytes) (fun text => Ret (strip_padding (replace_unit 47 95 (replace_unit 43 45 text))))
  end.

(** ** What the browser is asked *)

(** Options with buffers in them. *)
Inductive option_value :=
| Plain (v : jsval)
| Buffer (bytes : list N)
| Object (fields : list (jstring * option_value))
| Objects (l : list option_value).

Definition option_members := list (jstring * option_value).

(** [{ ...v }]; only objects have members that are spread here. *)
Definition spread_options (v : jsval) : option_members :=
  match v with JObj fs => map (fun f => (f.1, Plain f.2)) fs | _ => [] end.

(** [payload?.publicKey ?? payload?.PublicKey ?? payload?.response ?? payload?.Response] *)
Definition payload_options (payload : jsval) : jsval :=
  vcoalesce (vcoalesce (vcoalesce (jget payload (js "publicKey")) (jget payload (js "PublicKey"))) (jget payload (js "response")))
    (jget payload (js "Response")).

Definition credential_item (item : jsval) : exc option_value :=
  match item with
  | JUndefined | JNull => Throw
  | _ => ebind (base64UrlToArrayBuffer (jget item (js "id"))) (fun id => Ret (Object (mset (spread_options item) (js "id") (Buffer id))))
  end.

(** A list of credentials, where there is one. *)
Definition with_credentials (key : jstring) (options : jsval) (out : option_members) : exc option_members :=
  match jget options key with
  | JArr l => ebind (emap credential_item l) (fun items => Ret (mset out key (Objects items)))
  | _ => Ret out
  end.

Definition drop_empty_formats (options : jsval) (out : option_members) : option_members :=
  match jget options (js "attestationFormats") with JArr [] => mdel out (js "attestationFormats") | _ => out end.

Definition prepareCredentialCreationOptions (payload : jsval) : exc option_members :=
  let options := payload_options payload in
  if negb (jtruthy options) then Throw
  else
    ebind (base64UrlToArrayBuffer (jget options (js "challenge"))) (fun challenge =>
    ebind (base64UrlToArrayBuffer (jget (jget options (js "user")) (js "id"))) (fun id =>
    let user := mset (spread_options (jget options (js "user"))) (js "id") (Buffer id) in
    let out := mset (mset (spread_options options) (js "challenge") (Buffer challenge)) (js "user") (Object user) in
    ebind (with_credentials (js "excludeCredentials") options out) (fun out => Ret (drop_empty_formats options out)))).

Definition prepareCredentialRequestOptions (payload : jsval) : exc option_members :=
  let options := payload_options payload in
  if negb (jtruthy options) then Throw
  else
    ebind (base64UrlToArrayBuffer (jget options (js "challenge"))) (fun challenge =>
    with_credentials (js "allowCredentials") options (mset (spread_options options) (js "challenge") (Buffer challenge))).

(** ** What the browser answers *)

(** The members of a credential that are sent; [None] is undefined or null. *)
Record AttestationCredential := {
  at_id : jstring; at_rawId : list N; at_type : jstring; at_attachment : option jstring; at_attestationObject : list N;
  at_clientDataJSON : list N; at_transports : option (list jstring); at_extensions : option members
}.
Record AssertionCredential := {
  as_id : jstring; as_rawId : list N; as_type : jstring; as_attachment : option jstring; as_authenticatorData : list N;
  as_clientDataJSON : list N; as_signature : list N; as_userHandle : option (list N); as_extensions : option members
}.

Definition optional_member (v : option jstring) : jsval := match v with Some s => JStr s | None => JUndefined end.

Definition buildRegistrationResult (credential : option AttestationCredential) : exc jsval :=
  match credential with
  | None => Ret JNull
  | Some c =>
      ebind (arrayBufferToBase64Url (Some (at_rawId c))) (fun rawId =>
      ebind (arrayBufferToBase64Url (Some (at_attestationObject c))) (fun attestationObject =>
      ebind (arrayBufferToBase64Url (Some (at_clientDataJSON c))) (fun clientDataJSON =>
      Ret (JObj [(js "id", JStr (at_id c)); (js "rawId", JStr rawId); (js "type", JStr (at_type c));
                 (js "authenticatorAttachment", optional_member (at_attachment c));
                 (js "response", JObj [(js "attestationObject", JStr attestationObject); (js "clientDataJSON", JStr clientDataJSON);
                    (js "transports", match at_transports c with Some l => JArr (map JStr l) | None => JUndefined end)]);
                 (js "clientExtensionResults", JObj (coalesce (at_extensions c) []))]))))
  end.

Definition buildAssertionResult (credential : option AssertionCredential) : exc jsval :=
  match credential with
  | None => Ret JNull
  | Some c =>
      ebind (arrayBufferToBase64Url (Some (as_rawId c))) (fun rawId =>
      ebind (arrayBufferToBase64Url (Some (as_authenticatorData c))) (fun authenticatorData =>
      ebind (arrayBufferToBase64Url (Some (as_clientDataJSON c))) (fun clientDataJSON =>
      ebind (arrayBufferToBase64Url (Some (as_signature c))) (fun signature =>
      ebind (match as_userHandle c with
             | Some b => ebind (arrayBufferToBase64Url (Some b)) (fun s => Ret (JStr s)) | None => Ret JNull end) (fun userHandle =>
      Ret (JObj [(js "id", JStr (as_id c)); (js "rawId", JStr rawId); (js "type", JStr (as_type c));
                 (js "authenticatorAttachment", optional_member (as_attachment c));
                 (js "response", JObj [(js "authenticatorData", JStr authenticatorData); (js "clientDataJSON", JStr clientDataJSON);
                    (js "signature", JStr signature); (js "userHandle", userHandle)]);
                 (js "clientExtensionResults", JObj (coalesce (as_extensions c) []))]))))))
  end.

(** ** Whether the browser knows passkeys *)

(** What [window.PublicKeyCredential] offers: the two questions that may be asked of it, where they are functions, with the outcome
    of their promises. *)
Record CredentialApi := {
  isConditionalMediationAvailable : option (exc bool);
  isUserVerifyingPlatformAuthenticatorAvailable : option (exc bool)
}.

(** [window], where there is one, and its [PublicKeyCredential]. *)
Definition isPasskeySupported (window : option (option CredentialApi)) : bool :=
  match window with
  | Some (Some api) =>
      match isConditionalMediationAvailable api with
      | Some (Ret true) => true
      | _ => match isUserVerifyingPlatformAuthenticatorAvailable api with
             | Some (Ret available) => available
             | Some Throw => false
             | None => true
             end
      end
  | _ => false
  end.

(** A question that fails never makes the check fail, and a browser that cannot be asked about its authenticator counts as able. *)
Lemma supported_spec window : isPasskeySupported window = true <->
  exists api, window = Some (Some api) /\
    (isConditionalMediationAvailable api = Some (Ret true) \/ isUserVerifyingPlatformAuthenticatorAvailable api = Some (Ret true) \/
     isUserVerifyingPlatformAuthenticatorAvailable api = None).
Proof.
  destruct window as [[[c p]|]|]; cbn; [|split; [done|by intros (? & ? & _)]..].
  split.
  - intros H. eexists. split; [reflexivity|]. cbn. destruct c as [[[|]|]|]; destruct p as [[[|]|]|]; auto; done.
  - intros (api & [= <-] & H). cbn in H. destruct c as [[[|]|]|]; destruct p as [[[|]|]|]; naive_solver.
Qed.

(** ** Reading back *)

(** The text of bytes: their digits in the alphabet of addresses. *)
Definition url_digit (n : N) : N := match n with 62%N => 45%N | 63%N => 95%N | _ => digit64 n end.
Definition url_text (bytes : list N) : jstring := map url_digit (digits64 bytes).

Lemma url_digit_spec n : (n < 64)%N ->
  (let c := digit64 n in let c := if (c =? 43)%N then 45%N else c in if (c =? 47)%N then 95%N else c) = url_digit n /\
  (let c := url_digit n in let c := if (c =? 45)%N then 43%N else c in if (c =? 95)%N then 47%N else c) = digit64 n /\ url_digit n <> ch_pad.
Proof.
  intros H. apply (each_digit (fun n => bool_decide ((let c := digit64 n in let c := if (c =? 43)%N then 45%N else c in if (c =? 47)%N then 95%N else c) = url_digit n)
    && bool_decide ((let c := url_digit n in let c := if (c =? 45)%N then 43%N else c in if (c =? 95)%N then 47%N else c) = digit64 n) &&
    negb (url_digit n =? ch_pad)%N)) in H; [|by vm_compute].
  rewrite !andb_true_iff, !bool_decide_eq_true, negb_true_iff, N.eqb_neq in H. destruct H as [[H1 H2] H3]. done.
Qed.

Lemma strip_pads s k : Forall (fun c => c <> ch_pad) s -> strip_padding (s ++ repeat ch_pad k) = s.
Proof.
  intros Hs. unfold strip_padding. rewrite rev_app_distr.
  assert (forall l : jstring, drop_while (fun c => (c =? ch_pad)%N) (repeat ch_pad k ++ l) = drop_while (fun c => (c =? ch_pad)%N) l) as H
    by (intros l; induction k; cbn; auto).
  replace (rev (repeat ch_pad k)) with (repeat ch_pad k).
  - rewrite H, drop_while_id; [apply rev_involutive|]. apply Forall_rev. eapply Forall_impl; [exact Hs|]. intros x Hx. by apply N.eqb_neq.
  - clear. induction k as [|k IH]; [done|]. cbn. rewrite <- IH. clear IH. induction k; [done|]. cbn. by f_equal.
Qed.

Lemma map_digits (f g : N -> N) d : Forall (fun n => (n < 64)%N) d -> (forall n, (n < 64)%N -> f (digit64 n) = g n) -> map f (map digit64 d) = map g d.
Proof. intros H E. rewrite map_map. apply map_ext_Forall. eapply Forall_impl; [exact H|]. exact E. Qed.

Lemma to_url bytes : Forall is_byte bytes -> arrayBufferToBase64Url (Some bytes) = Ret (url_text bytes).
Proof.
  intros H. destruct (digits_read bytes H) as [_ Hd]. cbn [arrayBufferToBase64Url]. rewrite btoa_bytes by done. cbn [ebind]. f_equal.
  unfold replace_unit. rewrite !map_app, !map_repeat. change (if (ch_pad =? 43)%N then 45%N else ch_pad) with ch_pad.
  change (if (ch_pad =? 47)%N then 95%N else ch_pad) with ch_pad. rewrite map_map.
  rewrite (map_digits _ url_digit) by (auto; intros n Hn; by apply url_digit_spec). fold (url_text bytes). apply strip_pads. unfold url_text.
  apply Forall_map. eapply Forall_impl; [exact Hd|]. intros n Hn. by apply url_digit_spec.
Qed.

Lemma of_url bytes : Forall is_byte bytes -> base64UrlToArrayBuffer (JStr (url_text bytes)) = Ret bytes.
Proof.
  intros H. destruct (digits_read bytes H) as [_ Hd]. unfold base64UrlToArrayBuffer. cbn [jtruthy String_of ebind]. unfold url_text at 1.
  destruct (truthy (map url_digit (digits64 bytes))) eqn:Et; cbn [negb].
  - assert (replace_unit 95 47 (replace_unit 45 43 (url_text bytes ++ repeat ch_pad (padding (length (url_text bytes))))) =
      map digit64 (digits64 bytes) ++ repeat ch_pad (padding (length (digits64 bytes)))) as ->; [|by apply atob_digits].
    unfold replace_unit, url_text. rewrite !map_app, !map_repeat, length_map. change (if (ch_pad =? 45)%N then 43%N else ch_pad) with ch_pad.
    change (if (ch_pad =? 95)%N then 47%N else ch_pad) with ch_pad. f_equal. rewrite !map_map. apply map_ext_Forall.
    eapply Forall_impl; [exact Hd|]. intros n Hn. by apply url_digit_spec.
  - destruct bytes as [|a [|b [|c l]]]; done.
Qed.

(** ** What is kept *)

(** A credential of the server, with its bytes as text. *)
Definition server_item (item : jsval * list N) : Prop :=
  exists fs, item.1 = JObj fs /\ assoc (js "id") fs = Some (JStr (url_text item.2)).

(** The credential with its bytes as a buffer. *)
Definition prepared_item (item : jsval * list N) : option_value := Object (mset (spread_options item.1) (js "id") (Buffer item.2)).

Lemma items_prepared l : Forall (fun i => server_item i /\ Forall is_byte i.2) l -> emap credential_item (map fst l) = Ret (map prepared_item l).
Proof.
  induction 1 as [|[item bytes] l [(fs & E & Hid) Hb] _ IH]; [done|]. cbn [fst snd] in *. subst item.
  cbn [map fst emap]. unfold credential_item at 1. cbn [jget]. rewrite Hid. cbn [coalesce from_option Datatypes.id]. rewrite of_url by done.
  cbn [ebind]. by rewrite IH.
Qed.

Lemma spread_get fs k : mget (spread_options (JObj fs)) k = Plain <$> assoc k fs.
Proof.
  cbn [spread_options]. rewrite assoc_mget. induction fs as [|[k0 v] fs IH]; [done|]. cbn. by case_decide.
Qed.

(** The options of a registration as the server writes them: bytes as text, and the credentials to exclude only where the user
    has one already ([None] at the first registration). *)
Record server_options (fs : members) (challenge uid : list N) (excluded : option (list (jsval * list N))) : Prop := {
  so_challenge : assoc (js "challenge") fs = Some (JStr (url_text challenge));
  so_user : exists us, assoc (js "user") fs = Some (JObj us) /\ assoc (js "id") us = Some (JStr (url_text uid));
  so_excluded : assoc (js "excludeCredentials") fs = (fun l => JArr (map fst l)) <$> excluded;
  so_bytes : Forall is_byte challenge /\ Forall is_byte uid /\ Forall (fun i => server_item i /\ Forall is_byte i.2) (coalesce excluded [])
}.

(** An answer is text, each part of it that of its bytes. *)
Lemma assertion_read c : Forall (Forall is_byte) [as_rawId c; as_authenticatorData c; as_clientDataJSON c; as_signature c; coalesce (as_userHandle c) []] ->
  exists r, buildAssertionResult (Some c) = Ret r /\
    base64UrlToArrayBuffer (jget r (js "rawId")) = Ret (as_rawId c) /\
    let response := jget r (js "response") in
    base64UrlToArrayBuffer (jget response (js "authenticatorData")) = Ret (as_authenticatorData c) /\
    base64UrlToArrayBuffer (jget response (js "clientDataJSON")) = Ret (as_clientDataJSON c) /\
    base64UrlToArrayBuffer (jget response (js "signature")) = Ret (as_signature c) /\
    base64UrlToArrayBuffer (jget response (js "userHandle")) = Ret (coalesce (as_userHandle c) []).
Proof.
  rewrite !Forall_cons. intros (H1 & H2 & H3 & H4 & H5 & _). unfold buildAssertionResult. rewrite !to_url by done. cbn [ebind].
  destruct (as_userHandle c) as [h|]; cbn [coalesce from_option Datatypes.id] in H5.
  - rewrite to_url by done. cbn [ebind]. eexists. split; [done|]. cbv zeta.
    split; [by apply (of_url (as_rawId c))|]. split; [by apply (of_url (as_authenticatorData c))|].
    split; [by apply (of_url (as_clientDataJSON c))|]. split; [by apply (of_url (as_signature c))|by apply (of_url h)].
  - cbn [ebind]. eexists. split; [done|]. cbv zeta.
    split; [by apply (of_url (as_rawId c))|]. split; [by apply (of_url (as_authenticatorData c))|].
    split; [by apply (of_url (as_clientDataJSON c))|]. split; [by apply (of_url (as_signature c))|done].
Qed.

(** The parts of the options once the browser gets them. *)
Definition creation_out (fs us : members) (challenge uid : list N) (excluded : option (list (jsval * list N))) : option_members :=
  let user := mset (spread_options (JObj us)) (js "id") (Buffer uid) in
  let out := mset (mset (spread_options (JObj fs)) (js "challenge") (Buffer challenge)) (js "user") (Object user) in
  drop_empty_formats (JObj fs)
    match excluded with Some l => mset out (js "excludeCredentials") (Objects (map prepared_item l)) | None => out end.

Lemma creation_prepared payload fs us challenge uid excluded : payload_options payload = JObj fs -> server_options fs challenge uid excluded ->
  assoc (js "user") fs = Some (JObj us) -> prepareCredentialCreationOptions payload = Ret (creation_out fs us challenge uid excluded).
Proof.
  intros Hp [Hc (us' & Hu' & Hid) He (B1 & B2 & B3)] Hu. rewrite Hu in Hu'. injection Hu' as <-.
  unfold prepareCredentialCreationOptions. rewrite Hp. cbv zeta. cbn [jtruthy negb]. unfold with_credentials. cbn [jget]. rewrite Hc, Hu, He.
  cbn [coalesce from_option Datatypes.id jget]. rewrite Hid. cbn [coalesce from_option Datatypes.id]. rewrite !of_url by done. cbn [ebind].
  destruct excluded as [l|]; cbn [fmap option_fmap option_map coalesce from_option Datatypes.id] in *; [|reflexivity].
  rewrite items_prepared by done. reflexivity.
Qed.

Lemma drop_formats_get fs out k : mget (drop_empty_formats (JObj fs) out) k =
  if decide (k = js "attestationFormats") then match jget (JObj fs) k with JArr [] => None | _ => mget out k end else mget out k.
Proof.
  unfold drop_empty_formats. destruct (decide (k = js "attestationFormats")) as [->|Hk].
  - destruct (jget (JObj fs) (js "attestationFormats")) as [| | | | |[|]|]; try done. by rewrite mget_mdel, decide_True.
  - destruct (jget (JObj fs) (js "attestationFormats")) as [| | | | |[|]|]; try done. by rewrite mget_mdel, decide_False.
Qed.

(** C34. Nothing is lost between the server and the browser when a passkey is registered: under whichever of its four names the options
    come, the challenge, the id of the user and the ids of the excluded credentials reach the browser as the bytes the server wrote,
    and every other member of the options and of the user as it was - but for an empty list of formats, which is left out.  The first
    registration of a user excludes nothing: the options have no such list then, and the browser gets none. *)
Theorem passkey_bytes_kept (payload : jsval) (fs us : members) (challenge uid : list N)
    (excluded : option (list (jsval * list N))) :
  payload_options payload = JObj fs -> server_options fs challenge uid excluded -> assoc (js "user") fs = Some (JObj us) ->
  exists out user, prepareCredentialCreationOptions payload = Ret out /\
    mget out (js "challenge") = Some (Buffer challenge) /\ mget out (js "user") = Some (Object user) /\
    mget out (js "excludeCredentials") = (fun l => Objects (map prepared_item l)) <$> excluded /\
    mget user (js "id") = Some (Buffer uid) /\ (forall k, k <> js "id" -> mget user k = Plain <$> assoc k us) /\
    forall k, k ∉ map js ["challenge"; "user"; "excludeCredentials"]%string ->
      mget out k = if decide (k = js "attestationFormats") then match jget (JObj fs) k with JArr [] => None | _ => Plain <$> assoc k fs end
                   else Plain <$> assoc k fs.
Proof.
  intros Hp Hs Hu. exists (creation_out fs us challenge uid excluded), (mset (spread_options (JObj us)) (js "id") (Buffer uid)).
  split; [by apply creation_prepared|]. pose proof (so_excluded _ _ _ _ Hs) as He. unfold creation_out. cbv zeta.
  split; [destruct excluded; by rewrite drop_formats_get, !mget_mset|]. split; [destruct excluded; by rewrite drop_formats_get, !mget_mset|].
  split; [destruct excluded; rewrite drop_formats_get, !mget_mset, ?spread_get; [done|]; cbn in He |- *; by rewrite He|].
  split; [by rewrite mget_mset, decide_True|].
  split; [intros k Hk; rewrite mget_mset, decide_False by done; apply spread_get|].
  intros k Hk. cbn [map] in Hk. rewrite !not_elem_of_cons in Hk. destruct Hk as (H1 & H2 & H3 & _).
  destruct excluded; rewrite drop_formats_get, !mget_mset, spread_get; repeat case_decide; congruence.
Qed.

(** ** On concrete options *)

Definition sample_bytes : list N := [251; 255; 0; 62]%N.
Definition sample_options : members :=
  [(js "rp", JObj [(js "name", JStr (js "CubeRouter"))]); (js "challenge", JStr (js "-_8APg"));
   (js "user", JObj [(js "id", JStr (js "AQ")); (js "name", JStr (js "root"))]);
   (js "excludeCredentials", JArr [JObj [(js "type", JStr (js "public-key")); (js "id", JStr (js "-_8APg"))]]);
   (js "attestationFormats", JArr [])].

Example sample_text : url_text sample_bytes = js "-_8APg" /\ arrayBufferToBase64Url (Some sample_bytes) = Ret (js "-_8APg").
Proof. by vm_compute. Qed.

Lemma passkey_bytes_kept_witness : exists out, prepareCredentialCreationOptions (JObj [(js "Response", JObj sample_options)]) = Ret out /\
  mget out (js "challenge") = Some (Buffer sample_bytes) /\ mget out (js "attestationFormats") = None.
Proof.
  destruct (passkey_bytes_kept (JObj [(js "Response", JObj sample_options)]) sample_options [(js "id", JStr (js "AQ")); (js "name", JStr (js "root"))]
    sample_bytes [1%N] (Some [(JObj [(js "type", JStr (js "public-key")); (js "id", JStr (js "-_8APg"))], sample_bytes)])) as (out & user & H1 & H2 & _ & _ & _ & _ & H7);
    [by vm_compute| |by vm_compute|].
  - split; [by vm_compute|eexists; split; by vm_compute|by vm_compute|].
    assert (Forall is_byte sample_bytes) as Hb by (repeat apply Forall_cons_2; try apply Forall_nil_2; by vm_compute).
    split; [exact Hb|]. split; [apply Forall_cons_2; [by vm_compute|apply Forall_nil_2]|].
    apply Forall_cons_2; [|apply Forall_nil_2]. split; [|exact Hb]. eexists. split; [reflexivity|by vm_compute].
  - exists out. split; [exact H1|]. split; [exact H2|]. rewrite H7; [by vm_compute|].
    apply (bool_decide_unpack _). by vm_compute.
Defined.
