(* ===== verification/OrganizationBilling.v ===== *)
(** * The billing of an organization

    features/organization/lib/organization-billing.ts: panels and months of a link, the range of months that is asked for, the sums above the
    tables, the filters that are sent, and the CSV document.  Quotas are integers; the clock is a year and a month.  The file
    names and cells made of the local time of day, and the download, are not modelled. *)

From S2P Require Import Prelude JsValue JsText JsObject.
From Stdlib Require Import Qround.
#[global] Open Scope Z_scope.

(** ** Panels *)

Definition ORGANIZATION_BILLING_PANELS : list jstring := map js ["user"; "monthly"; "details"]%string.
Definition DEFAULT_ORGANIZATION_BILLING_PANEL : jstring := js "user".

Definition normalizeOrganizationBillingPanel (value : jsval) : jstring :=
  match value with
  | JStr s => if bool_decide (s ∈ ORGANIZATION_BILLING_PANELS) then s else DEFAULT_ORGANIZATION_BILLING_PANEL
  | _ => DEFAULT_ORGANIZATION_BILLING_PANEL
  end.

(** ** Months *)

(** [/^\d{4}-(0[1-9]|1[0-2])$/] *)
Definition MONTH_PATTERN (s : jstring) : bool :=
  match s with
  | [a; b; c; d; dash; m; n] =>
      forallb is_digit [a; b; c; d] && (dash =? ch_dash)%N &&
      (((m =? 48)%N && (49 <=? n)%N && (n <=? 57)%N) || ((m =? 49)%N && (48 <=? n)%N && (n <=? 50)%N))
  | _ => false
  end.

Definition isOrganizationBillingMonth (value : jsval) : bool := match value with JStr s => MONTH_PATTERN s | _ => false end.

(** The value, where it names a month. *)
Definition month_of (value : jsval) : option jstring := match value with JStr s => if MONTH_PATTERN s then Some s else None | _ => None end.

(** A date, as far as months need it: the year, and the month from zero. *)
Record Date := { getFullYear : Z; getMonth : Z }.

(** [new Date(year, month, 1)]: months outside a year move the year; a year below a hundred is one of the last century. *)
Definition new_Date (year month : Z) : Date :=
  let y := if (0 <=? year) && (year <=? 99) then 1900 + year else year in
  {| getFullYear := y + month / 12; getMonth := month mod 12 |}.

Definition formatOrganizationBillingMonth (date : Date) : jstring :=
  let m := dec_of_Z (getMonth date + 1) in
  dec_of_Z (getFullYear date) ++ js "-" ++ (if (length m <? 2)%nat then 48%N :: m else m).

Definition currentOrganizationBillingMonth (now : Date) : jstring := formatOrganizationBillingMonth now.

Definition recentOrganizationBillingMonths (count : nat) (now : Date) : list jstring :=
  map (fun index => formatOrganizationBillingMonth (new_Date (getFullYear now) (getMonth now - Z.of_nat index))) (seq 0 count).

Definition normalizeOrganizationBillingMonth (value : jsval) (fallback : jstring) : jstring := coalesce (month_of value) fallback.

Definition organizationBillingMonthRange (start end_ : jsval) (now : Date) : jstring * jstring :=
  let fallback := currentOrganizationBillingMonth now in
  let from := month_of start in
  let to := month_of end_ in
  let resolvedFrom := coalesce from (coalesce to fallback) in
  let resolvedTo := coalesce to (coalesce from fallback) in
  if unitCompare resolvedFrom resolvedTo <=? 0 then (resolvedFrom, resolvedTo) else (resolvedTo, resolvedFrom).

Definition DEFAULT_ORGANIZATION_BILLING_MONTHS : Z := 12.

Definition normalizeOrganizationBillingMonths (value : jsval) : exc Z :=
  ebind (number_of value) (fun months =>
    Ret (match months with
         | Fin q => if Qle_bool q 0 then DEFAULT_ORGANIZATION_BILLING_MONTHS else Z.min (Qfloor q) 36
         | _ => DEFAULT_ORGANIZATION_BILLING_MONTHS
         end)).

(** ** Sums *)

Record UserSummary := { us_user : jstring; us_quota : option Z; us_request_count : option Z }.
Record MonthlySummary := { ms_month : jstring; ms_quota : option Z }.

Definition findOrganizationBillingMonth (items : list MonthlySummary) (month : jstring) : option MonthlySummary :=
  find (fun item => jeqb (ms_month item) month) items.

Definition count_of (n : option Z) : Z := coalesce n 0.

Definition sumField {T} (items : list T) (read : T -> option Z) : Z := fold_left (fun sum item => sum + count_of (read item)) items 0.

(** The first item of the largest quota; none where no quota is positive. *)
Definition largest {T} (read : T -> option Z) (items : list T) : option T :=
  fold_left (fun best item => if count_of (match best with Some b => read b | None => None end) <? count_of (read item) then Some item else best)
    items None.

Record UserOverview := { uo_totalQuota : Z; uo_totalRequests : Z; uo_activeUsers : nat; uo_topUser : option UserSummary }.

Definition organizationBillingUserOverviewStats (items : list UserSummary) : UserOverview :=
  {| uo_totalQuota := sumField items us_quota; uo_totalRequests := sumField items us_request_count;
     uo_activeUsers := length (List.filter (fun item => (0 <? count_of (us_quota item)) || (0 <? count_of (us_request_count item))) items);
     uo_topUser := largest us_quota items |}.

(** [Math.round] of a finite number *)
Definition math_round (n : jsnum) : Z := match n with Fin q => Qfloor (q + (1 # 2)) | _ => 0 end.

Record MonthlyOverview := { mo_totalQuota : Z; mo_averageQuota : Z; mo_peak : option MonthlySummary; mo_current : option MonthlySummary }.

Definition organizationBillingMonthlyOverviewStats (items : list MonthlySummary) (month : jstring) : MonthlyOverview :=
  let totalQuota := sumField items ms_quota in
  {| mo_totalQuota := totalQuota;
     mo_averageQuota := match items with
       | [] => 0
       | _ => math_round (num_div (num_of_Z totalQuota) (Pos.of_nat (length items))) end;
     mo_peak := largest ms_quota items; mo_current := findOrganizationBillingMonth items month |}.

(** ** Records *)

Definition RECORD_TYPE_META : list (jstring * (jstring * jstring)) :=
  [(js "pre_consume", (js "Pre-consumed", js "orange")); (js "settle", (js "Settled", js "blue"));
   (js "refund", (js "Refunded", js "red")); (js "adjustment", (js "Adjusted", js "purple"))].

(** The label and the colour of a type; [translate] is the translator. *)
Definition organizationBillingRecordTypeMeta (translate : jstring -> jstring) (recordType : option jstring) : jstring * jstring :=
  match mget RECORD_TYPE_META (coalesce recordType []) with
  | Some (labelKey, variant) => (translate labelKey, variant)
  | None => (ojor recordType (js "-"), js "grey")
  end.

Definition organizationBillingLedgerDelta (ledger_quota_delta : option Z) : Z := coalesce ledger_quota_delta 0.

Definition organizationBillingResponsibleName (display_name username : option jstring) (user_id : option Z) : jstring :=
  let name := jor (trim (coalesce display_name [])) (trim (coalesce username [])) in
  if truthy name then name
  else if count_of user_id =? 0 then js "-" else js "#" ++ dec_of_Z (count_of user_id).

(** ** Filters *)

(** The values of the form by name, and the filters that are sent. *)
Definition detail_keywords : list string := ["token_name"; "model_name"; "group"; "request_id"]%string.

Definition add_filter (values : list (jstring * jstring)) (filters : list (jstring * jstring)) (key : string) : list (jstring * jstring) :=
  let value := trim (coalesce (mget values (js key)) []) in
  if truthy value then mset filters (js key) value else filters.

Definition organizationBillingDetailFilters (values : list (jstring * jstring)) (canViewWideData : bool) : list (jstring * jstring) :=
  let filters := fold_left (add_filter values) detail_keywords [] in
  let filters := match mget values (js "month") with
                 | Some month => if MONTH_PATTERN month then mset filters (js "month") month else filters
                 | None => filters
                 end in
  if canViewWideData then add_filter values filters "responsible_name" else filters.

(** ** The CSV document *)

(** The regular expression of the cells in need of quotes: a double quote, a comma, a line feed, a carriage return. *)
Definition needs_quotes (text : jstring) : bool := existsb (fun c => (c =? ch_quote) || (c =? ch_comma) || (c =? 10) || (c =? 13))%N text.

Definition double_quotes (text : jstring) : jstring := flat_map (fun c => if (c =? ch_quote)%N then [c; c] else [c]) text.

Definition quoted_cell (text : jstring) : jstring :=
  if needs_quotes text then ch_quote :: double_quotes text ++ [ch_quote] else text.

(** The text of a value; null and undefined have none. *)
Definition cell_text (value : jsval) : exc jstring := match value with JUndefined | JNull => Ret [] | _ => String_of value end.

Definition csvCell (value : jsval) : exc jstring :=
  match value with JUndefined | JNull => Ret [] | _ => ebind (String_of value) (fun text => Ret (quoted_cell text)) end.

Record CsvColumn {T} := { title : jstring; value : T -> jsval }.
Arguments CsvColumn : clear implicits.

Definition csv_row {T} (columns : list (CsvColumn T)) (row : T) : exc jstring :=
  ebind (emap (fun column => csvCell (value column row)) columns) (fun cells => Ret (join (js ",") cells)).

Definition byte_order_mark : N := 65279.

Definition buildOrganizationBillingCsv {T} (columns : list (CsvColumn T)) (rows : list T) : exc jstring :=
  ebind (emap (fun column => csvCell (JStr (title column))) columns) (fun titles =>
  ebind (emap (csv_row columns) rows) (fun lines =>
  let header := join (js ",") titles in
  let body := join [10%N] lines in
  Ret (byte_order_mark :: header ++ (if truthy body then 10%N :: body else [])))).

(** ** A reader of CSV documents

    RFC 4180 with line feeds between the records: a field is plain, or quoted with its quotes doubled. *)

Inductive csv_state := Fresh | Plain | Inside | Closing.

Fixpoint csv_read (st : csv_state) (cell : jstring) (row : list jstring) (s : jstring) : option (list (list jstring)) :=
  match s with
  | [] => match st with Inside => None | _ => Some [row ++ [cell]] end
  | c :: s =>
      match st with
      | Inside => if (c =? ch_quote)%N then csv_read Closing cell row s else csv_read Inside (cell ++ [c]) row s
      | Closing | Plain | Fresh =>
          if (c =? ch_comma)%N then csv_read Fresh [] (row ++ [cell]) s
          else if (c =? 10)%N then cons (row ++ [cell]) <$> csv_read Fresh [] [] s
          else match st with
               | Closing => if (c =? ch_quote)%N then csv_read Inside (cell ++ [c]) row s else None
               | Fresh => if (c =? ch_quote)%N then csv_read Inside [] row s
                          else if (c =? 13)%N then None else csv_read Plain [c] row s
               | _ => if (c =? ch_quote)%N || (c =? 13)%N then None else csv_read Plain (cell ++ [c]) row s
               end
      end
  end.

(** A document starts with the byte order mark. *)
Definition csv_document (s : jstring) : option (list (list jstring)) :=
  match s with c :: s => if (c =? byte_order_mark)%N then csv_read Fresh [] [] s else None | [] => None end.

(** The texts of the cells. *)
Definition csv_texts {T} (columns : list (CsvColumn T)) (rows : list T) : exc (list (list jstring)) :=
  emap (fun row => emap (fun column => cell_text (value column row)) columns) rows.

(** What may follow a cell, and a record. *)
Definition ends_cell (rest : jstring) : Prop := match rest with [] => True | c :: _ => c = ch_comma \/ c = 10%N end.
Definition after_record (record : list jstring) (rest : jstring) : option (list (list jstring)) :=
  match rest with [] => Some [record] | _ :: rest => cons record <$> csv_read Fresh [] [] rest end.

(** ** Months as numbers *)

Definition digit_at (c : N) : Z := Z.of_N c - 48.

(** The months since the year 0, of a text that names a month. *)
Definition month_number (s : jstring) : Z :=
  match s with
  | [a; b; c; d; _; m; n] =>
      12 * (1000 * digit_at a + 100 * digit_at b + 10 * digit_at c + digit_at d) + (10 * digit_at m + digit_at n - 1)
  | _ => 0
  end.

(** A date of a year of four digits. *)
Definition modern (d : Date) : Prop := 1000 <= getFullYear d <= 9999 /\ 0 <= getMonth d <= 11.

Definition four_digits (y : Z) : bool :=
  match dec_of_Z y with
  | [a; b; c; d] => forallb is_digit [a; b; c; d] && (1000 * digit_at a + 100 * digit_at b + 10 * digit_at c + digit_at d =? y)
  | _ => false
  end.

Definition two_digits (m : Z) : bool :=
  let t := dec_of_Z (m + 1) in
  match (if (length t <? 2)%nat then 48%N :: t else t) with
  | [a; b] => (((a =? 48) && (49 <=? b) && (b <=? 57)) || ((a =? 49) && (48 <=? b) && (b <=? 50)))%N && (10 * digit_at a + digit_at b - 1 =? m)
  | _ => false
  end.

(** ** The month range *)

Lemma four_digits_all y : 1000 <= y <= 9999 -> four_digits y = true.
Proof.
  intros Hy. assert (forallb four_digits (seqZ 1000 9000) = true) as H by by vm_compute.
  rewrite forallb_forall in H. apply H, list_elem_of_In, elem_of_seqZ. lia.
Qed.

Lemma two_digits_all m : 0 <= m <= 11 -> two_digits m = true.
Proof.
  intros Hm. assert (forallb two_digits (seqZ 0 12) = true) as H by by vm_compute.
  rewrite forallb_forall in H. apply H, list_elem_of_In, elem_of_seqZ. lia.
Qed.

(** The text of a date names its month. *)
Lemma formatted_month d : modern d ->
  MONTH_PATTERN (formatOrganizationBillingMonth d) = true /\
  month_number (formatOrganizationBillingMonth d) = 12 * getFullYear d + getMonth d.
Proof.
  intros [Hy Hm]. pose proof (four_digits_all _ Hy) as HY. pose proof (two_digits_all _ Hm) as HM.
  unfold formatOrganizationBillingMonth, four_digits, two_digits in *. cbv zeta in HM |- *.
  destruct (dec_of_Z (getFullYear d)) as [|a [|b [|c [|e [|]]]]]; try done.
  destruct (if (_ <? 2)%nat then _ else _) as [|m [|n [|]]]; try done.
  apply andb_true_iff in HY as [HY Ey], HM as [HM Em]. apply Z.eqb_eq in Ey, Em. change (js "-") with [45%N].
  unfold MONTH_PATTERN, month_number. cbn [app]. rewrite HY, HM. split; [done|lia].
Qed.

Lemma month_digits s : MONTH_PATTERN s = true -> exists a b c d m n, s = [a; b; c; d; ch_dash; m; n] /\
  Forall (fun x => 0 <= digit_at x <= 9) [a; b; c; d; n] /\ 0 <= 10 * digit_at m + digit_at n - 1 <= 11.
Proof.
  destruct s as [|a [|b [|c [|d [|dash [|m [|n [|]]]]]]]]; try done. unfold MONTH_PATTERN. cbn [forallb]. intros H.
  exists a, b, c, d, m, n. unfold is_digit, digit_at in *. apply andb_true_iff in H as [H Hm]. apply andb_true_iff in H as [H ->%N.eqb_eq].
  rewrite !andb_true_iff, ?N.leb_le in H. apply orb_true_iff in Hm. rewrite !andb_true_iff, !N.leb_le, !N.eqb_eq in Hm.
  split; [done|]. split; [repeat constructor; lia|lia].
Qed.

(** Texts of months are ordered as months are. *)
Lemma months_compare s t : MONTH_PATTERN s = true -> MONTH_PATTERN t = true ->
  (unitCompare s t <=? 0) = (month_number s <=? month_number t).
Proof.
  intros (a & b & c & d & m & n & -> & Hs & ?)%month_digits (a' & b' & c' & d' & m' & n' & -> & Ht & ?)%month_digits.
  rewrite !Forall_cons in Hs, Ht. destruct Hs as (?&?&?&?&?&_), Ht as (?&?&?&?&?&_).
  unfold month_number, digit_at in *. cbn [unitCompare]. symmetry.
  rewrite (N.eqb_refl ch_dash).
  repeat (match goal with |- context [(?x =? ?y)%N] => destruct (N.eqb_spec x y) as [->|] end);
    try match goal with |- context [(?x <? ?y)%N] => destruct (N.ltb_spec x y) end.
  all: first [apply Z.leb_le; lia | apply Z.leb_gt; lia].
Qed.

Lemma month_of_valid value s : month_of value = Some s -> MONTH_PATTERN s = true.
Proof. destruct value; cbn; try done. destruct (MONTH_PATTERN s0) eqn:E; [|done]. by intros [= ->]. Qed.

(** The range that is asked for is one the service accepts: both ends name months and the first is not after the last.
    The ends are the two months given, in their order or swapped; one month alone is both ends; without any the range is the
    current month. *)
Theorem range_accepted start end_ now : modern now ->
  let (first, last) := organizationBillingMonthRange start end_ now in
  MONTH_PATTERN first = true /\ MONTH_PATTERN last = true /\ month_number first <= month_number last /\
  match month_of start, month_of end_ with
  | Some from, Some to => (first = from /\ last = to) \/ (first = to /\ last = from)
  | Some m, None | None, Some m => first = m /\ last = m
  | None, None => first = last /\ month_number first = 12 * getFullYear now + getMonth now
  end.
Proof.
  intros [Hc Hn]%formatted_month. unfold organizationBillingMonthRange, currentOrganizationBillingMonth.
  pose proof (month_of_valid start) as Hs. pose proof (month_of_valid end_) as He.
  assert (forall s t, MONTH_PATTERN s = true -> MONTH_PATTERN t = true -> (unitCompare s t <=? 0) = false -> month_number t <= month_number s)
    as Hgt by (intros s t Ps Pt; rewrite months_compare by done; intros ?%Z.leb_gt; lia).
  destruct (month_of start) as [from|], (month_of end_) as [to|]; cbn [coalesce from_option]; unfold Datatypes.id;
    try specialize (Hs _ eq_refl); try specialize (He _ eq_refl);
    match goal with |- context [unitCompare ?a ?b <=? 0] => destruct (unitCompare a b <=? 0) eqn:E end;
    repeat split; auto; try (by apply Hgt); try (rewrite months_compare in E by done; by apply Z.leb_le in E).
Qed.

(** Swapped ends, and a link that names no month. *)
Lemma range_accepted_witness : month_number (js "2025-12") <= month_number (js "2026-02").
Proof.
  pose proof (range_accepted (JStr (js "2026-02")) (JStr (js "2025-12")) {| getFullYear := 2026; getMonth := 4 |}) as H.
  assert (organizationBillingMonthRange (JStr (js "2026-02")) (JStr (js "2025-12")) {| getFullYear := 2026; getMonth := 4 |} =
    (js "2025-12", js "2026-02")) as E by (vm_compute; reflexivity).
  rewrite E in H. apply H. split; cbn; lia.
Defined.

(** Each month of the select is one before the last, whatever the lengths of the months. *)
Lemma months_offered count now i month : modern now -> 12 * 1000 <= 12 * getFullYear now + getMonth now - Z.of_nat count ->
  recentOrganizationBillingMonths count now !! i = Some month ->
  MONTH_PATTERN month = true /\ month_number month = 12 * getFullYear now + getMonth now - Z.of_nat i.
Proof.
  intros [Hy Hm] Hc. unfold recentOrganizationBillingMonths. rewrite list_lookup_fmap.
  intros (j & [-> Hj]%lookup_seq & ->)%fmap_Some. rewrite Nat.add_0_l.
  pose proof (Z.div_mod (getMonth now - Z.of_nat i) 12 ltac:(lia)) as Hd. pose proof (Z.mod_pos_bound (getMonth now - Z.of_nat i) 12 ltac:(lia)) as Hb.
  destruct (formatted_month (new_Date (getFullYear now) (getMonth now - Z.of_nat i))) as [H1 H2].
  - unfold modern, new_Date. cbn [getFullYear getMonth]. destruct (Z.leb_spec (getFullYear now) 99); [lia|]. rewrite andb_false_r. lia.
  - split; [done|]. rewrite H2. unfold new_Date. cbn [getFullYear getMonth].
    destruct (Z.leb_spec (getFullYear now) 99); [lia|]. rewrite andb_false_r. lia.
Qed.

(** ** The CSV document *)

Definition plain_text (text : jstring) : Prop := needs_quotes text = false.

Lemma plain_cons c text : plain_text (c :: text) ->
  (c =? ch_quote)%N = false /\ (c =? ch_comma)%N = false /\ (c =? 10)%N = false /\ (c =? 13)%N = false /\ plain_text text.
Proof. unfold plain_text, needs_quotes. cbn [existsb]. rewrite !orb_false_iff. tauto. Qed.

Lemma read_plain text acc row rest : plain_text text -> csv_read Plain acc row (text ++ rest) = csv_read Plain (acc ++ text) row rest.
Proof.
  revert acc. induction text as [|c text IH]; intros acc Ht; [by rewrite app_nil_r|].
  apply plain_cons in Ht as (E1 & E2 & E3 & E4 & Ht). cbn [app csv_read]. rewrite E1, E2, E3, E4. cbn [orb].
  by rewrite IH, <- app_assoc.
Qed.

Lemma read_inside text acc row rest :
  csv_read Inside acc row (double_quotes text ++ ch_quote :: rest) = csv_read Closing (acc ++ text) row rest.
Proof.
  revert acc. induction text as [|c text IH]; intros acc; [by rewrite app_nil_r|].
  change (double_quotes (c :: text)) with ((if (c =? ch_quote)%N then [c; c] else [c]) ++ double_quotes text).
  rewrite <- app_assoc. destruct (N.eqb_spec c ch_quote) as [->|Hc].
  - cbn [app csv_read]. rewrite N.eqb_refl.
    replace (ch_quote =? ch_comma)%N with false by done. replace (ch_quote =? 10)%N with false by done.
    by rewrite IH, <- app_assoc.
  - cbn [app csv_read]. rewrite (proj2 (N.eqb_neq _ _) Hc). by rewrite IH, <- app_assoc.
Qed.

(** A cell is read as its text, up to what ends it. *)
Lemma read_cell text row rest : ends_cell rest -> csv_read Fresh [] row (quoted_cell text ++ rest) = csv_read Closing text row rest.
Proof.
  intros Hr.
  assert (forall st, st <> Inside -> csv_read st text row rest = csv_read Closing text row rest) as Hend.
  { intros st Hst. destruct rest as [|c rest]; [by destruct st|]. destruct Hr as [-> | ->]; by destruct st. }
  unfold quoted_cell. destruct (needs_quotes text) eqn:E.
  - cbn [app csv_read]. replace (ch_quote =? ch_comma)%N with false by done. replace (ch_quote =? 10)%N with false by done.
    rewrite N.eqb_refl, <- app_assoc. apply read_inside.
  - destruct text as [|c text]; [by apply Hend|]. apply plain_cons in E as (E1 & E2 & E3 & E4 & E).
    cbn [app csv_read]. rewrite E1, E2, E3, E4. rewrite read_plain by done. by apply Hend.
Qed.

Lemma read_record cells row rest : cells <> [] -> match rest with [] => True | c :: _ => c = 10%N end ->
  csv_read Fresh [] row (join (js ",") (map quoted_cell cells) ++ rest) = after_record (row ++ cells) rest.
Proof.
  revert row. induction cells as [|text [|text' cells] IH]; intros row Hne Hr; [done| |].
  - cbn [map join]. rewrite read_cell by (destruct rest; cbn; auto). by destruct rest as [|c rest]; [|rewrite Hr].
  - change (join (js ",") (map quoted_cell (text :: text' :: cells))) with
      (quoted_cell text ++ [ch_comma] ++ join (js ",") (map quoted_cell (text' :: cells))).
    rewrite <- !app_assoc, read_cell by (by left). cbn [app csv_read]. rewrite N.eqb_refl.
    rewrite IH by done. by rewrite <- app_assoc.
Qed.

Lemma read_records records : records <> [] -> Forall (fun cells => cells <> []) records ->
  csv_read Fresh [] [] (join [10%N] (map (fun cells => join (js ",") (map quoted_cell cells)) records)) = Some records.
Proof.
  induction records as [|cells [|cells' records] IH]; intros Hne Hall; [done| |];
    apply Forall_cons in Hall as [Hc Hcs].
  - cbn [map join]. rewrite <- (app_nil_r (join _ _)). by rewrite read_record.
  - change (join [10%N] (map ?f (cells :: cells' :: records))) with (f cells ++ [10%N] ++ join [10%N] (map f (cells' :: records))).
    cbv beta. rewrite read_record by done. cbn [app after_record]. by rewrite IH.
Qed.

Lemma emap_map {A B} (f : A -> exc B) (g : A -> B) l : (forall x, f x = Ret (g x)) -> emap f l = Ret (map g l).
Proof. intros H. induction l as [|x l IH]; [done|]. cbn. by rewrite H, IH. Qed.

Lemma emap_post {A B C} (f : A -> exc B) (g : A -> exc C) (h : B -> C) l ys :
  (forall x y, f x = Ret y -> g x = Ret (h y)) -> emap f l = Ret ys -> emap g l = Ret (map h ys).
Proof.
  intros H. revert ys. induction l as [|x l IH]; intros ys; cbn; [by intros [= <-]|].
  destruct (f x) as [y|] eqn:E; [|done]. cbn. destruct (emap f l) as [zs|]; [|done]. cbn. intros [= <-].
  by rewrite (H _ _ E), (IH _ eq_refl).
Qed.

Lemma emap_length {A B} (f : A -> exc B) l ys : emap f l = Ret ys -> length ys = length l.
Proof.
  revert ys. induction l as [|x l IH]; intros ys; cbn; [by intros [= <-]|].
  destruct (f x); [|done]. cbn. destruct (emap f l) as [zs|]; [|done]. cbn. intros [= <-]. cbn. by rewrite (IH zs).
Qed.

Lemma cell_is_text v text : cell_text v = Ret text -> csvCell v = Ret (quoted_cell text).
Proof. unfold cell_text, csvCell. destruct v; try (by intros [= <-]); intros ->; done. Qed.

Lemma row_is_texts {T} (columns : list (CsvColumn T)) row texts :
  emap (fun column => cell_text (value column row)) columns = Ret texts ->
  csv_row columns row = Ret (join (js ",") (map quoted_cell texts)).
Proof.
  intros H. unfold csv_row. rewrite (emap_post _ (fun column => csvCell (value column row)) quoted_cell _ _ (fun c t => cell_is_text _ t) H). done.
Qed.

Lemma texts_rows {T} (columns : list (CsvColumn T)) rows cells : columns <> [] -> csv_texts columns rows = Ret cells ->
  length cells = length rows /\ Forall (fun texts => texts <> []) cells.
Proof.
  intros Hc H. split; [by apply emap_length in H|]. unfold csv_texts in H. revert cells H.
  induction rows as [|row rows IH]; intros cells; cbn; [by intros [= <-]|].
  destruct (emap _ columns) as [texts|] eqn:E; [|done]. cbn. destruct (emap _ rows) as [zs|]; [|done]. cbn. intros [= <-].
  constructor; [|by apply IH]. apply emap_length in E. intros ->. by destruct columns.
Qed.

Lemma join_empty sep ws : sep <> [] -> join sep ws = [] -> ws = [] \/ ws = [[]].
Proof.
  intros Hs. destruct ws as [|w [|w' ws]]; cbn; [by left|intros ->; by right|]. intros [_ [H _]%app_eq_nil]%app_eq_nil. done.
Qed.
Lemma quoted_empty text : quoted_cell text = [] -> text = [].
Proof. unfold quoted_cell. by destruct (needs_quotes text). Qed.

(** C35. A document that is exported reads back, as RFC 4180 reads it, as the titles followed by the texts of the cells, row by
    row, whatever quotes, commas and line breaks the texts hold: as long as there is a column and every cell has a text, the export is
    a document, and reading it loses nothing.  The reader takes the line feeds that the export writes between the records, where
    RFC 4180 asks for a carriage return before them.  A table of one column and one empty cell is the exception: its body is the empty text, and it is left out. *)
Theorem csv_read_back {T} (columns : list (CsvColumn T)) rows cells :
  columns <> [] -> csv_texts columns rows = Ret cells -> cells <> [[[]]] ->
  exists document, buildOrganizationBillingCsv columns rows = Ret document /\
    csv_document document = Some (map title columns :: cells).
Proof.
  intros Hc Hcells Hbody. destruct (texts_rows _ _ _ Hc Hcells) as [Hlen Hne]. unfold buildOrganizationBillingCsv.
  rewrite (emap_map _ (fun column => quoted_cell (title column))) by done. cbn [ebind].
  rewrite (emap_post _ (csv_row columns) (fun texts => join (js ",") (map quoted_cell texts)) _ _ (row_is_texts columns) Hcells).
  cbn [ebind]. eexists. split; [reflexivity|]. unfold csv_document. rewrite N.eqb_refl.
  rewrite <- (map_map title quoted_cell). assert (map title columns <> []) as Ht by (by destruct columns).
  destruct cells as [|cells0 cells'].
  { cbn [map join truthy]. by rewrite read_record. }
  set (body := join [10%N] _). assert (truthy body = true) as ->.
  { destruct body eqn:Hb; [|done]. exfalso. subst body. apply join_empty in Hb as [Hb|Hb]; [done| |done].
    cbn [map] in Hb. injection Hb as Hb Htl. apply map_eq_nil in Htl as ->. apply Forall_cons in Hne as [Hne _].
    apply join_empty in Hb as [Hb|Hb]; [by apply map_eq_nil in Hb| |done].
    destruct cells0 as [|t [|]]; try done. injection Hb as ->%quoted_empty. done. }
  rewrite read_record by done. cbn [after_record app]. unfold body. by rewrite read_records.
Qed.

(** Members with commas, quotes and line breaks in their names. *)
Definition sample_columns : list (CsvColumn (jstring * jsval)) :=
  [{| title := js "Name"; value := fun row => JStr row.1 |}; {| title := js "Quota, total"; value := fun row => row.2 |}].
Definition sample_rows : list (jstring * jsval) :=
  [(js "Ada, L.", JNum (num_of_Z 12)); ([ch_quote; 10%N; ch_quote; 98%N], JNull)].

Lemma csv_read_back_witness : exists document, buildOrganizationBillingCsv sample_columns sample_rows = Ret document /\
  csv_document document = Some [[js "Name"; js "Quota, total"]; [js "Ada, L."; js "12"]; [[ch_quote; 10%N; ch_quote; 98%N]; []]].
Proof.
  refine (csv_read_back sample_columns sample_rows [[js "Ada, L."; js "12"]; [[ch_quote; 10%N; ch_quote; 98%N]; []]] _ _ _);
    [discriminate|vm_compute; reflexivity|discriminate].
Defined.

Example sample_document : buildOrganizationBillingCsv sample_columns (take 1 sample_rows) =
  Ret (byte_order_mark :: js "Name," ++ [ch_quote] ++ js "Quota, total" ++ [ch_quote; 10%N] ++
       [ch_quote] ++ js "Ada, L." ++ [ch_quote] ++ js ",12").
Proof. vm_compute. reflexivity. Qed.

(** The one row of a table of one column, when its cell is empty, is not in the document. *)
Example empty_row_lost :
  buildOrganizationBillingCsv (take 1 sample_columns) [([], JNull)] = buildOrganizationBillingCsv (take 1 sample_columns) [].
Proof. vm_compute. reflexivity. Qed.

(** Half a month is no month at all, where the default was meant for a count that names none. *)
Example half_month : normalizeOrganizationBillingMonths (JNum (Fin (1 # 2))) = Ret 0.
Proof. vm_compute. reflexivity. Qed.

(** ** Sums *)

Lemma sumField_sum {T} (read : T -> option Z) items : sumField items read = foldr (fun item sum => count_of (read item) + sum) 0 items.
Proof.
  unfold sumField. assert (forall acc, fold_left (fun sum item => sum + count_of (read item)) items acc =
    acc + foldr (fun item sum => count_of (read item) + sum) 0 items) as H; [|by rewrite H].
  induction items as [|item items IH]; intros acc; cbn; [lia|]. rewrite IH. lia.
Qed.

Definition best_quota {T} (read : T -> option Z) (best : option T) : Z := count_of (match best with Some b => read b | None => None end).

(** The user above the table has the largest quota, and is missing only where nobody spent anything. *)
Lemma largest_spec {T} (read : T -> option Z) items :
  Forall (fun item => count_of (read item) <= best_quota read (largest read items)) items /\
  match largest read items with Some best => In best items /\ 0 < count_of (read best) | None => True end.
Proof.
  unfold largest. assert (forall l acc best, (match acc with Some a => In a items /\ 0 < count_of (read a) | None => True end) -> incl l items ->
    best = fold_left (fun best item => if count_of (match best with Some b => read b | None => None end) <? count_of (read item) then Some item else best) l acc ->
    best_quota read acc <= best_quota read best /\ Forall (fun item => count_of (read item) <= best_quota read best) l /\
    match best with Some b => In b items /\ 0 < count_of (read b) | None => True end) as H.
  { induction l as [|item l IH]; intros acc best Ha Hl ->; cbn [fold_left]; [split; [lia|by split]|].
    assert (0 <= best_quota read acc) by (unfold best_quota; destruct acc; cbn; lia).
    fold (best_quota read acc). destruct (Z.ltb_spec (best_quota read acc) (count_of (read item))) as [Hlt|Hge].
    - destruct (IH (Some item) _ ltac:(split; [by apply Hl; left|lia]) ltac:(intros x Hx; apply Hl; by right) eq_refl) as (H1 & H2 & H3).
      unfold best_quota in H1 at 1. split; [lia|]. split; [|done]. by constructor.
    - destruct (IH acc _ Ha ltac:(intros x Hx; apply Hl; by right) eq_refl) as (H1 & H2 & H3).
      split; [done|]. split; [|done]. constructor; [lia|done]. }
  destruct (H items None _ I (fun x Hx => Hx) eq_refl) as (_ & H1 & H2). by split.
Qed.

Definition sample_months : list MonthlySummary :=
  [{| ms_month := js "2026-04"; ms_quota := Some 5 |}; {| ms_month := js "2026-05"; ms_quota := Some 8 |}].

Example month_overview : organizationBillingMonthlyOverviewStats sample_months (js "2026-06") =
  {| mo_totalQuota := 13; mo_averageQuota := 7; mo_peak := nth_error sample_months 1; mo_current := None |}.
Proof. vm_compute. reflexivity. Qed.

(** ** Filters *)

(** The trimmed value of a field, where it has one. *)
Definition trimmed_field (values : list (jstring * jstring)) (key : jstring) : option jstring :=
  let value := trim (coalesce (mget values key) []) in if truthy value then Some value else None.

Lemma add_filter_get values filters key k :
  mget (add_filter values filters key) k =
  if decide (js key = k) then (match trimmed_field values k with Some v => Some v | None => mget filters k end) else mget filters k.
Proof.
  unfold add_filter, trimmed_field. destruct (decide (js key = k)) as [<-|Hk]; destruct (truthy _); try done;
    rewrite mget_mset; [by rewrite decide_True|by rewrite decide_False].
Qed.

(** Decisions about texts that are known. *)
#[local] Ltac decide_closed :=
  repeat match goal with |- context [decide ?P] =>
    first [rewrite (decide_True (P := P)) by (apply (bool_decide_unpack P); vm_compute; exact I)
          |rewrite (decide_False (P := P)) by (apply (bool_decide_unpack (~ P)); vm_compute; exact I)] end.

(** What is sent: each keyword by its trimmed value, when it has one; the month when it is one; the responsible user only for
    those who see everyone's records; nothing else. *)
Lemma filters_sent values wide key : mget (organizationBillingDetailFilters values wide) key =
  if decide (key = js "responsible_name") then (if wide then trimmed_field values key else None)
  else if decide (key = js "month") then
    match mget values key with Some month => if MONTH_PATTERN month then Some month else None | None => None end
  else if decide (key ∈ map js detail_keywords) then trimmed_field values key else None.
Proof.
  assert (forall filters, mget (match mget values (js "month") with
      | Some month => if MONTH_PATTERN month then mset filters (js "month") month else filters | None => filters end) key =
    if decide (key = js "month") then match match mget values key with Some month => if MONTH_PATTERN month then Some month else None | None => None end with
      | Some month => Some month | None => mget filters key end else mget filters key) as Hm.
  { intros filters. destruct (decide (key = js "month")) as [->|Hk].
    - destruct (mget values (js "month")) as [month|]; [|done]. destruct (MONTH_PATTERN month); [|done]. by rewrite mget_mset, decide_True.
    - destruct (mget values (js "month")) as [month|]; [|done]. destruct (MONTH_PATTERN month); [|done].
      rewrite mget_mset, decide_False; [done|congruence]. }
  unfold organizationBillingDetailFilters, detail_keywords. cbv zeta.
  cbn [fold_left]. destruct (decide (key ∈ [js "responsible_name"; js "month"; js "token_name"; js "model_name"; js "group"; js "request_id"])) as [Hin|Hout].
  - rewrite !elem_of_cons, elem_of_nil in Hin.
    destruct wide; [rewrite add_filter_get|]; rewrite Hm, !add_filter_get; cbn [mget];
      destruct Hin as [->|[->|[->|[->|[->|[->|[]]]]]]]; decide_closed;
      try done; first [by destruct (trimmed_field _ _) | by destruct (match mget values _ with Some _ => _ | None => _ end)].
  - rewrite !elem_of_cons, elem_of_nil in Hout.
    destruct wide; [rewrite add_filter_get|]; rewrite Hm, !add_filter_get; cbn [mget map];
      rewrite !decide_False by (rewrite ?elem_of_cons, ?elem_of_nil; naive_solver); done.
Qed.
