(* ===== verification/Zod.v ===== *)
(** * The validation library

    zod is not under web/src: it is an interface, with the documented meaning of the combinators the
    schemas of the dashboard are built from, and an instance that has it.  Also what objects written
    with the members that are given are read as. *)

From S2P Require Import Prelude JsValue JsText JsonText.
#[global] Open Scope Z_scope.

(** [parse] of the schemas: [None] when it throws. *)
Class Zod := {
  z_string : jsval -> option jstring;
  z_number : jsval -> option jsnum;
  z_boolean : jsval -> option bool;
  z_enum : list jstring -> jsval -> option jstring;
  z_array : forall {A}, (jsval -> option A) -> jsval -> option (list A);
  z_optional : forall {A}, (jsval -> option A) -> jsval -> option (option A);
  z_nullable : forall {A}, (jsval -> option A) -> jsval -> option (option A);
  (** The members of an object, by name; members the schema does not name are dropped. *)
  z_object : jsval -> option (jstring -> jsval);
  z_string_spec v s : z_string v = Some s <-> v = JStr s;
  z_number_spec v n : z_number v = Some n <-> v = JNum n /\ isFinite n = true;
  z_boolean_spec v b : z_boolean v = Some b <-> v = JBool b;
  z_enum_spec names v s : z_enum names v = Some s <-> v = JStr s /\ s ∈ names;
  z_array_spec {A} (f : jsval -> option A) v l : z_array f v = Some l <-> exists vs, v = JArr vs /\ mapM f vs = Some l;
  z_optional_spec {A} (f : jsval -> option A) v o :
    z_optional f v = Some o <-> v = JUndefined /\ o = None \/ v <> JUndefined /\ exists a, f v = Some a /\ o = Some a;
  z_nullable_spec {A} (f : jsval -> option A) v o :
    z_nullable f v = Some o <-> v = JNull /\ o = None \/ v <> JNull /\ exists a, f v = Some a /\ o = Some a;
  z_object_spec v g : z_object v = Some g <-> exists fs, v = JObj fs /\ g = (fun k => coalesce (assoc k fs) JUndefined)
}.

(** ** An instance *)

(** The combinators as their documentation defines them. *)
#[local] Instance documented_zod : Zod.
Proof.
  refine {|
    z_string v := match v with JStr s => Some s | _ => None end;
    z_number v := match v with JNum n => if isFinite n then Some n else None | _ => None end;
    z_boolean v := match v with JBool b => Some b | _ => None end;
    z_enum names v := match v with JStr s => if bool_decide (s ∈ names) then Some s else None | _ => None end;
    z_array A f v := match v with JArr vs => mapM f vs | _ => None end;
    z_optional A f v := match v with JUndefined => Some None | _ => Some <$> f v end;
    z_nullable A f v := match v with JNull => Some None | _ => Some <$> f v end;
    z_object v := match v with JObj fs => Some (fun k => coalesce (assoc k fs) JUndefined) | _ => None end
  |}.
  - intros v s'; destruct v; naive_solver.
  - intros v n'; destruct v as [| | |n0| | |]; try naive_solver. destruct n0; cbn; naive_solver.
  - intros v b'; destruct v; naive_solver.
  - intros names v s'; destruct v; try naive_solver. case_bool_decide; naive_solver.
  - intros A f v l'; destruct v; naive_solver.
  - intros A f v o. destruct v; cbn; try (destruct (f _); naive_solver).
  - intros A f v o. destruct v; cbn; try (destruct (f _); naive_solver).
  - intros v g; destruct v; naive_solver.
Defined.

(** ** Members that are given *)

(** The members that are given. *)
Definition present (l : list (jstring * option jsval)) : list (jstring * jsval) := omap (fun f => pair f.1 <$> f.2) l.

(** [.min(1)] *)
Definition at_least_one {A} (l : list A) : option (list A) := match l with [] => None | _ => Some l end.

Lemma assoc_present (l : list (jstring * option jsval)) k : NoDup (map fst l) -> assoc k (present l) = mjoin (assoc k l).
Proof.
  induction l as [|[k' o] l IH]; intros Hnd; [done|]. cbn [map] in Hnd. apply NoDup_cons in Hnd as [Hnin Hnd].
  specialize (IH Hnd). unfold present in *. cbn [omap list_omap fst snd assoc]. destruct (jeqb k' k) eqn:Ek; [apply jeqb_eq in Ek as ->|].
  - destruct o as [v|]; cbn; [by rewrite jeqb_refl|]. etrans; [exact IH|].
    assert (assoc k l = None) as ->; [|done]. clear - Hnin. induction l as [|[k' o] l IH]; [done|]. cbn in *.
    destruct (jeqb k' k) eqn:Ek; [|by apply IH; intros ?; apply Hnin, elem_of_cons; right]. apply jeqb_eq in Ek as ->. destruct Hnin. by apply elem_of_cons; left.
  - destruct o as [v|]; cbn; [|exact IH]. by rewrite Ek.
Qed.

Section Reading.
Context `{Zod}.

Lemma object_of fs : z_object (JObj fs) = Some (fun k => coalesce (assoc k fs) JUndefined).
Proof. apply z_object_spec. by exists fs. Qed.

Lemma string_of s : z_string (JStr s) = Some s.
Proof. by apply z_string_spec. Qed.

Lemma boolean_of b : z_boolean (JBool b) = Some b.
Proof. by apply z_boolean_spec. Qed.

Lemma array_of {A B} (f : jsval -> option B) (enc : A -> jsval) (dec : A -> B) l :
  Forall (fun a => f (enc a) = Some (dec a)) l -> z_array f (JArr (map enc l)) = Some (map dec l).
Proof.
  intros Hl. apply z_array_spec. eexists. split; [done|]. induction Hl as [|a l Ha _ IH]; [done|]. cbn.
  by rewrite Ha, IH.
Qed.

Lemma optional_of {A B} (f : jsval -> option B) (enc : A -> jsval) (dec : A -> B) o :
  (forall a, o = Some a -> f (enc a) = Some (dec a)) -> (forall a, enc a <> JUndefined) ->
  z_optional f (coalesce (enc <$> o) JUndefined) = Some (dec <$> o).
Proof.
  intros Hf Hu. apply z_optional_spec. destruct o as [a|]; [right|by left]. split; [apply Hu|]. exists (dec a). split; [by apply Hf|done].
Qed.

(** A member of an object that is written with the members that are given. *)
Lemma member_of (l : list (jstring * option jsval)) k o : NoDup (map fst l) -> assoc k l = Some o ->
  coalesce (assoc k (present l)) JUndefined = coalesce o JUndefined.
Proof. intros Hnd E. by rewrite assoc_present, E. Qed.

Lemma given_member v : coalesce (Some v) JUndefined = v.
Proof. done. Qed.

End Reading.

(** ** Their text *)

Lemma present_fst l f : f ∈ present l -> (f.1, Some f.2) ∈ l.
Proof.
  unfold present. intros [[k o] [Hin E]]%list_elem_of_omap. destruct o; [|done]. by injection E as <-.
Qed.

Lemma NoDup_present l : NoDup (map fst l) -> NoDup (map fst (present l)).
Proof.
  induction l as [|[k o] l IH]; intros Hnd; [done|]. cbn in Hnd. apply NoDup_cons in Hnd as [Hnin Hnd].
  unfold present. cbn. destruct o as [v|]; cbn; [|by apply IH]. apply NoDup_cons. split; [|by apply IH].
  intros [[k' v'] [-> Hin]]%list_elem_of_fmap. apply Hnin. apply present_fst in Hin. by apply (list_elem_of_fmap_2 fst) in Hin.
Qed.

(** An object written with the members that are given. *)
Lemma plain_present l : NoDup (map fst l) -> Forall (fun f => forall v, f.2 = Some v -> plain_json v) l -> plain_json (JObj (present l)).
Proof.
  intros Hnd Hl. constructor; [by apply NoDup_present|]. apply Forall_forall. intros [k v] Hin%present_fst.
  rewrite Forall_forall in Hl. by apply (Hl _ Hin).
Qed.

