(* ===== verification/Regex.v ===== *)
(** * Regular expressions of the language

    An executable model of the patterns the sources use: the matcher in
    continuation-passing style of the language's own definition, so that greedy
    repetition, the order of alternatives, captures and back references behave as
    they do there.  The lemmas let a proof run a pattern over a text whose pieces
    are known only by what class their units are in. *)

From S2P Require Import Prelude.
#[global] Open Scope Z_scope.

(** The captures: group number and text, the latest first. *)
Definition caps : Type := list (nat * jstring).

Fixpoint cap (c : caps) (n : nat) : option jstring :=
  match c with
  | [] => None
  | (m, w) :: c' => if (m =? n)%nat then Some w else cap c' n
  end.

(** The text of group [n], empty where the group did not take part. *)
Definition capd (c : caps) (n : nat) : jstring := coalesce (cap c n) [].

Inductive regex :=
| Eps
| Lit (s : jstring)
| Chr (p : N -> bool)
| Seq (a b : regex)
| Alt (a b : regex)
| Star (a : regex)
| Grp (n : nat) (a : regex)
| Ref (n : nat).

Definition Plus (a : regex) : regex := Seq a (Star a).
Definition Opt (a : regex) : regex := Alt a Eps.
Definition Seqs (l : list regex) : regex := foldr Seq Eps l.
Definition Alts (l : list regex) (last : regex) : regex := foldr Alt last l.

(** The classes of units the patterns write. *)
Definition any_but (l : jstring) (c : N) : bool := negb (bool_decide (c ∈ l)).
Definition one_of (l : jstring) (c : N) : bool := bool_decide (c ∈ l).
(** [.] without the [s] flag: anything but a line terminator. *)
Definition dot : N -> bool := any_but [10; 13; 8232; 8233]%N.
Definition anything (c : N) : bool := true.

(** The text after a prefix. *)
Fixpoint strip (p s : jstring) : option jstring :=
  match p, s with
  | [], _ => Some s
  | c :: p', d :: s' => if (c =? d)%N then strip p' s' else None
  | _ :: _, [] => None
  end.

Definition orelse {A} (a b : option A) : option A :=
  match a with Some _ => a | None => b end.

Section Matcher.
Context {A : Type}.

(** A continuation: the text that is left and the captures so far. *)
Definition cont : Type := jstring -> caps -> option A.

Section Loop.
Context (m : cont -> cont) (k : cont).

(** Greedy repetition; a round that consumes nothing is refused, so the length of
    the text bounds the rounds. *)
Fixpoint star_loop (fuel : nat) (a : jstring) (c : caps) : option A :=
  orelse
    match fuel with
    | O => None
    | S f => m (fun a' c' => if (length a' <? length a)%nat then star_loop f a' c' else None) a c
    end
    (k a c).
End Loop.

Fixpoint run (r : regex) (k : cont) (a : jstring) (c : caps) : option A :=
  match r with
  | Eps => k a c
  | Lit s => match strip s a with Some a' => k a' c | None => None end
  | Chr p => match a with x :: a' => if p x then k a' c else None | [] => None end
  | Seq r1 r2 => run r1 (run r2 k) a c
  | Alt r1 r2 => orelse (run r1 k a c) (run r2 k a c)
  | Star r1 => star_loop (run r1) k (length a) a c
  | Grp n r1 => run r1 (fun a' c' => k a' ((n, take (length a - length a') a) :: c')) a c
  | Ref n => match strip (capd c n) a with Some a' => k a' c | None => None end
  end.
End Matcher.

Arguments cont : clear implicits.

(** [s.match(/^r$/)] *)
Definition at_end : cont caps := fun a c => match a with [] => Some c | _ => None end.
Definition fullmatch (r : regex) (s : jstring) : option caps := run r at_end s [].

(** [/^r$/.test(s)] *)
Definition test (r : regex) (s : jstring) : bool :=
  match fullmatch r s with Some _ => true | None => false end.

(** A match at the head of a text: what is left, and the captures. *)
Definition prefixmatch (r : regex) (s : jstring) : option (jstring * caps) :=
  run r (fun a c => Some (a, c)) s [].

(** The first match at or after the current place, the text before it, the captures and the
    text after it; [guard] sees the unit before the place and the text after it. *)
Fixpoint search_from (guard : option N -> jstring -> bool) (r : regex) (prev : option N) (s : jstring)
  : option (jstring * caps * jstring) :=
  match (if guard prev s then prefixmatch r s else None), s with
  | Some (rest, c), _ => Some ([], c, rest)
  | None, [] => None
  | None, x :: s' =>
      match search_from guard r (Some x) s' with
      | Some (before, c, rest) => Some (x :: before, c, rest)
      | None => None
      end
  end.

Definition no_guard (_ : option N) (_ : jstring) : bool := true.

(** [\b]: the place is between a word unit and one that is not. *)
Definition is_word (c : N) : bool :=
  (is_digit c || ((65 <=? c) && (c <=? 90)) || ((97 <=? c) && (c <=? 122)) || (c =? 95))%N.
Definition word_boundary (prev : option N) (s : jstring) : bool :=
  negb (Bool.eqb (match prev with Some c => is_word c | None => false end)
                 (match s with c :: _ => is_word c | [] => false end)).

(** The matches one after another, as a loop over [exec] of a global pattern finds them; the
    text between the matches is kept.  The patterns never match the empty text, so the
    length of the text bounds their number. *)
Fixpoint match_all (guard : option N -> jstring -> bool) (r : regex) (fuel : nat)
    (prev : option N) (s : jstring) : list (jstring * caps) * jstring :=
  match fuel with
  | O => ([], s)
  | S f =>
      match search_from guard r prev s with
      | None => ([], s)
      | Some (before, c, rest) =>
          let consumed := take (length s - length rest) s in
          let (ms, tail) := match_all guard r f (last consumed) rest in
          ((before, c) :: ms, tail)
      end
  end.

Definition matchAll (guard : option N -> jstring -> bool) (r : regex) (s : jstring)
  : list (jstring * caps) * jstring :=
  match_all guard r (S (length s)) None s.

(** [s.split(/r/)] and [s.replaceAll(/r/g, by)] for patterns without groups. *)
Definition split_re (r : regex) (s : jstring) : list jstring :=
  let (ms, tail) := matchAll no_guard r s in map fst ms ++ [tail].
Definition replace_re (r : regex) (by_ : jstring) (s : jstring) : jstring :=
  let (ms, tail) := matchAll no_guard r s in
  concat (map (fun m => m.1 ++ by_) ms) ++ tail.

(** ** Running a pattern *)

Section Running.
Context {A : Type}.
Implicit Types (k : cont A) (a w : jstring) (c : caps).

Lemma strip_app w a : strip w (w ++ a) = Some a.
Proof. induction w as [|x w IH]; cbn; [done|]. by rewrite N.eqb_refl. Qed.

Lemma strip_Some w a a' : strip w a = Some a' <-> a = w ++ a'.
Proof.
  split; [|intros ->; apply strip_app]. revert a.
  induction w as [|x w IH]; intros a; cbn; [by intros [= ->]|].
  destruct a as [|y a]; [done|]. destruct (N.eqb_spec x y) as [->|]; [|done].
  by intros ->%IH.
Qed.

Lemma run_Seq r1 r2 k a c : run (Seq r1 r2) k a c = run r1 (run r2 k) a c.
Proof. done. Qed.

Lemma run_Chr_head p k x a c : p x = true -> run (Chr p) k (x :: a) c = k a c.
Proof. cbn. by intros ->. Qed.

Lemma run_Lit_app w k a c : run (Lit w) k (w ++ a) c = k a c.
Proof. cbn. by rewrite strip_app. Qed.

Lemma run_Lit_pre w k a a' c : a = w ++ a' -> run (Lit w) k a c = k a' c.
Proof. intros ->. apply run_Lit_app. Qed.

Lemma run_Lit_fail w k a c : startsWith a w = false -> run (Lit w) k a c = None.
Proof.
  intros H. cbn. destruct (strip w a) as [a'|] eqn:E; [|done]. apply strip_Some in E as ->.
  assert (startsWith (w ++ a') w = true) as H' by (apply startsWith_app; eauto). congruence.
Qed.

Lemma run_Grp n r k a c :
  run (Grp n r) k a c = run r (fun a' c' => k a' ((n, take (length a - length a') a) :: c')) a c.
Proof. done. Qed.

Lemma captured w a : take (length (w ++ a) - length a) (w ++ a) = w.
Proof.
  rewrite length_app. replace (length w + length a - length a)%nat with (length w) by lia.
  apply take_app_length.
Qed.

Lemma run_Ref n w k a c : cap c n = Some w -> run (Ref n) k (w ++ a) c = k a c.
Proof. intros H. cbn. unfold capd. rewrite H. cbn. by rewrite strip_app. Qed.

(** A literal or a back reference, whatever the text. *)
Lemma run_Lit_strip w k a c :
  run (Lit w) k a c = match strip w a with Some a' => k a' c | None => None end.
Proof. done. Qed.

Lemma run_Ref_strip n k a c :
  run (Ref n) k a c = match strip (capd c n) a with Some a' => k a' c | None => None end.
Proof. done. Qed.

Lemma run_Alt r1 r2 k a c : run (Alt r1 r2) k a c = orelse (run r1 k a c) (run r2 k a c).
Proof. done. Qed.

Lemma run_Alt_l r1 r2 k a c x : run r1 k a c = Some x -> run (Alt r1 r2) k a c = Some x.
Proof. intros H. cbn. by rewrite H. Qed.

Lemma run_Alt_r r1 r2 k a c : run r1 k a c = None -> run (Alt r1 r2) k a c = run r2 k a c.
Proof. intros H. cbn. by rewrite H. Qed.

(** A pattern that, on a text starting with [w], has exactly one way: it consumes [w]. *)
Definition eats (r : regex) (w : jstring) : Prop :=
  forall k a c, run r k (w ++ a) c = k a c.

Lemma eats_Lit w : eats (Lit w) w.
Proof. intros k a c. apply run_Lit_app. Qed.

Lemma eats_Chr p x : p x = true -> eats (Chr p) [x].
Proof. intros H k a c. cbn. by rewrite H. Qed.

Lemma eats_Seq r1 r2 w1 w2 : eats r1 w1 -> eats r2 w2 -> eats (Seq r1 r2) (w1 ++ w2).
Proof. intros H1 H2 k a c. rewrite <- app_assoc, run_Seq, H1. apply H2. Qed.

(** Repetition over a text cut into pieces each of which the pattern eats: the only way
    that is left is to take them all, when the rest of the pattern cannot start at the start
    of a piece and no further round can start after the last. *)
Lemma star_loop_pieces r k ws a c fuel :
  Forall (fun w => eats r w /\ w <> []) ws ->
  (forall w ws1 ws2, ws = ws1 ++ w :: ws2 -> k (concat (w :: ws2) ++ a) c = None) ->
  (forall k', run r k' a c = None) ->
  (length ws <= fuel)%nat ->
  star_loop (run r) k fuel (concat ws ++ a) c = k a c.
Proof.
  intros Hws. revert fuel. induction Hws as [|w ws [Hw Hne] Hws IH]; intros fuel Hk Ha Hf.
  - cbn [concat app]. destruct fuel; cbn [star_loop]; rewrite ?Ha; cbn; by destruct (k a c).
  - destruct fuel as [|f]; [cbn in Hf; lia|]. cbn [star_loop concat]. rewrite <- app_assoc, Hw.
    rewrite (proj2 (Nat.ltb_lt _ _)) by (rewrite !length_app; destruct w; [done|cbn; lia]).
    rewrite IH; [|by intros w' ws1 ws2 ->; apply (Hk w' (w :: ws1) ws2)|done|cbn in Hf; lia].
    specialize (Hk w [] ws eq_refl). cbn [concat] in Hk. rewrite <- app_assoc in Hk. rewrite Hk.
    by destruct (k a c).
Qed.

Lemma run_Star_pieces r k ws a c :
  Forall (fun w => eats r w /\ w <> []) ws ->
  (forall w ws1 ws2, ws = ws1 ++ w :: ws2 -> k (concat (w :: ws2) ++ a) c = None) ->
  (forall k', run r k' a c = None) ->
  run (Star r) k (concat ws ++ a) c = k a c.
Proof.
  intros Hws Hk Ha. cbn [run]. apply star_loop_pieces; [done..|].
  rewrite length_app. assert (length ws <= length (concat ws))%nat; [|lia].
  clear Hk. induction Hws as [|w ws [_ Hw] _ IH]; cbn; [lia|]. rewrite length_app.
  destruct w; [done|cbn; lia].
Qed.

Definition starts (p : N -> bool) (a : jstring) : bool :=
  match a with x :: _ => p x | [] => false end.

(** A continuation that can only go on at a unit of class [q]. *)
Definition needs (q : N -> bool) (k : cont A) : Prop :=
  forall a c, starts q a = false -> k a c = None.

Lemma run_Chr_stop p k a c : starts p a = false -> run (Chr p) k a c = None.
Proof. destruct a as [|x a]; cbn; [done|]. by intros ->. Qed.

(** A greedy run of a class, followed by something that cannot start inside it. *)
Lemma run_Star_Chr p k w a c :
  Forall (fun x => p x = true) w -> starts p a = false ->
  (forall x w', p x = true -> Forall (fun x => p x = true) w' -> k (x :: w' ++ a) c = None) ->
  run (Star (Chr p)) k (w ++ a) c = k a c.
Proof.
  intros Hw Ha Hk.
  assert (forall w : jstring, concat (map (fun x => [x]) w) = w) as Hconcat.
  { clear. intros w. induction w as [|x w IH]; cbn; [done|]. by rewrite IH. }
  rewrite <- (Hconcat w). apply run_Star_pieces.
  - clear -Hw. induction Hw; cbn; constructor; [split; [by apply eats_Chr|done]|done].
  - intros v ws1 ws2 E. assert (exists w1 x w2, w = w1 ++ x :: w2 /\ v = [x] /\ ws2 = map (fun x => [x]) w2)
      as (w1 & x & w2 & -> & -> & ->).
    { revert E. clear. revert ws1. induction w as [|y w IH]; intros ws1 E; [by destruct ws1|].
      destruct ws1 as [|v1 ws1]; cbn in E; injection E as E1 E2.
      - exists [], y, w. by subst.
      - destruct (IH _ E2) as (w1 & x & w2 & -> & -> & ->). by exists (y :: w1), x, w2. }
    cbn [concat app]. rewrite Hconcat. apply Forall_app in Hw as [_ [Hx Hw2]%Forall_cons].
    by apply Hk.
  - intros k'. by apply run_Chr_stop.
Qed.

Lemma run_Plus_Chr p q k w a c :
  w <> [] -> Forall (fun x => p x = true) w -> starts p a = false ->
  needs q k -> (forall x, p x = true -> q x = false) ->
  run (Plus (Chr p)) k (w ++ a) c = k a c.
Proof.
  intros Hne Hw Ha Hk Hpq. destruct Hw as [|x w Hx Hw]; [done|]. unfold Plus.
  cbn [app]. rewrite run_Seq, run_Chr_head by done. apply run_Star_Chr; [done..|]. intros y w' Hy _. apply Hk. cbn. auto.
Qed.

Lemma run_Plus_Chr_stop p k a c : starts p a = false -> run (Plus (Chr p)) k a c = None.
Proof. intros H. unfold Plus. rewrite run_Seq. by apply run_Chr_stop. Qed.

Lemma needs_Chr p k : needs p (run (Chr p) k).
Proof. intros a c. apply run_Chr_stop. Qed.

Lemma needs_Lit x w k : needs (fun y => (x =? y)%N) (run (Lit (x :: w)) k).
Proof. intros a c H. destruct a as [|y a]; cbn in *; [done|]. by rewrite H. Qed.

Lemma needs_Seq q r1 r2 k : needs q (run r1 (run r2 k)) -> needs q (run (Seq r1 r2) k).
Proof. done. Qed.

Lemma needs_Grp q n r k :
  (forall k', needs q (run r k')) -> needs q (run (Grp n r) k).
Proof. intros H a c. apply H. Qed.

Lemma needs_Alt q r1 r2 k :
  needs q (run r1 k) -> needs q (run r2 k) -> needs q (run (Alt r1 r2) k).
Proof. intros H1 H2 a c H. cbn. by rewrite (H1 a c H), (H2 a c H). Qed.

End Running.

(** At the end of the pattern any unit is in the way. *)
Lemma at_end_stop x a c : at_end (x :: a) c = None.
Proof. done. Qed.

(** ** What a match says about the text *)

(** Every unit the pattern can consume is of class [p]. *)
Fixpoint within (p : N -> bool) (r : regex) : Prop :=
  match r with
  | Eps => True
  | Lit s => Forall (fun x => p x = true) s
  | Chr q => forall x, q x = true -> p x = true
  | Seq a b | Alt a b => within p a /\ within p b
  | Star a | Grp _ a => within p a
  | Ref _ => False
  end.

(** The pattern consumes nothing but a prefix, of the class, and then goes on. *)
Lemma run_within {A} p r : within p r -> forall (k : cont A) a c y, run r k a c = Some y ->
  exists w a' c', a = w ++ a' /\ Forall (fun x => p x = true) w /\ k a' c' = Some y.
Proof.
  induction r as [|s|q|r1 IH1 r2 IH2|r1 IH1 r2 IH2|r IH|n r IH|n]; cbn; intros Hp k a c y H.
  - by exists [], a, c.
  - destruct (strip s a) as [a'|] eqn:E; [|done]. apply strip_Some in E as ->. by exists s, a', c.
  - destruct a as [|x a]; [done|]. destruct (q x) eqn:E; [|done]. exists [x], a, c.
    split; [done|]. split; [|done]. constructor; [auto|done].
  - destruct Hp as [Hp1 Hp2]. destruct (IH1 Hp1 _ _ _ _ H) as (w & a' & c' & -> & Hw & H').
    destruct (IH2 Hp2 _ _ _ _ H') as (w2 & a2 & c2 & -> & Hw2 & H2).
    exists (w ++ w2), a2, c2. rewrite <- app_assoc. split; [done|]. split; [|done]. by apply Forall_app.
  - destruct Hp as [Hp1 Hp2]. destruct (run r1 k a c) eqn:E; cbn in H; [simplify_eq|]; eauto.
  - revert H. generalize (length a) at 1 as fuel. intros fuel. revert a c.
    induction fuel as [|f IHf]; intros a c H; cbn in H; [by exists [], a, c|].
    destruct (run r _ a c) as [y'|] eqn:E; cbn in H; [|by exists [], a, c].
    injection H as ->. destruct (IH Hp _ _ _ _ E) as (w & a' & c' & -> & Hw & H').
    cbv beta in H'. match type of H' with (if ?b then _ else _) = _ => destruct b; [|done] end.
    destruct (IHf _ _ H') as (w2 & a2 & c2 & -> & Hw2 & H2).
    exists (w ++ w2), a2, c2. rewrite <- app_assoc. split; [done|]. split; [|done]. by apply Forall_app.
  - destruct (IH Hp _ _ _ _ H) as (w & a' & c' & -> & Hw & H'). by eexists w, a', _.
  - done.
Qed.

Lemma test_within p r s : within p r -> test r s = true -> Forall (fun x => p x = true) s.
Proof.
  unfold test, fullmatch. intros Hp H. destruct (run r at_end s []) as [c|] eqn:E; [|done].
  destruct (run_within p r Hp _ _ _ _ E) as (w & a' & c' & -> & Hw & H').
  destruct a'; [by rewrite app_nil_r|done].
Qed.

(** A match is a prefix: what is left of a search is shorter or the same. *)
Lemma run_suffix {A} r : forall (k : cont A) a c y, run r k a c = Some y ->
  exists w a' c', a = w ++ a' /\ k a' c' = Some y.
Proof.
  induction r as [|s|q|r1 IH1 r2 IH2|r1 IH1 r2 IH2|r IH|n r IH|n]; cbn; intros k a c y H.
  - by exists [], a, c.
  - destruct (strip s a) as [a'|] eqn:E; [|done]. apply strip_Some in E as ->. by exists s, a', c.
  - destruct a as [|x a]; [done|]. destruct (q x) eqn:E; [|done]. by exists [x], a, c.
  - destruct (IH1 _ _ _ _ H) as (w & a' & c' & -> & H').
    destruct (IH2 _ _ _ _ H') as (w2 & a2 & c2 & -> & H2). exists (w ++ w2), a2, c2. by rewrite <- app_assoc.
  - destruct (run r1 k a c) eqn:E; cbn in H; [simplify_eq|]; eauto.
  - revert H. generalize (length a) at 1 as fuel. intros fuel. revert a c.
    induction fuel as [|f IHf]; intros a c H; cbn in H; [by exists [], a, c|].
    destruct (run r _ a c) as [y'|] eqn:E; cbn in H; [|by exists [], a, c].
    injection H as ->. destruct (IH _ _ _ _ E) as (w & a' & c' & -> & H').
    cbv beta in H'. match type of H' with (if ?b then _ else _) = _ => destruct b; [|done] end.
    destruct (IHf _ _ H') as (w2 & a2 & c2 & -> & H2).
    exists (w ++ w2), a2, c2. by rewrite <- app_assoc.
  - destruct (IH _ _ _ _ H) as (w & a' & c' & -> & H'). by eexists w, a', _.
  - destruct (strip _ a) as [a'|] eqn:E; [|done]. apply strip_Some in E as ->. by eexists _, a', c.
Qed.

(** Step over a literal that is there, and fail at one that is not. *)
Ltac lit := erewrite run_Lit_pre by reflexivity.
Ltac nolit := rewrite run_Lit_fail by reflexivity.

(** Greedy repetition from the other side: the pattern goes on at the last place it can. *)
Section LastPlace.
Context {A : Type} (p : N -> bool) (k : cont A) (T : jstring) (c : caps) (y : A).
Hypothesis later_fail : forall T1 T2, T1 <> [] -> T = T1 ++ T2 -> k T2 c = None.
Hypothesis here : k T c = Some y.
Hypothesis all_p : Forall (fun x => p x = true) T.

Lemma star_loop_none fuel T1 T2 : T1 <> [] -> T = T1 ++ T2 -> star_loop (run (Chr p)) k fuel T2 c = None.
Proof using all_p later_fail.
  revert T1 T2. induction fuel as [|f IH]; intros T1 T2 Hne E; cbn [star_loop].
  - by eapply later_fail.
  - rewrite (later_fail T1 T2) by done. destruct T2 as [|x T2]; [done|].
    assert (p x = true) as Hx.
    { pose proof all_p as Hall. rewrite E in Hall. apply Forall_app in Hall as [_ Hall].
      by apply Forall_cons in Hall as [? _]. }
    rewrite run_Chr_head by done. rewrite (proj2 (Nat.ltb_lt _ _)) by (cbn; lia).
    rewrite (IH (T1 ++ [x])); [done| |by rewrite <- app_assoc]. by destruct T1.
Qed.

Lemma star_loop_last w : Forall (fun x => p x = true) w -> forall fuel, (length w <= fuel)%nat ->
  star_loop (run (Chr p)) k fuel (w ++ T) c = Some y.
Proof using all_p later_fail here.
  induction 1 as [|x w Hx Hw IH]; intros fuel Hf.
  - cbn [app]. destruct fuel as [|f]; cbn [star_loop]; [by rewrite here|].
    set (K := fun a' c' => if (length a' <? length T)%nat then star_loop (run (Chr p)) k f a' c' else None).
    assert (run (Chr p) K T c = None) as ->; [|by rewrite here].
    assert (T = [] \/ exists x T', T = x :: T') as [-> | (x & T' & ET)] by (destruct T; eauto); [done|].
    assert (p x = true) as Hx.
    { pose proof all_p as Hall. rewrite ET in Hall. by apply Forall_cons in Hall as [? _]. }
    rewrite ET at 1. rewrite run_Chr_head by done. unfold K.
    destruct (length T' <? length T)%nat; [|done]. by apply (star_loop_none f [x]).
  - destruct fuel as [|f]; [cbn in Hf; lia|]. cbn [app star_loop]. rewrite run_Chr_head by done.
    rewrite (proj2 (Nat.ltb_lt _ _)) by (cbn; lia). rewrite IH by (cbn in Hf; lia). done.
Qed.

Lemma run_Star_last w : Forall (fun x => p x = true) w -> run (Star (Chr p)) k (w ++ T) c = Some y.
Proof using all_p later_fail here.
  intros Hw. cbn [run]. apply star_loop_last; [done|]. rewrite length_app. lia.
Qed.
End LastPlace.

(** ** The language of a pattern without groups *)

Fixpoint group_free (r : regex) : bool :=
  match r with
  | Eps | Lit _ | Chr _ => true
  | Seq a b | Alt a b => group_free a && group_free b
  | Star a => group_free a
  | Grp _ _ | Ref _ => false
  end.

Inductive matches : regex -> jstring -> Prop :=
| m_eps : matches Eps []
| m_lit s : matches (Lit s) s
| m_chr (p : N -> bool) x : p x = true -> matches (Chr p) [x]
| m_seq a b u v : matches a u -> matches b v -> matches (Seq a b) (u ++ v)
| m_alt_l a b u : matches a u -> matches (Alt a b) u
| m_alt_r a b u : matches b u -> matches (Alt a b) u
| m_star_nil a : matches (Star a) []
| m_star_cons a u v : u <> [] -> matches a u -> matches (Star a) v -> matches (Star a) (u ++ v).

(** What the matcher finds is in the language. *)
Lemma run_matches {A} r : group_free r = true -> forall (k : cont A) a c y, run r k a c = Some y ->
  exists w a', a = w ++ a' /\ matches r w /\ k a' c = Some y.
Proof.
  induction r as [|s|q|r1 IH1 r2 IH2|r1 IH1 r2 IH2|r IH|n r IH|n]; cbn; intros Hg k a c y H; try done.
  - exists [], a. by repeat constructor.
  - destruct (strip s a) as [a'|] eqn:E; [|done]. apply strip_Some in E as ->.
    exists s, a'. by repeat constructor.
  - destruct a as [|x a]; [done|]. destruct (q x) eqn:E; [|done]. exists [x], a. by repeat constructor.
  - apply andb_true_iff in Hg as [Hg1 Hg2].
    destruct (IH1 Hg1 _ _ _ _ H) as (w & a' & -> & Hw & H').
    destruct (IH2 Hg2 _ _ _ _ H') as (w2 & a2 & -> & Hw2 & H2).
    exists (w ++ w2), a2. rewrite <- app_assoc. split; [done|]. split; [by constructor|done].
  - apply andb_true_iff in Hg as [Hg1 Hg2]. destruct (run r1 k a c) eqn:E; cbn in H.
    + simplify_eq. destruct (IH1 Hg1 _ _ _ _ E) as (w & a' & -> & Hw & H'). exists w, a'. by split_and!; [|apply m_alt_l|].
    + destruct (IH2 Hg2 _ _ _ _ H) as (w & a' & -> & Hw & H'). exists w, a'. by split_and!; [|apply m_alt_r|].
  - revert H. generalize (length a) at 1 as fuel. intros fuel. revert a.
    induction fuel as [|f IHf]; intros a H; cbn in H; [exists [], a; by repeat constructor|].
    destruct (run r _ a c) as [y'|] eqn:E; cbn in H; [|exists [], a; by repeat constructor].
    injection H as ->. destruct (IH Hg _ _ _ _ E) as (w & a' & -> & Hw & H').
    cbv beta in H'. match type of H' with (if ?b then _ else _) = _ => destruct b eqn:El; [|done] end.
    destruct (IHf _ H') as (w2 & a2 & -> & Hw2 & H2).
    exists (w ++ w2), a2. rewrite <- app_assoc. split; [done|]. split; [|done]. constructor; [|done..].
    intros ->. cbn in El. destruct (length (w2 ++ a2)); [done|]. apply Nat.leb_le in El. lia.
Qed.

(** The matcher sees its continuation only through its results. *)
Lemma star_loop_ext {A} (m m' : cont A -> cont A) (k k' : cont A) fuel :
  (forall h h', (forall a c, h a c = h' a c) -> forall a c, m h a c = m' h' a c) ->
  (forall a c, k a c = k' a c) -> forall a c, star_loop m k fuel a c = star_loop m' k' fuel a c.
Proof.
  intros Hm Hk. induction fuel as [|f IH]; intros a c; cbn [star_loop]; rewrite Hk; [done|]. f_equal.
  apply Hm. intros a' c'. by destruct (length a' <? length a)%nat.
Qed.

Lemma run_ext {A} r : forall (k k' : cont A), (forall a c, k a c = k' a c) ->
  forall a c, run r k a c = run r k' a c.
Proof.
  induction r as [|s|q|r1 IH1 r2 IH2|r1 IH1 r2 IH2|r IH|n r IH|n]; intros k k' Hk a c; cbn [run].
  - done.
  - by destruct (strip s a).
  - destruct a as [|x a]; [done|]. by destruct (q x).
  - apply IH1. by apply IH2.
  - by rewrite (IH1 k k' Hk), (IH2 k k' Hk).
  - apply star_loop_ext; [|done]. intros h h' Hh. by apply IH.
  - by apply IH.
  - by destruct (strip (capd c n) a).
Qed.

(** Fuel beyond the length of the text changes nothing. *)
Lemma star_fuel {A} r (k : cont A) fuel a c : (length a <= fuel)%nat ->
  star_loop (run r) k fuel a c = run (Star r) k a c.
Proof.
  cbn [run]. enough (forall n m a c, (length a <= n)%nat -> (length a <= m)%nat ->
    star_loop (run r) k n a c = star_loop (run r) k m a c) as H by (intros; apply H; lia).
  assert (forall (h : cont A) c, run r (fun a' c' => if (length a' <? 0)%nat then h a' c' else None) [] c = None) as Hnil.
  { intros h c'. destruct (run r _ [] c') as [y|] eqn:E; [|done].
    apply run_suffix in E as (w & a' & c'' & _ & E). done. }
  induction n as [|n IH]; intros m a' c' Hn Hm.
  - destruct a'; [|cbn in Hn; lia]. destruct m as [|m]; cbn [star_loop length]; [done|].
    by rewrite (Hnil (star_loop (run r) k m)).
  - destruct m as [|m].
    + destruct a'; [|cbn in Hm; lia]. cbn [star_loop length]. by rewrite (Hnil (star_loop (run r) k n)).
    + cbn [star_loop]. f_equal. apply run_ext. intros b d. destruct (Nat.ltb_spec (length b) (length a')); [|done].
      apply IH; lia.
Qed.

(** And what is in the language is found, or something before it. *)
Lemma matches_run {A} r w : matches r w -> forall (k : cont A) a c,
  k a c <> None -> run r k (w ++ a) c <> None.
Proof.
  induction 1 as [|s|p x Hx|a b u v _ IHa _ IHb|a b u _ IH|a b u _ IH|a|a u v Hne _ IHu Hv IHv]; intros k t c Hk.
  - done.
  - by rewrite run_Lit_app.
  - cbn. by rewrite Hx.
  - rewrite <- app_assoc, run_Seq. apply IHa. by apply IHb.
  - rewrite run_Alt. specialize (IH k t c Hk). by destruct (run a k _ c).
  - rewrite run_Alt. specialize (IH k t c Hk). by destruct (run a k _ c).
  - cbn [app run]. destruct (length t); cbn [star_loop]; [done|]. by destruct (run a _ t c).
  - rewrite <- app_assoc. cbn [run].
    assert (exists f, length (u ++ v ++ t) = S f) as [f Ef] by (destruct u; [done|]; by eexists).
    rewrite Ef. cbn [star_loop].
    set (K := fun a' c' => if (length a' <? length (u ++ v ++ t))%nat then star_loop (run a) k f a' c' else None).
    assert (run a K (u ++ v ++ t) c <> None) as H; [|by destruct (run a K _ c)].
    apply IHu. unfold K. rewrite (proj2 (Nat.ltb_lt _ _)) by (rewrite !length_app; destruct u; [done|cbn; lia]).
    rewrite star_fuel; [|rewrite !length_app in Ef; destruct u; [done|cbn in Ef; rewrite length_app; lia]].
    by apply IHv.
Qed.

(** When every other way fails, the pattern takes [w]. *)
Lemma run_unique {A} r w (k : cont A) a c y : group_free r = true -> matches r w -> k a c = Some y ->
  (forall w' a', w ++ a = w' ++ a' -> matches r w' -> a' <> a -> k a' c = None) ->
  run r k (w ++ a) c = Some y.
Proof.
  intros Hg Hw Hk Hother. destruct (run r k (w ++ a) c) as [y'|] eqn:E.
  - destruct (run_matches r Hg _ _ _ _ E) as (w' & a' & Ea & Hw' & Hy).
    destruct (decide (a' = a)) as [-> | Hne]; [congruence|]. by rewrite (Hother w' a') in Hy.
  - exfalso. eapply matches_run; [exact Hw| |exact E]. by rewrite Hk.
Qed.

Lemma test_matches r s : group_free r = true -> test r s = true <-> matches r s.
Proof.
  intros Hg. unfold test, fullmatch. split.
  - destruct (run r at_end s []) as [c|] eqn:E; [|done]. intros _.
    destruct (run_matches r Hg _ _ _ _ E) as (w & a' & -> & Hw & Ha). destruct a'; [|done]. by rewrite app_nil_r.
  - intros H. pose proof (matches_run r s H at_end [] [] ltac:(done)) as E. rewrite app_nil_r in E.
    by destruct (run r at_end s []).
Qed.

(** The language of a pattern is within its class of units. *)
Lemma matches_within p r w : within p r -> matches r w -> Forall (fun x => p x = true) w.
Proof.
  intros Hp H. induction H; cbn in Hp; rewrite ?Forall_app; try (by auto); try (by destruct Hp; auto).
Qed.
