(* ===== verification/RequestRules.v ===== *)
(** * Request rules of a billing expression

    features/pricing/lib/billing-expr.ts, from the request rule constants to the end of
    the file, without the tiers (BillingTiers.v): how the text of the request rules is
    read, how the visual editor writes it, and how a billing expression is cut into the
    price and the rules. *)

From S2P Require Import Prelude JsValue JsText Regex.
#[global] Open Scope Z_scope.
#[local] Open Scope exc_scope.

(** ** Constants and data *)

Definition SOURCE_PARAM : jstring := js "param".
Definition SOURCE_HEADER : jstring := js "header".
Definition SOURCE_TIME : jstring := js "time".

Definition MATCH_EQ : jstring := js "eq".
Definition MATCH_CONTAINS : jstring := js "contains".
Definition MATCH_GT : jstring := js "gt".
Definition MATCH_GTE : jstring := js "gte".
Definition MATCH_LT : jstring := js "lt".
Definition MATCH_LTE : jstring := js "lte".
Definition MATCH_EXISTS : jstring := js "exists".
Definition MATCH_RANGE : jstring := js "range".

Inductive TimeFunc := hour | minute | weekday | month | day.
#[global] Instance TimeFunc_eq : EqDecision TimeFunc.
Proof. solve_decision. Defined.

Definition TIME_FUNCS : list TimeFunc := [hour; minute; weekday; month; day].

(** The string a member of the union is. *)
Definition time_text (f : TimeFunc) : jstring :=
  match f with
  | hour => js "hour" | minute => js "minute" | weekday => js "weekday"
  | month => js "month" | day => js "day"
  end.

(** [isTimeFunc(value)], with the member it is. *)
Definition isTimeFunc (s : jstring) : option TimeFunc :=
  List.find (fun f => jeqb (time_text f) s) TIME_FUNCS.

Inductive ph_source := param | header.
#[global] Instance ph_source_eq : EqDecision ph_source.
Proof. solve_decision. Defined.

Definition source_text (s : ph_source) : jstring :=
  match s with param => SOURCE_PARAM | header => SOURCE_HEADER end.

(** [RequestCondition], the union of the two condition types by its field source. *)
Inductive RequestCondition :=
| TimeCondition (timeFunc : TimeFunc) (timezone mode value rangeStart rangeEnd : jstring)
| ParamHeaderCondition (source : ph_source) (path mode value : jstring).
#[global] Instance RequestCondition_eq : EqDecision RequestCondition.
Proof. solve_decision. Defined.

Record RequestRuleGroup := {
  conditions : list RequestCondition;
  multiplier : jstring;
  conditionText : option jstring;
  matched : option bool
}.

Record RequestRuleTrace := {
  t_cond : jstring;
  t_multiplier : jsnum;
  t_matched : bool
}.

(** [/^-?(?:\d+\.?\d*|\.\d+)(?:[eE][+-]?\d+)?$/] *)
Definition numeric_literal : regex :=
  Seqs [Opt (Lit (js "-"));
        Alt (Seqs [Plus (Chr is_digit); Opt (Lit (js ".")); Star (Chr is_digit)])
            (Seqs [Lit (js "."); Plus (Chr is_digit)]);
        Opt (Seqs [Chr (one_of (js "eE")); Opt (Chr (one_of (js "+-"))); Plus (Chr is_digit)])].

Definition NUMERIC_LITERAL_REGEX (s : jstring) : bool := test numeric_literal s.

(** ** Splitting at the top level *)

(** The loop of [splitTopLevelMultiply] and [splitTopLevelAnd]: the depth of the
    parentheses, the current part reversed, and the units of a separator still to pass. *)
Fixpoint split_top (sep : jstring) (skip : nat) (depth : Z) (cur : jstring) (s : jstring) : list jstring :=
  match s with
  | [] => [trim (rev cur)]
  | c :: s' =>
      match skip with
      | S n => split_top sep n depth cur s'
      | O =>
          let depth := if (c =? 40)%N then depth + 1 else depth in
          let depth := if (c =? 41)%N then depth - 1 else depth in
          if (depth =? 0) && startsWith s sep
          then trim (rev cur) :: split_top sep (length sep - 1) depth [] s'
          else split_top sep 0 depth (c :: cur) s'
      end
  end.

Definition splitTopLevelMultiply (expr : jstring) : list jstring :=
  List.filter truthy (split_top (js " * ") 0 0 [] expr).
Definition splitTopLevelAnd (expr : jstring) : list jstring :=
  List.filter truthy (split_top (js " && ") 0 0 [] expr).

(** ** Literals and time values *)

(** The value as it is parsed; null where the text is no literal (or is null). *)
Definition parseExprLiteral (raw : jstring) : jsval :=
  let text := trim raw in
  if jeqb text (js "true") || jeqb text (js "false") then JStr text
  else if NUMERIC_LITERAL_REGEX text then JStr text
  else catch (JSON_parse text) JNull.

Definition TIME_FUNC_RANGES (f : TimeFunc) : Z * Z :=
  match f with
  | hour => (0, 23) | minute => (0, 59) | weekday => (0, 6) | month => (1, 12) | day => (1, 31)
  end.

Definition isTimeValueInRange (timeFunc : TimeFunc) (text : jstring) : bool :=
  if negb (NUMERIC_LITERAL_REGEX text) then false
  else
    let value := Number text in
    if negb (isInteger value) then false
    else
      let (min, max) := TIME_FUNC_RANGES timeFunc in
      negb (num_ltb value (num_of_Z min)) && negb (num_ltb (num_of_Z max) value).

(** ** Patterns *)

Definition qt : jstring := [ch_quote].
Definition not_quote : N -> bool := any_but qt.
(** [[\d.eE+-]] *)
Definition num_unit (c : N) : bool := is_digit c || one_of (js ".eE+-") c.

Definition time_names : regex :=
  Alts [Lit (js "hour"); Lit (js "minute"); Lit (js "weekday"); Lit (js "month")] (Lit (js "day")).

(** A call of a time function (group 1) with a time zone (group 2), up to the closing quote. *)
Definition time_call (rest : list regex) : list regex :=
  [Grp 1 time_names; Lit (js "(" ++ qt); Grp 2 (Plus (Chr not_quote))] ++ rest.

(** Both bounds of a range; the second call repeats groups 1 and 2. *)
Definition time_range (rest : list regex) : list regex :=
  time_call
    ([Lit (qt ++ js ") >= "); Grp 3 (Plus (Chr num_unit)); Lit (js " ");
      Alt (Lit (js "&&")) (Lit (js "||")); Lit (js " "); Ref 1; Lit (js "(" ++ qt); Ref 2;
      Lit (qt ++ js ") < "); Grp 4 (Plus (Chr num_unit))] ++ rest).

Definition time_range_re : regex := Seqs (time_range []).
Definition time_range_paren_re : regex := Seqs (Lit (js "(") :: time_range [Lit (js ")")]).
(** One comparison. *)
Definition time_scalar_re : regex :=
  Seqs (time_call [Lit (qt ++ js ") "); Grp 3 (Alts [Lit (js "=="); Lit (js ">=")] (Lit (js "<")));
                   Lit (js " "); Grp 4 (Plus (Chr num_unit))]).

Definition group_path (n : nat) : regex := Grp n (Plus (Chr not_quote)).
(** The text of a string: between quotes, units that are neither quote nor backslash, and a
    backslash with any unit but a line terminator. *)
Definition quoted_body : regex :=
  Star (Alt (Chr (any_but [34; 92]%N)) (Seq (Lit [92%N]) (Chr dot))).
Definition quoted : regex := Seqs [Lit qt; quoted_body; Lit qt].

Definition header_exists_re : regex := Seqs [Lit (js "header(" ++ qt); group_path 1; Lit (qt ++ js ") != " ++ qt ++ qt)].
Definition param_exists_re : regex := Seqs [Lit (js "param(" ++ qt); group_path 1; Lit (qt ++ js ") != nil")].
Definition header_has_re : regex :=
  Seqs [Lit (js "has(header(" ++ qt); group_path 1; Lit (qt ++ js "), "); Grp 2 quoted; Lit (js ")")].
Definition param_has_re : regex :=
  Seqs [Lit (js "param(" ++ qt); group_path 1; Lit (qt ++ js ") != nil && has(param(" ++ qt); group_path 2;
        Lit (qt ++ js "), "); Grp 3 quoted; Lit (js ")")].
Definition param_cmp_re : regex :=
  Seqs [Lit (js "param(" ++ qt); group_path 1; Lit (qt ++ js ") != nil && param(" ++ qt); group_path 2;
        Lit (qt ++ js ") "); Grp 3 (Alts [Lit (js ">"); Lit (js ">="); Lit (js "<")] (Lit (js "<=")));
        Lit (js " "); Grp 4 (Plus (Chr num_unit))].
Definition eq_re : regex :=
  Seqs [Grp 1 (Alt (Lit (js "param")) (Lit (js "header"))); Lit (js "(" ++ qt); group_path 2;
        Lit (qt ++ js ") == "); Grp 3 (Plus (Chr dot))].
(** A condition and a multiplier; the [s] flag lets the dot take line terminators. *)
Definition factor_re : regex :=
  Seqs [Lit (js "("); Grp 1 (Plus (Chr anything)); Lit (js " ? "); Grp 2 (Plus (Chr num_unit)); Lit (js " : 1)")].

(** ** Reading conditions *)

(** A lookup in [opMap]. *)
Definition time_op_mode (op : jstring) : jstring :=
  coalesce (assoc op [(js "==", MATCH_EQ); (js ">=", MATCH_GTE); (js "<", MATCH_LT)]) MATCH_EQ.
Definition cmp_op_mode (op : jstring) : jstring :=
  coalesce (assoc op [(js ">", MATCH_GT); (js ">=", MATCH_GTE); (js "<", MATCH_LT); (js "<=", MATCH_LTE)]) [].

(** Group 1 of a time pattern is one of the names: the cast of the code. *)
Definition tryParseTimeCondition (expr : jstring) : option RequestCondition :=
  match orelse (fullmatch time_range_re expr) (fullmatch time_range_paren_re expr) with
  | Some m =>
      match isTimeFunc (capd m 1) with
      | Some f =>
          if negb (isTimeValueInRange f (capd m 3)) || negb (isTimeValueInRange f (capd m 4)) then None
          else Some (TimeCondition f (capd m 2) MATCH_RANGE [] (capd m 3) (capd m 4))
      | None => None
      end
  | None =>
      match fullmatch time_scalar_re expr with
      | Some m =>
          match isTimeFunc (capd m 1) with
          | Some f =>
              if negb (isTimeValueInRange f (capd m 4)) then None
              else Some (TimeCondition f (capd m 2) (time_op_mode (capd m 3)) (capd m 4) [] [])
          | None => None
          end
      | None => None
      end
  end.

(** The patterns after the time conditions, each with what the code makes of its match; an
    attempt that fails leaves the text to the next.  It throws where [JSON.parse] meets a bad
    escape, or where a value has no string. *)
Definition tryParseRequestCondition (expr : jstring) : exc (option RequestCondition) :=
  match tryParseTimeCondition expr with
  | Some tc => Ret (Some tc)
  | None =>
      let found source path mode value := Ret (Some (ParamHeaderCondition source path mode value)) in
      let attempt (re : regex) (f : caps -> option (exc (option RequestCondition))) :=
        match fullmatch re expr with Some m => f m | None => None end in
      coalesce
        (orelse (attempt header_exists_re (fun m => Some (found header (capd m 1) MATCH_EXISTS [])))
        (orelse (attempt param_exists_re (fun m => Some (found param (capd m 1) MATCH_EXISTS [])))
        (orelse (attempt header_has_re (fun m => Some (
                  let? value := JSON_parse (capd m 2) in
                  found header (capd m 1) MATCH_CONTAINS (asString value))))
        (orelse (attempt param_has_re (fun m =>
                  if jeqb (capd m 1) (capd m 2) then Some (
                    let? value := JSON_parse (capd m 3) in
                    found param (capd m 1) MATCH_CONTAINS (asString value))
                  else None))
        (orelse (attempt param_cmp_re (fun m =>
                  if jeqb (capd m 1) (capd m 2)
                  then Some (found param (capd m 1) (cmp_op_mode (capd m 3)) (capd m 4))
                  else None))
        (attempt eq_re (fun m =>
           let source := if jeqb (capd m 1) SOURCE_HEADER then header else param in
           Some match parseExprLiteral (capd m 3) with
                | JNull => Ret None
                | parsedValue =>
                    let? text := String_of parsedValue in
                    found source (capd m 2) MATCH_EQ text
                end)))))))
        (Ret None)
  end.

Definition tryParseTimeRangePair (lower upper : jstring) : option RequestCondition :=
  match tryParseTimeCondition lower, tryParseTimeCondition upper with
  | Some (TimeCondition fa tza ma va _ _), Some (TimeCondition fb tzb mb vb _ _) =>
      if negb (bool_decide (fa = fb)) || negb (jeqb tza tzb) then None
      else if negb (jeqb ma MATCH_GTE) || negb (jeqb mb MATCH_LT) then None
      else Some (TimeCondition fa tza MATCH_RANGE [] va vb)
  | _, _ => None
  end.

(** The loop over the parts: adjacent bounds of a time range make one condition. *)
Fixpoint parse_parts (parts : list jstring) : exc (option (list RequestCondition)) :=
  match parts with
  | [] => Ret (Some [])
  | p :: rest =>
      let part := trim p in
      let single :=
        let? condition := tryParseRequestCondition part in
        match condition with
        | None => Ret None
        | Some c =>
            let? others := parse_parts rest in
            Ret (match others with Some cs => Some (c :: cs) | None => None end)
        end in
      match rest with
      | q :: rest' =>
          let next := trim q in
          match (if truthy next then tryParseTimeRangePair part next else None) with
          | Some merged =>
              let? others := parse_parts rest' in
              Ret (match others with Some cs => Some (merged :: cs) | None => None end)
          | None => single
          end
      | [] => single
      end
  end.

Definition tryParseRequestConditions (conditionStr : jstring) : exc (option (list RequestCondition)) :=
  match tryParseTimeCondition (trim conditionStr) with
  | Some wholeTimeCond => Ret (Some [wholeTimeCond])
  | None =>
      let? conditions := parse_parts (splitTopLevelAnd conditionStr) in
      Ret (match conditions with Some (c :: cs) => Some (c :: cs) | _ => None end)
  end.

Definition tryParseRuleGroupFactor (part : jstring) : exc (option RequestRuleGroup) :=
  match fullmatch factor_re part with
  | None => Ret None
  | Some m =>
      let? conditions := tryParseRequestConditions (capd m 1) in
      Ret (match conditions with
           | Some cs => Some {| conditions := cs; multiplier := capd m 2; conditionText := None; matched := None |}
           | None => None
           end)
  end.

Definition requestRuleGroupsFromTrace (requestRules : list RequestRuleTrace) : exc (list RequestRuleGroup) :=
  emap (fun rule =>
    let text := trim (t_cond rule) in
    let? conditions := tryParseRequestConditions text in
    Ret {| conditions := coalesce conditions []; multiplier := string_of_num (t_multiplier rule);
           conditionText := Some text; matched := Some (t_matched rule) |}) requestRules.

Fixpoint parse_factors (parts : list jstring) : exc (option (list RequestRuleGroup)) :=
  match parts with
  | [] => Ret (Some [])
  | part :: parts' =>
      let? group := tryParseRuleGroupFactor part in
      match group with
      | None => Ret None
      | Some g =>
          let? groups := parse_factors parts' in
          Ret (match groups with Some gs => Some (g :: gs) | None => None end)
      end
  end.

Definition tryParseRequestRuleExpr (expr : jstring) : exc (option (list RequestRuleGroup)) :=
  let trimmed := trim expr in
  if negb (truthy trimmed) then Ret (Some []) else parse_factors (splitTopLevelMultiply trimmed).

(** ** Combining and splitting *)

(** The depth after a run of units, and whether it is 0 before the end. *)
Fixpoint closes_early (depth : Z) (s : jstring) : bool :=
  match s with
  | [] => false
  | c :: s' =>
      let depth := if (c =? 40)%N then depth + 1 else depth in
      let depth := if (c =? 41)%N then depth - 1 else depth in
      ((depth =? 0) && truthy s') || closes_early depth s'
  end.

Fixpoint depth_after (depth : Z) (s : jstring) : Z :=
  match s with
  | [] => depth
  | c :: s' =>
      let depth := if (c =? 40)%N then depth + 1 else depth in
      depth_after (if (c =? 41)%N then depth - 1 else depth) s'
  end.

Definition hasFullOuterParens (expr : jstring) : bool :=
  startsWith expr (js "(") && endsWith expr (js ")") && negb (closes_early 0 expr) && (depth_after 0 expr =? 0).

(** [current.slice(1, -1)] *)
Definition inside (s : jstring) : jstring := slice s 1 (length s - 1).

(** The [while] loop; each round takes two units at least. *)
Fixpoint unwrap_loop (fuel : nat) (current : jstring) : jstring :=
  match fuel with
  | O => current
  | S f => if hasFullOuterParens current then unwrap_loop f (trim (inside current)) else current
  end.

Definition unwrapOuterParens (expr : jstring) : jstring := unwrap_loop (length expr) (trim expr).

Record SplitExpr := { billingExpr : jstring; requestRuleExpr : jstring }.

(** Whether a part is a rule: it is read, as one group or more. *)
Definition is_rule_part (part : jstring) : exc bool :=
  let? parsed := tryParseRequestRuleExpr part in
  Ret (match parsed with Some (_ :: _) => true | _ => false end).

(** The [forEach] over the parts: the rules and the others. *)
Fixpoint sort_parts (parts : list jstring) : exc (list jstring * list jstring) :=
  match parts with
  | [] => Ret ([], [])
  | part :: parts' =>
      let? rule := is_rule_part part in
      let? (rules, bases) := sort_parts parts' in
      Ret (if rule : bool then (part :: rules, bases) else (rules, part :: bases))
  end.

Definition splitBillingExprAndRequestRules (expr : jstring) : exc SplitExpr :=
  let trimmed := trim expr in
  let whole := {| billingExpr := trimmed; requestRuleExpr := [] |} in
  if negb (truthy trimmed) then Ret {| billingExpr := []; requestRuleExpr := [] |}
  else
    let parts := splitTopLevelMultiply trimmed in
    if (length parts <=? 1)%nat then Ret whole
    else
      let? (ruleParts, baseParts) := sort_parts parts in
      Ret (match ruleParts, baseParts with
           | _ :: _, [base] =>
               {| billingExpr := unwrapOuterParens base; requestRuleExpr := join (js " * ") ruleParts |}
           | _, _ => whole
           end).

Definition combineBillingExpr (baseExpr rulesExpr : jstring) : jstring :=
  let base := trim baseExpr in
  let rules := trim rulesExpr in
  if negb (truthy base) then [] else if negb (truthy rules) then base
  else js "(" ++ base ++ js ") * " ++ rules.

(** ** The visual editor *)

Definition createEmptyCondition : RequestCondition := ParamHeaderCondition param [] MATCH_EQ [].
Definition createEmptyTimeCondition : RequestCondition :=
  TimeCondition hour (js "Asia/Shanghai") MATCH_GTE [] [] [].
Definition empty_group (c : RequestCondition) : RequestRuleGroup :=
  {| conditions := [c]; multiplier := []; conditionText := None; matched := None |}.
Definition createEmptyRuleGroup : RequestRuleGroup := empty_group createEmptyCondition.
Definition createEmptyTimeRuleGroup : RequestRuleGroup := empty_group createEmptyTimeCondition.

(** Values and label keys. *)
Definition getRequestRuleMatchOptions (source : jstring) : list (jstring * jstring) :=
  if jeqb source SOURCE_TIME then
    [(MATCH_EQ, js "Equals"); (MATCH_GTE, js "Greater than or equal"); (MATCH_LT, js "Less than");
     (MATCH_RANGE, js "Overnight range")]
  else
    let base := [(MATCH_EQ, js "Equals"); (MATCH_CONTAINS, js "Contains"); (MATCH_EXISTS, js "Exists")] in
    if jeqb source SOURCE_HEADER then base
    else base ++ [(MATCH_GT, js "Greater than"); (MATCH_GTE, js "Greater than or equal");
                  (MATCH_LT, js "Less than"); (MATCH_LTE, js "Less than or equal")].

(** [Partial<RequestCondition>]: any field may be missing. *)
Record PartialCondition := {
  p_source : option jstring;
  p_timeFunc : option jstring;
  p_timezone : option jstring;
  p_mode : option jstring;
  p_value : option jstring;
  p_rangeStart : option jstring;
  p_rangeEnd : option jstring;
  p_path : option jstring
}.

Definition as_partial (c : RequestCondition) : PartialCondition :=
  match c with
  | TimeCondition f tz mode value rs re =>
      {| p_source := Some SOURCE_TIME; p_timeFunc := Some (time_text f); p_timezone := Some tz;
         p_mode := Some mode; p_value := Some value; p_rangeStart := Some rs; p_rangeEnd := Some re;
         p_path := None |}
  | ParamHeaderCondition s path mode value =>
      {| p_source := Some (source_text s); p_timeFunc := None; p_timezone := None; p_mode := Some mode;
         p_value := Some value; p_rangeStart := None; p_rangeEnd := None; p_path := Some path |}
  end.

(** The mode of the condition when the source offers it. *)
Definition offered_mode (source : jstring) (mode : option jstring) (default : jstring) : jstring :=
  match mode with
  | Some m => if existsb (fun item => jeqb item.1 m) (getRequestRuleMatchOptions source) then m else default
  | None => default
  end.

Definition normalizeCondition (cond : option PartialCondition) : RequestCondition :=
  let field (get : PartialCondition -> option jstring) : option jstring :=
    match cond with Some c => get c | None => None end in
  let is_source s := match field p_source with Some t => jeqb t s | None => false end in
  if is_source SOURCE_TIME then
    let timeFunc := match field p_timeFunc with Some t => coalesce (isTimeFunc t) hour | None => hour end in
    TimeCondition timeFunc (ojor (field p_timezone) (js "Asia/Shanghai"))
      (offered_mode SOURCE_TIME (field p_mode) MATCH_GTE)
      (coalesce (field p_value) []) (coalesce (field p_rangeStart) []) (coalesce (field p_rangeEnd) [])
  else
    let source := if is_source SOURCE_HEADER then header else param in
    ParamHeaderCondition source (ojor (field p_path) [])
      (offered_mode (source_text source) (field p_mode) MATCH_EQ) (coalesce (field p_value) []).

Definition buildExprLiteral (mode value : jstring) : jstring :=
  let text := trim value in
  if jeqb mode MATCH_CONTAINS then json_quote text
  else if jeqb text (js "true") || jeqb text (js "false") then text
  else if NUMERIC_LITERAL_REGEX text then text
  else json_quote text.

Definition time_mode_op (mode : jstring) : jstring :=
  coalesce (assoc mode [(MATCH_EQ, js "=="); (MATCH_GTE, js ">="); (MATCH_LT, js "<")]) (js "==").

(** The fields of a normalized time condition are the arguments. *)
Definition build_time (timeFunc : TimeFunc) (timezone mode value rangeStart rangeEnd : jstring) : jstring :=
  let fn := time_text timeFunc ++ js "(" ++ json_quote timezone ++ js ")" in
  if jeqb mode MATCH_RANGE then
    let s := trim rangeStart in
    let e := trim rangeEnd in
    if negb (isTimeValueInRange timeFunc s) || negb (isTimeValueInRange timeFunc e) then []
    else if num_ltb (Number e) (Number s)
    then fn ++ js " >= " ++ s ++ js " || " ++ fn ++ js " < " ++ e
    else fn ++ js " >= " ++ s ++ js " && " ++ fn ++ js " < " ++ e
  else
    let v := trim value in
    if negb (isTimeValueInRange timeFunc v) then []
    else fn ++ js " " ++ time_mode_op mode ++ js " " ++ v.

Definition buildTimeConditionExpr (cond : RequestCondition) : jstring :=
  match normalizeCondition (Some (as_partial cond)) with
  | TimeCondition f tz mode value rs re => build_time f tz mode value rs re
  | ParamHeaderCondition _ _ _ _ => []
  end.

Definition cmp_mode_op (mode : jstring) : option jstring :=
  assoc mode [(MATCH_GT, js ">"); (MATCH_GTE, js ">="); (MATCH_LT, js "<"); (MATCH_LTE, js "<=")].

Definition build_param_header (source : ph_source) (path0 mode value : jstring) : jstring :=
  let path := trim path0 in
  if negb (truthy path) then []
  else
    let sourceExpr := source_text source ++ js "(" ++ json_quote path ++ js ")" in
    let is_header := bool_decide (source = header) in
    if jeqb mode MATCH_EXISTS then
      if is_header then sourceExpr ++ js " != " ++ qt ++ qt else sourceExpr ++ js " != nil"
    else if jeqb mode MATCH_CONTAINS then
      let has := js "has(" ++ sourceExpr ++ js ", " ++ buildExprLiteral mode value ++ js ")" in
      if is_header then has else sourceExpr ++ js " != nil && " ++ has
    else
      match cmp_mode_op mode with
      | Some op =>
          let numText := trim value in
          if negb (NUMERIC_LITERAL_REGEX numText) then []
          else sourceExpr ++ js " != nil && " ++ sourceExpr ++ js " " ++ op ++ js " " ++ numText
      | None => sourceExpr ++ js " == " ++ buildExprLiteral mode value
      end.

Definition buildRequestConditionExpr (cond : RequestCondition) : jstring :=
  match cond with
  | TimeCondition _ _ _ _ _ _ => buildTimeConditionExpr cond
  | ParamHeaderCondition _ _ _ _ =>
      match normalizeCondition (Some (as_partial cond)) with
      | ParamHeaderCondition source path mode value => build_param_header source path mode value
      | TimeCondition _ _ _ _ _ _ => []
      end
  end.

Definition combine_conditions (condExprs : list jstring) : jstring :=
  match condExprs with
  | [e] => e
  | _ => join (js " && ") (map (fun e => if includes e (js " || ") then js "(" ++ e ++ js ")" else e) condExprs)
  end.

Definition buildRuleGroupFactor (group : RequestRuleGroup) : jstring :=
  let mult := trim (multiplier group) in
  if negb (NUMERIC_LITERAL_REGEX mult) then []
  else
    match List.filter truthy (map buildRequestConditionExpr (conditions group)) with
    | [] => []
    | condExprs => js "(" ++ combine_conditions condExprs ++ js " ? " ++ mult ++ js " : 1)"
    end.

Definition buildRequestRuleExpr (groups : list RequestRuleGroup) : jstring :=
  join (js " * ") (List.filter truthy (map buildRuleGroupFactor groups)).
