(* ===== verification/RequestRulesText.v ===== *)
(** * The text of request rules is read back

    What the visual editor of request rules writes, the parser reads as the same groups,
    and a billing expression combined with them is cut at the same place; and the rules for
    which this fails. *)

From S2P Require Import Prelude JsValue JsText Regex RequestRules.
#[global] Open Scope Z_scope.

(** ** Scanning for separators *)

Definition step_depth (d : Z) (c : N) : Z :=
  let d := if (c =? 40)%N then d + 1 else d in if (c =? 41)%N then d - 1 else d.

(** No separator starts at the top level within [t], when [rest] follows it. *)
Fixpoint calm (sep : jstring) (d : Z) (t rest : jstring) : bool :=
  match t with
  | [] => true
  | c :: t' =>
      negb ((step_depth d c =? 0) && startsWith (t ++ rest) sep) && calm sep (step_depth d c) t' rest
  end.

Definition noparen (t : jstring) : Prop := Forall (fun c => c <> 40 /\ c <> 41)%N t.

Lemma depth_after_cons d c t : depth_after d (c :: t) = depth_after (step_depth d c) t.
Proof. done. Qed.

Lemma depth_after_app t1 : forall d t2, depth_after d (t1 ++ t2) = depth_after (depth_after d t1) t2.
Proof. induction t1 as [|c t IH]; intros d t2; [done|]. cbn [app]. rewrite !depth_after_cons. apply IH. Qed.

Lemma step_depth_noparen d c : (c <> 40 /\ c <> 41)%N -> step_depth d c = d.
Proof.
  intros [H1 H2]. unfold step_depth. by rewrite (proj2 (N.eqb_neq _ _) H1), (proj2 (N.eqb_neq _ _) H2).
Qed.

Lemma depth_after_noparen d t : noparen t -> depth_after d t = d.
Proof. intros H. induction H; [done|]. by rewrite depth_after_cons, step_depth_noparen. Qed.

Lemma calm_app sep t1 : forall d t2 rest,
  calm sep d (t1 ++ t2) rest = calm sep d t1 (t2 ++ rest) && calm sep (depth_after d t1) t2 rest.
Proof.
  induction t1 as [|c t IH]; intros d t2 rest; [done|]. cbn [app calm]. rewrite depth_after_cons, IH.
  rewrite andb_assoc. cbn [app]. by rewrite <- app_assoc.
Qed.

Lemma calm_deep sep d t rest : d <> 0 -> noparen t -> calm sep d t rest = true.
Proof.
  intros Hd H. induction H as [|c t Hc _ IH]; [done|]. cbn [calm]. rewrite (step_depth_noparen _ _ Hc).
  by rewrite (proj2 (Z.eqb_neq _ _) Hd), IH.
Qed.

Lemma calm_head sep c0 d t rest : startsWith sep [c0] = true -> Forall (fun c => c <> c0) t ->
  calm sep d t rest = true.
Proof.
  intros [sep' ->]%startsWith_app H. revert d. induction H as [|c t Hc _ IH]; intros d; [done|].
  cbn [calm app startsWith]. rewrite IH. rewrite (proj2 (N.eqb_neq c0 c)) by done. by rewrite andb_false_r.
Qed.

Lemma startsWith_short s sep rest : (length sep <= length s)%nat ->
  startsWith (s ++ rest) sep = startsWith s sep.
Proof.
  revert s. induction sep as [|c sep IH]; intros s H; [done|]. destruct s as [|d s]; cbn in *; [lia|].
  rewrite IH by lia. done.
Qed.

Lemma startsWith_includes u s sep : startsWith s sep = true -> includes (u ++ s) sep = true.
Proof.
  intros H. unfold includes. induction u as [|c u IH]; cbn [app].
  - destruct s; cbn; by rewrite H.
  - cbn [indexOf]. destruct (startsWith (c :: u ++ s) sep); [done|]. by destruct (indexOf (u ++ s) sep).
Qed.

(** A text that holds no separator and does not end in a unit of one. *)
Lemma calm_free sep d t x rest : includes (t ++ [x]) sep = false -> x ∉ sep ->
  calm sep d (t ++ [x]) rest = true.
Proof.
  intros Hi Hx. cut (forall u v d, t ++ [x] = u ++ v -> calm sep d v rest = true); [by intros H; apply (H [])|].
  intros u v. revert u. induction v as [|c v IH]; intros u d' E; [done|]. cbn [calm].
  rewrite (IH (u ++ [c])) by by rewrite <- app_assoc. rewrite andb_true_r.
  apply negb_true_iff, andb_false_iff. right. apply not_true_iff_false. intros H.
  destruct (decide (length sep <= length (c :: v))%nat) as [Hl|Hl].
  - rewrite startsWith_short in H by done. apply (startsWith_includes u) in H. rewrite <- E in H. congruence.
  - apply startsWith_app in H as [k Hk].
    assert (exists v', c :: v = v' ++ [x]) as [v' Ev].
    { destruct (exists_last (l := c :: v)) as (v' & y & Ev); [done|]. exists v'. rewrite Ev in E |- *.
      rewrite app_assoc in E. apply app_inj_tail in E as [_ ->]. done. }
    apply Hx. rewrite Ev in Hk. rewrite <- app_assoc in Hk.
    apply (f_equal (take (length sep))) in Hk. rewrite take_app_length in Hk.
    rewrite Ev, length_app in Hl. cbn in Hl.
    rewrite <- Hk, take_app_ge by lia. apply elem_of_app. right.
    replace (length sep - length v')%nat with (S (length sep - S (length v'))) by lia. cbn. left.
Qed.

Lemma split_top_calm sep t : forall d cur rest, calm sep d t rest = true ->
  split_top sep 0 d cur (t ++ rest) = split_top sep 0 (depth_after d t) (rev t ++ cur) rest.
Proof.
  induction t as [|c t IH]; intros d cur rest H; [done|]. cbn [calm] in H. apply andb_true_iff in H as [H1 H2].
  apply negb_true_iff in H1. cbn [app split_top]. fold (step_depth d c). cbn [app] in H1. rewrite H1.
  rewrite IH, depth_after_cons by done. cbn [rev]. by rewrite <- app_assoc.
Qed.

(** A part of a joined text: balanced, and without a separator at its top level. *)
Definition segment (sep p : jstring) : Prop :=
  depth_after 0 p = 0 /\ forall rest, rest = [] \/ startsWith rest sep = true -> calm sep 0 p rest = true.

Lemma split_top_skip sep w : forall n d cur rest, n = length w ->
  split_top sep n d cur (w ++ rest) = split_top sep 0 d cur rest.
Proof. induction w as [|c w IH]; intros n d cur rest ->; [done|]. cbn. by apply IH. Qed.

Lemma split_top_at sep c0 w cur rest : sep = c0 :: w -> (c0 <> 40 /\ c0 <> 41)%N ->
  split_top sep 0 0 cur (sep ++ rest) = trim (rev cur) :: split_top sep 0 0 [] rest.
Proof.
  intros -> Hc. cbn [app split_top]. fold (step_depth 0 c0). rewrite (step_depth_noparen _ _ Hc).
  rewrite (proj2 (startsWith_app (c0 :: w ++ rest) (c0 :: w))) by by exists rest.
  cbn [Z.eqb andb length]. rewrite split_top_skip by (cbn; lia). done.
Qed.

(** Splitting a joined text gives the parts back. *)
Lemma split_top_join sep c0 w ps : sep = c0 :: w -> (c0 <> 40 /\ c0 <> 41)%N -> ps <> [] ->
  Forall (segment sep) ps -> split_top sep 0 0 [] (join sep ps) = map trim ps.
Proof.
  intros Hsep Hc Hne H. induction H as [|p ps [Hd Hp] Hps IH]; [done|].
  destruct ps as [|p' ps].
  - cbn [join map]. rewrite <- (app_nil_r p) at 1. rewrite split_top_calm by auto.
    cbn [split_top]. by rewrite app_nil_r, rev_involutive.
  - change (join sep (p :: p' :: ps)) with (p ++ sep ++ join sep (p' :: ps)).
    rewrite split_top_calm by (apply Hp; right; apply startsWith_app; eauto).
    rewrite Hd, (split_top_at sep c0 w) by done. rewrite app_nil_r, rev_involutive, IH by done. done.
Qed.

(** A text that may stand inside parentheses: it does not leave its level. *)
Definition level (t : jstring) : Prop :=
  forall d, 1 <= d -> depth_after d t = d /\ forall sep rest, calm sep d t rest = true.

Lemma level_app t1 t2 : level t1 -> level t2 -> level (t1 ++ t2).
Proof.
  intros H1 H2 d Hd. destruct (H1 d Hd) as [E1 C1], (H2 d Hd) as [E2 C2].
  rewrite depth_after_app, E1. split; [done|]. intros sep rest. by rewrite calm_app, E1, C1, C2.
Qed.

Lemma level_noparen t : noparen t -> level t.
Proof. intros H d Hd. rewrite depth_after_noparen by done. split; [done|]. intros. apply calm_deep; [lia|done]. Qed.

Lemma level_paren t : level t -> level (js "(" ++ t ++ js ")").
Proof.
  intros H d Hd. destruct (H (d + 1) ltac:(lia)) as [E C].
  change (js "(") with [40%N]. change (js ")") with [41%N]. cbn [app].
  rewrite depth_after_cons, depth_after_app. change (step_depth d 40) with (d + 1). rewrite E.
  rewrite depth_after_cons. change (step_depth (d + 1) 41) with (d + 1 - 1). cbn [depth_after].
  split; [lia|]. intros sep rest. cbn [calm]. change (step_depth d 40) with (d + 1).
  rewrite calm_app, E, C. cbn [calm]. change (step_depth (d + 1) 41) with (d + 1 - 1).
  rewrite (proj2 (Z.eqb_neq (d + 1) 0)), (proj2 (Z.eqb_neq (d + 1 - 1) 0)) by lia. done.
Qed.

(** A text without a separator whatever follows it. *)
Definition quiet (sep t : jstring) : Prop := depth_after 0 t = 0 /\ forall rest, calm sep 0 t rest = true.

Lemma quiet_segment sep t : quiet sep t -> segment sep t.
Proof. intros [E C]. split; [done|]. auto. Qed.

Lemma quiet_app sep t1 t2 : quiet sep t1 -> quiet sep t2 -> quiet sep (t1 ++ t2).
Proof.
  intros [E1 C1] [E2 C2]. split; [by rewrite depth_after_app, E1|].
  intros rest. by rewrite calm_app, E1, C1, C2.
Qed.

(** Parentheses around a text of its level are one part for every separator that starts
    with a space. *)
Lemma quiet_paren sep w t : sep = 32%N :: w -> level t -> quiet sep (js "(" ++ t ++ js ")").
Proof.
  intros -> H. destruct (H 1 ltac:(lia)) as [E C].
  change (js "(") with [40%N]. change (js ")") with [41%N]. split.
  - cbn [app]. rewrite depth_after_cons, depth_after_app. change (step_depth 0 40) with 1. by rewrite E.
  - intros rest. cbn [app calm startsWith]. change (step_depth 0 40) with 1.
    rewrite calm_app, E, C. done.
Qed.

(** ** Texts that trimming keeps *)

Definition solid_l (s : jstring) : Prop := exists c s', s = c :: s' /\ is_ws c = false.
Definition solid_r (s : jstring) : Prop := exists c s', s = s' ++ [c] /\ is_ws c = false.

Lemma solid_l_app s t : solid_l s -> solid_l (s ++ t).
Proof. intros (c & s' & -> & H). by exists c, (s' ++ t). Qed.

Lemma solid_r_app s t : solid_r t -> solid_r (s ++ t).
Proof. intros (c & s' & -> & H). exists c, (s ++ s'). by rewrite app_assoc. Qed.

Lemma trim_solid s : solid_l s -> solid_r s -> trim s = s.
Proof.
  intros (c & s' & -> & Hc) (d & s'' & E & Hd). unfold trim, trimEnd, trimStart. cbn [drop_while].
  rewrite Hc, E, rev_app_distr. cbn. rewrite Hd. cbn. by rewrite rev_involutive.
Qed.

Lemma solid_Forall s : s <> [] -> Forall (fun c => is_ws c = false) s -> solid_l s /\ solid_r s.
Proof.
  intros Hne H. split.
  - destruct H as [|c s Hc _]; [done|]. by exists c, s.
  - destruct (exists_last Hne) as (s' & c & ->). apply Forall_app in H as [_ H%Forall_inv]. by exists c, s'.
Qed.

Lemma solid_l_truthy s : solid_l s -> truthy s = true.
Proof. by intros (? & ? & -> & _). Qed.

(** ** Numeric texts *)

Lemma num_unit_facts c : num_unit c = true ->
  is_ws c = false /\ c <> 32%N /\ c <> 40%N /\ c <> 41%N /\ c <> 63%N /\ dot c = true.
Proof.
  unfold num_unit. intros [H | H]%orb_true_iff.
  - assert (48 <= c <= 57)%N as Hc by (unfold is_digit in H; reflect_bools; lia).
    split; [by apply is_digit_not_ws|]. split_and!; try lia.
    unfold dot, any_but. apply negb_true_iff, bool_decide_eq_false. rewrite !elem_of_cons, elem_of_nil. lia.
  - unfold one_of in H. apply bool_decide_eq_true in H. change (js ".eE+-") with [46; 101; 69; 43; 45]%N in H.
    rewrite !elem_of_cons, elem_of_nil in H. by destruct_or! H; subst.
Qed.

Lemma within_numeric : within num_unit numeric_literal.
Proof.
  assert (forall x, is_digit x = true -> num_unit x = true) as Hd.
  { intros x H. unfold num_unit. by rewrite H. }
  assert (forall l, Forall (fun x => num_unit x = true) l -> forall x, one_of l x = true -> num_unit x = true) as Ho.
  { intros l Hl x Hx. apply bool_decide_eq_true in Hx. by eapply Forall_forall in Hl. }
  unfold numeric_literal, Seqs, Opt, Plus. cbn [within foldr].
  repeat split; try done; try (by apply Forall_singleton); apply Ho; by repeat constructor.
Qed.

Lemma numeric_units s : NUMERIC_LITERAL_REGEX s = true ->
  s <> [] /\ Forall (fun c => num_unit c = true) s.
Proof. intros H. split; [by intros ->|]. apply (test_within _ _ _ within_numeric H). Qed.

Lemma numeric_solid s : NUMERIC_LITERAL_REGEX s = true -> solid_l s /\ solid_r s.
Proof.
  intros [Hne H]%numeric_units. apply solid_Forall; [done|]. eapply Forall_impl; [done|].
  cbn. intros c Hc. by apply num_unit_facts.
Qed.

Lemma numeric_trim s : NUMERIC_LITERAL_REGEX s = true -> trim s = s.
Proof. intros [??]%numeric_solid. by apply trim_solid. Qed.

Lemma numeric_noparen s : NUMERIC_LITERAL_REGEX s = true -> noparen s.
Proof.
  intros [_ H]%numeric_units. eapply Forall_impl; [done|]. cbn. intros c Hc. by apply num_unit_facts in Hc as (?&?&?&?&?).
Qed.

Lemma numeric_calm sep w d s rest : sep = 32%N :: w -> NUMERIC_LITERAL_REGEX s = true -> calm sep d s rest = true.
Proof.
  intros -> [_ H]%numeric_units. apply (calm_head _ 32); [done|]. eapply Forall_impl; [done|]. cbn.
  intros c Hc. by apply num_unit_facts in Hc as (?&?&?).
Qed.

Lemma in_range_numeric f s : isTimeValueInRange f s = true -> NUMERIC_LITERAL_REGEX s = true.
Proof. unfold isTimeValueInRange. by destruct (NUMERIC_LITERAL_REGEX s). Qed.

(** ** Running the patterns *)

Lemma run_Grp_eats {A} n r (k : cont A) w a c :
  (forall k' : cont A, run r k' (w ++ a) c = k' a c) -> run (Grp n r) k (w ++ a) c = k a ((n, w) :: c).
Proof. intros H. by rewrite run_Grp, H, captured. Qed.

(** A group that takes a run of a class, up to a unit outside the class that the rest needs. *)
Lemma run_group_run {A} n p r (k : cont A) w a c :
  w <> [] -> Forall (fun x => p x = true) w -> starts p a = false ->
  (forall x a' c', p x = true -> run r k (x :: a') c' = None) ->
  run (Grp n (Plus (Chr p))) (run r k) (w ++ a) c = run r k a ((n, w) :: c).
Proof.
  intros Hne Hw Ha Hk. rewrite run_Grp. destruct Hw as [|x w Hx Hw]; [done|]. cbn [app]. unfold Plus.
  rewrite run_Seq, run_Chr_head by done. rewrite run_Star_Chr; [|done..|].
  - by rewrite (captured (x :: w) a : take (length (x :: w ++ a) - length a) (x :: w ++ a) = x :: w).
  - intros. cbv beta. by apply Hk.
Qed.

(** The path or time zone of a call, up to the closing quote. *)
Lemma run_path {A} n w r (k : cont A) p a c :
  p <> [] -> Forall (fun x => not_quote x = true) p ->
  run (Grp n (Plus (Chr not_quote))) (run (Seq (Lit (qt ++ w)) r) k) (p ++ 34%N :: a) c =
  run (Seq (Lit (qt ++ w)) r) k (34%N :: a) ((n, p) :: c).
Proof.
  intros Hne Hp. apply run_group_run; [done..|]. intros x a' c' Hx. rewrite run_Seq.
  apply run_Lit_fail. cbn [startsWith qt app]. change ch_quote with 34%N.
  rewrite (proj2 (N.eqb_neq 34 x)); [done|]. intros <-. by vm_compute in Hx.
Qed.

(** A run of units a number may have. *)
Definition nums (v : jstring) : Prop := v <> [] /\ Forall (fun x => num_unit x = true) v.

(** A number, up to a space or a closing parenthesis. *)
Lemma run_num {A} n y w l r (k : cont A) v a c :
  nums v -> num_unit y = false -> l = y :: w ->
  run (Grp n (Plus (Chr num_unit))) (run (Seq (Lit l) r) k) (v ++ y :: a) c =
  run (Seq (Lit l) r) k (y :: a) ((n, v) :: c).
Proof.
  intros [Hne Hv] Hy ->. apply run_group_run; [done..|]. intros x a' c' Hx. rewrite run_Seq.
  apply run_Lit_fail. cbn [startsWith]. rewrite (proj2 (N.eqb_neq y x)); [done|]. congruence.
Qed.

Lemma run_num_end n v c : nums v ->
  run (Grp n (Plus (Chr num_unit))) (run Eps at_end) v c = Some ((n, v) :: c).
Proof. intros [Hne Hv]. rewrite <- (app_nil_r v) at 1. by rewrite run_group_run. Qed.

(** A number that the text goes on after where the pattern should end. *)
Lemma run_num_more n v y a c : nums v -> num_unit y = false ->
  run (Grp n (Plus (Chr num_unit))) (run Eps at_end) (v ++ y :: a) c = None.
Proof. intros [Hne Hv] Hy. by rewrite run_group_run. Qed.

(** A number at the end of the text where the pattern goes on. *)
Lemma run_num_cut {A} n y w l r (k : cont A) v c :
  nums v -> num_unit y = false -> l = y :: w ->
  run (Grp n (Plus (Chr num_unit))) (run (Seq (Lit l) r) k) v c = None.
Proof.
  intros [Hne Hv] Hy ->. rewrite <- (app_nil_r v) at 1. rewrite run_group_run; [done..|].
  intros x a' c' Hx. rewrite run_Seq. apply run_Lit_fail. cbn [startsWith].
  rewrite (proj2 (N.eqb_neq y x)); [done|]. congruence.
Qed.

Lemma run_time_name {A} f (k : cont A) a c :
  run (Grp 1 time_names) k (time_text f ++ 40%N :: a) c = k (40%N :: a) ((1%nat, time_text f) :: c).
Proof.
  apply run_Grp_eats. intros k'. destruct f; vm_compute; done || by destruct (k' _ _).
Qed.

Lemma isTimeFunc_text f : isTimeFunc (time_text f) = Some f.
Proof. by destruct f. Qed.

(** ** Time conditions *)

Definition scalar_text (f : TimeFunc) (tz op v : jstring) : jstring :=
  time_text f ++ 40%N :: 34%N :: tz ++ 34%N :: 41%N :: 32%N :: op ++ 32%N :: v.

Definition range_text (f : TimeFunc) (tz a conn b : jstring) : jstring :=
  scalar_text f tz (js ">=") a ++ 32%N :: conn ++ 32%N :: scalar_text f tz (js "<") b.

Definition is_op (op : jstring) : Prop := op = js "==" \/ op = js ">=" \/ op = js "<".
Definition is_conn (conn : jstring) : Prop := conn = js "&&" \/ conn = js "||".

Lemma run_op {A} op (k : cont A) a c : is_op op ->
  run (Grp 3 (Alts [Lit (js "=="); Lit (js ">=")] (Lit (js "<")))) k (op ++ 32%N :: a) c =
  k (32%N :: a) ((3%nat, op) :: c).
Proof.
  intros Hop. apply run_Grp_eats. intros k'.
  destruct Hop as [-> | [-> | ->]]; vm_compute; done || by destruct (k' _ _).
Qed.

Lemma run_conn {A} conn (k : cont A) a c : is_conn conn ->
  run (Alt (Lit (js "&&")) (Lit (js "||"))) k (conn ++ 32%N :: a) c = k (32%N :: a) c.
Proof. intros [-> | ->]; vm_compute; done || by destruct (k _ _). Qed.

(** Bring a text into the form the patterns walk: appends to the right. *)
Ltac num := erewrite run_num; [|done|done|reflexivity].
Ltac flat := cbn [app]; repeat (rewrite <- !app_assoc; cbn [app]).

Section Time.
Context (f : TimeFunc) (tz : jstring).
Hypothesis tz_ne : tz <> [].
Hypothesis tz_plain : Forall (fun x => not_quote x = true) tz.

Lemma run_call {A} w rest (k : cont A) a c :
  run (Seqs (time_call (Lit (qt ++ w) :: rest))) k (time_text f ++ 40%N :: 34%N :: tz ++ 34%N :: a) c =
  run (Seqs (Lit (qt ++ w) :: rest)) k (34%N :: a) ((2%nat, tz) :: (1%nat, time_text f) :: c).
Proof.
  unfold time_call. cbn [Seqs foldr app]. rewrite run_Seq, run_time_name, run_Seq. lit.
  by rewrite run_Seq, run_path.
Qed.

(** One comparison, at the end of the text or before something else. *)
Lemma scalar_match op v : is_op op -> nums v ->
  fullmatch time_scalar_re (scalar_text f tz op v) =
    Some [(4%nat, v); (3%nat, op); (2%nat, tz); (1%nat, time_text f)].
Proof.
  intros Hop Hv. unfold fullmatch, time_scalar_re, scalar_text. rewrite run_call. cbn [Seqs foldr].
  rewrite run_Seq. lit. rewrite run_Seq, run_op, run_Seq by done. lit. by rewrite run_Seq, run_num_end.
Qed.

Lemma scalar_more op v y a : is_op op -> nums v -> num_unit y = false ->
  fullmatch time_scalar_re (scalar_text f tz op v ++ y :: a) = None.
Proof.
  intros Hop Hv Hy. unfold fullmatch, time_scalar_re, scalar_text. rewrite <- !app_assoc. cbn [app].
  rewrite <- !app_assoc. cbn [app]. rewrite <- app_assoc. cbn [app]. rewrite run_call. cbn [Seqs foldr].
  rewrite run_Seq. lit. rewrite run_Seq, run_op, run_Seq by done. lit. by rewrite run_Seq, run_num_more.
Qed.

(** The range pattern up to its last number. *)
Lemma range_run {A} rest (k : cont A) a conn b : is_conn conn -> nums a ->
  run (Seqs (time_range rest)) k (range_text f tz a conn b) [] =
  run (Seqs (Grp 4 (Plus (Chr num_unit)) :: rest)) k b [(3%nat, a); (2%nat, tz); (1%nat, time_text f)].
Proof.
  intros Hc Ha. unfold range_text, scalar_text, time_range. cbn [app]. flat. rewrite run_call. cbn [Seqs foldr].
  rewrite run_Seq. lit. rewrite run_Seq. num. rewrite run_Seq. lit.
  rewrite run_Seq, run_conn, run_Seq by done. lit. rewrite run_Seq, run_Ref, run_Seq by done. lit.
  rewrite run_Seq, run_Ref, run_Seq by done. by lit.
Qed.

Lemma range_match a conn b : is_conn conn -> nums a -> nums b ->
  fullmatch time_range_re (range_text f tz a conn b) =
    Some [(4%nat, b); (3%nat, a); (2%nat, tz); (1%nat, time_text f)].
Proof.
  intros Hc Ha Hb. unfold fullmatch, time_range_re. rewrite range_run by done. cbn [Seqs foldr].
  by rewrite run_Seq, run_num_end.
Qed.

Lemma range_paren_run a conn b t : is_conn conn -> nums a -> nums b ->
  fullmatch time_range_paren_re (js "(" ++ range_text f tz a conn b ++ js ")" ++ t) =
    if truthy t then None else Some [(4%nat, b); (3%nat, a); (2%nat, tz); (1%nat, time_text f)].
Proof.
  intros Hc Ha Hb. unfold fullmatch, time_range_paren_re. cbn [Seqs foldr]. rewrite run_Seq, run_Lit_app.
  replace (range_text f tz a conn b ++ js ")" ++ t) with (range_text f tz a conn (b ++ 41%N :: t))
    by (unfold range_text, scalar_text; by flat).
  etransitivity; [apply range_run; done|]. cbn [Seqs foldr]. rewrite run_Seq. num.
  rewrite run_Seq. lit. by destruct t.
Qed.

(** The range pattern goes on from a lower bound only into the upper bound of the same call. *)
Lemma range_needs_upper op v R : is_op op -> nums v ->
  (forall b, op = js ">=" -> nums b -> R <> scalar_text f tz (js "<") b) ->
  fullmatch time_range_re (scalar_text f tz op v ++ js " && " ++ R) = None.
Proof.
  intros Hop Hv HR. unfold fullmatch, time_range_re, time_range, scalar_text. cbn [app]. flat.
  rewrite run_call. cbn [Seqs foldr]. rewrite run_Seq.
  destruct Hop as [-> | [-> | ->]]; [by nolit| |by nolit].
  lit. rewrite run_Seq. change (js " && " ++ R) with (32%N :: 38%N :: 38%N :: 32%N :: R).
  num. rewrite run_Seq. lit. rewrite run_Seq.
  change (38%N :: 38%N :: 32%N :: R) with (js "&&" ++ 32%N :: R). rewrite run_conn by by left.
  rewrite run_Seq. lit. rewrite run_Seq, run_Ref_strip. change (capd _ 1) with (time_text f).
  destruct (strip (time_text f) R) as [R1|] eqn:E1; [|done]. apply strip_Some in E1 as ->.
  rewrite run_Seq, run_Lit_strip. destruct (strip _ R1) as [R2|] eqn:E2; [|done]. apply strip_Some in E2 as ->.
  rewrite run_Seq, run_Ref_strip. change (capd _ 2) with tz.
  destruct (strip tz R2) as [R3|] eqn:E3; [|done]. apply strip_Some in E3 as ->.
  rewrite run_Seq, run_Lit_strip. destruct (strip _ R3) as [b|] eqn:E4; [|done]. apply strip_Some in E4 as ->.
  destruct (run _ at_end b _) as [m|] eqn:E; [exfalso|done].
  apply (HR b); [done| |unfold scalar_text; by flat].
  cbn [Seqs foldr] in E. rewrite run_Seq, run_Grp in E. unfold Plus in E. rewrite run_Seq in E.
  destruct b as [|x b]; [done|]. destruct (num_unit x) eqn:Ex; [|by rewrite run_Chr_stop in E].
  rewrite run_Chr_head in E by done.
  apply (run_within num_unit) in E as (w & a' & c' & -> & Hw & E'); [|by cbn].
  destruct a'; [|done]. rewrite app_nil_r. split; [done|]. by constructor.
Qed.
Lemma range_on_scalar op v : is_op op -> nums v -> fullmatch time_range_re (scalar_text f tz op v) = None.
Proof.
  intros Hop Hv. unfold fullmatch, time_range_re, time_range, scalar_text. cbn [app].
  rewrite run_call. cbn [Seqs foldr]. rewrite run_Seq.
  destruct Hop as [-> | [-> | ->]]; [by nolit| |by nolit].
  lit. by rewrite run_Seq, (run_num_cut _ 32%N []) by done.
Qed.

Lemma paren_on_call a : fullmatch time_range_paren_re (time_text f ++ a) = None.
Proof. by destruct f. Qed.

Lemma in_range_nums v : isTimeValueInRange f v = true -> nums v.
Proof. intros H%in_range_numeric. by apply numeric_units. Qed.

Lemma parse_scalar op v : is_op op -> isTimeValueInRange f v = true ->
  tryParseTimeCondition (scalar_text f tz op v) = Some (TimeCondition f tz (time_op_mode op) v [] []).
Proof.
  intros Hop Hv. pose proof (in_range_nums v Hv) as Hn. unfold tryParseTimeCondition.
  rewrite range_on_scalar by done. unfold scalar_text at 1. rewrite paren_on_call. cbn [orelse].
  rewrite scalar_match by done. unfold capd. cbn [cap Nat.eqb coalesce from_option id].
  by rewrite isTimeFunc_text, Hv.
Qed.

Section Range.
Context (conn a b : jstring).
Hypothesis Hconn : is_conn conn.
Hypothesis Ha : isTimeValueInRange f a = true.
Hypothesis Hb : isTimeValueInRange f b = true.

Lemma parse_range :
  tryParseTimeCondition (range_text f tz a conn b) = Some (TimeCondition f tz MATCH_RANGE [] a b).
Proof.
  unfold tryParseTimeCondition. rewrite range_match by auto using in_range_nums.
  cbn [orelse]. unfold capd. cbn [cap Nat.eqb coalesce from_option id].
  by rewrite isTimeFunc_text, Ha, Hb.
Qed.

Lemma parse_range_paren :
  tryParseTimeCondition (js "(" ++ range_text f tz a conn b ++ js ")") =
    Some (TimeCondition f tz MATCH_RANGE [] a b).
Proof.
  unfold tryParseTimeCondition.
  pose proof (range_paren_run a conn b [] Hconn (in_range_nums a Ha) (in_range_nums b Hb)) as E.
  cbn [app truthy] in E. rewrite app_nil_r in E. rewrite E.
  replace (fullmatch time_range_re _) with (@None caps) by done.
  cbn [orelse]. unfold capd. cbn [cap Nat.eqb coalesce from_option id].
  by rewrite isTimeFunc_text, Ha, Hb.
Qed.

(** Followed by more text, a range in parentheses is no whole condition. *)
Lemma range_paren_more x t :
  tryParseTimeCondition (js "(" ++ range_text f tz a conn b ++ js ")" ++ x :: t) = None.
Proof.
  unfold tryParseTimeCondition.
  pose proof (range_paren_run a conn b (x :: t) Hconn (in_range_nums a Ha) (in_range_nums b Hb)) as E.
  cbn [truthy] in E. rewrite E.
  by replace (fullmatch time_range_re _) with (@None caps) by done.
Qed.
End Range.

(** Followed by another condition, a comparison is no whole condition, unless what follows is
    the upper bound of the same call. *)
Lemma scalar_and_more op v R : is_op op -> nums v ->
  (forall b, op = js ">=" -> nums b -> R <> scalar_text f tz (js "<") b) ->
  tryParseTimeCondition (scalar_text f tz op v ++ js " && " ++ R) = None.
Proof.
  intros Hop Hv HR. unfold tryParseTimeCondition. rewrite range_needs_upper by done.
  unfold scalar_text at 1. rewrite <- app_assoc, paren_on_call. cbn [orelse].
  change (js " && " ++ R) with (32%N :: (js "&& " ++ R)). by rewrite scalar_more.
Qed.
End Time.

(** Texts of the other conditions are no time conditions. *)
Lemma other_no_time w a : w = js "header(" \/ w = js "param(" \/ w = js "has(" ->
  tryParseTimeCondition (w ++ a) = None.
Proof. by intros [-> | [-> | ->]]. Qed.

(** ** The other conditions *)

(** A text between quotes, cut into the pieces the body of the pattern takes. *)
Definition body_round : regex := Alt (Chr (any_but [34; 92]%N)) (Seq (Lit [92%N]) (Chr dot)).

Definition pieces (q : jstring) : Prop := exists ws, q = concat ws /\
  Forall (fun w => (@eats caps body_round w /\ w <> []) /\ startsWith w qt = false) ws.

Lemma pieces_app q1 q2 : pieces q1 -> pieces q2 -> pieces (q1 ++ q2).
Proof.
  intros (ws1 & -> & H1) (ws2 & -> & H2). exists (ws1 ++ ws2). rewrite concat_app. split; [done|].
  by apply Forall_app.
Qed.

Lemma any_but_true l c : any_but l c = true <-> c ∉ l.
Proof. unfold any_but. by rewrite negb_true_iff, bool_decide_eq_false. Qed.

Lemma pieces_plain c : (c <> 34 -> c <> 92 -> pieces [c])%N.
Proof.
  intros H1 H2. exists [[c]]. split; [done|]. apply Forall_singleton. split; [split; [|done]|].
  - intros k a c'. unfold body_round. cbn [app]. rewrite run_Alt, run_Seq, run_Chr_head, run_Lit_fail.
    + by destruct (k a c').
    + cbn [startsWith]. by rewrite (proj2 (N.eqb_neq 92 c)).
    + apply any_but_true. rewrite !elem_of_cons, elem_of_nil. tauto.
  - unfold qt, ch_quote. cbn [startsWith]. by rewrite (proj2 (N.eqb_neq 34 c)) by congruence.
Qed.

Lemma pieces_escape x : dot x = true -> pieces [92; x]%N.
Proof.
  intros H. exists [[92; x]%N]. split; [done|]. apply Forall_singleton. split; [split; [|done]|done].
  intros k a c'. unfold body_round. cbn [app]. rewrite run_Alt, run_Seq, run_Chr_stop by done. lit.
  by rewrite run_Chr_head.
Qed.

Lemma hex_digit_plain n : (n < 16)%N -> (hex_digit n <> 34 /\ hex_digit n <> 92)%N.
Proof. intros H. unfold hex_digit. destruct (N.ltb_spec n 10); lia. Qed.

Lemma quote_unit_pieces c : pieces (quote_unit c).
Proof.
  unfold quote_unit.
  repeat match goal with |- context [(c =? ?n)%N] =>
    destruct (N.eqb_spec c n); [by apply pieces_escape|] end.
  destruct (_ || _); [|by apply pieces_plain]. unfold u_escape, hex4.
  apply (pieces_app (js "\u")); [by apply pieces_escape|].
  assert (forall m, pieces [hex_digit (m mod 16)]%N) as Hh.
  { intros m. destruct (hex_digit_plain (m mod 16)) as [??]; [by apply N.mod_lt|]. by apply pieces_plain. }
  apply (pieces_app [_]); [apply Hh|]. apply (pieces_app [_]); [apply Hh|].
  apply (pieces_app [_]); apply Hh.
Qed.

Lemma quote_units_pieces s : pieces (quote_units s).
Proof.
  revert s. apply (quote_ind (fun _ q => pieces q)).
  - by exists [].
  - intros c s q H. apply pieces_app; [apply quote_unit_pieces|done].
  - intros c d s q Hc Hd H.
    destruct (surrogate_plain c) as (?&?&?); [by left|]. destruct (surrogate_plain d) as (?&?&?); [by right|].
    apply (pieces_app [_]); [by apply pieces_plain|]. apply (pieces_app [_]); [by apply pieces_plain|done].
Qed.

Lemma run_quoted n (k : cont caps) v a c :
  run (Grp n quoted) k (json_quote v ++ a) c = k a ((n, json_quote v) :: c).
Proof.
  apply run_Grp_eats. intros k'. unfold quoted, json_quote. cbn [Seqs foldr app].
  rewrite run_Seq. lit. rewrite run_Seq. rewrite <- app_assoc.
  destruct (quote_units_pieces v) as (ws & -> & Hws). unfold quoted_body. rewrite run_Star_pieces.
  - rewrite run_Seq. by lit.
  - eapply Forall_impl; [exact Hws|]. by intros w [H _].
  - intros w ws1 ws2 ->. apply Forall_app in Hws as [_ [[[_ Hne] Hw] _]%Forall_cons]. rewrite run_Seq.
    apply run_Lit_fail. destruct w as [|x w]; [done|]. cbn in *. by destruct (34 =? x)%N.
  - intros k''. by rewrite run_Alt, run_Seq, run_Chr_stop, run_Lit_fail.
Qed.

Definition call_text (s : ph_source) (p : jstring) : jstring :=
  source_text s ++ 40%N :: 34%N :: p ++ 34%N :: [41%N].

Section Call.
Context (p : jstring).
Hypothesis p_ne : p <> [].
Hypothesis p_plain : Forall (fun x => not_quote x = true) p.

(** What a condition has after the call of header or param. *)
Definition after_call (s : ph_source) (a : jstring) : jstring := source_text s ++ 40%N :: 34%N :: p ++ 34%N :: a.

Lemma after_call_no_time s a : tryParseTimeCondition (after_call s a) = None.
Proof. destruct s; [apply (other_no_time (js "param("))|apply (other_no_time (js "header("))]; auto. Qed.

(** The literal start of a pattern, then the path. *)
Lemma run_after_call {A} w0 n w r (k : cont A) s a c : w0 = source_text s ++ js "(" ++ qt ->
  run (Seqs (Lit w0 :: Grp n (Plus (Chr not_quote)) :: Lit (qt ++ w) :: r)) k (after_call s a) c =
  run (Seqs (Lit (qt ++ w) :: r)) k (34%N :: a) ((n, p) :: c).
Proof.
  intros ->. cbn [Seqs foldr]. unfold after_call. rewrite run_Seq. rewrite (run_Lit_pre _ _ _ (p ++ 34%N :: a)).
  - by rewrite run_Seq, run_path.
  - by rewrite <- !app_assoc.
Qed.

Lemma match_after_call w0 n w r s a : w0 = source_text s ++ js "(" ++ qt ->
  startsWith (34%N :: a) (qt ++ w) = false ->
  fullmatch (Seqs (Lit w0 :: Grp n (Plus (Chr not_quote)) :: Lit (qt ++ w) :: r)) (after_call s a) = None.
Proof.
  intros E H. unfold fullmatch. rewrite run_after_call by done. cbn [Seqs foldr]. by rewrite run_Seq, run_Lit_fail.
Qed.

Lemma parse_exists s :
  tryParseRequestCondition (after_call s (41%N :: match s with header => js " != " ++ qt ++ qt | param => js " != nil" end)) =
    Ret (Some (ParamHeaderCondition s p MATCH_EXISTS [])).
Proof.
  unfold tryParseRequestCondition. rewrite after_call_no_time. destruct s.
  - replace (fullmatch header_exists_re _) with (@None caps) by done. cbn [orelse].
    unfold fullmatch, param_exists_re, group_path. rewrite run_after_call by done. cbn [Seqs foldr].
    rewrite run_Seq. by lit.
  - unfold fullmatch at 1, header_exists_re, group_path. rewrite run_after_call by done. cbn [Seqs foldr].
    rewrite run_Seq. by lit.
Qed.

Lemma parse_has v :
  tryParseRequestCondition (js "has(" ++ after_call header (js "), " ++ json_quote v ++ js ")")) =
    Ret (Some (ParamHeaderCondition header p MATCH_CONTAINS v)).
Proof.
  unfold tryParseRequestCondition. rewrite other_no_time by auto.
  replace (fullmatch header_exists_re _) with (@None caps) by done.
  replace (fullmatch param_exists_re _) with (@None caps) by done. cbn [orelse].
  unfold fullmatch at 1, header_has_re, group_path. cbn [Seqs foldr].
  rewrite run_Seq, (run_Lit_pre _ _ _ (p ++ 34%N :: js "), " ++ json_quote v ++ js ")"))
    by (unfold after_call; reflexivity).
  rewrite run_Seq, run_path by done. rewrite run_Seq. lit. rewrite run_Seq, run_quoted, run_Seq. lit.
  cbn [run at_end orelse]. unfold capd. cbn [cap Nat.eqb coalesce from_option id]. by rewrite JSON_parse_quote.
Qed.

(** A comparison with a literal whose value is the string [v]. *)
Lemma parse_equality s l v : l <> [] -> Forall (fun x => dot x = true) l -> parseExprLiteral l = JStr v ->
  tryParseRequestCondition (after_call s (js ") == " ++ l)) = Ret (Some (ParamHeaderCondition s p MATCH_EQ v)).
Proof.
  intros Hne Hdot Hl. unfold tryParseRequestCondition. rewrite after_call_no_time.
  assert (fullmatch header_exists_re (after_call s (js ") == " ++ l)) = None) as ->.
  { destruct s; [done|]. by apply match_after_call. }
  assert (fullmatch param_exists_re (after_call s (js ") == " ++ l)) = None) as ->.
  { destruct s; [|done]. by apply match_after_call. }
  replace (fullmatch header_has_re _) with (@None caps) by by destruct s.
  assert (fullmatch param_has_re (after_call s (js ") == " ++ l)) = None) as ->.
  { destruct s; [|done]. by apply match_after_call. }
  assert (fullmatch param_cmp_re (after_call s (js ") == " ++ l)) = None) as ->.
  { destruct s; [|done]. by apply match_after_call. }
  cbn [orelse].
  assert (fullmatch eq_re (after_call s (js ") == " ++ l)) =
    Some [(3%nat, l); (2%nat, p); (1%nat, source_text s)]) as ->.
  { unfold fullmatch, eq_re, group_path, after_call. cbn [Seqs foldr]. rewrite run_Seq.
    rewrite run_Grp_eats by (intros k'; destruct s; vm_compute; done || by destruct (k' _ _)).
    rewrite run_Seq. lit. rewrite run_Seq, run_path by done. rewrite run_Seq. lit.
    rewrite run_Seq. rewrite <- (app_nil_r l) at 1. by rewrite run_group_run. }
  unfold capd. cbn [cap Nat.eqb coalesce from_option id]. rewrite Hl. by destruct s.
Qed.
End Call.

(** *** Literals *)

Lemma json_quote_solid s : solid_l (json_quote s) /\ solid_r (json_quote s).
Proof. split; [by exists 34%N, (quote_units s ++ [34%N])|by exists 34%N, (34%N :: quote_units s)]. Qed.

Lemma json_quote_not_numeric s : NUMERIC_LITERAL_REGEX (json_quote s) = false.
Proof.
  apply not_true_iff_false. intros [_ H]%numeric_units. unfold json_quote in H.
  by apply Forall_cons in H as [H _].
Qed.

Lemma parse_literal_quoted s : parseExprLiteral (json_quote s) = JStr s.
Proof.
  unfold parseExprLiteral. destruct (json_quote_solid s). rewrite trim_solid by done.
  rewrite json_quote_not_numeric, JSON_parse_quote.
  destruct (jeqb _ (js "true")) eqn:E1; [by apply jeqb_eq in E1|].
  by destruct (jeqb _ (js "false")) eqn:E2; [apply jeqb_eq in E2|].
Qed.

(** What is written for a value is read as the value. *)
Lemma parse_literal_built v : trim v = v -> parseExprLiteral (buildExprLiteral MATCH_EQ v) = JStr v.
Proof.
  intros Hv. unfold buildExprLiteral. rewrite Hv. change (jeqb MATCH_EQ MATCH_CONTAINS) with false. cbv iota.
  destruct (jeqb v (js "true") || jeqb v (js "false")) eqn:E1; [|destruct (NUMERIC_LITERAL_REGEX v) eqn:E2].
  - unfold parseExprLiteral. by rewrite Hv, E1.
  - unfold parseExprLiteral. by rewrite Hv, E1, E2.
  - apply parse_literal_quoted.
Qed.

Lemma built_literal_solid mode v : solid_l (buildExprLiteral mode v) /\ solid_r (buildExprLiteral mode v).
Proof.
  unfold buildExprLiteral. destruct (jeqb mode MATCH_CONTAINS); [apply json_quote_solid|].
  destruct (jeqb _ _) eqn:E; [|destruct (jeqb _ (js "false")) eqn:E']; cbn [orb].
  - apply jeqb_eq in E as ->. split; [by eexists _, _|by exists 101%N, (js "tru")].
  - apply jeqb_eq in E' as ->. split; [by eexists _, _|by exists 101%N, (js "fals")].
  - destruct (NUMERIC_LITERAL_REGEX _) eqn:E2; [by apply numeric_solid|apply json_quote_solid].
Qed.

(** ** Conditions the editor reads back *)

(** A text that is quoted as it is and does not disturb the counting of parentheses. *)
Definition quotable (s : jstring) : bool :=
  truthy s && jeqb (quote_units s) s && forallb (any_but [34; 40; 41]%N) s.
Definition no_parens (s : jstring) : bool := forallb (any_but [40; 41]%N) s.

(** An overnight range, the one condition that is written with an or. *)
Definition overnight (c : RequestCondition) : bool :=
  match c with
  | TimeCondition _ _ mode _ a b => jeqb mode MATCH_RANGE && num_ltb (Number b) (Number a)
  | ParamHeaderCondition _ _ _ _ => false
  end.

(** A condition with trimmed fields, in a mode the text can carry, whose own text has none of
    the separators of the grammar. *)
Definition editable (c : RequestCondition) : bool :=
  let e := buildRequestConditionExpr c in
  (overnight c || negb (includes e (js " || "))) &&
  match c with
  | TimeCondition f tz mode v a b =>
      quotable tz &&
      (if jeqb mode MATCH_RANGE then jeqb v [] && isTimeValueInRange f a && isTimeValueInRange f b
       else existsb (jeqb mode) [MATCH_EQ; MATCH_GTE; MATCH_LT] && isTimeValueInRange f v && jeqb a [] && jeqb b [])
  | ParamHeaderCondition s p mode v =>
      quotable p && jeqb (trim p) p && negb (includes e (js " && ")) && jeqb (trim v) v &&
      (if jeqb mode MATCH_EXISTS then jeqb v []
       else if jeqb mode MATCH_CONTAINS then bool_decide (s = header) && no_parens (json_quote v)
       else jeqb mode MATCH_EQ && no_parens (buildExprLiteral MATCH_EQ v) && forallb dot (buildExprLiteral MATCH_EQ v))
  end.

(** A lower bound directly followed by an upper bound of the same time: the reader makes one
    range of the two. *)
Definition mergeable (c c' : RequestCondition) : bool :=
  match c, c' with
  | TimeCondition f tz m _ _ _, TimeCondition f' tz' m' _ _ _ =>
      bool_decide (f = f') && jeqb tz tz' && jeqb m MATCH_GTE && jeqb m' MATCH_LT
  | _, _ => false
  end.

Fixpoint unmergeable (cs : list RequestCondition) : bool :=
  match cs with
  | c :: ((c' :: _) as cs') => negb (mergeable c c') && unmergeable cs'
  | _ => true
  end.

Record good_part (p : jstring) : Prop := {
  gp_l : solid_l p;
  gp_r : solid_r p;
  gp_segment : segment (js " && ") p;
  gp_level : level p
}.

Lemma forallb_any_but l s : forallb (any_but l) s = true -> Forall (fun c => c ∉ l) s.
Proof.
  intros H. apply List.Forall_forall. intros c Hc.
  rewrite forallb_forall in H. by apply any_but_true, H.
Qed.

Lemma no_parens_noparen s : no_parens s = true -> noparen s.
Proof.
  intros H%forallb_any_but. eapply Forall_impl; [done|]. cbn. intros c. rewrite !elem_of_cons, elem_of_nil. tauto.
Qed.

Lemma quotable_facts s : quotable s = true ->
  s <> [] /\ json_quote s = 34%N :: s ++ [34%N] /\ Forall (fun x => not_quote x = true) s /\ noparen s.
Proof.
  intros [[H1 H2]%andb_true_iff H3%forallb_any_but]%andb_true_iff.
  split; [by apply truthy_true|]. apply jeqb_eq in H2. unfold json_quote. rewrite H2.
  split; [done|]. split; eapply Forall_impl; try done; cbn; intros c;
    rewrite !elem_of_cons, elem_of_nil; [|tauto].
  intros H. apply any_but_true. unfold qt, ch_quote. rewrite elem_of_cons, elem_of_nil. tauto.
Qed.

(** *** The texts of time conditions *)

Lemma time_text_facts f : solid_l (time_text f) /\ noparen (time_text f) /\ Forall (fun c => c <> 32%N) (time_text f).
Proof.
  destruct f; (split; [by eexists _, _|]; split; apply (bool_decide_unpack _); vm_compute; exact I).
Qed.

Lemma scalar_text_pieces f tz op v :
  scalar_text f tz op v =
  time_text f ++ (js "(" ++ (34%N :: tz ++ [34%N]) ++ js ")") ++ (32%N :: op ++ [32%N]) ++ v.
Proof. unfold scalar_text. change (js "(") with [40%N]. change (js ")") with [41%N]. by flat. Qed.

Lemma noparen_quoted s : noparen s -> noparen (34%N :: s ++ [34%N]).
Proof. intros H. apply Forall_cons. split; [done|]. apply Forall_app. split; [done|]. by apply Forall_singleton. Qed.

Definition is_cmp (op : jstring) : Prop := is_op op \/ op = js ">" \/ op = js "<=".

Lemma op_noparen op : is_cmp op -> noparen (32%N :: op ++ [32%N]).
Proof. intros [[-> | [-> | ->]] | [-> | ->]]; apply (bool_decide_unpack _); vm_compute; exact I. Qed.

(** An operator between spaces, before a number. *)
Lemma op_calm op v rest : is_cmp op -> nums v ->
  calm (js " && ") 0 ((32%N :: op ++ [32%N]) ++ v) rest = true.
Proof.
  intros Hop [Hne Hu]. rewrite calm_app. apply andb_true_iff. split.
  - destruct Hu as [|x v Hx Hu]; [done|]. assert (startsWith (x :: v ++ rest) (js "&& ") = false) as Hn.
    { change (js "&& ") with (38%N :: js "& "). cbn [startsWith]. rewrite (proj2 (N.eqb_neq 38 x)); [done|].
      by intros <-. }
    destruct Hop as [[-> | [-> | ->]] | [-> | ->]]; unfold js in Hn |- *; cbn in Hn |- *; by rewrite Hn.
  - apply (calm_head _ 32); [done|]. eapply Forall_impl; [done|]. cbn. intros c Hc.
    by apply num_unit_facts in Hc as (?&?&?).
Qed.

(** A call compared with a number. *)
Lemma compared_good w q op v : solid_l w -> noparen w -> Forall (fun c => c <> 32%N) w -> level q ->
  is_cmp op -> NUMERIC_LITERAL_REGEX v = true ->
  good_part (w ++ (js "(" ++ q ++ js ")") ++ (32%N :: op ++ [32%N]) ++ v).
Proof.
  intros Hl Hp Hs Hq Hop Hv.
  assert (noparen ((32%N :: op ++ [32%N]) ++ v)) as Ho.
  { apply Forall_app. split; [by apply op_noparen|by apply numeric_noparen]. }
  split.
  - by apply solid_l_app.
  - repeat apply solid_r_app. by apply numeric_solid.
  - apply quiet_segment, quiet_app; [|apply quiet_app; [by apply (quiet_paren _ (js "&& "))|]].
    + split; [by apply depth_after_noparen|]. intros. by apply (calm_head _ 32).
    + split; [by apply depth_after_noparen|]. intros. apply op_calm; [done|]. by apply numeric_units.
  - apply level_app; [by apply level_noparen|]. apply level_app; [by apply level_paren|]. by apply level_noparen.
Qed.

Lemma scalar_good f tz op v : noparen tz -> is_op op -> isTimeValueInRange f v = true ->
  good_part (scalar_text f tz op v).
Proof.
  intros Htz Hop Hv%in_range_numeric. destruct (time_text_facts f) as (Hl & Hp & Hs).
  rewrite scalar_text_pieces. apply compared_good; try done; [by apply level_noparen, noparen_quoted|by left].
Qed.

(** A part in parentheses. *)
Lemma paren_good t : level t -> good_part (js "(" ++ t ++ js ")").
Proof.
  intros H. split.
  - by exists 40%N, (t ++ js ")").
  - apply solid_r_app, solid_r_app. by exists 41%N, [].
  - by apply quiet_segment, (quiet_paren _ (js "&& ")).
  - by apply level_paren.
Qed.

Lemma range_level f tz a conn b : noparen tz -> is_conn conn ->
  isTimeValueInRange f a = true -> isTimeValueInRange f b = true -> level (range_text f tz a conn b).
Proof.
  intros Htz Hc Ha Hb. unfold range_text.
  apply level_app; [apply scalar_good; [done| |done]; by right; left|].
  change (32%N :: conn ++ 32%N :: ?t) with ([32%N] ++ conn ++ [32%N] ++ t).
  apply level_app; [by apply level_noparen, Forall_singleton|].
  apply level_app; [destruct Hc as [-> | ->]; apply level_noparen, (bool_decide_unpack _); vm_compute; exact I|].
  apply level_app; [by apply level_noparen, Forall_singleton|].
  apply scalar_good; [done| |done]. by right; right.
Qed.

(** *** The texts of the other conditions *)

Lemma depth_after_shift t : forall d, depth_after d t = d + depth_after 0 t.
Proof.
  induction t as [|c t IH]; intros d; [cbn; lia|]. rewrite !depth_after_cons, IH, (IH (step_depth 0 c)).
  unfold step_depth. destruct (c =? 40)%N, (c =? 41)%N; lia.
Qed.

(** The last unit of a text is in no separator. *)
Definition ends_clear (t : jstring) : Prop := exists t' x, t = t' ++ [x] /\ x ∉ js " && ".

Lemma ends_clear_app s t : ends_clear t -> ends_clear (s ++ t).
Proof. intros (t' & x & -> & H). exists (s ++ t'), x. by rewrite app_assoc. Qed.

Lemma free_good e : solid_l e -> solid_r e -> level e -> ends_clear e -> includes e (js " && ") = false ->
  good_part e.
Proof.
  intros Hl Hr Hlv (t & x & -> & Hx) Hi. split; [done..| |done]. split.
  - destruct (Hlv 1 ltac:(lia)) as [E _]. rewrite depth_after_shift in E. lia.
  - intros rest _. by apply calm_free.
Qed.

Lemma num_unit_clear x : num_unit x = true -> is_ws x = false /\ x ∉ js " && ".
Proof.
  intros H. split; [by apply num_unit_facts|]. intros Hin.
  change (js " && ") with [32; 38; 38; 32]%N in Hin. rewrite !elem_of_cons, elem_of_nil in Hin.
  by destruct_or! Hin; subst.
Qed.

Lemma built_literal_clear mode v : ends_clear (buildExprLiteral mode v).
Proof.
  assert (forall s, ends_clear (json_quote s)) as Hq.
  { intros s. exists (34%N :: quote_units s), 34%N. split; [done|]. by apply (bool_decide_unpack _). }
  unfold buildExprLiteral. destruct (jeqb mode MATCH_CONTAINS); [apply Hq|].
  destruct (jeqb _ _) eqn:E; [|destruct (jeqb _ (js "false")) eqn:E']; cbn [orb].
  - apply jeqb_eq in E as ->. exists (js "tru"), 101%N. split; [done|]. by apply (bool_decide_unpack _).
  - apply jeqb_eq in E' as ->. exists (js "fals"), 101%N. split; [done|]. by apply (bool_decide_unpack _).
  - destruct (NUMERIC_LITERAL_REGEX _) eqn:E2; [|apply Hq].
    destruct (numeric_units _ E2) as [Hne Hu]. destruct (exists_last Hne) as (t & x & Et). rewrite Et in Hu |- *.
    apply Forall_app in Hu as [_ Hx%Forall_inv]. exists t, x. split; [done|]. by apply num_unit_clear.
Qed.

Section CallText.
Context (s : ph_source) (p : jstring).
Hypothesis p_noparen : noparen p.

Lemma after_call_pieces a :
  after_call p s (41%N :: a) = source_text s ++ (js "(" ++ (34%N :: p ++ [34%N]) ++ js ")") ++ a.
Proof. unfold after_call. change (js "(") with [40%N]. change (js ")") with [41%N]. by flat. Qed.

Lemma after_call_solid a : solid_l (after_call p s a).
Proof. unfold after_call. apply solid_l_app. destruct s; by eexists _, _. Qed.

Lemma after_call_app a t : after_call p s a ++ t = after_call p s (a ++ t).
Proof. unfold after_call. by flat. Qed.

Lemma after_call_r a : solid_r a -> solid_r (after_call p s a).
Proof.
  intros H. unfold after_call. apply solid_r_app. do 2 apply (solid_r_app [_]). apply solid_r_app.
  by apply (solid_r_app [_]).
Qed.

Lemma after_call_clear a : ends_clear a -> ends_clear (after_call p s a).
Proof.
  intros H. unfold after_call. apply ends_clear_app. do 2 apply (ends_clear_app [_]). apply ends_clear_app.
  by apply (ends_clear_app [_]).
Qed.

Lemma after_call_level a : noparen a -> level (after_call p s (41%N :: a)).
Proof.
  intros Ha. rewrite after_call_pieces. apply level_app.
  - destruct s; apply level_noparen, (bool_decide_unpack _); vm_compute; exact I.
  - apply level_app; [|by apply level_noparen]. by apply level_paren, level_noparen, noparen_quoted.
Qed.
End CallText.

(** *** What the editor writes, as parts *)

(** The text of a condition on a header or a parameter. *)
Definition starts_other (e : jstring) : Prop :=
  exists w a, e = w ++ a /\ (w = js "header(" \/ w = js "param(" \/ w = js "has(").

Lemma starts_other_no e rest : starts_other e ->
  tryParseTimeCondition (e ++ rest) = None /\ fullmatch time_scalar_re (e ++ rest) = None.
Proof.
  intros (w & a & -> & Hw). rewrite <- app_assoc. split; [by apply other_no_time|].
  by destruct Hw as [-> | [-> | ->]].
Qed.

(** The four shapes a condition has in a group, with the parts of its text. *)
Inductive shape : RequestCondition -> list jstring -> Prop :=
| shape_scalar f tz op v :
    quotable tz = true -> is_op op -> isTimeValueInRange f v = true ->
    shape (TimeCondition f tz (time_op_mode op) v [] []) [scalar_text f tz op v]
| shape_day f tz a b :
    quotable tz = true -> isTimeValueInRange f a = true -> isTimeValueInRange f b = true ->
    shape (TimeCondition f tz MATCH_RANGE [] a b)
      [scalar_text f tz (js ">=") a; scalar_text f tz (js "<") b]
| shape_night f tz a b :
    quotable tz = true -> isTimeValueInRange f a = true -> isTimeValueInRange f b = true ->
    shape (TimeCondition f tz MATCH_RANGE [] a b) [js "(" ++ range_text f tz a (js "||") b ++ js ")"]
| shape_other s p mode v e :
    good_part e -> tryParseRequestCondition e = Ret (Some (ParamHeaderCondition s p mode v)) ->
    starts_other e ->
    shape (ParamHeaderCondition s p mode v) [e].

Lemma normalize_time f tz mode v a b : truthy tz = true ->
  existsb (jeqb mode) [MATCH_EQ; MATCH_GTE; MATCH_LT; MATCH_RANGE] = true ->
  normalizeCondition (Some (as_partial (TimeCondition f tz mode v a b))) = TimeCondition f tz mode v a b.
Proof.
  intros Htz Hm. unfold normalizeCondition, as_partial. cbn [p_source p_timeFunc p_timezone p_mode p_value p_rangeStart p_rangeEnd].
  rewrite jeqb_refl, isTimeFunc_text. unfold ojor, coalesce. cbn [from_option id]. rewrite jor_truthy by done.
  f_equal. unfold offered_mode, getRequestRuleMatchOptions. rewrite jeqb_refl.
  apply existsb_exists in Hm as (m & Hin & ->%jeqb_eq). by destruct Hin as [<- | [<- | [<- | [<- | []]]]].
Qed.

Lemma normalize_call s p mode v : truthy p = true ->
  existsb (fun item => jeqb item.1 mode) (getRequestRuleMatchOptions (source_text s)) = true ->
  normalizeCondition (Some (as_partial (ParamHeaderCondition s p mode v))) = ParamHeaderCondition s p mode v.
Proof.
  intros Hp Hm. unfold normalizeCondition, as_partial. cbn [p_source p_path p_mode p_value].
  destruct p as [|x p]; [done|]. destruct s; unfold offered_mode.
  - change (jeqb (source_text param) SOURCE_TIME) with false. change (jeqb (source_text param) SOURCE_HEADER) with false.
    cbv iota. by rewrite Hm.
  - change (jeqb (source_text header) SOURCE_TIME) with false. change (jeqb (source_text header) SOURCE_HEADER) with true.
    cbv iota. by rewrite Hm.
Qed.

Lemma build_call_quoted f tz : quotable tz = true ->
  time_text f ++ js "(" ++ json_quote tz ++ js ")" = time_text f ++ 40%N :: 34%N :: tz ++ 34%N :: [41%N].
Proof. intros (_ & -> & _)%quotable_facts. change (js "(") with [40%N]. change (js ")") with [41%N]. by flat. Qed.

Lemma build_scalar_text f tz mode v op : quotable tz = true -> isTimeValueInRange f v = true ->
  existsb (jeqb mode) [MATCH_EQ; MATCH_GTE; MATCH_LT] = true -> op = time_mode_op mode ->
  build_time f tz mode v [] [] = scalar_text f tz op v /\ is_op op /\ time_op_mode op = mode.
Proof.
  intros Htz Hv Hm ->. apply existsb_exists in Hm as (m & Hin & ->%jeqb_eq). split; [|].
  - unfold build_time. rewrite build_call_quoted, (numeric_trim v) by eauto using in_range_numeric. rewrite Hv.
    unfold scalar_text. replace (jeqb m MATCH_RANGE) with false; [cbn [negb]; by flat|].
    by destruct Hin as [<- | [<- | [<- | []]]].
  - destruct Hin as [<- | [<- | [<- | []]]]; (split; [unfold is_op; auto|done]).
Qed.

Lemma build_range_text f tz a b : quotable tz = true ->
  isTimeValueInRange f a = true -> isTimeValueInRange f b = true ->
  build_time f tz MATCH_RANGE [] a b =
    range_text f tz a (if num_ltb (Number b) (Number a) then js "||" else js "&&") b.
Proof.
  intros Htz Ha Hb. unfold build_time. rewrite build_call_quoted by done.
  rewrite jeqb_refl, (numeric_trim a), (numeric_trim b) by eauto using in_range_numeric. rewrite Ha, Hb. cbn [negb orb].
  unfold range_text, scalar_text. destruct (num_ltb _ _); by flat.
Qed.

(** What stands between the ands of a group of more conditions. *)
Definition in_group (e : jstring) : jstring := if includes e (js " || ") then js "(" ++ e ++ js ")" else e.

Lemma editable_time f tz mode v a b : editable (TimeCondition f tz mode v a b) = true ->
  quotable tz = true /\
  buildRequestConditionExpr (TimeCondition f tz mode v a b) = build_time f tz mode v a b /\
  (mode = MATCH_RANGE /\ v = [] /\ isTimeValueInRange f a = true /\ isTimeValueInRange f b = true \/
   existsb (jeqb mode) [MATCH_EQ; MATCH_GTE; MATCH_LT] = true /\ isTimeValueInRange f v = true /\ a = [] /\ b = []).
Proof.
  unfold editable. intros [_ [Htz H]%andb_true_iff]%andb_true_iff. split; [done|].
  assert (truthy tz = true) as Ht by by apply andb_true_iff in Htz as [[? _]%andb_true_iff _].
  destruct (jeqb mode MATCH_RANGE) eqn:Em.
  - apply jeqb_eq in Em as ->. split; [cbn [buildRequestConditionExpr]; unfold buildTimeConditionExpr; by rewrite normalize_time|].
    left. reflect_bools. by apply jeqb_eq in H as ->.
  - apply andb_true_iff in H as [[[Hm Hv]%andb_true_iff Ha%jeqb_eq]%andb_true_iff Hb%jeqb_eq].
    split; [|by right]. cbn [buildRequestConditionExpr]. unfold buildTimeConditionExpr. rewrite normalize_time; [done..|].
    apply existsb_exists in Hm as (m & Hin & Em'). apply existsb_exists. exists m. split; [|done].
    cbn [In] in *. tauto.
Qed.

Lemma in_group_alone e : negb (includes e (js " || ")) = true -> in_group e = e.
Proof. unfold in_group. by intros ->%negb_true_iff. Qed.

Lemma editable_or c : editable c = true ->
  overnight c = true \/ in_group (buildRequestConditionExpr c) = buildRequestConditionExpr c.
Proof.
  unfold editable. intros [[H | H]%orb_true_iff _]%andb_true_iff; [by left|right]. by apply in_group_alone.
Qed.

Lemma night_in_group f tz a b :
  in_group (range_text f tz a (js "||") b) = js "(" ++ range_text f tz a (js "||") b ++ js ")".
Proof.
  unfold in_group, range_text.
  by rewrite (startsWith_includes (scalar_text f tz (js ">=") a)
    (32%N :: js "||" ++ 32%N :: scalar_text f tz (js "<") b) (js " || ")) by done.
Qed.

Lemma editable_time_shape f tz mode v a b : let c := TimeCondition f tz mode v a b in
  editable c = true ->
  exists ps, shape c ps /\ join (js " && ") ps = in_group (buildRequestConditionExpr c).
Proof.
  intros c Hed. destruct (editable_or c Hed) as [Hn | Hi];
    destruct (editable_time _ _ _ _ _ _ Hed) as (Htz & Eb & [(-> & -> & Ha & Hb) | (Hm & Hv & -> & ->)]);
    fold c in Eb.
  - exists [js "(" ++ range_text f tz a (js "||") b ++ js ")"]. split; [by apply shape_night|].
    rewrite Eb, build_range_text by done. cbn [overnight c] in Hn. apply andb_true_iff in Hn as [_ ->].
    by rewrite night_in_group.
  - exfalso. unfold c, overnight in Hn. apply andb_true_iff in Hn as [->%jeqb_eq _]. done.
  - rewrite Hi, Eb, build_range_text by done. destruct (num_ltb (Number b) (Number a)) eqn:E.
    + exists [js "(" ++ range_text f tz a (js "||") b ++ js ")"]. split; [by apply shape_night|].
      rewrite <- night_in_group. rewrite Eb, build_range_text, E in Hi by done. by rewrite Hi.
    + exists [scalar_text f tz (js ">=") a; scalar_text f tz (js "<") b]. split; [by apply shape_day|].
      unfold range_text. by flat.
  - destruct (build_scalar_text f tz mode v _ Htz Hv Hm eq_refl) as (E & Hop & Em).
    exists [scalar_text f tz (time_mode_op mode) v]. split; [|by rewrite Hi, Eb, E].
    unfold c. rewrite <- Em at 1. by apply shape_scalar.
Qed.

Lemma after_call_other p s a : starts_other (after_call p s a).
Proof. unfold after_call. destruct s; [exists (js "param(")|exists (js "header(")]; eexists; (split; [reflexivity|auto]). Qed.

Section EditableCall.
Context (s : ph_source) (p mode v : jstring).
Let c := ParamHeaderCondition s p mode v.
Hypothesis Hed : editable c = true.

Lemma editable_call : quotable p = true /\ trim p = p /\ trim v = v /\
  includes (buildRequestConditionExpr c) (js " && ") = false /\
  (mode = MATCH_EXISTS /\ v = [] \/
   mode = MATCH_CONTAINS /\ s = header /\ no_parens (json_quote v) = true \/
   mode = MATCH_EQ /\ no_parens (buildExprLiteral MATCH_EQ v) = true /\
     forallb dot (buildExprLiteral MATCH_EQ v) = true) /\
  buildRequestConditionExpr c = build_param_header s p mode v.
Proof.
  pose proof Hed as H. unfold editable in H.
  apply andb_true_iff in H as [_ [[[[Hp Hpt%jeqb_eq]%andb_true_iff Hi%negb_true_iff]%andb_true_iff
    Hvt%jeqb_eq]%andb_true_iff H]%andb_true_iff].
  split_and!; try done.
  - destruct (jeqb mode MATCH_EXISTS) eqn:E1; [left; by apply jeqb_eq in E1, H|right].
    destruct (jeqb mode MATCH_CONTAINS) eqn:E2.
    + left. apply jeqb_eq in E2. apply andb_true_iff in H as [H%bool_decide_eq_true ?]. done.
    + right. apply andb_true_iff in H as [[H%jeqb_eq ?]%andb_true_iff ?]. done.
  - unfold c. cbn [buildRequestConditionExpr].
    rewrite normalize_call; [done|by apply andb_true_iff in Hp as [[??]%andb_true_iff _]|].
    assert (mode = MATCH_EXISTS \/ mode = MATCH_CONTAINS \/ mode = MATCH_EQ) as Hm.
    { destruct (jeqb mode MATCH_EXISTS) eqn:E1; [by apply jeqb_eq in E1; auto|].
      destruct (jeqb mode MATCH_CONTAINS) eqn:E2; [by apply jeqb_eq in E2; auto|].
      apply andb_true_iff in H as [[?%jeqb_eq ?]%andb_true_iff ?]. auto. }
    by destruct s, Hm as [-> | [-> | ->]].
Qed.

Lemma build_call_text : buildRequestConditionExpr c =
  if jeqb mode MATCH_EXISTS then
    after_call p s (41%N :: match s with header => js " != " ++ qt ++ qt | param => js " != nil" end)
  else if jeqb mode MATCH_CONTAINS then js "has(" ++ after_call p header (js "), " ++ json_quote v ++ js ")")
  else after_call p s (js ") == " ++ buildExprLiteral MATCH_EQ v).
Proof.
  destruct editable_call as (Hp & Hpt & Hvt & _ & Hm & ->). unfold build_param_header. rewrite Hpt.
  destruct (quotable_facts p Hp) as (Hne & Hq & _). rewrite Hq.
  rewrite (proj2 (truthy_true p)) by done. cbn [negb].
  destruct Hm as [[-> ->] | [(-> & -> & _) | (-> & _)]].
  - rewrite jeqb_refl. unfold after_call. change (js "(") with [40%N]. change (js ")") with [41%N].
    destruct s; cbn [bool_decide]; rewrite ?bool_decide_eq_true_2, ?bool_decide_eq_false_2 by done; by flat.
  - change (jeqb MATCH_CONTAINS MATCH_EXISTS) with false. rewrite jeqb_refl. cbv iota.
    rewrite bool_decide_eq_true_2 by done. unfold buildExprLiteral. rewrite jeqb_refl, Hvt.
    unfold after_call. change (js "(") with [40%N]. change (js ")") with [41%N]. by flat.
  - change (jeqb MATCH_EQ MATCH_EXISTS) with false. change (jeqb MATCH_EQ MATCH_CONTAINS) with false. cbv iota.
    change (cmp_mode_op MATCH_EQ) with (@None jstring). cbv iota.
    unfold after_call. change (js "(") with [40%N]. change (js ")") with [41%N]. by flat.
Qed.

Lemma editable_call_shape :
  exists ps, shape c ps /\ join (js " && ") ps = in_group (buildRequestConditionExpr c).
Proof.
  exists [buildRequestConditionExpr c]. destruct (editable_or c Hed) as [? | Hi]; [done|]. split; [|by rewrite Hi].
  destruct editable_call as (Hp & Hpt & Hvt & Hand & Hm & _). rewrite build_call_text in Hand |- *.
  destruct (quotable_facts p Hp) as (Hne & Hq & Hnq & Hnp).
  destruct Hm as [[-> ->] | [(-> & -> & Hv) | (-> & Hv & Hdot)]].
  - rewrite jeqb_refl in Hand |- *. set (a := 41%N :: _) in *. apply shape_other; [|by apply parse_exists|].
    + apply free_good; [apply after_call_solid|apply after_call_r| |apply after_call_clear|done].
      * destruct s; [by exists 108%N, (js ") != ni")|by exists 34%N, (js ") != " ++ qt)].
      * apply after_call_level; [done|]. destruct s; apply (bool_decide_unpack _); vm_compute; exact I.
      * destruct s; [exists (js ") != ni"), 108%N|exists (js ") != " ++ qt), 34%N]; (split; [done|]);
          by apply (bool_decide_unpack _).
    + by apply after_call_other.
  - change (jeqb MATCH_CONTAINS MATCH_EXISTS) with false in *. rewrite jeqb_refl in Hand |- *. cbv iota in *.
    apply shape_other; [|by apply parse_has|].
    + assert (js "has(" ++ after_call p header (js "), " ++ json_quote v ++ js ")") =
        js "has" ++ (js "(" ++ after_call p header (41%N :: js ", " ++ json_quote v) ++ js ")")) as Et.
      { rewrite after_call_app. change (js "(") with [40%N]. by flat. }
      rewrite Et in Hand |- *. apply free_good; [by eexists _, _| | | |done].
      * do 2 apply solid_r_app. apply solid_r_app. by exists 41%N, [].
      * apply level_app; [apply level_noparen, (bool_decide_unpack _); vm_compute; exact I|].
        apply level_paren, after_call_level; [done|]. apply (Forall_app_2 _ (js ", ")); [|by apply no_parens_noparen].
        apply (bool_decide_unpack _); vm_compute; exact I.
      * do 3 apply ends_clear_app. exists [], 41%N. split; [done|]. by apply (bool_decide_unpack _).
    + eexists _, _. split; [reflexivity|]. auto.
  - change (jeqb MATCH_EQ MATCH_EXISTS) with false in *. change (jeqb MATCH_EQ MATCH_CONTAINS) with false in *.
    cbv iota in *. destruct (built_literal_solid MATCH_EQ v) as [Hl Hr].
    apply shape_other; [|apply parse_equality; try done|].
    + apply free_good; [apply after_call_solid|apply after_call_r| |apply after_call_clear|done].
      * by apply solid_r_app.
      * apply (after_call_level s p Hnp (js " == " ++ _)), Forall_app. split; [|by apply no_parens_noparen].
        apply (bool_decide_unpack _); vm_compute; exact I.
      * apply ends_clear_app, built_literal_clear.
    + intros E. rewrite E in Hl. by destruct Hl as (?&?&?&?).
    + apply List.Forall_forall. by apply forallb_forall.
    + by apply parse_literal_built.
    + by apply after_call_other.
Qed.
End EditableCall.

Lemma editable_shape c : editable c = true ->
  exists ps, shape c ps /\ join (js " && ") ps = in_group (buildRequestConditionExpr c).
Proof. destruct c; [apply editable_time_shape|apply editable_call_shape]. Qed.

(** *** Reading a group *)

Lemma shape_good c ps : shape c ps -> ps <> [] /\ Forall good_part ps.
Proof.
  destruct 1 as [f tz op v Htz|f tz a b Htz|f tz a b Htz|]; (split; [done|]);
    try (destruct (quotable_facts tz Htz) as (_ & _ & _ & Hnp)).
  - apply Forall_singleton. by apply scalar_good.
  - apply Forall_cons. split; [|apply Forall_singleton]; apply scalar_good; try done; unfold is_op; auto.
  - apply Forall_singleton, paren_good, range_level; try done. by right.
  - by apply Forall_singleton.
Qed.

Lemma good_trim p : good_part p -> trim p = p.
Proof. intros []. by apply trim_solid. Qed.

Lemma parse_parts_one p c rest cs : trim p = p -> tryParseRequestCondition p = Ret (Some c) ->
  (forall q rest', rest = q :: rest' -> tryParseTimeRangePair p (trim q) = None) ->
  parse_parts rest = Ret (Some cs) -> parse_parts (p :: rest) = Ret (Some (c :: cs)).
Proof.
  intros Ht Hp Hpair Hrest. cbn [parse_parts]. rewrite Ht, Hp, Hrest.
  destruct rest as [|q rest']; [done|]. rewrite (Hpair q rest' eq_refl). by destruct (truthy (trim q)).
Qed.

Lemma time_first p c : tryParseTimeCondition p = Some c -> tryParseRequestCondition p = Ret (Some c).
Proof. unfold tryParseRequestCondition. by intros ->. Qed.

(** How the first part of a condition is read as a time condition. *)
Lemma head_time c q qs : shape c (q :: qs) ->
  match tryParseTimeCondition q with
  | Some (TimeCondition f tz mode v a b) =>
      mode = MATCH_GTE \/ mode = MATCH_RANGE \/ c = TimeCondition f tz mode v a b
  | _ => True
  end.
Proof.
  intros H. remember (q :: qs) as ps eqn:E. destruct H as [f tz op v Htz|f tz a b Htz|f tz a b Htz|];
    apply (f_equal (List.hd [])) in E; cbn [List.hd] in E; subst q;
    try destruct (quotable_facts tz Htz) as (Hne & _ & Hnq & _).
  - rewrite parse_scalar by done. auto.
  - rewrite parse_scalar by (done || unfold is_op; auto). by left.
  - rewrite parse_range_paren by (done || unfold is_conn; auto). auto.
  - destruct (starts_other_no e []) as [E _]; [done|]. rewrite app_nil_r in E. by rewrite E.
Qed.

Lemma no_pair p c c' q qs : tryParseTimeCondition p = Some c -> shape c' (q :: qs) ->
  mergeable c c' = false -> tryParseTimeRangePair p q = None.
Proof.
  intros Hp Hs Hm. pose proof (head_time _ _ _ Hs) as Hq. unfold tryParseTimeRangePair. rewrite Hp.
  destruct c as [f tz m v a b|]; [|done]. destruct (tryParseTimeCondition q) as [[f' tz' m' v' a' b'|]|]; [|done..].
  destruct (negb _ || negb _) eqn:E1; [done|]. destruct (negb (jeqb m MATCH_GTE) || _) eqn:E2; [done|exfalso].
  rewrite orb_false_iff, !negb_false_iff in E1, E2. destruct E1 as [E1 E1'], E2 as [E2 E2'].
  destruct Hq as [-> | [-> | ->]]; [by vm_compute in E2'..|]. cbn in Hm. by rewrite E1, E1', E2, E2' in Hm.
Qed.

Lemma parse_parts_shapes cs pss : Forall2 shape cs pss -> unmergeable cs = true ->
  parse_parts (concat pss) = Ret (Some cs).
Proof.
  induction 1 as [|c ps cs pss Hs Hss IH]; intros Hu; [done|]. cbn [concat].
  assert (unmergeable cs = true) as Hu'.
  { cbn in Hu. destruct cs; [done|]. by apply andb_true_iff in Hu as [_ ?]. }
  specialize (IH Hu').
  assert (forall p, tryParseTimeCondition p = Some c -> forall q rest', concat pss = q :: rest' ->
    tryParseTimeRangePair p (trim q) = None) as Hnext.
  { intros p Hp q rest' E. destruct Hss as [|c' ps' cs pss Hs' Hss]; [done|].
    destruct (shape_good _ _ Hs') as [Hne Hg]. destruct ps' as [|q' ps']; [done|]. injection E as -> _.
    rewrite good_trim by by apply Forall_cons in Hg as [? _].
    eapply no_pair; [done..|]. cbn in Hu. apply andb_true_iff in Hu as [Hu _]. by apply negb_true_iff in Hu. }
  destruct (shape_good _ _ Hs) as [_ Hg]. destruct Hs as [f tz op v Htz|f tz a b Htz|f tz a b Htz|s p mode v e].
  all: try destruct (quotable_facts tz Htz) as (Hne & _ & Hnq & _).
  - apply Forall_inv, good_trim in Hg. cbn [app].
    assert (tryParseTimeCondition (scalar_text f tz op v) = Some (TimeCondition f tz (time_op_mode op) v [] [])) as Hp
      by by apply parse_scalar.
    apply parse_parts_one; [done|by apply time_first|by apply Hnext|done].
  - apply Forall_cons in Hg as [Hg1%good_trim Hg2%Forall_inv]. pose proof (good_trim _ Hg2) as Ht.
    cbn [app parse_parts]. rewrite Hg1, Ht. destruct Hg2 as [Hl _ _ _]. rewrite solid_l_truthy by done.
    assert (tryParseTimeRangePair (scalar_text f tz (js ">=") a) (scalar_text f tz (js "<") b) =
      Some (TimeCondition f tz MATCH_RANGE [] a b)) as ->.
    { unfold tryParseTimeRangePair. rewrite !parse_scalar by (done || unfold is_op; auto).
      by rewrite bool_decide_eq_true_2, jeqb_refl by done. }
    by rewrite IH.
  - apply Forall_inv, good_trim in Hg. cbn [app].
    assert (tryParseTimeCondition (js "(" ++ range_text f tz a (js "||") b ++ js ")") =
      Some (TimeCondition f tz MATCH_RANGE [] a b)) as Hp by (apply parse_range_paren; done || by right).
    apply parse_parts_one; [done|by apply time_first|by apply Hnext|done].
  - apply Forall_inv, good_trim in Hg. cbn [app].
    apply parse_parts_one; [done..| |done]. intros q rest' _. unfold tryParseTimeRangePair.
    destruct (starts_other_no e []) as [E _]; [done|]. rewrite app_nil_r in E. by rewrite E.
Qed.

(** Side conditions on operators and numbers. *)
Ltac side := first [done | by eapply in_range_nums | unfold is_op; by auto | unfold is_conn; by auto].

(** A group of two conditions or more is not, as a whole, one time condition. *)
Lemma shapes_head c ps rest : shape c ps -> exists p qs, ps ++ rest = p :: qs.
Proof. intros [Hne _]%shape_good. destruct ps as [|p ps]; [done|]. by exists p, (ps ++ rest). Qed.

Lemma join_cons sep p ps : ps <> [] -> join sep (p :: ps) = p ++ sep ++ join sep ps.
Proof. by destruct ps. Qed.

Lemma scalar_head c c' ps pss f tz v b R : c = TimeCondition f tz MATCH_GTE v [] [] -> shape c' ps ->
  mergeable c c' = false -> quotable tz = true -> nums b ->
  R = join (js " && ") (ps ++ concat pss) -> Forall (fun qs => qs <> []) pss -> R <> scalar_text f tz (js "<") b.
Proof.
  intros -> Hs Hm Htz Hb HR Hpss E. destruct (quotable_facts tz Htz) as (Hne & _ & Hnq & _).
  pose proof (scalar_match f tz Hne Hnq (js "<") b ltac:(unfold is_op; auto) Hb) as Hmatch.
  rewrite <- E, HR in Hmatch.
  assert (forall p qs, exists t, join (js " && ") (p :: qs) = p ++ (if decide (qs = []) then [] else 32%N :: t)) as Hj.
  { intros p qs. destruct (decide (qs = [])) as [-> | Hq]; [exists []; by rewrite app_nil_r|].
    exists (js "&& " ++ join (js " && ") qs). by rewrite join_cons. }
  destruct Hs as [f' tz' op v' Htz' Hop Hv|f' tz' x y Htz' Hx Hy|f' tz' x y|s p mode v' e Hg Hp Ho].
  all: try destruct (quotable_facts tz' Htz') as (Hne' & _ & Hnq' & _).
  - cbn [app] in Hmatch. destruct (Hj (scalar_text f' tz' op v') (concat pss)) as [t Ht]. rewrite Ht in Hmatch.
    destruct (decide _).
    + rewrite app_nil_r, scalar_match in Hmatch by side.
      injection Hmatch as -> -> -> Ef. apply (f_equal isTimeFunc) in Ef. rewrite !isTimeFunc_text in Ef.
      injection Ef as ->. cbn in Hm. rewrite bool_decide_eq_true_2, jeqb_refl in Hm by done. done.
    + rewrite scalar_more in Hmatch by side. done.
  - cbn [app] in Hmatch. rewrite join_cons in Hmatch by done.
    change (js " && " ++ ?t) with (32%N :: (js "&& " ++ t)) in Hmatch.
    rewrite scalar_more in Hmatch by side. done.
  - cbn [app] in Hmatch. destruct (Hj (js "(" ++ range_text f' tz' x (js "||") y ++ js ")") (concat pss)) as [t Ht].
    by rewrite Ht in Hmatch.
  - cbn [app] in Hmatch. destruct (Hj e (concat pss)) as [t Ht]. rewrite Ht in Hmatch.
    destruct (starts_other_no e (if decide (concat pss = []) then [] else 32%N :: t) Ho) as [_ E']. by rewrite E' in Hmatch.
Qed.

Lemma whole_no_time c c' cs ps ps' pss : shape c ps -> shape c' ps' -> mergeable c c' = false ->
  Forall2 shape cs pss -> tryParseTimeCondition (join (js " && ") (ps ++ ps' ++ concat pss)) = None.
Proof.
  intros Hs Hs' Hm Hss.
  assert (Forall (fun qs => qs <> []) pss) as Hne.
  { clear -Hss. induction Hss as [|c ps cs pss H _ IH]; constructor; [by apply shape_good in H as [? _]|done]. }
  destruct (shapes_head _ _ (concat pss) Hs') as (q & qs & Eq).
  set (R := join (js " && ") (ps' ++ concat pss)).
  assert (forall p, join (js " && ") (p :: ps' ++ concat pss) = p ++ js " && " ++ R) as HR.
  { intros p. rewrite join_cons by by rewrite Eq. done. }
  destruct Hs as [f tz op v Htz Hop Hv|f tz a b Htz Ha Hb|f tz a b Htz Ha Hb|s p mode v e Hg Hp Ho];
    cbn [app]; try destruct (quotable_facts tz Htz) as (Htn & _ & Hnq & _).
  - rewrite HR. apply scalar_and_more; try side.
    intros b -> Hb. by apply (scalar_head _ c' ps' pss f tz v b R eq_refl).
  - rewrite join_cons by done. rewrite HR. apply scalar_and_more; try side.
    intros b' _ Hb' E. pose proof (scalar_match f tz Htn Hnq (js "<") b' ltac:(unfold is_op; auto) Hb') as Hmatch.
    rewrite <- E in Hmatch. change (js " && " ++ R) with (32%N :: (js "&& " ++ R)) in Hmatch.
    by rewrite scalar_more in Hmatch by side.
  - rewrite HR. rewrite <- !app_assoc. change (js " && " ++ R) with (32%N :: (js "&& " ++ R)).
    apply (range_paren_more f tz Htn Hnq (js "||") a b); side.
  - rewrite HR. by apply starts_other_no.
Qed.

Definition text_of (cs : list RequestCondition) : jstring := combine_conditions (map buildRequestConditionExpr cs).

Lemma shapes_exist cs : Forall (fun c => editable c = true) cs ->
  exists pss, Forall2 shape cs pss /\
    Forall2 (fun c ps => join (js " && ") ps = in_group (buildRequestConditionExpr c)) cs pss.
Proof.
  induction 1 as [|c cs Hc _ (pss & H1 & H2)]; [by exists []|].
  destruct (editable_shape c Hc) as (ps & Hs & Hj). exists (ps :: pss). by split; constructor.
Qed.

Lemma join_app sep ps qs : ps <> [] -> qs <> [] -> join sep (ps ++ qs) = join sep ps ++ sep ++ join sep qs.
Proof.
  intros Hp Hq. induction ps as [|p ps IH]; [done|]. destruct ps as [|p' ps].
  - cbn [app]. by rewrite join_cons.
  - change ((p :: p' :: ps) ++ qs) with (p :: (p' :: ps) ++ qs). rewrite join_cons by done.
    rewrite IH by done. rewrite (join_cons _ p (p' :: ps)) by done. by rewrite <- !app_assoc.
Qed.

Lemma concat_ne {A} (pss : list (list A)) : pss <> [] -> Forall (fun ps => ps <> []) pss -> concat pss <> [].
Proof. intros Hne H. destruct H as [|ps pss Hp _]; [done|]. by destruct ps. Qed.

Lemma join_concat sep (pss : list (list jstring)) : Forall (fun ps => ps <> []) pss ->
  join sep (map (join sep) pss) = join sep (concat pss).
Proof.
  induction 1 as [|ps pss Hp Hpss IH]; [done|]. destruct pss as [|ps' pss].
  - cbn. by rewrite app_nil_r.
  - change (join sep (join sep ps :: map (join sep) (ps' :: pss)) = join sep (ps ++ concat (ps' :: pss))).
    rewrite join_cons, join_app, IH by (done || by apply concat_ne). done.
Qed.

Lemma shapes_good cs pss : Forall2 shape cs pss ->
  Forall (fun ps => ps <> []) pss /\ Forall good_part (concat pss).
Proof.
  induction 1 as [|c ps cs pss H _ [IH1 IH2]]; [done|]. apply shape_good in H as [H1 H2].
  split; [by constructor|]. by apply Forall_app.
Qed.

Lemma split_and_parts ps : ps <> [] -> Forall good_part ps ->
  splitTopLevelAnd (join (js " && ") ps) = ps.
Proof.
  intros Hne H. unfold splitTopLevelAnd. rewrite (split_top_join _ 32%N (js "&& ")); [|done..|].
  - rewrite (map_ext_Forall _ id), map_id by (eapply Forall_impl; [done|]; apply good_trim).
    apply Forall_true_filter. eapply Forall_impl; [done|]. intros p []. by apply solid_l_truthy.
  - eapply Forall_impl; [done|]. by intros p [].
Qed.

Lemma read_parts cs pss : cs <> [] -> Forall2 shape cs pss -> unmergeable cs = true ->
  tryParseTimeCondition (trim (join (js " && ") (concat pss))) = None ->
  tryParseRequestConditions (join (js " && ") (concat pss)) = Ret (Some cs).
Proof.
  intros Hne Hss Hu Ht. unfold tryParseRequestConditions. rewrite Ht.
  destruct (shapes_good _ _ Hss) as [H1 H2]. rewrite split_and_parts; [|apply concat_ne; [|done]|done].
  - rewrite (parse_parts_shapes cs) by done. cbn. by destruct cs.
  - intros ->. by inversion Hss; subst.
Qed.

Lemma solid_join ps : ps <> [] -> Forall good_part ps ->
  solid_l (join (js " && ") ps) /\ solid_r (join (js " && ") ps).
Proof.
  intros Hne H. induction H as [|p ps [Hl Hr _ _] Hps IH]; [done|]. destruct ps as [|q ps]; [done|].
  rewrite join_cons by done. split; [by apply solid_l_app|]. do 2 apply solid_r_app. by apply IH.
Qed.

Lemma level_join ps : Forall good_part ps -> level (join (js " && ") ps).
Proof.
  induction 1 as [|p ps [_ _ _ Hp] Hps IH]; [apply level_noparen, Forall_nil_2|].
  destruct ps as [|q ps]; [done|]. rewrite join_cons by done. apply level_app; [done|]. apply level_app; [|done].
  apply level_noparen, (bool_decide_unpack _); vm_compute; exact I.
Qed.

(** A single condition. *)
Lemma read_one c : editable c = true ->
  let e := buildRequestConditionExpr c in
  tryParseRequestConditions e = Ret (Some [c]) /\ level e /\ solid_l e /\ solid_r e.
Proof.
  intros Hed e. destruct (editable_shape c Hed) as (ps & Hs & Hj). destruct (shape_good _ _ Hs) as [Hne Hg].
  destruct (editable_or c Hed) as [Hn | Hi].
  - destruct c as [f tz mode v a b|]; [|done]. destruct (editable_time _ _ _ _ _ _ Hed) as (Htz & Eb & Hm).
    fold e in Eb. cbn in Hn. apply andb_true_iff in Hn as [->%jeqb_eq Hn].
    destruct Hm as [(_ & -> & Ha & Hb) | [Hm _]]; [|done]. rewrite build_range_text, Hn in Eb by done.
    destruct (quotable_facts tz Htz) as (Htn & _ & Hnq & Hnp).
    assert (solid_l e /\ solid_r e) as [Hl Hr].
    { rewrite Eb. unfold range_text. destruct (scalar_good f tz (js ">=") a) as [Hl _ _ _]; [side..|].
      destruct (scalar_good f tz (js "<") b) as [_ Hr _ _]; [side..|].
      split; [by apply solid_l_app|]. apply solid_r_app. by do 4 apply (solid_r_app [_]). }
    split_and!; [|rewrite Eb; apply range_level; side|done..].
    unfold tryParseRequestConditions. rewrite trim_solid by done. rewrite Eb. by rewrite parse_range by side.
  - fold e in Hi, Hj. rewrite Hi in Hj. destruct (solid_join ps) as [Hl Hr]; [done..|]. rewrite Hj in Hl, Hr.
    assert (level e) as Hlv by (rewrite <- Hj; by apply level_join).
    split_and!; try done.
    assert (tryParseTimeCondition e = Some c \/ tryParseTimeCondition e = None /\ ps = [e]) as [Ht | [Ht ->]].
    { rewrite <- Hj. destruct Hs as [f tz op v Htz|f tz a b Htz|f tz a b Htz|s p mode v e' _ _ Ho].
      all: try destruct (quotable_facts tz Htz) as (Htn & _ & Hnq & _).
      - left. by apply parse_scalar.
      - left. change (join (js " && ") [?x; ?y]) with (x ++ js " && " ++ y).
        apply (parse_range f tz Htn Hnq (js "&&")); side.
      - left. cbn [join]. apply parse_range_paren; side.
      - right. cbn [join]. destruct (starts_other_no e' [] Ho) as [E _]. rewrite app_nil_r in E. by rewrite E. }
    + unfold tryParseRequestConditions. by rewrite trim_solid, Ht by done.
    + pose proof (read_parts [c] [[e]]) as Hread. cbn [concat app join] in Hread.
      apply Hread; [done|by repeat constructor|done|]. by rewrite trim_solid.
Qed.

(** The conditions of a group are read back from their text. *)
Lemma read_conditions cs : cs <> [] -> Forall (fun c => editable c = true) cs -> unmergeable cs = true ->
  tryParseRequestConditions (text_of cs) = Ret (Some cs) /\ level (text_of cs) /\
  solid_l (text_of cs) /\ solid_r (text_of cs).
Proof.
  intros Hne Hed Hu. destruct cs as [|c [|c' cs]]; [done| |].
  { apply read_one. by apply Forall_inv in Hed. }
  destruct (shapes_exist (c :: c' :: cs) Hed) as (pss & Hss & Hj).
  destruct (shapes_good _ _ Hss) as [Hpn Hg].
  assert (text_of (c :: c' :: cs) = join (js " && ") (concat pss)) as ->.
  { rewrite <- join_concat by done. unfold text_of. cbn [map combine_conditions].
    fold in_group. f_equal. clear -Hj. 
    change (map in_group (map buildRequestConditionExpr (c :: c' :: cs)) = map (join (js " && ")) pss).
    induction Hj as [|x ps l pss H _ IH]; [done|]. cbn [map]. by rewrite H, IH. }
  destruct (solid_join (concat pss)) as [Hl Hr]; [apply concat_ne; [by intros ->; inversion Hss|done]|done|].
  split_and!; [|by apply level_join|done..].
  apply read_parts; try done. rewrite trim_solid by done.
  inversion Hss as [|? ps ? pss1 Hs Hss1]; subst. inversion Hss1 as [|? ps' ? pss2 Hs' Hss2]; subst.
  cbn [concat]. apply (whole_no_time c c' cs); try done. cbn in Hu. apply andb_true_iff in Hu as [Hu _].
  by apply negb_true_iff in Hu.
Qed.

(** ** Groups *)

Definition factor_text (cond m : jstring) : jstring := js "(" ++ cond ++ js " ? " ++ m ++ js " : 1)".

Lemma no_question a w : (63 ∉ a)%N -> startsWith a (js " ? " ++ w) = false.
Proof.
  intros H. apply not_true_iff_false. intros [k ->]%startsWith_app. apply H. right. left.
Qed.

Lemma factor_match cond m : cond <> [] -> nums m ->
  fullmatch factor_re (factor_text cond m) = Some [(2%nat, m); (1%nat, cond)].
Proof.
  intros Hne Hm. unfold fullmatch, factor_re, factor_text. cbn [Seqs foldr]. rewrite run_Seq. lit.
  rewrite run_Seq, run_Grp. destruct cond as [|x cond]; [done|]. unfold Plus. cbn [app].
  rewrite run_Seq, run_Chr_head by done.
  set (T := js " ? " ++ m ++ js " : 1)").
  assert (63 ∉ m ++ js " : 1)")%N as Hq.
  { intros [H | H]%elem_of_app; [|revert H; by apply (bool_decide_unpack _)].
    destruct Hm as [_ Hm]. rewrite Forall_forall in Hm. apply Hm, num_unit_facts in H. naive_solver. }
  apply (run_Star_last anything _ T); [| |by apply Forall_true..].
  - intros T1 T2 H1 ET. cbv beta. rewrite run_Seq, run_Lit_fail; [done|].
    destruct T1 as [|y1 T1]; [done|].
    change T with (32%N :: 63%N :: 32%N :: m ++ js " : 1)") in ET. cbn [app] in ET. injection ET as _ ET.
    destruct T1 as [|y2 T1]; [cbn [app] in ET; by subst T2|]. cbn [app] in ET. injection ET as _ ET.
    apply (no_question _ []). intros Hin. assert (63 ∈ 32 :: m ++ js " : 1)")%N as Hin'.
    { rewrite ET. apply elem_of_app. by right. }
    by apply elem_of_cons in Hin' as [? | ?].
  - cbv beta. rewrite run_Seq, (run_Lit_pre (js " ? ") _ T (m ++ js " : 1)")), run_Seq by done.
    change (m ++ js " : 1)") with (m ++ 32%N :: js ": 1)").
    rewrite (run_num 2 32%N (js ": 1)")) by done.
    rewrite run_Seq, (run_Lit_pre (js " : 1)") _ _ []) by done.
    cbn [run at_end]. do 3 f_equal. apply pair_equal_spec. split; [done|]. apply (captured (x :: cond)).
Qed.

(** A group the editor reads back: a numeric multiplier, and conditions none of which merge. *)
Definition editable_group (g : RequestRuleGroup) : bool :=
  NUMERIC_LITERAL_REGEX (multiplier g) && negb (bool_decide (conditions g = [])) &&
  forallb editable (conditions g) && unmergeable (conditions g).

(** The group without what only a trace carries. *)
Definition written (g : RequestRuleGroup) : RequestRuleGroup :=
  {| conditions := conditions g; multiplier := multiplier g; conditionText := None; matched := None |}.

Lemma editable_truthy c : editable c = true -> truthy (buildRequestConditionExpr c) = true.
Proof. intros H. by apply solid_l_truthy, read_one. Qed.

Lemma factor_paren cond m : factor_text cond m = js "(" ++ (cond ++ js " ? " ++ m ++ js " : 1") ++ js ")".
Proof. unfold factor_text. change (js " : 1)") with (js " : 1" ++ js ")"). by rewrite <- !app_assoc. Qed.

Lemma factor_level cond m : level cond -> NUMERIC_LITERAL_REGEX m = true ->
  level (cond ++ js " ? " ++ m ++ js " : 1").
Proof.
  intros Hc Hm. assert (noparen (js " ? ") /\ noparen (js " : 1")) as [H1 H2].
  { split; apply (bool_decide_unpack _); vm_compute; exact I. }
  apply level_app; [done|]. apply level_app; [by apply level_noparen|].
  apply level_app; apply level_noparen; [by apply numeric_noparen|done].
Qed.

Section Group.
Context (g : RequestRuleGroup).
Hypothesis Hg : editable_group g = true.

Lemma editable_group_facts : NUMERIC_LITERAL_REGEX (multiplier g) = true /\ conditions g <> [] /\
  Forall (fun c => editable c = true) (conditions g) /\ unmergeable (conditions g) = true.
Proof.
  unfold editable_group in Hg.
  apply andb_true_iff in Hg as [[[Hm Hne%negb_true_iff]%andb_true_iff Hed]%andb_true_iff Hu].
  split_and!; try done; [by apply bool_decide_eq_false in Hne|].
  apply List.Forall_forall. by apply forallb_forall.
Qed.

Lemma build_factor : buildRuleGroupFactor g = factor_text (text_of (conditions g)) (multiplier g).
Proof.
  destruct editable_group_facts as (Hm & Hne & Hed & _). unfold buildRuleGroupFactor.
  rewrite (numeric_trim _ Hm), Hm. cbn [negb].
  rewrite Forall_true_filter.
  - unfold text_of. by destruct (conditions g).
  - apply Forall_map. eapply Forall_impl; [done|]. apply editable_truthy.
Qed.

Lemma read_factor : tryParseRuleGroupFactor (buildRuleGroupFactor g) = Ret (Some (written g)).
Proof.
  destruct editable_group_facts as (Hm & Hne & Hed & Hu).
  destruct (read_conditions _ Hne Hed Hu) as (Hr & _ & (x & t & Et & _) & _).
  rewrite build_factor. unfold tryParseRuleGroupFactor.
  rewrite factor_match; [|by rewrite Et|by apply numeric_units].
  unfold capd. cbn [cap Nat.eqb coalesce from_option id]. by rewrite Hr.
Qed.

Lemma factor_shape : exists t, buildRuleGroupFactor g = js "(" ++ t ++ js ")" /\ level t.
Proof.
  destruct editable_group_facts as (Hm & Hne & Hed & Hu). destruct (read_conditions _ Hne Hed Hu) as (_ & Hl & _).
  rewrite build_factor, factor_paren. eexists. split; [reflexivity|]. by apply factor_level.
Qed.
End Group.

Lemma paren_trim t : trim (js "(" ++ t ++ js ")") = js "(" ++ t ++ js ")".
Proof. apply trim_solid; [by eexists _, _|]. do 2 apply solid_r_app. by exists 41%N, []. Qed.

Lemma split_multiply ps : ps <> [] -> Forall (fun p => exists t, p = js "(" ++ t ++ js ")" /\ level t) ps ->
  splitTopLevelMultiply (join (js " * ") ps) = ps.
Proof.
  intros Hne H. unfold splitTopLevelMultiply. rewrite (split_top_join _ 32%N (js "* ")); [|done..|].
  - rewrite (map_ext_Forall _ id), map_id.
    + apply Forall_true_filter. eapply Forall_impl; [done|]. by intros p (t & -> & _).
    + eapply Forall_impl; [done|]. intros p (t & -> & _). apply paren_trim.
  - eapply Forall_impl; [done|]. intros p (t & -> & Ht). by apply quiet_segment, (quiet_paren _ (js "* ")).
Qed.

Lemma join_paren_trim ps : ps <> [] -> Forall (fun p => exists t, p = js "(" ++ t ++ js ")" /\ level t) ps ->
  trim (join (js " * ") ps) = join (js " * ") ps /\ truthy (join (js " * ") ps) = true.
Proof.
  intros Hne H.
  assert (solid_l (join (js " * ") ps) /\ solid_r (join (js " * ") ps)) as [Hl Hr].
  { induction H as [|p ps (t & -> & _) Hps IH]; [done|].
    assert (solid_l (js "(" ++ t ++ js ")") /\ solid_r (js "(" ++ t ++ js ")")) as [Hl Hr].
    { split; [by eexists _, _|]. do 2 apply solid_r_app. by exists 41%N, []. }
    destruct ps as [|q ps]; [done|]. rewrite join_cons by done. split; [by apply solid_l_app|].
    do 2 apply solid_r_app. by apply IH. }
  split; [by apply trim_solid|by apply solid_l_truthy].
Qed.

Lemma build_groups gs : Forall (fun g => editable_group g = true) gs ->
  buildRequestRuleExpr gs = join (js " * ") (map buildRuleGroupFactor gs) /\
  Forall (fun p => exists t, p = js "(" ++ t ++ js ")" /\ level t) (map buildRuleGroupFactor gs).
Proof.
  intros H. assert (Forall (fun p => exists t, p = js "(" ++ t ++ js ")" /\ level t) (map buildRuleGroupFactor gs)) as Hs.
  { apply Forall_map. eapply Forall_impl; [done|]. apply factor_shape. }
  split; [|done]. unfold buildRequestRuleExpr. rewrite Forall_true_filter; [done|].
  eapply Forall_impl; [done|]. by intros p (t & -> & _).
Qed.

Lemma read_rules gs : Forall (fun g => editable_group g = true) gs ->
  tryParseRequestRuleExpr (buildRequestRuleExpr gs) = Ret (Some (map written gs)).
Proof.
  intros H. destruct (build_groups gs H) as [-> Hs]. unfold tryParseRequestRuleExpr.
  destruct gs as [|g gs]; [done|]. destruct (join_paren_trim (map buildRuleGroupFactor (g :: gs))) as [-> ->]; [done..|].
  cbn [negb]. rewrite split_multiply by done. clear Hs.
  induction H as [|g' l Hg _ IH]; [done|]. cbn [map parse_factors]. by rewrite read_factor, IH.
Qed.

(** ** The billing expression and its rules *)

(** Parentheses that close what they open. *)
Definition balanced (t : jstring) : bool := calm [] 1 t [] && (depth_after 1 t =? 1).

Lemma calm_deeper t : forall d, 1 <= d -> calm [] d t [] = true ->
  forall e sep rest, 0 <= e -> calm sep (d + e) t rest = true.
Proof.
  induction t as [|c t IH]; intros d Hd H e sep rest He; [done|]. cbn [calm] in H |- *.
  apply andb_true_iff in H as [H1 H2]. rewrite andb_true_r in H1 || (cbn [startsWith] in H1; rewrite andb_true_r in H1).
  apply negb_true_iff, Z.eqb_neq in H1.
  assert (step_depth (d + e) c = step_depth d c + e) as ->.
  { unfold step_depth. destruct (c =? 40)%N, (c =? 41)%N; lia. }
  assert (1 <= step_depth d c) by (revert H1; unfold step_depth; destruct (c =? 40)%N, (c =? 41)%N; lia).
  rewrite IH by done. rewrite andb_true_r. apply negb_true_iff, andb_false_iff. left. apply Z.eqb_neq. lia.
Qed.

Lemma balanced_level t : balanced t = true -> level t.
Proof.
  intros [H1 H2%Z.eqb_eq]%andb_true_iff d Hd. split; [rewrite depth_after_shift in H2 |- *; lia|].
  intros sep rest. replace d with (1 + (d - 1)) by lia. apply calm_deeper; [lia|done|lia].
Qed.

Lemma closes_early_calm t : forall d rest, calm [] d t rest = true ->
  closes_early d (t ++ rest) = closes_early (depth_after d t) rest.
Proof.
  induction t as [|c t IH]; intros d rest H; [done|]. cbn [calm] in H. apply andb_true_iff in H as [H1 H2].
  cbn [app closes_early]. fold (step_depth d c). rewrite depth_after_cons, IH by done.
  assert ((step_depth d c =? 0) = false) as ->; [|done].
  apply negb_true_iff in H1. cbn [app startsWith] in H1. by rewrite andb_true_r in H1.
Qed.

Lemma full_outer t : level t -> hasFullOuterParens (js "(" ++ t ++ js ")") = true.
Proof.
  intros H. destruct (H 1 ltac:(lia)) as [E C]. unfold hasFullOuterParens.
  assert (endsWith (js "(" ++ t ++ js ")") (js ")") = true) as ->.
  { unfold endsWith. rewrite !rev_app_distr. change (rev (js ")")) with [41%N]. done. }
  change (js "(") with [40%N]. change (js ")") with [41%N]. cbn [app startsWith closes_early andb].
  change (40 =? 40)%N with true. change (40 =? 41)%N with false. cbv iota.
  rewrite closes_early_calm by done. change (0 + 1) with 1. rewrite E.
  rewrite depth_after_cons, depth_after_app. change (step_depth 0 40) with 1. by rewrite E.
Qed.

Lemma inside_paren t : inside (js "(" ++ t ++ js ")") = t.
Proof.
  change (js "(") with [40%N]. unfold inside, slice. cbn [app length drop]. rewrite length_app.
  change (js ")") with [41%N]. cbn [length].
  replace (S (length t + 1) - 1 - 1)%nat with (length t) by lia. apply take_app_length.
Qed.

Lemma unwrap_paren t : level t -> trim t = t -> hasFullOuterParens t = false ->
  unwrapOuterParens (js "(" ++ t ++ js ")") = t.
Proof.
  intros Hl Ht Hf. unfold unwrapOuterParens. rewrite paren_trim.
  change (length (js "(" ++ t ++ js ")")) with (S (length (t ++ js ")"))). cbn [unwrap_loop].
  rewrite full_outer, inside_paren, Ht by done. rewrite length_app.
  change (length (js ")")) with 1%nat. rewrite Nat.add_1_r. cbn [unwrap_loop]. by rewrite Hf.
Qed.

(** Unwrapping ends with a text that has no outer parentheses left: the fuel is enough. *)
Lemma inside_shorter t : hasFullOuterParens t = true -> (length (trim (inside t)) < length t)%nat.
Proof.
  intros H. destruct t as [|x t]; [done|]. eapply Nat.le_lt_trans; [apply trim_length|].
  unfold inside, slice. rewrite length_take, length_drop. cbn [length]. lia.
Qed.

Lemma unwrap_loop_done fuel : forall t, (length t <= fuel)%nat -> hasFullOuterParens (unwrap_loop fuel t) = false.
Proof.
  induction fuel as [|f IH]; intros t Hl; cbn [unwrap_loop].
  - by destruct t; [|cbn in Hl; lia].
  - destruct (hasFullOuterParens t) eqn:E; [|done]. apply IH. apply inside_shorter in E. lia.
Qed.

(** A text the factor pattern takes ends like a factor. *)
Lemma factor_ends s m : fullmatch factor_re s = Some m -> exists w, s = w ++ js " : 1)".
Proof.
  unfold fullmatch, factor_re. cbn [Seqs foldr]. rewrite run_Seq. intros H.
  apply run_suffix in H as (w1 & a1 & c1 & -> & H). rewrite run_Seq in H.
  apply run_suffix in H as (w2 & a2 & c2 & -> & H). rewrite run_Seq in H.
  apply run_suffix in H as (w3 & a3 & c3 & -> & H). rewrite run_Seq in H.
  apply run_suffix in H as (w4 & a4 & c4 & -> & H). rewrite run_Seq, run_Lit_strip in H.
  destruct (strip (js " : 1)") a4) as [a5|] eqn:E; [|done]. apply strip_Some in E as ->.
  destruct a5; [|done]. exists (w1 ++ w2 ++ w3 ++ w4). by rewrite app_nil_r, <- !app_assoc.
Qed.

Lemma base_no_factor base : endsWith base (js " : 1") = false ->
  fullmatch factor_re (js "(" ++ base ++ js ")") = None.
Proof.
  intros H. destruct (fullmatch factor_re _) as [m|] eqn:E; [|done]. apply factor_ends in E as [w E].
  exfalso. apply not_true_iff_false in H. apply H. unfold endsWith. apply startsWith_app.
  change (js " : 1)") with (js " : 1" ++ js ")") in E. rewrite !app_assoc in E.
  apply app_inv_tail in E. apply (f_equal (@rev N)) in E. rewrite !rev_app_distr in E.
  change (rev (js " : 1")) with [49; 32; 58; 32]%N in E |- *. change (rev (js "(")) with [40%N] in E.
  destruct (rev base) as [|x1 [|x2 [|x3 [|x4 r]]]]; cbn [app] in E; try done.
  injection E as -> -> -> -> _. by exists r.
Qed.

(** A price expression that can be told from its rules: trimmed, with balanced parentheses, not
    itself in parentheses, and not ending like a rule. *)
Definition is_base (base : jstring) : bool :=
  truthy base && jeqb (trim base) base && balanced base &&
  negb (hasFullOuterParens base) && negb (endsWith base (js " : 1")).

Lemma is_base_facts base : is_base base = true ->
  truthy base = true /\ trim base = base /\ level base /\ hasFullOuterParens base = false /\
  is_rule_part (js "(" ++ base ++ js ")") = Ret false.
Proof.
  intros [[[[H1 H2%jeqb_eq]%andb_true_iff H3%balanced_level]%andb_true_iff H4%negb_true_iff]%andb_true_iff
    H5%negb_true_iff]%andb_true_iff. split_and!; try done.
  unfold is_rule_part, tryParseRequestRuleExpr. rewrite paren_trim.
  change (negb (truthy (js "(" ++ base ++ js ")"))) with false. cbv iota.
  pose proof (split_multiply [js "(" ++ base ++ js ")"] ltac:(done)) as E. cbn [join] in E.
  rewrite E by (apply Forall_singleton; eauto). cbn [parse_factors]. unfold tryParseRuleGroupFactor.
  by rewrite base_no_factor.
Qed.

(** The parts of a combined expression. *)
Lemma combined_parts base rs : is_base base = true -> rs <> [] ->
  Forall (fun p => exists t, p = js "(" ++ t ++ js ")" /\ level t) rs ->
  let whole := combineBillingExpr base (join (js " * ") rs) in
  whole = join (js " * ") ((js "(" ++ base ++ js ")") :: rs) /\ trim whole = whole /\ truthy whole = true /\
  splitTopLevelMultiply whole = (js "(" ++ base ++ js ")") :: rs.
Proof.
  intros (Ht & Htr & Hl & _)%is_base_facts Hne Hrs whole.
  destruct (join_paren_trim rs) as [E1 E2]; [done..|].
  assert (whole = join (js " * ") ((js "(" ++ base ++ js ")") :: rs)) as Ew.
  { unfold whole, combineBillingExpr. rewrite Htr, E1, E2, Ht. cbn [negb]. rewrite join_cons by done.
    change (js ") * ") with (js ")" ++ js " * "). by rewrite <- !app_assoc. }
  assert (Forall (fun p => exists t, p = js "(" ++ t ++ js ")" /\ level t) ((js "(" ++ base ++ js ")") :: rs)) as H
    by (apply Forall_cons; eauto).
  rewrite Ew. split; [done|]. destruct (join_paren_trim ((js "(" ++ base ++ js ")") :: rs)) as [? ?]; [done..|].
  split_and!; try done. by apply split_multiply.
Qed.

Lemma sort_rules gs : Forall (fun g => editable_group g = true) gs ->
  sort_parts (map buildRuleGroupFactor gs) = Ret (map buildRuleGroupFactor gs, []).
Proof.
  induction 1 as [|g gs Hg _ IH]; [done|]. cbn [map sort_parts]. unfold is_rule_part.
  pose proof (read_rules [g] ltac:(by apply Forall_singleton)) as E.
  destruct (build_groups [g] ltac:(by apply Forall_singleton)) as [Eb _]. rewrite Eb in E. cbn [map join] in E.
  by rewrite E, IH.
Qed.

(** C17. What the visual editor writes for a list of rule groups, the parser reads as the same groups - every condition
    with its source, path or time, mode and value, in the same order, and every multiplier -, provided each group is
    one the text can carry ([editable_group]).  That is: the multiplier is a number; there is a condition; the
    condition of a parameter or header tests that it is there or equals a value, that of a header may also test that
    it contains one, and there is no contains, size or other comparison of a parameter; names and values are trimmed,
    without parentheses, the name not empty and without quotes, backslashes and controls, the value without line
    breaks where it is compared, and the text of the condition holds no && or || of its own; a time condition has a mode of times, values its field can take, and the
    fields its mode does not use empty; and no lower bound is directly followed by an upper bound of the same time,
    which the reader would make one range of.  The conditions are needed: param_tests_not_read and parenthesis_not_read
    show rules outside of them that are written and not read back. *)
Theorem rules_read_back gs : Forall (fun g => editable_group g = true) gs ->
  tryParseRequestRuleExpr (buildRequestRuleExpr gs) = Ret (Some (map written gs)).
Proof. apply read_rules. Qed.

(** A price expression combined with the rules of the editor is split into the same price
    and the same rules. *)
Theorem combine_split base gs : is_base base = true -> gs <> [] ->
  Forall (fun g => editable_group g = true) gs ->
  splitBillingExprAndRequestRules (combineBillingExpr base (buildRequestRuleExpr gs)) =
    Ret {| billingExpr := base; requestRuleExpr := buildRequestRuleExpr gs |}.
Proof.
  intros Hb Hne Hgs. destruct (build_groups gs Hgs) as [Eb Hs]. rewrite Eb.
  assert (map buildRuleGroupFactor gs <> []) as Hne' by by destruct gs.
  destruct (combined_parts base _ Hb Hne' Hs) as (_ & E1 & E2 & E3).
  unfold splitBillingExprAndRequestRules. rewrite E1, E2, E3. cbn [negb length].
  destruct gs as [|g gs]; [done|].
  rewrite (proj2 (Nat.leb_gt _ _)) by (cbn; lia). cbn [sort_parts].
  destruct (is_base_facts base Hb) as (_ & Htr & Hl & Hf & ->). cbn [ebind].
  rewrite sort_rules by done. cbn [ebind map]. by rewrite unwrap_paren.
Qed.

(** A comparison of a parameter, without the check that it is there, is no condition. *)
Lemma compared_not_read p a : p <> [] -> Forall (fun x => not_quote x = true) p ->
  (forall w, w = js ") != nil" \/ w = js ") != nil && has(param(" ++ qt \/ w = js ") != nil && param(" ++ qt \/
     w = js ") == " -> startsWith (34%N :: a) (qt ++ w) = false) ->
  tryParseRequestCondition (after_call p param a) = Ret None.
Proof.
  intros Hne Hp Ha. unfold tryParseRequestCondition. rewrite after_call_no_time.
  replace (fullmatch header_exists_re _) with (@None caps) by done.
  replace (fullmatch header_has_re _) with (@None caps) by done.
  unfold param_exists_re, param_has_re, param_cmp_re, group_path.
  rewrite !match_after_call by auto. cbn [orelse].
  assert (fullmatch eq_re (after_call p param a) = None) as ->; [|done].
  unfold fullmatch, eq_re, group_path, after_call. cbn [Seqs foldr]. rewrite run_Seq.
  rewrite run_Grp_eats by (intros k'; vm_compute; by destruct (k' _ _)).
  rewrite run_Seq. lit. rewrite run_Seq, run_path by done. rewrite run_Seq, run_Lit_fail by auto. done.
Qed.

Section ParamTest.
Context (p mode v : jstring).
Let c := ParamHeaderCondition param p mode v.
Hypothesis Hp : quotable p = true.
Hypothesis Hpt : trim p = p.
Hypothesis Hv : mode = MATCH_CONTAINS /\ no_parens (json_quote (trim v)) = true \/
  existsb (jeqb mode) [MATCH_GT; MATCH_GTE; MATCH_LT; MATCH_LTE] = true /\ NUMERIC_LITERAL_REGEX (trim v) = true.

(** The text after the check that the parameter is there. *)
Lemma param_test_text : exists e2, buildRequestConditionExpr c = after_call p param (js ") != nil && " ++ e2) /\
  good_part e2 /\ tryParseRequestCondition e2 = Ret None.
Proof using Hp Hpt Hv.
  destruct (quotable_facts p Hp) as (Hne & Hq & Hnq & Hnp).
  assert (truthy p = true) as Htp by by apply truthy_true.
  assert (buildRequestConditionExpr c = build_param_header param p mode v) as ->.
  { unfold c. cbn [buildRequestConditionExpr]. rewrite normalize_call; [done..|].
    destruct Hv as [[-> _] | [Hmo _]]; [done|]. apply existsb_exists in Hmo as (o & Hin & ->%jeqb_eq).
    by destruct Hin as [<- | [<- | [<- | [<- | []]]]]. }
  unfold build_param_header. rewrite Hpt, Htp, Hq. cbn [negb]. rewrite bool_decide_eq_false_2 by done.
  destruct Hv as [[-> Hnpv] | [Hmo Hnum]].
  - change (jeqb MATCH_CONTAINS MATCH_EXISTS) with false. rewrite jeqb_refl. cbv iota.
    exists (js "has(param(" ++ qt ++ p ++ qt ++ js "), " ++ json_quote (trim v) ++ js ")").
    unfold buildExprLiteral. rewrite jeqb_refl. split; [|split].
    + unfold after_call. change (js "(") with [40%N]. change (js ")") with [41%N]. by flat.
    + assert (js "has(param(" ++ qt ++ p ++ qt ++ js "), " ++ json_quote (trim v) ++ js ")" =
        js "has" ++ (js "(" ++ after_call p param (41%N :: js ", " ++ json_quote (trim v)) ++ js ")")) as ->.
      { rewrite after_call_app. unfold after_call. change (js "(") with [40%N]. by flat. }
      assert (level (after_call p param (41%N :: js ", " ++ json_quote (trim v)))) as Hlv.
      { apply after_call_level; [done|]. apply (Forall_app_2 _ (js ", ")); [|by apply no_parens_noparen].
        apply (bool_decide_unpack _); vm_compute; exact I. }
      split.
      * by eexists _, _.
      * do 3 apply solid_r_app. by exists 41%N, [].
      * apply quiet_segment, quiet_app; [|by apply (quiet_paren _ (js "&& "))].
        split; [done|]. intros. apply (calm_head _ 32); [done|]. apply (bool_decide_unpack _); vm_compute; exact I.
      * apply level_app; [apply level_noparen, (bool_decide_unpack _); vm_compute; exact I|by apply level_paren].
    + done.
  - assert (exists op, cmp_mode_op mode = Some op /\ is_cmp op /\ op <> js "==" /\
      jeqb mode MATCH_EXISTS = false /\ jeqb mode MATCH_CONTAINS = false) as (op & -> & Hop & Hne' & -> & ->).
    { apply existsb_exists in Hmo as (o & Hin & ->%jeqb_eq).
      unfold is_cmp, is_op. destruct Hin as [<- | [<- | [<- | [<- | []]]]]; eexists; (split; [reflexivity|]); auto 6. }
    cbv iota. rewrite Hnum. cbn [negb].
    exists (after_call p param (js ") " ++ op ++ js " " ++ trim v)). split; [|split].
    + unfold after_call. change (js "(") with [40%N]. change (js ")") with [41%N]. by flat.
    + assert (after_call p param (js ") " ++ op ++ js " " ++ trim v) =
        SOURCE_PARAM ++ (js "(" ++ (34%N :: p ++ [34%N]) ++ js ")") ++ (32%N :: op ++ [32%N]) ++ trim v) as ->.
      { unfold after_call. change (js "(") with [40%N]. change (js ")") with [41%N]. by flat. }
      apply compared_good; [by eexists _, _| | |by apply level_noparen, noparen_quoted|done|done];
        apply (bool_decide_unpack _); vm_compute; exact I.
    + apply compared_not_read; [done..|].
      intros w [-> | [-> | [-> | ->]]]; by destruct Hop as [[-> | [-> | ->]] | [-> | ->]].
Qed.
End ParamTest.

(** A test of the value of a parameter: contains, or a comparison of size. *)
Definition param_test (p mode v : jstring) : Prop :=
  quotable p = true /\ trim p = p /\
  (mode = MATCH_CONTAINS /\ no_parens (json_quote (trim v)) = true \/
   existsb (jeqb mode) [MATCH_GT; MATCH_GTE; MATCH_LT; MATCH_LTE] = true /\ NUMERIC_LITERAL_REGEX (trim v) = true).

(** A rule with a contains or size test of a parameter is written by the visual editor but
    never read back: the parser of the group cuts the text at the and that belongs to the one
    condition.  A billing expression saved with such a rule is therefore not split. *)
Theorem param_tests_not_read base p mode v m : param_test p mode v -> NUMERIC_LITERAL_REGEX m = true ->
  is_base base = true ->
  let rule := buildRequestRuleExpr [{| conditions := [ParamHeaderCondition param p mode v]; multiplier := m;
    conditionText := None; matched := None |}] in
  let saved := combineBillingExpr base rule in
  rule <> [] /\ tryParseRequestRuleExpr rule = Ret None /\
  splitBillingExprAndRequestRules saved = Ret {| billingExpr := saved; requestRuleExpr := [] |}.
Proof.
  intros (Hp & Hpt & Hv) Hm Hb rule saved. destruct (quotable_facts p Hp) as (Hne & _ & Hnq & Hnp).
  destruct (param_test_text p mode v Hp Hpt Hv) as (e2 & Ee & Hg2 & He2).
  set (e1 := after_call p param (js ") != nil")).
  assert (good_part e1) as Hg1.
  { unfold e1. change (js ") != nil") with (41%N :: js " != nil"). rewrite after_call_pieces by done. split.
    - by eexists _, _.
    - do 2 apply solid_r_app. by exists 108%N, (js " != ni").
    - apply quiet_segment, quiet_app; [|apply quiet_app; [apply (quiet_paren _ (js "&& ")); [done|]|by split]].
      + split; [done|]. intros. apply (calm_head _ 32); [done|]. apply (bool_decide_unpack _); vm_compute; exact I.
      + by apply level_noparen, noparen_quoted.
    - rewrite <- after_call_pieces by done. apply after_call_level; [done|].
      apply (bool_decide_unpack _); vm_compute; exact I. }
  set (cond := join (js " && ") [e1; e2]).
  assert (buildRequestConditionExpr (ParamHeaderCondition param p mode v) = cond) as Eb.
  { rewrite Ee. unfold cond, e1. cbn [join]. rewrite after_call_app. done. }
  assert (Forall good_part [e1; e2]) as Hgs by (constructor; [done|constructor; [done|constructor]]).
  assert (tryParseRequestConditions cond = Ret None) as Hcond.
  { destruct (solid_join [e1; e2]) as [Hl Hr]; [done..|]. fold cond in Hl, Hr.
    assert (starts_other e1) as Ho by apply after_call_other.
    unfold tryParseRequestConditions. rewrite trim_solid by done.
    destruct (starts_other_no e1 (js " && " ++ e2) Ho) as [E _].
    change (e1 ++ js " && " ++ e2) with cond in E. rewrite E.
    unfold cond. rewrite split_and_parts by done.
    cbn [parse_parts]. rewrite !good_trim by done.
    destruct (starts_other_no e1 [] Ho) as [E1 _]. rewrite app_nil_r in E1.
    unfold tryParseTimeRangePair. rewrite E1, He2.
    pose proof (parse_exists p Hne Hnq param) as Hex. cbv iota in Hex.
    change (41%N :: js " != nil") with (js ") != nil") in Hex. fold e1 in Hex. rewrite Hex.
    by destruct (truthy e2). }
  assert (rule = factor_text cond m) as Er.
  { unfold rule, buildRequestRuleExpr. cbn [map]. unfold buildRuleGroupFactor. cbn [multiplier conditions map].
    rewrite (numeric_trim m), Hm, Eb by done. by destruct (e1). }
  assert (level cond) as Hlv by by apply level_join.
  assert (Forall (fun p => exists t, p = js "(" ++ t ++ js ")" /\ level t) [rule]) as Hs.
  { apply Forall_singleton. rewrite Er, factor_paren. eexists. split; [done|]. by apply factor_level. }
  assert (tryParseRequestRuleExpr rule = Ret None) as Hrule.
  { unfold tryParseRequestRuleExpr. destruct (join_paren_trim [rule]) as [E1 E2]; [done..|]. cbn [join] in E1, E2.
    rewrite E1, E2. cbn [negb]. pose proof (split_multiply [rule] ltac:(done) Hs) as E3. cbn [join] in E3.
    rewrite E3. cbn [parse_factors]. unfold tryParseRuleGroupFactor. rewrite Er.
    rewrite factor_match; [|by destruct e1|by apply numeric_units].
    unfold capd. cbn [cap Nat.eqb coalesce from_option id]. by rewrite Hcond. }
  split; [by rewrite Er|]. split; [done|].
  destruct (combined_parts base [rule] Hb ltac:(done) Hs) as (_ & E1 & E2 & E3). cbn [join] in E1, E2, E3.
  fold saved in E1, E2, E3. unfold splitBillingExprAndRequestRules. rewrite E1, E2, E3. cbn [negb length Nat.leb sort_parts].
  destruct (is_base_facts base Hb) as (_ & _ & _ & _ & ->). cbn [ebind]. unfold is_rule_part at 1. by rewrite Hrule.
Qed.

(** Unwrapping leaves no outer parentheses, and keeps a text that has none. *)
Theorem unwrap_outer_complete e : hasFullOuterParens (unwrapOuterParens e) = false /\
  (hasFullOuterParens (trim e) = false -> unwrapOuterParens e = trim e).
Proof.
  unfold unwrapOuterParens. split; [apply unwrap_loop_done, trim_length|].
  intros H. destruct (length e); cbn [unwrap_loop]; [done|]. by rewrite H.
Qed.

(** ** Witnesses *)

Definition sample_group : RequestRuleGroup :=
  {| conditions :=
       [ParamHeaderCondition param (js "service_tier") MATCH_EQ (js "fast");
        TimeCondition hour (js "Asia/Shanghai") MATCH_RANGE [] (js "9") (js "12");
        TimeCondition hour (js "UTC") MATCH_RANGE [] (js "21") (js "6");
        TimeCondition weekday (js "UTC") MATCH_LT (js "6") [] [];
        ParamHeaderCondition header (js "x-model") MATCH_CONTAINS (js "a\ " ++ qt ++ js "b" ++ [10; 55357]%N)];
     multiplier := js "1.5e0"; conditionText := None; matched := None |}.

Definition sample_groups : list RequestRuleGroup :=
  [sample_group;
   {| conditions := [TimeCondition month (js "UTC") MATCH_RANGE [] (js "11") (js "2")];
      multiplier := js "2"; conditionText := None; matched := None |};
   {| conditions := [ParamHeaderCondition param (js "stream") MATCH_EXISTS []];
      multiplier := js "0.5"; conditionText := None; matched := None |}].

Definition sample_base : jstring := js "tier(" ++ qt ++ js "base" ++ qt ++ js ", p * 2.5 + c * 10)".

Lemma rules_read_back_witness :
  tryParseRequestRuleExpr (buildRequestRuleExpr sample_groups) = Ret (Some sample_groups).
Proof. apply (rules_read_back sample_groups). repeat (constructor; [vm_compute; reflexivity|]). constructor. Defined.

Lemma combine_split_witness :
  splitBillingExprAndRequestRules (combineBillingExpr sample_base (buildRequestRuleExpr sample_groups)) =
    Ret {| billingExpr := sample_base; requestRuleExpr := buildRequestRuleExpr sample_groups |}.
Proof.
  apply (combine_split sample_base sample_groups); [vm_compute; reflexivity|discriminate|].
  repeat (constructor; [vm_compute; reflexivity|]). constructor.
Defined.

Lemma param_tests_not_read_witness :
  tryParseRequestRuleExpr
    (buildRequestRuleExpr [{| conditions := [ParamHeaderCondition param (js "model") MATCH_CONTAINS (js "gpt")];
      multiplier := js "2"; conditionText := None; matched := None |}]) = Ret None.
Proof.
  refine (proj1 (proj2 (param_tests_not_read sample_base (js "model") MATCH_CONTAINS (js "gpt") (js "2") _ _ _))).
  - split; [vm_compute; reflexivity|]. split; [vm_compute; reflexivity|]. left. split; [reflexivity|vm_compute; reflexivity].
  - vm_compute; reflexivity.
  - vm_compute; reflexivity.
Defined.

(** A string with a backslash escape that is not one of JSON's: reading the rule throws, and
    with it the splitting of the whole expression. *)
Example bad_escape_throws :
  splitBillingExprAndRequestRules
    (js "(p) * (has(header(" ++ qt ++ js "x" ++ qt ++ js "), " ++ qt ++ js "\q" ++ qt ++ js ") ? 2 : 1)") = Throw.
Proof. vm_compute. reflexivity. Qed.

(** A parenthesis in a value unbalances the counting: the rule is not read back. *)
Example parenthesis_not_read :
  tryParseRequestRuleExpr (buildRequestRuleExpr
    [{| conditions := [ParamHeaderCondition param (js "a") MATCH_EQ (js ")"); ParamHeaderCondition param (js "b") MATCH_EQ (js "x")];
        multiplier := js "2"; conditionText := None; matched := None |}]) = Ret None.
Proof. vm_compute. reflexivity. Qed.
