(* ===== verification/BillingTiers.v ===== *)
(** * Tiers of a billing expression

    features/pricing/lib/billing-expr.ts: the table of the variables, the reader of price
    tiers by patterns, and the reader of task tiers by scanning outside quotes and
    parentheses.  [toLowerCase] is an argument. *)

From S2P Require Import Prelude JsValue JsText Regex RequestRules.
#[global] Open Scope Z_scope.
#[local] Open Scope exc_scope.

(** ** The variables *)

Inductive Side := side_input | side_output | side_condition.

Record BillingVar := {
  key : jstring;
  field : option jstring;
  tierField : option jstring;
  label_ : jstring;
  shortLabel : jstring;
  side : Side;
  isBase : bool;
  isConditionOnly : bool;
  group : option jstring
}.

Definition price_var (k f t l sl : string) (s : Side) (g : option string) : BillingVar :=
  {| key := js k; field := Some (js f); tierField := Some (js t); label_ := js l; shortLabel := js sl;
     side := s; isBase := match g with None => true | _ => false end; isConditionOnly := false; group := js <$> g |}.

Definition BILLING_VARS : list BillingVar :=
  [price_var "p" "inputPrice" "input_unit_cost" "Input price" "Input" side_input None;
   price_var "c" "outputPrice" "output_unit_cost" "Completion price" "Output" side_output None;
   {| key := js "len"; field := None; tierField := None; label_ := js "Input length"; shortLabel := js "Length";
      side := side_condition; isBase := false; isConditionOnly := true; group := None |};
   price_var "cr" "cacheReadPrice" "cache_read_unit_cost" "Cache read price" "Cache Read" side_input (Some "cache"%string);
   price_var "cc" "cacheCreatePrice" "cache_create_unit_cost" "Cache create price" "Cache Write" side_input (Some "cache"%string);
   price_var "cc1h" "cacheCreate1hPrice" "cache_create_1h_unit_cost" "Cache create (1h) price" "Cache Write (1h)"
     side_input (Some "cache"%string);
   price_var "img" "imagePrice" "image_unit_cost" "Image input price" "Image In" side_input (Some "media"%string);
   price_var "img_o" "imageOutputPrice" "image_output_unit_cost" "Image output price" "Image Out" side_output
     (Some "media"%string);
   price_var "ai" "audioInputPrice" "audio_input_unit_cost" "Audio input price" "Audio In" side_input
     (Some "media"%string);
   price_var "ao" "audioOutputPrice" "audio_output_unit_cost" "Audio output price" "Audio Out" side_output
     (Some "media"%string)].

Definition BILLING_PRICING_VARS : list BillingVar := List.filter (fun v => negb (isConditionOnly v)) BILLING_VARS.
Definition BILLING_CONDITION_VARS : list jstring :=
  map key (List.filter (fun v => isBase v || isConditionOnly v) BILLING_VARS).

(** [v.field as string]: the variables with a price all have one. *)
Definition BILLING_VAR_KEY_TO_FIELD : list (jstring * jstring) :=
  map (fun v => (key v, coalesce (field v) [])) BILLING_PRICING_VARS.
Definition BILLING_EXTRA_VARS : list BillingVar :=
  List.filter (fun v => negb (isBase v) && negb (isConditionOnly v)) BILLING_VARS.
Definition BILLING_CACHE_VAR_MAP : list (jstring * jstring) :=
  map (fun v => (coalesce (tierField v) [], key v)) BILLING_EXTRA_VARS.

Definition spaces : regex := Star (Chr is_ws).
Fixpoint alts (l : list jstring) : regex :=
  match l with [] => Chr (fun _ => false) | [w] => Lit w | w :: l' => Alt (Lit w) (alts l') end.

(** After the word boundary: a variable, a star and a number. *)
Definition BILLING_VAR_REGEX : regex :=
  Seqs [Grp 1 (alts (map key BILLING_PRICING_VARS)); spaces; Lit (js "*"); spaces; Grp 2 (Plus (Chr num_unit))].

(** ** Price tiers *)

Record TierCondition := { c_var : jstring; c_op : jstring; c_value : jsnum }.
Record ParsedTier := { t_label : jstring; t_conditions : list TierCondition; t_fields : list (jstring * jsnum) }.

Definition stripExprVersion (exprStr : jstring) : jsnum * jstring :=
  if negb (truthy exprStr) then (Fin 1, [])
  else
    match fullmatch (Seqs [Lit (js "v"); Grp 1 (Plus (Chr is_digit)); Lit (js ":"); Grp 2 (Star (Chr anything))]) exprStr with
    | Some m => (Number (capd m 1), capd m 2)
    | None => (Fin 1, exprStr)
    end.

(** [x || 0] for a number *)
Definition num_or_zero (n : jsnum) : jsnum := if num_truthy n then n else Fin 0.

Definition parseTierBody (bodyStr : jstring) : list (jstring * jsnum) :=
  let coeffs := foldl (fun coeffs (m : jstring * caps) =>
      match mget coeffs (capd m.2 1) with
      | Some _ => coeffs
      | None => mset coeffs (capd m.2 1) (Number (capd m.2 2))
      end) [] (matchAll word_boundary BILLING_VAR_REGEX bodyStr).1 in
  map (fun vf => (vf.2, num_or_zero (coalesce (mget coeffs vf.1) NaN))) BILLING_VAR_KEY_TO_FIELD.

(** [[\d.eE+]] *)
Definition cond_unit (c : N) : bool := is_digit c || one_of (js ".eE+") c.
Definition cond_vars : regex := alts [js "p"; js "c"; js "len"].
Definition cond_ops : regex := alts [js "<"; js "<="; js ">"; js ">="].
Definition cond_re : regex := Seqs [cond_vars; spaces; cond_ops; spaces; Plus (Chr cond_unit)].
Definition condGroup (n : nat) : regex :=
  Grp n (Seq cond_re (Star (Seqs [spaces; Lit (js "&&"); spaces; cond_re]))).

Definition tierRe : regex :=
  Seqs [Opt (Seqs [condGroup 1; spaces; Lit (js "?"); spaces]);
        Lit (js "tier(" ++ qt); Grp 2 (Star (Chr not_quote)); Lit (qt ++ js ","); spaces;
        Grp 3 (Plus (Chr (any_but (js ")")))); Lit (js ")")].

(** The conditions of [condStr], as both readers of tiers make them. *)
Definition parse_tier_conditions (condStr : jstring) : list TierCondition :=
  if truthy condStr then
    omap (fun cp =>
      match fullmatch (Seqs [Grp 1 cond_vars; spaces; Grp 2 cond_ops; spaces; Grp 3 (Plus (Chr cond_unit))]) (trim cp) with
      | Some cm => Some {| c_var := capd cm 1; c_op := capd cm 2; c_value := Number (capd cm 3) |}
      | None => None
      end) (split_re (Seqs [spaces; Lit (js "&&"); spaces]) condStr)
  else [].

Definition parseTiersFromExpr (exprStr : jstring) : list ParsedTier :=
  if negb (truthy exprStr) then []
  else
    map (fun m : jstring * caps =>
      {| t_label := capd m.2 2; t_conditions := parse_tier_conditions (capd m.2 1);
         t_fields := parseTierBody (capd m.2 3) |})
      (matchAll no_guard tierRe (stripExprVersion exprStr).2).1.

(** ** Scanning outside quotes *)

(** Where the scan is: outside a string, in one, or after a backslash in one. *)
Inductive quoting := Plain | Quoted | Escaped.

(** The next place when the unit belongs to a string; [None] when the unit counts. *)
Definition quote_step (q : quoting) (c : N) : option quoting :=
  match q with
  | Escaped => Some Quoted
  | Quoted => Some (if (c =? 92)%N then Escaped else if (c =? 34)%N then Plain else Quoted)
  | Plain => if (c =? 34)%N then Some Quoted else None
  end.

Fixpoint find_top (target : N) (index : nat) (depth : Z) (q : quoting) (s : jstring) : option nat :=
  match s with
  | [] => None
  | c :: s' =>
      match quote_step q c with
      | Some q' => find_top target (S index) depth q' s'
      | None =>
          if (c =? 40)%N then find_top target (S index) (depth + 1) q s'
          else if (c =? 41)%N then
            if depth - 1 <? 0 then None else find_top target (S index) (depth - 1) q s'
          else if (depth =? 0) && (c =? target)%N then Some index
          else find_top target (S index) depth q s'
      end
  end.

Definition findTaskTopLevelCharacter (expression : jstring) (target : N) : option nat :=
  find_top target 0 0 Plain expression.

Fixpoint find_colon (index : nat) (depth ternaryDepth : Z) (q : quoting) (s : jstring) : option nat :=
  match s with
  | [] => None
  | c :: s' =>
      match quote_step q c with
      | Some q' => find_colon (S index) depth ternaryDepth q' s'
      | None =>
          if (c =? 40)%N then find_colon (S index) (depth + 1) ternaryDepth q s'
          else if (c =? 41)%N then
            if depth - 1 <? 0 then None else find_colon (S index) (depth - 1) ternaryDepth q s'
          else if negb (depth =? 0) then find_colon (S index) depth ternaryDepth q s'
          else if (c =? 63)%N then find_colon (S index) depth (ternaryDepth + 1) q s'
          else if negb (c =? 58)%N then find_colon (S index) depth ternaryDepth q s'
          else if ternaryDepth =? 0 then Some index
          else find_colon (S index) depth (ternaryDepth - 1) q s'
      end
  end.

Definition findTaskTernaryColon (expression : jstring) (questionIndex : nat) : option nat :=
  find_colon (S questionIndex) 0 0 Plain (drop (S questionIndex) expression).

Inductive task_operator := op_and | op_plus.

(** The current part reversed, the unit before this one, and whether this unit is the second
    of an operator. *)
Fixpoint split_task (op : task_operator) (skip : bool) (depth : Z) (q : quoting) (prev : option N) (cur : jstring)
    (s : jstring) : list jstring :=
  match s with
  | [] => [trim (rev cur)]
  | c :: s' =>
      if skip then split_task op false depth q (Some c) cur s'
      else
        let go depth q := split_task op false depth q (Some c) (c :: cur) s' in
        match quote_step q c with
        | Some q' => go depth q'
        | None =>
            if (c =? 40)%N then go (depth + 1) q
            else if (c =? 41)%N then go (depth - 1) q
            else if negb (depth =? 0) then go depth q
            else
              match op with
              | op_and =>
                  if startsWith s (js "&&") then trim (rev cur) :: split_task op true depth q (Some c) [] s'
                  else go depth q
              | op_plus =>
                  let after_e := match prev with Some p => (p =? 101)%N || (p =? 69)%N | None => false end in
                  if (c =? 43)%N && negb after_e
                  then trim (rev cur) :: split_task op false depth q (Some c) [] s'
                  else go depth q
              end
        end
  end.

Definition splitTaskTopLevel (expression : jstring) (operator : task_operator) : list jstring :=
  List.filter truthy (split_task operator false 0 Plain None [] expression).

(** ** Task tiers *)

Inductive usage_unit := second | count_ | token | credit.
#[global] Instance usage_unit_eq : EqDecision usage_unit.
Proof. solve_decision. Defined.

Inductive usage_type := type_number | type_boolean.
#[global] Instance usage_type_eq : EqDecision usage_type.
Proof. solve_decision. Defined.

(** The description is only shown. *)
Record BillingUsageFieldSchema := {
  type_ : option usage_type;
  unit_ : option usage_unit;
  enum_ : option (list jstring)
}.

(** An object by field name; the names are no integers, so the fields keep their order.  A
    member every object inherits has no enum, type or unit, as if it were missing. *)
Definition BillingUsageSchema : Type := list (jstring * BillingUsageFieldSchema).

Record TaskTierCondition := { tc_field : jstring; tc_value : jstring }.
#[global] Instance TaskTierCondition_eq : EqDecision TaskTierCondition.
Proof. solve_decision. Defined.

Record ParsedTaskTier := {
  tt_label : jstring;
  tt_conditions : list TaskTierCondition;
  tt_constant : jsnum;
  tt_unitPrices : list (jstring * jsnum)
}.

(** A call of u with a quoted name (group 1). *)
Definition usage_call : list regex := [Lit (js "u("); spaces; Grp 1 quoted; spaces; Lit (js ")")].
Definition task_condition_re : regex :=
  Seqs (usage_call ++ [spaces; Lit (js "=="); spaces; Grp 2 quoted]).
Definition bare_term_re : regex :=
  Seqs (usage_call ++ [spaces; Lit (js "*"); spaces; Grp 2 numeric_literal]).
Definition scaled_term_re : regex :=
  Seqs (usage_call ++ [spaces; Lit (js "*"); spaces; Grp 2 numeric_literal; spaces; Lit (js "/"); spaces; Lit (js "1000000")]).

(** [JSON.parse(text) as string] of a quoted text *)
Definition parse_quoted (text : jstring) : option jstring :=
  match JSON_parse text with Ret v => Some (asString v) | Throw => None end.

Fixpoint task_conditions (schema : BillingUsageSchema) (parts : list jstring) : option (list TaskTierCondition) :=
  match parts with
  | [] => Some []
  | part :: parts' =>
      m ← fullmatch task_condition_re part;
      f ← parse_quoted (capd m 1);
      v ← parse_quoted (capd m 2);
      declared ← (d ← assoc f schema; enum_ d);
      if bool_decide (v ∈ declared)
      then (others ← task_conditions schema parts'; Some ({| tc_field := f; tc_value := v |} :: others))
      else None
  end.

Definition parseTaskConditions (expression : jstring) (schema : BillingUsageSchema) : option (list TaskTierCondition) :=
  match task_conditions schema (splitTaskTopLevel expression op_and) with
  | Some (c :: cs) => Some (c :: cs)
  | _ => None
  end.

(** [field in unitPrices] *)
Definition in_object {A} (k : jstring) (m : list (jstring * A)) : bool :=
  match mget m k with Some _ => true | None => bool_decide (k ∈ inheritedMembers) end.

Definition negative (n : jsnum) : bool := num_ltb n (Fin 0).

(** The loop over the terms: the constant, if one was read, and the prices. *)
Fixpoint task_terms (schema : BillingUsageSchema) (constant : option jsnum) (prices : list (jstring * jsnum))
    (terms : list jstring) : option (option jsnum * list (jstring * jsnum)) :=
  match terms with
  | [] => Some (constant, prices)
  | term :: terms' =>
      if NUMERIC_LITERAL_REGEX term then
        let value := Number term in
        match constant with
        | Some _ => None
        | None => if negb (isFinite value) || negative value then None else task_terms schema (Some value) prices terms'
        end
      else
        let scaledMatch := fullmatch scaled_term_re term in
        m ← orelse scaledMatch (fullmatch bare_term_re term);
        f ← parse_quoted (capd m 1);
        d ← assoc f schema;
        let value := Number (capd m 2) in
        if negb (bool_decide (type_ d = Some type_number)) || bool_decide (unit_ d = None) || in_object f prices
           || negb (isFinite value) || negative value then None
        else if Bool.eqb (bool_decide (unit_ d = Some token)) (match scaledMatch with Some _ => true | None => false end)
        then task_terms schema constant (mset prices f value) terms'
        else None
  end.

Definition parseTaskTierCall (expression : jstring) (conditions : list TaskTierCondition) (schema : BillingUsageSchema)
  : option ParsedTaskTier :=
  let trimmed := trim expression in
  if negb (startsWith trimmed (js "tier(")) || negb (endsWith trimmed (js ")")) then None
  else
    let inner := slice trimmed 5 (length trimmed - 1) in
    commaIndex ← findTaskTopLevelCharacter inner ch_comma;
    label ← (match JSON_parse (trim (slice inner 0 commaIndex)) with Ret (JStr l) => Some l | _ => None end);
    r ← task_terms schema None [] (splitTaskTopLevel (drop (S commaIndex) inner) op_plus);
    let (constant, unitPrices) := (r : option jsnum * list (jstring * jsnum)) in
    match unitPrices with
    | [] => None
    | _ => Some {| tt_label := label; tt_conditions := conditions; tt_constant := coalesce constant (Fin 0);
                   tt_unitPrices := unitPrices |}
    end.

(** The loop over the branches of the expression; each takes a unit at least.  [None] is the
    empty result of a failure. *)
Fixpoint task_tiers (fuel : nat) (schema : BillingUsageSchema) (remaining : jstring) : option (list ParsedTaskTier) :=
  match fuel with
  | O => None
  | S f =>
      if negb (truthy remaining) then Some []
      else
        match findTaskTopLevelCharacter remaining 63 with
        | None => tier ← parseTaskTierCall remaining [] schema; Some [tier]
        | Some questionIndex =>
            colonIndex ← findTaskTernaryColon remaining questionIndex;
            conditions ← parseTaskConditions (trim (slice remaining 0 questionIndex)) schema;
            tier ← parseTaskTierCall (trim (slice remaining (S questionIndex) colonIndex)) conditions schema;
            tiers ← task_tiers f schema (trim (drop (S colonIndex) remaining));
            Some (tier :: tiers)
        end
  end.

Definition parseTaskTiersFromExpr (exprStr : jstring) (schema : option BillingUsageSchema) : list ParsedTaskTier :=
  match schema with
  | Some ((_ :: _) as schema) =>
      if negb (truthy exprStr) then []
      else
        match splitBillingExprAndRequestRules exprStr with
        | Throw => []
        | Ret split =>
            let versioned := trim (stripExprVersion (billingExpr split)).2 in
            if negb (truthy versioned) then []
            else coalesce (task_tiers (S (length versioned)) schema versioned) []
        end
  | _ => []
  end.

(** ** Labels *)

Section Labels.
Context (toLowerCase : jstring -> jstring).

(** U+FF1D, U+2264, U+FF1C and U+2265, U+FF1E: the full-width and the combined signs. *)
Definition less_re : regex :=
  Alts [Seq (Lit (js "<")) (Opt (Chr (one_of [61; 65309]%N))); Lit [8804]%N]
       (Seq (Lit [65308]%N) (Opt (Chr (one_of [61; 65309]%N)))).
Definition greater_re : regex :=
  Alts [Seq (Lit (js ">")) (Opt (Chr (one_of [61; 65309]%N))); Lit [8805]%N]
       (Seq (Lit [65310]%N) (Opt (Chr (one_of [61; 65309]%N)))).

Definition normalizeTierLabel (label : option jstring) : jstring :=
  match label with
  | Some ((_ :: _) as l) =>
      toLowerCase (replace_re (Plus (Chr is_ws)) [] (replace_re greater_re (js ">") (replace_re less_re (js "<") l)))
  | _ => []
  end.
End Labels.
