(* ===== verification/TaskExpr.v ===== *)
(** * Task prices

    features/pricing/lib/task-expr.ts: the matrix of prices per combination of options, the
    tiers it stands for, their text, and the preview of a cost.  [localeCompare] is an
    argument.  The two tier types of the code have the fields of [ParsedTaskTier]. *)

From S2P Require Import Prelude JsValue JsText Regex RequestRules BillingTiers.
#[global] Open Scope Z_scope.

Definition TASK_TOKEN_PRICE_SCALE : positive := 1000000.

Definition TaskVisualTier : Type := ParsedTaskTier.
Definition TaskVisualConfig : Type := list TaskVisualTier.

Record TaskMatrixRow := {
  combination : list (jstring * jstring);
  r_constant : jsnum;
  r_unitPrices : list (jstring * jsnum)
}.
Definition TaskMatrixConfig : Type := list TaskMatrixRow.

Record preview_part := {
  is_usage : option jstring; (* the field of a usage part; none for the constant *)
  amount : jsnum;
  quantity : jsnum;
  unitPrice : jsnum
}.
Record TaskPreviewResult := { tier : TaskVisualTier; total : jsnum; parts : list preview_part }.

Section TaskExpr.
Context (localeCompare : jstring -> jstring -> Z).

(** [sort] by the names of the entries. *)
Definition by_name {A} (l : list (jstring * A)) : list (jstring * A) :=
  js_sort (fun a b => localeCompare a.1 b.1) l.

Definition getTaskNumberFields (schema : option BillingUsageSchema) : list (jstring * BillingUsageFieldSchema) :=
  match schema with
  | None => []
  | Some schema =>
      by_name (List.filter (fun e => bool_decide (type_ e.2 = Some type_number) && negb (bool_decide (unit_ e.2 = None))) schema)
  end.

Definition declared (d : BillingUsageFieldSchema) : list jstring := coalesce (enum_ d) [].

Definition getTaskEnumFields (schema : option BillingUsageSchema) : list (jstring * BillingUsageFieldSchema) :=
  match schema with
  | None => []
  | Some schema => by_name (List.filter (fun e => negb (bool_decide (declared e.2 = []))) schema)
  end.

(** One round of the loop over the fields: every combination with every value. *)
Definition extend_combinations (combinations : list (list (jstring * jstring)))
    (f : jstring * BillingUsageFieldSchema) : list (list (jstring * jstring)) :=
  flat_map (fun c => map (fun v => mset c f.1 v) (declared f.2)) combinations.

Definition getTaskEnumCombinations (schema : option BillingUsageSchema) : list (list (jstring * jstring)) :=
  foldl extend_combinations [[]] (getTaskEnumFields schema).

Definition zero_prices (schema : BillingUsageSchema) : list (jstring * jsnum) :=
  map (fun f => (f.1, Fin 0)) (getTaskNumberFields (Some schema)).

Definition base_label : jstring := js "base".

Definition createDefaultTaskVisualConfig (schema : BillingUsageSchema) : TaskVisualConfig :=
  [{| tt_label := base_label; tt_conditions := []; tt_constant := Fin 0; tt_unitPrices := zero_prices schema |}].

Definition createDefaultTaskMatrixConfig (schema : BillingUsageSchema) : TaskMatrixConfig :=
  map (fun c => {| combination := c; r_constant := Fin 0; r_unitPrices := zero_prices schema |})
    (getTaskEnumCombinations (Some schema)).

(** The values joined by U+00B7. *)
Definition taskMatrixRowLabel (c : list (jstring * jstring)) : jstring :=
  match map snd (by_name c) with
  | [] => base_label
  | values => join [183%N] values
  end.

(** The JSON text of the values of the fields; a missing one is null. *)
Definition taskMatrixCombinationKey (c : list (jstring * jstring))
    (enumFields : list (jstring * BillingUsageFieldSchema)) : jstring :=
  js "[" ++ join (js ",") (map (fun f => match mget c f.1 with Some v => json_quote v | None => js "null" end) enumFields)
  ++ js "]".

(** [===] of numbers that may be undefined *)
Definition same_number (a b : option jsnum) : bool :=
  match a, b with
  | Some a, Some b => num_eqb a b
  | None, None => true
  | _, _ => false
  end.

Definition price_of (prices : list (jstring * jsnum)) (f : jstring) : jsnum := coalesce (mget prices f) (Fin 0).

(** [Object.fromEntries] of the prices of the number fields *)
Definition prices_for (numberFields : list (jstring * BillingUsageFieldSchema)) (prices : list (jstring * jsnum))
  : list (jstring * jsnum) := map (fun f => (f.1, price_of prices f.1)) numberFields.

Definition is_uniform (numberFields : list (jstring * BillingUsageFieldSchema)) (first : TaskMatrixRow)
    (rows : TaskMatrixConfig) : bool :=
  forallb (fun row => num_eqb (r_constant row) (r_constant first) &&
    forallb (fun f => same_number (mget (r_unitPrices row) f.1) (mget (r_unitPrices first) f.1)) numberFields) rows.

Definition conditions_of (c : list (jstring * jstring)) : list TaskTierCondition :=
  map (fun fv => {| tc_field := fv.1; tc_value := fv.2 |}) (by_name c).

Definition taskMatrixToTiers (config : TaskMatrixConfig) (schema : BillingUsageSchema) : list TaskVisualTier :=
  let numberFields := getTaskNumberFields (Some schema) in
  match numberFields, config with
  | [], _ | _, [] => []
  | _, firstRow :: _ =>
      if is_uniform numberFields firstRow config then
        [{| tt_label := base_label; tt_conditions := []; tt_constant := r_constant firstRow;
            tt_unitPrices := prices_for numberFields (r_unitPrices firstRow) |}]
      else
        imap (fun index row =>
          {| tt_label := taskMatrixRowLabel (combination row);
             tt_conditions := if (index =? length config - 1)%nat then [] else conditions_of (combination row);
             tt_constant := r_constant row;
             tt_unitPrices := prices_for numberFields (r_unitPrices row) |}) config
  end.

(** The values of the conditions of a tier by field; none when a field is tested twice or a
    value is not declared. *)
Fixpoint condition_values (schema : BillingUsageSchema) (values : list (jstring * jstring))
    (cs : list TaskTierCondition) : option (list (jstring * jstring)) :=
  match cs with
  | [] => Some values
  | c :: cs' =>
      match mget values (tc_field c), (d ← assoc (tc_field c) schema; enum_ d) with
      | None, Some enum =>
          if bool_decide (tc_value c ∈ enum) then condition_values schema (mset values (tc_field c) (tc_value c)) cs'
          else None
      | _, _ => None
      end
  end.

(** The tiers before the last by the key of their combination. *)
Fixpoint tiers_by_combination (schema : BillingUsageSchema) (enumFields : list (jstring * BillingUsageFieldSchema))
    (found : list (jstring * ParsedTaskTier)) (tiers : list ParsedTaskTier) : option (list (jstring * ParsedTaskTier)) :=
  match tiers with
  | [] => Some found
  | t :: tiers' =>
      if negb (length (tt_conditions t) =? length enumFields)%nat then None
      else
        match condition_values schema [] (tt_conditions t) with
        | None => None
        | Some values =>
            if negb (length values =? length enumFields)%nat then None
            else
              let c := map (fun f => (f.1, coalesce (mget values f.1) [])) enumFields in
              let key := taskMatrixCombinationKey c enumFields in
              match mget found key with
              | Some _ => None
              | None => tiers_by_combination schema enumFields (mset found key t) tiers'
              end
        end
  end.

Definition matrix_row (numberFields : list (jstring * BillingUsageFieldSchema)) (c : list (jstring * jstring))
    (t : ParsedTaskTier) : TaskMatrixRow :=
  {| combination := c; r_constant := tt_constant t; r_unitPrices := prices_for numberFields (tt_unitPrices t) |}.

(** The matrix the tiers stand for. *)
Definition matrix_of_tiers (tiers : list ParsedTaskTier) (schema : BillingUsageSchema) : option TaskMatrixConfig :=
  let enumFields := getTaskEnumFields (Some schema) in
  let numberFields := getTaskNumberFields (Some schema) in
  let combinations := getTaskEnumCombinations (Some schema) in
  let keyed c := taskMatrixCombinationKey c enumFields in
  let several :=
    if negb (length tiers =? length combinations)%nat then None
    else
      match last tiers with
      | None => None
      | Some fallbackTier =>
          if negb (bool_decide (tt_conditions fallbackTier = [])) then None
          else
            match tiers_by_combination schema enumFields [] (removelast tiers) with
            | None => None
            | Some found =>
                match List.filter (fun c => match mget found (keyed c) with None => true | Some _ => false end) combinations with
                | [missing] =>
                    let found := mset found (keyed missing) fallbackTier in
                    mapM (fun c => matrix_row numberFields c <$> mget found (keyed c)) combinations
                | _ => None
                end
            end
      end in
  match tiers with
  | [] => None
  | [t] =>
      if bool_decide (tt_conditions t = [])
      then Some (map (fun c => matrix_row numberFields c t) combinations)
      else several
  | _ => several
  end.

Definition tryParseTaskMatrixConfig (expression : option jstring) (schema : BillingUsageSchema) : option TaskMatrixConfig :=
  match expression with
  | Some ((_ :: _) as e) => matrix_of_tiers (parseTaskTiersFromExpr e (Some schema)) schema
  | _ => None
  end.

(** *** The preview of a cost *)

(** [Number(value)] of a fact: a number, a text, or undefined. *)
Definition fact_number (v : jsval) : jsnum :=
  match v with JNum n => n | JStr s => Number s | _ => NaN end.

Definition fact (sample : list (jstring * jsval)) (f : jstring) : jsval := coalesce (assoc f sample) JUndefined.

Definition tier_matches (sample : list (jstring * jsval)) (t : TaskVisualTier) : bool :=
  forallb (fun c => match fact sample (tc_field c) with JStr s => jeqb s (tc_value c) | _ => false end) (tt_conditions t).

Definition usage_amount (schema : option BillingUsageSchema) (f : jstring) (quantity price : jsnum) : jsnum :=
  let product := num_mul quantity price in
  if bool_decide ((d ← (s ← schema; assoc f s); unit_ d) = Some token)
  then num_div product TASK_TOKEN_PRICE_SCALE else product.

Definition usable (n : jsnum) : bool := isFinite n && negb (negative n).

(** The loop over the prices, from the total and the parts so far. *)
Fixpoint preview_loop (schema : option BillingUsageSchema) (sample : list (jstring * jsval))
    (total : jsnum) (ps : list preview_part) (prices : list (jstring * jsnum)) : option (jsnum * list preview_part) :=
  match prices with
  | [] => Some (total, ps)
  | (f, unitPrice) :: prices' =>
      if negb (usable unitPrice) then None
      else if negb (num_truthy unitPrice) then preview_loop schema sample total ps prices'
      else
        let quantity := fact_number (fact sample f) in
        if negb (usable quantity) then None
        else
          let amount := usage_amount schema f quantity unitPrice in
          if negb (isFinite amount) then None
          else
            preview_loop schema sample (num_add total amount)
              (ps ++ [{| is_usage := Some f; amount := amount; quantity := quantity; unitPrice := unitPrice |}]) prices'
  end.

Definition matched_tier (config : TaskVisualConfig) (sample : list (jstring * jsval)) (fallback : TaskVisualTier)
  : TaskVisualTier := coalesce (List.find (tier_matches sample) (removelast config)) fallback.

Definition evaluateTaskVisualConfig (config : TaskVisualConfig) (sample : list (jstring * jsval))
    (schema : option BillingUsageSchema) : option TaskPreviewResult :=
  match last config with
  | None => None
  | Some fallback =>
      let matchedTier := matched_tier config sample fallback in
      let constant := tt_constant matchedTier in
      if negb (usable constant) then None
      else
        let (total, ps) :=
          if num_ltb (Fin 0) constant
          then (num_add (Fin 0) constant,
                [{| is_usage := None; amount := constant; quantity := NaN; unitPrice := NaN |}])
          else (Fin 0, []) in
        match preview_loop schema sample total ps (tt_unitPrices matchedTier) with
        | None => None
        | Some (total, ps) =>
            if negb (isFinite total) then None
            else Some {| tier := matchedTier; total := total; parts := ps |}
        end
  end.

(** *** Writing and reading tiers *)

Definition normal_number (n : jsnum) : jsnum := if usable n then n else Fin 0.

Definition normalize_tier (schema : BillingUsageSchema) (index : nat) (t : TaskVisualTier) : TaskVisualTier :=
  let numberFields := getTaskNumberFields (Some schema) in
  let enumFields := getTaskEnumFields (Some schema) in
  {| tt_label := if truthy (tt_label t) then tt_label t
                 else if (index =? 0)%nat then base_label else js "tier_" ++ dec_of_N (N.of_nat (index + 1));
     tt_conditions := List.filter (fun c =>
       match assoc (tc_field c) enumFields with Some d => bool_decide (tc_value c ∈ declared d) | None => false end)
       (tt_conditions t);
     tt_constant := normal_number (tt_constant t);
     tt_unitPrices := map (fun f => (f.1, normal_number (coalesce (mget (tt_unitPrices t) f.1) NaN))) numberFields |}.

Definition normalizeTaskVisualConfig (config : option TaskVisualConfig) (schema : BillingUsageSchema) : TaskVisualConfig :=
  match config with
  | Some ((_ :: _) as tiers) => imap (normalize_tier schema) tiers
  | _ => createDefaultTaskVisualConfig schema
  end.

Definition usage_text (f : jstring) : jstring := js "u(" ++ json_quote f ++ js ")".

Definition term_text (prices : list (jstring * jsnum)) (f : jstring * BillingUsageFieldSchema) : jstring :=
  let priced := usage_text f.1 ++ js " * " ++ string_of_num (price_of prices f.1) in
  if bool_decide (unit_ f.2 = Some token) then priced ++ js " / " ++ js "1000000" else priced.

Definition generateTaskTierBody (t : TaskVisualTier) (numberFields : list (jstring * BillingUsageFieldSchema)) : jstring :=
  join (js " + ")
    ((if num_ltb (Fin 0) (tt_constant t) then [string_of_num (tt_constant t)] else []) ++
     map (term_text (tt_unitPrices t)) numberFields).

Definition generateTaskTierCall (t : TaskVisualTier) (numberFields : list (jstring * BillingUsageFieldSchema)) : jstring :=
  js "tier(" ++ json_quote (tt_label t) ++ js ", " ++ generateTaskTierBody t numberFields ++ js ")".

Definition condition_text (c : TaskTierCondition) : jstring :=
  usage_text (tc_field c) ++ js " == " ++ json_quote (tc_value c).

Definition generateTaskCondition (cs : list TaskTierCondition) : jstring := join (js " && ") (map condition_text cs).

(** The loop over the tiers: the last is written without its condition, the others need one. *)
Fixpoint branch_texts (numberFields : list (jstring * BillingUsageFieldSchema)) (tiers : list TaskVisualTier)
  : option (list jstring) :=
  match tiers with
  | [] => Some []
  | [t] => Some [generateTaskTierCall t numberFields]
  | t :: tiers' =>
      let condition := generateTaskCondition (tt_conditions t) in
      if negb (truthy condition) then None
      else cons (condition ++ js " ? " ++ generateTaskTierCall t numberFields) <$> branch_texts numberFields tiers'
  end.

Definition generateTaskExprFromConfig (config : option TaskVisualConfig) (schema : BillingUsageSchema) : jstring :=
  let numberFields := getTaskNumberFields (Some schema) in
  match numberFields with
  | [] => []
  | _ =>
      match normalizeTaskVisualConfig config schema with
      | [t] => generateTaskTierCall t numberFields
      | tiers => join (js " : ") (coalesce (branch_texts numberFields tiers) [])
      end
  end.

Definition tryParseTaskVisualConfig (expression : option jstring) (schema : BillingUsageSchema) : option TaskVisualConfig :=
  match expression with
  | Some ((_ :: _) as e) =>
      match parseTaskTiersFromExpr e (Some schema) with
      | [] => None
      | tiers => Some (normalizeTaskVisualConfig (Some tiers) schema)
      end
  | _ => None
  end.

(** Examples whose facts cannot be priced are left out. *)
Definition evaluateTaskUsageExamples (expression : option jstring) (schema : option BillingUsageSchema)
    (examples : list (jstring * list (jstring * jsval))) : exc (list (jstring * jsnum)) :=
  match expression, schema, examples with
  | Some ((_ :: _) as e), Some s, _ :: _ =>
      ebind (splitBillingExprAndRequestRules e) (fun split =>
        Ret (match tryParseTaskVisualConfig (Some (billingExpr split)) s with
             | None => []
             | Some config =>
                 omap (fun ex : jstring * list (jstring * jsval) =>
                   r ← evaluateTaskVisualConfig config ex.2 schema; Some (ex.1, total r)) examples
             end))
  | _, _, _ => Ret []
  end.
End TaskExpr.
