(* ===== verification/TaskExprText.v ===== *)
(** * Task prices are read back

    What [generateTaskExprFromConfig] writes, [tryParseTaskVisualConfig] reads as the same
    tiers; and what the preview of a cost computes. *)

From S2P Require Import Prelude JsValue JsText Regex RequestRules RequestRulesText BillingTiers TaskExpr.
#[global] Open Scope Z_scope.

(** ** Scanning over text that does not count *)

Fixpoint walk (avoid : N -> bool) (d : Z) (q : quoting) (t : jstring) : option (Z * quoting) :=
  match t with
  | [] => Some (d, q)
  | c :: t' =>
      match quote_step q c with
      | Some q' => walk avoid d q' t'
      | None =>
          if (c =? 40)%N then walk avoid (d + 1) q t'
          else if (c =? 41)%N then if d - 1 <? 0 then None else walk avoid (d - 1) q t'
          else if (d =? 0) && avoid c then None else walk avoid d q t'
      end
  end.

Lemma walk_app avoid t1 : forall d q t2 d' q', walk avoid d q t1 = Some (d', q') ->
  walk avoid d q (t1 ++ t2) = walk avoid d' q' t2.
Proof.
  induction t1 as [|c t IH]; intros d q t2 d' q' H; [by simplify_eq/=|]. cbn [walk app] in *.
  destruct (quote_step q c); [by apply IH|]. destruct (c =? 40)%N; [by apply IH|].
  destruct (c =? 41)%N; [destruct (d - 1 <? 0); [done|by apply IH]|]. destruct (_ && _); [done|by apply IH].
Qed.

(** Over a quoted string, from outside it to outside it. *)
Lemma walk_units avoid d s rest : walk avoid d Quoted (quote_units s ++ rest) = walk avoid d Quoted rest.
Proof.
  assert (forall c, c <> 34%N -> c <> 92%N -> forall r, walk avoid d Quoted (c :: r) = walk avoid d Quoted r) as Hp.
  { intros c H1 H2 r. cbn [walk quote_step]. by rewrite (proj2 (N.eqb_neq c 92)), (proj2 (N.eqb_neq c 34)). }
  assert (forall c r, walk avoid d Quoted (92%N :: c :: r) = walk avoid d Quoted r) as He by done.
  revert s rest. apply (quote_ind (fun _ q => forall rest, walk avoid d Quoted (q ++ rest) = walk avoid d Quoted rest)).
  - done.
  - intros c s q IH rest. rewrite <- app_assoc. rewrite <- (IH rest). generalize (q ++ rest) as r. clear IH. intros r.
    unfold quote_unit.
    repeat match goal with |- context [(c =? ?n)%N] => destruct (N.eqb_spec c n); [apply He|] end.
    destruct (_ || _); [|by apply Hp]. unfold u_escape, hex4. change (js "\u") with [92; 117]%N.
    cbn [app]. rewrite He. rewrite !Hp; [done|..]; apply hex_digit_plain, N.mod_lt; done.
  - intros c e s q Hc Hd IH rest. cbn [app].
    destruct (surrogate_plain c) as (?&?&?); [by left|]. destruct (surrogate_plain e) as (?&?&?); [by right|].
    by rewrite !Hp, IH.
Qed.

Lemma walk_quoted avoid d s rest : walk avoid d Plain (json_quote s ++ rest) = walk avoid d Plain rest.
Proof.
  unfold json_quote. cbn [app]. change (walk avoid d Plain (34%N :: ?r)) with (walk avoid d Quoted r).
  rewrite <- app_assoc, walk_units. done.
Qed.

(** Over units that are no quotes and parentheses, and at the top level not avoided. *)
Definition plain_unit (c : N) : Prop := c <> 34%N /\ c <> 40%N /\ c <> 41%N.

Lemma walk_plain avoid d t : Forall (fun c => plain_unit c /\ (d = 0 -> avoid c = false)) t ->
  walk avoid d Plain t = Some (d, Plain).
Proof.
  induction 1 as [|c t [(H1 & H2 & H3) Ha] _ IH]; [done|]. cbn [walk quote_step].
  rewrite (proj2 (N.eqb_neq c 34)), (proj2 (N.eqb_neq c 40)), (proj2 (N.eqb_neq c 41)) by done.
  destruct (Z.eqb_spec d 0); [|done]. by rewrite Ha.
Qed.

Lemma find_top_walk target t : forall i d q rest d' q', walk (fun c => (c =? target)%N) d q t = Some (d', q') ->
  find_top target i d q (t ++ rest) = find_top target (i + length t) d' q' rest.
Proof.
  induction t as [|c t IH]; intros i d q rest d' q' H.
  - simplify_eq/=. by rewrite Nat.add_0_r.
  - cbn [walk find_top app length] in *. rewrite Nat.add_succ_r, <- Nat.add_succ_l.
    destruct (quote_step q c); [by apply IH|]. destruct (c =? 40)%N; [by apply IH|].
    destruct (c =? 41)%N; [destruct (d - 1 <? 0); [done|by apply IH]|]. destruct (_ && _); [done|by apply IH].
Qed.

Definition colon_or_question (c : N) : bool := (c =? 63)%N || (c =? 58)%N.

Lemma find_colon_walk t : forall i d q rest d' q', walk colon_or_question d q t = Some (d', q') ->
  find_colon i d 0 q (t ++ rest) = find_colon (i + length t) d' 0 q' rest.
Proof.
  induction t as [|c t IH]; intros i d q rest d' q' H.
  - simplify_eq/=. by rewrite Nat.add_0_r.
  - cbn [walk find_colon app length] in *. rewrite Nat.add_succ_r, <- Nat.add_succ_l.
    destruct (quote_step q c); [by apply IH|].
    destruct (c =? 40)%N; [by apply IH|]. destruct (c =? 41)%N; [destruct (d - 1 <? 0); [done|by apply IH]|].
    destruct (d =? 0) eqn:Ed; cbn [negb andb] in *; [|by apply IH].
    unfold colon_or_question in H. destruct (c =? 63)%N; [done|]. destruct (c =? 58)%N; [done|]. by apply IH.
Qed.

Definition op_unit (op : task_operator) (c : N) : bool :=
  match op with op_and => (c =? 38)%N | op_plus => (c =? 43)%N end.

Definition last_of (prev : option N) (t : jstring) : option N := match last t with Some c => Some c | None => prev end.

Lemma last_of_cons prev c t : last_of prev (c :: t) = last_of (Some c) t.
Proof.
  unfold last_of. destruct t as [|x t]; [done|]. change (last (c :: x :: t)) with (last (x :: t)).
  destruct (last (x :: t)) eqn:E; [done|]. by apply last_None in E.
Qed.

Lemma split_task_walk op t : forall d q prev cur rest d' q', walk (op_unit op) d q t = Some (d', q') ->
  split_task op false d q prev cur (t ++ rest) = split_task op false d' q' (last_of prev t) (rev t ++ cur) rest.
Proof.
  induction t as [|c t IH]; intros d q prev cur rest d' q' H; [by simplify_eq/=|].
  rewrite last_of_cons. cbn [walk split_task app rev] in *. rewrite <- app_assoc. cbn [app].
  destruct (quote_step q c); [by apply IH|].
  destruct (c =? 40)%N; [by apply IH|]. destruct (c =? 41)%N; [destruct (d - 1 <? 0); [done|by apply IH]|].
  destruct (d =? 0) eqn:Ed; cbn [negb andb] in *; [|by apply IH].
  destruct (op_unit op c) eqn:Eo; [done|]. destruct op; cbn [op_unit] in Eo.
  - change (startsWith (c :: t ++ rest) (js "&&")) with ((38 =? c)%N && startsWith (t ++ rest) (js "&")).
    rewrite N.eqb_sym, Eo. by apply IH.
  - rewrite Eo. by apply IH.
Qed.

(** A number: its plus signs come after an e. *)
Fixpoint plus_ok (prev : option N) (t : jstring) : bool :=
  match t with
  | [] => true
  | c :: t' =>
      (negb (c =? 43)%N || match prev with Some p => (p =? 101)%N | None => false end) && plus_ok (Some c) t'
  end.

Lemma split_task_number t : forall d prev cur rest, Forall plain_unit t -> plus_ok prev t = true ->
  split_task op_plus false d Plain prev cur (t ++ rest) =
  split_task op_plus false d Plain (last_of prev t) (rev t ++ cur) rest.
Proof.
  induction t as [|c t IH]; intros d prev cur rest Ht Hp; [done|].
  apply Forall_cons in Ht as [(H1 & H2 & H3) Ht]. cbn [plus_ok] in Hp. apply andb_true_iff in Hp as [Hc Hp].
  rewrite last_of_cons. cbn [split_task app rev quote_step]. rewrite <- app_assoc. cbn [app].
  rewrite (proj2 (N.eqb_neq c 34)), (proj2 (N.eqb_neq c 40)), (proj2 (N.eqb_neq c 41)) by done.
  destruct (negb (d =? 0)); [by apply IH|].
  destruct (c =? 43)%N; cbn [negb orb andb] in *; [|by apply IH].
  destruct prev as [p|]; [|done]. rewrite Hc. by apply IH.
Qed.

(** *** Splitting a joined text *)

Lemma drop_while_all {A} (f : A -> bool) a l : Forall (fun x => f x = true) a -> drop_while f (a ++ l) = drop_while f l.
Proof. induction 1 as [|x a Hx _ IH]; [done|]. cbn. by rewrite Hx. Qed.

Lemma trim_pad a p b : Forall (fun c => is_ws c = true) a -> Forall (fun c => is_ws c = true) b ->
  solid_l p -> solid_r p -> trim (a ++ p ++ b) = p.
Proof.
  intros Ha Hb (c & p' & Ep & Hc) (d & p'' & Ep' & Hd). unfold trim, trimEnd, trimStart.
  rewrite drop_while_all by done. rewrite Ep at 1. cbn [app drop_while]. rewrite Hc.
  change (c :: p' ++ b) with ((c :: p') ++ b). rewrite <- Ep, rev_app_distr, drop_while_all by by apply Forall_rev.
  rewrite Ep', rev_app_distr. cbn. rewrite Hd. cbn. by rewrite rev_involutive.
Qed.

Definition op_text (op : task_operator) : jstring := match op with op_and => js " && " | op_plus => js " + " end.

(** A text the split passes over, from outside a string at the top level. *)
Definition passed (op : task_operator) (p : jstring) : Prop := forall prev cur rest,
  split_task op false 0 Plain prev cur (p ++ rest) = split_task op false 0 Plain (last_of prev p) (rev p ++ cur) rest.

Lemma split_task_at op prev cur rest : split_task op false 0 Plain prev cur (op_text op ++ rest) =
  trim (rev (32%N :: cur)) :: split_task op false 0 Plain (Some 32%N) [32%N] rest.
Proof.
  destruct op; cbn [op_text].
  - change (js " && ") with [32; 38; 38; 32]%N. done.
  - change (js " + ") with [32; 43; 32]%N. done.
Qed.

Lemma split_task_join op ps : ps <> [] -> Forall (fun p => passed op p /\ solid_l p /\ solid_r p) ps ->
  forall prev w, Forall (fun c => is_ws c = true) w ->
  split_task op false 0 Plain prev (rev w) (join (op_text op) ps) = ps.
Proof.
  intros Hne H. induction H as [|p ps (Hp & Hl & Hr) Hps IH]; [done|]. intros prev w Hw.
  destruct ps as [|p' ps].
  - cbn [join]. rewrite <- (app_nil_r p) at 1. rewrite Hp. cbn [split_task].
    rewrite rev_app_distr, !rev_involutive. rewrite <- (app_nil_r p) at 1. by rewrite trim_pad.
  - rewrite join_cons by done. rewrite Hp, split_task_at. f_equal.
    + cbn [rev]. rewrite rev_app_distr, !rev_involutive, <- app_assoc. by rewrite trim_pad by by repeat constructor.
    + change [32%N] with (rev [32%N]) at 1. apply IH; [done|]. by repeat constructor.
Qed.

Lemma splitTaskTopLevel_join op ps w : ps <> [] -> Forall (fun p => passed op p /\ solid_l p /\ solid_r p) ps ->
  Forall (fun c => is_ws c = true /\ c <> 43%N /\ plain_unit c) w ->
  splitTaskTopLevel (w ++ join (op_text op) ps) op = ps.
Proof.
  intros Hne Hps Hw. unfold splitTaskTopLevel.
  rewrite (split_task_walk op w 0 Plain None [] _ 0 Plain).
  - rewrite app_nil_r, split_task_join; [|done|done|].
    + apply Forall_true_filter. eapply Forall_impl; [done|]. intros p (_ & Hl & _). by apply solid_l_truthy.
    + eapply Forall_impl; [done|]. naive_solver.
  - apply walk_plain. eapply Forall_impl; [done|]. intros c (Hc & H43 & Hp). split; [done|]. intros _.
    destruct op; cbn [op_unit]; apply N.eqb_neq; [|done]. by intros ->.
Qed.

(** ** Numbers as text *)

(** The printed text of the number is read as the number: so it is for every finite double. *)
Definition exact_num (x : jsnum) : Prop :=
  Number (string_of_num x) = x /\ NUMERIC_LITERAL_REGEX (string_of_num x) = true.

Lemma plus_ok_app t1 : forall prev t2, plus_ok prev (t1 ++ t2) = plus_ok prev t1 && plus_ok (last_of prev t1) t2.
Proof.
  induction t1 as [|c t IH]; intros prev t2; [done|]. rewrite last_of_cons. cbn [app plus_ok]. rewrite IH.
  by rewrite andb_assoc.
Qed.

Lemma plus_ok_none prev t : (43 ∉ t)%N -> plus_ok prev t = true.
Proof.
  revert prev. induction t as [|c t IH]; intros prev H; [done|]. apply not_elem_of_cons in H as [Hc Ht].
  cbn [plus_ok]. rewrite IH by done. rewrite (proj2 (N.eqb_neq c 43)) by congruence. done.
Qed.

Lemma dec_no_plus z : (43 ∉ dec_of_Z z)%N.
Proof.
  assert (forall n, 43 ∉ dec_of_N n)%N as Hn.
  { intros n Hin. destruct (dec_of_N_spec n) as (_ & Hd & _). rewrite Forall_forall in Hd. by apply Hd in Hin. }
  unfold dec_of_Z. destruct (z <? 0); [|apply Hn]. apply not_elem_of_cons. split; [done|apply Hn].
Qed.

Lemma zeros_no_plus z : (43 ∉ zeros z)%N.
Proof. unfold zeros. intros H%list_elem_of_In%repeat_spec. done. Qed.

Lemma take_no_plus n t : (43 ∉ t -> 43 ∉ take n t)%N.
Proof. intros H Hin. apply H. rewrite <- (take_drop n t). apply elem_of_app. by left. Qed.

Lemma drop_no_plus n t : (43 ∉ t -> 43 ∉ drop n t)%N.
Proof. intros H Hin. apply H. rewrite <- (take_drop n t). apply elem_of_app. by right. Qed.

Lemma string_of_pos_plus q prev : plus_ok prev (string_of_pos q) = true.
Proof.
  unfold string_of_pos. destruct (shortest 17 1 (magnitude q) q) as [s n].
  pose proof (dec_no_plus s) as Hs. set (ds := dec_of_Z s) in *.
  destruct (_ && _); [apply plus_ok_none; rewrite not_elem_of_app; by split; [|apply zeros_no_plus]|].
  destruct (_ && _).
  { apply plus_ok_none. rewrite !not_elem_of_app. split_and!; [by apply take_no_plus| |by apply drop_no_plus].
    by apply (bool_decide_unpack _). }
  destruct (_ && _).
  { apply plus_ok_none. rewrite !not_elem_of_app. split_and!; [by apply (bool_decide_unpack _)|apply zeros_no_plus|done]. }
  rewrite app_assoc, plus_ok_app. rewrite plus_ok_none.
  - cbn [andb]. change (js "e") with [101%N]. cbn [app plus_ok]. rewrite plus_ok_app.
    rewrite (plus_ok_none _ (dec_of_Z _)) by apply dec_no_plus. by destruct (n - 1 <? 0).
  - rewrite not_elem_of_app. split; [by apply take_no_plus|]. destruct (_ =? 1); [apply not_elem_of_nil|].
    rewrite not_elem_of_app. split; [by apply (bool_decide_unpack _)|by apply drop_no_plus].
Qed.

Lemma string_of_num_plus n prev : plus_ok prev (string_of_num n) = true.
Proof.
  unfold string_of_num. destruct n as [|b|q]; [done|by destruct b|]. destruct (Qnum q =? 0); [done|].
  destruct (Qnum q <? 0); [|apply string_of_pos_plus]. rewrite plus_ok_app, string_of_pos_plus. done.
Qed.

Lemma passed_number n : exact_num n -> passed op_plus (string_of_num n).
Proof.
  intros [_ H] prev cur rest. apply split_task_number; [|apply string_of_num_plus].
  destruct (numeric_units _ H) as [_ Hu]. eapply Forall_impl; [done|]. cbn. intros c Hc.
  split; [by intros ->|]. by apply num_unit_facts in Hc as (_ & _ & ? & ? & _).
Qed.

Lemma last_of_app prev t1 t2 : last_of prev (t1 ++ t2) = last_of (last_of prev t1) t2.
Proof.
  revert prev. induction t1 as [|c t IH]; intros prev; [done|]. cbn [app]. by rewrite !last_of_cons.
Qed.

Lemma passed_app op p1 p2 : passed op p1 -> passed op p2 -> passed op (p1 ++ p2).
Proof.
  intros H1 H2 prev cur rest. rewrite <- app_assoc, H1, H2.
  by rewrite last_of_app, rev_app_distr, <- app_assoc.
Qed.

Lemma walk_passed op p : walk (op_unit op) 0 Plain p = Some (0, Plain) -> passed op p.
Proof. intros H prev cur rest. by apply split_task_walk. Qed.

(** ** The pieces of the text *)

Lemma walk_usage avoid d f rest : 0 <= d -> (d = 0 -> avoid 117%N = false) ->
  walk avoid d Plain (usage_text f ++ rest) = walk avoid d Plain rest.
Proof.
  intros Hd Ha. unfold usage_text. change (js "u(") with ([117] ++ [40])%N. change (js ")") with [41%N]. flat.
  change (117%N :: ?r) with ([117%N] ++ r). rewrite (walk_app avoid [117%N] d Plain _ d Plain).
  - cbn [walk quote_step]. change (40 =? 34)%N with false. change (40 =? 40)%N with true. cbv iota.
    rewrite walk_quoted. cbn [walk quote_step]. change (41 =? 34)%N with false. change (41 =? 40)%N with false.
    change (41 =? 41)%N with true. cbv iota. replace (d + 1 - 1) with d by lia.
    by rewrite (proj2 (Z.ltb_ge d 0)).
  - apply walk_plain. apply Forall_singleton. split; [by split_and!|done].
Qed.

Lemma walk_literal avoid d w rest : Forall (fun c => plain_unit c /\ (d = 0 -> avoid c = false)) w ->
  walk avoid d Plain (w ++ rest) = walk avoid d Plain rest.
Proof. intros H. by apply walk_app, walk_plain. Qed.

(** The units of a literal, by evaluation. *)
Lemma plain_literal d avoid w :
  bool_decide (Forall (fun c => plain_unit c /\ avoid c = false) w) = true ->
  Forall (fun c => plain_unit c /\ (d = 0 -> avoid c = false)) w.
Proof. intros H%bool_decide_eq_true. eapply Forall_impl; [done|]. naive_solver. Qed.

Lemma condition_walk avoid c rest : bool_decide (Forall (fun c => plain_unit c /\ avoid c = false) (js "u == ")) = true ->
  walk avoid 0 Plain (condition_text c ++ rest) = walk avoid 0 Plain rest.
Proof.
  intros Ha. pose proof (plain_literal 0 _ _ Ha) as H. change (js "u == ") with ([117%N] ++ js " == ") in H.
  apply Forall_app in H as [Hu%Forall_inv Hl]. unfold condition_text. rewrite <- !app_assoc, walk_usage; [|lia|tauto].
  rewrite walk_literal by done. apply walk_quoted.
Qed.

Lemma condition_passed c : passed op_and (condition_text c) /\ solid_l (condition_text c) /\ solid_r (condition_text c).
Proof.
  split; [|split].
  - apply walk_passed. rewrite <- (app_nil_r (condition_text c)). by rewrite condition_walk.
  - unfold condition_text, usage_text. by eexists _, _.
  - unfold condition_text. do 2 apply solid_r_app. apply json_quote_solid.
Qed.

(** ** The patterns on the pieces *)

Lemma run_spaces {A} (k : cont A) w a c : Forall (fun x => is_ws x = true) w -> starts is_ws a = false ->
  (forall x a' c', is_ws x = true -> k (x :: a') c' = None) -> run spaces k (w ++ a) c = k a c.
Proof. intros Hw Ha Hk. apply run_Star_Chr; auto. Qed.

Lemma run_spaces_lit {A} l r (k : cont A) w a c : Forall (fun x => is_ws x = true) w -> starts is_ws a = false ->
  starts (fun x => negb (is_ws x)) l = true ->
  run (Seq spaces (Seq (Lit l) r)) k (w ++ a) c = run (Seq (Lit l) r) k a c.
Proof.
  intros Hw Ha Hl. rewrite run_Seq. apply run_spaces; [done..|]. intros x a' c' Hx. rewrite run_Seq.
  apply run_Lit_fail. destruct l as [|y l]; [done|]. cbn [starts] in Hl. cbn [startsWith].
  destruct (N.eqb_spec y x) as [->|]; [|done]. by rewrite Hx in Hl.
Qed.

Lemma quoted_start {A} n (k : cont A) x a c : x <> 34%N -> run (Grp n quoted) k (x :: a) c = None.
Proof.
  intros Hx. rewrite run_Grp. unfold quoted. cbn [Seqs foldr]. rewrite run_Seq. apply run_Lit_fail.
  cbn [startsWith]. change qt with [34%N]. cbn [startsWith]. by rewrite (proj2 (N.eqb_neq 34 x)).
Qed.

Lemma run_spaces_quoted n r (k : cont caps) w v a c : Forall (fun x => is_ws x = true) w ->
  run (Seq spaces (Seq (Grp n quoted) r)) k (w ++ json_quote v ++ a) c = run r k a ((n, json_quote v) :: c).
Proof.
  intros Hw. rewrite run_Seq, run_spaces; [by rewrite run_Seq, run_quoted|done|done|].
  intros x a' c' Hx. rewrite run_Seq. apply quoted_start. by intros ->.
Qed.

(** The same where there are no spaces. *)
Lemma run_no_spaces_lit {A} l r (k : cont A) a c : starts is_ws a = false ->
  starts (fun x => negb (is_ws x)) l = true ->
  run (Seq spaces (Seq (Lit l) r)) k a c = run (Seq (Lit l) r) k a c.
Proof. intros Ha Hl. by apply (run_spaces_lit l r k []). Qed.

Lemma run_no_spaces_quoted n r (k : cont caps) v a c :
  run (Seq spaces (Seq (Grp n quoted) r)) k (json_quote v ++ a) c = run r k a ((n, json_quote v) :: c).
Proof. by apply (run_spaces_quoted n r k []). Qed.

Lemma run_usage r (k : cont caps) f a c :
  run (Seqs (usage_call ++ r)) k (usage_text f ++ a) c = run (Seqs r) k a ((1%nat, json_quote f) :: c).
Proof.
  unfold usage_call, usage_text. cbn [Seqs foldr app]. rewrite <- !app_assoc. rewrite run_Seq, run_Lit_app.
  rewrite run_no_spaces_quoted, run_no_spaces_lit by done. by rewrite run_Seq, run_Lit_app.
Qed.

Lemma condition_match c : fullmatch task_condition_re (condition_text c) =
  Some [(2%nat, json_quote (tc_value c)); (1%nat, json_quote (tc_field c))].
Proof.
  unfold fullmatch, task_condition_re, condition_text. rewrite run_usage. cbn [Seqs foldr].
  change (js " == " ++ ?q) with ([32%N] ++ (js "==" ++ ([32%N] ++ q))).
  rewrite run_spaces_lit by (done || by repeat constructor). rewrite run_Seq, run_Lit_app.
  rewrite <- (app_nil_r (json_quote (tc_value c))) at 1. by rewrite run_spaces_quoted by by repeat constructor.
Qed.

Lemma numeric_free : group_free numeric_literal = true.
Proof. done. Qed.

Lemma numeric_matches_ne w : matches numeric_literal w -> w <> [].
Proof. intros H ->. apply (test_matches _ _ numeric_free) in H. done. Qed.

(** A number, before the end of the text or a space. *)
Lemma run_numeric {A} n (k : cont A) v a c y : NUMERIC_LITERAL_REGEX v = true -> starts num_unit a = false ->
  (forall x a' c', num_unit x = true -> k (x :: a') c' = None) -> k a ((n, v) :: c) = Some y ->
  run (Grp n numeric_literal) k (v ++ a) c = Some y.
Proof.
  intros Hv Ha Hk Hy. rewrite run_Grp. apply run_unique; [done|by apply test_matches| |].
  - by rewrite captured.
  - intros w' a' E Hw' Hne. assert (exists x t, a' = x :: t /\ num_unit x = true) as (x & t & -> & Hx); [|by apply Hk].
    destruct (numeric_units v Hv) as [_ Hu].
    pose proof (matches_within _ _ _ within_numeric Hw') as Hu'.
    assert (exists t, v = w' ++ t /\ a' = t ++ a) as (t & -> & ->).
    { clear -E Ha Hu'. revert v E. induction Hu' as [|x w' Hx _ IH]; intros v E; [by exists v|].
      destruct v as [|z v]; cbn in E.
      - subst a. cbn in Ha. congruence.
      - injection E as -> E. destruct (IH v E) as (t & -> & ->). by exists t. }
    apply Forall_app in Hu as [_ Hu]. destruct Hu as [|x t Hx _]; [done|]. by exists x, (t ++ a).
Qed.

Lemma numeric_stop {A} n (k : cont A) a c : starts num_unit a = false -> run (Grp n numeric_literal) k a c = None.
Proof.
  intros Ha. rewrite run_Grp. destruct (run numeric_literal _ a c) as [y|] eqn:E; [|done].
  apply run_matches in E as (w & a' & -> & Hw & _); [|done].
  pose proof (matches_within _ _ _ within_numeric Hw) as Hu. apply numeric_matches_ne in Hw.
  destruct Hu as [|x w Hx _]; [done|]. cbn in Ha. congruence.
Qed.

Definition priced_text (f : jstring) (n : jsnum) : jstring := usage_text f ++ js " * " ++ string_of_num n.

Lemma bare_match f n : exact_num n -> fullmatch bare_term_re (priced_text f n) =
  Some [(2%nat, string_of_num n); (1%nat, json_quote f)].
Proof.
  intros [_ Hn]. unfold fullmatch, bare_term_re, priced_text. rewrite run_usage. cbn [Seqs foldr].
  change (js " * " ++ ?q) with ([32%N] ++ (js "*" ++ ([32%N] ++ q))).
  rewrite run_spaces_lit by (done || by repeat constructor). rewrite run_Seq, run_Lit_app, run_Seq.
  destruct (numeric_units _ Hn) as [Hne Hu].
  rewrite run_spaces; [|by repeat constructor|destruct Hu as [|x t Hx _]; [done|by apply num_unit_facts in Hx as [? _]]|].
  - rewrite run_Seq. rewrite <- (app_nil_r (string_of_num n)) at 1. by apply run_numeric.
  - intros x a' c' Hx. rewrite run_Seq. apply numeric_stop. cbn. destruct (num_unit x) eqn:E; [|done].
    apply num_unit_facts in E as [E _]. congruence.
Qed.

Lemma scaled_match f n : exact_num n -> fullmatch scaled_term_re (priced_text f n ++ js " / " ++ js "1000000") =
  Some [(2%nat, string_of_num n); (1%nat, json_quote f)].
Proof.
  intros [_ Hn]. unfold fullmatch, scaled_term_re, priced_text. rewrite <- app_assoc, run_usage. cbn [Seqs foldr].
  rewrite <- app_assoc. change (js " * " ++ ?q) with ([32%N] ++ (js "*" ++ ([32%N] ++ q))).
  rewrite run_spaces_lit by (done || by repeat constructor). rewrite run_Seq, run_Lit_app, run_Seq.
  destruct (numeric_units _ Hn) as [Hne Hu].
  rewrite run_spaces; [|by repeat constructor|destruct Hu as [|x t Hx _]; [done|by apply num_unit_facts in Hx as [? _]]|].
  - rewrite run_Seq. apply run_numeric; [done|done| |done]. intros x a' c' Hx. rewrite run_Seq.
    rewrite (run_spaces _ [] (x :: a')); [|done|by apply num_unit_facts in Hx as [? _]|].
    + rewrite run_Seq. apply run_Lit_fail. destruct (N.eqb_spec x 47) as [->|Hx47]; [done|].
      change (js "/") with [47%N]. cbn [startsWith]. by rewrite (proj2 (N.eqb_neq 47 x)).
    + intros z a'' c'' Hz. rewrite run_Seq. apply run_Lit_fail. change (js "/") with [47%N]. cbn [startsWith].
      rewrite (proj2 (N.eqb_neq 47 z)); [done|]. by intros <-.
  - intros x a' c' Hx. rewrite run_Seq. apply numeric_stop. cbn. destruct (num_unit x) eqn:E; [|done].
    apply num_unit_facts in E as [E _]. congruence.
Qed.

(** A text without a slash after the call is no scaled term. *)
Lemma scaled_needs_slash f n : exact_num n -> fullmatch scaled_term_re (priced_text f n) = None.
Proof.
  intros [_ Hn]. unfold fullmatch, scaled_term_re, priced_text. rewrite run_usage.
  destruct (run _ at_end _ _) as [m|] eqn:E; [exfalso|done]. cbn [Seqs foldr] in E.
  rewrite run_Seq in E. apply run_suffix in E as (w1 & a1 & c1 & E1 & E).
  rewrite run_Seq in E. apply run_suffix in E as (w2 & a2 & c2 & -> & E).
  rewrite run_Seq in E. apply run_suffix in E as (w3 & a3 & c3 & -> & E).
  rewrite run_Seq in E. apply run_suffix in E as (w4 & a4 & c4 & -> & E).
  rewrite run_Seq in E. apply run_suffix in E as (w5 & a5 & c5 & -> & E).
  rewrite run_Seq, run_Lit_strip in E. destruct (strip (js "/") a5) as [a6|] eqn:E6; [|done].
  apply strip_Some in E6 as ->.
  assert (47 ∈ js " * " ++ string_of_num n)%N as Hin.
  { rewrite E1, !elem_of_app. do 5 right. left. by left. }
  apply elem_of_app in Hin as [Hin | Hin]; [by revert Hin; apply (bool_decide_unpack _)|].
  destruct (numeric_units _ Hn) as [_ Hu]. rewrite Forall_forall in Hu. by apply Hu in Hin.
Qed.

(** ** Reading a call *)

Lemma parse_quoted_quote s : parse_quoted (json_quote s) = Some s.
Proof. unfold parse_quoted. by rewrite JSON_parse_quote. Qed.

Lemma usage_not_numeric f t : NUMERIC_LITERAL_REGEX (usage_text f ++ t) = false.
Proof.
  apply not_true_iff_false. intros [_ H]%numeric_units. unfold usage_text in H.
  change (js "u(") with [117; 40]%N in H. by apply Forall_cons in H as [H _].
Qed.

Definition number_field (d : BillingUsageFieldSchema) : Prop := type_ d = Some type_number /\ unit_ d <> None.

Lemma usable_facts n : usable n = true -> isFinite n = true /\ negative n = false.
Proof. unfold usable. by intros [? ?%negb_true_iff]%andb_true_iff. Qed.

(** One price term. *)
Lemma task_term_price schema prices f d constant n terms :
  assoc f schema = Some d -> number_field d -> in_object f prices = false -> exact_num n -> usable n = true ->
  task_terms schema constant prices
    ((if bool_decide (unit_ d = Some token) then priced_text f n ++ js " / " ++ js "1000000" else priced_text f n) :: terms) =
  task_terms schema constant (mset prices f n) terms.
Proof.
  intros Hd [Ht Hu] Hin Hn [Hfin Hneg]%usable_facts. pose proof Hn as [Hx _]. cbn [task_terms].
  assert (forall t, NUMERIC_LITERAL_REGEX (priced_text f n ++ t) = false) as Hnn.
  { intros t. unfold priced_text. rewrite <- app_assoc. apply usage_not_numeric. }
  destruct (bool_decide (unit_ d = Some token)) eqn:Et.
  - rewrite Hnn, scaled_match by done. cbn [orelse mbind option_bind]. unfold capd.
    cbn [cap Nat.eqb coalesce from_option id]. rewrite parse_quoted_quote. cbn [mbind option_bind].
    rewrite Hd. cbn [mbind option_bind]. rewrite Hx, Hin, Hfin, Hneg, Et, bool_decide_eq_true_2, bool_decide_eq_false_2 by done.
    done.
  - specialize (Hnn []). rewrite app_nil_r in Hnn. rewrite Hnn, scaled_needs_slash, bare_match by done.
    cbn [orelse mbind option_bind]. unfold capd.
    cbn [cap Nat.eqb coalesce from_option id]. rewrite parse_quoted_quote. cbn [mbind option_bind].
    rewrite Hd. cbn [mbind option_bind]. rewrite Hx, Hin, Hfin, Hneg, Et, bool_decide_eq_true_2, bool_decide_eq_false_2 by done.
    done.
Qed.

(** The price terms of the fields, in their order. *)
Lemma task_terms_prices schema prices fields : forall before constant,
  NoDup (map fst before ++ map fst fields) ->
  Forall (fun f => assoc f.1 schema = Some f.2 /\ number_field f.2 /\ (f.1 ∉ inheritedMembers) /\
    exact_num (price_of prices f.1) /\ usable (price_of prices f.1) = true) fields ->
  task_terms schema constant before (map (term_text prices) fields) =
  Some (constant, before ++ map (fun f => (f.1, price_of prices f.1)) fields).
Proof.
  induction fields as [|[f d] fields IH]; intros before constant Hnd H; [by rewrite app_nil_r|].
  apply Forall_cons in H as [(Hd & Hnum & Hinh & Hn & Hu) H]. cbn [fst snd] in *. cbn [map].
  assert (f ∉ map fst before) as Hf.
  { intros Hf. apply NoDup_app in Hnd as (_ & Hnd & _). apply (Hnd f Hf). by left. }
  unfold term_text at 1. cbn [fst snd]. fold (priced_text f (price_of prices f)).
  rewrite (task_term_price schema before f d constant (price_of prices f)); [|done|done| |done|done].
  - rewrite mset_new by by apply mget_None. rewrite IH; [by rewrite <- app_assoc|..|done].
    rewrite map_app, <- app_assoc. done.
  - unfold in_object. rewrite (proj2 (mget_None before f)) by done. by apply bool_decide_eq_false.
Qed.

Lemma zero_exact x : exact_num x -> usable x = true -> num_ltb (Fin 0) x = false -> x = Fin 0.
Proof.
  intros [Hx _] [Hf Hn]%usable_facts H. destruct x as [|b|q]; [done..|].
  unfold negative, num_ltb in *. apply negb_false_iff, Qle_bool_iff in H. apply negb_false_iff, Qle_bool_iff in Hn.
  assert (Qnum q = 0) as Hq by (unfold Qle in *; cbn in *; lia).
  unfold string_of_num in Hx. rewrite Hq in Hx. rewrite <- Hx. vm_compute. done.
Qed.

Lemma term_passed prices f : exact_num (price_of prices f.1) ->
  passed op_plus (term_text prices f) /\ solid_l (term_text prices f) /\ solid_r (term_text prices f).
Proof.
  intros Hn. pose proof Hn as [_ Hnum]. unfold term_text. fold (priced_text f.1 (price_of prices f.1)).
  assert (passed op_plus (priced_text f.1 (price_of prices f.1)) /\ solid_r (priced_text f.1 (price_of prices f.1))) as [Hp Hr].
  { split; [|unfold priced_text; do 2 apply solid_r_app; by apply numeric_solid].
    unfold priced_text. rewrite app_assoc. apply passed_app; [apply walk_passed|by apply passed_number].
    by rewrite walk_usage. }
  assert (solid_l (priced_text f.1 (price_of prices f.1))) as Hl by (unfold priced_text, usage_text; by eexists _, _).
  destruct (bool_decide _); [|done]. split; [|split].
  - apply passed_app; [done|by apply walk_passed].
  - by apply solid_l_app.
  - do 2 apply solid_r_app. by exists 48%N, (js "100000").
Qed.

(** A tier whose numbers print exactly. *)
Definition exact_tier (t : TaskVisualTier) (numberFields : list (jstring * BillingUsageFieldSchema)) : Prop :=
  (exact_num (tt_constant t) /\ usable (tt_constant t) = true) /\
  Forall (fun f => exact_num (price_of (tt_unitPrices t) f.1) /\ usable (price_of (tt_unitPrices t) f.1) = true) numberFields.

(** The number fields as the schema declares them. *)
Definition fields_of (schema : BillingUsageSchema) (numberFields : list (jstring * BillingUsageFieldSchema)) : Prop :=
  numberFields <> [] /\ NoDup (map fst numberFields) /\
  Forall (fun f => assoc f.1 schema = Some f.2 /\ number_field f.2 /\ (f.1 ∉ inheritedMembers)) numberFields.

Section Call.
Context (schema : BillingUsageSchema) (nf : list (jstring * BillingUsageFieldSchema)).
Hypothesis Hnf : fields_of schema nf.
Context (t : TaskVisualTier).
Hypothesis Ht : exact_tier t nf.

Definition body_terms : list jstring :=
  (if num_ltb (Fin 0) (tt_constant t) then [string_of_num (tt_constant t)] else []) ++ map (term_text (tt_unitPrices t)) nf.

Lemma body_terms_good : body_terms <> [] /\
  Forall (fun p => passed op_plus p /\ solid_l p /\ solid_r p) body_terms.
Proof using Hnf Ht.
  destruct Hnf as (Hne & _). destruct Ht as [[Hc _] Hp]. split.
  - unfold body_terms. destruct nf; [done|]. by destruct (num_ltb _ _).
  - apply Forall_app. split.
    + destruct (num_ltb _ _); [|done]. apply Forall_singleton. split; [by apply passed_number|].
      destruct Hc as [_ Hc]. by apply numeric_solid.
    + apply Forall_map. eapply Forall_impl; [exact Hp|]. intros f [Hf _]. by apply term_passed.
Qed.

Lemma read_terms : exists c, task_terms schema None [] body_terms = Some (c, prices_for nf (tt_unitPrices t)) /\
  coalesce c (Fin 0) = tt_constant t.
Proof using Hnf Ht.
  destruct Hnf as (Hne & Hnd & Hf). destruct Ht as [[Hc Hu] Hp].
  assert (Forall (fun f => assoc f.1 schema = Some f.2 /\ number_field f.2 /\ (f.1 ∉ inheritedMembers) /\
    exact_num (price_of (tt_unitPrices t) f.1) /\ usable (price_of (tt_unitPrices t) f.1) = true) nf) as Hall.
  { apply Forall_forall. intros f Hin. rewrite Forall_forall in Hf, Hp. specialize (Hf f Hin). specialize (Hp f Hin). tauto. }
  unfold body_terms. destruct (num_ltb (Fin 0) (tt_constant t)) eqn:E.
  - exists (Some (tt_constant t)). split; [|done]. cbn [app task_terms]. destruct Hc as [Hx Hnum].
    apply usable_facts in Hu as [Hfin Hneg]. rewrite Hnum, Hx, Hfin, Hneg. cbn [negb orb].
    by rewrite task_terms_prices.
  - exists None. cbn [app]. rewrite task_terms_prices by done. split; [done|]. cbn. symmetry. by apply zero_exact.
Qed.

Definition call_inner : jstring := json_quote (tt_label t) ++ js "," ++ [32%N] ++ join (op_text op_plus) body_terms.

Lemma call_text_eq : generateTaskTierCall t nf = js "tier(" ++ call_inner ++ js ")".
Proof.
  unfold generateTaskTierCall, generateTaskTierBody, call_inner. change (js ", ") with (js "," ++ [32%N]).
  by rewrite <- !app_assoc.
Qed.

Lemma call_solid : solid_l (generateTaskTierCall t nf) /\ solid_r (generateTaskTierCall t nf).
Proof. rewrite call_text_eq. split; [by eexists _, _|]. do 2 apply solid_r_app. by exists 41%N, []. Qed.

Lemma read_call conds pad : Forall (fun c => is_ws c = true) pad ->
  parseTaskTierCall (pad ++ generateTaskTierCall t nf) conds schema =
  Some {| tt_label := tt_label t; tt_conditions := conds; tt_constant := tt_constant t;
          tt_unitPrices := prices_for nf (tt_unitPrices t) |}.
Proof using Hnf Ht.
  intros Hpad. unfold parseTaskTierCall. destruct call_solid as [Hl Hr].
  assert (trim (pad ++ generateTaskTierCall t nf) = generateTaskTierCall t nf) as ->.
  { rewrite <- (app_nil_r (generateTaskTierCall t nf)) at 1. by apply trim_pad. }
  rewrite call_text_eq.
  assert (startsWith (js "tier(" ++ call_inner ++ js ")") (js "tier(") = true) as -> by (apply startsWith_app; eauto).
  assert (endsWith (js "tier(" ++ call_inner ++ js ")") (js ")") = true) as ->.
  { unfold endsWith. rewrite !rev_app_distr. done. }
  assert (slice (js "tier(" ++ call_inner ++ js ")") 5 (length (js "tier(" ++ call_inner ++ js ")") - 1) = call_inner) as ->.
  { unfold slice. rewrite !length_app. change (length (js "tier(")) with 5%nat. change (length (js ")")) with 1%nat.
    rewrite drop_app_length' by done. replace (5 + (length call_inner + 1) - 1 - 5)%nat with (length call_inner) by lia.
    apply take_app_length. }
  cbn [negb orb]. unfold findTaskTopLevelCharacter.
  assert (find_top ch_comma 0 0 Plain call_inner = Some (length (json_quote (tt_label t)))) as ->.
  { unfold call_inner. rewrite (find_top_walk ch_comma (json_quote (tt_label t)) 0 0 Plain _ 0 Plain); [done|].
    rewrite <- (app_nil_r (json_quote _)). apply walk_quoted. }
  cbn [mbind option_bind].
  assert (slice call_inner 0 (length (json_quote (tt_label t))) = json_quote (tt_label t)) as ->.
  { unfold slice, call_inner. rewrite Nat.sub_0_r. apply take_app_length. }
  destruct (json_quote_solid (tt_label t)) as [Hql Hqr]. rewrite trim_solid, JSON_parse_quote by done.
  cbn [mbind option_bind].
  assert (drop (S (length (json_quote (tt_label t)))) call_inner = [32%N] ++ join (op_text op_plus) body_terms) as ->.
  { unfold call_inner. rewrite app_assoc. apply drop_app_length'. rewrite length_app. change (length (js ",")) with 1%nat. lia. }
  destruct body_terms_good as [Hbn Hbg]. rewrite splitTaskTopLevel_join; [|done|done|by repeat constructor].
  destruct read_terms as (c & -> & Hc). cbn [mbind option_bind]. rewrite Hc.
  destruct Hnf as (Hne & _). unfold prices_for. by destruct nf.
Qed.
End Call.

(** *** Branches *)

Lemma number_plain x : exact_num x -> Forall plain_unit (string_of_num x).
Proof.
  intros [_ H]. destruct (numeric_units _ H) as [_ Hu]. eapply Forall_impl; [done|]. cbn. intros c Hc.
  split; [by intros ->|]. by apply num_unit_facts in Hc as (_ & _ & ? & ? & _).
Qed.

(** Inside the parentheses of the call nothing is avoided. *)
Lemma walk_inner avoid w rest : Forall plain_unit w -> walk avoid 1 Plain (w ++ rest) = walk avoid 1 Plain rest.
Proof. intros H. apply walk_literal. eapply Forall_impl; [done|]. by intros c Hc; split. Qed.

Lemma walk_term avoid prices f rest : exact_num (price_of prices f.1) ->
  walk avoid 1 Plain (term_text prices f ++ rest) = walk avoid 1 Plain rest.
Proof.
  intros Hn%number_plain. unfold term_text.
  assert (forall w, bool_decide (Forall plain_unit w) = true -> Forall plain_unit w) as Hd by (intros w; apply bool_decide_eq_true).
  destruct (bool_decide (unit_ f.2 = Some token)); rewrite <- !app_assoc, walk_usage, !walk_inner by (done || lia || by apply Hd); done.
Qed.

Lemma walk_call avoid schema nf t rest : fields_of schema nf -> exact_tier t nf ->
  bool_decide (Forall (fun c => plain_unit c /\ avoid c = false) (js "tier")) = true ->
  walk avoid 0 Plain (generateTaskTierCall t nf ++ rest) = walk avoid 0 Plain rest.
Proof.
  intros Hnf [[Hc _] Hp] Ha. rewrite call_text_eq. unfold call_inner. change (js "tier(") with (js "tier" ++ [40%N]).
  rewrite <- !app_assoc. rewrite walk_literal by by apply plain_literal.
  change (walk avoid 0 Plain ([40%N] ++ ?r)) with (walk avoid 1 Plain r). rewrite walk_quoted.
  rewrite (walk_inner avoid (js ",")) by by apply (bool_decide_unpack _).
  rewrite (walk_inner avoid [32%N]) by by apply (bool_decide_unpack _).
  assert (forall r, walk avoid 1 Plain (join (op_text op_plus) (body_terms nf t) ++ r) = walk avoid 1 Plain r) as ->; [|done].
  assert (Forall (fun p => forall r, walk avoid 1 Plain (p ++ r) = walk avoid 1 Plain r) (body_terms nf t)) as H.
  { apply Forall_app. split.
    - destruct (num_ltb _ _); [|done]. apply Forall_singleton. intros r. by apply walk_inner, number_plain.
    - apply Forall_map. eapply Forall_impl; [exact Hp|]. intros f [Hf _] r. by apply walk_term. }
  induction H as [|p ps Hp1 Hps IH]; [done|]. intros r. destruct ps as [|p' ps]; [apply Hp1|].
  rewrite join_cons, <- !app_assoc, Hp1 by done.
  rewrite (walk_inner avoid (op_text op_plus)) by by apply (bool_decide_unpack _). apply IH.
Qed.

Lemma generate_condition_walk avoid cs rest :
  bool_decide (Forall (fun c => plain_unit c /\ avoid c = false) (js "u == & ")) = true ->
  walk avoid 0 Plain (generateTaskCondition cs ++ rest) = walk avoid 0 Plain rest.
Proof.
  intros Ha. assert (bool_decide (Forall (fun c => plain_unit c /\ avoid c = false) (js "u == ")) = true /\
    bool_decide (Forall (fun c => plain_unit c /\ avoid c = false) (js " && ")) = true) as [H1 H2].
  { apply bool_decide_eq_true in Ha. change (js "u == & ") with (js "u == " ++ [38; 32]%N) in Ha.
    apply Forall_app in Ha as [Ha1 Ha2]. split; apply bool_decide_eq_true; [done|].
    apply Forall_cons in Ha2 as [Ha2 Ha3%Forall_inv]. by repeat (apply Forall_cons; split; [done|]). }
  unfold generateTaskCondition. induction cs as [|c cs IH]; [done|]. cbn [map]. destruct cs as [|c' cs].
  - by apply condition_walk.
  - rewrite join_cons by done. rewrite <- !app_assoc, condition_walk by done.
    rewrite walk_literal by by apply plain_literal. apply IH.
Qed.

(** Conditions on declared values are read back. *)
Definition declared_condition (schema : BillingUsageSchema) (c : TaskTierCondition) : Prop :=
  exists vs, (d ← assoc (tc_field c) schema; enum_ d) = Some vs /\ tc_value c ∈ vs.

Lemma read_task_conditions schema cs : cs <> [] -> Forall (declared_condition schema) cs ->
  parseTaskConditions (generateTaskCondition cs) schema = Some cs.
Proof.
  intros Hne Hcs. unfold parseTaskConditions, generateTaskCondition.
  pose proof (splitTaskTopLevel_join op_and (map condition_text cs) []) as E. cbn [app op_text] in E.
  rewrite E; [|by destruct cs| |done].
  - assert (task_conditions schema (map condition_text cs) = Some cs) as ->; [|by destruct cs].
    clear Hne E. induction Hcs as [|c cs (vs & Hvs & Hin) _ IH]; [done|]. cbn [map task_conditions].
    rewrite condition_match. cbn [mbind option_bind]. unfold capd. cbn [cap Nat.eqb coalesce from_option id].
    rewrite !parse_quoted_quote. cbn [mbind option_bind] in *. rewrite Hvs. cbn [mbind option_bind].
    rewrite bool_decide_eq_true_2, IH by done. by destruct c.
  - apply Forall_map, Forall_true. apply condition_passed.
Qed.

Lemma generate_condition_solid cs : cs <> [] -> solid_l (generateTaskCondition cs) /\ solid_r (generateTaskCondition cs).
Proof.
  intros Hne. unfold generateTaskCondition. induction cs as [|c cs IH]; [done|]. cbn [map].
  destruct (condition_passed c) as (_ & Hl & Hr). destruct cs as [|c' cs]; [done|].
  rewrite join_cons by done. split; [by apply solid_l_app|]. do 2 apply solid_r_app. by apply IH.
Qed.

(** A tier as it is read: the last without conditions, and every price of a number field. *)
Definition read_tier (nf : list (jstring * BillingUsageFieldSchema)) (conds : list TaskTierCondition)
    (t : TaskVisualTier) : ParsedTaskTier :=
  {| tt_label := tt_label t; tt_conditions := conds; tt_constant := tt_constant t;
     tt_unitPrices := prices_for nf (tt_unitPrices t) |}.

Fixpoint read_tiers (nf : list (jstring * BillingUsageFieldSchema)) (tiers : list TaskVisualTier) : list ParsedTaskTier :=
  match tiers with
  | [] => []
  | [t] => [read_tier nf [] t]
  | t :: tiers' => read_tier nf (tt_conditions t) t :: read_tiers nf tiers'
  end.

Section Branches.
Context (schema : BillingUsageSchema) (nf : list (jstring * BillingUsageFieldSchema)).
Hypothesis Hnf : fields_of schema nf.

Definition branch_text (t : TaskVisualTier) : jstring :=
  generateTaskCondition (tt_conditions t) ++ js " ? " ++ generateTaskTierCall t nf.

(** One branch before another. *)
Lemma read_branch f t rest : exact_tier t nf -> tt_conditions t <> [] ->
  Forall (declared_condition schema) (tt_conditions t) -> solid_l rest -> solid_r rest ->
  task_tiers (S f) schema (branch_text t ++ js " : " ++ rest) =
  (tiers ← task_tiers f schema rest; Some (read_tier nf (tt_conditions t) t :: tiers)).
Proof using Hnf.
  intros Ht Hne Hcs Hrl Hrr. set (cond := generateTaskCondition (tt_conditions t)).
  set (call := generateTaskTierCall t nf).
  destruct (generate_condition_solid _ Hne) as [Hcl Hcr]. fold cond in Hcl, Hcr.
  destruct (call_solid nf t) as [Hkl Hkr]. fold call in Hkl, Hkr.
  set (remaining := branch_text t ++ js " : " ++ rest).
  assert (remaining = cond ++ [32; 63]%N ++ ([32%N] ++ call) ++ [32; 58]%N ++ [32%N] ++ rest) as Er.
  { unfold remaining, branch_text. fold cond call. change (js " ? ") with [32; 63; 32]%N.
    change (js " : ") with [32; 58; 32]%N. by flat. }
  assert (findTaskTopLevelCharacter remaining 63 = Some (S (length cond))) as Hq.
  { rewrite Er. unfold findTaskTopLevelCharacter.
    rewrite (find_top_walk 63 cond 0 0 Plain _ 0 Plain) by (rewrite <- (app_nil_r cond); by apply generate_condition_walk).
    done. }
  assert (drop (S (S (length cond))) remaining = ([32%N] ++ call) ++ [32; 58]%N ++ [32%N] ++ rest) as Hd.
  { rewrite Er, app_assoc. apply drop_app_length'. rewrite length_app. cbn. lia. }
  assert (findTaskTernaryColon remaining (S (length cond)) = Some (S (S (length cond)) + S (length call) + 1)%nat) as Hcol.
  { unfold findTaskTernaryColon. rewrite Hd. cbn [app].
    change (32%N :: call ++ ?r) with ([32%N] ++ call ++ r). rewrite app_assoc.
    rewrite (find_colon_walk ([32%N] ++ call) _ 0 Plain _ 0 Plain).
    - rewrite length_app. cbn. f_equal. lia.
    - rewrite (walk_app _ [32%N] 0 Plain _ 0 Plain) by done. rewrite <- (app_nil_r call). by apply (walk_call _ schema). }
  assert (trim (slice remaining 0 (S (length cond))) = cond) as H1.
  { unfold slice. rewrite drop_0, Nat.sub_0_r, Er.
    change (cond ++ [32; 63]%N ++ ?r) with (cond ++ [32%N] ++ [63%N] ++ r). rewrite app_assoc.
    rewrite take_app_length' by (rewrite length_app; cbn; lia). by apply (trim_pad [] cond [32%N]); [|by repeat constructor|..]. }
  assert (trim (slice remaining (S (S (length cond))) (S (S (length cond)) + S (length call) + 1)) = call) as H2.
  { unfold slice. rewrite Hd. change ([32; 58]%N ++ ?r) with ([32%N] ++ [58%N] ++ r). rewrite app_assoc.
    rewrite take_app_length' by (rewrite !length_app; cbn; lia). rewrite <- app_assoc.
    by apply (trim_pad [32%N] call [32%N]); [by repeat constructor|by repeat constructor|..]. }
  assert (trim (drop (S (S (S (length cond)) + S (length call) + 1)) remaining) = rest) as H3.
  { replace remaining with ((cond ++ [32; 63]%N ++ ([32%N] ++ call) ++ [32; 58]%N) ++ [32%N] ++ rest)
      by (rewrite Er; by rewrite <- !app_assoc).
    rewrite drop_app_length' by (rewrite !length_app; cbn; lia). rewrite <- (app_nil_r rest) at 1.
    by apply (trim_pad [32%N] rest []); [by repeat constructor|..]. }
  assert (truthy remaining = true) as Htr.
  { rewrite Er. apply solid_l_truthy. by apply solid_l_app. }
  cbn [task_tiers]. rewrite Htr, Hq. cbn [negb]. rewrite Hcol. cbn [mbind option_bind].
  rewrite H1, H2, H3. unfold cond. rewrite read_task_conditions by done. cbn [mbind option_bind].
  pose proof (read_call schema nf Hnf t Ht (tt_conditions t) [] ltac:(done)) as Hcall. cbn [app] in Hcall.
  fold call in Hcall. rewrite Hcall. done.
Qed.

(** The last branch. *)
Lemma read_last f t : exact_tier t nf ->
  task_tiers (S f) schema (generateTaskTierCall t nf) = Some [read_tier nf [] t].
Proof using Hnf.
  intros Ht. destruct (call_solid nf t) as [Hkl Hkr]. cbn [task_tiers]. rewrite solid_l_truthy by done. cbn [negb].
  assert (findTaskTopLevelCharacter (generateTaskTierCall t nf) 63 = None) as ->.
  { unfold findTaskTopLevelCharacter. rewrite <- (app_nil_r (generateTaskTierCall t nf)).
    rewrite (find_top_walk 63 (generateTaskTierCall t nf) 0 0 Plain [] 0 Plain); [done|].
    rewrite <- (app_nil_r (generateTaskTierCall t nf)). by apply (walk_call _ schema). }
  pose proof (read_call schema nf Hnf t Ht [] [] ltac:(done)) as Hcall. cbn [app] in Hcall. by rewrite Hcall.
Qed.

Lemma condition_truthy cs : truthy (generateTaskCondition cs) = true -> cs <> [].
Proof. by intros H ->. Qed.

Lemma read_branches tiers txts : tiers <> [] -> branch_texts nf tiers = Some txts ->
  Forall (fun t => exact_tier t nf /\ Forall (declared_condition schema) (tt_conditions t)) tiers ->
  (solid_l (join (js " : ") txts) /\ solid_r (join (js " : ") txts)) /\
  forall f, (length tiers <= f)%nat -> task_tiers f schema (join (js " : ") txts) = Some (read_tiers nf tiers).
Proof using Hnf.
  intros Hne Htx H. revert txts Htx. induction H as [|t tiers [Ht Hcs] _ IH]; intros txts Htx; [done|].
  destruct tiers as [|t' tiers].
  - injection Htx as <-. split; [apply call_solid|]. intros f Hf. destruct f as [|f]; [cbn in Hf; lia|].
    by apply read_last.
  - cbn [branch_texts] in Htx. destruct (truthy (generateTaskCondition (tt_conditions t))) eqn:Etr; [|done]. cbn [negb] in Htx.
    pose proof (condition_truthy _ Etr) as Hcne.
    change (cons (branch_text t) <$> branch_texts nf (t' :: tiers) = Some txts) in Htx.
    destruct (branch_texts nf (t' :: tiers)) as [txts'|] eqn:Etx; [|done]. injection Htx as <-.
    destruct (IH ltac:(done) txts' eq_refl) as [[Hl Hr] IH'].
    assert (txts' <> []) as Hne' by (intros ->; by destruct Hl as (?&?&?&?)).
    rewrite join_cons by done. split.
    + split; [|by do 2 apply solid_r_app]. apply solid_l_app. unfold branch_text. apply solid_l_app.
      by apply generate_condition_solid.
    + intros f Hf. destruct f as [|f]; [cbn in Hf; lia|]. rewrite read_branch by done. rewrite IH' by (cbn in *; lia). done.
Qed.
End Branches.

(** ** A task expression is not taken for one with rules *)

(** Every opening parenthesis follows a unit that is not white space. *)
Fixpoint lead_ok (blank : bool) (s : jstring) : bool :=
  match s with
  | [] => true
  | c :: s' => negb (blank && (c =? 40)%N) && lead_ok (is_ws c) s'
  end.

Definition lead (t : jstring) : Prop := forall blank, lead_ok blank t = true.

Lemma lead_ok_app t1 : forall b t2, lead_ok b t1 = true -> lead t2 -> lead_ok b (t1 ++ t2) = true.
Proof.
  induction t1 as [|c t IH]; intros b t2 H1 H2; [apply H2|]. cbn [app lead_ok] in *.
  apply andb_true_iff in H1 as [-> H1]. by rewrite IH.
Qed.

Lemma lead_app t1 t2 : lead t1 -> lead t2 -> lead (t1 ++ t2).
Proof. intros H1 H2 b. by apply lead_ok_app. Qed.

Lemma lead_noparen t : noparen t -> lead t.
Proof.
  induction 1 as [|c t [Hc _] _ IH]; [done|]. intros b. cbn [lead_ok]. rewrite (proj2 (N.eqb_neq c 40)) by done.
  by rewrite andb_false_r, IH.
Qed.

Lemma lead_join sep ps : lead sep -> Forall lead ps -> lead (join sep ps).
Proof.
  intros Hs H. induction H as [|p ps Hp Hps IH]; [done|]. destruct ps as [|q ps]; [done|].
  rewrite join_cons by done. by repeat apply lead_app.
Qed.

Definition starts_paren (s : jstring) : Prop := exists t, trimStart s = 40%N :: t.

Lemma trimStart_snoc s c : trimStart (s ++ [c]) =
  match trimStart s with [] => if is_ws c then [] else [c] | t => t ++ [c] end.
Proof.
  unfold trimStart. induction s as [|x s IH]; cbn; [by destruct (is_ws c)|]. by destruct (is_ws x).
Qed.

(** Where parentheses only follow other text, no part of a product starts with one. *)
Lemma split_lead n : forall s d cur blank, (length s <= n)%nat ->
  lead_ok blank s = true -> (Forall (fun c => is_ws c = true) (rev cur) -> blank = true) -> ~ starts_paren (rev cur) ->
  Forall (fun p => ~ exists t, p = 40%N :: t) (split_top (js " * ") 0 d cur s).
Proof.
  assert (forall s, ~ starts_paren s -> ~ exists t, trim s = 40%N :: t) as Htrim.
  { intros s Hs (t & Ht). apply Hs. unfold trim, trimEnd in Ht. unfold starts_paren.
    destruct (trimStart_head s) as [E | (c & s' & E & Hc)]; rewrite E in Ht; [done|].
    rewrite E. cbn [rev] in Ht. unfold trimStart in Ht.
    destruct (drop_while_app_stop is_ws (rev s') c [] Hc) as [l El]. rewrite El, rev_app_distr in Ht.
    injection Ht as -> _. by exists s'. }
  induction n as [|n IH]; intros s d cur blank Hn Hl Hb Hs.
  - destruct s; [|cbn in Hn; lia]. apply Forall_singleton. by apply Htrim.
  - destruct s as [|c s]; [apply Forall_singleton; by apply Htrim|]. cbn [lead_ok] in Hl.
    apply andb_true_iff in Hl as [Hc Hl]. cbn [split_top].
    set (d' := if (c =? 41)%N then _ else _).
    destruct ((d' =? 0) && startsWith (c :: s) (js " * ")) eqn:E.
    + apply andb_true_iff in E as [_ [r Er]%startsWith_app]. change (js " * ") with [32; 42; 32]%N in Er.
      injection Er as -> ->. constructor; [by apply Htrim|].
      change (42%N :: 32%N :: r) with (js "* " ++ r). rewrite split_top_skip by done.
      apply (IH r d' [] true); [cbn in Hn; lia| |done|by intros (t & Ht)].
      cbn [lead_ok] in Hl. apply andb_true_iff in Hl as [_ Hl]. by apply andb_true_iff in Hl as [_ Hl].
    + apply (IH s d' (c :: cur) (is_ws c)); [cbn in Hn; lia|done| |].
      * cbn [rev]. intros [_ H%Forall_inv]%Forall_app. done.
      * cbn [rev]. intros (t & Ht). rewrite trimStart_snoc in Ht. destruct (trimStart (rev cur)) as [|x r] eqn:Er.
        -- destruct (is_ws c); [done|]. injection Ht as -> _.
           rewrite Hb in Hc by by apply trimStart_nil. done.
        -- injection Ht as -> _. apply Hs. by exists r.
Qed.

Lemma split_first sep s : forall n d cur, exists w xs, split_top sep n d cur s = trim (rev cur ++ w) :: xs.
Proof.
  induction s as [|c s IH]; intros n d cur; cbn [split_top]; [exists [], []; by rewrite app_nil_r|].
  destruct n as [|n]; [|by apply IH]. destruct (_ && _); [eexists [], _; by rewrite app_nil_r|].
  destruct (IH 0%nat (if (c =? 41)%N then (if (c =? 40)%N then d + 1 else d) - 1 else if (c =? 40)%N then d + 1 else d)
    (c :: cur)) as (w & xs & ->). exists (c :: w), xs. cbn [rev]. by rewrite <- app_assoc.
Qed.

(** A part that does not start with a parenthesis is no rule. *)
Lemma no_rule_part p : truthy p = true -> trim p = p -> (~ exists t, p = 40%N :: t) -> is_rule_part p = Ret false.
Proof.
  intros Hp Ht Hn. unfold is_rule_part, tryParseRequestRuleExpr. rewrite Ht, Hp. cbn [negb].
  destruct (trim_truthy_head p) as (c & l & Et & Hc); [by rewrite Ht|]. rewrite Ht in Et. subst p.
  assert (c <> 40%N) as Hc40 by (intros ->; apply Hn; by exists l).
  unfold splitTopLevelMultiply. cbn [split_top].
  assert (startsWith (c :: l) (js " * ") = false) as ->.
  { change (js " * ") with (32%N :: js "* "). cbn [startsWith]. rewrite (proj2 (N.eqb_neq 32 c)); [done|]. by intros <-. }
  rewrite andb_false_r. set (d := if (c =? 41)%N then _ else _).
  destruct (split_first (js " * ") l 0%nat d [c]) as (w & xs & ->). cbn [rev app].
  assert (exists r, trim (c :: w) = c :: r) as (r & ->).
  { unfold trim, trimEnd, trimStart. cbn [drop_while]. rewrite Hc. cbn [rev].
    destruct (drop_while_app_stop is_ws (rev w) c [] Hc) as [k ->]. rewrite rev_app_distr. by eexists. }
  cbn [List.filter truthy parse_factors]. unfold tryParseRuleGroupFactor.
  assert (fullmatch factor_re (c :: r) = None) as ->; [|done].
  unfold fullmatch, factor_re. cbn [Seqs foldr]. rewrite run_Seq. apply run_Lit_fail.
  change (js "(") with [40%N]. cbn [startsWith]. by rewrite (proj2 (N.eqb_neq 40 c)).
Qed.

Lemma split_trimmed sep s : forall n d cur, Forall (fun p => trim p = p) (split_top sep n d cur s).
Proof.
  induction s as [|c s IH]; intros n d cur; cbn [split_top]; [apply Forall_singleton, trim_idem|].
  destruct n as [|n]; [|apply IH]. destruct (_ && _); [|apply IH]. constructor; [apply trim_idem|apply IH].
Qed.

Lemma lead_not_split e : lead e -> trim e = e -> truthy e = true ->
  splitBillingExprAndRequestRules e = Ret {| billingExpr := e; requestRuleExpr := [] |}.
Proof.
  intros Hl Ht Htr. unfold splitBillingExprAndRequestRules. rewrite Ht, Htr. cbn [negb].
  destruct (length _ <=? 1)%nat; [done|].
  assert (sort_parts (splitTopLevelMultiply e) = Ret ([], splitTopLevelMultiply e)) as ->; [|done].
  assert (Forall (fun p => truthy p = true /\ trim p = p /\ ~ exists t, p = 40%N :: t) (splitTopLevelMultiply e)) as H.
  { unfold splitTopLevelMultiply.
    assert (Forall (fun p => ~ exists t, p = 40%N :: t) (split_top (js " * ") 0 0 [] e)) as H1.
    { apply (split_lead (length e) e 0 [] true); [lia|apply Hl|done|by intros (t & ?)]. }
    pose proof (split_trimmed (js " * ") e 0%nat 0 []) as H2.
    apply List.Forall_forall. intros p [Hp Hpt]%filter_In. rewrite List.Forall_forall in H1, H2.
    split; [done|]. split; [by apply H2|by apply H1]. }
  induction H as [|p ps (H1 & H2 & H3) _ IH]; [done|]. cbn [sort_parts]. rewrite no_rule_part by done.
  cbn [ebind]. by rewrite IH.
Qed.

(** ** The round trip *)

(** A name or value that the scan of the rules, which does not know quotes, passes over. *)
Definition calm_text (s : jstring) : Prop := no_parens (json_quote s) = true.

Lemma calm_lead s : calm_text s -> lead (json_quote s).
Proof. intros H. by apply lead_noparen, no_parens_noparen. Qed.

Ltac lead_literal := intros [|]; vm_compute; reflexivity.

Lemma usage_lead f : calm_text f -> lead (usage_text f).
Proof. intros H. unfold usage_text. apply lead_app; [lead_literal|]. apply lead_app; [by apply calm_lead|lead_literal]. Qed.

Section Lead.
Context (schema : BillingUsageSchema) (nf : list (jstring * BillingUsageFieldSchema)).
Hypothesis Hnames : Forall (fun f => calm_text f.1) nf.

Lemma number_lead n : exact_num n -> lead (string_of_num n).
Proof. intros [_ H]. by apply lead_noparen, numeric_noparen. Qed.

Lemma call_lead t : exact_tier t nf -> calm_text (tt_label t) -> lead (generateTaskTierCall t nf).
Proof using Hnames.
  intros [[Hc _] Hp] Hl. rewrite call_text_eq. apply lead_app; [lead_literal|]. apply lead_app; [|lead_literal].
  unfold call_inner. apply lead_app; [by apply calm_lead|]. apply lead_app; [lead_literal|]. apply lead_app; [lead_literal|].
  apply lead_join; [lead_literal|]. apply Forall_app. split.
  - destruct (num_ltb _ _); [|done]. by apply Forall_singleton, number_lead.
  - apply Forall_map, Forall_forall. intros f Hf. rewrite Forall_forall in Hnames, Hp.
    destruct (Hp f Hf) as [Hn _]. unfold term_text.
    assert (lead (usage_text f.1 ++ js " * " ++ string_of_num (price_of (tt_unitPrices t) f.1))) as H.
    { apply lead_app; [by apply usage_lead, Hnames|]. apply lead_app; [lead_literal|by apply number_lead]. }
    destruct (bool_decide _); [|done]. apply lead_app; [done|]. apply lead_app; lead_literal.
Qed.

Lemma branches_lead tiers txts : branch_texts nf tiers = Some txts ->
  Forall (fun t => exact_tier t nf /\ calm_text (tt_label t) /\
    Forall (fun c => calm_text (tc_field c) /\ calm_text (tc_value c)) (tt_conditions t)) tiers ->
  lead (join (js " : ") txts) /\ (length tiers <= length (join (js " : ") txts))%nat.
Proof using Hnames.
  intros Htx H. cut (Forall lead txts /\ (length tiers <= length (join (js " : ") txts))%nat).
  { intros [H1 H2]. split; [|done]. apply lead_join; [lead_literal|done]. }
  revert txts Htx. induction H as [|t tiers (Ht & Hl & Hcs) _ IH]; intros txts Htx; [cbn in Htx; injection Htx as <-; split; [apply Forall_nil_2|cbn; lia]|].
  pose proof (call_lead t Ht Hl) as Hcall. destruct tiers as [|t' tiers].
  - injection Htx as <-. split; [by apply Forall_singleton|]. cbn [join length].
    destruct (call_solid nf t) as [(c & r & -> & _) _]. cbn. lia.
  - cbn [branch_texts] in Htx. destruct (truthy (generateTaskCondition (tt_conditions t))); [|done]. cbn [negb] in Htx.
    change (cons (generateTaskCondition (tt_conditions t) ++ js " ? " ++ generateTaskTierCall t nf) <$>
      branch_texts nf (t' :: tiers) = Some txts) in Htx.
    destruct (branch_texts nf (t' :: tiers)) as [txts'|] eqn:Etx; [|done]. apply (inj Some) in Htx. subst txts.
    destruct (IH txts' eq_refl) as [IH1 IH2]. split.
    + constructor; [|done]. apply lead_app.
      * unfold generateTaskCondition. apply lead_join; [lead_literal|]. apply Forall_map.
        eapply Forall_impl; [exact Hcs|]. intros c [Hf Hv]. unfold condition_text.
        apply lead_app; [by apply usage_lead|]. apply lead_app; [lead_literal|by apply calm_lead].
      * apply lead_app; [lead_literal|done].
    + destruct txts' as [|x txts']; [cbn in IH2; lia|]. rewrite join_cons by done. rewrite !length_app.
      change (length (js " : ")) with 3%nat. cbn [length] in *. lia.
Qed.
End Lead.

Section RoundTrip.
Context (localeCompare : jstring -> jstring -> Z).
Let numbers (schema : BillingUsageSchema) := getTaskNumberFields localeCompare (Some schema).

Lemma assoc_In {A} (k : jstring) (l : list (jstring * A)) v : NoDup (map fst l) -> In (k, v) l -> assoc k l = Some v.
Proof.
  induction l as [|[k' v'] l IH]; [done|]. cbn [map assoc fst]. intros [Hk Hnd]%NoDup_cons [[= -> ->] | Hin].
  - by rewrite jeqb_refl.
  - destruct (jeqb k' k) eqn:E; [|auto]. apply jeqb_eq in E as ->. exfalso. apply Hk.
    apply list_elem_of_fmap. exists (k, v). split; [done|]. by apply list_elem_of_In.
Qed.

Lemma assoc_Some_In {A} (k : jstring) (l : list (jstring * A)) v : assoc k l = Some v -> In (k, v) l.
Proof.
  induction l as [|[k' v'] l IH]; [done|]. cbn [assoc]. destruct (jeqb k' k) eqn:E; [|by right; auto].
  apply jeqb_eq in E as ->. intros [= ->]. by left.
Qed.

Lemma by_name_perm {A} (l : list (jstring * A)) : by_name localeCompare l ≡ₚ l.
Proof. apply js_sort_perm. Qed.

Lemma NoDup_fst_filter {A} (p : jstring * A -> bool) (l : list (jstring * A)) :
  NoDup (map fst l) -> NoDup (map fst (List.filter p l)).
Proof.
  induction l as [|x l IH]; [done|]. cbn [map]. intros [Hx Hl]%NoDup_cons. cbn [List.filter].
  destruct (p x); [|auto]. cbn [map]. constructor; [|auto]. intros H. apply Hx.
  apply list_elem_of_fmap in H as (y & -> & Hy). apply list_elem_of_fmap. exists y. split; [done|].
  apply list_elem_of_In in Hy. apply filter_In in Hy as [Hy _]. by apply list_elem_of_In.
Qed.

(** The schema can be written: its names are distinct, quiet and no inherited members. *)
Definition writable_schema (schema : BillingUsageSchema) : Prop :=
  NoDup (map fst schema) /\
  Forall (fun f => calm_text f.1 /\ (f.1 ∉ inheritedMembers) /\ Forall calm_text (declared f.2)) schema.

Lemma numbers_In schema f : In f (numbers schema) <->
  In f schema /\ type_ f.2 = Some type_number /\ unit_ f.2 <> None.
Proof.
  unfold numbers, getTaskNumberFields. rewrite <- list_elem_of_In, by_name_perm, list_elem_of_In, filter_In.
  rewrite andb_true_iff, negb_true_iff, bool_decide_eq_true, bool_decide_eq_false. done.
Qed.

Lemma writable_fields schema : writable_schema schema -> numbers schema <> [] -> fields_of schema (numbers schema).
Proof.
  intros [Hnd Hall] Hne. split; [done|]. split.
  - unfold numbers, getTaskNumberFields. rewrite by_name_perm. by apply NoDup_fst_filter.
  - apply List.Forall_forall. intros [f d] Hf. apply numbers_In in Hf as (Hin & Ht & Hu). cbn [fst snd] in *.
    split; [by apply assoc_In|]. split; [done|]. rewrite List.Forall_forall in Hall. by apply (Hall _ Hin).
Qed.

(** The tiers of a configuration with the last one unconditional. *)
Fixpoint last_unconditional (tiers : list TaskVisualTier) : list TaskVisualTier :=
  match tiers with
  | [] => []
  | [t] => [{| tt_label := tt_label t; tt_conditions := []; tt_constant := tt_constant t; tt_unitPrices := tt_unitPrices t |}]
  | t :: tiers' => t :: last_unconditional tiers'
  end.

(** What normalization makes of a tier. *)
Definition normal_tier (schema : BillingUsageSchema) (t : TaskVisualTier) : Prop :=
  truthy (tt_label t) = true /\ usable (tt_constant t) = true /\
  map fst (tt_unitPrices t) = map fst (numbers schema) /\
  Forall (fun fp => usable fp.2 = true) (tt_unitPrices t) /\
  Forall (fun c => match assoc (tc_field c) (getTaskEnumFields localeCompare (Some schema)) with
                   | Some d => tc_value c ∈ declared d | None => False end) (tt_conditions t).

Lemma normal_number_usable n : usable (normal_number n) = true.
Proof. unfold normal_number. by destruct (usable n) eqn:E. Qed.

Lemma normal_number_id n : usable n = true -> normal_number n = n.
Proof. unfold normal_number. by intros ->. Qed.

Lemma normalize_tier_normal schema i t : normal_tier schema (normalize_tier localeCompare schema i t).
Proof.
  unfold normalize_tier. split; [|split; [apply normal_number_usable|split; [|split]]]; cbn.
  - destruct (truthy (tt_label t)) eqn:E; [done|]. by destruct (i =? 0)%nat.
  - by rewrite map_map.
  - apply Forall_map, Forall_true. intros f. apply normal_number_usable.
  - apply List.Forall_forall. intros c [_ Hc]%filter_In. destruct (assoc _ _) as [d|]; [|done].
    by apply bool_decide_eq_true in Hc.
Qed.

Lemma normalize_normal schema config :
  Forall (normal_tier schema) (normalizeTaskVisualConfig localeCompare config schema) /\
  normalizeTaskVisualConfig localeCompare config schema <> [].
Proof.
  unfold normalizeTaskVisualConfig. destruct config as [[|t tiers]|].
  1, 3: split; [|done]; apply Forall_singleton; split; [done|]; split; [done|]; split; [by cbn; unfold zero_prices; rewrite map_map|];
    split; [by apply Forall_map, Forall_true|done].
  split; [|done]. generalize (t :: tiers). clear. intros l. apply Forall_forall. intros x Hx.
  apply elem_of_lookup_imap in Hx as (i & y & -> & _). apply normalize_tier_normal.
Qed.

(** Reading the prices of the fields gives the prices back. *)
Lemma prices_for_normal schema (prices : list (jstring * jsnum)) : NoDup (map fst (numbers schema)) ->
  map fst prices = map fst (numbers schema) -> prices_for (numbers schema) prices = prices.
Proof.
  intros Hnd E. unfold prices_for. rewrite <- (map_map fst (fun k => (k, price_of prices k))), <- E.
  rewrite <- E in Hnd. rewrite map_map. rewrite <- (map_id prices) at 2. apply map_ext_Forall, List.Forall_forall.
  intros [k v] Hin. cbn [fst]. unfold price_of. by rewrite (In_mget prices k v).
Qed.

Lemma normal_tier_fixed schema i t : NoDup (map fst (numbers schema)) -> normal_tier schema t ->
  normalize_tier localeCompare schema i t = t.
Proof.
  intros Hnd (Hl & Hc & Hp & Hu & Hcs). destruct t as [l cs c ps]. unfold normalize_tier. cbn in *.
  rewrite Hl, normal_number_id by done. f_equal.
  - apply Forall_true_filter. eapply Forall_impl; [exact Hcs|]. cbn. intros x. destruct (assoc _ _); [|done].
    by rewrite bool_decide_eq_true.
  - etransitivity; [|by apply (prices_for_normal schema ps)]. unfold prices_for.
    apply map_ext_Forall, List.Forall_forall. intros [f d] Hf. cbn [fst].
    assert (f ∈ map fst ps) as Hin.
    { rewrite Hp. apply list_elem_of_fmap. exists (f, d). split; [done|]. by apply list_elem_of_In. }
    apply list_elem_of_fmap in Hin as ([f' v] & -> & Hin). apply list_elem_of_In in Hin. cbn [fst].
    unfold price_of. rewrite (In_mget ps f' v); [|by rewrite Hp|done]. cbn. f_equal. apply normal_number_id.
    rewrite List.Forall_forall in Hu. by apply (Hu _ Hin).
Qed.

Lemma normal_tier_written schema t : writable_schema schema -> numbers schema <> [] -> normal_tier schema t ->
  calm_text (tt_label t) -> exact_num (tt_constant t) -> Forall (fun fp => exact_num fp.2) (tt_unitPrices t) ->
  exact_tier t (numbers schema) /\ calm_text (tt_label t) /\
  Forall (fun c => calm_text (tc_field c) /\ calm_text (tc_value c)) (tt_conditions t) /\
  Forall (declared_condition schema) (tt_conditions t).
Proof.
  intros Hs Hnn (_ & Hc & Hp & Hu & Hcs) Hl Hce Hpe. destruct (writable_fields schema Hs Hnn) as (_ & Hnd & _).
  destruct Hs as [Hnds Hs]. rewrite List.Forall_forall in Hs.
  assert (forall c, c ∈ tt_conditions t -> exists d, In (tc_field c, d) schema /\ tc_value c ∈ declared d) as Hfound.
  { intros c Hin. rewrite Forall_forall in Hcs. specialize (Hcs c Hin).
    destruct (assoc _ _) as [d|] eqn:E; [|done]. exists d. split; [|done]. apply assoc_Some_In in E.
    unfold getTaskEnumFields in E. rewrite <- list_elem_of_In, by_name_perm, list_elem_of_In in E.
    by apply filter_In in E as [E _]. }
  split_and!; [|done|..].
  - split; [done|]. apply List.Forall_forall. intros [f d] Hf. cbn [fst].
    assert (f ∈ map fst (tt_unitPrices t)) as Hin.
    { rewrite Hp. apply list_elem_of_fmap. exists (f, d). split; [done|]. by apply list_elem_of_In. }
    apply list_elem_of_fmap in Hin as ([f' v] & -> & Hin). cbn [fst].
    unfold price_of. rewrite (In_mget _ f' v); [|by rewrite Hp|by apply list_elem_of_In].
    rewrite Forall_forall in Hu, Hpe. split; [by apply (Hpe _ Hin)|by apply (Hu _ Hin)].
  - apply Forall_forall. intros c Hin. destruct (Hfound c Hin) as (d & Hd & Hv).
    destruct (Hs _ Hd) as (? & _ & Hvs). cbn [fst snd] in *. rewrite Forall_forall in Hvs. auto.
  - apply Forall_forall. intros c Hin. destruct (Hfound c Hin) as (d & Hd & Hv).
    unfold declared_condition. rewrite (assoc_In _ _ d) by done. cbn [mbind option_bind]. unfold declared in Hv.
    destruct (enum_ d) as [vs|]; [by exists vs|]. by apply elem_of_nil in Hv.
Qed.

Lemma written_branches schema config : numbers schema <> [] ->
  let tiers := normalizeTaskVisualConfig localeCompare config schema in
  generateTaskExprFromConfig localeCompare config schema <> [] ->
  exists txts, branch_texts (numbers schema) tiers = Some txts /\
    generateTaskExprFromConfig localeCompare config schema = join (js " : ") txts.
Proof.
  intros Hnn tiers Hne. unfold generateTaskExprFromConfig in *. fold (numbers schema) in *. fold tiers in Hne |- *.
  destruct (numbers schema) as [|f0 nf]; [done|].
  destruct tiers as [|t [|t' l]]; [done|by eexists|].
  destruct (branch_texts (f0 :: nf) (t :: t' :: l)) as [txts|]; [by exists txts|done].
Qed.

(** The text starts with a call or a condition, and no version. *)
Lemma strip_version_none nf tiers txts : branch_texts nf tiers = Some txts ->
  stripExprVersion (join (js " : ") txts) = (Fin 1, join (js " : ") txts).
Proof.
  intros Htx. unfold stripExprVersion. destruct (truthy _) eqn:Etr; cbn [negb]; [|by apply truthy_false in Etr as ->].
  assert (fullmatch (Seqs [Lit (js "v"); Grp 1 (Plus (Chr is_digit)); Lit (js ":"); Grp 2 (Star (Chr anything))])
    (join (js " : ") txts) = None) as ->; [|done].
  unfold fullmatch. cbn [Seqs foldr]. rewrite run_Seq. apply run_Lit_fail.
  destruct tiers as [|t [|t' l]]; [by injection Htx as <-|by injection Htx as <-|].
  cbn [branch_texts] in Htx. destruct (tt_conditions t) as [|c cs]; [done|].
  destruct (truthy _); [|done]. cbn [negb] in Htx.
  match type of Htx with cons ?x <$> ?y = _ => set (first := x) in *; destruct y as [txts'|]; [|done] end.
  apply (inj Some) in Htx. subst txts.
  assert (exists r, first = 117%N :: r) as (r & E).
  { unfold first, generateTaskCondition. cbn [map]. destruct cs; cbn [join map]; by eexists. }
  rewrite E. by destruct txts'.
Qed.

Lemma last_unconditional_normal schema tiers : Forall (normal_tier schema) tiers ->
  Forall (normal_tier schema) (last_unconditional tiers).
Proof.
  induction 1 as [|t l Ht Hl IH]; [done|]. destruct l as [|t' l].
  - apply Forall_singleton. destruct Ht as (? & ? & ? & ? & _). by split_and!.
  - by constructor.
Qed.

Lemma imap_fixed {A} (f : nat -> A -> A) l : Forall (fun x => forall i, f i x = x) l -> imap f l = l.
Proof.
  intros Hl. revert f Hl. induction l as [|x l IH]; intros f Hl; [done|].
  rewrite imap_cons. apply Forall_cons in Hl as [Hx Hl]. f_equal; [auto|]. apply IH.
  eapply Forall_impl; [exact Hl|]. intros y Hy i. apply Hy.
Qed.

(** The tiers that are read are the ones that were written, the last without its condition. *)
Lemma written_tiers_read schema config :
  let tiers := normalizeTaskVisualConfig localeCompare config schema in
  let e := generateTaskExprFromConfig localeCompare config schema in
  writable_schema schema -> e <> [] ->
  Forall (fun t => calm_text (tt_label t) /\ exact_num (tt_constant t) /\
    Forall (fun fp => exact_num fp.2) (tt_unitPrices t)) tiers ->
  parseTaskTiersFromExpr e (Some schema) = last_unconditional tiers.
Proof.
  intros tiers e Hs Hne Hall.
  destruct (normalize_normal schema config) as [Hnorm Htne]. fold tiers in Hnorm, Htne.
  assert (numbers schema <> []) as Hnn.
  { intros E. apply Hne. unfold e, generateTaskExprFromConfig. unfold numbers in E. by rewrite E. }
  pose proof (writable_fields schema Hs Hnn) as Hnf. pose proof Hnf as (_ & Hnd & _).
  destruct (written_branches schema config Hnn Hne) as (txts & Htx & Ee). fold tiers in Htx. fold e in Ee.
  assert (Forall (fun t => exact_tier t (numbers schema) /\ calm_text (tt_label t) /\
    Forall (fun c => calm_text (tc_field c) /\ calm_text (tc_value c)) (tt_conditions t) /\
    Forall (declared_condition schema) (tt_conditions t)) tiers) as Htiers.
  { apply Forall_forall. intros t Hin. rewrite Forall_forall in Hall, Hnorm.
    destruct (Hall t Hin) as (? & ? & ?). apply normal_tier_written; [done|done|by apply Hnorm|done..]. }
  destruct (read_branches schema (numbers schema) Hnf tiers txts Htne Htx) as [[Hl Hr] Hread].
  { eapply Forall_impl; [exact Htiers|]. intros t (H1 & H2 & H3 & H4). by split_and?. }
  destruct (branches_lead (numbers schema)) with (tiers := tiers) (txts := txts) as [Hlead Hlen].
  { apply List.Forall_forall. intros f Hf. apply numbers_In in Hf as (Hin & _). destruct Hs as [_ Hs].
    rewrite List.Forall_forall in Hs. by apply (Hs _ Hin). }
  { done. }
  { eapply Forall_impl; [exact Htiers|]. intros t (H1 & H2 & H3 & H4). by split_and?. }
  rewrite <- Ee in Hl, Hr, Hread, Hlead, Hlen.
  assert (parseTaskTiersFromExpr e (Some schema) = read_tiers (numbers schema) tiers) as Hp.
  { unfold parseTaskTiersFromExpr. destruct schema as [|f0 schema']; [done|]. rewrite solid_l_truthy by done. cbn [negb].
    rewrite lead_not_split; [|done|by apply trim_solid|by apply solid_l_truthy]. cbn [billingExpr].
    rewrite Ee, (strip_version_none _ _ txts Htx), <- Ee. cbn [snd]. rewrite trim_solid, solid_l_truthy by done. cbn [negb].
    rewrite Hread by lia. done. }
  assert (read_tiers (numbers schema) tiers = last_unconditional tiers) as Hlast.
  { clear -Hnorm Hnd. induction Hnorm as [|t l (_ & _ & Hps & _) _ IH]; [done|].
    destruct l as [|t' l]; cbn [read_tiers last_unconditional]; unfold read_tier at 1; rewrite prices_for_normal by done; [done|].
    f_equal; [by destruct t|done]. }
  by rewrite Hp.
Qed.

(** C19. The text that is written for a configuration of task prices is read back as the same
    tiers, the last of them without a condition, for every schema and configuration whose names
    have no parentheses and whose numbers print exactly: labels, conditions, constants, and the
    price of every number field.  No number field is named as a member every object inherits
    (constructor, toString, ...), which a lookup by name would find ([writable_schema]). *)
Theorem task_prices_read_back schema config :
  let tiers := normalizeTaskVisualConfig localeCompare config schema in
  let e := generateTaskExprFromConfig localeCompare config schema in
  writable_schema schema -> e <> [] ->
  Forall (fun t => calm_text (tt_label t) /\ exact_num (tt_constant t) /\
    Forall (fun fp => exact_num fp.2) (tt_unitPrices t)) tiers ->
  tryParseTaskVisualConfig localeCompare (Some e) schema = Some (last_unconditional tiers).
Proof.
  intros tiers e Hs Hne Hall. unfold tryParseTaskVisualConfig.
  pose proof (written_tiers_read schema config Hs Hne Hall) as Hp. cbn zeta in Hp. fold tiers e in Hp.
  destruct (normalize_normal schema config) as [Hnorm Htne]. fold tiers in Hnorm, Htne.
  rewrite Hp. destruct e as [|c0 e']; [done|].
  assert (last_unconditional tiers <> []) as Hln by (destruct tiers as [|? [|]]; done).
  assert (NoDup (map fst (numbers schema))) as Hnd.
  { unfold numbers, getTaskNumberFields. rewrite by_name_perm. apply NoDup_fst_filter, Hs. }
  transitivity (Some (normalizeTaskVisualConfig localeCompare (Some (last_unconditional tiers)) schema)).
  { by destruct (last_unconditional tiers). }
  f_equal. unfold normalizeTaskVisualConfig. destruct (last_unconditional tiers) as [|t0 l0] eqn:El; [done|].
  rewrite <- El. apply imap_fixed. eapply Forall_impl; [apply last_unconditional_normal, Hnorm|].
  intros t Ht i. by apply normal_tier_fixed.
Qed.
End RoundTrip.

(** ** A concrete schema *)

(** Characters are compared by their code units. *)
Fixpoint units_compare (a b : jstring) : Z :=
  match a, b with
  | [], [] => 0
  | [], _ => -1
  | _, [] => 1
  | x :: a', y :: b' => if (x =? y)%N then units_compare a' b' else if (x <? y)%N then -1 else 1
  end.

Definition video_schema : BillingUsageSchema :=
  [(js "tokens", {| type_ := Some type_number; unit_ := Some token; enum_ := None |});
   (js "resolution", {| type_ := None; unit_ := None; enum_ := Some [js "720p"; js "1080p"] |});
   (js "seconds", {| type_ := Some type_number; unit_ := Some second; enum_ := None |})].

Definition video_config : TaskVisualConfig :=
  [{| tt_label := js "sharp"; tt_conditions := [{| tc_field := js "resolution"; tc_value := js "1080p" |}];
      tt_constant := Fin (1 # 2); tt_unitPrices := [(js "seconds", Number (js "0.25")); (js "tokens", Fin 3)] |};
   {| tt_label := []; tt_conditions := [{| tc_field := js "resolution"; tc_value := js "8k" |}];
      tt_constant := NaN; tt_unitPrices := [(js "seconds", Fin (-1))] |}].

Lemma task_prices_read_back_witness :
  tryParseTaskVisualConfig units_compare (Some (generateTaskExprFromConfig units_compare (Some video_config) video_schema))
    video_schema = Some (last_unconditional (normalizeTaskVisualConfig units_compare (Some video_config) video_schema)).
Proof.
  apply (task_prices_read_back units_compare video_schema (Some video_config)).
  - split; [apply (bool_decide_unpack _); vm_compute; exact I|].
    repeat constructor; try (by vm_compute); apply (bool_decide_unpack _); vm_compute; exact I.
  - by vm_compute.
  - repeat constructor; by vm_compute.
Defined.
