(* ===== verification/TaskMatrix.v ===== *)
(** * The matrix of task prices

    features/pricing/lib/task-expr.ts: the editor shows one row of prices per combination of
    options; the rows are turned into tiers, the tiers into text, and the text is read when the
    editor opens.  [matrix_read_back] joins the three steps. *)

From S2P Require Import Prelude JsValue JsText Regex RequestRules RequestRulesText BillingTiers TaskExpr TaskExprText.

(** ** Quoted texts in a row *)

Lemma json_quote_prefix a b r1 r2 : json_quote a ++ r1 = json_quote b ++ r2 -> a = b /\ r1 = r2.
Proof.
  unfold json_quote. cbn [app]. intros [= E]. rewrite <- !app_assoc in E.
  apply (f_equal parse_units) in E. rewrite !quote_units_reads in E. cbn in E. rewrite !app_nil_r in E.
  by injection E.
Qed.

Lemma quoted_list_inj (l1 l2 : list jstring) : length l1 = length l2 ->
  join (js ",") (map json_quote l1) = join (js ",") (map json_quote l2) -> l1 = l2.
Proof.
  revert l2. induction l1 as [|a l1 IH]; intros [|b l2] Hlen; [done..|].
  injection Hlen as Hlen. destruct l1 as [|a' l1], l2 as [|b' l2]; try done.
  - cbn [map join]. intros E. rewrite <- (app_nil_r (json_quote a)), <- (app_nil_r (json_quote b)) in E.
    by apply json_quote_prefix in E as [-> _].
  - cbn [map]. rewrite !join_cons by done. intros [-> E]%json_quote_prefix. apply app_inv_head in E.
    f_equal. by apply IH.
Qed.

(** A number that is read from its text is determined by its value. *)
Definition reduced (x : jsnum) : Prop := match x with Fin q => Qred q = q | _ => True end.

Lemma num_opp_reduced x : reduced x -> reduced (num_opp x).
Proof. destruct x as [|b|q]; [done..|]. cbn. intros H. by rewrite Qred_opp, H. Qed.

Lemma integer_reduced z : Qred (z # 1) = z # 1.
Proof.
  unfold Qred. pose proof (Z.ggcd_correct_divisors z 1) as H. pose proof (Z.ggcd_gcd z 1) as Hg.
  destruct (Z.ggcd z 1) as [g [p q]]. cbn in *. rewrite Z.gcd_1_r in Hg. subst g. destruct H as [H1 H2].
  rewrite Z.mul_1_l in H1, H2. by subst.
Qed.

Lemma round_ratio_reduced n d : reduced (round_ratio n d).
Proof.
  unfold round_ratio. destruct (n =? 0); [done|]. cbv zeta. destruct (_ <=? _); [done|].
  destruct (0 <=? _); [apply integer_reduced|]. cbn [reduced]. apply Qred_complete, Qred_correct.
Qed.

Lemma Number_reduced s : reduced (Number s).
Proof.
  unfold Number. destruct (trim s); [done|]. cbv zeta.
  assert (forall base t, reduced (match based base t with Some z => round_ratio z 1 | None => NaN end)) as Hb.
  { intros base t. destruct (based base t); [apply round_ratio_reduced|done]. }
  destruct (_ || _); [apply Hb|]. destruct (_ || _); [apply Hb|]. destruct (_ || _); [apply Hb|].
  destruct (sign_of _) as [neg u].
  assert (reduced (if jeqb u (js "Infinity") then Infinity false
    else match decimal u with Some (m, e) => round_dec m e | None => NaN end)) as Hv.
  { destruct (jeqb _ _); [done|]. destruct (decimal u) as [[m e]|]; [apply round_ratio_reduced|done]. }
  destruct neg; [by apply num_opp_reduced|done].
Qed.

Lemma exact_eqb a b : exact_num a -> exact_num b -> num_eqb a b = true -> a = b.
Proof.
  intros [Ha _] [Hb _] H. pose proof (Number_reduced (string_of_num a)) as Ra.
  pose proof (Number_reduced (string_of_num b)) as Rb. rewrite Ha in Ra. rewrite Hb in Rb.
  destruct a as [|s|p], b as [|t|q]; try done.
  - cbn in H. by apply Bool.eqb_prop in H as ->.
  - cbn in *. apply Qeq_bool_iff in H. rewrite <- Ra, <- Rb. f_equal. by apply Qred_complete.
Qed.

(** ** Combinations *)

(** The combination has one declared value for each field, in the order of the fields. *)
Definition combination_of (fields : list (jstring * BillingUsageFieldSchema)) (c : list (jstring * jstring)) : Prop :=
  Forall2 (fun f fv => fv.1 = f.1 /\ fv.2 ∈ declared f.2) fields c.

Lemma combination_names fields c : combination_of fields c -> map fst c = map fst fields.
Proof. induction 1 as [|f fv fields c [E _] _ IH]; [done|]. cbn. by rewrite E, IH. Qed.

Lemma flat_map_bind {A B} (f : A -> list B) l : flat_map f l = l ≫= f.
Proof. induction l as [|x l IH]; [done|]. cbn [flat_map]. by rewrite IH. Qed.

Lemma extend_combination before c f : NoDup (map fst (before ++ [f])) -> combination_of before c ->
  forall v, mset c f.1 v = c ++ [(f.1, v)].
Proof.
  intros Hnd Hc v. apply mset_new, mget_None. rewrite (combination_names _ _ Hc).
  rewrite map_app in Hnd. apply NoDup_app in Hnd as (_ & Hnd & _). intros Hin. apply (Hnd _ Hin). by left.
Qed.

Lemma combinations_from fields : forall before acc,
  NoDup (map fst (before ++ fields)) -> Forall (fun f => NoDup (declared f.2) /\ declared f.2 <> []) fields ->
  Forall (combination_of before) acc -> NoDup acc -> acc <> [] ->
  let all := foldl extend_combinations acc fields in
  Forall (combination_of (before ++ fields)) all /\ NoDup all /\ all <> [].
Proof.
  induction fields as [|f fields IH]; intros before acc Hnd Hf Hacc Hnda Hne; [by rewrite app_nil_r|].
  apply Forall_cons in Hf as [[Hndf Hfne] Hf]. cbn [foldl].
  assert (NoDup (map fst (before ++ [f]))) as Hndb.
  { rewrite (cons_middle f before fields), app_assoc, map_app in Hnd. by apply NoDup_app in Hnd as (? & _). }
  assert (forall c, c ∈ acc -> forall v, mset c f.1 v = c ++ [(f.1, v)]) as Hset.
  { intros c Hc v. rewrite Forall_forall in Hacc. by apply (extend_combination before), Hacc. }
  assert (forall c c', c' ∈ map (fun v => mset c f.1 v) (declared f.2) <-> exists v, c' = mset c f.1 v /\ v ∈ declared f.2) as Hmap.
  { intros c c'. apply list_elem_of_fmap. }
  rewrite (cons_middle f before fields), app_assoc. apply IH; [by rewrite <- app_assoc|done|..].
  - apply Forall_forall. intros c'. unfold extend_combinations. rewrite flat_map_bind, list_elem_of_bind.
    intros (c & Hc' & Hc). apply Hmap in Hc' as (v & -> & Hv). rewrite Hset by done.
    apply Forall2_app; [by rewrite Forall_forall in Hacc; apply Hacc|]. by constructor.
  - unfold extend_combinations. rewrite flat_map_bind. apply NoDup_bind; [|intros c Hc|done].
    + intros c1 c2 y H1 H2 (v1 & -> & _)%Hmap (v2 & E & _)%Hmap. rewrite !Hset in E by done.
      by apply app_inj_tail in E as [-> _].
    + apply NoDup_fmap_2_strong; [|done]. intros v1 v2 _ _. rewrite !Hset by done.
      intros [_ [= ->]]%app_inj_tail. done.
  - destruct acc as [|c acc]; [done|]. unfold extend_combinations. cbn [flat_map].
    destruct (declared f.2) as [|v vs]; [done|]. done.
Qed.

Lemma key_inj fields c1 c2 : NoDup (map fst fields) -> combination_of fields c1 -> combination_of fields c2 ->
  taskMatrixCombinationKey c1 fields = taskMatrixCombinationKey c2 fields -> c1 = c2.
Proof.
  intros Hnd H1 H2.
  assert (forall c, combination_of fields c ->
    map (fun f => match mget c f.1 with Some v => json_quote v | None => js "null" end) fields = map json_quote (map snd c)) as Hk.
  { intros c Hc. pose proof (combination_names _ _ Hc) as En. rewrite <- En in Hnd. clear H1 H2.
    transitivity (map (fun k => match mget c k with Some v => json_quote v | None => js "null" end) (map fst fields)).
    { by rewrite map_map. }
    rewrite <- En, !map_map. apply map_ext_Forall, List.Forall_forall. intros [k v] Hin. cbn [fst snd].
    by rewrite (In_mget c k v). }
  unfold taskMatrixCombinationKey. rewrite (Hk c1), (Hk c2) by done. intros E%app_inv_head%app_inv_tail.
  apply quoted_list_inj in E.
  - apply combination_names in H1. apply combination_names in H2. rewrite <- H2 in H1. clear -E H1.
    revert c2 E H1. induction c1 as [|[k v] c1 IH]; intros [|[k' v'] c2]; try done. cbn.
    intros [= -> E1] [= -> E2]. f_equal. by apply IH.
  - rewrite !length_map. by rewrite <- (Forall2_length _ _ _ H1), <- (Forall2_length _ _ _ H2).
Qed.

(** ** Tiers back to rows *)

Section Rows.
Context (localeCompare : jstring -> jstring -> Z) (schema : BillingUsageSchema).
Hypothesis Hschema : NoDup (map fst schema).
Hypothesis Hvalues : Forall (fun f => NoDup (declared f.2)) schema.
Let numberFields := getTaskNumberFields localeCompare (Some schema).
Let enumFields := getTaskEnumFields localeCompare (Some schema).
Let combinations := getTaskEnumCombinations localeCompare (Some schema).
Let keyed (c : list (jstring * jstring)) := taskMatrixCombinationKey c enumFields.

Lemma enum_names : NoDup (map fst enumFields).
Proof using Hschema. unfold enumFields, getTaskEnumFields. rewrite by_name_perm. by apply NoDup_fst_filter. Qed.

Lemma enumFields_In f : f ∈ enumFields <-> f ∈ schema /\ declared f.2 <> [].
Proof.
  unfold enumFields, getTaskEnumFields. rewrite by_name_perm, !list_elem_of_In, filter_In, negb_true_iff.
  by rewrite bool_decide_eq_false.
Qed.

Lemma combinations_ok : Forall (combination_of enumFields) combinations /\ NoDup combinations /\ combinations <> [].
Proof using Hschema Hvalues.
  apply (combinations_from enumFields [] [[]]).
  - apply enum_names.
  - apply Forall_forall. intros f [Hf Hne]%enumFields_In. rewrite Forall_forall in Hvalues. by split; [apply Hvalues|].
  - apply Forall_singleton. constructor.
  - apply NoDup_singleton.
  - done.
Qed.

Lemma conditions_read (l values : list (jstring * jstring)) : NoDup (map fst (values ++ l)) ->
  Forall (fun fv => exists d vs, assoc fv.1 schema = Some d /\ enum_ d = Some vs /\ fv.2 ∈ vs) l ->
  condition_values schema values (map (fun fv => {| tc_field := fv.1; tc_value := fv.2 |}) l) = Some (values ++ l).
Proof.
  revert values. induction l as [|[f v] l IH]; intros values Hnd Hl; [by rewrite app_nil_r|].
  apply Forall_cons in Hl as [(d & vs & Hd & Hvs & Hin) Hl]. cbn [map condition_values tc_field tc_value fst snd] in *.
  assert (mget values f = None) as Hn.
  { apply mget_None. rewrite map_app in Hnd. apply NoDup_app in Hnd as (_ & Hnd & _). intros H. apply (Hnd f H). by left. }
  rewrite Hn, Hd. cbn [mbind option_bind]. rewrite Hvs, bool_decide_eq_true_2 by done.
  rewrite mset_new by done. rewrite IH; [by rewrite <- app_assoc|by rewrite <- app_assoc|done].
Qed.

(** The conditions of a combination give its values back. *)
Lemma combination_conditions c : combination_of enumFields c ->
  exists values, condition_values schema [] (conditions_of localeCompare c) = Some values /\
    length values = length enumFields /\ map (fun f => (f.1, coalesce (mget values f.1) [])) enumFields = c.
Proof using Hschema.
  intros Hc. pose proof (combination_names _ _ Hc) as En. pose proof enum_names as Hnd. rewrite <- En in Hnd.
  pose proof (by_name_perm localeCompare c) as Hperm. exists (by_name localeCompare c). split; [|split].
  - apply (conditions_read (by_name localeCompare c) []).
    + cbn. by rewrite Hperm.
    + rewrite Hperm. apply Forall_forall. intros fv Hfv. apply list_elem_of_lookup in Hfv as [i Hi].
      destruct (Forall2_lookup_r _ _ _ _ _ Hc Hi) as (f & Hf & E & Hv).
      apply list_elem_of_lookup_2, enumFields_In in Hf as [Hf Hne]. exists f.2, (declared f.2).
      rewrite E. split; [apply assoc_In; [done|]; rewrite <- surjective_pairing; by apply list_elem_of_In|].
      split; [|done]. unfold declared in *. by destruct (enum_ f.2).
  - rewrite Hperm. by rewrite (Forall2_length _ _ _ Hc).
  - assert (forall k v, In (k, v) c -> mget (by_name localeCompare c) k = Some v) as Hget.
    { intros k v Hin. apply In_mget; [by rewrite Hperm|]. apply list_elem_of_In. rewrite Hperm. by apply list_elem_of_In. }
    transitivity (map (fun k => (k, coalesce (mget (by_name localeCompare c) k) [])) (map fst enumFields)); [by rewrite map_map|].
    rewrite <- En, map_map. rewrite <- (map_id c) at 2. apply map_ext_Forall, List.Forall_forall.
    intros [k v] Hin. cbn [fst]. by rewrite (Hget k v).
Qed.

(** The tier has the prices of the row. *)
Definition prices_from (row : TaskMatrixRow) (t : ParsedTaskTier) : Prop :=
  matrix_row numberFields (combination row) t = row.

Lemma tiers_found rows : forall ts found,
  Forall2 (fun row t => tt_conditions t = conditions_of localeCompare (combination row)) rows ts ->
  Forall (combination_of enumFields) (map combination rows) -> NoDup (map fst found ++ map (fun row => keyed (combination row)) rows) ->
  tiers_by_combination schema enumFields found ts =
  Some (found ++ zip (map (fun row => keyed (combination row)) rows) ts).
Proof using Hschema.
  induction rows as [|row rows IH]; intros ts found H2 Hc Hnd.
  { apply Forall2_nil_inv_l in H2 as ->. cbn. by rewrite app_nil_r. }
  apply Forall2_cons_inv_l in H2 as (t & ts' & Ht & H2 & ->). cbn [map] in Hc, Hnd.
  apply Forall_cons in Hc as [Hc1 Hc]. cbn [tiers_by_combination map]. rewrite Ht.
  destruct (combination_conditions _ Hc1) as (values & Hv & Hlen & Hmap).
  assert (length (conditions_of localeCompare (combination row)) = length enumFields) as Hl.
  { unfold conditions_of. rewrite length_map, by_name_perm. by rewrite (Forall2_length _ _ _ Hc1). }
  rewrite Hl, Nat.eqb_refl. cbn [negb]. rewrite Hv, Hlen, Nat.eqb_refl. cbn [negb]. cbv zeta. rewrite Hmap.
  fold (keyed (combination row)).
  assert (mget found (keyed (combination row)) = None) as Hn.
  { apply mget_None. apply NoDup_app in Hnd as (_ & Hnd & _). intros H. apply (Hnd _ H). by left. }
  rewrite Hn, mset_new by done. rewrite IH; [by rewrite <- app_assoc|done..|].
  by rewrite map_app, <- app_assoc.
Qed.

Lemma keys_nodup rows : Forall (combination_of enumFields) (map combination rows) -> NoDup (map combination rows) ->
  NoDup (map (fun row => keyed (combination row)) rows).
Proof using Hschema.
  intros Hc Hnd. rewrite <- (map_map combination keyed). apply NoDup_fmap_2_strong; [|done].
  intros c1 c2 H1 H2. rewrite Forall_forall in Hc. apply key_inj; [apply enum_names|by apply Hc..].
Qed.

Lemma zip_keys {V} (ks : list jstring) (vs : list V) : length ks = length vs -> map fst (zip ks vs) = ks.
Proof using. intros H. apply fst_zip. lia. Qed.

Lemma mget_zip {V} (ks : list jstring) (vs : list V) i k v : NoDup ks -> length ks = length vs ->
  ks !! i = Some k -> vs !! i = Some v -> mget (zip ks vs) k = Some v.
Proof using.
  intros Hnd Hlen Hk Hv. apply In_mget.
  - by rewrite zip_keys.
  - apply list_elem_of_In, list_elem_of_lookup. exists i. apply lookup_zip_with_Some. by exists k, v.
Qed.

Lemma last_only_missing (found : list (jstring * ParsedTaskTier)) (cs : list (list (jstring * jstring))) c :
  Forall (fun x => mget found (keyed x) <> None) cs -> mget found (keyed c) = None ->
  List.filter (fun x => match mget found (keyed x) with None => true | Some _ => false end) (cs ++ [c]) = [c].
Proof using.
  intros Hcs Hc. rewrite List.filter_app. cbn [List.filter]. rewrite Hc.
  assert (List.filter (fun x => match mget found (keyed x) with None => true | Some _ => false end) cs = []) as ->; [|done].
  induction Hcs as [|x cs Hx _ IH]; [done|]. cbn [List.filter]. by destruct (mget found (keyed x)).
Qed.

Lemma read_several rs r ts t :
  map combination (rs ++ [r]) = combinations -> ts <> [] -> tt_conditions t = [] ->
  Forall2 (fun row u => tt_conditions u = conditions_of localeCompare (combination row)) rs ts ->
  Forall2 prices_from rs ts -> prices_from r t ->
  matrix_of_tiers localeCompare (ts ++ [t]) schema = Some (rs ++ [r]).
Proof using Hschema Hvalues.
  intros Hcomb Hne Ht Hcs Hps Hp. destruct combinations_ok as (Hok & Hnd & _). rewrite <- Hcomb in Hok, Hnd.
  pose proof (keys_nodup _ Hok Hnd) as Hkeys. rewrite map_app in Hkeys. cbn [map] in Hkeys.
  rewrite map_app, Forall_app in Hok. destruct Hok as [Hok _].
  pose proof (tiers_found rs ts [] Hcs Hok (proj1 (proj1 (NoDup_app _ _) Hkeys))) as Hfound. cbn [app] in Hfound.
  pose proof (Forall2_length _ _ _ Hps) as Hlen.
  set (ks := map (fun row => keyed (combination row)) rs) in *.
  assert (length ks = length ts) as Hlk by (unfold ks; rewrite length_map; lia).
  assert (forall i row u, rs !! i = Some row -> ts !! i = Some u -> mget (zip ks ts) (keyed (combination row)) = Some u) as Hget.
  { intros i row u Hr Hu. apply (mget_zip ks ts i); [by apply NoDup_app in Hkeys as (? & _)|done| |done].
    unfold ks. apply list_lookup_fmap_Some. by exists row. }
  assert (mget (zip ks ts) (keyed (combination r)) = None) as Hmiss.
  { apply mget_None. rewrite zip_keys by done. apply NoDup_app in Hkeys as (_ & H & _). intros Hin.
    apply (H _ Hin). by left. }
  transitivity (
    match tiers_by_combination schema enumFields [] (removelast (ts ++ [t])) with
    | None => None
    | Some found =>
        match List.filter (fun c => match mget found (keyed c) with None => true | Some _ => false end) combinations with
        | [missing] => mapM (fun c => matrix_row numberFields c <$> mget (mset found (keyed missing) t) (keyed c)) combinations
        | _ => None
        end
    end).
  { unfold matrix_of_tiers. fold combinations enumFields numberFields keyed.
    destruct ts as [|t0 ts]; [done|]. destruct (ts ++ [t]) as [|t1 l] eqn:E; [by destruct ts|].
    change ((t0 :: ts) ++ [t]) with (t0 :: (ts ++ [t])). rewrite E, <- E. rewrite <- Hcomb at 1.
    rewrite length_map. cbn [length]. rewrite !length_app in *. cbn [length] in *.
    replace (S (length ts + 1) =? length rs + 1)%nat with true by (symmetry; apply Nat.eqb_eq; lia). cbn [negb].
    replace (last (t0 :: ts ++ [t])) with (Some t) by (by rewrite app_comm_cons, last_snoc).
    rewrite bool_decide_eq_true_2 by done. cbn [negb]. by rewrite app_comm_cons. }
  rewrite removelast_last, Hfound.
  rewrite <- Hcomb, map_app. cbn [map]. rewrite last_only_missing; [|..|done].
  - change (map combination rs ++ [combination r]) with (map combination rs ++ map combination [r]).
    rewrite <- map_app. apply mapM_Some, Forall2_fmap_l, Forall2_lookup. intros i.
    destruct ((rs ++ [r]) !! i) as [row|] eqn:Er; constructor.
    unfold compose. cbv beta. rewrite mget_mset. apply lookup_app_Some in Er as [Er | [Hi Er]].
    + assert (is_Some (ts !! i)) as [u Hu]. { apply lookup_lt_is_Some. apply lookup_lt_Some in Er. lia. }
      destruct (decide _) as [E|_]; [by rewrite E, (Hget i row u Er Hu) in Hmiss|]. rewrite (Hget i row u Er Hu).
      cbn. f_equal. by destruct (Forall2_lookup_lr _ _ _ _ _ _ Hps Er Hu).
    + apply list_lookup_singleton_Some in Er as [_ <-]. rewrite decide_True by done. exact (f_equal Some Hp).
  - apply Forall_map, Forall_lookup. intros i row Er.
    assert (is_Some (ts !! i)) as [u Hu]. { apply lookup_lt_is_Some. apply lookup_lt_Some in Er. lia. }
    by rewrite (Hget i row u Er Hu).
Qed.

Lemma read_uniform rows t : map combination rows = combinations -> tt_conditions t = [] ->
  Forall (fun row => prices_from row t) rows -> matrix_of_tiers localeCompare [t] schema = Some rows.
Proof using.
  intros Hcomb Ht Hp. unfold matrix_of_tiers. rewrite bool_decide_eq_true_2 by done. fold combinations numberFields.
  rewrite <- Hcomb, map_map. f_equal. rewrite <- (map_id rows) at 2. by apply map_ext_Forall.
Qed.
End Rows.

(** ** Calm labels *)

Lemma no_parens_app a b : no_parens (a ++ b) = no_parens a && no_parens b.
Proof. apply forallb_app. Qed.

Lemma no_paren c : (c <> 40 -> c <> 41 -> any_but [40; 41] c = true)%N.
Proof. intros H1 H2. unfold any_but. rewrite bool_decide_eq_false_2; [done|]. set_solver. Qed.

Lemma quote_no_parens s : no_parens (quote_units s) = no_parens s.
Proof.
  revert s. apply (quote_ind (fun s q => no_parens q = no_parens s)); [done|..].
  - intros c s q IH. rewrite no_parens_app, IH. change (c :: s) with ([c] ++ s). rewrite no_parens_app. f_equal.
    unfold quote_unit. repeat match goal with |- context [(c =? ?n)%N] => destruct (N.eqb_spec c n) as [-> |]; [done|] end.
    destruct (_ || _) eqn:E; [|done]. transitivity true.
    + unfold u_escape, hex4. change (js "\u") with [92; 117]%N. cbn [app no_parens forallb].
      assert (forall n, (n < 16)%N -> any_but [40; 41]%N (hex_digit n) = true) as Hh.
      { intros k Hk. unfold hex_digit. destruct (N.ltb_spec k 10); apply no_paren; lia. }
      rewrite !Hh; [done|apply N.mod_lt; done..].
    + symmetry. cbn [no_parens forallb]. rewrite andb_true_r. by apply no_paren; intros ->.
  - intros c d s q _ _ IH. change (c :: d :: q) with ([c; d] ++ q). change (c :: d :: s) with ([c; d] ++ s).
    by rewrite !no_parens_app, IH.
Qed.

Lemma calm_iff s : calm_text s <-> no_parens s = true.
Proof.
  unfold calm_text, json_quote. change (34%N :: quote_units s ++ [34%N]) with ([34%N] ++ quote_units s ++ [34%N]).
  rewrite !no_parens_app, quote_no_parens. change (no_parens [34%N]) with true. by rewrite andb_true_l, andb_true_r.
Qed.

Lemma join_no_parens sep l : no_parens sep = true -> Forall (fun s => no_parens s = true) l -> no_parens (join sep l) = true.
Proof.
  intros Hs. induction 1 as [|a l Ha _ IH]; [done|]. destruct l as [|b l]; [done|].
  rewrite join_cons by done. by rewrite !no_parens_app, Ha, Hs, IH.
Qed.

Lemma calm_digits n : calm_text (js "tier_" ++ dec_of_N n).
Proof.
  apply calm_iff. rewrite no_parens_app. apply andb_true_iff. split; [done|].
  destruct (dec_of_N_spec n) as (_ & Hd & _). apply forallb_forall. intros c Hc%list_elem_of_In.
  rewrite Forall_forall in Hd. specialize (Hd c Hc). unfold is_digit in Hd. apply andb_true_iff in Hd as [H1%N.leb_le _].
  apply no_paren; lia.
Qed.

(** ** Rows to tiers to text and back *)

Section Matrix.
Context (localeCompare : jstring -> jstring -> Z) (schema : BillingUsageSchema).
Hypothesis Hschema : writable_schema schema.
Hypothesis Hvalues : Forall (fun f => NoDup (declared f.2)) schema.
Let numberFields := getTaskNumberFields localeCompare (Some schema).
Let enumFields := getTaskEnumFields localeCompare (Some schema).
Hypothesis Hnumbers : numberFields <> [].

Definition exact_price (x : jsnum) : Prop := exact_num x /\ usable x = true.

(** The row has a price for each number field, in the order of the fields, and its numbers print
    exactly. *)
Definition priced_row (row : TaskMatrixRow) : Prop :=
  exact_price (r_constant row) /\ map fst (r_unitPrices row) = map fst (getTaskNumberFields localeCompare (Some schema)) /\
  Forall (fun fp => exact_price fp.2) (r_unitPrices row).

Lemma number_names : NoDup (map fst numberFields).
Proof using Hschema.
  unfold numberFields, getTaskNumberFields. rewrite by_name_perm. apply NoDup_fst_filter, Hschema.
Qed.

Lemma row_prices row : priced_row row -> prices_for numberFields (r_unitPrices row) = r_unitPrices row.
Proof using Hschema. intros (_ & Hk & _). apply prices_for_normal; [apply number_names|done]. Qed.

(** What the writer keeps of a tier. *)
Definition kept (t t' : ParsedTaskTier) : Prop :=
  tt_conditions t' = tt_conditions t /\ tt_constant t' = tt_constant t /\ tt_unitPrices t' = tt_unitPrices t /\
  truthy (tt_label t') = true /\ (calm_text (tt_label t) -> calm_text (tt_label t')).

Definition kept_conditions (t : ParsedTaskTier) : Prop :=
  Forall (fun c => match assoc (tc_field c) (getTaskEnumFields localeCompare (Some schema)) with
                   | Some d => tc_value c ∈ declared d | None => False end) (tt_conditions t).

Lemma normalize_keeps i t row : priced_row row -> tt_constant t = r_constant row -> tt_unitPrices t = r_unitPrices row ->
  kept_conditions t -> kept t (normalize_tier localeCompare schema i t).
Proof using Hschema.
  intros ((Hc & Hu) & Hk & Hps) Ec Ep Hcs.
  assert (normalize_tier localeCompare schema i {| tt_label := base_label; tt_conditions := tt_conditions t;
    tt_constant := tt_constant t; tt_unitPrices := tt_unitPrices t |} = {| tt_label := base_label;
    tt_conditions := tt_conditions t; tt_constant := tt_constant t; tt_unitPrices := tt_unitPrices t |}) as E.
  { apply normal_tier_fixed; [apply number_names|]. split; [done|]. cbn. rewrite Ec, Ep.
    split_and!; [done..| |done]. eapply Forall_impl; [exact Hps|]. by intros fp [_ ?]. }
  pose proof (f_equal tt_conditions E) as E1. pose proof (f_equal tt_constant E) as E2.
  pose proof (f_equal tt_unitPrices E) as E3.
  split; [exact E1|]. split; [exact E2|]. split; [exact E3|]. unfold normalize_tier. cbn.
  destruct (truthy (tt_label t)) eqn:El; [done|]. destruct (i =? 0)%nat; [done|]. split; [done|].
  intros _. apply calm_digits.
Qed.

Lemma row_conditions c : combination_of enumFields c ->
  Forall (fun k => match assoc (tc_field k) (getTaskEnumFields localeCompare (Some schema)) with
                   | Some d => tc_value k ∈ declared d | None => False end) (conditions_of localeCompare c).
Proof using Hschema.
  intros Hc. unfold conditions_of. apply Forall_map. rewrite by_name_perm. apply Forall_forall. intros fv Hfv.
  apply list_elem_of_lookup in Hfv as [i Hi]. destruct (Forall2_lookup_r _ _ _ _ _ Hc Hi) as (f & Hf & E & Hv).
  cbn [tc_field tc_value]. rewrite E. apply list_elem_of_lookup_2, list_elem_of_In in Hf. fold enumFields.
  rewrite (assoc_In f.1 enumFields f.2); [done| |by rewrite <- surjective_pairing].
  apply enum_names, Hschema.
Qed.

Lemma row_label c : combination_of enumFields c -> calm_text (taskMatrixRowLabel localeCompare c).
Proof using Hschema.
  intros Hc. apply calm_iff. unfold taskMatrixRowLabel.
  assert (Forall (fun s => no_parens s = true) (map snd (by_name localeCompare c))) as H.
  { apply Forall_map. rewrite by_name_perm. apply Forall_forall. intros fv Hfv.
    apply list_elem_of_lookup in Hfv as [i Hi]. destruct (Forall2_lookup_r _ _ _ _ _ Hc Hi) as (f & Hf & _ & Hv).
    apply list_elem_of_lookup_2, enumFields_In in Hf as [Hf _]. destruct Hschema as [_ Hs].
    rewrite Forall_forall in Hs. destruct (Hs f Hf) as (_ & _ & Hvs). rewrite Forall_forall in Hvs. by apply calm_iff, Hvs. }
  destruct (map snd _) as [|v l]; [done|]. by apply join_no_parens.
Qed.

(** The tiers stand for the matrix: one tier without a condition, or a tier for each row with
    its combination and the last one for what is left. *)
Inductive stands_for (m : TaskMatrixConfig) : list ParsedTaskTier -> Prop :=
  | uniform_tier t : tt_conditions t = [] -> Forall (fun row => prices_from localeCompare schema row t) m -> stands_for m [t]
  | tier_per_row rs r ts t : m = rs ++ [r] -> ts <> [] -> tt_conditions t = [] ->
      Forall2 (fun row u => tt_conditions u = conditions_of localeCompare (combination row)) rs ts ->
      Forall2 (prices_from localeCompare schema) rs ts -> prices_from localeCompare schema r t ->
      stands_for m (ts ++ [t]).

Lemma stands_for_read m tiers : map combination m = getTaskEnumCombinations localeCompare (Some schema) ->
  stands_for m tiers -> matrix_of_tiers localeCompare tiers schema = Some m.
Proof using Hschema Hvalues.
  intros Hcomb [t Ht Hp | rs r ts t -> Hne Ht Hcs Hps Hp]; [by apply read_uniform|].
  apply read_several; try done. apply Hschema.
Qed.

Lemma prices_from_kept row t t' : kept t t' -> prices_from localeCompare schema row t -> prices_from localeCompare schema row t'.
Proof. intros (_ & Ec & Ep & _). unfold prices_from, matrix_row. by rewrite Ec, Ep. Qed.

Lemma stands_for_kept m tiers tiers' : Forall2 kept tiers tiers' -> stands_for m tiers -> stands_for m tiers'.
Proof.
  intros Hk Hs. revert Hk. destruct Hs as [t Ht Hp | rs r ts t Em Hne Ht Hcs Hps Hp]; intros Hk.
  - apply Forall2_cons_inv_l in Hk as (t' & l & Hk & H%Forall2_nil_inv_l & ->). subst l. constructor.
    + destruct Hk as (-> & _). done.
    + eapply Forall_impl; [exact Hp|]. intros row. by apply prices_from_kept.
  - apply Forall2_app_inv_l in Hk as (ts' & l & Hks & Hk & ->).
    apply Forall2_cons_inv_l in Hk as (t' & l' & Hk & H%Forall2_nil_inv_l & ->). subst l'.
    apply (tier_per_row m rs r); [done|by destruct Hks|by destruct Hk as (-> & _)|..|by apply (prices_from_kept _ t)].
    + clear -Hks Hcs. revert ts' Hks. induction Hcs as [|row u rs ts Hu _ IH]; intros ts' Hks.
      * apply Forall2_nil_inv_l in Hks as ->. constructor.
      * apply Forall2_cons_inv_l in Hks as (u' & l & (E & _) & Hks & ->). constructor; [by rewrite E|auto].
    + clear -Hks Hps. revert ts' Hks. induction Hps as [|row u rs ts Hu _ IH]; intros ts' Hks.
      * apply Forall2_nil_inv_l in Hks as ->. constructor.
      * apply Forall2_cons_inv_l in Hks as (u' & l & Hk & Hks & ->). constructor; [by apply (prices_from_kept _ u)|auto].
Qed.

(** A tier of the matrix, as the writer gets it. *)
Definition row_tier (t : ParsedTaskTier) : Prop :=
  exists row, priced_row row /\ tt_constant t = r_constant row /\ tt_unitPrices t = r_unitPrices row /\
    kept_conditions t /\ calm_text (tt_label t).

Lemma prices_from_row row t : priced_row row -> tt_constant t = r_constant row -> tt_unitPrices t = r_unitPrices row ->
  prices_from localeCompare schema row t.
Proof using Hschema.
  intros Hr Ec Ep. unfold prices_from, matrix_row. rewrite Ec, Ep. fold numberFields. rewrite row_prices by done.
  by destruct row.
Qed.

(** Rows that the code finds equal are equal. *)
Lemma uniform_row m r row : is_uniform numberFields r m = true -> row ∈ m -> priced_row r -> priced_row row ->
  r_constant row = r_constant r /\ r_unitPrices row = r_unitPrices r.
Proof using Hschema.
  intros Eu Hin%list_elem_of_In Hr Hrow. unfold is_uniform in Eu. rewrite forallb_forall in Eu. specialize (Eu row Hin).
  apply andb_true_iff in Eu as [Ec Ep]. split; [apply exact_eqb; [apply Hrow|apply Hr|done]|].
  rewrite <- (row_prices r Hr), <- (row_prices row Hrow). rewrite forallb_forall in Ep.
  apply map_ext_Forall, List.Forall_forall. intros f Hf. f_equal. specialize (Ep f Hf).
  unfold price_of, same_number in *. destruct Hr as (_ & _ & Hr), Hrow as (_ & _ & Hrow).
  rewrite Forall_forall in Hr, Hrow.
  destruct (mget (r_unitPrices row) f.1) as [a|] eqn:Ea, (mget (r_unitPrices r) f.1) as [b|] eqn:Eb; try done.
  apply mget_In, list_elem_of_In in Ea, Eb. apply Hrow in Ea as [Ea _]. apply Hr in Eb as [Eb _]. by apply exact_eqb.
Qed.

(** The tier of a row that is not the last, and of the last. *)
Definition tier_of (conditional : bool) (row : TaskMatrixRow) : ParsedTaskTier :=
  {| tt_label := taskMatrixRowLabel localeCompare (combination row);
     tt_conditions := if conditional then conditions_of localeCompare (combination row) else [];
     tt_constant := r_constant row;
     tt_unitPrices := prices_for (getTaskNumberFields localeCompare (Some schema)) (r_unitPrices row) |}.

Lemma tiers_of_rows rs r : imap (fun index row =>
    {| tt_label := taskMatrixRowLabel localeCompare (combination row);
       tt_conditions := if (index =? length (rs ++ [r]) - 1)%nat then [] else conditions_of localeCompare (combination row);
       tt_constant := r_constant row; tt_unitPrices := prices_for numberFields (r_unitPrices row) |}) (rs ++ [r]) =
  map (tier_of true) rs ++ [tier_of false r].
Proof using.
  rewrite imap_app. cbn [imap]. rewrite length_app. cbn [length].
  unfold compose. replace (length rs + 0 =? length rs + 1 - 1)%nat with true by (symmetry; apply Nat.eqb_eq; lia).
  f_equal. apply list_eq. intros i. rewrite list_lookup_imap.
  change (map (tier_of true) rs) with (tier_of true <$> rs). rewrite list_lookup_fmap.
  destruct (rs !! i) as [row|] eqn:E; [|done]. cbn. apply lookup_lt_Some in E.
  replace (i =? length rs + 1 - 1)%nat with false by (symmetry; apply Nat.eqb_neq; lia). done.
Qed.

Lemma row_tier_of b row : priced_row row -> combination_of enumFields (combination row) -> row_tier (tier_of b row).
Proof using Hschema.
  intros Hr Hc. exists row. split; [done|]. split; [done|]. split; [by apply row_prices|]. split; [|by apply row_label].
  destruct b; [by apply row_conditions|constructor].
Qed.

Lemma matrix_tiers m : map combination m = getTaskEnumCombinations localeCompare (Some schema) ->
  Forall priced_row m ->
  stands_for m (taskMatrixToTiers localeCompare m schema) /\ Forall row_tier (taskMatrixToTiers localeCompare m schema).
Proof using Hschema Hvalues Hnumbers.
  intros Hcomb Hm. destruct (combinations_ok localeCompare schema (proj1 Hschema) Hvalues) as (Hok & _ & Hne).
  rewrite <- Hcomb in Hok, Hne. apply (proj1 (Forall_map _ _ _)) in Hok.
  unfold taskMatrixToTiers. fold numberFields.
  destruct numberFields as [|f0 nf] eqn:Enf; [done|]. rewrite <- Enf in *.
  destruct m as [|r0 m]; [done|]. set (all := r0 :: m) in *.
  assert (priced_row r0) as Hr0 by by apply Forall_cons in Hm as [? _].
  destruct (is_uniform numberFields r0 all) eqn:Eu.
  { rewrite row_prices by done. split; [|apply Forall_singleton; exists r0; split; [done|];
      split; [done|]; split; [done|]; split; [constructor|done]].
    apply uniform_tier; [done|]. apply Forall_forall. intros row Hrow. rewrite Forall_forall in Hm.
    destruct (uniform_row all r0 row) as [Ec Ep]; [done|done|done|by apply Hm|].
    apply prices_from_row; [by apply Hm|done..]. }
  clearbody all. destruct all as [|r rs _] using rev_ind; [done|]. rewrite tiers_of_rows.
  apply Forall_app in Hm as [Hrs Hr%Forall_inv]. apply Forall_app in Hok as [Hors Hor%Forall_inv].
  assert (forall b row, priced_row row -> prices_from localeCompare schema row (tier_of b row)) as Hpf.
  { intros b row Hp. apply prices_from_row; [done|done|by apply row_prices]. }
  split.
  - destruct rs as [|r1 rs]; [apply uniform_tier; [done|]; by constructor; [by apply Hpf|constructor]|].
    apply (tier_per_row _ (r1 :: rs) r); [done|done|done|..|by apply Hpf].
    + apply Forall2_fmap_r, Forall_Forall2_diag, Forall_true. done.
    + apply Forall2_fmap_r, Forall_Forall2_diag. eapply Forall_impl; [exact Hrs|]. intros row. apply Hpf.
  - apply Forall_app. split; [|by apply Forall_singleton, row_tier_of].
    apply Forall_map. rewrite Forall_forall in Hrs, Hors |- *. intros row Hin.
    apply row_tier_of; [by apply Hrs|by apply Hors].
Qed.

Lemma normalized_kept tiers : tiers <> [] -> Forall row_tier tiers ->
  Forall2 kept tiers (normalizeTaskVisualConfig localeCompare (Some tiers) schema).
Proof using Hschema.
  intros Hne Ht. destruct tiers as [|t0 l0] eqn:E; [done|]. unfold normalizeTaskVisualConfig. rewrite <- E in *.
  apply Forall2_same_length_lookup_2; [by rewrite length_imap|]. intros i t t' Hi Hi'.
  rewrite list_lookup_imap in Hi'. apply fmap_Some in Hi' as (t2 & Hi2 & ->).
  assert (t2 = t) as -> by (apply (inj Some); exact (eq_trans (eq_sym Hi2) Hi)).
  rewrite Forall_lookup in Ht. destruct (Ht i t Hi) as (row & Hr & Ec & Ep & Hc & _). by apply (normalize_keeps i t row).
Qed.

Lemma stands_for_last m tiers : stands_for m tiers -> last_unconditional tiers = tiers /\ tiers <> [].
Proof.
  intros [t Ht _ | rs r ts t _ Hne Ht _ _ _].
  - split; [|done]. cbn. rewrite <- Ht. by destruct t.
  - split; [|by destruct ts]. clear Hne. induction ts as [|u ts IH]; [cbn; rewrite <- Ht; by destruct t|].
    cbn [app]. rewrite <- IH at 2. by destruct ts.
Qed.

(** The text is written: every tier but the last has a condition. *)
Lemma branches_written tiers t : Forall (fun u => tt_conditions u <> []) tiers ->
  exists txts, branch_texts numberFields (tiers ++ [t]) = Some txts /\ join (js " : ") txts <> [].
Proof using.
  intros H. cut (exists x txts, branch_texts numberFields (tiers ++ [t]) = Some (x :: txts) /\ x <> []).
  { intros (x & txts & E & Hx). exists (x :: txts). split; [done|]. destruct x as [|c x]; [done|]. by destruct txts. }
  destruct H as [|u tiers Hu H]; [by eexists _, _|].
  assert (exists txts, branch_texts numberFields (tiers ++ [t]) = Some txts) as (txts & E).
  { clear -H. induction H as [|u tiers Hu H IH]; [by eexists|]. destruct IH as (txts & E). cbn [app branch_texts].
    destruct (tiers ++ [t]) as [|t1 l] eqn:El; [by destruct tiers|]. rewrite <- El in *. rewrite E.
    unfold generateTaskCondition. destruct (tt_conditions u) as [|c cs]; [done|]. destruct cs; by eexists. }
  cbn [app branch_texts]. destruct (tiers ++ [t]) as [|t1 l] eqn:El; [by destruct tiers|]. rewrite E.
  unfold generateTaskCondition. destruct (tt_conditions u) as [|c cs]; [done|]. destruct cs; by eexists _, _.
Qed.

Lemma conditions_somewhere m rs r : map combination m = getTaskEnumCombinations localeCompare (Some schema) ->
  m = rs ++ [r] -> rs <> [] -> Forall (fun row => conditions_of localeCompare (combination row) <> []) rs.
Proof using Hschema Hvalues.
  intros Hcomb -> Hrs. destruct (combinations_ok localeCompare schema (proj1 Hschema) Hvalues) as (Hok & Hnd & _).
  rewrite <- Hcomb in Hok, Hnd. apply Forall_forall. intros row Hin E.
  assert (combination row = []) as Er.
  { unfold conditions_of in E. apply map_eq_nil in E. pose proof (by_name_perm localeCompare (combination row)) as Hp.
    rewrite E in Hp. by apply Permutation_nil in Hp. }
  rewrite map_app in Hok, Hnd. apply Forall_app in Hok as [Hok Hr%Forall_inv].
  apply (proj1 (Forall_map _ _ _)) in Hok. rewrite Forall_forall in Hok. specialize (Hok row Hin). rewrite Er in Hok.
  apply Forall2_nil_inv_r in Hok. rewrite Hok in Hr. apply Forall2_nil_inv_l in Hr.
  apply NoDup_app in Hnd as (_ & Hnd & _). apply (Hnd []); [|cbn; rewrite Hr; by left].
  apply list_elem_of_fmap. by exists row.
Qed.

Lemma kept_exact tiers tiers' : Forall2 kept tiers tiers' -> Forall row_tier tiers ->
  Forall (fun t => calm_text (tt_label t) /\ exact_num (tt_constant t) /\
    Forall (fun fp => exact_num fp.2) (tt_unitPrices t)) tiers'.
Proof.
  intros Hkept Hrows. induction Hkept as [|t t' l l' (_ & Ec & Ep & _ & Hl) _ IH]; [constructor|].
  apply Forall_cons in Hrows as [(row & (Hc & _ & Hps) & Erc & Erp & _ & Hlab) Hrows]. constructor; [|auto].
  rewrite Ec, Ep, Erc, Erp. split; [auto|]. split; [apply Hc|]. eapply Forall_impl; [exact Hps|]. by intros fp [? _].
Qed.

(** The rows of the matrix survive being written and read: for every schema that can be
    written, and one row of exact prices per combination of options, the text of the tiers of
    the matrix is read as the same matrix. *)
Theorem matrix_read_back m :
  map combination m = getTaskEnumCombinations localeCompare (Some schema) -> Forall priced_row m ->
  tryParseTaskMatrixConfig localeCompare
    (Some (generateTaskExprFromConfig localeCompare (Some (taskMatrixToTiers localeCompare m schema)) schema)) schema = Some m.
Proof using Hschema Hvalues Hnumbers.
  intros Hcomb Hm. destruct (matrix_tiers m Hcomb Hm) as [Hst Hrows].
  set (tiers0 := taskMatrixToTiers localeCompare m schema) in *.
  destruct (stands_for_last m tiers0 Hst) as [_ Hne0]. pose proof (normalized_kept tiers0 Hne0 Hrows) as Hkept.
  pose proof (written_tiers_read localeCompare schema (Some tiers0) Hschema) as Hread. cbn zeta in Hread.
  set (tiers := normalizeTaskVisualConfig localeCompare (Some tiers0) schema) in *.
  set (e := generateTaskExprFromConfig localeCompare (Some tiers0) schema) in *.
  pose proof (stands_for_kept m tiers0 tiers Hkept Hst) as Hst'.
  destruct (stands_for_last m tiers Hst') as [Hlast _].
  assert (e <> []) as He.
  { unfold e, generateTaskExprFromConfig. fold numberFields tiers. destruct numberFields as [|f0 nf] eqn:Enf; [done|].
    rewrite <- Enf. clearbody tiers. destruct Hst' as [t Ht Hp | rs r ts t Em Hne Ht Hcs Hps Hp]; [done|].
    assert (Forall (fun u => tt_conditions u <> []) ts) as Hts.
    { assert (rs <> []) as Hrs by (intros ->; by apply Forall2_nil_inv_l in Hcs).
      pose proof (conditions_somewhere m rs r Hcomb Em Hrs) as Hc. clear -Hc Hcs.
      induction Hcs as [|row u rs ts E _ IH]; [done|]. apply Forall_cons in Hc as [Hr Hc].
      constructor; [by rewrite E|auto]. }
    destruct (branches_written ts t Hts) as (txts & E & Hj). destruct (ts ++ [t]) as [|t1 [|t2 l]] eqn:El.
    - by destruct ts.
    - by destruct ts as [|? [|]].
    - intros H0. apply Hj. rewrite <- H0. f_equal.
      change (txts = coalesce (branch_texts numberFields (t1 :: t2 :: l)) []). symmetry. exact (f_equal (fun o => coalesce o []) E). }
  rewrite Hlast in Hread. unfold tryParseTaskMatrixConfig. destruct e as [|c e'] eqn:Ee; [done|]. rewrite <- Ee in *.
  rewrite Hread; [by apply stands_for_read|done|].
  by apply (kept_exact tiers0).
Qed.
End Matrix.

(** ** A concrete matrix *)

Definition video_matrix : TaskMatrixConfig :=
  [{| combination := [(js "resolution", js "720p")]; r_constant := Fin 0;
      r_unitPrices := [(js "seconds", Number (js "0.1")); (js "tokens", Fin 2)] |};
   {| combination := [(js "resolution", js "1080p")]; r_constant := Fin 1;
      r_unitPrices := [(js "seconds", Number (js "0.25")); (js "tokens", Fin 3)] |}].

Lemma matrix_read_back_witness :
  tryParseTaskMatrixConfig units_compare
    (Some (generateTaskExprFromConfig units_compare (Some (taskMatrixToTiers units_compare video_matrix video_schema)) video_schema))
    video_schema = Some video_matrix.
Proof.
  apply (matrix_read_back units_compare video_schema).
  - split; [apply (bool_decide_unpack _); vm_compute; exact I|].
    repeat constructor; try (by vm_compute); apply (bool_decide_unpack _); vm_compute; exact I.
  - repeat constructor; apply (bool_decide_unpack _); vm_compute; exact I.
  - by vm_compute.
  - by vm_compute.
  - repeat constructor; by vm_compute.
Defined.
