(* ===== verification/TierExpr.v ===== *)
(** * The editor of price tiers

    features/pricing/lib/tier-expr.ts: the tiers the editor holds, their text and its reader,
    and the estimator; features/pricing/lib/breakdown-tier-match.ts: which tier of a table was
    charged.  The evaluation of an expression as code of the language is an argument. *)

From S2P Require Import Prelude JsValue JsText Regex RequestRules BillingTiers.
#[global] Open Scope Z_scope.

Definition CACHE_MODE_TIMED : jstring := js "timed".
Definition CACHE_MODE_GENERIC : jstring := js "generic".

(** The value of a condition: a number or a text. *)
Inductive condition_value := value_num (n : jsnum) | value_text (s : jstring).

Record TierConditionInput := { ci_var : jstring; ci_op : jstring; ci_value : option condition_value }.

(** A tier of the editor, or a part of one: [None] where it has no such property; the prices by
    the name of the field. *)
Record VisualTier := {
  label : option jstring;
  conditions : option (list TierConditionInput);
  cache_mode : option jstring;
  costs : list (jstring * jsnum)
}.
Definition VisualConfig : Type := list VisualTier.

Definition input_unit_cost : jstring := js "input_unit_cost".
Definition output_unit_cost : jstring := js "output_unit_cost".

(** [Number(tier.f)] *)
Definition cost (t : VisualTier) (f : jstring) : jsnum := coalesce (mget (costs t) f) NaN.

Definition getTierCacheMode (t : VisualTier) : jstring :=
  if bool_decide (cache_mode t = Some CACHE_MODE_TIMED) then CACHE_MODE_TIMED
  else if bool_decide (cache_mode t = Some CACHE_MODE_GENERIC) then CACHE_MODE_GENERIC
  else if num_ltb (Fin 0) (cost t (js "cache_create_1h_unit_cost")) then CACHE_MODE_TIMED
  else CACHE_MODE_GENERIC.

(** The fields that are set after [...tier]. *)
Definition normalized_fields : list jstring := map fst BILLING_CACHE_VAR_MAP.

(** What [...tier] brings overrides what was set before it. *)
Definition normalizeVisualTier (t : VisualTier) : VisualTier :=
  let first := [(input_unit_cost, num_or_zero (cost t input_unit_cost));
                (output_unit_cost, num_or_zero (cost t output_unit_cost))] in
  let spread := foldl (fun o fv => mset o fv.1 fv.2) first (costs t) in
  {| label := Some (coalesce (label t) []);
     conditions := Some (coalesce (conditions t) []);
     cache_mode := Some (coalesce (cache_mode t) (getTierCacheMode t));
     costs := foldl (fun o f => mset o f (num_or_zero (cost t f))) spread normalized_fields |}.

Definition createDefaultVisualConfig : VisualConfig :=
  [normalizeVisualTier
     {| label := Some (js "base"); conditions := Some []; cache_mode := Some CACHE_MODE_GENERIC;
        costs := [(input_unit_cost, Fin 0); (output_unit_cost, Fin 0)] |}].

Definition normalizeVisualConfig (config : option VisualConfig) : VisualConfig :=
  match config with
  | Some ((_ :: _) as tiers) => map normalizeVisualTier tiers
  | _ => createDefaultVisualConfig
  end.

(** ** Writing *)

Definition value_str (v : condition_value) : jstring :=
  match v with value_num n => string_of_num n | value_text s => s end.

(** [c.var && c.op && c.value != null && c.value !== ''] *)
Definition complete_condition (c : TierConditionInput) : bool :=
  truthy (ci_var c) && truthy (ci_op c) &&
  match ci_value c with Some (value_text s) => truthy s | Some (value_num _) => true | None => false end.

Definition condition_str (c : TierConditionInput) : jstring :=
  ci_var c ++ js " " ++ ci_op c ++ js " " ++ match ci_value c with Some v => value_str v | None => [] end.

Definition buildConditionStr (cs : option (list TierConditionInput)) : jstring :=
  match cs with
  | Some ((_ :: _) as cs) => join (js " && ") (map condition_str (List.filter complete_condition cs))
  | _ => []
  end.

Definition cache_part (t : VisualTier) (cv : jstring * jstring) : list jstring :=
  let v := num_or_zero (cost t cv.1) in
  if num_truthy v then [cv.2 ++ js " * " ++ string_of_num v] else [].

Definition buildTierBodyExpr (t : VisualTier) : jstring :=
  let ic := num_or_zero (cost t input_unit_cost) in
  let oc := num_or_zero (cost t output_unit_cost) in
  join (js " + ") ((js "p * " ++ string_of_num ic) :: (js "c * " ++ string_of_num oc) ::
    flat_map (cache_part t) BILLING_CACHE_VAR_MAP).

Definition label_or (t : VisualTier) (default : jstring) : jstring :=
  let l := coalesce (label t) [] in if truthy l then l else default.

Definition tier_call (l : jstring) (t : VisualTier) : jstring :=
  js "tier(" ++ qt ++ l ++ qt ++ js ", " ++ buildTierBodyExpr t ++ js ")".

Definition empty_cost_expr : jstring := js "p * 0 + c * 0".

(** The text of a tier of several, at its place. *)
Definition tier_branch (last_index index : nat) (t : VisualTier) : jstring :=
  let body := tier_call (label_or t (js "tier_" ++ dec_of_N (N.of_nat (index + 1)))) t in
  let cond := buildConditionStr (conditions t) in
  if (index <? last_index)%nat && truthy cond then cond ++ js " ? " ++ body else body.

Definition generateExprFromVisualConfig (config : option VisualConfig) : jstring :=
  match config with
  | None | Some [] => empty_cost_expr
  | Some [t] =>
      let body := tier_call (label_or t (js "default")) t in
      let cond := buildConditionStr (conditions t) in
      if truthy cond then cond ++ js " ? " ++ body ++ js " : " ++ empty_cost_expr else body
  | Some tiers => join (js " : ") (imap (tier_branch (length tiers - 1)) tiers)
  end.

(** ** Reading *)

Definition number_group (n : nat) : regex := Grp n (Plus (Chr num_unit)).

(** [v\s*\*\s*([\d.eE+-]+)] *)
Definition term_pat (v : jstring) (n : nat) : list regex :=
  [Lit v; spaces; Lit (js "*"); spaces; number_group n].

Definition optCache (n : nat) (v : jstring) : regex :=
  Opt (Seqs ([spaces; Lit (js "+"); spaces] ++ term_pat v n)).

(** The groups of the numbers start at [n]. *)
Definition bodyPat (n : nat) : list regex :=
  term_pat (js "p") n ++ [spaces; Lit (js "+"); spaces] ++ term_pat (js "c") (n + 1) ++
  imap (fun i cv => optCache (n + 2 + i) cv.2) BILLING_CACHE_VAR_MAP.

(** A call of [tier] with a quoted label, in group [n], and a body. *)
Definition call_pat (n : nat) : list regex :=
  [Lit (js "tier(" ++ qt); Grp n (Star (Chr not_quote)); Lit (qt ++ js ","); spaces] ++
  bodyPat (n + 1) ++ [Lit (js ")")].

Definition singleRe : regex := Seqs (call_pat 1).
Definition visualTierRe : regex :=
  Seqs (Opt (Seqs [condGroup 1; spaces; Lit (js "?"); spaces]) :: call_pat 2).

Definition version_re : regex :=
  Seqs [Lit (js "v"); Plus (Chr is_digit); Lit (js ":"); Grp 1 (Star (Chr anything))].

(** The tier of a match whose label is in group [n]. *)
Definition tier_of_match (n : nat) (cs : list TierConditionInput) (m : caps) : VisualTier :=
  {| label := Some (capd m n);
     conditions := Some cs;
     cache_mode := None;
     costs := [(input_unit_cost, Number (capd m (n + 1))); (output_unit_cost, Number (capd m (n + 2)))] ++
       concat (imap (fun (i : nat) (cv : jstring * jstring) =>
         match cap m (n + 3 + i) with Some w => [(cv.1, Number w)] | None => [] end) BILLING_CACHE_VAR_MAP) |}.

Definition condition_input (c : TierCondition) : TierConditionInput :=
  {| ci_var := c_var c; ci_op := c_op c; ci_value := Some (value_num (c_value c)) |}.

Definition without_spaces (s : jstring) : jstring := replace_re (Plus (Chr is_ws)) [] s.

Definition strip_version (exprStr : jstring) : jstring :=
  match fullmatch version_re exprStr with Some m => capd m 1 | None => exprStr end.

Definition tryParseVisualConfig (exprStr : option jstring) : option VisualConfig :=
  match exprStr with
  | Some ((_ :: _) as e) =>
      let body := strip_version e in
      match fullmatch singleRe body with
      | Some simple => Some (normalizeVisualConfig (Some [normalizeVisualTier (tier_of_match 1 [] simple)]))
      | None =>
          let tiers := map (fun m : jstring * caps =>
              normalizeVisualTier (tier_of_match 2 (map condition_input (parse_tier_conditions (capd m.2 1))) m.2))
            (matchAll no_guard visualTierRe body).1 in
          match tiers with
          | [] => None
          | _ =>
              let cfg := normalizeVisualConfig (Some tiers) in
              if negb (jeqb (without_spaces (generateExprFromVisualConfig (Some cfg))) (without_spaces body))
              then None else Some cfg
          end
      end
  | _ => None
  end.

(** ** The estimator *)

Definition ESTIMATOR_VARS : list (jstring * jstring) :=
  [(js "cr", js "cacheReadTokens"); (js "cc", js "cacheCreateTokens"); (js "cc1h", js "cacheCreate1hTokens");
   (js "img", js "imageTokens"); (js "img_o", js "imageOutputTokens"); (js "ai", js "audioInputTokens");
   (js "ao", js "audioOutputTokens")].

(** [extraTokenValues[k] || 0] *)
Definition extra (values : list (jstring * jsnum)) (k : jstring) : jsnum := num_or_zero (coalesce (mget values k) NaN).

(** The numbers the expression sees. *)
Definition estimator_env (promptTokens completionTokens : jsnum) (values : list (jstring * jsnum)) : list (jstring * jsnum) :=
  let len := num_add (num_add (num_add promptTokens (extra values (js "cacheReadTokens")))
                        (extra values (js "cacheCreateTokens"))) (extra values (js "cacheCreate1hTokens")) in
  [(js "p", promptTokens); (js "c", completionTokens); (js "len", len)] ++
  map (fun f => (f.1, extra values f.2)) ESTIMATOR_VARS.

Record EvalResult := { e_cost : jsnum; matchedTier : jstring; error : option jstring }.

(** [evaluate env expr]: the value, or the message of what was thrown, and the name of the tier
    that was called last. *)
Definition evalExprLocally (evaluate : list (jstring * jsnum) -> jstring -> (jsnum + jstring) * jstring)
    (exprStr : jstring) (promptTokens completionTokens : jsnum) (values : list (jstring * jsnum)) : EvalResult :=
  if negb (truthy exprStr) || negb (truthy (trim exprStr)) then {| e_cost := Fin 0; matchedTier := []; error := None |}
  else
    match evaluate (estimator_env promptTokens completionTokens values) exprStr with
    | (inl value, name) => {| e_cost := num_or_zero value; matchedTier := name; error := None |}
    | (inr message, _) => {| e_cost := Fin 0; matchedTier := []; error := Some message |}
    end.

(** [\b(cr|cc|...)\b], at any place *)
Fixpoint uses_from (vars : list jstring) (prev : option N) (s : jstring) : bool :=
  word_boundary prev s &&
    existsb (fun v => match strip v s with Some rest => word_boundary (last v) rest | None => false end) vars ||
  match s with [] => false | c :: s' => uses_from vars (Some c) s' end.

Definition exprUsesExtraVars (exprStr : jstring) : bool :=
  truthy exprStr && uses_from (map fst ESTIMATOR_VARS) None exprStr.

(** ** The tier that was charged *)

(** A tier of either table: a condition of a price tier has no field. *)
Record BreakdownMatchTier := { b_label : jstring; b_conditions : list (TierCondition + TaskTierCondition) }.

Section Breakdown.
Context (toLowerCase : jstring -> jstring).

Definition tierMatchesNormalizedLabel (t : BreakdownMatchTier) (normalized : jstring) : bool :=
  truthy normalized && jeqb (normalizeTierLabel toLowerCase (Some (b_label t))) normalized.

(** A fact is a text or a number; its name is no inherited member. *)
Definition fact_holds (usageFacts : list (jstring * (jsnum + jstring))) (c : TierCondition + TaskTierCondition) : bool :=
  match c with
  | inl _ => false
  | inr c =>
      match assoc (tc_field c) usageFacts with
      | None => false
      | Some (inl n) => jeqb (string_of_num n) (tc_value c)
      | Some (inr s) => jeqb s (tc_value c)
      end
  end.

Definition isBreakdownTierMatched (t : BreakdownMatchTier) (tiers : list BreakdownMatchTier)
    (matchedTierLabel : option jstring) (usageFacts : option (list (jstring * (jsnum + jstring)))) : bool :=
  let normalized := normalizeTierLabel toLowerCase matchedTierLabel in
  if tierMatchesNormalizedLabel t normalized then true
  else if existsb (fun candidate => tierMatchesNormalizedLabel candidate normalized) tiers then false
  else
    match usageFacts, b_conditions t with
    | None, _ | _, [] => false
    | Some facts, cs => forallb (fact_holds facts) cs
    end.
End Breakdown.
