(* ===== verification/TierExprText.v ===== *)
(** * The text of price tiers

    What generateExprFromVisualConfig of features/pricing/lib/tier-expr.ts writes is read by
    tryParseVisualConfig as tiers of the same labels, conditions and prices. *)

From S2P Require Import Prelude JsValue JsText Regex RequestRules RequestRulesText BillingTiers TierExpr TaskExprText.

(** ** Patterns that are matched greedily *)

Section Greedy.
Context {A : Type}.
Implicit Types (k : cont A) (a w : jstring) (c : caps).

Lemma star_loop_take p k w a c y : Forall (fun x => p x = true) w -> starts p a = false -> k a c = Some y ->
  forall fuel, (length w <= fuel)%nat -> star_loop (run (Chr p)) k fuel (w ++ a) c = Some y.
Proof.
  intros Hw Ha Hk. induction Hw as [|x w Hx Hw IH]; intros fuel Hf.
  - cbn [app]. destruct fuel; cbn [star_loop]; rewrite ?run_Chr_stop, Hk by done; done.
  - destruct fuel as [|f]; [cbn in Hf; lia|]. cbn [app star_loop]. rewrite run_Chr_head by done.
    rewrite (proj2 (Nat.ltb_lt _ _)) by (cbn; lia). rewrite IH by (cbn in Hf; lia). done.
Qed.

Lemma run_Star_take p k w a c y : Forall (fun x => p x = true) w -> starts p a = false -> k a c = Some y ->
  run (Star (Chr p)) k (w ++ a) c = Some y.
Proof. intros Hw Ha Hk. cbn [run]. apply star_loop_take; [done..|]. rewrite length_app. lia. Qed.

Lemma run_Plus_take p k w a c y : w <> [] -> Forall (fun x => p x = true) w -> starts p a = false -> k a c = Some y ->
  run (Plus (Chr p)) k (w ++ a) c = Some y.
Proof.
  intros Hne Hw Ha Hk. destruct Hw as [|x w Hx Hw]; [done|]. unfold Plus. cbn [app]. rewrite run_Seq, run_Chr_head by done.
  by apply run_Star_take.
Qed.

(** Every number of rounds fails. *)
Lemma run_Star_none p k w a c : starts p a = false -> (forall w1 w2, w = w1 ++ w2 -> k (w2 ++ a) c = None) ->
  run (Star (Chr p)) k (w ++ a) c = None.
Proof.
  intros Ha Hk. change (star_loop (run (Chr p)) k (length (w ++ a)) (w ++ a) c = None).
  generalize (length (w ++ a)) as fuel. intros fuel. revert w Hk.
  induction fuel as [|f IH]; intros w Hk; cbn [star_loop].
  - rewrite (Hk [] w eq_refl). done.
  - rewrite (Hk [] w eq_refl). destruct w as [|x w]; [cbn [app]; by rewrite run_Chr_stop|].
    cbn [app]. cbn [run]. destruct (p x); [|done]. destruct (_ <? _)%nat; [|done].
    change (orelse (star_loop (run (Chr p)) k f (w ++ a) c) None = None).
    rewrite IH; [done|]. intros w1 w2 ->. by apply (Hk (x :: w1)).
Qed.

(** One space is there. *)
Lemma spaces_take k a c y : starts is_ws a = false -> k a c = Some y -> run spaces k (32%N :: a) c = Some y.
Proof. intros Ha Hk. apply (run_Star_take is_ws k [32%N]); [by constructor|done..]. Qed.

Lemma spaces_skip k a c y : starts is_ws a = false -> k a c = Some y -> run spaces k a c = Some y.
Proof. intros Ha Hk. by apply (run_Star_take is_ws k []). Qed.

Lemma spaces_none k a c : starts is_ws a = false -> k a c = None -> run spaces k a c = None.
Proof. intros Ha Hk. apply (run_Star_none is_ws k []); [done|]. by intros [|] [|]. Qed.

Lemma space_none k a c : starts is_ws a = false -> k (32%N :: a) c = None -> k a c = None -> run spaces k (32%N :: a) c = None.
Proof.
  intros Ha H1 H2. apply (run_Star_none is_ws k [32%N]); [done|].
  intros [|x [|]] [|z [|]]; try done; by intros [= <-].
Qed.

Lemma number_take n k w a c y : w <> [] -> Forall (fun x => num_unit x = true) w -> starts num_unit a = false ->
  k a ((n, w) :: c) = Some y -> run (number_group n) k (w ++ a) c = Some y.
Proof.
  intros Hne Hw Ha Hk. unfold number_group. rewrite run_Grp. apply run_Plus_take; [done..|]. by rewrite captured.
Qed.
End Greedy.

(** ** The body of a tier *)

(** The text of a number: units of numbers, read as the number. *)
Definition plain_number (x : jsnum) : Prop :=
  string_of_num x <> [] /\ Forall (fun c => num_unit c = true) (string_of_num x) /\ Number (string_of_num x) = x.

(** A variable, a star and a number. *)
Definition priced (v w : jstring) : jstring := v ++ js " * " ++ w.

Lemma num_unit_no_ws x : num_unit x = true -> is_ws x = false.
Proof. intros H. apply num_unit_facts in H. tauto. Qed.

Lemma starts_number w a : w <> [] -> Forall (fun c => num_unit c = true) w -> starts is_ws (w ++ a) = false.
Proof. intros Hne Hw. destruct Hw as [|x w Hx _]; [done|]. by apply num_unit_no_ws. Qed.

Lemma term_take {A} v n r (k : cont A) w a c y : w <> [] -> Forall (fun x => num_unit x = true) w -> starts num_unit a = false ->
  run (Seqs r) k a ((n, w) :: c) = Some y -> run (Seqs (term_pat v n ++ r)) k (priced v w ++ a) c = Some y.
Proof.
  intros Hne Hw Ha Hk. unfold term_pat, priced. cbn [app Seqs foldr]. rewrite <- !app_assoc, run_Seq, run_Lit_app.
  rewrite run_Seq. change (js " * " ++ w ++ a) with (32%N :: 42%N :: 32%N :: w ++ a). apply spaces_take; [done|].
  rewrite run_Seq. lit. rewrite run_Seq. apply spaces_take; [by apply starts_number|]. rewrite run_Seq. by apply number_take.
Qed.

(** The pattern of a variable finds no term of the other. *)
Definition clashes (v w : jstring) : Prop :=
  starts is_ws v = false /\ v <> [] /\ starts is_ws w = false /\ w <> [] /\
  forall A r (k : cont A) T c, run (Seqs (Lit v :: spaces :: Lit (js "*") :: r)) k (w ++ js " * " ++ T) c = None.

Lemma cache_vars_clash : ForallOrdPairs (fun x z : jstring * jstring => clashes x.2 z.2) BILLING_CACHE_VAR_MAP.
Proof.
  apply FOP_cons; [|apply FOP_cons; [|apply FOP_cons; [|apply FOP_cons; [|apply FOP_cons; [|apply FOP_cons; [|apply FOP_cons; [constructor|constructor]]]]]]];
    repeat (apply Forall_cons; split; [split; [done|]; split; [done|]; split; [done|]; split; [done|]; intros; reflexivity|]);
    constructor.
Qed.

Definition cache_term (t : VisualTier) (cv : jstring * jstring) : jstring :=
  let v := num_or_zero (cost t cv.1) in
  if num_truthy v then js " + " ++ priced cv.2 (string_of_num v) else [].

Definition cache_terms (t : VisualTier) (cvs : list (jstring * jstring)) : jstring := concat (map (cache_term t) cvs).

Definition opt_term (n : nat) (v : jstring) : regex := Seqs ([spaces; Lit (js "+"); spaces] ++ term_pat v n).

Lemma not_space_head x : starts is_ws x = false -> forall t, x <> [] -> starts is_ws (x ++ t) = false.
Proof. destruct x as [|c x]; [done|]. done. Qed.

Lemma opt_other {A} n v w (k : cont A) T c : clashes v w -> run (opt_term n v) k (js " + " ++ w ++ js " * " ++ T) c = None.
Proof.
  intros (Hv & Hvn & Hw & Hwn & Hc). unfold opt_term, term_pat. cbn [app Seqs foldr]. rewrite run_Seq.
  change (js " + " ++ w ++ js " * " ++ T) with (32%N :: 43%N :: 32%N :: w ++ js " * " ++ T).
  apply space_none; [done|done|]. rewrite run_Seq. lit. rewrite run_Seq. apply space_none.
  - by apply not_space_head.
  - rewrite run_Seq. apply run_Lit_fail. destruct v as [|x v]; [done|]. cbn [startsWith].
    by destruct (N.eqb_spec x 32) as [-> |].
  - apply (Hc A [spaces; number_group n]).
Qed.

Lemma opts_none {A} n v t cvs (k : cont A) a c : Forall (fun z : jstring * jstring => clashes v z.2) cvs ->
  run (opt_term n v) k (cache_terms t cvs ++ 41%N :: a) c = None.
Proof.
  induction 1 as [|z cvs Hz _ IH]; [reflexivity|]. unfold cache_terms. cbn [map concat].
  fold (cache_terms t cvs). unfold cache_term at 1. destruct (num_truthy _); [|done].
  unfold priced. rewrite <- !app_assoc. by apply opt_other.
Qed.

(** The optional terms, their groups from [m] on. *)
Fixpoint opts_pat (m : nat) (cvs : list (jstring * jstring)) : list regex :=
  match cvs with [] => [] | cv :: cvs' => Opt (opt_term m cv.2) :: opts_pat (S m) cvs' end.

Fixpoint opts_caps (t : VisualTier) (m : nat) (cvs : list (jstring * jstring)) : caps :=
  match cvs with
  | [] => []
  | cv :: cvs' =>
      let v := num_or_zero (cost t cv.1) in
      opts_caps t (S m) cvs' ++ (if num_truthy v then [(m, string_of_num v)] else [])
  end.

Definition written_number (x : jsnum) : Prop := plain_number (num_or_zero x).

Lemma cache_terms_start t cvs a : starts num_unit (cache_terms t cvs ++ 41%N :: a) = false.
Proof.
  induction cvs as [|cv cvs IH]; [done|]. unfold cache_terms. cbn [map concat]. unfold cache_term at 1.
  destruct (num_truthy _); [done|]. apply IH.
Qed.

Lemma opts_take {A} t r (k : cont A) a y cvs : forall m c,
  ForallOrdPairs (fun x z : jstring * jstring => clashes x.2 z.2) cvs -> Forall (fun cv => starts is_ws cv.2 = false /\ cv.2 <> []) cvs ->
  Forall (fun cv => written_number (cost t cv.1)) cvs ->
  run (Seqs r) k (41%N :: a) (opts_caps t m cvs ++ c) = Some y ->
  run (Seqs (opts_pat m cvs ++ r)) k (cache_terms t cvs ++ 41%N :: a) c = Some y.
Proof.
  induction cvs as [|cv cvs IH]; intros m c Hcl Hv Hn Hk; [done|].
  inversion Hcl as [|? ? Hcl1 Hcl2]; subst. apply Forall_cons in Hv as [[Hv Hve] Hvs]. apply Forall_cons in Hn as [Hn Hns].
  cbn [opts_pat app Seqs foldr]. fold (Seqs (opts_pat (S m) cvs ++ r)). rewrite run_Seq. unfold Opt. rewrite run_Alt.
  unfold cache_terms. cbn [map concat]. fold (cache_terms t cvs). unfold cache_term at 1 2.
  cbn [opts_caps] in Hk. destruct (num_truthy (num_or_zero (cost t cv.1))).
  - assert (run (opt_term m cv.2) (run (Seqs (opts_pat (S m) cvs ++ r)) k)
      ((js " + " ++ priced cv.2 (string_of_num (num_or_zero (cost t cv.1)))) ++ cache_terms t cvs ++ 41%N :: a) c = Some y) as E.
    { destruct Hn as (H1 & H2 & _). unfold opt_term. rewrite <- app_assoc. cbn [app Seqs foldr]. rewrite run_Seq.
      change (js " + " ++ ?x) with (32%N :: 43%N :: 32%N :: x). apply spaces_take; [done|]. rewrite run_Seq. lit.
      rewrite run_Seq. apply spaces_take; [unfold priced; rewrite <- !app_assoc; by apply not_space_head|].
      rewrite <- (app_nil_r (term_pat _ _)).
      apply (term_take cv.2 m []); [done|done|apply cache_terms_start|]. cbn [Seqs foldr run]. apply IH; [done..|].
      rewrite <- app_assoc in Hk. exact Hk. }
    rewrite <- app_assoc. by rewrite E.
  - cbn [app]. rewrite opts_none by done. cbn [orelse run]. apply IH; [done..|]. by rewrite app_nil_r in Hk.
Qed.

(** ** A call *)

Lemma join_tail sep (x : jstring) l : join sep (x :: l) = x ++ concat (map (fun y => sep ++ y) l).
Proof.
  revert x. induction l as [|y l IH]; intros x; [cbn; by rewrite app_nil_r|].
  rewrite join_cons by done. rewrite IH. cbn [map concat]. by rewrite <- app_assoc.
Qed.

Lemma body_text_eq t : buildTierBodyExpr t =
  priced (js "p") (string_of_num (num_or_zero (cost t input_unit_cost))) ++ js " + " ++
  priced (js "c") (string_of_num (num_or_zero (cost t output_unit_cost))) ++ cache_terms t BILLING_CACHE_VAR_MAP.
Proof.
  unfold buildTierBodyExpr. rewrite join_cons by done. rewrite join_tail.
  assert (forall cvs, concat (map (fun y => js " + " ++ y) (flat_map (cache_part t) cvs)) = cache_terms t cvs) as ->; [|done].
  intros cvs. induction cvs as [|cv cvs IH]; [done|]. cbn [flat_map]. rewrite map_app, concat_app, IH.
  unfold cache_terms. cbn [map concat]. f_equal. unfold cache_part, cache_term, priced.
  destruct (num_truthy _); [|done]. cbn [map concat]. by rewrite app_nil_r.
Qed.

Lemma optional_terms n : imap (fun i (cv : jstring * jstring) => optCache (n + i) cv.2) BILLING_CACHE_VAR_MAP =
  opts_pat n BILLING_CACHE_VAR_MAP.
Proof.
  assert (forall cvs m, imap (fun i (cv : jstring * jstring) => optCache (m + i) cv.2) cvs = opts_pat m cvs) as H; [|apply H].
  intros cvs. induction cvs as [|cv cvs IH]; intros m; [done|]. rewrite imap_cons. cbn [opts_pat].
  rewrite Nat.add_0_r. f_equal. rewrite <- IH. apply imap_ext. intros i x _. unfold compose. by rewrite Nat.add_succ_r.
Qed.

(** The numbers of the tier print as they are read. *)
Definition written_tier (t : VisualTier) : Prop :=
  written_number (cost t input_unit_cost) /\ written_number (cost t output_unit_cost) /\
  Forall (fun cv => written_number (cost t cv.1)) BILLING_CACHE_VAR_MAP.

Definition call_caps (n : nat) (l : jstring) (t : VisualTier) : caps :=
  opts_caps t (n + 3) BILLING_CACHE_VAR_MAP ++
  [((n + 2)%nat, string_of_num (num_or_zero (cost t output_unit_cost)));
   ((n + 1)%nat, string_of_num (num_or_zero (cost t input_unit_cost))); (n, l)].

Lemma cache_vars_shape : Forall (fun cv : jstring * jstring => starts is_ws cv.2 = false /\ cv.2 <> []) BILLING_CACHE_VAR_MAP.
Proof. repeat constructor; done. Qed.

Lemma call_take {A} n l t (k : cont A) a c y : Forall (fun x => not_quote x = true) l -> written_tier t ->
  k a (call_caps n l t ++ c) = Some y -> run (Seqs (call_pat n)) k (tier_call l t ++ a) c = Some y.
Proof.
  intros Hl ((Hi1 & Hi2 & _) & (Ho1 & Ho2 & _) & Hcs) Hk. unfold call_pat, tier_call.
  cbn [app Seqs foldr]. rewrite <- !app_assoc, run_Seq. rewrite (app_assoc (js "tier(")), run_Lit_app.
  rewrite run_Seq, run_Grp. apply run_Star_take; [done|done|]. rewrite captured.
  change (js ", " ++ ?x) with (44%N :: 32%N :: x). rewrite run_Seq. lit. rewrite run_Seq. apply spaces_take.
  { rewrite body_text_eq. done. }
  unfold bodyPat. rewrite body_text_eq, <- !app_assoc. apply term_take; [done|done|done|].
  cbn [app Seqs foldr]. rewrite run_Seq. change (js " + " ++ ?x) with (32%N :: 43%N :: 32%N :: x).
  apply spaces_take; [done|]. rewrite run_Seq. lit. rewrite run_Seq. apply spaces_take; [done|].
  replace (n + 1 + 1)%nat with (n + 2)%nat by lia. replace (n + 1 + 2)%nat with (n + 3)%nat by lia.
  rewrite optional_terms. apply term_take; [done|done|apply cache_terms_start|].
  apply opts_take; [apply cache_vars_clash|apply cache_vars_shape|done|].
  cbn [Seqs foldr]. rewrite run_Seq. lit. cbn [run]. unfold call_caps in Hk. rewrite <- app_assoc in Hk. exact Hk.
Qed.

(** ** From a match to prices *)

Lemma cap_opts_low t cvs : forall m j c, (j < m)%nat -> cap (opts_caps t m cvs ++ c) j = cap c j.
Proof.
  induction cvs as [|cv l IH]; intros m j c' Hj; [done|]. cbn [opts_caps]. rewrite <- app_assoc, IH by lia.
  destruct (num_truthy _); [|done]. cbn. by rewrite (proj2 (Nat.eqb_neq m j)) by lia.
Qed.

Lemma cap_opts t cvs : forall c m i cv, cvs !! i = Some cv -> (forall j, (m <= j)%nat -> cap c j = None) ->
  cap (opts_caps t m cvs ++ c) (m + i) =
  (if num_truthy (num_or_zero (cost t cv.1)) then Some (string_of_num (num_or_zero (cost t cv.1))) else None).
Proof.
  induction cvs as [|cv0 cvs IH]; intros c m i cv Hi Hc; [done|]. cbn [opts_caps]. rewrite <- app_assoc.
  destruct i as [|i].
  - injection Hi as ->. rewrite cap_opts_low by lia. rewrite Nat.add_0_r. destruct (num_truthy _).
    + cbn. by rewrite Nat.eqb_refl.
    + apply Hc. lia.
  - rewrite Nat.add_succ_r, <- Nat.add_succ_l. apply IH; [done|]. intros j Hj. destruct (num_truthy _); [|apply Hc; lia].
    cbn. rewrite (proj2 (Nat.eqb_neq m j)) by lia. apply Hc. lia.
Qed.

(** The prices that are read: those of a pattern's optional terms only where they are not 0. *)
Definition read_costs (t : VisualTier) : list (jstring * jsnum) :=
  [(input_unit_cost, num_or_zero (cost t input_unit_cost)); (output_unit_cost, num_or_zero (cost t output_unit_cost))] ++
  concat (map (fun cv : jstring * jstring =>
    let v := num_or_zero (cost t cv.1) in if num_truthy v then [(cv.1, v)] else []) BILLING_CACHE_VAR_MAP).

Lemma match_costs n cs l t c : written_tier t -> (forall j, (n < j)%nat -> cap c j = None) -> 
  costs (tier_of_match n cs (call_caps n l t ++ c)) = read_costs t /\ label (tier_of_match n cs (call_caps n l t ++ c)) = Some l.
Proof.
  intros ((_ & _ & Hi) & (_ & _ & Ho) & Hcs) Hc.
  set (base := [((n + 2)%nat, string_of_num (num_or_zero (cost t output_unit_cost)));
    ((n + 1)%nat, string_of_num (num_or_zero (cost t input_unit_cost))); (n, l)]).
  assert (call_caps n l t ++ c = opts_caps t (n + 3) BILLING_CACHE_VAR_MAP ++ (base ++ c)) as E.
  { unfold call_caps. by rewrite <- app_assoc. }
  assert (forall a b : nat, a <> b -> (a =? b)%nat = false) as Hneq by (intros a b; by apply Nat.eqb_neq).
  rewrite E. unfold tier_of_match, capd. cbn [costs label].
  rewrite !cap_opts_low by lia. split.
  - unfold base. cbn [app cap]. rewrite !Nat.eqb_refl, !(Hneq (n + 2)%nat) by lia. assert (forall x : jstring, coalesce (Some x) [] = x) as Hco by done.
    rewrite !Hco, Hi, Ho. unfold read_costs. cbn [app]. do 3 f_equal.
    change (@map (jstring * jstring)) with (fun B => @fmap list _ (jstring * jstring) B). cbv beta.
    apply list_eq. intros i. rewrite list_lookup_imap, list_lookup_fmap.
    destruct (BILLING_CACHE_VAR_MAP !! i) as [cv|] eqn:Ei; [|done]. cbn [fmap option_fmap option_map]. f_equal.
    rewrite (cap_opts t BILLING_CACHE_VAR_MAP _ (n + 3) i cv Ei).
    + rewrite Forall_lookup in Hcs. destruct (Hcs i cv Ei) as (_ & _ & Hn). destruct (num_truthy _); [|done]. by rewrite Hn.
    + intros j Hj. cbn [cap]. rewrite !Hneq by lia. apply Hc. lia.
  - unfold base. cbn [app cap]. rewrite !(Hneq _ n) by lia. by rewrite Nat.eqb_refl.
Qed.

(** ** Normalized prices *)

Lemma mget_spread (l : list (jstring * jsnum)) : forall o k, NoDup (map fst l) ->
  mget (foldl (fun o fv => mset o fv.1 fv.2) o l) k = match mget l k with Some v => Some v | None => mget o k end.
Proof.
  induction l as [|[f v] l IH]; intros o k Hnd; [done|]. cbn [map fst] in Hnd. apply NoDup_cons in Hnd as [Hf Hnd].
  cbn [foldl fst snd]. rewrite IH, mget_mset by done. cbn [mget]. destruct (decide (f = k)) as [-> |]; [|done].
  by rewrite (proj2 (mget_None l k)).
Qed.

Lemma mget_set_all (g : jstring -> jsnum) fs : forall o k,
  mget (foldl (fun o f => mset o f (g f)) o fs) k = if decide (k ∈ fs) then Some (g k) else mget o k.
Proof.
  induction fs as [|f fs IH]; intros o k; [by rewrite decide_False by apply not_elem_of_nil|].
  cbn [foldl]. rewrite IH, mget_mset. destruct (decide (k ∈ fs)) as [Hin|Hin].
  - rewrite decide_True; [done|by right].
  - destruct (decide (f = k)) as [-> |Hne]; [rewrite decide_True; [done|by left]|].
    rewrite decide_False; [done|]. by intros [-> |]%elem_of_cons.
Qed.

Lemma foldl_NoDup {X} (h : list (jstring * jsnum) -> X -> list (jstring * jsnum)) l o :
  (forall o x, NoDup (map fst o) -> NoDup (map fst (h o x))) -> NoDup (map fst o) -> NoDup (map fst (foldl h o l)).
Proof. intros Hh. revert o. induction l as [|x l IH]; intros o Ho; [done|]. cbn. auto. Qed.

Lemma normalize_costs_NoDup t : NoDup (map fst (costs (normalizeVisualTier t))).
Proof.
  unfold normalizeVisualTier. cbn [costs]. apply foldl_NoDup; [intros; by apply mset_NoDup|].
  apply foldl_NoDup; [intros; by apply mset_NoDup|]. apply (bool_decide_unpack _). vm_compute. exact I.
Qed.

Lemma cost_normalized t f : NoDup (map fst (costs t)) -> f ∈ normalized_fields ->
  cost (normalizeVisualTier t) f = num_or_zero (cost t f).
Proof. intros Hnd Hf. unfold cost at 1, normalizeVisualTier. cbn [costs]. by rewrite mget_set_all, decide_True. Qed.

(** A price that is there before [...tier] is what the tier brings, whatever it is. *)
Lemma cost_kept t f v : NoDup (map fst (costs t)) -> f ∉ normalized_fields -> mget (costs t) f = Some v ->
  cost (normalizeVisualTier t) f = v /\ mget (costs (normalizeVisualTier t)) f = Some v.
Proof.
  intros Hnd Hf Hv. unfold cost, normalizeVisualTier. cbn [costs]. rewrite mget_set_all, decide_False by done.
  by rewrite mget_spread, Hv.
Qed.

(** The fields of a price. *)
Definition price_fields : list jstring := input_unit_cost :: output_unit_cost :: normalized_fields.

(** The tiers charge the same. *)
Definition same_prices (t t' : VisualTier) : Prop :=
  Forall (fun f => cost t' f = num_or_zero (cost t f)) price_fields.

Lemma num_or_zero_idem x : num_or_zero (num_or_zero x) = num_or_zero x.
Proof. unfold num_or_zero. by destruct (num_truthy x) eqn:E; rewrite ?E. Qed.

Definition optional_costs (t : VisualTier) (cvs : list (jstring * jstring)) : list (jstring * jsnum) :=
  concat (map (fun cv : jstring * jstring =>
    let v := num_or_zero (cost t cv.1) in if num_truthy v then [(cv.1, v)] else []) cvs).

Lemma optional_costs_keys t cvs : map fst (optional_costs t cvs) `sublist_of` map fst cvs.
Proof.
  induction cvs as [|cv cvs IH]; [constructor|]. unfold optional_costs. cbn [map concat].
  destruct (num_truthy _); cbn [app map fst]; by constructor.
Qed.

Lemma optional_costs_get t cvs f : NoDup (map fst cvs) -> f ∈ map fst cvs ->
  num_or_zero (coalesce (mget (optional_costs t cvs) f) NaN) = num_or_zero (cost t f).
Proof.
  induction cvs as [|cv cvs IH]; [by intros _ ?%elem_of_nil|]. cbn [map]. intros [Hcv Hnd]%NoDup_cons Hf.
  unfold optional_costs. cbn [map concat]. fold (optional_costs t cvs).
  assert (cv.1 = f -> mget (optional_costs t cvs) f = None) as Hnone.
  { intros <-. apply mget_None. intros H. apply Hcv. eapply elem_of_sublist; [exact H|]. apply optional_costs_keys. }
  destruct (num_truthy (num_or_zero (cost t cv.1))) eqn:Ev; cbn [app mget].
  - destruct (decide (cv.1 = f)) as [-> | Hne]; [apply num_or_zero_idem|]. apply IH; [done|].
    by apply elem_of_cons in Hf as [-> | Hf].
  - destruct (decide (cv.1 = f)) as [E | Hne].
    + rewrite (Hnone E). subst f. cbn. revert Ev. unfold num_or_zero.
      destruct (num_truthy (cost t cv.1)) eqn:E2; [by rewrite E2|done].
    + apply IH; [done|]. by apply elem_of_cons in Hf as [-> | Hf].
Qed.

Lemma price_fields_NoDup : NoDup price_fields.
Proof. apply (bool_decide_unpack _). vm_compute. exact I. Qed.

Lemma read_costs_NoDup t : NoDup (map fst (read_costs t)).
Proof.
  eapply sublist_NoDup; [apply price_fields_NoDup|]. unfold read_costs. fold (optional_costs t BILLING_CACHE_VAR_MAP).
  cbn [app map fst]. unfold price_fields. do 2 constructor. apply optional_costs_keys.
Qed.

Lemma read_prices t u : costs u = read_costs t -> same_prices t (normalizeVisualTier (normalizeVisualTier u)).
Proof.
  intros E. pose proof price_fields_NoDup as Hnd. pose proof (normalize_costs_NoDup u) as Hn.
  assert (NoDup (map fst (costs u))) as Hu by (rewrite E; apply read_costs_NoDup).
  unfold price_fields in Hnd. apply NoDup_cons in Hnd as [Hi Hnd]. apply NoDup_cons in Hnd as [Ho Hnd].
  assert (input_unit_cost ∉ normalized_fields) as Hi' by (intros H; apply Hi; by right).
  unfold same_prices, price_fields. constructor; [|constructor].
  - destruct (cost_kept u input_unit_cost (num_or_zero (cost t input_unit_cost))) as [_ H]; [done|done|by rewrite E|].
    by apply cost_kept.
  - destruct (cost_kept u output_unit_cost (num_or_zero (cost t output_unit_cost))) as [_ H]; [done|done|by rewrite E|].
    by apply cost_kept.
  - apply Forall_forall. intros f Hf. rewrite !cost_normalized, num_or_zero_idem by done. unfold cost at 1. rewrite E.
    unfold read_costs. fold (optional_costs t BILLING_CACHE_VAR_MAP). cbn [app mget].
    rewrite !decide_False; [by apply optional_costs_get|by intros <-|by intros <-].
Qed.

Lemma same_prices_body t t' : same_prices t t' -> buildTierBodyExpr t' = buildTierBodyExpr t.
Proof.
  intros H. apply Forall_cons in H as [Hi [Ho H]%Forall_cons]. unfold buildTierBodyExpr.
  rewrite Hi, Ho, !num_or_zero_idem. do 3 f_equal. unfold normalized_fields in H.
  apply (proj1 (Forall_map _ _ _)) in H. induction H as [|cv cvs Hc _ IH]; [done|]. cbn [flat_map]. rewrite IH.
  f_equal. unfold cache_part. by rewrite Hc, num_or_zero_idem.
Qed.

(** ** Conditions *)

(** A condition the pattern can read: a variable, an operator and a number printed without a
    minus sign. *)
Definition written_condition (c : TierConditionInput) : Prop :=
  ci_var c ∈ [js "p"; js "c"; js "len"] /\ ci_op c ∈ [js "<"; js "<="; js ">"; js ">="] /\
  exists n, ci_value c = Some (value_num n) /\ string_of_num n <> [] /\
    Forall (fun x => cond_unit x = true) (string_of_num n) /\ Number (string_of_num n) = n.

Definition number_of (c : TierConditionInput) : jsnum :=
  match ci_value c with Some (value_num n) => n | _ => NaN end.

Lemma condition_text_eq c : written_condition c ->
  condition_str c = ci_var c ++ 32%N :: ci_op c ++ 32%N :: string_of_num (number_of c).
Proof. intros (_ & _ & n & E & _). unfold condition_str, number_of. by rewrite E. Qed.

Lemma cond_unit_no_ws x : cond_unit x = true -> is_ws x = false /\ x <> 38%N.
Proof.
  unfold cond_unit. intros [H | H]%orb_true_iff.
  - split; [by apply is_digit_not_ws|]. intros ->. done.
  - apply bool_decide_eq_true in H. change (js ".eE+") with [46; 101; 69; 43]%N in H.
    repeat (apply elem_of_cons in H as [-> | H]; [done|]). by apply elem_of_nil in H.
Qed.

(** Case analysis on a member of a list of texts. *)
Ltac each H := repeat (apply elem_of_cons in H as [-> | H]); [.. | by apply elem_of_nil in H].

Lemma vars_take {A} v (k : cont A) T c y : v ∈ [js "p"; js "c"; js "len"] -> k (32%N :: T) c = Some y ->
  run cond_vars k (v ++ 32%N :: T) c = Some y.
Proof.
  intros Hv Hk. unfold cond_vars, alts. each Hv; rewrite run_Alt.
  - lit. by rewrite Hk.
  - nolit. cbn [orelse]. rewrite run_Alt. lit. by rewrite Hk.
  - nolit. cbn [orelse]. rewrite run_Alt. nolit. cbn [orelse]. by lit.
Qed.

(** The shorter operators come first: what follows must not start at an equals sign. *)
Lemma ops_take {A} op (k : cont A) T c y : op ∈ [js "<"; js "<="; js ">"; js ">="] ->
  k (61%N :: 32%N :: T) c = None -> k (32%N :: T) c = Some y -> run cond_ops k (op ++ 32%N :: T) c = Some y.
Proof.
  intros Hop Heq Hk. unfold cond_ops, alts. each Hop; rewrite run_Alt.
  - lit. by rewrite Hk.
  - change (js "<=" ++ ?x) with (60%N :: 61%N :: x). lit. rewrite Heq. cbn [orelse]. rewrite run_Alt. lit. by rewrite Hk.
  - nolit. cbn [orelse]. rewrite run_Alt. nolit. cbn [orelse]. rewrite run_Alt. lit. by rewrite Hk.
  - nolit. cbn [orelse]. rewrite run_Alt. nolit. cbn [orelse]. rewrite run_Alt.
    change (js ">=" ++ ?x) with (62%N :: 61%N :: x). lit. rewrite Heq. cbn [orelse]. by lit.
Qed.

Lemma op_start op T : op ∈ [js "<"; js "<="; js ">"; js ">="] -> starts is_ws (op ++ T) = false.
Proof. intros Hop. by each Hop. Qed.

Lemma var_start v T : v ∈ [js "p"; js "c"; js "len"] -> starts is_ws (v ++ T) = false.
Proof. intros Hv. by each Hv. Qed.

Lemma cond_number_start w T : w <> [] -> Forall (fun x => cond_unit x = true) w -> starts is_ws (w ++ T) = false.
Proof. intros Hne Hw. destruct Hw as [|x w Hx _]; [done|]. by apply cond_unit_no_ws. Qed.

(** A variable, an operator and a number, with a space between them. *)
Lemma cond_head {A} v op w (k : cont A) a c y :
  v ∈ [js "p"; js "c"; js "len"] -> op ∈ [js "<"; js "<="; js ">"; js ">="] ->
  w <> [] -> Forall (fun x => cond_unit x = true) w -> starts cond_unit a = false -> k a c = Some y ->
  run cond_re k (v ++ 32%N :: op ++ 32%N :: w ++ a) c = Some y.
Proof.
  intros Hv Hop Hne Hw Ha Hk. unfold cond_re. cbn [Seqs foldr]. rewrite run_Seq. apply vars_take; [done|].
  rewrite run_Seq. apply spaces_take; [by apply op_start|]. rewrite run_Seq. apply ops_take; [done|reflexivity|].
  rewrite run_Seq. apply spaces_take; [by apply cond_number_start|]. rewrite run_Seq. by apply run_Plus_take.
Qed.

(** The reader of one condition. *)
Lemma cond_fullmatch v op w :
  v ∈ [js "p"; js "c"; js "len"] -> op ∈ [js "<"; js "<="; js ">"; js ">="] ->
  w <> [] -> Forall (fun x => cond_unit x = true) w ->
  fullmatch (Seqs [Grp 1 cond_vars; spaces; Grp 2 cond_ops; spaces; Grp 3 (Plus (Chr cond_unit))])
    (v ++ 32%N :: op ++ 32%N :: w) = Some [(3%nat, w); (2%nat, op); (1%nat, v)].
Proof.
  intros Hv Hop Hne Hw. unfold fullmatch. cbn [Seqs foldr]. rewrite run_Seq, run_Grp. apply vars_take; [done|].
  rewrite captured, run_Seq. apply spaces_take; [by apply op_start|]. rewrite run_Seq, run_Grp.
  apply ops_take; [done|reflexivity|]. rewrite captured, run_Seq.
  rewrite <- (app_nil_r w). apply spaces_take; [by apply cond_number_start|]. rewrite run_Seq, run_Grp.
  apply run_Plus_take; [done|done|done|]. by rewrite captured, app_nil_r.
Qed.

Lemma cond_take {A} cd (k : cont A) a c y : written_condition cd -> starts cond_unit a = false -> k a c = Some y ->
  run cond_re k (condition_str cd ++ a) c = Some y.
Proof.
  intros Hc Ha Hk. rewrite condition_text_eq by done. destruct Hc as (Hv & Hop & n & E & Hne & Hw & _).
  unfold number_of. rewrite E. cbn [app]. rewrite <- app_assoc. cbn [app]. rewrite <- app_assoc. cbn [app].
  by apply cond_head.
Qed.

(** Further conditions, each after its operator. *)
Definition more_conditions (cs : list TierConditionInput) : jstring := concat (map (fun c => js " && " ++ condition_str c) cs).

Definition next_condition : regex := Seqs [spaces; Lit (js "&&"); spaces; cond_re].

Lemma more_start cs a : starts cond_unit a = false -> starts cond_unit (more_conditions cs ++ a) = false.
Proof. by destruct cs. Qed.

Lemma condition_nonempty c : written_condition c -> condition_str c <> [].
Proof. intros H. rewrite condition_text_eq by done. by destruct (ci_var c). Qed.

Lemma more_take {A} cs (k : cont A) a c y : Forall written_condition cs ->
  starts cond_unit (32%N :: 63%N :: a) = false -> k (32%N :: 63%N :: a) c = Some y -> forall fuel, (length cs <= fuel)%nat ->
  star_loop (run next_condition) k fuel (more_conditions cs ++ 32%N :: 63%N :: a) c = Some y.
Proof.
  intros Hcs Ha Hk. induction Hcs as [|cd cs Hc _ IH]; intros fuel Hf.
  - cbn [more_conditions map concat app]. destruct fuel as [|f]; cbn [star_loop]; [by rewrite Hk|].
    assert (forall h : cont A, run next_condition h (32%N :: 63%N :: a) c = None) as Hn.
    { intros h. unfold next_condition. cbn [Seqs foldr]. rewrite run_Seq. by apply space_none. }
    by rewrite Hn, Hk.
  - destruct fuel as [|f]; [cbn in Hf; lia|]. cbn [star_loop]. unfold more_conditions. cbn [map concat].
    fold (more_conditions cs). rewrite <- !app_assoc.
    set (T := more_conditions cs ++ 32%N :: 63%N :: a) in *.
    assert (forall h : cont A, h T c = Some y -> run next_condition h (js " && " ++ condition_str cd ++ T) c = Some y) as Hn.
    { intros h Hh. unfold next_condition. cbn [Seqs foldr]. rewrite run_Seq.
      change (js " && " ++ ?x) with (32%N :: 38%N :: 38%N :: 32%N :: x). apply spaces_take; [done|]. rewrite run_Seq. lit.
      rewrite run_Seq. apply spaces_take.
      - rewrite condition_text_eq, <- app_assoc by done. apply var_start, Hc.
      - apply (cond_take cd (run Eps h)); [done|by apply more_start|done]. }
    rewrite Hn; [done|]. rewrite (proj2 (Nat.ltb_lt _ _)) by (rewrite !length_app; change (length (js " && ")) with 4%nat; lia).
    apply IH. cbn in Hf. lia.
Qed.

Lemma conds_text cs : cs <> [] -> Forall written_condition cs ->
  exists c0 cs', cs = c0 :: cs' /\ buildConditionStr (Some cs) = condition_str c0 ++ more_conditions cs'.
Proof.
  intros Hne Hcs. destruct cs as [|c0 cs]; [done|]. exists c0, cs. split; [done|]. unfold buildConditionStr.
  assert (List.filter complete_condition (c0 :: cs) = c0 :: cs) as ->.
  { apply Forall_true_filter. eapply Forall_impl; [exact Hcs|]. intros c (Hv & Hop & n & E & _).
    unfold complete_condition. rewrite E. rewrite andb_true_r. apply andb_true_iff. split.
    - by each Hv.
    - by each Hop. }
  cbn [map]. rewrite join_tail. unfold more_conditions. by rewrite map_map.
Qed.

Lemma condGroup_take {A} n cs (k : cont A) a c y : cs <> [] -> Forall written_condition cs ->
  k (32%N :: 63%N :: a) ((n, buildConditionStr (Some cs)) :: c) = Some y ->
  run (condGroup n) k (buildConditionStr (Some cs) ++ 32%N :: 63%N :: a) c = Some y.
Proof.
  intros Hne Hcs Hk. destruct (conds_text cs Hne Hcs) as (c0 & cs' & -> & E). rewrite E in *.
  apply Forall_cons in Hcs as [Hc0 Hcs]. unfold condGroup. rewrite run_Grp, run_Seq, <- app_assoc.
  apply cond_take; [done|by apply more_start|]. fold next_condition.
  change (Seqs [spaces; Lit (js "&&"); spaces; cond_re]) with next_condition. cbn [run]. apply more_take; [done|done| |].
  - rewrite app_assoc, captured. exact Hk.
  - rewrite length_app. unfold more_conditions. clear. induction cs' as [|c cs IH]; [cbn; lia|].
    cbn [map concat]. rewrite !length_app. change (length (js " && ")) with 4%nat. cbn [length] in *. lia.
Qed.

(** ** Splitting conditions *)

Definition and_sep : regex := Seqs [spaces; Lit (js "&&"); spaces].

Lemma search_no_prev r s : forall p p', search_from no_guard r p s = search_from no_guard r p' s.
Proof. destruct s as [|x s]; intros p p'; [done|]. done. Qed.

Lemma sep_none w x r : Forall (fun c => is_ws c = true) w -> is_ws x = false -> x <> 38%N ->
  prefixmatch and_sep (w ++ x :: r) = None.
Proof.
  intros Hw Hx Hx'. unfold prefixmatch, and_sep. cbn [Seqs foldr]. rewrite run_Seq. apply run_Star_none; [done|].
  intros w1 w2 ->. apply Forall_app in Hw as [_ Hw]. rewrite run_Seq. apply run_Lit_fail.
  destruct w2 as [|z w2]; change (js "&&") with [38; 38]%N; cbn [app startsWith].
  - by rewrite (proj2 (N.eqb_neq 38 x)) by congruence.
  - apply Forall_cons in Hw as [Hz _]. destruct (N.eqb_spec 38 z) as [<- |]; done.
Qed.

(** The text has no ampersand and does not end in white space. *)
Definition no_and (u : jstring) : Prop := Forall (fun x => x <> 38%N) u /\ exists u' z, u = u' ++ [z] /\ is_ws z = false.

Lemma first_solid u z : is_ws z = false -> exists w x r, u ++ [z] = w ++ x :: r /\ Forall (fun c => is_ws c = true) w /\ is_ws x = false.
Proof.
  intros Hz. induction u as [|c u IH]; [by exists [], z, []|]. destruct (is_ws c) eqn:Ec.
  - destruct IH as (w & x & r & E & Hw & Hx). exists (c :: w), x, r. cbn. rewrite E. split; [done|]. split; [by constructor|done].
  - by exists [], c, (u ++ [z]).
Qed.

Lemma search_skip u b p : Forall (fun x => x <> 38%N) u -> (u = [] \/ exists u' z, u = u' ++ [z] /\ is_ws z = false) ->
  search_from no_guard and_sep p (u ++ b) =
  match search_from no_guard and_sep p b with Some (before, c, rest) => Some (u ++ before, c, rest) | None => None end.
Proof.
  revert p. induction u as [|x u IH]; intros p Hu Hlast.
  { cbn [app]. by destruct (search_from _ _ p b) as [[[? ?] ?]|]. }
  destruct Hlast as [|(u' & z & E & Hz)]; [done|].
  assert (prefixmatch and_sep ((x :: u) ++ b) = None) as Hn.
  { destruct (first_solid u' z Hz) as (w & y & r & E' & Hw & Hy). rewrite E, E', <- app_assoc. cbn [app].
    apply sep_none; [done|done|]. rewrite E, E' in Hu. apply Forall_app in Hu as [_ [Hu _]%Forall_cons]. done. }
  apply Forall_cons in Hu as [_ Hu]. cbn [app search_from no_guard]. cbn [app] in Hn. rewrite Hn.
  rewrite IH; [|done|].
  - rewrite (search_no_prev _ b (Some x) p). by destruct (search_from _ _ p b) as [[[? ?] ?]|].
  - destruct u' as [|x' u']; [left; by injection E as _ ->|]. right. exists u', z. by injection E as _ ->.
Qed.

Lemma condition_no_and c : written_condition c -> no_and (condition_str c).
Proof.
  intros H. rewrite condition_text_eq by done. destruct H as (Hv & Hop & n & E & Hne & Hw & _). unfold number_of. rewrite E.
  split.
  - apply Forall_app. split; [by each Hv; repeat constructor|]. constructor; [done|]. apply Forall_app.
    split; [by each Hop; repeat constructor|]. constructor; [done|]. eapply Forall_impl; [exact Hw|].
    intros x Hx. by apply cond_unit_no_ws.
  - destruct (string_of_num n) as [|z w _] using rev_ind; [done|]. apply Forall_app in Hw as [_ Hw].
    exists (ci_var c ++ 32%N :: ci_op c ++ 32%N :: w), z. apply Forall_inv in Hw. split; [|by apply cond_unit_no_ws].
    by rewrite <- !app_assoc; cbn [app]; rewrite <- app_assoc.
Qed.

Lemma split_written c0 cs : written_condition c0 -> Forall written_condition cs ->
  forall fuel p, (length cs < fuel)%nat ->
  let (ms, tail) := match_all no_guard and_sep fuel p (condition_str c0 ++ more_conditions cs) in
  map fst ms ++ [tail] = map condition_str (c0 :: cs).
Proof.
  intros Hc0 Hcs. revert c0 Hc0. induction Hcs as [|c1 cs Hc1 Hcs IH]; intros c0 Hc0 fuel p Hf;
    (destruct fuel as [|f]; [lia|]); cbn [match_all];
    destruct (condition_no_and c0 Hc0) as [Hno Hlast]; (rewrite search_skip; [|done|by right]).
  - cbn [more_conditions map concat]. change (search_from no_guard and_sep p []) with (@None (jstring * caps * jstring)).
    cbn. by rewrite app_nil_r.
  - unfold more_conditions. cbn [map concat]. fold (more_conditions cs). rewrite <- app_assoc.
    set (T := condition_str c1 ++ more_conditions cs).
    assert (search_from no_guard and_sep p (js " && " ++ T) = Some ([], [], T)) as ->.
    { change (js " && " ++ T) with (32%N :: 38%N :: 38%N :: 32%N :: T). cbn [search_from no_guard].
      assert (prefixmatch and_sep (32%N :: 38%N :: 38%N :: 32%N :: T) = Some (T, [])) as ->; [|done].
      unfold prefixmatch, and_sep. cbn [Seqs foldr]. rewrite run_Seq. apply spaces_take; [done|]. rewrite run_Seq. lit.
      rewrite run_Seq. apply spaces_take; [|done]. unfold T. rewrite condition_text_eq, <- app_assoc by done.
      apply var_start, Hc1. }
    cbn [fst snd]. match goal with |- context [match_all _ _ f ?q T] => specialize (IH c1 Hc1 f q) end.
    fold T in IH. destruct (match_all _ _ f _ T) as [ms tail]. cbn [map fst]. rewrite app_nil_r. cbn [app]. f_equal. apply IH. cbn in Hf. lia.
Qed.

Lemma trim_condition c : written_condition c -> trim (condition_str c) = condition_str c.
Proof.
  intros H. pose proof (condition_no_and c H) as (_ & u & z & E & Hz). apply trim_solid.
  - rewrite condition_text_eq by done. destruct H as (Hv & _). each Hv; by eexists _, _.
  - exists z, u. done.
Qed.

Lemma conditions_read_back cs : cs <> [] -> Forall written_condition cs ->
  truthy (buildConditionStr (Some cs)) = true /\
  map condition_input (parse_tier_conditions (buildConditionStr (Some cs))) = cs.
Proof.
  intros Hne Hcs. destruct (conds_text cs Hne Hcs) as (c0 & cs' & -> & ->).
  apply Forall_cons in Hcs as [Hc0 Hcs].
  assert (truthy (condition_str c0 ++ more_conditions cs') = true) as Ht.
  { pose proof (condition_nonempty c0 Hc0). by destruct (condition_str c0). }
  split; [done|]. unfold parse_tier_conditions. rewrite Ht.
  assert (split_re and_sep (condition_str c0 ++ more_conditions cs') = map condition_str (c0 :: cs')) as Hs.
  { unfold split_re, matchAll. pose proof (split_written c0 cs' Hc0 Hcs) as H.
    specialize (H (S (length (condition_str c0 ++ more_conditions cs'))) None).
    destruct (match_all _ _ _ _ _) as [ms tail]. apply H. rewrite length_app.
    assert (length cs' <= length (more_conditions cs'))%nat; [|lia]. clear. unfold more_conditions.
    induction cs' as [|c cs IH]; cbn [map concat length]; [lia|]. rewrite !length_app. change (length (js " && ")) with 4%nat. lia. }
  change (Seqs [spaces; Lit (js "&&"); spaces]) with and_sep. rewrite Hs.
  assert (Forall written_condition (c0 :: cs')) as Hall by by constructor. clear -Hall.
  induction Hall as [|c cs Hc _ IH]; [done|]. cbn [map omap list_omap]. rewrite trim_condition by done.
  rewrite condition_text_eq by done. pose proof Hc as (Hv & Hop & n & E & Hne & Hw & Hnum). unfold number_of. rewrite E.
  rewrite cond_fullmatch by done. cbn [map]. f_equal; [|exact IH]. unfold condition_input, capd. cbn [cap Nat.eqb].
  cbn. rewrite Hnum. destruct c. cbn in *. by rewrite E.
Qed.

(** ** The branches of a text *)

Record branch := { br_label : jstring; br_conditions : list TierConditionInput; br_tier : VisualTier }.

Definition branch_head (b : branch) : jstring :=
  match br_conditions b with [] => [] | cs => buildConditionStr (Some cs) ++ js " ? " end.
Definition branch_text (b : branch) : jstring := branch_head b ++ tier_call (br_label b) (br_tier b).

Definition good_branch (b : branch) : Prop :=
  truthy (br_label b) = true /\ Forall (fun x => not_quote x = true) (br_label b) /\ written_tier (br_tier b) /\
  Forall written_condition (br_conditions b).

Definition branch_caps (b : branch) : caps :=
  call_caps 2 (br_label b) (br_tier b) ++
  match br_conditions b with [] => [] | cs => [(1%nat, buildConditionStr (Some cs))] end.

Lemma branch_take b a : good_branch b -> prefixmatch visualTierRe (branch_text b ++ a) = Some (a, branch_caps b).
Proof.
  intros (Hl & Hq & Ht & Hcs). unfold prefixmatch, visualTierRe, branch_text, branch_head, branch_caps.
  cbn [Seqs foldr]. fold (Seqs (call_pat 2)). rewrite run_Seq. unfold Opt. rewrite run_Alt. destruct (br_conditions b) as [|c0 cs].
  - cbn [app]. match goal with |- orelse ?x _ = _ => assert (x = None) as -> end.
    { unfold tier_call. rewrite <- !app_assoc. reflexivity. }
    cbn [orelse run]. by apply (call_take 2 (br_label b) (br_tier b)).
  - rewrite <- !app_assoc.
    match goal with |- orelse ?x _ = _ => assert (x = Some (a, call_caps 2 (br_label b) (br_tier b) ++
      [(1%nat, buildConditionStr (Some (c0 :: cs)))])) as -> end; [|done].
    cbn [Seqs foldr]. rewrite run_Seq. change (js " ? " ++ ?x) with (32%N :: 63%N :: 32%N :: x).
    apply condGroup_take; [done|done|]. rewrite run_Seq. apply spaces_take; [done|]. rewrite run_Seq. lit.
    rewrite run_Seq. apply spaces_take; [done|]. cbn [run]. by apply (call_take 2 (br_label b) (br_tier b)).
Qed.

Lemma search_here r p s rest c : prefixmatch r s = Some (rest, c) -> search_from no_guard r p s = Some ([], c, rest).
Proof. intros H. destruct s as [|x s]; cbn [search_from no_guard]; by rewrite H. Qed.

(** The text between two branches holds no tier. *)
Lemma search_colon p s rest c : prefixmatch visualTierRe s = Some (rest, c) ->
  search_from no_guard visualTierRe p (js " : " ++ s) = Some (js " : ", c, rest).
Proof.
  intros H. change (js " : " ++ s) with (32%N :: 58%N :: 32%N :: s). cbn [search_from no_guard].
  assert (forall t, prefixmatch visualTierRe (32%N :: t) = None) as H1 by reflexivity.
  assert (forall t, prefixmatch visualTierRe (58%N :: t) = None) as H2 by reflexivity.
  by rewrite !H1, H2, (search_here _ _ s rest c).
Qed.

Lemma more_matches end_ bs : (forall p, search_from no_guard visualTierRe p end_ = None) -> Forall good_branch bs ->
  forall fuel p, (length bs < fuel)%nat ->
  map snd (match_all no_guard visualTierRe fuel p (concat (map (fun b => js " : " ++ branch_text b) bs) ++ end_)).1 =
  map branch_caps bs.
Proof.
  intros Hend. induction 1 as [|b bs Hb _ IH]; intros fuel p Hf; (destruct fuel as [|f]; [lia|]); cbn [match_all map concat].
  - cbn [app]. by rewrite Hend.
  - rewrite <- !app_assoc. rewrite (search_colon p _ _ _ (branch_take b _ Hb)).
    match goal with |- context [match_all _ _ f ?q ?T] => specialize (IH f q) end.
    destruct (match_all _ _ f _ _) as [ms tail]. cbn [fst map snd] in *. f_equal. apply IH. cbn in Hf. lia.
Qed.

Lemma all_matches end_ b bs : (forall p, search_from no_guard visualTierRe p end_ = None) -> Forall good_branch (b :: bs) ->
  map snd (matchAll no_guard visualTierRe (join (js " : ") (map branch_text (b :: bs)) ++ end_)).1 = map branch_caps (b :: bs).
Proof.
  intros Hend [Hb Hbs]%Forall_cons. cbn [map]. rewrite join_tail, <- app_assoc, map_map. unfold matchAll.
  set (T := concat _ ++ end_). cbn [match_all]. rewrite (search_here _ _ _ _ _ (branch_take b T Hb)).
  pose proof (more_matches end_ bs Hend Hbs (length (branch_text b ++ T)) (last (take (length (branch_text b ++ T) - length T) (branch_text b ++ T)))) as H.
  fold T in H. destruct (match_all _ _ _ _ T) as [ms tail]. cbn [fst map snd] in *. f_equal. apply H.
  rewrite length_app. assert (1 <= length (branch_text b))%nat.
  { unfold branch_text, tier_call. rewrite !length_app. change (length (js "tier(")) with 5%nat. lia. }
  assert (length bs <= length T)%nat; [|lia]. unfold T. rewrite length_app. clear.
  induction bs as [|b' bs IH]; cbn [map concat length] in *; [lia|]. rewrite !length_app in *. change (length (js " : ")) with 3%nat. lia.
Qed.

(** ** The round trip *)

(** The branch of a tier at its place among [n]. *)
Definition branch_of (n i : nat) (t : VisualTier) : branch :=
  {| br_label := label_or t (if (n =? 1)%nat then js "default" else js "tier_" ++ dec_of_N (N.of_nat (i + 1)));
     br_conditions := if (n =? 1)%nat || (i <? n - 1)%nat then coalesce (conditions t) [] else [];
     br_tier := t |}.

Definition branches (tiers : VisualConfig) : list branch := imap (branch_of (length tiers)) tiers.

Definition text_of (bs : list branch) : jstring :=
  match bs with
  | [b] => branch_text b ++ match br_conditions b with [] => [] | _ => js " : " ++ empty_cost_expr end
  | _ => join (js " : ") (map branch_text bs)
  end.

(** The tier can be written: a label without a quote, numbers and conditions that are read as
    they print. *)
Definition readable_tier (t : VisualTier) : Prop :=
  Forall (fun x => not_quote x = true) (coalesce (label t) []) /\ written_tier t /\
  Forall written_condition (coalesce (conditions t) []).

Lemma not_quote_iff x : x <> 34%N -> not_quote x = true.
Proof. intros H. unfold not_quote, any_but. rewrite bool_decide_eq_false_2; [done|]. change qt with [34%N]. set_solver. Qed.

Lemma default_label n i : truthy (if (n =? 1)%nat then js "default" else js "tier_" ++ dec_of_N (N.of_nat (i + 1))) = true /\
  Forall (fun x => not_quote x = true) (if (n =? 1)%nat then js "default" else js "tier_" ++ dec_of_N (N.of_nat (i + 1))).
Proof.
  destruct (n =? 1)%nat; [split; [done|]; apply (bool_decide_unpack _); vm_compute; exact I|]. split; [done|].
  apply Forall_app. split; [apply (bool_decide_unpack _); vm_compute; exact I|].
  destruct (dec_of_N_spec (N.of_nat (i + 1))) as (_ & Hd & _). eapply Forall_impl; [exact Hd|]. cbn.
  intros x Hx. apply not_quote_iff. unfold is_digit in Hx. apply andb_true_iff in Hx as [Hx%N.leb_le _]. lia.
Qed.

Lemma good_branch_of n i t : readable_tier t -> good_branch (branch_of n i t).
Proof.
  intros (Hl & Ht & Hcs). destruct (default_label n i) as [Hd1 Hd2]. unfold good_branch, branch_of, label_or. cbn.
  split_and!; [by destruct (truthy (coalesce (label t) [])) eqn:E|by destruct (truthy (coalesce (label t) []))|done..|].
  destruct (_ || _); [done|constructor].
Qed.

Lemma good_branches tiers : Forall readable_tier tiers -> Forall good_branch (branches tiers).
Proof.
  intros H. apply Forall_lookup. intros i b Hb. unfold branches in Hb. rewrite list_lookup_imap in Hb.
  apply fmap_Some in Hb as (t & Ht & ->). rewrite Forall_lookup in H. by eapply good_branch_of, H.
Qed.

Lemma cond_head_text cs : Forall written_condition cs ->
  (if truthy (buildConditionStr (Some cs)) then buildConditionStr (Some cs) ++ js " ? " else []) =
  match cs with [] => [] | _ => buildConditionStr (Some cs) ++ js " ? " end.
Proof. intros H. destruct cs as [|c cs]; [done|]. by destruct (conditions_read_back (c :: cs)) as [-> _]. Qed.

Lemma build_coalesce cs : buildConditionStr cs = buildConditionStr (Some (coalesce cs [])).
Proof. by destruct cs. Qed.

Lemma generate_text tiers : tiers <> [] -> Forall readable_tier tiers ->
  generateExprFromVisualConfig (Some tiers) = text_of (branches tiers).
Proof.
  intros Hne Hr. destruct tiers as [|t [|t2 tiers]]; [done|..].
  - apply Forall_inv in Hr as (_ & _ & Hcs). unfold branches. cbn [imap text_of length generateExprFromVisualConfig].
    unfold branch_text, branch_head, branch_of. cbn [br_label br_conditions br_tier Nat.eqb orb]. rewrite build_coalesce.
    pose proof (cond_head_text _ Hcs) as H. destruct (coalesce (conditions t) []) as [|c cs]; [by rewrite app_nil_r|].
    destruct (conditions_read_back (c :: cs)) as [E _]; [done|done|]. rewrite E in *. by rewrite <- !app_assoc.
  - unfold branches. set (all := t :: t2 :: tiers) in *. transitivity (join (js " : ") (imap (tier_branch (length all - 1)) all)); [done|].
    transitivity (join (js " : ") (map branch_text (imap (branch_of (length all)) all))); [|done]. f_equal.
    apply list_eq. intros i. change (map branch_text ?l) with (branch_text <$> l). rewrite list_lookup_fmap, !list_lookup_imap.
    destruct (all !! i) as [u|] eqn:Ei; [|done]. cbn [fmap option_fmap option_map]. f_equal.
    rewrite Forall_lookup in Hr. destruct (Hr i u Ei) as (_ & _ & Hcs).
    unfold tier_branch, branch_text, branch_head, branch_of. cbn [br_label br_conditions br_tier].
    change (length all =? 1)%nat with false. cbn [orb]. rewrite build_coalesce.
    destruct (i <? length all - 1)%nat; [|done]. cbn [andb]. pose proof (cond_head_text _ Hcs) as H.
    destruct (coalesce (conditions u) []) as [|c cs]; [done|]. destruct (conditions_read_back (c :: cs)) as [E _]; [done|done|].
    rewrite E in *. by rewrite <- app_assoc.
Qed.

(** What is read for a branch. *)
Definition reads_as (b : branch) (t' : VisualTier) : Prop :=
  label t' = Some (br_label b) /\ conditions t' = Some (br_conditions b) /\ same_prices (br_tier b) t'.

Lemma call_caps_low n l t j : (j < n)%nat -> forall c, cap (call_caps n l t ++ c) j = cap c j.
Proof.
  intros Hj c. unfold call_caps. rewrite <- app_assoc, cap_opts_low by lia. cbn [app cap].
  by rewrite !(proj2 (Nat.eqb_neq _ _)) by lia.
Qed.

Lemma reads_match n b cs c : good_branch b -> (forall j, (n < j)%nat -> cap c j = None) -> cs = br_conditions b ->
  reads_as b (normalizeVisualTier (normalizeVisualTier (tier_of_match n cs (call_caps n (br_label b) (br_tier b) ++ c)))).
Proof.
  intros (_ & _ & Ht & _) Hc ->. destruct (match_costs n (br_conditions b) (br_label b) (br_tier b) c Ht Hc) as [Hcost Hlabel].
  split; [|split].
  - unfold normalizeVisualTier at 1. cbn [label]. unfold normalizeVisualTier. cbn [label]. by rewrite Hlabel.
  - done.
  - by apply read_prices.
Qed.

(** The captures of a branch give its conditions. *)
Lemma branch_conditions b : good_branch b ->
  map condition_input (parse_tier_conditions (capd (branch_caps b) 1)) = br_conditions b.
Proof.
  intros (_ & _ & _ & Hcs). unfold capd, branch_caps. rewrite call_caps_low by lia.
  destruct (br_conditions b) as [|c cs]; [done|]. by destruct (conditions_read_back (c :: cs)) as [_ E].
Qed.

(** The tiers that are read say the same text. *)
Lemma reads_readable b t' : good_branch b -> reads_as b t' -> readable_tier t' /\
  buildTierBodyExpr t' = buildTierBodyExpr (br_tier b).
Proof.
  intros (_ & Hq & (Hi & Ho & Hc) & Hcs) (Hl & Hcd & Hp). split; [|by apply same_prices_body].
  unfold readable_tier. rewrite Hl, Hcd. cbn. split_and!; [done| |done].
  apply Forall_cons in Hp as [Hpi [Hpo Hp]%Forall_cons]. unfold written_tier, written_number.
  rewrite Hpi, Hpo, !num_or_zero_idem. split; [done|]. split; [done|]. unfold normalized_fields in Hp.
  apply (proj1 (Forall_map _ _ _)) in Hp. rewrite Forall_forall in Hp, Hc |- *. intros cv Hcv.
  rewrite (Hp cv Hcv), num_or_zero_idem. by apply Hc.
Qed.

Lemma same_texts tiers tiers' : tiers <> [] -> Forall readable_tier tiers -> Forall2 reads_as (branches tiers) tiers' ->
  generateExprFromVisualConfig (Some tiers') = text_of (branches tiers).
Proof.
  intros Hne Hr H2. pose proof (good_branches tiers Hr) as Hg. pose proof (Forall2_length _ _ _ H2) as Hlen.
  unfold branches in Hlen. rewrite length_imap in Hlen.
  assert (Forall readable_tier tiers') as Hr'.
  { apply Forall_lookup. intros i t' Ht'. destruct (Forall2_lookup_r _ _ _ _ _ H2 Ht') as (b & Hb & Hre).
    rewrite Forall_lookup in Hg. by destruct (reads_readable b t' (Hg i b Hb) Hre). }
  rewrite generate_text; [|by destruct tiers, tiers'|done].
  assert (Forall2 (fun b b' => branch_text b' = branch_text b /\ br_conditions b' = br_conditions b) (branches tiers) (branches tiers')) as Hb2.
  { apply Forall2_same_length_lookup_2; [unfold branches; by rewrite !length_imap|]. intros i b b' Hb Hb'.
    unfold branches in Hb'. rewrite list_lookup_imap in Hb'. apply fmap_Some in Hb' as (t' & Ht' & ->).
    pose proof (Forall2_lookup_lr _ _ _ _ _ _ H2 Hb Ht') as Hre. rewrite Forall_lookup in Hg.
    pose proof (Hg i b Hb) as Hgb. destruct (reads_readable b t' Hgb Hre) as [_ Hbody].
    unfold branches in Hb. rewrite list_lookup_imap in Hb. apply fmap_Some in Hb as (t & Ht & Eb).
    destruct Hre as (Hl & Hcd & _). destruct Hgb as (Htl & _ & _ & _).
    assert (br_conditions (branch_of (length tiers') i t') = br_conditions b) as Ec.
    { unfold branch_of. cbn [br_conditions]. rewrite Hcd, Eb, <- Hlen. unfold branch_of. cbn [br_conditions coalesce from_option id].
      by destruct (_ || _). }
    split; [|done]. unfold branch_text, branch_head. rewrite Ec. f_equal. unfold tier_call. cbn [branch_of br_tier].
    rewrite Hbody. unfold branch_of. cbn [br_label]. unfold label_or. rewrite Hl. cbn. by rewrite Htl. }
  clear -Hb2. destruct Hb2 as [|b b' l l' [E1 E2] Hl]; [done|]. destruct Hl as [|b2 b2' l l' [E3 _] Hl].
  - cbn [text_of]. by rewrite E1, E2.
  - cbn [text_of]. f_equal. cbn [map]. rewrite E1, E3. do 2 f_equal. induction Hl as [|? ? ? ? [E _] _ IH]; [done|].
    cbn [map]. by rewrite E, IH.
Qed.

Lemma branch_start b a : good_branch b -> fullmatch version_re (branch_text b ++ a) = None /\
  (br_conditions b <> [] -> fullmatch singleRe (branch_text b ++ a) = None) /\ branch_text b ++ a <> [].
Proof.
  intros (_ & _ & _ & Hcs). unfold branch_text, branch_head. destruct (br_conditions b) as [|c cs].
  { split; [reflexivity|]. by split. }
  destruct (conds_text (c :: cs)) as (c0 & cs' & [= <- <-] & ->); [done|done|].
  apply Forall_cons in Hcs as [Hc _]. rewrite condition_text_eq, <- !app_assoc by done. destruct Hc as (Hv & _).
  each Hv; (split; [reflexivity|by split]).
Qed.

(** What the pattern for several tiers reads, when the other does not match. *)
Lemma read_matches bs end_ : Forall good_branch bs -> bs <> [] -> (forall p, search_from no_guard visualTierRe p end_ = None) ->
  let body := join (js " : ") (map branch_text bs) ++ end_ in
  Forall2 reads_as bs (map normalizeVisualTier (map (fun m : jstring * caps =>
      normalizeVisualTier (tier_of_match 2 (map condition_input (parse_tier_conditions (capd m.2 1))) m.2))
    (matchAll no_guard visualTierRe body).1)).
Proof.
  intros Hg Hne Hend body. rewrite map_map. destruct bs as [|b0 bs]; [done|].
  pose proof (all_matches end_ b0 bs Hend Hg) as E. fold body in E.
  set (read := fun m : caps => normalizeVisualTier (normalizeVisualTier
    (tier_of_match 2 (map condition_input (parse_tier_conditions (capd m 1))) m))).
  assert (forall ms : list (jstring * caps), map (fun x => normalizeVisualTier (normalizeVisualTier
    (tier_of_match 2 (map condition_input (parse_tier_conditions (capd x.2 1))) x.2))) ms = map read (map snd ms)) as ->.
  { intros ms. by rewrite map_map. }
  rewrite E. clear -Hg. revert Hg. generalize (b0 :: bs). intros l Hl. induction Hl as [|b l Hb _ IH]; [constructor|]. cbn [map]. constructor; [|exact IH].
  unfold read. rewrite branch_conditions by done. unfold branch_caps. apply reads_match; [done| |done].
  intros j Hj. destruct (br_conditions b); [done|]. cbn [cap]. by rewrite (proj2 (Nat.eqb_neq 1 j)) by lia.
Qed.

Lemma parse_matches body tiers : body <> [] -> fullmatch version_re body = None -> fullmatch singleRe body = None ->
  map (fun m : jstring * caps =>
      normalizeVisualTier (tier_of_match 2 (map condition_input (parse_tier_conditions (capd m.2 1))) m.2))
    (matchAll no_guard visualTierRe body).1 = tiers ->
  tiers <> [] -> generateExprFromVisualConfig (Some (map normalizeVisualTier tiers)) = body ->
  tryParseVisualConfig (Some body) = Some (map normalizeVisualTier tiers).
Proof.
  intros Hne Hv Hs Et Hnt Hgen.
  assert (normalizeVisualConfig (Some tiers) = map normalizeVisualTier tiers) as En by by destruct tiers.
  transitivity (match tiers with
    | [] => None
    | _ =>
        let cfg := normalizeVisualConfig (Some tiers) in
        if negb (jeqb (without_spaces (generateExprFromVisualConfig (Some cfg))) (without_spaces body)) then None else Some cfg
    end).
  - rewrite <- Et. unfold tryParseVisualConfig, strip_version. destruct body as [|x body']; [done|]. by rewrite Hv, Hs.
  - cbv zeta. rewrite En.
    change (generateExprFromVisualConfig (@Some VisualConfig (map normalizeVisualTier tiers)) = body) in Hgen.
    rewrite Hgen, jeqb_refl. by destruct tiers.
Qed.

(** C20. The text that is written for the tiers of the editor is read back as as many tiers with
    the labels, the conditions and the prices they were written with: for labels without a
    quote, numbers that print in the units the pattern takes, and, where there are several
    tiers, a condition on the first. *)
Theorem visual_read_back tiers :
  tiers <> [] -> Forall readable_tier tiers ->
  match tiers with t :: _ :: _ => coalesce (conditions t) [] <> [] | _ => True end ->
  exists tiers', tryParseVisualConfig (Some (generateExprFromVisualConfig (Some tiers))) = Some tiers' /\
    Forall2 reads_as (branches tiers) tiers'.
Proof.
  intros Hne Hr Hfirst. pose proof (good_branches tiers Hr) as Hg. rewrite generate_text by done.
  assert (forall end_, (forall p, search_from no_guard visualTierRe p end_ = None) ->
    text_of (branches tiers) = join (js " : ") (map branch_text (branches tiers)) ++ end_ ->
    match branches tiers with b :: _ => br_conditions b <> [] | [] => False end ->
    exists tiers', tryParseVisualConfig (Some (text_of (branches tiers))) = Some tiers' /\ Forall2 reads_as (branches tiers) tiers') as Hseveral.
  { intros end_ Hend E Hb. assert (branches tiers <> []) as Hbn by by destruct (branches tiers).
    pose proof (read_matches (branches tiers) end_ Hg Hbn Hend) as H2. cbv zeta in H2. rewrite <- E in H2.
    eexists. split; [|exact H2]. pose proof (same_texts tiers _ Hne Hr H2) as Hgen.
    assert (exists b rest, text_of (branches tiers) = branch_text b ++ rest /\ good_branch b /\ br_conditions b <> []) as (b & rest & Et & Hgb & Hbc).
    { rewrite E. destruct (branches tiers) as [|b bs]; [done|]. apply Forall_cons in Hg as [Hgb _].
      exists b. cbn [map]. rewrite join_tail, <- app_assoc. by eexists. }
    destruct (branch_start b rest Hgb) as (H1 & H3 & H4). rewrite <- Et in H1, H3, H4.
    apply parse_matches; [done|done|by apply H3|done| |done]. intros En. rewrite En in H2. by apply Forall2_nil_inv_r in H2. }
  destruct tiers as [|t [|t2 tiers]]; [done|..].
  - assert (branches [t] = [branch_of 1 0 t]) as Eb by done. rewrite Eb in *. apply Forall_inv in Hg.
    destruct (br_conditions (branch_of 1 0 t)) as [|c cs] eqn:Ec.
    + cbn [text_of]. rewrite Ec, app_nil_r. set (b := branch_of 1 0 t) in *. eexists. split.
      * unfold tryParseVisualConfig. destruct (branch_start b [] Hg) as (Hv & _ & Hn). rewrite app_nil_r in Hv, Hn.
        destruct (branch_text b) as [|x e] eqn:Ee; [done|]. rewrite <- Ee in *. unfold strip_version. rewrite Hv.
        assert (fullmatch singleRe (branch_text b) = Some (call_caps 1 (br_label b) (br_tier b) ++ [])) as ->; [|reflexivity].
        unfold branch_text, branch_head. rewrite Ec. cbn [app]. unfold fullmatch, singleRe.
        rewrite <- (app_nil_r (tier_call _ _)). destruct Hg as (_ & Hq & Ht & _). by apply call_take.
      * constructor; [|constructor]. apply (reads_match 1 b [] []); [done|done|by rewrite Ec].
    + apply (Hseveral (js " : " ++ empty_cost_expr)).
      * intros p. destruct p; reflexivity.
      * cbn [text_of map join]. by rewrite Ec.
      * done.
  - apply (Hseveral []).
    + done.
    + by rewrite app_nil_r.
    + exact Hfirst.
Qed.

(** ** A concrete table *)

Definition long_tier : VisualTier :=
  {| label := Some (js "long"); conditions := Some [{| ci_var := js "len"; ci_op := js ">="; ci_value := Some (value_num (Fin 200000)) |};
       {| ci_var := js "c"; ci_op := js "<"; ci_value := Some (value_num (Number (js "1.5"))) |}];
     cache_mode := None; costs := [(input_unit_cost, Fin 6); (output_unit_cost, Number (js "22.5"));
       (js "cache_create_1h_unit_cost", Number (js "0.3"))] |}.
Definition short_tier : VisualTier :=
  {| label := None; conditions := None; cache_mode := Some CACHE_MODE_GENERIC;
     costs := [(input_unit_cost, Fin 3); (output_unit_cost, NaN)] |}.

(** The conditions on numbers, decided. *)
Definition same_num (a b : jsnum) : bool :=
  match a, b with
  | NaN, NaN => true
  | Infinity s, Infinity t => Bool.eqb s t
  | Fin p, Fin q => (Qnum p =? Qnum q) && (Qden p =? Qden q)%positive
  | _, _ => false
  end.

Definition plain_numberb (unit : N -> bool) (x : jsnum) : bool :=
  truthy (string_of_num x) && forallb unit (string_of_num x) && same_num (Number (string_of_num x)) x.

Lemma plain_numberb_ok unit x : plain_numberb unit x = true ->
  string_of_num x <> [] /\ Forall (fun c => unit c = true) (string_of_num x) /\ Number (string_of_num x) = x.
Proof.
  unfold plain_numberb. intros [[H1 H2]%andb_true_iff H3]%andb_true_iff. split; [by destruct (string_of_num x)|]. split.
  - apply Forall_forall. intros c Hc%list_elem_of_In. by apply (proj1 (forallb_forall _ _) H2).
  - destruct (Number _) as [|s|p], x as [|t|q]; try done; cbn in H3.
    + by apply Bool.eqb_prop in H3 as ->.
    + apply andb_true_iff in H3 as [Hn%Z.eqb_eq Hd%Pos.eqb_eq]. destruct p, q; cbn in *; by subst.
Qed.

Lemma written_tier_ok t : forallb (fun f => plain_numberb num_unit (num_or_zero (cost t f))) price_fields = true -> written_tier t.
Proof.
  unfold price_fields. cbn [forallb]. intros [Hi [Ho H]%andb_true_iff]%andb_true_iff.
  split; [by apply plain_numberb_ok|]. split; [by apply plain_numberb_ok|].
  rewrite forallb_forall in H. apply Forall_forall. intros cv Hcv. apply plain_numberb_ok, H.
  apply in_map. by apply list_elem_of_In.
Qed.

Lemma written_condition_ok c : bool_decide (ci_var c ∈ [js "p"; js "c"; js "len"]) &&
  bool_decide (ci_op c ∈ [js "<"; js "<="; js ">"; js ">="]) &&
  match ci_value c with Some (value_num n) => plain_numberb cond_unit n | _ => false end = true -> written_condition c.
Proof.
  intros [[H1%bool_decide_eq_true H2%bool_decide_eq_true]%andb_true_iff H3]%andb_true_iff.
  split; [done|]. split; [done|]. destruct (ci_value c) as [[n|]|]; [|done..]. exists n. split; [done|].
  by apply plain_numberb_ok.
Qed.

Lemma visual_read_back_witness :
  exists tiers', tryParseVisualConfig (Some (generateExprFromVisualConfig (Some [long_tier; short_tier]))) = Some tiers' /\
    Forall2 reads_as (branches [long_tier; short_tier]) tiers'.
Proof.
  apply (visual_read_back [long_tier; short_tier]); [done| |done].
  assert (Forall written_condition (coalesce (conditions long_tier) [])) as Hc.
  { apply Forall_cons. split; [|apply Forall_cons; split; [|constructor]].
    - apply written_condition_ok. vm_compute. reflexivity.
    - apply written_condition_ok. vm_compute. reflexivity. }
  apply Forall_cons. split; [|apply Forall_cons; split; [|constructor]].
  - split; [apply (bool_decide_unpack _); vm_compute; exact I|]. split; [|exact Hc].
    apply written_tier_ok. vm_compute. reflexivity.
  - split; [apply (bool_decide_unpack _); vm_compute; exact I|]. split; [|constructor].
    apply written_tier_ok. vm_compute. reflexivity.
Defined.

(** A number that is none passes the pattern, and the two base prices keep it: they are
    normalized before the tier itself is spread over them; the other prices become 0. *)
Example malformed_price_kept :
  match tryParseVisualConfig (Some (js "tier(" ++ qt ++ js "a" ++ qt ++ js ", p * 1.2.3 + c * 1 + cr * 1.2.3)")) with
  | Some [t] => cost t input_unit_cost = NaN /\ cost t (js "cache_read_unit_cost") = Fin 0
  | _ => False
  end.
Proof. vm_compute. done. Qed.

(** A quote in a label ends it: the text that is written is not read back. *)
Example quoted_label_not_read :
  tryParseVisualConfig (Some (generateExprFromVisualConfig
    (Some [{| label := Some (js "a" ++ qt ++ js "b"); conditions := Some []; cache_mode := None; costs := [] |}]))) = None.
Proof. by vm_compute. Qed.
