(* ===== verification/StudioStorage.v ===== *)
(** * Local histories of the media studio

    features/media-studio/lib/studio-storage.ts, video-storage.ts and history-storage.ts: the
    stores of past jobs, their saving within bounds, and the record of the pending image job
    with which the image history is saved in one transaction.  A transaction of the browser's
    database is one step; whether it commits is an argument. *)

From S2P Require Import Prelude JsValue.
#[global] Open Scope Z_scope.

(** ** An object store

    The entries by key, in the order of the keys, as [getAll] gives them. *)

Section Store.
Context {J : Type} (id : J -> jstring).

(** [store.put(job)] with the key in the job *)
Fixpoint store_put (store : list J) (job : J) : list J :=
  match store with
  | [] => [job]
  | x :: store' =>
      if unitCompare (id job) (id x) =? 0 then job :: store'
      else if unitCompare (id job) (id x) <? 0 then job :: x :: store'
      else x :: store_put store' job
  end.

Definition store_delete (store : list J) (key : jstring) : list J :=
  List.filter (fun x => negb (jeqb (id x) key)) store.

Definition store_get (store : list J) (key : jstring) : option J := List.find (fun x => jeqb (id x) key) store.

Context (created_at : J -> Z) (size : J -> Z).

(** The newest first. *)
Definition newest (a b : J) : Z := created_at b - created_at a.

(** ** Saving within bounds *)

Context (MAX_ENTRIES : nat) (MAX_BYTES : Z).

(** The loop over the entries: the index, the bytes so far, and the store it deletes from. *)
Fixpoint evict (index : nat) (bytes : Z) (entries store : list J) : list J :=
  match entries with
  | [] => store
  | entry :: entries' =>
      let bytes := bytes + size entry in
      evict (S index) bytes entries'
        (if (MAX_ENTRIES <=? index)%nat || (MAX_BYTES <? bytes) then store_delete store (id entry) else store)
  end.

Definition put_within (store : list J) (job : J) : list J :=
  let all := store_put store job in evict 0 0 (js_sort newest all) all.

(** [deleteStudioJob], [deleteVideoJob]: one entry, or all for no (or an empty) id. *)
Definition delete_jobs (store : list J) (key : option jstring) : list J :=
  match key with Some ((_ :: _) as k) => store_delete store k | _ => [] end.

(** [listStudioJobs], [listVideoJobs] *)
Definition list_jobs (store : list J) : list J := js_sort newest store.
End Store.

(** ** Image jobs *)

Record StudioAsset := { asset_id : jstring; url : jstring; mime : jstring }.

Inductive draft_mode := create_ | edit.
Inductive Quality := fast | standard | high.

(** The parts of a draft the queue reads; the rest is handed on. *)
Record WorkflowDraft := {
  mode : draft_mode;
  model : jstring;
  prompt : jstring;
  quality : Quality;
  references : list StudioAsset;
  steps : option jsnum;
  cfg : option jsnum;
  seed : option jsnum
}.

Record WorkflowJob := {
  job_id : jstring;
  job_created_at : Z;
  request : WorkflowDraft;
  images : list StudioAsset;
  elapsed_ms : Z;
  request_id : option jstring
}.

Record PendingStudioImage := {
  p_key : jstring;
  p_epoch : jstring;
  p_draft : WorkflowDraft;
  p_started : Z;
  cancelRequested : bool
}.

(** The database of an account: past jobs, and the one pending record. *)
Record studio_db := { jobs : list WorkflowJob; pending : option PendingStudioImage }.

Definition STUDIO_MAX_ENTRIES : nat := 50.
Definition STUDIO_MAX_BYTES : Z := 100 * 1024 * 1024.

(** What an asynchronous call comes to. *)
Inductive settled (A : Type) := Resolved (a : A) | Rejected (message : jstring).
Arguments Resolved {A}.
Arguments Rejected {A}.

(** Number.isSafeInteger(owner) && owner > 0 *)
Definition signed_in (owner : Z) : bool := (0 <? owner) && (owner <=? 9007199254740991).
Definition sign_in_message : jstring := js "Sign in to use Media Studio.".

(** [/^data:/i] *)
Definition self_contained (u : jstring) : bool := startsWith (map ascii_lower u) (js "data:").

Definition cannot_save : jstring :=
  js "This result could not be saved locally. Download it before leaving this page.".
Definition too_large : jstring :=
  js "This result is too large for local history. Download it before leaving this page.".

(** The pending record allows saving the job of the key. *)
Definition recovery_holds (p : option PendingStudioImage) (key : jstring) (resultCommitted : bool) : bool :=
  match p with
  | Some c => jeqb (p_key c) key && (negb (cancelRequested c) || resultCommitted)
  | None => false
  end.

Section Studio.
(** [JSON.stringify(job).length] *)
Context (json_length : WorkflowJob -> Z).

Definition job_bytes (j : WorkflowJob) : Z := json_length j * 2.

Definition put_studio_job : list WorkflowJob -> WorkflowJob -> list WorkflowJob :=
  put_within job_id job_created_at job_bytes STUDIO_MAX_ENTRIES STUDIO_MAX_BYTES.

(** What a call of the database fails with: the database does not open, or its transaction fails. *)
Inductive fault := Opening (e : jstring) | Committing (e : jstring).
Definition fault_error (f : fault) : jstring := match f with Opening e | Committing e => e end.
Definition not_opened (commit : option fault) : option jstring := match commit with Some (Opening e) => Some e | _ => None end.

(** Where the pending record has changed the transaction is aborted. *)
Definition saveStudioJob (owner : Z) (commit : option fault) (db : studio_db) (job : WorkflowJob)
    (expectedPendingKey : option jstring) (resultCommitted : bool) : studio_db * settled bool :=
  if existsb (fun a => negb (self_contained (url a))) (images job ++ references (request job))
  then (db, Rejected cannot_save)
  else if STUDIO_MAX_BYTES <? job_bytes job then (db, Rejected too_large)
  else if negb (signed_in owner) then (db, Rejected sign_in_message)
  else if not_opened commit is Some e then (db, Rejected e)
  else
    let recoveryChanged :=
      match expectedPendingKey with
      | Some ((_ :: _) as key) => negb (recovery_holds (pending db) key resultCommitted)
      | _ => false
      end in
    if recoveryChanged then (db, Resolved false)
    else
      match commit with
      | Some f => (db, Rejected (fault_error f))
      | None => ({| jobs := put_studio_job (jobs db) job; pending := pending db |}, Resolved true)
      end.

Definition deleteStudioJob (owner : Z) (commit : option jstring) (db : studio_db) (key : option jstring)
  : studio_db * settled unit :=
  if negb (signed_in owner) then (db, Rejected sign_in_message)
  else
    match commit with
    | Some e => (db, Rejected e)
    | None => ({| jobs := delete_jobs job_id (jobs db) key; pending := pending db |}, Resolved tt)
    end.

Definition listStudioJobs (owner : Z) (commit : option jstring) (db : studio_db) : settled (list WorkflowJob) :=
  if negb (signed_in owner) then Rejected sign_in_message
  else match commit with Some e => Rejected e | None => Resolved (list_jobs job_created_at (jobs db)) end.
End Studio.

(** ** Video jobs *)

Record VideoDraft := {
  v_mode : jstring; v_model : jstring; v_prompt : jstring; v_duration : jsnum; v_resolution : jstring;
  v_image : option StudioAsset
}.

(** The bytes of a video count by their number. *)
Record VideoJob := {
  vj_id : jstring; task_id : jstring; vj_created_at : Z; vj_request : VideoDraft; vj_elapsed_ms : Z;
  video : option Z; video_url : option jstring; video_mime : jstring
}.

Definition VIDEO_MAX_ENTRIES : nat := 20.
Definition VIDEO_MAX_BYTES : Z := 400 * 1024 * 1024.
Definition video_too_large : jstring := js "This video is too large for local history.".

Section Video.
(** [JSON.stringify(meta).length] *)
Context (meta_length : VideoJob -> Z).

Definition jobSize (j : VideoJob) : Z := coalesce (video j) 0 + meta_length j * 2.

Definition saveVideoJob (owner : Z) (commit : option jstring) (store : list VideoJob) (job : VideoJob)
  : list VideoJob * settled unit :=
  if VIDEO_MAX_BYTES <? jobSize job then (store, Rejected video_too_large)
  else if negb (signed_in owner) then (store, Rejected sign_in_message)
  else
    match commit with
    | Some e => (store, Rejected e)
    | None => (put_within vj_id vj_created_at jobSize VIDEO_MAX_ENTRIES VIDEO_MAX_BYTES store job, Resolved tt)
    end.
End Video.

Definition deleteVideoJob (owner : Z) (commit : option jstring) (store : list VideoJob) (key : option jstring)
  : list VideoJob * settled unit :=
  if negb (signed_in owner) then (store, Rejected sign_in_message)
  else match commit with Some e => (store, Rejected e) | None => (delete_jobs vj_id store key, Resolved tt) end.

Definition listVideoJobs (owner : Z) (commit : option jstring) (store : list VideoJob) : settled (list VideoJob) :=
  if negb (signed_in owner) then Rejected sign_in_message
  else match commit with Some e => Rejected e | None => Resolved (list_jobs vj_created_at store) end.

(** ** The first history *)

Record HistoryEntry := { h_id : jstring; h_prompt : jstring; h_model : jstring; imageUrls : list jstring;
  elapsedMs : Z; createdAt : Z }.

Definition MAX_HISTORY_ENTRIES : nat := 50.

Definition sortHistoryEntries (entries : list HistoryEntry) : list HistoryEntry :=
  js_sort (fun a b => createdAt b - createdAt a) entries.

(** The oldest beyond the bound are deleted, and the list is read again. *)
Definition saveHistoryEntry (store : list HistoryEntry) (entry : HistoryEntry) : list HistoryEntry * list HistoryEntry :=
  let store := store_put h_id store entry in
  let count := length store in
  let store :=
    if (MAX_HISTORY_ENTRIES <? count)%nat then
      foldl (fun s old => store_delete h_id s (h_id old)) store
        (take (count - MAX_HISTORY_ENTRIES) (js_sort (fun a b => createdAt a - createdAt b) store))
    else store in
  (store, sortHistoryEntries store).

Definition deleteHistoryEntry (store : list HistoryEntry) (key : jstring) : list HistoryEntry * list HistoryEntry :=
  let store := store_delete h_id store key in (store, sortHistoryEntries store).

Definition listHistoryEntries (store : list HistoryEntry) : list HistoryEntry := sortHistoryEntries store.
Definition clearHistoryEntries (store : list HistoryEntry) : list HistoryEntry * list HistoryEntry := ([], []).

(** ** What is kept *)

Section Kept.
Context {J : Type} (id : J -> jstring) (size : J -> Z) (MAX_ENTRIES : nat) (MAX_BYTES : Z).

(** The longest run of entries that fits both bounds. *)
Fixpoint fitting (index : nat) (bytes : Z) (entries : list J) : list J :=
  match entries with
  | [] => []
  | e :: entries' =>
      if (MAX_ENTRIES <=? index)%nat || (MAX_BYTES <? bytes + size e) then []
      else e :: fitting (S index) (bytes + size e) entries'
  end.

Hypothesis size_nonneg : forall j, 0 <= size j.

Lemma store_delete_elem store key x : x ∈ store_delete id store key <-> x ∈ store /\ id x <> key.
Proof.
  unfold store_delete. rewrite !list_elem_of_In, filter_In. rewrite negb_true_iff, jeqb_neq. done.
Qed.

(** Past a bound everything that follows is deleted. *)
Lemma evict_all entries : forall index bytes store, (MAX_ENTRIES <= index)%nat \/ MAX_BYTES < bytes ->
  forall x, x ∈ evict id size MAX_ENTRIES MAX_BYTES index bytes entries store <->
  x ∈ store /\ id x ∉ map id entries.
Proof using All.
  induction entries as [|e entries IH]; intros index bytes store Hfull x; cbn [evict map].
  - rewrite elem_of_nil. tauto.
  - pose proof (size_nonneg e). rewrite IH by (destruct Hfull; [left|right]; lia).
    replace ((MAX_ENTRIES <=? index)%nat || (MAX_BYTES <? bytes + size e)) with true.
    + rewrite store_delete_elem, not_elem_of_cons. tauto.
    + symmetry. apply orb_true_iff. destruct Hfull; [left; by apply Nat.leb_le|right; apply Z.ltb_lt; lia].
Qed.

Lemma evict_spec entries : forall index bytes store, NoDup (map id entries) ->
  forall x, x ∈ evict id size MAX_ENTRIES MAX_BYTES index bytes entries store <->
  x ∈ store /\ (id x ∈ map id entries -> id x ∈ map id (fitting index bytes entries)).
Proof using All.
  induction entries as [|e entries IH]; intros index bytes store Hnd x; cbn [evict fitting map].
  - rewrite elem_of_nil. tauto.
  - cbn [map] in Hnd. apply NoDup_cons in Hnd as [He Hnd].
    destruct ((MAX_ENTRIES <=? index)%nat || (MAX_BYTES <? bytes + size e)) eqn:Eb.
    + rewrite evict_all.
      * rewrite store_delete_elem. cbn [map]. rewrite elem_of_nil, elem_of_cons. tauto.
      * apply orb_true_iff in Eb as [Eb%Nat.leb_le | Eb%Z.ltb_lt]; [left; lia|right; lia].
    + rewrite IH by done. cbn [map]. rewrite !elem_of_cons. split.
      * intros [Hx Hin]. split; [done|]. intros [-> | H]; [by left|]. right. by apply Hin.
      * intros [Hx Hin]. split; [done|]. intros H. destruct Hin as [E | Hf]; [by right| |done]. by rewrite E in H.
Qed.

Lemma fitting_prefix entries : forall index bytes, fitting index bytes entries `prefix_of` entries.
Proof.
  induction entries as [|e entries IH]; intros index bytes; cbn [fitting]; [done|].
  destruct (_ || _); [apply prefix_nil|]. by apply prefix_cons.
Qed.

Lemma fitting_bounds entries : forall index bytes, bytes <= MAX_BYTES ->
  ((index <= MAX_ENTRIES)%nat -> (index + length (fitting index bytes entries) <= MAX_ENTRIES)%nat) /\
  bytes + zsum_of size (fitting index bytes entries) <= MAX_BYTES.
Proof.
  induction entries as [|e entries IH]; intros index bytes Hb; cbn [fitting]; [unfold zsum_of; cbn; lia|].
  destruct ((MAX_ENTRIES <=? index)%nat || (MAX_BYTES <? bytes + size e)) eqn:Eb; [unfold zsum_of; cbn; lia|].
  apply orb_false_iff in Eb as [E1%Nat.leb_gt E2%Z.ltb_ge]. destruct (IH (S index) (bytes + size e) E2) as [H1 H2].
  unfold zsum_of in *. cbn [map length zsum foldr]. split; [lia|]. unfold zsum in *. cbn [foldr]. lia.
Qed.
End Kept.

(** ** Well-formed stores *)

Section Keys.
Context {J : Type} (id : J -> jstring).

(** The keys grow from entry to entry. *)
Definition by_id (a b : J) : Prop := unitCompare (id a) (id b) < 0.

Lemma by_id_neq a b : by_id a b -> id a <> id b.
Proof. unfold by_id. intros H E. rewrite E, unitCompare_refl in H. lia. Qed.

Lemma sorted_ids_NoDup store : StronglySorted by_id store -> NoDup (map id store).
Proof.
  induction 1 as [|x store _ IH Hx]; cbn; [constructor|]. constructor; [|done].
  intros (y & E & Hy)%list_elem_of_fmap. rewrite List.Forall_forall in Hx. apply list_elem_of_In in Hy.
  by apply (by_id_neq x y (Hx y Hy)).
Qed.

Lemma store_put_elem store job x : StronglySorted by_id store ->
  x ∈ store_put id store job <-> x = job \/ (x ∈ store /\ id x <> id job).
Proof.
  induction 1 as [|y store Hs IH Hy]; cbn [store_put].
  { rewrite list_elem_of_singleton, elem_of_nil. tauto. }
  rewrite List.Forall_forall in Hy.
  destruct (Z.eqb_spec (unitCompare (id job) (id y)) 0) as [E|E].
  - apply unitCompare_eq in E. rewrite !elem_of_cons. split.
    + intros [-> | Hx]; [by left|]. right. split; [by right|]. apply list_elem_of_In in Hx.
      rewrite E. intros E2. by apply (by_id_neq y x (Hy x Hx)).
    + intros [-> | [[-> | Hx] Hne]]; [by left| |by right]. by rewrite E in Hne.
  - destruct (Z.ltb_spec (unitCompare (id job) (id y)) 0) as [Hlt|Hge].
    + rewrite !elem_of_cons. split; [|tauto]. intros [-> | [-> | Hx]]; [by left|right..].
      * split; [by left|]. intros E2. rewrite E2, unitCompare_refl in Hlt. lia.
      * split; [by right|]. apply list_elem_of_In in Hx. specialize (Hy x Hx). unfold by_id in Hy.
        intros E2. rewrite <- E2 in Hlt. pose proof (unitCompare_opp (id x) (id y)). lia.
    + rewrite !elem_of_cons, IH. split; [|tauto]. intros [-> | [-> | [Hx Hne]]]; [|by left|by right; split; [right|]].
      right. split; [by left|]. intros E2. rewrite E2, unitCompare_refl in E. done.
Qed.

Lemma store_put_sorted store job : StronglySorted by_id store -> StronglySorted by_id (store_put id store job).
Proof.
  induction 1 as [|y store Hs IH Hy]; cbn [store_put]; [by repeat constructor|].
  destruct (Z.eqb_spec (unitCompare (id job) (id y)) 0) as [E|E].
  - apply unitCompare_eq in E. constructor; [done|]. eapply Forall_impl; [exact Hy|]. intros x. unfold by_id. by rewrite E.
  - destruct (Z.ltb_spec (unitCompare (id job) (id y)) 0) as [Hlt|Hge].
    + constructor; [by constructor|]. constructor; [done|]. eapply Forall_impl; [exact Hy|]. intros x Hyx. unfold by_id in *.
      pose proof (cmp_trans (cmp := unitCompare) (id job) (id y) (id x)) as Ht. unfold cmp_le in Ht.
      destruct (Z.eq_dec (unitCompare (id job) (id x)) 0) as [E2%unitCompare_eq|]; [|lia].
      rewrite E2 in Hlt. pose proof (unitCompare_opp (id x) (id y)). lia.
    + constructor; [by apply IH|]. apply List.Forall_forall. intros x Hx%list_elem_of_In.
      apply (store_put_elem store job x Hs) in Hx as [-> | [Hx _]].
      * unfold by_id. pose proof (unitCompare_opp (id job) (id y)). lia.
      * rewrite List.Forall_forall in Hy. by apply Hy, list_elem_of_In.
Qed.

Lemma store_delete_sorted store key : StronglySorted by_id store -> StronglySorted by_id (store_delete id store key).
Proof.
  induction 1 as [|y store _ IH Hy]; cbn; [constructor|]. destruct (negb _); [|done]. constructor; [done|].
  apply List.Forall_forall. intros x [Hx _]%filter_In. rewrite List.Forall_forall in Hy. auto.
Qed.

End Keys.

Section WellFormed.
Context {J : Type} (id : J -> jstring) (created_at : J -> Z) (size : J -> Z) (MAX_ENTRIES : nat) (MAX_BYTES : Z).

Lemma evict_sorted entries : forall index bytes store, StronglySorted (by_id id) store ->
  StronglySorted (by_id id) (evict id size MAX_ENTRIES MAX_BYTES index bytes entries store).
Proof.
  induction entries as [|e entries IH]; intros index bytes store Hs; cbn [evict]; [done|]. apply IH.
  destruct (_ || _); [by apply store_delete_sorted|done].
Qed.

(** What a save leaves: of the entries with the new one, the newest first, the longest run that
    fits both bounds. *)
Definition kept_entries (store : list J) (job : J) : list J :=
  fitting size MAX_ENTRIES MAX_BYTES 0 0 (js_sort (newest created_at) (store_put id store job)).

Hypothesis size_nonneg : forall j, 0 <= size j.

Lemma fitting_sub (entries : list J) x : x ∈ fitting size MAX_ENTRIES MAX_BYTES 0 0 entries -> x ∈ entries.
Proof. intros H. destruct (fitting_prefix size MAX_ENTRIES MAX_BYTES entries 0 0) as [r ->]. apply elem_of_app. by left. Qed.

Lemma NoDup_fmap_elem (f : J -> jstring) l x y : NoDup (map f l) -> x ∈ l -> y ∈ l -> f x = f y -> x = y.
Proof.
  induction l as [|z l IH]; [by intros _ ?%elem_of_nil|]. cbn [map]. intros [Hz Hnd]%NoDup_cons Hx Hy E.
  apply elem_of_cons in Hx as [-> | Hx], Hy as [-> | Hy]; [done|..|by apply IH].
  - exfalso. apply Hz. rewrite E. apply list_elem_of_fmap. by exists y.
  - exfalso. apply Hz. rewrite <- E. apply list_elem_of_fmap. by exists x.
Qed.

Lemma put_within_kept store job : StronglySorted (by_id id) store ->
  put_within id created_at size MAX_ENTRIES MAX_BYTES store job ≡ₚ kept_entries store job.
Proof using size_nonneg.
  intros Hs. unfold put_within, kept_entries. set (all := store_put id store job).
  assert (StronglySorted (by_id id) all) as Hall by by apply store_put_sorted.
  set (entries := js_sort (newest created_at) all). assert (entries ≡ₚ all) as Hp by apply js_sort_perm.
  assert (NoDup (map id entries)) as Hnd by (rewrite Hp; by apply sorted_ids_NoDup).
  destruct (fitting_prefix size MAX_ENTRIES MAX_BYTES entries 0 0) as [r Er].
  apply NoDup_Permutation.
  - eapply (NoDup_fmap_1 id), sorted_ids_NoDup, evict_sorted, Hall.
  - apply NoDup_fmap_1 in Hnd. rewrite Er in Hnd. by apply NoDup_app in Hnd as (? & _).
  - intros x. rewrite (evict_spec id size MAX_ENTRIES MAX_BYTES size_nonneg) by done. split.
    + intros [Hx Hf]. assert (id x ∈ map id entries) as Hin.
      { apply list_elem_of_fmap. exists x. by rewrite Hp. }
      apply Hf in Hin. apply list_elem_of_fmap in Hin as (y & E & Hy).
      assert (x = y) as ->; [|done]. apply fitting_sub in Hy.
      apply (NoDup_fmap_elem id entries); [done|by rewrite Hp|done|done].
    + intros Hx. split; [rewrite <- Hp; by apply fitting_sub|]. intros _. apply list_elem_of_fmap. by exists x.
Qed.
End WellFormed.

(** ** The histories of an account *)

#[export] Instance newest_comparator {J} (created_at : J -> Z) : Comparator (newest created_at).
Proof. split; unfold newest; intros; lia. Qed.

Section Histories.
Context (json_length : WorkflowJob -> Z).
Hypothesis json_length_nonneg : forall j, 0 <= json_length j.

(** The store is in the order of its keys and within its bounds. *)
Definition history_ok (store : list WorkflowJob) : Prop :=
  StronglySorted (by_id job_id) store /\ (length store <= STUDIO_MAX_ENTRIES)%nat /\
  zsum_of (job_bytes json_length) store <= STUDIO_MAX_BYTES.

Lemma job_bytes_nonneg j : 0 <= job_bytes json_length j.
Proof using json_length_nonneg. unfold job_bytes. specialize (json_length_nonneg j). lia. Qed.

Lemma put_studio_ok store job : StronglySorted (by_id job_id) store -> history_ok (put_studio_job json_length store job).
Proof using json_length_nonneg.
  intros Hs. unfold put_studio_job.
  pose proof (put_within_kept job_id job_created_at (job_bytes json_length) STUDIO_MAX_ENTRIES STUDIO_MAX_BYTES
    job_bytes_nonneg store job Hs) as Hp.
  split; [by apply evict_sorted, store_put_sorted|]. rewrite (zsum_of_perm _ _ _ Hp), Hp.
  destruct (fitting_bounds (job_bytes json_length) STUDIO_MAX_ENTRIES STUDIO_MAX_BYTES
    (js_sort (newest job_created_at) (store_put job_id store job)) 0 0) as [H1 H2]; [by vm_compute|].
  unfold kept_entries. split; [apply H1; lia|lia].
Qed.

Lemma delete_jobs_ok store key : history_ok store -> history_ok (delete_jobs job_id store key).
Proof using json_length_nonneg.
  intros (Hs & Hl & Hb). unfold delete_jobs.
  assert (history_ok []) as Hnil by (split; [constructor|]; split; [cbn; lia|by vm_compute]).
  destruct key as [[|c k]|]; [done| |done]. split; [by apply store_delete_sorted|].
  assert (forall l, (length (store_delete job_id l (c :: k)) <= length l)%nat /\
    zsum_of (job_bytes json_length) (store_delete job_id l (c :: k)) <= zsum_of (job_bytes json_length) l) as H.
  { intros l. induction l as [|x l [IH1 IH2]]; [done|]. pose proof (job_bytes_nonneg x). unfold store_delete, zsum_of, zsum in *.
    cbn [List.filter]. destruct (negb _); cbn [length map foldr] in *; lia. }
  destruct (H store). lia.
Qed.

(** The operations on the history of an account, with what the database makes of each. *)
Inductive history_op :=
| op_save (owner : Z) (commit : option fault) (job : WorkflowJob) (expectedPendingKey : option jstring) (resultCommitted : bool)
| op_delete (owner : Z) (commit : option jstring) (key : option jstring)
| op_pending (p : option PendingStudioImage).

Definition apply_op (db : studio_db) (o : history_op) : studio_db :=
  match o with
  | op_save owner commit job key committed => (saveStudioJob json_length owner commit db job key committed).1
  | op_delete owner commit key => (deleteStudioJob owner commit db key).1
  | op_pending p => {| jobs := jobs db; pending := p |}
  end.

Lemma apply_op_ok db o : history_ok (jobs db) -> history_ok (jobs (apply_op db o)).
Proof using json_length_nonneg.
  intros H. destruct o as [owner commit job key committed|owner commit key|p]; cbn; [| |done].
  - unfold saveStudioJob. destruct (existsb _ _); [done|]. destruct (_ <? _); [done|]. destruct (negb (signed_in owner)); [done|]. destruct (not_opened commit); [done|].
    destruct (match key with Some _ => _ | None => _ end); [done|]. destruct commit; [done|]. apply put_studio_ok, H.
  - unfold deleteStudioJob. destruct (negb _); [done|]. destruct commit; [done|]. by apply delete_jobs_ok.
Qed.

(** C39. Whatever is saved and deleted, with whatever failures, the image history stays in the
    order of its keys, has at most 50 entries, and takes at most 100 MiB. *)
Theorem history_well_formed ops : history_ok (jobs (foldl apply_op {| jobs := []; pending := None |} ops)).
Proof using json_length_nonneg.
  assert (forall db, history_ok (jobs db) -> history_ok (jobs (foldl apply_op db ops))) as H.
  { induction ops as [|o ops IH]; intros db Hdb; [done|]. cbn. by apply IH, apply_op_ok. }
  apply H. split; [constructor|]. split; [cbn; lia|by vm_compute].
Qed.

(** The newest entry is the first of the newest-first order. *)
Lemma newest_head (l : list WorkflowJob) job : job ∈ l -> NoDup (map job_id l) ->
  Forall (fun x => job_id x <> job_id job -> job_created_at x < job_created_at job) l ->
  exists r, js_sort (newest job_created_at) l = job :: r.
Proof.
  intros Hin Hnd Hl. pose proof (js_sort_sorted (newest job_created_at) l) as Hs.
  pose proof (js_sort_perm (newest job_created_at) l) as Hp.
  destruct (js_sort (newest job_created_at) l) as [|y r]; [apply Permutation_nil in Hp; subst; by apply elem_of_nil in Hin|].
  exists r. f_equal. assert (y ∈ l) as Hyl by (rewrite <- Hp; by left).
  destruct (decide (job_id y = job_id job)) as [E|Hne]; [by apply (NoDup_fmap_elem job_id l)|]. exfalso.
  rewrite Forall_forall in Hl. specialize (Hl y Hyl Hne). inversion Hs as [|? ? _ Hy]; subst.
  rewrite <- Hp in Hin. apply elem_of_cons in Hin as [-> | Hin]; [lia|].
  rewrite Forall_forall in Hy. specialize (Hy job Hin). unfold cmp_le, newest in Hy. lia.
Qed.

Lemma StronglySorted_app {A} (R : A -> A -> Prop) l r x y : StronglySorted R (l ++ r) -> x ∈ l -> y ∈ r -> R x y.
Proof.
  induction l as [|z l IH]; [by intros _ ?%elem_of_nil|]. cbn [app]. intros Hs Hx Hy. inversion Hs as [|? ? Hs' Hz]; subst.
  apply elem_of_cons in Hx as [-> | Hx]; [|by apply IH]. rewrite Forall_forall in Hz. apply Hz, elem_of_app. by right.
Qed.

(** C38. A job that is saved and newer than the others is in the history afterwards, whatever had
    to go; what remains is a newest part of the entries: nothing that was dropped is newer
    than anything that was kept; the pending record is untouched and allowed the save. *)
Theorem save_keeps_newest owner commit db job key committed db' :
  history_ok (jobs db) -> saveStudioJob json_length owner commit db job key committed = (db', Resolved true) ->
  (Forall (fun x => job_id x <> job_id job -> job_created_at x < job_created_at job) (jobs db) -> job ∈ jobs db') /\
  (forall x y, x ∈ jobs db' -> y ∈ jobs db -> job_id y <> job_id job -> y ∉ jobs db' -> job_created_at y <= job_created_at x) /\
  pending db' = pending db /\
  (forall c k, key = Some (c :: k) -> recovery_holds (pending db) (c :: k) committed = true).
Proof using json_length_nonneg.
  intros (Hs & _ & _). unfold saveStudioJob. destruct (existsb _ _); [done|].
  destruct (Z.ltb_spec STUDIO_MAX_BYTES (job_bytes json_length job)) as [|Hsize]; [done|].
  destruct (negb (signed_in owner)); [done|]. destruct (not_opened commit); [done|].
  destruct (match key with Some _ => _ | None => _ end) eqn:Erec; [done|]. destruct commit; [done|]. intros [= <-]. cbn.
  pose proof (put_within_kept job_id job_created_at (job_bytes json_length) STUDIO_MAX_ENTRIES STUDIO_MAX_BYTES
    job_bytes_nonneg (jobs db) job Hs) as Hp. unfold kept_entries in Hp.
  change (put_within job_id job_created_at (job_bytes json_length) STUDIO_MAX_ENTRIES STUDIO_MAX_BYTES (jobs db) job)
    with (put_studio_job json_length (jobs db) job) in Hp.
  set (all := store_put job_id (jobs db) job) in *.
  assert (forall x, x ∈ all <-> x = job \/ x ∈ jobs db /\ job_id x <> job_id job) as Hall by (intros x; by apply store_put_elem).
  split; [|split; [|split; [done|]]].
  - intros Hnew. destruct (newest_head all job) as [r Er].
    + apply Hall. by left.
    + by apply sorted_ids_NoDup, store_put_sorted.
    + apply Forall_forall. intros x Hx Hne. apply Hall in Hx as [-> | [Hx Hid]]; [done|].
      rewrite Forall_forall in Hnew. by apply Hnew.
    + rewrite Hp, Er. cbn [fitting]. change (STUDIO_MAX_ENTRIES <=? 0)%nat with false. cbn [orb].
      rewrite (proj2 (Z.ltb_ge _ _)) by lia. by left.
  - intros x y Hx Hy Hid Hny. rewrite Hp in Hx, Hny.
    pose proof (js_sort_sorted (newest job_created_at) all) as Hsorted.
    destruct (fitting_prefix (job_bytes json_length) STUDIO_MAX_ENTRIES STUDIO_MAX_BYTES (js_sort (newest job_created_at) all) 0 0) as [r Er].
    assert (y ∈ r) as Hyr.
    { assert (y ∈ js_sort (newest job_created_at) all) as Hys by (apply js_sort_elem_of, Hall; by right).
      rewrite Er in Hys. apply elem_of_app in Hys as [|]; done. }
    rewrite Er in Hsorted. pose proof (StronglySorted_app _ _ _ x y Hsorted Hx Hyr) as H. unfold cmp_le, newest in H. lia.
  - intros c k ->. by apply negb_false_iff in Erec.
Qed.
End Histories.

(** ** The first history keeps the newest fifty *)

Section FirstHistory.
Let oldest (a b : HistoryEntry) : Z := createdAt a - createdAt b.

Lemma delete_all_elem (olds store : list HistoryEntry) x :
  x ∈ foldl (fun s old => store_delete h_id s (h_id old)) store olds <-> x ∈ store /\ h_id x ∉ map h_id olds.
Proof.
  revert store. induction olds as [|o olds IH]; intros store; cbn [foldl map]; [rewrite elem_of_nil; tauto|].
  rewrite IH, store_delete_elem, elem_of_cons. tauto.
Qed.

Lemma delete_all_sorted (olds store : list HistoryEntry) : StronglySorted (by_id h_id) store ->
  StronglySorted (by_id h_id) (foldl (fun s old => store_delete h_id s (h_id old)) store olds).
Proof. revert store. induction olds as [|o olds IH]; intros store Hs; [done|]. by apply IH, store_delete_sorted. Qed.

Lemma save_history_entry store entry : StronglySorted (by_id h_id) store ->
  let all := store_put h_id store entry in
  (saveHistoryEntry store entry).1 ≡ₚ drop (length all - MAX_HISTORY_ENTRIES) (js_sort oldest all) /\
  (length (saveHistoryEntry store entry).1 <= MAX_HISTORY_ENTRIES)%nat /\
  (saveHistoryEntry store entry).2 = sortHistoryEntries (saveHistoryEntry store entry).1.
Proof.
  intros Hs all. assert (StronglySorted (by_id h_id) all) as Hall by by apply store_put_sorted.
  assert ((saveHistoryEntry store entry).1 ≡ₚ drop (length all - MAX_HISTORY_ENTRIES) (js_sort oldest all)) as Hp.
  { unfold saveHistoryEntry. cbn [fst]. fold all. destruct (Nat.ltb_spec MAX_HISTORY_ENTRIES (length all)) as [Hlt|Hge].
    - set (n := (length all - MAX_HISTORY_ENTRIES)%nat). pose proof (js_sort_perm oldest all) as Hsp.
      pose proof (sorted_ids_NoDup h_id all Hall) as Hnd. pose proof Hnd as Hnd'.
      rewrite <- Hsp, <- (take_drop n (js_sort oldest all)), map_app in Hnd'. apply NoDup_app in Hnd' as (_ & Hd & Hnd2).
      apply NoDup_Permutation.
      + eapply (NoDup_fmap_1 h_id), sorted_ids_NoDup, delete_all_sorted, Hall.
      + eapply (NoDup_fmap_1 h_id), Hnd2.
      + intros x. rewrite delete_all_elem.
        assert (x ∈ all <-> x ∈ take n (js_sort oldest all) \/ x ∈ drop n (js_sort oldest all)) as ->
          by (by rewrite <- elem_of_app, take_drop, Hsp).
        split.
        * intros [[Hx | Hx] Hn]; [|done]. exfalso. apply Hn. apply list_elem_of_fmap. by exists x.
        * intros Hx. split; [by right|]. intros Hn. apply (Hd _ Hn). apply list_elem_of_fmap. by exists x.
    - replace (length all - MAX_HISTORY_ENTRIES)%nat with 0%nat by lia. by rewrite drop_0, js_sort_perm. }
  split; [done|]. split; [|done]. rewrite Hp, length_drop, js_sort_length. lia.
Qed.
End FirstHistory.

(** ** A concrete history *)

Definition plain_draft : WorkflowDraft :=
  {| mode := create_; model := js "m"; prompt := js "a cat"; quality := standard; references := []; steps := None;
     cfg := None; seed := None |}.
Definition job_at (i : jstring) (t : Z) : WorkflowJob :=
  {| job_id := i; job_created_at := t; request := plain_draft;
     images := [{| asset_id := js "x"; url := js "DATA:image/png;base64,AA"; mime := js "image/png" |}];
     elapsed_ms := 5; request_id := None |}.
Definition flat_length (j : WorkflowJob) : Z := 30 * 1024 * 1024.

Lemma history_well_formed_witness : history_ok flat_length (jobs (foldl (apply_op flat_length) {| jobs := []; pending := None |}
  [op_save 1 None (job_at (js "b") 2) None false; op_save 1 None (job_at (js "a") 3) None false; op_delete 1 None (Some (js "b"))])).
Proof. apply (history_well_formed flat_length). intros j. unfold flat_length. lia. Defined.

(** One job of 60 MiB fits beside no other. *)
Lemma save_keeps_newest_witness :
  let db := {| jobs := [job_at (js "b") 2]; pending := None |} in
  let db' := {| jobs := [job_at (js "a") 3]; pending := None |} in
  job_at (js "a") 3 ∈ jobs db' /\ pending db' = pending db.
Proof.
  destruct (save_keeps_newest flat_length ltac:(intros j; unfold flat_length; lia) 1 None {| jobs := [job_at (js "b") 2]; pending := None |}
    (job_at (js "a") 3) None false {| jobs := [job_at (js "a") 3]; pending := None |}) as (H1 & _ & H2 & _).
  - split; [by repeat constructor|]. split; [unfold STUDIO_MAX_ENTRIES; cbn; lia|by vm_compute].
  - by vm_compute.
  - split; [|exact H2]. apply H1. apply Forall_singleton. intros _. by vm_compute.
Defined.
