(* ===== verification/ImageJobs.v ===== *)
(** * Image jobs of the media studio

    features/media-studio/lib/image-jobs.ts and the mutation of hooks/use-workflow.ts: submitting
    an image to the queue of the gateway, waiting for it, cancelling it, and saving and
    acknowledging its result.  The calls are cut at their awaits: a place is where one of them
    waits, for a transaction of the browser's database or for an answer.  The tabs of an
    account share the database and run any number of calls; the order in which transactions
    commit, answers arrive and calls go on is arbitrary. *)

From S2P Require Import Prelude JsValue StudioStorage.
#[global] Open Scope Z_scope.

(** ** What is exchanged *)

Inductive job_state := queued | running | cancelling | cancelled_ | completed | failed_ | expired | released | reconnecting.
#[global] Instance job_state_eq : EqDecision job_state.
Proof. solve_decision. Defined.

Record ImageJobStatus := {
  st_id : jstring;
  st_key : jstring;
  st_epoch : jstring;
  state : job_state;
  ahead : Z;
  st_error : option jstring;
  recovery_pending : bool;
  cancel_requested : bool;
  result_committed : bool; (* [status.result_committed === true] *)
  st_created_at : Z
}.

(** What a request is rejected with: an error of the client, with the status and the code of
    the answer if there was one, or another error. *)
Inductive failure :=
| AxiosError (status : option Z) (code : jsval) (message : jstring)
| OtherError (message : jstring).

(** What is thrown: an error with a message of its own, or what was caught. *)
Inductive thrown := Message (m : jstring) | Raw (f : failure).

Inductive reply (A : Type) := Ok_ (a : A) | Err (f : failure).
Arguments Ok_ {A}.
Arguments Err {A}.

Definition imageJobMessage (code : option jstring) : jstring :=
  match code with
  | None => js "The image job could not complete. Your draft has been kept."
  | Some c =>
      if jeqb c (js "output_blocked") then js "This image did not pass output review. Try a different idea."
      else if jeqb c (js "output_check_unavailable") then js "Image review is unavailable. No image was released."
      else if jeqb c (js "studio_audit_unavailable") then js "Image auditing is unavailable. No image was released."
      else if jeqb c (js "studio_account_busy") then
        js "Your account already has a pending image job. Reconnect before trying again."
      else if jeqb c (js "studio_access_denied") then js "Your account does not have access to the image queue."
      else if jeqb c (js "studio_capacity_unavailable") then
        js "Image workers are temporarily unavailable. Try again later."
      else if jeqb c (js "studio_scope_changed") then
        js "Your image access or billing account changed. Review your draft and try again."
      else if jeqb c (js "studio_epoch_changed") then
        js "Could not reach the gateway for this image job. Reconnect to recover it."
      else if jeqb c (js "studio_queue_full") then js "The image queue is full. Try again later."
      else js "The image job could not complete. Your draft has been kept."
  end.

Definition reconnect_message : jstring := js "Reconnect to your previous image job before generating again.".
Definition references_too_large : jstring := js "Reference images are too large in total.".
Definition no_images : jstring := js "The model returned no images.".
Definition configuration_message : jstring := js "Image Studio configuration is unavailable. Please try again.".

(** constants.ts *)
Definition qualitySteps (q : Quality) : Z := match q with fast => 20 | standard => 30 | high => 50 end.
Definition serverImageSteps (q : Quality) : Z := match q with standard => 40 | _ => qualitySteps q end.

(** The draft with the parameters of the queue filled in. *)
Definition effective_draft (d : WorkflowDraft) : WorkflowDraft :=
  {| mode := mode d; model := model d; prompt := prompt d; quality := quality d; references := references d;
     steps := Some (coalesce (steps d) (num_of_Z (serverImageSteps (quality d))));
     cfg := Some (coalesce (cfg d) (num_of_Z 1));
     seed := Some (coalesce (seed d) (num_of_Z 42)) |}.

(** ** Transactions *)

(** [pendingStudioImage(owner, value, options)]; [value] undefined only reads. *)
Definition pendingStudioImage (owner : Z) (commit : option fault) (db : studio_db)
    (value : option (option PendingStudioImage)) (claim : bool) (expectedKey : option jstring)
  : studio_db * settled (option PendingStudioImage) :=
  if negb (signed_in owner) then (db, Rejected sign_in_message)
  else if not_opened commit is Some e then (db, Rejected e)
  else
    let finish db' r := match commit with Some f => (db, Rejected (fault_error f)) | None => (db', Resolved r) end in
    let result := pending db in
    let mismatch :=
      match expectedKey with
      | Some ((_ :: _) as k) => negb (bool_decide (p_key <$> result = Some k))
      | _ => false
      end in
    match value with
    | None => finish db result
    | Some value =>
        if mismatch then finish db result
        else if claim && match result with Some _ => true | None => false end then (db, Rejected reconnect_message)
        else finish {| jobs := jobs db; pending := value |} value
    end.

(** The transactions of the calls. *)
Inductive tx :=
| tx_read
| tx_claim (r : PendingStudioImage)
| tx_update (r : PendingStudioImage) (expectedKey : jstring)
| tx_delete (expectedKey : jstring)
| tx_save (job : WorkflowJob) (expectedKey : option jstring) (resultCommitted : bool).

Inductive tx_result := got_pending (r : settled (option PendingStudioImage)) | got_saved (r : settled bool).

Section ImageJobs.
Context (json_length : WorkflowJob -> Z) (owner : Z).
(** The request prepared from a draft (reference images redrawn, masks), and the size of the
    body with it. *)
Context {R : Type} (body_size : WorkflowDraft -> R -> Z).

Definition run_tx (commit : option fault) (db : studio_db) (t : tx) : studio_db * tx_result :=
  match t with
  | tx_read => let (db', r) := pendingStudioImage owner commit db None false None in (db', got_pending r)
  | tx_claim p => let (db', r) := pendingStudioImage owner commit db (Some (Some p)) true None in (db', got_pending r)
  | tx_update p k => let (db', r) := pendingStudioImage owner commit db (Some (Some p)) false (Some k) in (db', got_pending r)
  | tx_delete k => let (db', r) := pendingStudioImage owner commit db (Some None) false (Some k) in (db', got_pending r)
  | tx_save job k committed => let (db', r) := saveStudioJob json_length owner commit db job k committed in (db', got_saved r)
  end.

(** ** Places *)

(** Where [submitStudioImage] waits. *)
Inductive submit_at :=
| s_reading (draft : WorkflowDraft)
| s_preparing (draft : WorkflowDraft)
| s_session (draft : WorkflowDraft) (request : R)
| s_claiming (draft : WorkflowDraft) (request : R) (record : PendingStudioImage)
| s_posting (record : PendingStudioImage)
| s_releasing (record : PendingStudioImage) (error : thrown).

(** Where [collectStudioImage] waits. *)
Inductive collect_at :=
| c_looking
| c_latest (status : ImageJobStatus)
| c_cancelling
| c_result (status : ImageJobStatus)
| c_encoding (status : ImageJobStatus)
| c_recheck (status : ImageJobStatus) (imageURL : jstring)
| c_waiting.

Inductive outcome :=
| o_nothing
| o_output (job : WorkflowJob) (notice : jstring)
| o_thrown (error : thrown).

(** Where a call waits.  A collection knows whether the last status it showed was committed. *)
Inductive place :=
| configuring (draft : WorkflowDraft)
| submitting (s : submit_at)
| collecting (record : PendingStudioImage) (resultCommitted : bool) (c : collect_at)
| generating (draft : WorkflowDraft)
| saving (job : WorkflowJob) (record : option PendingStudioImage) (resultCommitted : bool) (notice : jstring)
| acking (job : WorkflowJob) (record : PendingStudioImage) (notice : jstring)
| removing (job : WorkflowJob) (record : PendingStudioImage) (notice : jstring)
| cancel_writing (record : PendingStudioImage) (status : ImageJobStatus)
| cancel_sending (record : PendingStudioImage) (status : ImageJobStatus)
| clearing (expectedKey : jstring)
| finished (o : outcome).

(** What a call sends or shows. *)
Inductive output :=
| Posted (key epoch : jstring) (request : R)
| CancelSent (id epoch : jstring)
| AckSent (id epoch : jstring)
| Shown (status : ImageJobStatus).

(** A new identifier and the time. *)
Record fresh := { newId : jstring; now : Z }.

Inductive input :=
| i_config (r : option (bool * option (list jstring))) (* the queue is enabled, its models; none when unavailable *)
| i_prepared (r : R + thrown)
| i_session (r : reply jstring)
| i_posted (r : reply unit)
| i_status (r : reply ImageJobStatus)
| i_done (r : reply unit)
| i_blob (r : reply (jstring * Z)) (* media type and size *)
| i_url (r : jstring + thrown)
| i_timer (aborted : option thrown)
| i_generated (r : (WorkflowJob * option jstring) + thrown).

Definition MAX_BODY : Z := 16 * 1024 * 1024.
Definition MAX_RESULT : Z := 12 * 1024 * 1024.

(** ** Submitting *)

Definition refused_status (s : option Z) : bool :=
  bool_decide (coalesce s 0 ∈ [400; 401; 403; 409; 413; 429]).

Definition refused_code (code : jsval) : bool :=
  match code with
  | JStr c => bool_decide (c ∈ [js "studio_capacity_unavailable"; js "studio_access_unavailable"; js "output_check_unavailable"])
  | _ => false
  end.

(** The gateway says that there is no job. *)
Definition refused (f : failure) : bool :=
  match f with AxiosError status code _ => refused_status status || refused_code code | OtherError _ => false end.

(** What is thrown for a failed POST. *)
Definition post_error (f : failure) : thrown :=
  match f with AxiosError _ (JStr code) _ => Message (imageJobMessage (Some code)) | _ => Raw f end.

Definition throw (e : thrown) : place * list output := (finished (o_thrown e), []).

Definition start_collect (record : PendingStudioImage) : place * list output := (collecting record false c_looking, []).

(** ** Collecting *)

(** [unavailable(state)] shows a status of its own. *)
Definition unavailable (record : PendingStudioImage) (s : job_state) : ImageJobStatus :=
  {| st_id := []; st_key := p_key record; st_epoch := p_epoch record; state := s; ahead := 0; st_error := None;
     recovery_pending := false; cancel_requested := false; result_committed := false; st_created_at := p_started record |}.

Definition epoch_changed : thrown := Message (imageJobMessage (Some (js "studio_epoch_changed"))).

Definition handleLookupError (record : PendingStudioImage) (f : failure) : place * list output :=
  match f with
  | AxiosError (Some s) _ _ =>
      if s =? 409 then (finished (o_thrown epoch_changed), [Shown (unavailable record reconnecting)])
      else if s =? 404 then (finished (o_thrown (Raw f)), [Shown (unavailable record expired)])
      else throw (Raw f)
  | _ => throw (Raw f)
  end.

Definition cancel (record : PendingStudioImage) (committed : bool) (status : ImageJobStatus) : place * list output :=
  (collecting record committed c_cancelling, [CancelSent (st_id status) (p_epoch record)]).

(** The status of the job has come. *)
Definition on_status (record : PendingStudioImage) (status : ImageJobStatus) : place * list output :=
  if negb (jeqb (st_epoch status) (p_epoch record))
  then (finished (o_thrown epoch_changed), [Shown (unavailable record reconnecting)])
  else if bool_decide (state status = cancelled_) && negb (recovery_pending status)
  then (finished o_nothing, [Shown status])
  else (collecting record (result_committed status) (c_latest status), [Shown status]).

(** The pending record has been read after the status. *)
Definition on_latest (record : PendingStudioImage) (committed : bool) (status : ImageJobStatus)
    (latest : option PendingStudioImage) : place * list output :=
  if match latest with
     | Some l => jeqb (p_key l) (p_key record) && cancelRequested l
     | None => false
     end && negb (result_committed status) && negb (cancel_requested status) &&
     bool_decide (state status ∈ [queued; running; completed])
  then cancel record committed status
  else if bool_decide (state status = completed) then (collecting record committed (c_result status), [])
  else if negb (bool_decide (state status ∈ [queued; running; cancelling; cancelled_]))
  then throw (Message (imageJobMessage (st_error status)))
  else (collecting record committed c_waiting, []).

Definition collected_job (record : PendingStudioImage) (status : ImageJobStatus) (imageURL : jstring) (fr : fresh)
  : WorkflowJob :=
  {| job_id := st_id status; job_created_at := st_created_at status; request := p_draft record;
     images := [{| asset_id := newId fr; url := imageURL; mime := js "image/png" |}];
     elapsed_ms := now fr - p_started record; request_id := Some (st_id status) |}.

Definition on_recheck (record : PendingStudioImage) (committed : bool) (status : ImageJobStatus) (imageURL : jstring)
    (recovery : option PendingStudioImage) (fr : fresh) : place * list output :=
  match recovery with
  | Some c =>
      if negb (jeqb (p_key c) (p_key record)) then throw (Message (imageJobMessage None))
      else if cancelRequested c && negb (result_committed status) then cancel record committed status
      else (saving (collected_job record status imageURL fr) (Some record) committed [], [])
  | None => throw (Message (imageJobMessage None))
  end.

(** ** Acknowledging and cancelling *)

(** The acknowledgement, after which the record is removed. *)
Definition acknowledgeStudioImage (job : WorkflowJob) (record : PendingStudioImage) (notice : jstring)
  : place * list output :=
  (acking job record notice, [AckSent (job_id job) (p_epoch record)]).

(** The cancellation is recorded, after which it is sent. *)
Definition cancelStudioImage (record : PendingStudioImage) (status : ImageJobStatus) : place := cancel_writing record status.

(** ** Going on *)

(** The transaction a place waits for. *)
Definition tx_of (p : place) : option tx :=
  match p with
  | submitting (s_reading _) => Some tx_read
  | submitting (s_claiming _ _ record) => Some (tx_claim record)
  | submitting (s_releasing record _) => Some (tx_delete (p_key record))
  | collecting _ _ (c_latest _) | collecting _ _ (c_recheck _ _) => Some tx_read
  | saving job record committed _ => Some (tx_save job (p_key <$> record) committed)
  | removing _ record _ => Some (tx_delete (p_key record))
  | cancel_writing record _ =>
      Some (tx_update {| p_key := p_key record; p_epoch := p_epoch record; p_draft := p_draft record;
                         p_started := p_started record; cancelRequested := true |} (p_key record))
  | clearing k => Some (tx_delete k)
  | _ => None
  end.

(** The call goes on with what its transaction came to. *)
Definition after_tx (p : place) (r : tx_result) (fr : fresh) : place * list output :=
  match p, r with
  | submitting (s_reading draft), got_pending (Resolved (Some _)) => throw (Message reconnect_message)
  | submitting (s_reading draft), got_pending (Resolved None) => (submitting (s_preparing draft), [])
  | submitting (s_claiming _ request record), got_pending (Resolved _) =>
      (submitting (s_posting record), [Posted (p_key record) (p_epoch record) request])
  | submitting (s_releasing _ e), got_pending (Resolved _) => throw e
  | collecting record committed (c_latest status), got_pending (Resolved latest) => on_latest record committed status latest
  | collecting record committed (c_recheck status u), got_pending (Resolved recovery) =>
      on_recheck record committed status u recovery fr
  | saving job record _ notice, got_saved (Resolved saved) =>
      if saved then
        match record with
        | Some record => acknowledgeStudioImage job record notice
        | None => (finished (o_output job notice), [])
        end
      else throw (Message (imageJobMessage None))
  | saving job _ _ _, got_saved (Rejected e) => (finished (o_output job e), [])
  | removing job _ notice, got_pending (Resolved _) => (finished (o_output job notice), [])
  | removing job _ _, got_pending (Rejected e) => (finished (o_output job e), [])
  | cancel_writing record status, got_pending (Resolved _) =>
      (cancel_sending record status, [CancelSent (st_id status) (p_epoch record)])
  | clearing _, got_pending (Resolved _) => (finished o_nothing, [])
  | _, got_pending (Rejected e) | _, got_saved (Rejected e) => throw (Message e)
  | _, _ => (p, [])
  end.

(** [workflowError] of what was caught; the message of the answer is the message of the failure. *)
Definition failure_message (f : failure) : jstring := match f with AxiosError _ _ m | OtherError m => m end.

(** The call goes on with an answer; [None] where the place waits for something else. *)
Definition after_input (p : place) (i : input) (fr : fresh) : option (place * list output) :=
  match p, i with
  | configuring draft, i_config r =>
      Some match r with
           | None => throw (Message configuration_message)
           | Some (enabled, models) =>
               if enabled && match models with Some ms => bool_decide (model draft ∈ ms) | None => false end
               then (submitting (s_reading draft), []) else (generating draft, [])
           end
  | submitting (s_preparing draft), i_prepared r =>
      Some match r with
           | inr e => throw e
           | inl request =>
               if MAX_BODY <? body_size draft request then throw (Message references_too_large)
               else (submitting (s_session draft request), [])
           end
  | submitting (s_session draft request), i_session r =>
      Some match r with
           | Err f => throw (Raw f)
           | Ok_ epoch =>
               (submitting (s_claiming draft request
                  {| p_key := newId fr; p_epoch := epoch; p_draft := effective_draft draft; p_started := now fr;
                     cancelRequested := false |}), [])
           end
  | submitting (s_posting record), i_posted r =>
      Some match r with
           | Ok_ _ => start_collect record
           | Err f => if refused f then (submitting (s_releasing record (post_error f)), []) else throw (post_error f)
           end
  | collecting record committed c_looking, i_status r =>
      Some match r with Err f => handleLookupError record f | Ok_ status => on_status record status end
  | collecting record committed c_cancelling, i_done r =>
      Some match r with Err f => handleLookupError record f | Ok_ _ => (collecting record committed c_looking, []) end
  | collecting record committed (c_result status), i_blob r =>
      Some match r with
           | Err f => handleLookupError record f
           | Ok_ (type, size) =>
               if negb (jeqb type (js "image/png")) || (MAX_RESULT <? size) then throw (Message no_images)
               else (collecting record committed (c_encoding status), [])
           end
  | collecting record committed (c_encoding status), i_url r =>
      Some match r with inr e => throw e | inl u => (collecting record committed (c_recheck status u), []) end
  | collecting record committed c_waiting, i_timer aborted =>
      Some match aborted with Some e => throw e | None => (collecting record committed c_looking, []) end
  | generating draft, i_generated r =>
      Some match r with inr e => throw e | inl (job, warning) => (saving job None false (coalesce warning []), []) end
  | acking job record notice, i_done r =>
      Some match r with
           | Ok_ _ => (removing job record notice, [])
           | Err f => (finished (o_output job (failure_message f)), [])
           end
  | cancel_sending record status, i_done r =>
      Some match r with Ok_ _ => (finished o_nothing, []) | Err f => throw (Raw f) end
  | _, _ => None
  end.

(** ** The tabs of an account *)

(** A call at its place; its transaction may have been committed before it goes on. *)
Record proc := { at_ : place; committed_tx : option tx_result }.

(** Why a record was removed. *)
Inductive reason := r_refused | r_acknowledged | r_discarded.

(** The database, the calls, what they sent (the latest first), the saved jobs with the record
    they were saved for, the records that were removed, and what posts were rejected with, by the key
    of their record. *)
Record world := {
  w_db : studio_db;
  w_procs : gmap nat proc;
  w_out : list output;
  w_saved : list (WorkflowJob * option jstring);
  w_removed : list (jstring * reason);
  w_heard : list (jstring * failure)
}.

Definition start_world : world :=
  {| w_db := {| jobs := []; pending := None |}; w_procs := ∅; w_out := []; w_saved := []; w_removed := []; w_heard := [] |}.

(** What begins: a generation, one that goes on with a record, a cancellation, a discard.  An
    identifier is never empty. *)
Inductive begins : place -> Prop :=
| b_generate draft : begins (configuring draft)
| b_resume record : truthy (p_key record) = true -> begins (collecting record false c_looking)
| b_cancel record status : truthy (p_key record) = true -> begins (cancelStudioImage record status)
| b_clear record : truthy (p_key record) = true -> begins (clearing (p_key record)).

(** The reason a place removes a record for. *)
Definition reason_of (p : place) : reason :=
  match p with submitting _ => r_refused | removing _ _ _ => r_acknowledged | _ => r_discarded end.

(** The record a transaction removed. *)
Definition removed_by (p : place) (before after : studio_db) : list (jstring * reason) :=
  match pending before, pending after with
  | Some r, None => [(p_key r, reason_of p)]
  | _, _ => []
  end.

(** The job a transaction saved. *)
Definition saved_by (t : tx) (r : tx_result) : list (WorkflowJob * option jstring) :=
  match t, r with tx_save job k _, got_saved (Resolved true) => [(job, k)] | _, _ => [] end.

(** What a post was rejected with, if that is what has come. *)
Definition heard_by (p : place) (i : input) : list (jstring * failure) :=
  match p, i with submitting (s_posting record), i_posted (Err f) => [(p_key record, f)] | _, _ => [] end.

Inductive wstep : world -> world -> Prop :=
| w_begin w i p : w_procs w !! i = None -> begins p ->
    wstep w {| w_db := w_db w; w_procs := <[i := {| at_ := p; committed_tx := None |}]> (w_procs w);
               w_out := w_out w; w_saved := w_saved w; w_removed := w_removed w; w_heard := w_heard w |}
| w_commit w i p t commit db' r : w_procs w !! i = Some {| at_ := p; committed_tx := None |} -> tx_of p = Some t ->
    run_tx commit (w_db w) t = (db', r) ->
    wstep w {| w_db := db'; w_procs := <[i := {| at_ := p; committed_tx := Some r |}]> (w_procs w);
               w_out := w_out w; w_saved := saved_by t r ++ w_saved w;
               w_removed := removed_by p (w_db w) db' ++ w_removed w; w_heard := w_heard w |}
| w_resume w i p r fr p' out : truthy (newId fr) = true ->
    w_procs w !! i = Some {| at_ := p; committed_tx := Some r |} -> after_tx p r fr = (p', out) ->
    wstep w {| w_db := w_db w; w_procs := <[i := {| at_ := p'; committed_tx := None |}]> (w_procs w);
               w_out := rev out ++ w_out w; w_saved := w_saved w; w_removed := w_removed w; w_heard := w_heard w |}
| w_answer w i p inp fr p' out : truthy (newId fr) = true ->
    w_procs w !! i = Some {| at_ := p; committed_tx := None |} -> after_input p inp fr = Some (p', out) ->
    wstep w {| w_db := w_db w; w_procs := <[i := {| at_ := p'; committed_tx := None |}]> (w_procs w);
               w_out := rev out ++ w_out w; w_saved := w_saved w; w_removed := w_removed w; w_heard := heard_by p inp ++ w_heard w |}
(** A tab is closed: its calls are gone, before or after their transactions. *)
| w_close w i : wstep w {| w_db := w_db w; w_procs := delete i (w_procs w); w_out := w_out w;
                           w_saved := w_saved w; w_removed := w_removed w; w_heard := w_heard w |}.

Inductive reachable : world -> Prop :=
| reach_start : reachable start_world
| reach_step w w' : reachable w -> wstep w w' -> reachable w'.

(** ** What a transaction does to the pending record *)

Inductive pending_effect (before after : option PendingStudioImage) : tx -> tx_result -> Prop :=
| e_same t r : after = before -> (forall p x, t = tx_claim p -> r <> got_pending (Resolved x)) ->
    pending_effect before after t r
| e_claim p x : before = None -> after = Some p -> pending_effect before after (tx_claim p) (got_pending (Resolved x))
| e_update p q k r : before = Some q -> (truthy k = true -> p_key q = k) -> after = Some p ->
    pending_effect before after (tx_update p k) r
| e_delete q k r : before = Some q -> (truthy k = true -> p_key q = k) -> after = None ->
    pending_effect before after (tx_delete k) r.

Lemma run_tx_effect commit db t db' r : run_tx commit db t = (db', r) ->
  (forall p k, t = tx_update p k -> truthy k = true) -> pending_effect (pending db) (pending db') t r.
Proof.
  intros H Hk. destruct t as [|p|p k|k|job k committed]; cbn in H.
  - unfold pendingStudioImage in H. destruct (negb _); [by injection H as <- <-; apply e_same|].
    destruct (not_opened commit); [by injection H as <- <-; apply e_same|]. destruct commit; injection H as <- <-; by apply e_same.
  - unfold pendingStudioImage in H. destruct (negb _); [injection H as <- <-; apply e_same; [done|by intros ? ? [= <-]]|].
    destruct (not_opened commit); [injection H as <- <-; apply e_same; [done|by intros ? ? [= <-]]|].
    destruct (pending db) as [q|] eqn:Eq; cbn in H; [injection H as <- <-; rewrite Eq; apply e_same; [done|by intros ? ? [= <-]]|].
    destruct commit; injection H as <- <-; [rewrite Eq; apply e_same; [done|by intros ? ? [= <-]]|]. by apply e_claim.
  - specialize (Hk p k eq_refl). destruct k as [|c k]; [done|]. unfold pendingStudioImage in H.
    destruct (negb _); [injection H as <- <-; by apply e_same|]. destruct (not_opened commit); [injection H as <- <-; by apply e_same|].
    destruct (bool_decide_reflect (p_key <$> pending db = Some (c :: k))) as [E|E]; cbn [negb andb] in H;
      (destruct commit; injection H as <- <-; try by apply e_same).
    destruct (pending db) as [q|]; [|done]. injection E as E. by apply (e_update _ _ p q).
  - unfold pendingStudioImage in H. destruct (negb _); [injection H as <- <-; by apply e_same|].
    destruct (not_opened commit); [injection H as <- <-; by apply e_same|].
    destruct (match k with [] => false | _ :: _ => _ end) eqn:Em; cbn [andb] in H;
      (destruct commit; injection H as <- <-; try by apply e_same).
    destruct (pending db) as [q|]; [|by apply e_same]. apply (e_delete _ _ q); [done| |done].
    destruct k as [|c k]; [done|]. apply negb_false_iff, bool_decide_eq_true in Em. by injection Em as Em.
  - unfold saveStudioJob in H. destruct (existsb _ _); [injection H as <- <-; by apply e_same|].
    destruct (_ <? _); [injection H as <- <-; by apply e_same|]. destruct (negb _); [injection H as <- <-; by apply e_same|].
    destruct (not_opened commit); [injection H as <- <-; by apply e_same|].
    destruct (match k with Some _ => _ | None => _ end); [injection H as <- <-; by apply e_same|].
    destruct commit; injection H as <- <-; by apply e_same.
Qed.

(** ** The invariant *)

Definition posted_key (w : world) (k : jstring) : Prop := exists e q, Posted k e q ∈ w_out w.
Definition removed_key (w : world) (k : jstring) : Prop := exists r, (k, r) ∈ w_removed w.
Definition held (w : world) (k : jstring) : Prop := p_key <$> pending (w_db w) = Some k.

(** The status was shown, names the record's epoch, and says whether its result is committed. *)
Definition seen (w : world) (record : PendingStudioImage) (committed : bool) (status : ImageJobStatus) : Prop :=
  Shown status ∈ w_out w /\ st_epoch status = p_epoch record /\ committed = result_committed status.

Definition acknowledged (w : world) (job : WorkflowJob) (k : jstring) : Prop :=
  (job, Some k) ∈ w_saved w /\ exists e, AckSent (job_id job) e ∈ w_out w.

(** The answer says that the gateway has no job of this request: one of these statuses, or one of these codes. *)
Inductive says_no_job : failure -> Prop :=
| by_status st code m : st ∈ [400; 401; 403; 409; 413; 429] -> says_no_job (AxiosError (Some st) code m)
| by_code st code m : code ∈ map js ["studio_capacity_unavailable"; "studio_access_unavailable"; "output_check_unavailable"]%string ->
    says_no_job (AxiosError st (JStr code) m).

Lemma refused_says f : refused f = true -> says_no_job f.
Proof.
  destruct f as [st code m|m]; [|done]. cbn [refused]. intros [H|H]%orb_true_iff.
  - unfold refused_status in H. apply bool_decide_eq_true in H. destruct st as [st|]; [by constructor|]. cbn in H. set_solver.
  - unfold refused_code in H. destruct code; try done. apply bool_decide_eq_true in H. by apply by_code.
Qed.

(** The post of this record was rejected so. *)
Definition turned_down (w : world) (k : jstring) : Prop := exists f, (k, f) ∈ w_heard w /\ says_no_job f.

Definition place_ok (w : world) (p : place) (c : option tx_result) : Prop :=
  match p with
  | submitting (s_claiming _ _ record) => truthy (p_key record) = true /\
      (forall x, c = Some (got_pending (Resolved x)) -> held w (p_key record) \/ removed_key w (p_key record))
  | submitting (s_posting record) => truthy (p_key record) = true
  | submitting (s_releasing record _) => truthy (p_key record) = true /\ turned_down w (p_key record)
  | collecting record committed place => truthy (p_key record) = true /\
      match place with
      | c_latest status | c_result status | c_encoding status | c_recheck status _ => seen w record committed status
      | _ => True
      end
  | saving job (Some record) committed _ => truthy (p_key record) = true /\
      (exists status, seen w record committed status /\ job_id job = st_id status) /\
      (c = Some (got_saved (Resolved true)) -> (job, Some (p_key record)) ∈ w_saved w)
  | acking job record _ | removing job record _ => truthy (p_key record) = true /\ acknowledged w job (p_key record)
  | cancel_writing record _ | cancel_sending record _ => truthy (p_key record) = true
  | clearing k => truthy k = true
  | _ => True
  end.

Record invariant (w : world) : Prop := {
  inv_places : forall i p c, w_procs w !! i = Some {| at_ := p; committed_tx := c |} -> place_ok w p c;
  inv_waited : forall i p r, w_procs w !! i = Some {| at_ := p; committed_tx := Some r |} -> tx_of p <> None;
  inv_posted : forall k, posted_key w k -> held w k \/ removed_key w k;
  inv_acknowledged : forall k, (k, r_acknowledged) ∈ w_removed w -> exists job, acknowledged w job k;
  inv_refused : forall k, (k, r_refused) ∈ w_removed w -> turned_down w k
}.

(** A later world: more was sent, saved and removed, and no record was lost. *)
Record later (w w' : world) : Prop := {
  later_out : forall o, o ∈ w_out w -> o ∈ w_out w';
  later_saved : forall x, x ∈ w_saved w -> x ∈ w_saved w';
  later_held : forall k, held w k \/ removed_key w k -> held w' k \/ removed_key w' k;
  later_heard : forall x, x ∈ w_heard w -> x ∈ w_heard w'
}.

Lemma turned_down_later w w' k : later w w' -> turned_down w k -> turned_down w' k.
Proof. intros [_ _ _ Hh] (f & Hf & Hs). exists f. auto. Qed.

Lemma acknowledged_later w w' job k : later w w' -> acknowledged w job k -> acknowledged w' job k.
Proof. intros [Ho Hs _ _] [H (e & He)]. split; [auto|]. exists e. auto. Qed.

Lemma seen_later w w' record committed status : later w w' -> seen w record committed status -> seen w' record committed status.
Proof. intros [Ho _ _ _] (H1 & H2 & H3). split; [auto|]. by split. Qed.

Lemma place_ok_later w w' p c : later w w' -> place_ok w p c -> place_ok w' p c.
Proof.
  intros Hl. destruct p as [draft|s|record committed place|draft|job [record|] committed notice|job record notice|
    job record notice|record status|record status|k|o]; cbn; try done.
  - destruct s; try done; intros [H1 H2]; (split; [done|]); [|by apply (turned_down_later w)]. intros x Hx. apply (later_held _ _ Hl). by eapply H2.
  - intros [H1 H2]. split; [done|]. destruct place; try done; by apply (seen_later w).
  - intros (H1 & (st & H2 & H3) & H4). split; [done|]. split; [exists st; split; [by apply (seen_later w)|done]|].
    intros Hc. by apply (later_saved _ _ Hl), H4.
  - intros [H1 H2]. split; [done|]. by apply (acknowledged_later w).
  - intros [H1 H2]. split; [done|]. by apply (acknowledged_later w).
Qed.

(** The world after a call has gone on. *)
Definition goes_on (w : world) (heard : list (jstring * failure)) (procs : gmap nat proc) (out : list output) : world :=
  {| w_db := w_db w; w_procs := procs; w_out := rev out ++ w_out w; w_saved := w_saved w; w_removed := w_removed w; w_heard := heard ++ w_heard w |}.

Lemma goes_on_later w heard procs out : later w (goes_on w heard procs out).
Proof. split; [intros o Ho; cbn; apply elem_of_app; by right|done|done|intros x Hx; cbn; apply elem_of_app; by right]. Qed.

Lemma elem_of_rev {A} (x : A) l : x ∈ rev l <-> x ∈ l.
Proof. by rewrite !list_elem_of_In, <- in_rev. Qed.

Lemma sent_now w heard procs out o : o ∈ out -> o ∈ w_out (goes_on w heard procs out).
Proof. intros H. cbn. apply elem_of_app. left. by apply elem_of_rev. Qed.

(** The place that is reached is sound, and a job is posted only for a record that is held. *)
Definition sound (w : world) (heard : list (jstring * failure)) (x : place * list output) : Prop :=
  (forall procs, place_ok (goes_on w heard procs x.2) x.1 None) /\
  (forall k e q, Posted k e q ∈ x.2 -> held w k \/ removed_key w k).

Lemma sound_silent w heard p out : (forall procs, place_ok (goes_on w heard procs out) p None) ->
  Forall (fun o => match o with Posted _ _ _ => False | _ => True end) out -> sound w heard (p, out).
Proof. intros H1 H2. split; [done|]. intros k e q Hin. rewrite Forall_forall in H2. by apply H2 in Hin. Qed.

Lemma sound_throw w heard e : sound w heard (throw e).
Proof. by apply sound_silent. Qed.

Lemma lookup_error_sound w heard record f : sound w heard (handleLookupError record f).
Proof.
  unfold handleLookupError. destruct f as [[st|] code m|m]; [|apply sound_throw..].
  destruct (st =? 409); [by apply sound_silent; repeat constructor|].
  destruct (st =? 404); [by apply sound_silent; repeat constructor|apply sound_throw].
Qed.

Lemma cancel_sound w heard record committed status : truthy (p_key record) = true -> sound w heard (cancel record committed status).
Proof. intros H. by apply sound_silent; repeat constructor. Qed.

Lemma on_status_sound w heard record status : truthy (p_key record) = true -> sound w heard (on_status record status).
Proof.
  intros H. unfold on_status. destruct (jeqb (st_epoch status) (p_epoch record)) eqn:Ee; [|by apply sound_silent; repeat constructor].
  cbn [negb]. destruct (_ && _); [by apply sound_silent; repeat constructor|].
  apply sound_silent; [|by repeat constructor]. intros procs. cbn [place_ok]. split; [done|]. split; [apply sent_now; by left|].
  split; [by apply jeqb_eq|done].
Qed.

Lemma seen_goes_on w heard procs out record committed status : seen w record committed status ->
  seen (goes_on w heard procs out) record committed status.
Proof. apply seen_later, goes_on_later. Qed.

Lemma on_latest_sound w heard record committed status latest : truthy (p_key record) = true -> seen w record committed status ->
  sound w heard (on_latest record committed status latest).
Proof.
  intros H Hs. unfold on_latest. destruct (_ && bool_decide (state status ∈ _)); [by apply cancel_sound|].
  destruct (bool_decide (state status = completed)).
  { apply sound_silent; [|constructor]. intros procs. split; [done|]. by apply seen_goes_on. }
  destruct (negb _); [apply sound_throw|]. by apply sound_silent.
Qed.

Lemma on_recheck_sound w heard record committed status u recovery fr : truthy (p_key record) = true -> seen w record committed status ->
  sound w heard (on_recheck record committed status u recovery fr).
Proof.
  intros H Hs. unfold on_recheck. destruct recovery as [c|]; [|apply sound_throw].
  destruct (negb _); [apply sound_throw|]. destruct (_ && _); [by apply cancel_sound|].
  apply sound_silent; [|constructor]. intros procs. cbn [place_ok]. split; [done|].
  split; [exists status; split; [by apply seen_goes_on|done]|done].
Qed.

(** Going on after a transaction, and with an answer. *)
Lemma after_tx_sound w heard p r fr : place_ok w p (Some r) -> tx_of p <> None -> sound w heard (after_tx p r fr).
Proof.
  intros Hok Ht.
  assert (forall e, sound w heard (throw e)) as Hthrow by (intros e; apply sound_throw).
  destruct p as [draft|s|record committed place|draft|job record committed notice|job record notice|
    job record notice|record status|record status|k|o]; cbn in Ht; try done.
  - destruct s as [draft|draft|draft q|draft q record|record|record e]; try done.
    + destruct r as [[[x|]|e]|[saved|e]]; try apply Hthrow; by apply sound_silent.
    + destruct Hok as [Hk Hc]. destruct r as [[x|e]|[saved|e]]; try apply Hthrow.
      * split; [done|]. intros k e q' Hin. cbn in Hin. apply list_elem_of_singleton in Hin as [= -> -> ->]. by eapply Hc.
      * apply sound_silent; [|constructor]. intros procs. split; [done|]. by intros x ?.
    + destruct r as [[x|e']|[saved|e']]; try apply Hthrow. apply sound_silent; [|constructor]. intros procs. split; [apply Hok|].
      eapply turned_down_later; [apply goes_on_later|apply Hok].
  - destruct Hok as [Hk Hc]. destruct place; try done.
    + destruct r as [[x|e]|[saved|e]]; try apply Hthrow; [by apply on_latest_sound|].
      apply sound_silent; [|constructor]. intros procs. split; [done|]. by apply seen_goes_on.
    + destruct r as [[x|e]|[saved|e]]; try apply Hthrow; [by apply on_recheck_sound|].
      apply sound_silent; [|constructor]. intros procs. split; [done|]. by apply seen_goes_on.
  - destruct r as [[x|e]|[saved|e]]; try apply Hthrow.
    + apply sound_silent; [|constructor]. intros procs. eapply place_ok_later; [apply goes_on_later|].
      destruct record as [record|]; [|done]. destruct Hok as (H1 & H2 & _). split; [done|]. by split.
    + cbn [after_tx]. destruct saved; [|apply Hthrow]. destruct record as [record|]; [|by apply sound_silent].
      apply sound_silent; [|by repeat constructor]. intros procs. destruct Hok as (H1 & _ & H3). split; [done|].
      split; [by apply H3|]. eexists. apply sent_now. by left.
    + by apply sound_silent.
  - destruct r as [[x|e]|[saved|e]]; try apply Hthrow; try by apply sound_silent.
  - destruct r as [[x|e]|[saved|e]]; try apply Hthrow; by apply sound_silent; repeat constructor.
  - destruct r as [[x|e]|[saved|e]]; try apply Hthrow; by apply sound_silent.
Qed.

Lemma after_input_sound w p inp fr x : truthy (newId fr) = true -> place_ok w p None -> after_input p inp fr = Some x -> sound w (heard_by p inp) x.
Proof.
  intros Hfr Hok H.
  assert (forall heard e, sound w heard (throw e)) as Hthrow by (intros heard e; apply sound_throw).
  destruct p as [draft|s|record committed place|draft|job record committed notice|job record notice|
    job record notice|record status|record status|k|o]; cbn in H; try done.
  - destruct inp; try done. injection H as <-. destruct r as [[enabled models]|]; [|apply Hthrow].
    destruct (_ && _); by apply sound_silent.
  - destruct s as [draft|draft|draft q|draft q record|record|record e]; try done; destruct inp; try done; injection H as <-.
    + destruct r as [q|e]; [|apply Hthrow]. destruct (_ <? _); [apply Hthrow|by apply sound_silent].
    + destruct r as [epoch|f]; [|apply Hthrow]. apply sound_silent; [|constructor]. intros procs. split; [done|]. by intros x ?.
    + destruct r as [[]|f]; [apply sound_silent; [by split|constructor]|]. destruct (refused f) eqn:Er; [|apply Hthrow].
      apply sound_silent; [|constructor]. intros procs. split; [exact Hok|]. exists f. split; [by left|by apply refused_says].
  - destruct Hok as [Hk Hc]. destruct place; try done; destruct inp; try done; injection H as <-.
    + destruct r as [status|f]; [by apply on_status_sound|apply lookup_error_sound].
    + destruct r as [[]|f]; [by apply sound_silent|apply lookup_error_sound].
    + destruct r as [[type size]|f]; [|apply lookup_error_sound]. destruct (_ || _); [apply Hthrow|].
      apply sound_silent; [|constructor]. intros procs. split; [done|]. by apply seen_goes_on.
    + destruct r as [u|e]; [|apply Hthrow]. apply sound_silent; [|constructor]. intros procs. split; [done|]. by apply seen_goes_on.
    + destruct aborted; [apply Hthrow|by apply sound_silent].
  - destruct inp; try done. injection H as <-. destruct r as [[job warning]|e]; [by apply sound_silent|apply Hthrow].
  - destruct inp; try done. injection H as <-. destruct r as [[]|f]; [|by apply sound_silent].
    apply sound_silent; [|constructor]. intros procs. eapply place_ok_later; [apply goes_on_later|]. exact Hok.
  - destruct inp; try done. injection H as <-. destruct r as [[]|f]; [by apply sound_silent|apply Hthrow].
Qed.

Definition commits (w : world) (i : nat) (p : place) (t : tx) (db' : studio_db) (r : tx_result) : world :=
  {| w_db := db'; w_procs := <[i := {| at_ := p; committed_tx := Some r |}]> (w_procs w); w_out := w_out w;
     w_saved := saved_by t r ++ w_saved w; w_removed := removed_by p (w_db w) db' ++ w_removed w; w_heard := w_heard w |}.

Lemma tx_effect w p t commit db' r : place_ok w p None -> tx_of p = Some t -> run_tx commit (w_db w) t = (db', r) ->
  pending_effect (pending (w_db w)) (pending db') t r.
Proof.
  intros Hok Ht Hr. eapply run_tx_effect; [exact Hr|]. intros q k ->.
  destruct p as [draft|s|record committed place|draft|job record committed notice|job record notice|
    job record notice|record status|record status|k'|o]; cbn in Ht; try done; [by destruct s|by destruct place|].
  injection Ht as <- <-. exact Hok.
Qed.

(** An update keeps the key: it is the cancellation of the record. *)
Lemma update_key p q k : tx_of p = Some (tx_update q k) -> p_key q = k /\ cancelRequested q = true.
Proof.
  destruct p as [draft|s|record committed place|draft|job record committed notice|job record notice|
    job record notice|record status|record status|k'|o]; cbn; try done; [by destruct s|by destruct place|].
  by intros [= <- <-].
Qed.

Lemma commits_later w i p t commit db' r : place_ok w p None -> tx_of p = Some t -> run_tx commit (w_db w) t = (db', r) ->
  later w (commits w i p t db' r).
Proof.
  intros Hok Ht Hr. split; [done|intros x Hx; cbn; apply elem_of_app; by right| |done].
  intros k [Hh | (re & Hrem)]; [|right; exists re; cbn; apply elem_of_app; by right].
  pose proof (tx_effect w p t commit db' r Hok Ht Hr) as He. unfold held in *. cbn.
  destruct He as [t r Hp _|q x Hb Ha|q q' k' r Hb Hk Ha|q k' r Hb Hk Ha].
  - left. by rewrite Hp.
  - by rewrite Hb in Hh.
  - left. rewrite Ha. rewrite Hb in Hh. injection Hh as <-. cbn. f_equal.
    destruct (update_key _ _ _ Ht) as [E _]. rewrite E. symmetry. apply Hk.
    assert (truthy (p_key q) = true) as Htr; [|by rewrite <- E].
    destruct p as [draft|s|record committed place|draft|job record committed notice|job record notice|
      job record notice|record status|record status|k2|o]; cbn in Ht; try done; [by destruct s|by destruct place|].
    injection Ht as <- <-. exact Hok.
  - right. unfold removed_key. cbn. unfold removed_by. rewrite Ha, Hb in *. injection Hh as <-. eexists. apply elem_of_app. left. by left.
Qed.

Lemma commits_place_ok w i p t commit db' r : place_ok w p None -> tx_of p = Some t -> run_tx commit (w_db w) t = (db', r) ->
  place_ok (commits w i p t db' r) p (Some r).
Proof.
  intros Hok Ht Hr. pose proof (tx_effect w p t commit db' r Hok Ht Hr) as He.
  pose proof (place_ok_later _ _ p None (commits_later w i p t commit db' r Hok Ht Hr) Hok) as Hok'.
  destruct p as [draft|s|record committed place|draft|job [record|] committed notice|job record notice|
    job record notice|record status|record status|k'|o]; cbn in Ht; try done.
  - destruct s; try done. injection Ht as <-. destruct Hok' as [H1 _]. split; [done|]. intros x [= ->]. left.
    unfold held. cbn. inversion He as [? ? ? Hno|? ? ? Ha| |]; subst; [by exfalso; eapply Hno|]. by rewrite Ha.
  - injection Ht as <-. destruct Hok' as (H1 & H2 & _). split; [done|]. split; [done|]. intros [= ->]. cbn. by left.
Qed.

Lemma deleting p k re : tx_of p = Some (tx_delete k) -> reason_of p = re -> re = r_acknowledged ->
  exists job record notice, p = removing job record notice /\ k = p_key record.
Proof.
  destruct p as [draft|s|record committed place|draft|job record committed notice|job record notice|
    job record notice|record status|record status|k'|o]; cbn; try done; try (by intros ? <-).
  intros [= <-] _ _. by exists job, record, notice.
Qed.

Lemma goes_on_invariant w heard i p out : invariant w -> sound w heard (p, out) ->
  invariant (goes_on w heard (<[i := {| at_ := p; committed_tx := None |}]> (w_procs w)) out).
Proof.
  intros [Hpl Hw Hpo Hack Href] [Hs1 Hs2]. pose proof (goes_on_later w heard (<[i := {| at_ := p; committed_tx := None |}]> (w_procs w)) out) as Hl.
  split.
  - intros j q c Hj. cbn in Hj. apply lookup_insert_Some in Hj as [[_ [= <- <-]]|[_ Hj]]; [apply Hs1|].
    eapply place_ok_later; [exact Hl|]. by apply (Hpl j).
  - intros j q r Hj. cbn in Hj. apply lookup_insert_Some in Hj as [[_ [=]]|[_ Hj]]. by eapply Hw.
  - intros k (e & q & Hk). cbn in Hk. apply elem_of_app in Hk as [Hk|Hk].
    { apply (proj1 (elem_of_rev _ _)) in Hk. destruct (Hs2 k e q Hk); [by left|by right]. }
    destruct (Hpo k); [by exists e, q|by left|by right].
  - intros k Hk. destruct (Hack k Hk) as [job Hj]. exists job. by eapply acknowledged_later.
  - intros k Hk. eapply turned_down_later; [exact Hl|]. by apply Href.
Qed.

Lemma removed_reason p before after k re : (k, re) ∈ removed_by p before after -> reason_of p = re.
Proof. unfold removed_by. destruct (pending before), (pending after); try (by intros ?%elem_of_nil). by intros [= _ ->]%list_elem_of_singleton. Qed.

Lemma removes_own w p t commit db' r k : place_ok w p None -> tx_of p = Some t -> run_tx commit (w_db w) t = (db', r) ->
  (k, reason_of p) ∈ removed_by p (w_db w) db' -> exists k', t = tx_delete k' /\ (truthy k' = true -> k = k').
Proof.
  intros Hok Ht Hr Hk. pose proof (tx_effect w p t commit db' r Hok Ht Hr) as He. unfold removed_by in Hk.
  destruct He as [t r Hp _|q x Hb Ha|q q' k' r Hb Hk' Ha|q k' r Hb Hk' Ha].
  - rewrite Hp in Hk. destruct (pending (w_db w)); by apply elem_of_nil in Hk.
  - rewrite Hb in Hk. by apply elem_of_nil in Hk.
  - rewrite Hb, Ha in Hk. by apply elem_of_nil in Hk.
  - rewrite Hb, Ha in Hk. apply list_elem_of_singleton in Hk as [= ->]. exists k'. split; [done|exact Hk'].
Qed.

Lemma commits_invariant w i p t commit db' r : invariant w -> w_procs w !! i = Some {| at_ := p; committed_tx := None |} ->
  tx_of p = Some t -> run_tx commit (w_db w) t = (db', r) -> invariant (commits w i p t db' r).
Proof.
  intros [Hpl Hw Hpo Hack Href] Hi Ht Hr. pose proof (Hpl i p None Hi) as Hok. pose proof (commits_later w i p t commit db' r Hok Ht Hr) as Hl.
  split.
  - intros j q c Hj. cbn in Hj. apply lookup_insert_Some in Hj as [[_ [= <- <-]]|[_ Hj]]; [by eapply commits_place_ok|].
    eapply place_ok_later; [exact Hl|]. by apply (Hpl j).
  - intros j q r' Hj. cbn in Hj. apply lookup_insert_Some in Hj as [[_ [= <- <-]]|[_ Hj]]; [by rewrite Ht|by eapply Hw].
  - intros k (e & q & Hk). apply (later_held _ _ Hl), Hpo. by exists e, q.
  - intros k Hk. cbn in Hk. apply elem_of_app in Hk as [Hk|Hk].
    + assert (reason_of p = r_acknowledged) as Hre by by eapply removed_reason.
      rewrite <- Hre in Hk. destruct (removes_own w p t commit db' r k Hok Ht Hr Hk) as (k' & -> & Hk').
      destruct (deleting p k' r_acknowledged Ht Hre eq_refl) as (job & record & notice & -> & ->).
      destruct Hok as [Htr Hacked]. rewrite (Hk' Htr). exists job. by eapply acknowledged_later.
    + destruct (Hack k Hk) as [job Hj]. exists job. by eapply acknowledged_later.
  - intros k Hk. eapply turned_down_later; [exact Hl|]. cbn in Hk. apply elem_of_app in Hk as [Hk|Hk]; [|by apply Href].
    assert (reason_of p = r_refused) as Hre by by eapply removed_reason.
    rewrite <- Hre in Hk. destruct (removes_own w p t commit db' r k Hok Ht Hr Hk) as (k' & -> & Hk').
    destruct p as [draft|s|record committed place|draft|job record committed notice|job record notice|
      job record notice|record status|record status|k2|o]; cbn in Hre; try done.
    destruct s; try done. cbn in Ht. injection Ht as <-. destruct Hok as [Htr Hd]. by rewrite (Hk' Htr).
Qed.

Lemma invariant_step w w' : invariant w -> wstep w w' -> invariant w'.
Proof.
  intros Hinv Hs. pose proof Hinv as [Hpl Hw Hpo Hack Href].
  destruct Hs as [w i p Hi Hb|w i p t commit db' r Hi Ht Hr|w i p r fr p' out Hfr Hi Ha|w i p inp fr p' out Hfr Hi Ha|w i].
  - split; [| |done|done|done].
    + intros j q c Hj. cbn in Hj. apply lookup_insert_Some in Hj as [[_ [= <- <-]]|[_ Hj]]; [by destruct Hb|by apply (Hpl j)].
    + intros j q r Hj. cbn in Hj. apply lookup_insert_Some in Hj as [[_ [=]]|[_ Hj]]. by apply (Hw j q r).
  - by eapply commits_invariant.
  - apply (goes_on_invariant w [] i p' out Hinv). rewrite <- Ha. apply after_tx_sound; [by eapply Hpl|by eapply Hw].
  - apply (goes_on_invariant w (heard_by p inp) i p' out Hinv). eapply after_input_sound; [exact Hfr|by eapply Hpl|exact Ha].
  - split; [| |done|done|done]; intros j q c Hj; cbn in Hj; apply lookup_delete_Some in Hj as [_ Hj].
    + by apply (Hpl j).
    + by apply (Hw j q c).
Qed.

Lemma reachable_invariant w : reachable w -> invariant w.
Proof.
  induction 1 as [|w w' _ IH Hs]; [|by eapply invariant_step].
  split; cbn; [intros ? ? ?; by rewrite lookup_empty|intros ? ? ?; by rewrite lookup_empty|intros k (e & q & []%elem_of_nil)| |];
    intros k []%elem_of_nil.
Qed.

(** C6. However the tabs of an account run, at most one image job of theirs is unsettled, and it
    is the one whose record the database holds: every other job that was posted has had its
    record removed, because the user discarded it, because its image was saved and acknowledged, or
    because its own post was answered with a status or a code that says that the gateway has no
    such job.  An answer that is lost, or any other failure, is none of these: it removes no record,
    and so never leads to a second job. *)
Theorem one_job_at_a_time w : reachable w ->
  (forall k, posted_key w k -> ~ removed_key w k -> held w k) /\
  (forall k k', posted_key w k -> posted_key w k' -> ~ removed_key w k -> ~ removed_key w k' -> k = k') /\
  (forall k, (k, r_acknowledged) ∈ w_removed w -> exists job, acknowledged w job k) /\
  (forall k, (k, r_refused) ∈ w_removed w -> exists f, (k, f) ∈ w_heard w /\ says_no_job f).
Proof.
  intros [Hpl Hw Hpo Hack Href]%reachable_invariant.
  assert (forall k, posted_key w k -> ~ removed_key w k -> held w k) as Hheld by (intros k Hk Hn; by destruct (Hpo k Hk)).
  split; [done|]. split; [|by split]. intros k k' H1 H2 N1 N2. specialize (Hheld k H1 N1) as E1. specialize (Hheld k' H2 N2) as E2.
  unfold held in *. congruence.
Qed.

(** A recorded cancellation sticks, and wins against the result: it stays until its record is
    removed, and no step saves an image for a record whose cancellation was requested unless
    the gateway had said that the result of this very job was committed. *)
Theorem cancelled_image_not_saved w w' : reachable w -> wstep w w' ->
  (forall r r', pending (w_db w) = Some r -> cancelRequested r = true -> pending (w_db w') = Some r' ->
    p_key r' = p_key r /\ cancelRequested r' = true) /\
  (forall job k, w_saved w' = (job, Some k) :: w_saved w ->
    exists r, pending (w_db w) = Some r /\ p_key r = k /\
      (cancelRequested r = true -> exists status, Shown status ∈ w_out w /\ st_id status = job_id job /\
        result_committed status = true)).
Proof.
  intros [Hpl Hw Hpo Hack Href]%reachable_invariant Hs.
  assert (forall x (l : list (WorkflowJob * option jstring)), l = x :: l -> False) as Hlong.
  { intros x l E. apply (f_equal length) in E. cbn in E. lia. }
  destruct Hs as [w i p Hi Hb|w i p t commit db' r Hi Ht Hr|w i p r fr p' out Hfr Hi Ha|w i p inp fr p' out Hfr Hi Ha|w i]; cbn [w_db w_saved w_out].
  1, 3, 4, 5: split; [intros r0 r' -> Hc [= <-]; done|by intros job k ?%Hlong].
  pose proof (Hpl i p None Hi) as Hok. split.
  - intros r0 r' H0 Hc H'. pose proof (tx_effect w p t commit db' r Hok Ht Hr) as He.
    destruct He as [t r Hp _|q x Hb Ha|q q' k' r Hb Hk' Ha|q k' r Hb Hk' Ha]; [|congruence| |congruence].
    + rewrite Hp, H0 in H'. injection H' as <-. done.
    + rewrite Hb in H0. injection H0 as ->. rewrite Ha in H'. injection H' as <-.
      destruct (update_key _ _ _ Ht) as [E1 E2]. split; [|done]. rewrite E1. symmetry. apply Hk'. rewrite <- E1.
      destruct p as [draft|s|record committed place|draft|job record committed notice|job record notice|
        job record notice|record status|record status|k2|o]; cbn in Ht; try done; [by destruct s|by destruct place|].
      injection Ht as <- <-. exact Hok.
  - intros job k Hsv.
    assert (exists record committed notice, p = saving job (Some record) committed notice /\ k = p_key record /\
      r = got_saved (Resolved true)) as (record & committed & notice & -> & -> & ->).
    { destruct p as [draft|s|record committed place|draft|job0 record committed notice|job0 record notice|
        job0 record notice|record status|record status|k2|o]; cbn in Ht; try done;
        [by destruct s; try done; injection Ht as <-; apply Hlong in Hsv|
         by destruct place; try done; injection Ht as <-; apply Hlong in Hsv| |
         by injection Ht as <-; apply Hlong in Hsv..].
      injection Ht as <-. destruct r as [r|[[]|e]]; cbn [saved_by app] in Hsv; try by apply Hlong in Hsv.
      injection Hsv as -> Hk. destruct record as [record|]; [|done]. injection Hk as <-. by exists record, committed, notice. }
    cbn in Ht. injection Ht as <-. destruct Hok as (Htr & (status & (Hs1 & Hs2 & Hs3) & Hid) & _).
    cbn [run_tx] in Hr. destruct (saveStudioJob _ _ _ _ _ _ _) as [db2 r2] eqn:Esave.
    injection Hr as -> ->. unfold saveStudioJob in Esave. destruct (existsb _ _); [done|]. destruct (_ <? _); [done|].
    destruct (negb (signed_in owner)); [done|]. destruct (not_opened commit); [done|].
    destruct (p_key record) as [|c k] eqn:Ek; [done|].
    destruct (recovery_holds (pending (w_db w)) (c :: k) committed) eqn:Erec; [|done].
    unfold recovery_holds in Erec. destruct (pending (w_db w)) as [q|]; [|done].
    apply andb_true_iff in Erec as [E1%jeqb_eq E2]. exists q. split; [done|]. split; [done|]. intros Hc. rewrite Hc in E2.
    exists status. split; [done|]. split; [done|]. by rewrite <- Hs3.
Qed.

(** ** Running the world *)

Inductive event :=
| ev_begin (i : nat) (p : place)
| ev_commit (i : nat) (commit : option fault)
| ev_resume (i : nat) (fr : fresh)
| ev_answer (i : nat) (inp : input) (fr : fresh)
| ev_close (i : nat).

Definition beginsb (p : place) : bool :=
  match p with
  | configuring _ => true
  | collecting record false c_looking => truthy (p_key record)
  | cancel_writing record _ => truthy (p_key record)
  | _ => false
  end.

Definition exec (w : world) (e : event) : option world :=
  match e with
  | ev_begin i p =>
      match w_procs w !! i with
      | None =>
          if beginsb p then
            Some {| w_db := w_db w; w_procs := <[i := {| at_ := p; committed_tx := None |}]> (w_procs w);
                    w_out := w_out w; w_saved := w_saved w; w_removed := w_removed w; w_heard := w_heard w |}
          else None
      | Some _ => None
      end
  | ev_commit i commit =>
      match w_procs w !! i with
      | Some {| at_ := p; committed_tx := None |} =>
          match tx_of p with
          | Some t => let (db', r) := run_tx commit (w_db w) t in Some (commits w i p t db' r)
          | None => None
          end
      | _ => None
      end
  | ev_resume i fr =>
      match w_procs w !! i with
      | Some {| at_ := p; committed_tx := Some r |} =>
          if truthy (newId fr) then
            let (p', out) := after_tx p r fr in
            Some (goes_on w [] (<[i := {| at_ := p'; committed_tx := None |}]> (w_procs w)) out)
          else None
      | _ => None
      end
  | ev_answer i inp fr =>
      match w_procs w !! i with
      | Some {| at_ := p; committed_tx := None |} =>
          if truthy (newId fr) then
            match after_input p inp fr with
            | Some (p', out) => Some (goes_on w (heard_by p inp) (<[i := {| at_ := p'; committed_tx := None |}]> (w_procs w)) out)
            | None => None
            end
          else None
      | _ => None
      end
  | ev_close i =>
      Some {| w_db := w_db w; w_procs := delete i (w_procs w); w_out := w_out w; w_saved := w_saved w;
              w_removed := w_removed w; w_heard := w_heard w |}
  end.

Fixpoint exec_all (w : world) (es : list event) : option world :=
  match es with
  | [] => Some w
  | e :: es' => match exec w e with Some w' => exec_all w' es' | None => None end
  end.

Lemma exec_step w e w' : exec w e = Some w' -> wstep w w'.
Proof.
  destruct e as [i p|i commit|i fr|i inp fr|i]; cbn.
  - destruct (w_procs w !! i) eqn:E; [done|]. destruct (beginsb p) eqn:Eb; [|done]. intros [= <-]. apply w_begin; [done|].
    destruct p as [draft|s|record [] []|draft|job record committed notice|job record notice|
      job record notice|record status|record status|k|o]; cbn in Eb; try done; by constructor.
  - destruct (w_procs w !! i) as [[p [r|]]|] eqn:E; [done| |done]. destruct (tx_of p) as [t|] eqn:Et; [|done].
    destruct (run_tx commit (w_db w) t) as [db' r] eqn:Er. intros [= <-]. by eapply w_commit.
  - destruct (w_procs w !! i) as [[p [r|]]|] eqn:E; [|done|done]. destruct (truthy (newId fr)) eqn:Ef; [|done].
    destruct (after_tx p r fr) as [p' out] eqn:Ea. intros [= <-]. by eapply w_resume.
  - destruct (w_procs w !! i) as [[p [r|]]|] eqn:E; [done| |done]. destruct (truthy (newId fr)) eqn:Ef; [|done].
    destruct (after_input p inp fr) as [[p' out]|] eqn:Ea; [|done]. intros [= <-]. by eapply w_answer.
  - intros [= <-]. apply w_close.
Qed.

Lemma exec_reachable es : forall w w', reachable w -> exec_all w es = Some w' -> reachable w'.
Proof.
  induction es as [|e es IH]; intros w w' Hw H; cbn in H; [by injection H as <-|].
  destruct (exec w e) as [w1|] eqn:E; [|done]. eapply IH; [|exact H]. eapply reach_step; [exact Hw|]. by eapply exec_step.
Qed.

(** ** A job that is let alone is delivered *)

Definition waits (w : world) (i : nat) (p : place) (c : option tx_result) : Prop :=
  w_procs w !! i = Some {| at_ := p; committed_tx := c |}.

Lemma do_answer w i p inp fr p' out es : waits w i p None -> truthy (newId fr) = true -> after_input p inp fr = Some (p', out) ->
  exec_all w (ev_answer i inp fr :: es) =
  exec_all (goes_on w (heard_by p inp) (<[i := {| at_ := p'; committed_tx := None |}]> (w_procs w)) out) es.
Proof. intros Hi Hf Ha. cbn [exec_all exec]. by rewrite Hi, Hf, Ha. Qed.

Lemma do_resume w i p r fr p' out es : waits w i p (Some r) -> truthy (newId fr) = true -> after_tx p r fr = (p', out) ->
  exec_all w (ev_resume i fr :: es) =
  exec_all (goes_on w [] (<[i := {| at_ := p'; committed_tx := None |}]> (w_procs w)) out) es.
Proof. intros Hi Hf Ha. cbn [exec_all exec]. by rewrite Hi, Hf, Ha. Qed.

Lemma do_commit w i p t commit db' r es : waits w i p None -> tx_of p = Some t -> run_tx commit (w_db w) t = (db', r) ->
  exec_all w (ev_commit i commit :: es) = exec_all (commits w i p t db' r) es.
Proof. intros Hi Ht Hr. cbn [exec_all exec]. by rewrite Hi, Ht, Hr. Qed.

Lemma waits_here w heard procs out i p c : waits (goes_on w heard (<[i := {| at_ := p; committed_tx := c |}]> procs) out) i p c.
Proof. unfold waits. cbn. apply lookup_insert_eq. Qed.

Lemma waits_committed w i p t db' r : waits (commits w i p t db' r) i p (Some r).
Proof. unfold waits. cbn. apply lookup_insert_eq. Qed.

Section Delivery.
Context (i : nat) (record : PendingStudioImage) (fr : fresh).
Hypothesis Hfresh : truthy (newId fr) = true.
Hypothesis Howner : signed_in owner = true.
Hypothesis Hkey : truthy (p_key record) = true.

(** The database holds the record, and no cancellation was asked for. *)
Definition holds (db : studio_db) : Prop :=
  exists p, pending db = Some p /\ p_key p = p_key record /\ cancelRequested p = false.

Lemma read_holds db : run_tx None db tx_read = (db, got_pending (Resolved (pending db))).
Proof using Howner. cbn. unfold pendingStudioImage. by rewrite Howner. Qed.

(** The gateway says that the job is under way. *)
Definition under_way (status : ImageJobStatus) : Prop :=
  st_epoch status = p_epoch record /\ (state status ∈ [queued; running; cancelling] \/
    (state status = cancelled_ /\ recovery_pending status = true)).

Definition poll_events (status : ImageJobStatus) : list event :=
  [ev_answer i (i_status (Ok_ status)) fr; ev_commit i None; ev_resume i fr; ev_answer i (i_timer None) fr].

Lemma poll_step status es w b : waits w i (collecting record b c_looking) None -> holds (w_db w) -> under_way status ->
  exists w' b', exec_all w (poll_events status ++ es) = exec_all w' es /\ w_db w' = w_db w /\
    waits w' i (collecting record b' c_looking) None.
Proof using Hfresh Howner Hkey.
  intros Hi (p & Hp & Hpk & Hpc) (He & Hst). eexists _, _. unfold poll_events. cbn [app]. split; [|split].
  - erewrite do_answer; [|exact Hi|done|].
    2:{ cbn. unfold on_status. rewrite He, jeqb_refl. cbn [negb].
        replace (bool_decide (state status = cancelled_) && negb (recovery_pending status)) with false; [done|].
        symmetry. destruct Hst as [Hst | [E ->]]; [|apply andb_false_r].
        rewrite bool_decide_eq_false_2; [done|]. intros E. rewrite E in Hst. by vm_compute in Hst; set_solver. }
    erewrite do_commit; [|apply waits_here|done|apply read_holds].
    erewrite do_resume; [|apply waits_committed|done|].
    2:{ cbn. unfold on_latest. rewrite Hp, Hpc, andb_false_r. cbn [andb].
        rewrite bool_decide_eq_false_2.
        2:{ intros E. rewrite E in Hst. destruct Hst as [Hst|[? _]]; [set_solver|done]. }
        rewrite bool_decide_eq_true_2; [done|]. destruct Hst as [Hst|[-> _]]; [set_solver|set_solver]. }
    erewrite do_answer; [|apply waits_here|done|done]. reflexivity.
  - done.
  - apply waits_here.
Qed.

Lemma polls_step statuses es : forall w b, waits w i (collecting record b c_looking) None -> holds (w_db w) ->
  Forall under_way statuses ->
  exists w' b', exec_all w (flat_map poll_events statuses ++ es) = exec_all w' es /\ w_db w' = w_db w /\
    waits w' i (collecting record b' c_looking) None.
Proof using Hfresh Howner Hkey.
  induction statuses as [|status statuses IH]; intros w b Hi Hh Hs; [by exists w, b|].
  apply Forall_cons in Hs as [Hst Hs]. cbn [flat_map]. rewrite <- app_assoc.
  destruct (poll_step status (flat_map poll_events statuses ++ es) w b Hi Hh Hst) as (w1 & b1 & -> & Hdb & Hi1).
  destruct (IH w1 b1 Hi1 ltac:(by rewrite Hdb) Hs) as (w2 & b2 & E & Hdb2 & Hi2). exists w2, b2. by rewrite E, Hdb2.
Qed.

(** The gateway says that the job is done, hands out its image and takes the acknowledgement. *)
Definition deliver_events (status : ImageJobStatus) (size : Z) (u : jstring) : list event :=
  [ev_answer i (i_status (Ok_ status)) fr; ev_commit i None; ev_resume i fr;
   ev_answer i (i_blob (Ok_ (js "image/png", size))) fr; ev_answer i (i_url (inl u)) fr; ev_commit i None; ev_resume i fr;
   ev_commit i None; ev_resume i fr; ev_answer i (i_done (Ok_ tt)) fr; ev_commit i None; ev_resume i fr].

(** The image can be kept in the local history. *)
Definition keepable (job : WorkflowJob) : Prop :=
  Forall (fun a => self_contained (url a) = true) (images job ++ references (StudioStorage.request job)) /\
  job_bytes json_length job <= STUDIO_MAX_BYTES.

Lemma save_holds db job committed : holds db -> keepable job ->
  run_tx None db (tx_save job (Some (p_key record)) committed) =
  ({| jobs := put_studio_job json_length (jobs db) job; pending := pending db |}, got_saved (Resolved true)).
Proof using Howner Hkey.
  intros (p & Hp & Hpk & Hpc) [Ha Hb]. cbn. unfold saveStudioJob.
  replace (existsb _ _) with false.
  2:{ symmetry. apply not_true_iff_false. intros (a & Hin & Hn)%existsb_exists. rewrite List.Forall_forall in Ha.
      by rewrite (Ha a Hin) in Hn. }
  replace (_ <? _) with false by (symmetry; apply Z.ltb_ge; lia). rewrite Howner, Hp. cbn [negb].
  destruct (p_key record) as [|c k] eqn:Ek; [done|]. unfold recovery_holds. by rewrite Hpk, Hpc, jeqb_refl.
Qed.

Lemma delete_holds db : (exists p, pending db = Some p /\ p_key p = p_key record) ->
  run_tx None db (tx_delete (p_key record)) = ({| jobs := jobs db; pending := None |}, got_pending (Resolved None)).
Proof using Howner Hkey.
  intros (p & Hp & Hpk). cbn. unfold pendingStudioImage. rewrite Howner, Hp. cbn [negb fmap option_fmap option_map].
  rewrite Hpk. destruct (p_key record); [done|]. by rewrite bool_decide_eq_true_2.
Qed.

Lemma deliver_step status size u w b : waits w i (collecting record b c_looking) None -> holds (w_db w) ->
  st_epoch status = p_epoch record -> state status = completed -> size <= MAX_RESULT ->
  keepable (collected_job record status u fr) ->
  exists w', exec_all w (deliver_events status size u) = Some w' /\
    waits w' i (finished (o_output (collected_job record status u fr) [])) None /\
    w_db w' = {| jobs := put_studio_job json_length (jobs (w_db w)) (collected_job record status u fr); pending := None |}.
Proof using Hfresh Howner Hkey.
  intros Hi Hh He Hst Hsize Hkeep. pose proof Hh as (p & Hp & Hpk & Hpc). eexists. unfold deliver_events. split; [|split].
  - erewrite do_answer; [|exact Hi|done|].
    2:{ cbn. unfold on_status. rewrite He, jeqb_refl, Hst. done. }
    erewrite do_commit; [|apply waits_here|done|apply read_holds].
    erewrite do_resume; [|apply waits_committed|done|].
    2:{ cbn. unfold on_latest. rewrite Hp, Hpc, andb_false_r. cbn [andb]. by rewrite Hst. }
    erewrite do_answer; [|apply waits_here|done|].
    2:{ cbn. rewrite jeqb_refl. replace (MAX_RESULT <? size) with false by (symmetry; apply Z.ltb_ge; lia). done. }
    erewrite do_answer; [|apply waits_here|done|done].
    erewrite do_commit; [|apply waits_here|done|apply read_holds].
    erewrite do_resume; [|apply waits_committed|done|].
    2:{ cbn. rewrite Hp. cbn. rewrite Hpk, jeqb_refl, Hpc. done. }
    erewrite do_commit; [|apply waits_here|done|by apply save_holds].
    erewrite do_resume; [|apply waits_committed|done|done].
    erewrite do_answer; [|apply waits_here|done|done].
    erewrite do_commit; [|apply waits_here|done|apply delete_holds; by exists p].
    erewrite do_resume; [|apply waits_committed|done|done]. reflexivity.
  - apply waits_here.
  - done.
Qed.

(** C7. An image job that is let alone is delivered: a collection of the pending record goes
    on polling for as long as the gateway says that the job is under way, and once it says that
    the job is complete, the image is saved in the local history, acknowledged, the record is
    removed and the image is handed out without a notice. *)
Theorem collect_delivers statuses status size u w b : waits w i (collecting record b c_looking) None -> holds (w_db w) ->
  Forall under_way statuses -> st_epoch status = p_epoch record -> state status = completed -> size <= MAX_RESULT ->
  keepable (collected_job record status u fr) ->
  exists w', exec_all w (flat_map poll_events statuses ++ deliver_events status size u) = Some w' /\
    waits w' i (finished (o_output (collected_job record status u fr) [])) None /\
    w_db w' = {| jobs := put_studio_job json_length (jobs (w_db w)) (collected_job record status u fr); pending := None |}.
Proof using Hfresh Howner Hkey.
  intros Hi Hh Hs He Hst Hsize Hkeep.
  destruct (polls_step statuses (deliver_events status size u) w b Hi Hh Hs) as (w1 & b1 & -> & Hdb & Hi1).
  rewrite <- Hdb in *.
  by apply (deliver_step status size u w1 b1).
Qed.
End Delivery.
End ImageJobs.

(** ** Sample runs *)

Definition sample_draft : WorkflowDraft :=
  {| mode := create_; model := js "m"; prompt := js "a cat"; quality := standard; references := []; steps := None; cfg := None;
     seed := None |}.

Definition sample_fresh : fresh := {| newId := js "k1"; now := 1000 |}.

Definition sample_status (s : job_state) : ImageJobStatus :=
  {| st_id := js "j1"; st_key := js "k1"; st_epoch := js "e1"; state := s; ahead := 0; st_error := None;
     recovery_pending := false; cancel_requested := false; result_committed := false; st_created_at := 5 |}.

Definition sample_run : @world unit -> list event -> option (@world unit) :=
  exec_all (fun _ => 1000) 7 (fun _ _ => 100).

(** A tab prepares an image up to the claim of the record; it claims it and posts the job. *)
Definition prepare_events (i : nat) : list (@event unit) :=
  [ev_begin i (configuring sample_draft); ev_answer i (i_config (Some (true, Some [js "m"]))) sample_fresh;
   ev_commit i None; ev_resume i sample_fresh; ev_answer i (i_prepared (inl tt)) sample_fresh;
   ev_answer i (i_session (Ok_ (js "e1"))) sample_fresh].
Definition post_events (i : nat) : list (@event unit) :=
  [ev_commit i None; ev_resume i sample_fresh; ev_answer i (i_posted (Ok_ tt)) sample_fresh].

(** Two tabs race for the record: the second has read that there is none before the first claims it. *)
Definition raced : @world unit :=
  default start_world (sample_run start_world
    (prepare_events 0 ++ prepare_events 1 ++ post_events 0 ++ [ev_commit 1 None; ev_resume 1 sample_fresh])).

Definition sample_record : PendingStudioImage :=
  {| p_key := js "k1"; p_epoch := js "e1"; p_draft := effective_draft sample_draft; p_started := 1000; cancelRequested := false |}.

Lemma raced_reachable : reachable (fun _ => 1000) 7 (fun _ _ => 100) raced.
Proof.
  refine (exec_reachable _ _ _ (prepare_events 0 ++ prepare_events 1 ++ post_events 0 ++
    [ev_commit 1 None; ev_resume 1 sample_fresh]) _ _ (reach_start _ _ _) _). by vm_compute.
Qed.

(** The tab that lost is told to reconnect, and has posted nothing. *)
Example second_tab_refused : at_ <$> w_procs raced !! 1%nat = Some (finished (o_thrown (Message reconnect_message))) /\
  w_out raced = [Posted (js "k1") (js "e1") tt].
Proof. split; by vm_compute. Qed.

Lemma one_job_at_a_time_witness : posted_key raced (js "k1") /\ held raced (js "k1").
Proof.
  assert (posted_key raced (js "k1")) as Hp by (exists (js "e1"), tt; rewrite (proj2 second_tab_refused); by left).
  split; [exact Hp|].
  refine (proj1 (one_job_at_a_time (fun _ => 1000) 7 (fun _ _ => 100) raced raced_reachable) _ Hp _).
  intros [r H]. by apply elem_of_nil in H.
Defined.

(** The user cancels while the image is being fetched; the gateway had not committed its result. *)
Definition fetched_events : list (@event unit) :=
  [ev_answer 0 (i_status (Ok_ (sample_status completed))) sample_fresh; ev_commit 0 None; ev_resume 0 sample_fresh;
   ev_answer 0 (i_blob (Ok_ (js "image/png", 2000))) sample_fresh;
   ev_answer 0 (i_url (inl (js "data:image/png;base64,AA"))) sample_fresh; ev_commit 0 None; ev_resume 0 sample_fresh;
   ev_begin 2 (cancel_writing sample_record (sample_status completed))].
Definition cancelling_ : @world unit := default start_world (sample_run raced fetched_events).
Definition cancelled_then : @world unit := default start_world (sample_run cancelling_ [ev_commit 2 None]).
Definition not_saved : @world unit := default start_world (sample_run cancelled_then [ev_commit 0 None]).

Definition cancelled_record : PendingStudioImage :=
  {| p_key := js "k1"; p_epoch := js "e1"; p_draft := effective_draft sample_draft; p_started := 1000; cancelRequested := true |}.

Lemma cancelling_reachable : reachable (fun _ => 1000) 7 (fun _ _ => 100) cancelled_then.
Proof.
  refine (exec_reachable _ _ _ (fetched_events ++ [ev_commit 2 None]) _ _ raced_reachable _). by vm_compute.
Qed.

Lemma cancelled_image_not_saved_witness :
  cancelRequested <$> pending (w_db cancelled_then) = Some true /\ cancelRequested <$> pending (w_db not_saved) = Some true /\
  w_saved not_saved = [].
Proof.
  assert (wstep (fun _ => 1000) 7 (fun _ _ => 100) cancelled_then not_saved) as Hs
    by (apply (exec_step _ _ _ _ (ev_commit 0 None)); by vm_compute).
  destruct (cancelled_image_not_saved (fun _ => 1000) 7 (fun _ _ => 100) cancelled_then not_saved cancelling_reachable Hs)
    as [Hc _].
  assert (pending (w_db cancelled_then) = Some cancelled_record) as E1 by (vm_compute; reflexivity).
  assert (is_Some (pending (w_db not_saved))) as [r' E2] by (vm_compute; eexists; reflexivity).
  rewrite E1, E2. cbn [fmap option_fmap option_map]. destruct (Hc cancelled_record r' E1 eq_refl E2) as [_ ->].
  split; [done|]. split; [done|]. vm_compute. reflexivity.
Defined.

Definition waiting_world : @world unit := default start_world (sample_run start_world (prepare_events 0 ++ post_events 0)).

Lemma collect_delivers_witness : exists w', sample_run waiting_world
    (flat_map (poll_events 0 sample_fresh) [sample_status queued; sample_status running] ++
     deliver_events 0 sample_fresh (sample_status completed) 2000 (js "data:image/png;base64,AA")) = Some w' /\
  pending (w_db w') = None /\ length (jobs (w_db w')) = 1%nat.
Proof.
  unfold sample_run.
  assert (waits waiting_world 0 (collecting sample_record false c_looking) None) as Hw by (vm_compute; reflexivity).
  assert (holds sample_record (w_db waiting_world)) as Hh by (exists sample_record; vm_compute; done).
  assert (Forall (under_way sample_record) [sample_status queued; sample_status running]) as Hs
    by (repeat constructor; set_solver).
  assert (keepable (fun _ => 1000) (collected_job sample_record (sample_status completed) (js "data:image/png;base64,AA")
    sample_fresh)) as Hk by (split; [repeat constructor|vm_compute; done]).
  destruct (collect_delivers (fun _ => 1000) 7 (fun _ _ => 100) 0 sample_record sample_fresh eq_refl eq_refl eq_refl
    _ (sample_status completed) 2000 _ waiting_world false Hw Hh Hs eq_refl eq_refl ltac:(by vm_compute) Hk)
    as (w' & H1 & _ & Hdb).
  exists w'. rewrite H1, Hdb. split; [reflexivity|]. split; [reflexivity|]. vm_compute. reflexivity.
Defined.
