(* ===== verification/VideoJobs.v ===== *)
(** * Videos of the media studio

    features/media-studio/lib/video-draft.ts, video-api.ts, lib/video-pending.ts and
    hooks/use-video.ts: the draft and its request, the reading of the server's answers, the record by
    which a task that was paid for is found again, and the page that submits, polls, downloads and
    saves - a machine over what the visitor, the server and the browser do.  [video_step] is one tab of
    the browser: pages that were left live on while a request of theirs is under way; closing the tab ends
    them all.  [browser_step] is the browser: several tabs, each with its pages, over the one record of the
    account in localStorage and the one history in IndexedDB. *)

From S2P Require Import Prelude JsValue JsText JsonText Zod StudioStorage.
#[global] Open Scope Z_scope.

(** ** video-draft.ts *)

Definition VIDEO_DEFAULT_DURATION : jsnum := num_of_Z 5.
Definition VIDEO_DEFAULT_RESOLUTION : jstring := js "720p".

Definition initialVideoDraft : VideoDraft :=
  {| v_mode := js "text"; v_model := []; v_prompt := []; v_duration := VIDEO_DEFAULT_DURATION;
     v_resolution := VIDEO_DEFAULT_RESOLUTION; v_image := None |}.

(** [/^[1-9]\d{2,3}p$/] *)
Definition resolution_text (s : jstring) : bool :=
  match s with
  | d :: ds =>
      ((49 <=? d) && (d <=? 57))%N &&
      match rev ds with
      | p :: digits_ => (p =? 112)%N && forallb is_digit digits_ && ((length digits_ =? 2)%nat || (length digits_ =? 3)%nat)
      | [] => false
      end
  | [] => false
  end.

(** [z.number().int().min(a).max(b)]: a safe integer. *)
Definition whole_between (a b : Z) (n : jsnum) : option jsnum :=
  match n with
  | Fin q => if isInteger n && negb (num_ltb n (num_of_Z a)) && negb (num_ltb (num_of_Z b) n) then Some n else None
  | _ => None
  end.

Section DraftSchema.
Context `{Zod}.

Definition assetSchema (v : jsval) : option StudioAsset :=
  g ← z_object v; i ← z_string (g (js "id")); u ← z_string (g (js "url")); m ← z_string (g (js "mime"));
  Some {| asset_id := i; url := u; mime := m |}.

Definition videoDraftSchema (v : jsval) : option VideoDraft :=
  g ← z_object v;
  mo ← z_enum [js "text"; js "image"] (g (js "mode"));
  md ← z_string (g (js "model"));
  md ← (if truthy md then Some md else None);
  p ← z_string (g (js "prompt"));
  p ← (let p := trim p in if (1 <=? length p)%nat && (length p <=? Z.to_nat 16000)%nat then Some p else None);
  d ← z_number (g (js "duration"));
  d ← whole_between 1 3600 d;
  r ← z_string (g (js "resolution"));
  r ← (if resolution_text r then Some r else None);
  im ← z_optional assetSchema (g (js "image"));
  (* superRefine *)
  if jeqb mo (js "image") && negb (bool_decide (is_Some im)) then None
  else Some {| v_mode := mo; v_model := md; v_prompt := p; v_duration := d; v_resolution := r; v_image := im |}.
End DraftSchema.

(** An error as the code sees it: of axios, with the body of the response, another [Error], or
    anything else. *)
Inductive thrown := AxiosError (data : jsval) (message : jstring) | OtherError (message : jstring) | NoError.

Definition videoError (error : thrown) : jstring :=
  let fallback := match error with AxiosError _ m | OtherError m => m | NoError => js "Video operation could not be completed." end in
  match error with
  | AxiosError data _ =>
      match jget data (js "message") with
      | JStr ((_ :: _) as direct) => direct
      | _ => match jget (jget data (js "error")) (js "message") with JStr message => message | _ => fallback end
      end
  | _ => fallback
  end.

(** workflow.ts *)
Definition workflowError (error : thrown) : jstring :=
  match error with
  | AxiosError data m => match jget (jget data (js "error")) (js "message") with JStr message => message | _ => m end
  | OtherError m => m
  | NoError => js "Image operation could not be completed."
  end.

(** ** video-api.ts *)

Definition MAX_VIDEO_BYTES : Z := 300 * 1024 * 1024.

Definition videoRequest (draft : VideoDraft) : jsval :=
  JObj ([(js "model", JStr (v_model draft)); (js "prompt", JStr (trim (v_prompt draft)));
         (js "duration", JNum (v_duration draft)); (js "size", JStr (v_resolution draft))] ++
        match v_image draft with
        | Some im => if jeqb (v_mode draft) (js "image") then [(js "image", JStr (url im))] else []
        | None => []
        end).

Definition no_task_id : jstring := js "The task was submitted without a task id.".

(** [submitVideoTask] after its [await]. *)
Definition submitVideoTask_end (submitted : jsval) : settled jstring :=
  match jget submitted (js "task_id"), jget submitted (js "id") with
  | JStr ((_ :: _) as taskId), _ => Resolved taskId
  | _, JStr ((_ :: _) as taskId) => Resolved taskId
  | _, _ => Rejected no_task_id
  end.

Inductive VideoTaskStatus := NOT_START | SUBMITTED | QUEUED | IN_PROGRESS | SUCCESS | FAILURE | UNKNOWN.

#[export] Instance VideoTaskStatus_eq_dec : EqDecision VideoTaskStatus.
Proof. solve_decision. Defined.

Record VideoTaskState := { vt_status : VideoTaskStatus; vt_url : jstring; vt_progress : jstring; vt_fail_reason : jstring; vt_raw : jsval }.

Section Reading.
Context (toUpperCase : jstring -> jstring).

Definition normalizeTaskStatus (value : jsval) : VideoTaskStatus :=
  match value with
  | JStr s =>
      let status := toUpperCase (trim s) in
      let is_ x := jeqb status (js x) in
      if is_ "NOT_START" then NOT_START else if is_ "SUBMITTED" then SUBMITTED else if is_ "QUEUED" then QUEUED
      else if is_ "IN_PROGRESS" then IN_PROGRESS else if is_ "SUCCESS" then SUCCESS else if is_ "FAILURE" then FAILURE
      else if is_ "FAILED" || is_ "ERROR" then FAILURE
      else if is_ "COMPLETED" || is_ "DONE" || is_ "SUCCEEDED" then SUCCESS
      else UNKNOWN
  | _ => UNKNOWN
  end.

Definition extractVideoUrl (data : jsval) : jstring :=
  let fallback := match jget data (js "result_url") with JStr u => u | _ => [] end in
  match jget (jget data (js "data")) (js "creations") with
  | JArr (first :: _) => match jget first (js "url") with JStr ((_ :: _) as u) => u | _ => fallback end
  | _ => fallback
  end.

(** [fetchVideoTask] after its [await]. *)
Definition fetchVideoTask_end (body : jsval) : VideoTaskState :=
  let data := jget body (js "data") in
  let rawStatus := normalizeTaskStatus (jget data (js "status")) in
  let failReason := asString (jget data (js "fail_reason")) in
  let message := asString (jget body (js "message")) in
  {| vt_status := rawStatus; vt_url := extractVideoUrl data; vt_progress := asString (jget data (js "progress"));
     vt_fail_reason := if bool_decide (rawStatus = FAILURE) then jor failReason (jor message (js "Task failed.")) else [];
     vt_raw := body |}.
End Reading.

Definition unsupported_url : jstring := js "Unsupported video URL.".
Definition no_download : jstring := js "Could not download video for local history.".
Definition video_file_too_large : jstring := js "This video is too large for local history.".

(** [parse_url]: the protocol and the user name of an address; [response]: whether it is ok, and the
    size of its body. *)
Definition downloadVideo (parse_url : jstring -> option (jstring * jstring)) (u : jstring) (response : settled (bool * Z)) : settled Z :=
  match parse_url u with
  | None => Rejected unsupported_url
  | Some (protocol, username) =>
      if negb (bool_decide (protocol ∈ [js "https:"; js "http:"])) || truthy username then Rejected unsupported_url
      else match response with
           | Rejected e => Rejected e
           | Resolved (ok, size) =>
               if negb ok then Rejected no_download
               else if MAX_VIDEO_BYTES <? size then Rejected video_file_too_large
               else if size =? 0 then Rejected no_download
               else Resolved size
           end
  end.

(** ** video-pending.ts *)

Record PendingVideoTask := { pv_task : jstring; pv_draft : VideoDraft; pv_started : jsnum }.

Definition without_image (d : VideoDraft) : VideoDraft :=
  {| v_mode := v_mode d; v_model := v_model d; v_prompt := v_prompt d; v_duration := v_duration d;
     v_resolution := v_resolution d; v_image := None |}.

(** The record as it is written: the image is undefined, and left out. *)
Definition draft_value (d : VideoDraft) : jsval :=
  JObj [(js "mode", JStr (v_mode d)); (js "model", JStr (v_model d)); (js "prompt", JStr (v_prompt d));
        (js "duration", JNum (v_duration d)); (js "resolution", JStr (v_resolution d))].
Definition pending_value (r : PendingVideoTask) : jsval :=
  JObj [(js "task_id", JStr (pv_task r)); (js "draft", draft_value (pv_draft r)); (js "started_at", JNum (pv_started r))].

Definition requireOwner (owner : Z) : exc unit := if signed_in owner then Ret tt else Throw.

Definition read_pending (now : Z) (parsed : jsval) : option PendingVideoTask :=
  let draft := jget parsed (js "draft") in
  match jget parsed (js "task_id"), jget draft (js "mode"), jget draft (js "model"), jget draft (js "prompt"),
        jget draft (js "duration"), jget draft (js "resolution") with
  | JStr ((_ :: _) as t), JStr mo, JStr md, JStr p, JNum d, JStr r =>
      if negb (jeqb mo (js "text")) && negb (jeqb mo (js "image")) then None
      else Some {| pv_task := t;
                   pv_draft := {| v_mode := mo; v_model := md; v_prompt := p; v_duration := d; v_resolution := r; v_image := None |};
                   pv_started := match jget parsed (js "started_at") with JNum n => n | _ => num_of_Z now end |}
  | _, _, _, _, _, _ => None
  end.

(** [raw]: the text under the key of the account. *)
Definition loadPendingVideoTask (owner now : Z) (raw : option jstring) : exc (option PendingVideoTask) :=
  ebind (requireOwner owner) (fun _ =>
    Ret match raw with
        | Some ((_ :: _) as text) => catch (ebind (JSON_parse text) (fun parsed => Ret (read_pending now parsed))) None
        | _ => None
        end).

(** [accepts]: whether the storage takes the text. *)
Definition savePendingVideoTask (accepts : jstring -> bool) (owner : Z) (r : PendingVideoTask) (raw : option jstring)
  : exc (option jstring) :=
  ebind (requireOwner owner) (fun _ =>
    let text := JSON_stringify (pending_value r) in Ret (if accepts text then Some text else raw)).

Definition clearPendingVideoTask (owner : Z) (raw : option jstring) : exc (option jstring) :=
  ebind (requireOwner owner) (fun _ => Ret None).

(** ** use-video.ts *)

(** What a page keeps; a page that was left keeps its own. *)
Record video_page := {
  activeTaskId : option jstring;
  activeDraft : option VideoDraft;
  processedTaskId : option jstring;
  started : Z;
  selected : option VideoJob;
  warning : jstring
}.

Definition fresh_page : video_page :=
  {| activeTaskId := None; activeDraft := None; processedTaskId := None; started := 0; selected := None; warning := [] |}.

(** A time that was read back. *)
Definition whole_number (n : jsnum) : Z := match n with Fin q => Qnum q / Zpos (Qden q) | _ => 0 end.

(** Under way: submissions, downloads and saves, each with the page it belongs to. *)
Record submission := { sub_page : nat; sub_draft : VideoDraft }.
Record download := { dl_page : nat; dl_task : jstring; dl_draft : VideoDraft; dl_url : jstring }.
Record saving := { sv_page : nat; sv_job : VideoJob }.

Record video_world := {
  pages : list video_page;
  mounted : option nat;
  pending_text : option jstring;
  video_store : list VideoJob;
  submissions : list submission;
  downloads : list download;
  saves : list saving
}.

(** What happens: the visitor's actions, the ends of what is under way, by its place, and the answers of
    polling, for the task that is polled. *)
Inductive video_event :=
| MountPage (now : Z)
| LeavePage
| CloseTab
| SubmitDraft (draft : VideoDraft) (now : Z)
| SubmissionEnds (n : nat) (result : settled jstring)
| PollAnswers (state : VideoTaskState) (id : jstring) (now : Z)
| PollFails (error : thrown)
| DownloadEnds (n : nat) (result : settled Z) (id : jstring) (now : Z)
| SaveEnds (n : nat) (commit : option jstring)
| DeleteJob (key : option jstring) (commit : option jstring)
| SelectJob (key : jstring).

Definition remove_nth {A} (n : nat) (l : list A) : list A := take n l ++ drop (S n) l.

Section Pages.
Context (owner : Z) (accepts : jstring -> bool) (meta_length : VideoJob -> Z).

Definition set_page (n : nat) (f : video_page -> video_page) (w : video_world) : video_world :=
  {| pages := alter f n (pages w); mounted := mounted w; pending_text := pending_text w; video_store := video_store w;
     submissions := submissions w; downloads := downloads w; saves := saves w |}.
Definition set_mounted (m : option nat) (w : video_world) : video_world :=
  {| pages := pages w; mounted := m; pending_text := pending_text w; video_store := video_store w;
     submissions := submissions w; downloads := downloads w; saves := saves w |}.
Definition set_pending (p : option jstring) (w : video_world) : video_world :=
  {| pages := pages w; mounted := mounted w; pending_text := p; video_store := video_store w;
     submissions := submissions w; downloads := downloads w; saves := saves w |}.
Definition set_store (s : list VideoJob) (w : video_world) : video_world :=
  {| pages := pages w; mounted := mounted w; pending_text := pending_text w; video_store := s;
     submissions := submissions w; downloads := downloads w; saves := saves w |}.
Definition set_submissions (l : list submission) (w : video_world) : video_world :=
  {| pages := pages w; mounted := mounted w; pending_text := pending_text w; video_store := video_store w;
     submissions := l; downloads := downloads w; saves := saves w |}.
Definition set_downloads (l : list download) (w : video_world) : video_world :=
  {| pages := pages w; mounted := mounted w; pending_text := pending_text w; video_store := video_store w;
     submissions := submissions w; downloads := l; saves := saves w |}.
Definition set_saves (l : list saving) (w : video_world) : video_world :=
  {| pages := pages w; mounted := mounted w; pending_text := pending_text w; video_store := video_store w;
     submissions := submissions w; downloads := downloads w; saves := l |}.

(** [mutationFn] up to the request. *)
Definition submit_page (draft : VideoDraft) (now : Z) (p : video_page) : video_page :=
  {| activeTaskId := activeTaskId p; activeDraft := Some draft; processedTaskId := None; started := now; selected := None;
     warning := [] |}.

Definition with_task (t : option jstring) (p : video_page) : video_page :=
  {| activeTaskId := t; activeDraft := activeDraft p; processedTaskId := processedTaskId p; started := started p;
     selected := selected p; warning := warning p |}.
Definition with_processed (t : jstring) (p : video_page) : video_page :=
  {| activeTaskId := activeTaskId p; activeDraft := activeDraft p; processedTaskId := Some t; started := started p;
     selected := selected p; warning := warning p |}.
(** [setSelected; setWarning; setActiveTaskId(undefined)] *)
Definition with_result (job : option VideoJob) (notice : jstring) (p : video_page) : video_page :=
  {| activeTaskId := None; activeDraft := activeDraft p; processedTaskId := processedTaskId p; started := started p;
     selected := job; warning := notice |}.
Definition with_selected (job : option VideoJob) (p : video_page) : video_page :=
  {| activeTaskId := activeTaskId p; activeDraft := activeDraft p; processedTaskId := processedTaskId p; started := started p;
     selected := job; warning := warning p |}.
Definition with_warning (notice : jstring) (p : video_page) : video_page :=
  {| activeTaskId := activeTaskId p; activeDraft := activeDraft p; processedTaskId := processedTaskId p; started := started p;
     selected := selected p; warning := notice |}.

(** The effect of the first render: a task under way is found again. *)
Definition restore (now : Z) (raw : option jstring) (p : video_page) : video_page :=
  match catch (loadPendingVideoTask owner now raw) None with
  | Some r => {| activeTaskId := Some (pv_task r); activeDraft := Some (pv_draft r); processedTaskId := processedTaskId p;
                 started := whole_number (pv_started r); selected := selected p; warning := warning p |}
  | None => p
  end.

(** [onSuccess] *)
Definition task_accepted (n : nat) (draft : VideoDraft) (taskId : jstring) (w : video_world) : video_world :=
  match pages w !! n with
  | None => w
  | Some p =>
      set_page n (with_task (Some taskId))
        (set_pending (catch (savePendingVideoTask accepts owner
           {| pv_task := taskId; pv_draft := draft; pv_started := num_of_Z (started p) |} (pending_text w)) (pending_text w)) w)
  end.

(** [finish] of a page: the job is shown, the pending record cleared, and the save begun. *)
Definition finish (n : nat) (t : jstring) (draft : VideoDraft) (video_ : option Z) (videoUrl : option jstring) (notice : jstring)
    (id : jstring) (now : Z) (w : video_world) : video_world :=
  match pages w !! n with
  | None => w
  | Some p =>
      let job := {| vj_id := id; task_id := t; vj_created_at := now; vj_request := draft; vj_elapsed_ms := now - started p;
                    video := video_; video_url := match video_ with Some _ => None | None => videoUrl end;
                    video_mime := js "video/mp4" |} in
      let w := set_page n (with_result (Some job) notice) w in
      let w := set_pending (catch (clearPendingVideoTask owner (pending_text w)) (pending_text w)) w in
      set_saves (saves w ++ [{| sv_page := n; sv_job := job |}]) w
  end.

Definition no_url : jstring := js "The task finished without a video URL.".
Definition not_saved_locally : jstring := js "This result could not be saved locally. Download it before leaving this page.".

(** The effect of a polled state. *)
Definition on_state (n : nat) (state : VideoTaskState) (id : jstring) (now : Z) (w : video_world) : video_world :=
  match pages w !! n with
  | Some p =>
      match activeDraft p, activeTaskId p with
      | Some draft, Some t =>
          if bool_decide (processedTaskId p = Some t) then w
          else match vt_status state with
               | SUCCESS =>
                   let w := set_page n (with_processed t) w in
                   match vt_url state with
                   | [] => finish n t draft None None no_url id now w
                   | u => set_downloads (downloads w ++ [{| dl_page := n; dl_task := t; dl_draft := draft; dl_url := u |}]) w
                   end
               | FAILURE =>
                   let w := set_page n (fun p => with_result None (vt_fail_reason state) (with_processed t p)) w in
                   set_pending (catch (clearPendingVideoTask owner (pending_text w)) (pending_text w)) w
               | _ => w
               end
      | _, _ => w
      end
  | None => w
  end.

(** The effect of an error of polling. *)
Definition on_poll_error (n : nat) (error : thrown) (w : video_world) : video_world :=
  match pages w !! n with
  | Some p =>
      match activeTaskId p with
      | Some t =>
          if bool_decide (processedTaskId p = Some t) then w
          else let w := set_page n (fun p => with_result None (videoError error) (with_processed t p)) w in
               set_pending (catch (clearPendingVideoTask owner (pending_text w)) (pending_text w)) w
      | None => w
      end
  | None => w
  end.

(** [busy]: the page waits for an answer or for a video; nothing is generated meanwhile
    (components/video-composer.tsx, whose form and button are disabled). *)
Definition busy (w : video_world) : bool :=
  match mounted w ≫= (pages w !!.) with
  | Some p => bool_decide (is_Some (activeTaskId p)) ||
              existsb (fun s => bool_decide (Some (sub_page s) = mounted w)) (submissions w)
  | None => false
  end.
Definition video_step (w : video_world) (e : video_event) : video_world :=
  match e with
  | MountPage now =>
      match mounted w with
      | Some _ => w
      | None =>
          set_mounted (Some (length (pages w)))
            {| pages := pages w ++ [restore now (pending_text w) fresh_page]; mounted := None; pending_text := pending_text w;
               video_store := video_store w; submissions := submissions w; downloads := downloads w; saves := saves w |}
      end
  | LeavePage => set_mounted None w
  | CloseTab =>
      {| pages := []; mounted := None; pending_text := pending_text w; video_store := video_store w; submissions := [];
         downloads := []; saves := [] |}
  | SubmitDraft draft now =>
      match mounted w with
      | Some n =>
          if busy w then w
          else set_submissions (submissions w ++ [{| sub_page := n; sub_draft := draft |}]) (set_page n (submit_page draft now) w)
      | None => w
      end
  | SubmissionEnds k result =>
      match submissions w !! k with
      | Some s =>
          let w := set_submissions (remove_nth k (submissions w)) w in
          match result with Resolved taskId => task_accepted (sub_page s) (sub_draft s) taskId w | Rejected _ => w end
      | None => w
      end
  | PollAnswers state id now => match mounted w with Some n => on_state n state id now w | None => w end
  | PollFails error => match mounted w with Some n => on_poll_error n error w | None => w end
  | DownloadEnds k result id now =>
      match downloads w !! k with
      | Some d =>
          let w := set_downloads (remove_nth k (downloads w)) w in
          match result with
          | Resolved size => finish (dl_page d) (dl_task d) (dl_draft d) (Some size) None [] id now w
          | Rejected _ => finish (dl_page d) (dl_task d) (dl_draft d) None (Some (dl_url d)) not_saved_locally id now w
          end
      | None => w
      end
  | SaveEnds k commit =>
      match saves w !! k with
      | Some s =>
          let w := set_saves (remove_nth k (saves w)) w in
          let '(store, result) := saveVideoJob meta_length owner commit (video_store w) (sv_job s) in
          match result with
          | Resolved _ => set_store store w
          | Rejected e => set_page (sv_page s) (with_warning (workflowError (OtherError e))) w
          end
      | None => w
      end
  | DeleteJob key commit =>
      match mounted w with
      | Some n =>
          let '(store, result) := deleteVideoJob owner commit (video_store w) key in
          match result with
          | Resolved _ =>
              set_page n (fun p =>
                if negb (truthy (coalesce key [])) || bool_decide (vj_id <$> selected p = key) then with_selected None p else p)
                (set_store store w)
          | Rejected _ => w
          end
      | None => w
      end
  | SelectJob key =>
      match mounted w with
      | Some n => set_page n (with_selected (store_get vj_id (video_store w) key)) w
      | None => w
      end
  end.

Definition video_run (w : video_world) (es : list video_event) : video_world := foldl video_step w es.

(** ** Tabs *)

(** What a tab has of its own. *)
Record video_tab := {
  tab_pages : list video_page;
  tab_mounted : option nat;
  tab_submissions : list submission;
  tab_downloads : list download;
  tab_saves : list saving
}.

(** A tab in which the studio is not open. *)
Definition closed_tab : video_tab :=
  {| tab_pages := []; tab_mounted := None; tab_submissions := []; tab_downloads := []; tab_saves := [] |}.

(** The tabs, with what they share: the record of the account, and its history. *)
Record browser := { tabs : list video_tab; shared_record : option jstring; shared_history : list VideoJob }.

Definition view (b : browser) (t : video_tab) : video_world :=
  {| pages := tab_pages t; mounted := tab_mounted t; pending_text := shared_record b; video_store := shared_history b;
     submissions := tab_submissions t; downloads := tab_downloads t; saves := tab_saves t |}.

Definition tab_of (w : video_world) : video_tab :=
  {| tab_pages := pages w; tab_mounted := mounted w; tab_submissions := submissions w; tab_downloads := downloads w;
     tab_saves := saves w |}.

(** Something happens in a tab. *)
Definition browser_step (b : browser) (e : nat * video_event) : browser :=
  match tabs b !! e.1 with
  | Some t =>
      let w := video_step (view b t) e.2 in
      {| tabs := <[e.1 := tab_of w]> (tabs b); shared_record := pending_text w; shared_history := video_store w |}
  | None => b
  end.

Definition browser_run (b : browser) (es : list (nat * video_event)) : browser := foldl browser_step b es.

(** The studio is open in one tab at a time: whenever something happens in a tab, it is closed in all the others. *)
Definition alone (b : browser) (k : nat) : Prop := forall j t, tabs b !! j = Some t -> j <> k -> t = closed_tab.
Fixpoint one_tab_at_a_time (b : browser) (es : list (nat * video_event)) : Prop :=
  match es with
  | [] => True
  | e :: es => (e.1 < length (tabs b))%nat /\ alone b e.1 /\ one_tab_at_a_time (browser_step b e) es
  end.

(** A tab acting alone behaves as if it had the storage to itself. *)
Definition seen_as (b : browser) (w : video_world) : Prop :=
  exists k t, tabs b !! k = Some t /\ view b t = w /\ alone b k.

Lemma seen_step b w e : seen_as b w -> (e.1 < length (tabs b))%nat -> alone b e.1 -> seen_as (browser_step b e) (video_step w e.2).
Proof.
  intros (k & t & Ht & <- & Hk) Hlt He. destruct e as [j e]; cbn [fst snd] in *.
  destruct (lookup_lt_is_Some_2 _ _ Hlt) as [u Hu].
  assert (view b t = view b u) as ->.
  { destruct (decide (j = k)) as [->|Hn]; [by rewrite Ht in Hu; injection Hu as ->|].
    by rewrite (He k t Ht (not_eq_sym Hn)), (Hk j u Hu Hn). }
  unfold browser_step. cbn [fst snd]. rewrite Hu. exists j, (tab_of (video_step (view b u) e)).
  split; [by apply list_lookup_insert_eq|]. split; [by destruct (video_step _ _)|].
  intros i s Hi Hn. cbn in Hi. rewrite list_lookup_insert_ne in Hi by done. by apply (He i s).
Qed.

Lemma seen_run es : forall b w, seen_as b w -> one_tab_at_a_time b es ->
  seen_as (browser_run b es) (video_run w (map snd es)).
Proof.
  induction es as [|e es IH]; intros b w Hw; [done|]. intros (Hlt & He & Hes).
  apply (IH (browser_step b e)); [by apply seen_step|done].
Qed.

Lemma browser_tabs b es : length (tabs (browser_run b es)) = length (tabs b).
Proof.
  revert b. induction es as [|e es IH]; intros b; [done|]. cbn. rewrite IH.
  unfold browser_step. destruct (tabs b !! e.1); [apply length_insert|done].
Qed.

End Pages.

(** ** The record of a task is read back *)

(** A record the page writes: a task with a name, a draft of one of the two modes, times in milliseconds. *)
Record good_record (r : PendingVideoTask) : Prop := {
  named_task : pv_task r <> [];
  known_mode : v_mode (pv_draft r) = js "text" \/ v_mode (pv_draft r) = js "image";
  good_duration : readable (v_duration (pv_draft r));
  good_start : exists s, pv_started r = num_of_Z s /\ 0 <= s < 2 ^ 53
}.

Definition recalled (r : PendingVideoTask) : PendingVideoTask :=
  {| pv_task := pv_task r; pv_draft := without_image (pv_draft r); pv_started := pv_started r |}.

Lemma pending_value_plain r : good_record r -> plain_json (pending_value r).
Proof.
  intros [_ _ Hd (s & Hs & Hr)]. unfold pending_value, draft_value. rewrite Hs.
  apply plain_obj; [by vm_compute; repeat (constructor; [set_solver|]); constructor|].
  apply Forall_cons_2; [constructor|]. apply Forall_cons_2; [|apply Forall_cons_2; [|constructor]].
  - apply plain_obj; [by vm_compute; repeat (constructor; [set_solver|]); constructor|].
    repeat apply Forall_cons_2; try apply Forall_nil_2; cbn [snd]; constructor. exact Hd.
  - constructor. by apply readable_whole.
Qed.

Lemma read_pending_value now r : good_record r -> read_pending now (pending_value r) = Some (recalled r).
Proof.
  intros [Ht Hm _ _]. destruct r as [[|c t] [mo md p d res im] st]; [done|]. cbn in *.
  unfold read_pending, recalled. cbn. by destruct Hm as [-> | ->].
Qed.

Lemma signed_in_requires owner : signed_in owner = true -> requireOwner owner = Ret tt.
Proof. unfold requireOwner. by intros ->. Qed.

Lemma load_pending_written owner now r : signed_in owner = true -> good_record r ->
  loadPendingVideoTask owner now (Some (JSON_stringify (pending_value r))) = Ret (Some (recalled r)).
Proof.
  intros Ho Hr. unfold loadPendingVideoTask. rewrite signed_in_requires by done. cbn [ebind].
  rewrite parse_stringify by by apply pending_value_plain.
  cbn [ebind catch]. rewrite read_pending_value by done.
  destruct (JSON_stringify (pending_value r)) eqn:E; [|done].
  pose proof (parse_stringify _ (pending_value_plain _ Hr)) as P. rewrite E in P. by vm_compute in P.
Qed.

(** ** One task at a time *)

(** The jobs of a task: those in the history, and those being saved. *)
Definition jobs_of (t : jstring) (l : list VideoJob) : nat := length (List.filter (fun j => jeqb (task_id j) t) l).
Definition results (t : jstring) (w : video_world) : nat := jobs_of t (video_store w ++ map sv_job (saves w)).

(** What the visitor does on a page that stays: only closing the tab ends it. *)
Definition stays (e : video_event) : Prop := e <> LeavePage.

(** Drafts the form lets through, times of the clock, and tasks with a name. *)
Definition sound_event (e : video_event) : Prop :=
  match e with
  | SubmitDraft draft now =>
      (v_mode draft = js "text" \/ v_mode draft = js "image") /\ readable (v_duration draft) /\ 0 <= now < 2 ^ 53
  | SubmissionEnds _ (Resolved t) => t <> []
  | _ => True
  end.

(** How often the server accepted the task. *)
Definition names (t : jstring) (o : option jstring) : nat := if bool_decide (o = Some t) then 1 else 0.
Definition accepts_task (t : jstring) (e : video_event) : nat :=
  match e with SubmissionEnds _ (Resolved t') => names t (Some t') | _ => 0%nat end.
Definition accepted (t : jstring) (es : list video_event) : nat := sum_list_with (accepts_task t) es.

Definition record_of (p : video_page) (t : jstring) (d : VideoDraft) : PendingVideoTask :=
  {| pv_task := t; pv_draft := d; pv_started := num_of_Z (started p) |}.

Lemma names_none t : names t None = 0%nat.
Proof. unfold names. by rewrite bool_decide_eq_false_2 by done. Qed.

Lemma jobs_of_app t l r : jobs_of t (l ++ r) = (jobs_of t l + jobs_of t r)%nat.
Proof. unfold jobs_of. by rewrite List.filter_app, length_app. Qed.

Lemma jobs_of_snoc t l j : jobs_of t (l ++ [j]) = (jobs_of t l + names t (Some (task_id j)))%nat.
Proof.
  rewrite jobs_of_app. f_equal. unfold jobs_of, names. cbn. destruct (jeqb (task_id j) t) eqn:E.
  - apply jeqb_eq in E. by rewrite bool_decide_eq_true_2 by congruence.
  - rewrite bool_decide_eq_false_2; [done|]. intros [= H]. apply jeqb_eq in H. congruence.
Qed.

Lemma jobs_of_cons t j l : jobs_of t (j :: l) = (jobs_of t l + names t (Some (task_id j)))%nat.
Proof. change (j :: l) with ([j] ++ l). rewrite jobs_of_app, Nat.add_comm. f_equal. apply (jobs_of_snoc t []). Qed.

Lemma jobs_of_sub t l r : l `sublist_of` r -> (jobs_of t l <= jobs_of t r)%nat.
Proof.
  induction 1 as [|x l r _ IH|x l r _ IH]; [done| |]; unfold jobs_of in *; cbn; destruct (jeqb (task_id x) t); cbn; lia.
Qed.

Lemma remove_nth_jobs t k (l : list saving) s : l !! k = Some s ->
  jobs_of t (map sv_job l) = (jobs_of t (map sv_job (remove_nth k l)) + names t (Some (task_id (sv_job s))))%nat.
Proof.
  intros H. unfold remove_nth. rewrite <- (take_drop_middle l k s H) at 1.
  rewrite !map_app, !jobs_of_app. cbn [map]. rewrite jobs_of_cons. lia.
Qed.

Lemma store_delete_sub (l : list VideoJob) key : store_delete vj_id l key `sublist_of` l.
Proof. unfold store_delete. induction l as [|x l IH]; cbn; [constructor|]. by destruct (negb _); constructor. Qed.

Lemma delete_jobs_sub (l : list VideoJob) key : delete_jobs vj_id l key `sublist_of` l.
Proof. unfold delete_jobs. destruct key as [[|]|]; try apply sublist_nil_l. apply store_delete_sub. Qed.

Lemma evict_sub size m b (entries : list VideoJob) : forall i n store, evict vj_id size m b i n entries store `sublist_of` store.
Proof.
  induction entries as [|x entries IH]; intros i n store; cbn; [done|]. etrans; [apply IH|].
  case_match; [apply store_delete_sub|done].
Qed.

Lemma store_put_jobs t (l : list VideoJob) j : (jobs_of t (store_put vj_id l j) <= jobs_of t l + names t (Some (task_id j)))%nat.
Proof.
  induction l as [|x l IH]; cbn [store_put]; [apply Nat.eq_le_incl, (jobs_of_snoc t [] j)|].
  repeat case_match; rewrite !jobs_of_cons; lia.
Qed.

Lemma saved_jobs t size owner commit store j :
  (jobs_of t (saveVideoJob size owner commit store j).1 <= jobs_of t store + names t (Some (task_id j)))%nat.
Proof.
  unfold saveVideoJob. repeat (case_match; cbn [fst]; try lia).
  etrans; [apply jobs_of_sub, evict_sub|apply store_put_jobs].
Qed.

Section Staying.
Context (owner : Z) (accepts : jstring -> bool) (meta_length : VideoJob -> Z) (Howner : signed_in owner = true).

#[local] Abbreviation step := (video_step owner accepts meta_length).
#[local] Abbreviation run := (video_run owner accepts meta_length).

(** The record of a task under way; without it only where the storage refuses it. *)
Definition recorded (r : PendingVideoTask) (w : video_world) : Prop :=
  good_record r /\
  (pending_text w = Some (JSON_stringify (pending_value r)) \/ pending_text w = None /\ exists text, accepts text = false).

(** What the page is doing, with the task the server works on. *)
Inductive tidy (w : video_world) : option jstring -> Prop :=
| tidy_closed : pages w = [] -> mounted w = None -> submissions w = [] -> downloads w = [] ->
    pending_text w = None -> tidy w None
| tidy_remembered r : pages w = [] -> mounted w = None -> submissions w = [] -> downloads w = [] -> good_record r ->
    pending_text w = Some (JSON_stringify (pending_value r)) -> tidy w (Some (pv_task r))
| tidy_idle p : pages w = [p] -> mounted w = Some 0%nat -> submissions w = [] -> downloads w = [] -> activeTaskId p = None ->
    pending_text w = None -> tidy w None
| tidy_submitting p d : pages w = [p] -> mounted w = Some 0%nat -> submissions w = [{| sub_page := 0; sub_draft := d |}] ->
    downloads w = [] -> activeTaskId p = None -> activeDraft p = Some d -> processedTaskId p = None ->
    (forall t, t <> [] -> good_record (record_of p t d)) -> pending_text w = None -> tidy w None
| tidy_polling p t d : pages w = [p] -> mounted w = Some 0%nat -> submissions w = [] -> downloads w = [] ->
    activeTaskId p = Some t -> activeDraft p = Some d -> processedTaskId p = None -> recorded (record_of p t d) w ->
    tidy w (Some t)
| tidy_downloading p t d u : pages w = [p] -> mounted w = Some 0%nat -> submissions w = [] ->
    downloads w = [{| dl_page := 0; dl_task := t; dl_draft := d; dl_url := u |}] ->
    activeTaskId p = Some t -> activeDraft p = Some d -> processedTaskId p = Some t -> recorded (record_of p t d) w ->
    tidy w (Some t).

(** A step keeps the page in one of these, and makes no more jobs of a task than it was accepted. *)
Definition keeps (w : video_world) (o : option jstring) (e : video_event) (w' : video_world) : Prop :=
  exists o', tidy w' o' /\
    forall t, (results t w' + names t o' <= results t w + names t o + accepts_task t e)%nat.

Lemma no_job w w' o o' e : tidy w' o' -> video_store w' = video_store w -> saves w' = saves w ->
  (forall t, names t o' <= names t o + accepts_task t e)%nat -> keeps w o e w'.
Proof. intros Ht Hs Hv Hn. exists o'. split; [done|]. intros t. unfold results. rewrite Hs, Hv. specialize (Hn t). lia. Qed.

Lemma still w o e : tidy w o -> keeps w o e w.
Proof. intros H. eapply no_job; [exact H|done..|lia]. Qed.

Ltac opened w := destruct w as [pg mt pt st sb dl sv];
  cbn [pages mounted pending_text video_store submissions downloads saves] in *; subst.


Lemma mounting w o now : tidy w o -> keeps w o (MountPage now) (step w (MountPage now)).
Proof.
  destruct 1 as [|r|p|p d|p t d|p t d u]; opened w; try (by apply (still _ _ (MountPage now)); econstructor; eauto).
  - eapply (no_job _ _ _ None); [|done|done|lia]. unfold video_step. cbn. unfold restore, loadPendingVideoTask.
    rewrite signed_in_requires by done. cbn. by eapply (tidy_idle _ fresh_page).
  - destruct r as [t d s]. match goal with H : good_record _ |- _ => pose proof H as Hg; destruct H as [Ht Hm Hd (z & Hz & Hr)] end.
    cbn in Hz, Ht, Hm, Hd. subst s.
    eapply (no_job _ _ _ (Some t)); [|done|done|cbn; lia]. unfold video_step. cbn [mounted pages pending_text set_mounted app length].
    unfold restore. rewrite load_pending_written by done. cbn [catch].
    eapply (tidy_polling _ _ t (without_image d)); cbn; try done.
    unfold recorded, record_of, whole_number, num_of_Z, inject_Z. cbn. rewrite Z.div_1_r.
    split; [split; cbn; eauto|]. by left.
Qed.

Lemma closing w o : tidy w o -> keeps w o CloseTab (step w CloseTab).
Proof.
  assert (Hs : forall t l r, (jobs_of t l <= jobs_of t (l ++ r))%nat) by (intros; rewrite jobs_of_app; lia).
  assert (Hless : forall w o o', tidy (step w CloseTab) o' -> (forall t, names t o' <= names t o)%nat ->
    keeps w o CloseTab (step w CloseTab)).
  { intros w0 o0 o' Ht Hn. exists o'. split; [done|]. intros t. unfold results.
    cbn [video_step video_store saves map accepts_task]. rewrite app_nil_r.
    specialize (Hs t (video_store w0) (map sv_job (saves w0))). specialize (Hn t). lia. }
  assert (Hn : forall o t, (names t None <= names t o)%nat) by (intros; rewrite names_none; lia).
  destruct 1 as [|r|p|p d|p t d|p t d u]; opened w.
  1, 3, 4: by eapply Hless; [by apply tidy_closed|apply Hn].
  1: by eapply Hless; [by eapply (tidy_remembered _ r)|done].
  all: match goal with H : recorded _ _ |- _ => destruct H as [Hg [Hp | [Hp _]]]; cbn in Hp; subst end;
    [eapply Hless; [by eapply (tidy_remembered _ (record_of p t d))|done]|
     eapply Hless; [by apply tidy_closed|apply Hn]].
Qed.

Lemma submitting_draft w o draft now : tidy w o -> sound_event (SubmitDraft draft now) ->
  keeps w o (SubmitDraft draft now) (step w (SubmitDraft draft now)).
Proof.
  intros H (Hm & Hd & Hr). destruct H as [|r|p|p d|p t d|p t d u]; opened w;
    try (by apply (still _ _ (SubmitDraft draft now)); econstructor; eauto).
  - eapply (no_job _ _ _ None); [|by unfold video_step, busy; cbn; case_match..|lia]. unfold video_step, busy. cbn.
    match goal with H : activeTaskId p = None |- _ => rewrite H end. cbn.
    eapply (tidy_submitting _ (submit_page draft now p) draft); cbn; try done.
    intros t Ht. split; cbn; eauto.
  - unfold video_step, busy. cbn. rewrite orb_true_r.
    apply (still _ _ (SubmitDraft draft now)). by eapply (tidy_submitting _ p d).
  - unfold video_step, busy. cbn. match goal with H : activeTaskId p = Some t |- _ => rewrite H end. cbn.
    apply (still _ _ (SubmitDraft draft now)). by eapply (tidy_polling _ p t d).
  - unfold video_step, busy. cbn. match goal with H : activeTaskId p = Some t |- _ => rewrite H end. cbn.
    apply (still _ _ (SubmitDraft draft now)). by eapply (tidy_downloading _ p t d u).
Qed.

Lemma cleared raw : catch (clearPendingVideoTask owner raw) raw = None.
Proof. unfold clearPendingVideoTask. by rewrite signed_in_requires. Qed.

Lemma submission_ending w o k result : tidy w o -> sound_event (SubmissionEnds k result) ->
  keeps w o (SubmissionEnds k result) (step w (SubmissionEnds k result)).
Proof.
  intros H Hs. destruct H as [|r|p|p d|p t d|p t d u]; opened w;
    try (by apply (still _ _ (SubmissionEnds k result)); econstructor; eauto).
  destruct k as [|k]; [|by apply (still _ _ (SubmissionEnds (S k) result)); eapply (tidy_submitting _ p d)].
  destruct result as [t|e]; cbn in Hs.
  - eapply (no_job _ _ _ (Some t)); [|done|done|cbn; lia].
    unfold video_step, task_accepted. cbn. unfold savePendingVideoTask. rewrite signed_in_requires by done. cbn [ebind catch].
    eapply (tidy_polling _ (with_task (Some t) p) t d); try done.
    split; [match goal with H : forall t, _ -> good_record _ |- _ => exact (H t Hs) end|]. cbn [pending_text set_page set_pending].
    unfold record_of. cbn [started with_task]. destruct (accepts _) eqn:E; [by left|]. right. eauto.
  - eapply (no_job _ _ _ None); [|done|done|lia]. by eapply (tidy_idle _ p).
Qed.

Lemma finishing w e t p d sized place notice i now : pages w = [p] -> mounted w = Some 0%nat -> submissions w = [] ->
  downloads w = [] -> keeps w (Some t) e (finish owner 0 t d sized place notice i now w).
Proof.
  intros Hp Hm Hs Hd. unfold finish. rewrite Hp. cbn [lookup list_lookup]. rewrite cleared. opened w.
  exists None. split; [by eapply tidy_idle|]. intros t'. rewrite names_none. unfold results.
  cbn [set_saves set_pending set_page video_store saves]. rewrite map_app. cbn [map]. rewrite app_assoc, jobs_of_snoc.
  cbn [sv_job task_id]. lia.
Qed.

Lemma keeps_from w w0 o e w' : video_store w0 = video_store w -> saves w0 = saves w -> keeps w0 o e w' -> keeps w o e w'.
Proof. intros Hs Hv (o' & Ht & H). exists o'. split; [done|]. unfold results in *. by rewrite <- Hs, <- Hv. Qed.

Lemma answering w o state i now : tidy w o -> keeps w o (PollAnswers state i now) (step w (PollAnswers state i now)).
Proof.
  destruct 1 as [|r|p|p d|p t d|p t d u]; opened w; try (by apply (still _ _ (PollAnswers state i now)); econstructor; eauto);
    unfold video_step, on_state; cbn [mounted pages lookup list_lookup].
  - match goal with H : activeTaskId p = None |- _ => rewrite H end.
    destruct (activeDraft p); apply still; by eapply (tidy_idle _ p).
  - match goal with H : activeTaskId p = None |- _ => rewrite H end.
    match goal with H : activeDraft p = Some d |- _ => rewrite H end. apply still. by eapply (tidy_submitting _ p d).
  - repeat match goal with H : _ p = _ |- _ => rewrite H end. rewrite bool_decide_eq_false_2 by done.
    destruct (vt_status state); try (apply still; by eapply (tidy_polling _ p t d)).
    + destruct (vt_url state) as [|c u].
      * eapply keeps_from, (finishing _ _ _ (with_processed t p)); done.
      * eapply (no_job _ _ _ (Some t)); [|done|done|lia]. by eapply (tidy_downloading _ (with_processed t p) t d).
    + rewrite cleared. eapply (no_job _ _ _ None); [|done|done|intros; rewrite names_none; lia]. by eapply tidy_idle.
  - repeat match goal with H : _ p = _ |- _ => rewrite H end. rewrite bool_decide_eq_true_2 by done.
    apply still. by eapply (tidy_downloading _ p t d u).
Qed.

Lemma polling_failing w o error : tidy w o -> keeps w o (PollFails error) (step w (PollFails error)).
Proof.
  destruct 1 as [|r|p|p d|p t d|p t d u]; opened w; try (by apply (still _ _ (PollFails error)); econstructor; eauto);
    unfold video_step, on_poll_error; cbn [mounted pages lookup list_lookup].
  - match goal with H : activeTaskId p = None |- _ => rewrite H end. apply still. by eapply (tidy_idle _ p).
  - match goal with H : activeTaskId p = None |- _ => rewrite H end. apply still. by eapply (tidy_submitting _ p d).
  - repeat match goal with H : _ p = _ |- _ => rewrite H end. rewrite bool_decide_eq_false_2 by done. rewrite cleared.
    eapply (no_job _ _ _ None); [|done|done|intros; rewrite names_none; lia]. by eapply tidy_idle.
  - repeat match goal with H : _ p = _ |- _ => rewrite H end. rewrite bool_decide_eq_true_2 by done.
    apply still. by eapply (tidy_downloading _ p t d u).
Qed.

Lemma download_ending w o k result i now : tidy w o ->
  keeps w o (DownloadEnds k result i now) (step w (DownloadEnds k result i now)).
Proof.
  destruct 1 as [|r|p|p d|p t d|p t d u]; opened w; try (by apply (still _ _ (DownloadEnds k result i now)); econstructor; eauto).
  destruct k as [|k]; [|by apply (still _ _ (DownloadEnds (S k) result i now)); eapply (tidy_downloading _ p t d u)].
  unfold video_step. cbn [downloads lookup list_lookup dl_page dl_task dl_draft dl_url].
  destruct result; eapply keeps_from, (finishing _ _ _ p); done.
Qed.

(** What a page shows matters to no task. *)
Definition same_task (p q : video_page) : Prop :=
  activeTaskId q = activeTaskId p /\ activeDraft q = activeDraft p /\ processedTaskId q = processedTaskId p /\ started q = started p.

Lemma tidy_shown n f w o : (forall p, same_task p (f p)) -> tidy w o -> tidy (set_page n f w) o.
Proof.
  intros Hf H. destruct H as [|r|p|p d|p t d|p t d u]; opened w; [by apply tidy_closed|by apply (tidy_remembered _ r)|..];
    destruct n as [|n]; try (by econstructor; cbn; eauto); destruct (Hf p) as (Ha & Hd & Hr & Hs).
  - eapply (tidy_idle _ (f p)); cbn; congruence.
  - eapply (tidy_submitting _ (f p) d); cbn; try congruence. intros t Ht.
    unfold record_of. rewrite Hs. match goal with H : forall t, _ -> good_record _ |- _ => exact (H t Ht) end.
  - eapply (tidy_polling _ (f p) t d); cbn; try congruence. unfold recorded, record_of in *. by rewrite Hs.
  - eapply (tidy_downloading _ (f p) t d u); cbn; try congruence. unfold recorded, record_of in *. by rewrite Hs.
Qed.

Lemma tidy_kept l k w o : tidy w o -> tidy (set_store l (set_saves k w)) o.
Proof.
  destruct 1 as [|r|p|p d|p t d|p t d u]; opened w;
    [by apply tidy_closed|by apply (tidy_remembered _ r)|by apply (tidy_idle _ p)|by apply (tidy_submitting _ p d)|
     by apply (tidy_polling _ p t d)|by apply (tidy_downloading _ p t d u)].
Qed.

Lemma save_ending w o k commit : tidy w o -> keeps w o (SaveEnds k commit) (step w (SaveEnds k commit)).
Proof.
  intros H. unfold video_step. destruct (saves w !! k) as [sv|] eqn:E; [|by apply still].
  pose proof (fun t => saved_jobs t meta_length owner commit (video_store w) (sv_job sv)) as Hj.
  pose proof (fun t => remove_nth_jobs t _ _ _ E) as Hr. cbn [video_store set_saves].
  destruct (saveVideoJob _ _ _ _ _) as [store result] eqn:Es. cbn [fst] in Hj. exists o. split.
  - destruct result; [by apply tidy_kept|]. apply tidy_shown; [done|]. by apply (tidy_kept (video_store w)).
  - intros t. specialize (Hj t). specialize (Hr t). unfold results. rewrite !jobs_of_app, Hr.
    destruct result; cbn [video_store saves set_store set_saves set_page]; [lia|].
    lia.
Qed.

Lemma deleting_video w o key commit : tidy w o -> keeps w o (DeleteJob key commit) (step w (DeleteJob key commit)).
Proof.
  intros H. unfold video_step. destruct (mounted w) as [n|]; [|by apply still].
  destruct (deleteVideoJob _ _ _ _) as [store result] eqn:Es. destruct result as [[]|]; [|by apply still].
  assert (Hs : store `sublist_of` video_store w).
  { unfold deleteVideoJob in Es. rewrite Howner in Es. cbn in Es. destruct commit; [done|]. injection Es as <-. apply delete_jobs_sub. }
  exists o. split; [apply tidy_shown; [intros; by case_match|by apply (tidy_kept store (saves w))]|].
  intros t. unfold results. cbn [video_store saves set_store set_page]. rewrite !jobs_of_app.
  pose proof (jobs_of_sub t _ _ Hs). lia.
Qed.

Lemma tidy_step w o e : tidy w o -> stays e -> sound_event e -> keeps w o e (step w e).
Proof.
  intros Ht Hs Hv. destruct e as [now| | |d now|k r|s i now|er|k r i now|k c|key c|key].
  - by apply mounting.
  - by destruct Hs.
  - by apply closing.
  - by apply submitting_draft.
  - by apply submission_ending.
  - by apply answering.
  - by apply polling_failing.
  - by apply download_ending.
  - by apply save_ending.
  - by apply deleting_video.
  - unfold video_step. destruct (mounted w) as [n|]; [|by apply still].
    eapply (no_job _ _ _ o); [by apply tidy_shown|done|done|lia].
Qed.

Lemma tidy_run es w o : tidy w o -> Forall stays es -> Forall sound_event es ->
  exists o', tidy (run w es) o' /\ forall t, (results t (run w es) + names t o' <= results t w + names t o + accepted t es)%nat.
Proof.
  revert w o. induction es as [|e es IH]; intros w o Ht Hs Hv; [exists o; split; [done|]; cbn; lia|].
  destruct (tidy_step w o e Ht (Forall_inv Hs) (Forall_inv Hv)) as (o1 & H1 & Hc).
  destruct (IH _ _ H1 (Forall_inv_tail Hs) (Forall_inv_tail Hv)) as (o2 & H2 & Hc2).
  exists o2. split; [done|]. intros t. specialize (Hc t). specialize (Hc2 t).
  change (accepted t (e :: es)) with (accepts_task t e + accepted t es)%nat.
  change (run w (e :: es)) with (run (step w e) es). lia.
Qed.

End Staying.

(** The media studio when it is opened. *)
Definition new_videos (store : list VideoJob) : video_world :=
  {| pages := []; mounted := None; pending_text := None; video_store := store; submissions := []; downloads := []; saves := [] |}.

(** ** What the pages promise *)

(** The record of a task that was paid for is found again: what [savePendingVideoTask] writes,
    [loadPendingVideoTask] reads back for the same account, the first frame left out; where the storage refuses the
    text, the record of before stays. *)
Theorem pending_video_comes_back (owner now : Z) (accepts : jstring -> bool) (r : PendingVideoTask) (raw : option jstring) :
  signed_in owner = true -> good_record r ->
  exists text, savePendingVideoTask accepts owner r raw = Ret (if accepts text then Some text else raw) /\
    loadPendingVideoTask owner now (Some text) = Ret (Some (recalled r)).
Proof.
  intros Ho Hr. exists (JSON_stringify (pending_value r)). split; [|by apply load_pending_written].
  unfold savePendingVideoTask. by rewrite signed_in_requires.
Qed.

(** Opening the browser: none of its tabs shows the studio. *)
Definition new_browser (n : nat) (store : list VideoJob) : browser :=
  {| tabs := replicate n closed_tab; shared_record := None; shared_history := store |}.

Lemma new_browser_seen n store : (0 < n)%nat -> seen_as (new_browser n store) (new_videos store).
Proof.
  intros Hn. exists 0%nat, closed_tab. split; [by apply lookup_replicate|]. split; [done|].
  by intros j t [-> _]%lookup_replicate _.
Qed.

(** A page that waits for a task has recorded it. *)
Lemma waiting_recorded accepts w o n p t : tidy accepts w o ->
  mounted w = Some n -> pages w !! n = Some p -> activeTaskId p = Some t ->
  exists d, activeDraft p = Some d /\ recorded accepts (record_of p t d) w.
Proof.
  intros Hw Hm Hp Ht.
  destruct Hw as [? Hm'|r ? Hm'|p' Hpg|p' d Hpg|p' t' d Hpg|p' t' d u Hpg]; try congruence;
    assert (p' = p) as -> by (rewrite Hpg in Hp; replace n with 0%nat in Hp by congruence; cbn in Hp; congruence);
    try congruence; exists d; replace t with t' by congruence; done.
Qed.

(** Opening a page where a record is waits for its task. *)
Lemma record_resumes owner accepts meta_length now w r :
  signed_in owner = true -> good_record r -> pages w = [] -> mounted w = None ->
  pending_text w = Some (JSON_stringify (pending_value r)) ->
  let w' := video_step owner accepts meta_length w (MountPage now) in
  exists q, pages w' = [q] /\ mounted w' = Some 0%nat /\ activeTaskId q = Some (pv_task r) /\
    activeDraft q = Some (without_image (pv_draft r)) /\ started q = whole_number (pv_started r) /\ busy w' = true.
Proof.
  intros Ho Hg Hp Hm Hr. unfold video_step. rewrite Hm, Hp. unfold restore. rewrite Hr, load_pending_written by done.
  by eexists.
Qed.

(** C8. Closing the tab loses no task: the studio is open in one tab of the browser at a time, and whatever the
    visitor, the server and the browser did there - tabs closed and opened again, their pages never only left for
    another page of the app -, while a page waits for a task, closing its tab and opening the page in any tab, this
    one or another, waits for the same task, with its draft less the first frame, and its clock runs on.  The storage
    takes what it is given.  Two tabs at once are excluded by [one_tab_at_a_time]: they share the one record of the
    account, and the second overwrites it (two_tabs_forget_task). *)
Theorem closing_resumes (owner now : Z) (accepts : jstring -> bool) (meta_length : VideoJob -> Z) (store : list VideoJob)
    (tabs_open : nat) (es : list (nat * video_event)) (k j n : nat) (tab : video_tab) (p : video_page) (t : jstring) :
  signed_in owner = true -> (forall text, accepts text = true) ->
  one_tab_at_a_time owner accepts meta_length (new_browser tabs_open store) es ->
  Forall stays (map snd es) -> Forall sound_event (map snd es) ->
  let run := browser_run owner accepts meta_length in
  let b := run (new_browser tabs_open store) es in
  tabs b !! k = Some tab -> tab_mounted tab = Some n -> tab_pages tab !! n = Some p -> activeTaskId p = Some t ->
  (j < tabs_open)%nat ->
  let b' := run b [(k, CloseTab); (j, MountPage now)] in
  exists tab' q, tabs b' !! j = Some tab' /\ tab_pages tab' = [q] /\ tab_mounted tab' = Some 0%nat /\
    activeTaskId q = Some t /\ activeDraft q = without_image <$> activeDraft p /\ started q = started p /\
    busy (view b' tab') = true.
Proof.
  intros Ho Ha Hone Hs Hv run b Hk Hm Hp Ht Hj b'.
  assert (Hb : seen_as b (video_run owner accepts meta_length (new_videos store) (map snd es))).
  { apply seen_run; [|done]. apply new_browser_seen. lia. }
  destruct (tidy_run owner accepts meta_length Ho (map snd es) (new_videos store) None)
    as (o & Hw & _); [by apply tidy_closed|done..|].
  set (w := video_run _ _ _ _ _) in *. destruct Hb as (i & s & Hi & Hview & Hi').
  assert (i = k) as -> by (destruct (decide (i = k)); [done|]; rewrite (Hi' k tab Hk) in Hm by done; done).
  assert (s = tab) as -> by congruence. clear Hi. rewrite <- Hview in Hw.
  destruct (waiting_recorded _ _ _ n p t Hw Hm Hp Ht) as (d & Hd & Hg & [Hr | [_ (x & Hx)]]); [|by rewrite Ha in Hx].
  assert (Hj' : tabs (browser_step owner accepts meta_length b (k, CloseTab)) !! j = Some closed_tab).
  { unfold browser_step. cbn [fst snd]. rewrite Hk. cbn [tabs]. destruct (decide (k = j)) as [->|Hn].
    - apply list_lookup_insert_eq. by apply lookup_lt_Some in Hk.
    - rewrite list_lookup_insert_ne by done. assert (j < length (tabs b))%nat as Hlt.
      { unfold b, run. by rewrite browser_tabs; cbn; rewrite length_replicate. }
      apply lookup_lt_is_Some in Hlt as [u Hu]. by rewrite Hu, (Hi' j u Hu (not_eq_sym Hn)). }
  set (b1 := browser_step _ _ _ b _) in *.
  assert (shared_record b1 = Some (JSON_stringify (pending_value (record_of p t d)))) as Hr1.
  { unfold b1, browser_step. cbn [fst snd]. rewrite Hk. exact Hr. }
  destruct (record_resumes owner accepts meta_length now (view b1 closed_tab) (record_of p t d))
    as (q & H1 & H2 & H3 & H4 & H5 & H6); [done..|].
  assert (b' = browser_step owner accepts meta_length b1 (j, MountPage now)) as -> by done.
  unfold browser_step. cbn [fst snd]. rewrite Hj'. cbn [tabs]. eexists _, q.
  split; [apply list_lookup_insert_eq; by apply lookup_lt_Some in Hj'|].
  split; [exact H1|]. split; [exact H2|]. split; [exact H3|]. rewrite Hd. split; [exact H4|].
  split; [rewrite H5; cbn; apply Z.div_1_r|]. exact H6.
Qed.

(** The results of a task in the browser: in the history, and being saved by any of the tabs. *)
Definition browser_results (t : jstring) (b : browser) : nat :=
  jobs_of t (shared_history b ++ map sv_job (tabs b ≫= tab_saves)).

Lemma seen_results t b w : seen_as b w -> browser_results t b = results t w.
Proof.
  intros (k & u & Hk & <- & Ha). unfold browser_results, results, view. cbn [video_store saves]. do 3 f_equal.
  unfold alone in Ha. revert k Hk Ha. generalize (tabs b). intros l. induction l as [|x l IH]; intros k Hk Ha; [done|].
  assert (forall v, v ∈ l -> k = 0%nat -> v = closed_tab) as H0.
  { intros v (i & Hi)%list_elem_of_lookup ->. by apply (Ha (S i) v). }
  destruct k as [|k]; cbn in Hk.
  - injection Hk as ->. cbn [mbind list_bind]. assert (l ≫= tab_saves = []) as ->; [|apply app_nil_r].
    clear - H0. induction l as [|v l IH]; [done|]. cbn. rewrite (H0 v) by (by left || done). cbn.
    apply IH. intros v' Hv' _. by apply H0; [right|].
  - cbn [mbind list_bind]. rewrite (Ha 0%nat x) by done. cbn [tab_saves closed_tab app]. apply (IH k Hk).
    intros i v Hi Hn. apply (Ha (S i) v Hi). lia.
Qed.

(** C9. No task is kept twice: while the studio is open in one tab at a time, and its pages are closed and never
    only left for another page of the app, the history and the saves under way hold no more videos of a task than the
    server accepted submissions of it.  Both conditions are needed: two tabs polling one task both keep its video
    (two_tabs_keep_video_twice), and so does a page that is left (left_page_keeps_video_twice). *)
Theorem one_video_per_task (owner : Z) (accepts : jstring -> bool) (meta_length : VideoJob -> Z) (store : list VideoJob)
    (tabs_open : nat) (es : list (nat * video_event)) (t : jstring) :
  signed_in owner = true -> (0 < tabs_open)%nat ->
  one_tab_at_a_time owner accepts meta_length (new_browser tabs_open store) es ->
  Forall stays (map snd es) -> Forall sound_event (map snd es) ->
  (browser_results t (browser_run owner accepts meta_length (new_browser tabs_open store) es)
   <= jobs_of t store + accepted t (map snd es))%nat.
Proof.
  intros Ho Hn Hone Hs Hv.
  destruct (tidy_run owner accepts meta_length Ho (map snd es) (new_videos store) None)
    as (o & _ & H); [by apply tidy_closed|done..|].
  specialize (H t). rewrite names_none in H. unfold results at 2 in H. cbn [video_store saves new_videos map] in H.
  rewrite app_nil_r in H. erewrite seen_results; [|apply seen_run; [by apply new_browser_seen|done]]. lia.
Qed.

(** ** On concrete runs *)

Definition plain_video_draft : VideoDraft :=
  {| v_mode := js "text"; v_model := js "veo"; v_prompt := js "a cube"; v_duration := num_of_Z 5;
     v_resolution := js "720p"; v_image := None |}.
Definition done_at (u : jstring) : VideoTaskState :=
  {| vt_status := SUCCESS; vt_url := u; vt_progress := []; vt_fail_reason := []; vt_raw := JNull |}.
Definition short_meta (j : VideoJob) : Z := 1000.
Definition play (es : list video_event) : video_world := video_run 7 (fun _ => true) short_meta (new_videos []) es.

(** A video made, downloaded and kept. *)
Definition one_video : list video_event :=
  [MountPage 1; SubmitDraft plain_video_draft 10; SubmissionEnds 0 (Resolved (js "t1")); PollAnswers (done_at (js "https://v/1")) (js "x") 20;
   DownloadEnds 0 (Resolved 5000) (js "j1") 30; SaveEnds 0 None].

Example one_video_kept : (vj_id <$> video_store (play one_video)) = [js "j1"] /\ pending_text (play one_video) = None.
Proof. by vm_compute. Qed.

(** The page is left while its video is downloaded, and opened again: the task is still recorded, its video is
    downloaded a second time, and both are kept. *)
Definition left_and_back : list video_event :=
  [MountPage 1; SubmitDraft plain_video_draft 10; SubmissionEnds 0 (Resolved (js "t1")); PollAnswers (done_at (js "https://v/1")) (js "x") 20;
   LeavePage; MountPage 25; PollAnswers (done_at (js "https://v/1")) (js "x") 26;
   DownloadEnds 0 (Resolved 5000) (js "j1") 30; DownloadEnds 0 (Resolved 5000) (js "j2") 31; SaveEnds 0 None; SaveEnds 0 None].

Example left_page_keeps_video_twice : results (js "t1") (play left_and_back) = 2%nat /\ accepted (js "t1") left_and_back = 1%nat.
Proof. by vm_compute. Qed.

(** The download of the page that was left ends after another task was submitted: it clears the record of that task,
    and closing the tab loses it. *)
Definition old_download : list video_event :=
  [MountPage 1; SubmitDraft plain_video_draft 10; SubmissionEnds 0 (Resolved (js "t1")); PollAnswers (done_at (js "https://v/1")) (js "x") 20;
   LeavePage; MountPage 25; PollAnswers (done_at (js "https://v/1")) (js "x") 26; DownloadEnds 1 (Resolved 5000) (js "j1") 30;
   SubmitDraft plain_video_draft 40; SubmissionEnds 0 (Resolved (js "t2")); DownloadEnds 0 (Resolved 5000) (js "j2") 50].

Example old_download_forgets_task : busy (play old_download) = true /\
  (activeTaskId <$> pages (play old_download)) = [None; Some (js "t2")] /\
  busy (play (old_download ++ [CloseTab; MountPage 60])) = false.
Proof. by vm_compute. Qed.

(** The record is cleared before the video is kept: closing the tab in between loses a video that was paid for. *)
Definition closed_while_saving : list video_event :=
  [MountPage 1; SubmitDraft plain_video_draft 10; SubmissionEnds 0 (Resolved (js "t1")); PollAnswers (done_at (js "https://v/1")) (js "x") 20;
   DownloadEnds 0 (Resolved 5000) (js "j1") 30; CloseTab; MountPage 60].

Example finished_video_lost : results (js "t1") (play closed_while_saving) = 0%nat /\ busy (play closed_while_saving) = false.
Proof. by vm_compute. Qed.

(** Two tabs: the page is opened in a second one while the first waits for its task. Both poll it, and both keep its
    video. *)
Definition in_tabs (es : list (nat * video_event)) : browser :=
  browser_run 7 (fun _ => true) short_meta (new_browser 2 []) es.
Definition in_tab (k : nat) (e : video_event) : nat * video_event := (k, e).
Definition two_tabs : list (nat * video_event) :=
  [in_tab 0 (MountPage 1); in_tab 0 (SubmitDraft plain_video_draft 10); in_tab 0 (SubmissionEnds 0 (Resolved (js "t1"))); in_tab 1 (MountPage 15);
   in_tab 0 (PollAnswers (done_at (js "https://v/1")) (js "x") 20); in_tab 1 (PollAnswers (done_at (js "https://v/1")) (js "x") 21);
   in_tab 0 (DownloadEnds 0 (Resolved 5000) (js "j1") 30); in_tab 1 (DownloadEnds 0 (Resolved 5000) (js "j2") 31);
   in_tab 0 (SaveEnds 0 None); in_tab 1 (SaveEnds 0 None)].

Example two_tabs_keep_video_twice : browser_results (js "t1") (in_tabs two_tabs) = 2%nat /\
  accepted (js "t1") (map snd two_tabs) = 1%nat.
Proof. by vm_compute. Qed.

(** A second tab, opened before the task of the first was accepted, submits its own and overwrites the record: closing
    both and opening one again waits for the second task, in whichever tab; nothing waits for the first. *)
Definition two_tasks : list (nat * video_event) :=
  [in_tab 0 (MountPage 1); in_tab 1 (MountPage 2); in_tab 0 (SubmitDraft plain_video_draft 10); in_tab 1 (SubmitDraft plain_video_draft 11);
   in_tab 0 (SubmissionEnds 0 (Resolved (js "t1"))); in_tab 1 (SubmissionEnds 0 (Resolved (js "t2")));
   in_tab 0 CloseTab; in_tab 1 CloseTab; in_tab 0 (MountPage 60); in_tab 1 (MountPage 61)].

Example two_tabs_forget_task :
  map (fun t => activeTaskId <$> tab_pages t) (tabs (in_tabs two_tasks)) = [[Some (js "t2")]; [Some (js "t2")]] /\
  accepted (js "t1") (map snd two_tasks) = 1%nat.
Proof. by vm_compute. Qed.

Lemma plain_video_sound now : 0 <= now < 2 ^ 53 -> sound_event (SubmitDraft plain_video_draft now).
Proof. split; [by left|]. split; [by apply readable_whole|done]. Qed.

Lemma pending_video_comes_back_witness :
  let r := {| pv_task := js "t1"; pv_draft := plain_video_draft; pv_started := num_of_Z 10 |} in
  exists text, savePendingVideoTask (fun _ => true) 7 r None = Ret (Some text) /\
    loadPendingVideoTask 7 99 (Some text) = Ret (Some (recalled r)).
Proof.
  apply (pending_video_comes_back 7 99 (fun _ => true)); [done|].
  split; [done|by left|by apply readable_whole|]. by exists 10.
Defined.

(** Of two tabs only one is open at each event of a given run. *)
Ltac one_tab := repeat (split; [vm_compute; lia|split;
  [intros [|[|?]] ? Hu ?; vm_compute in Hu; first [done|by injection Hu as <-|by destruct Hu]|]]); exact I.

Lemma closing_resumes_witness :
  exists tab' q, tabs (browser_run 7 (fun _ => true) short_meta
      (in_tabs [in_tab 0 (MountPage 1); in_tab 0 (SubmitDraft plain_video_draft 10); in_tab 0 (SubmissionEnds 0 (Resolved (js "t1")))])
      [(0%nat, CloseTab); (1%nat, MountPage 60)]) !! 1%nat = Some tab' /\
    tab_pages tab' = [q] /\ activeTaskId q = Some (js "t1") /\ started q = 10.
Proof.
  destruct (closing_resumes 7 60 (fun _ => true) short_meta [] 2
    [in_tab 0 (MountPage 1); in_tab 0 (SubmitDraft plain_video_draft 10); in_tab 0 (SubmissionEnds 0 (Resolved (js "t1")))] 0 1 0
    {| tab_pages := [with_task (Some (js "t1")) (submit_page plain_video_draft 10 fresh_page)]; tab_mounted := Some 0%nat;
       tab_submissions := []; tab_downloads := []; tab_saves := [] |}
    (with_task (Some (js "t1")) (submit_page plain_video_draft 10 fresh_page)) (js "t1"))
    as (tab' & q & Htab & Hq & _ & Ht & _ & Hs & _); [done|done| | | |by vm_compute|by vm_compute|by vm_compute|done|lia|].
  - one_tab.
  - by repeat apply Forall_cons_2.
  - apply Forall_cons_2; [done|]. apply Forall_cons_2; [by apply plain_video_sound|]. by apply Forall_cons_2.
  - exists tab', q. exact (conj Htab (conj Hq (conj Ht Hs))).
Defined.

(** The video of [one_video], made in the second of two tabs. *)
Lemma one_video_per_task_witness :
  (browser_results (js "t1") (in_tabs (map (pair 1%nat) one_video)) <= 1)%nat.
Proof.
  apply (one_video_per_task 7 (fun _ => true) short_meta [] 2 (map (pair 1%nat) one_video) (js "t1")); [done|lia| | |].
  - one_tab.
  - by repeat apply Forall_cons_2.
  - apply Forall_cons_2; [done|]. apply Forall_cons_2; [by apply plain_video_sound|]. by repeat apply Forall_cons_2.
Defined.
