(* ===== verification/AccountContext.v ===== *)
(** * The account context (web/src/stores/account-context-store.ts,
      web/src/lib/account-context.ts)

    Which account a request is made under: the user's own, or an organization.
    The store, its persistence, the request headers, the key that keeps GET
    requests of different contexts apart, and the two calls that change it. *)

From S2P Require Import Prelude JsValue.

Definition ACCOUNT_CONTEXT_TYPE_HEADER : jstring := js "X-Account-Context-Type".
Definition ACCOUNT_CONTEXT_ID_HEADER : jstring := js "X-Account-Context-Id".

Inductive AccountContextType := PERSONAL | ORGANIZATION.

#[export] Instance AccountContextType_eq_dec : EqDecision AccountContextType.
Proof. solve_decision. Defined.

Definition type_string (t : AccountContextType) : jstring :=
  match t with PERSONAL => js "personal" | ORGANIZATION => js "organization" end.

(** Ids are integers; [capabilities] is only passed on. *)
Record AccountContext := MkContext {
  ctx_type : AccountContextType;
  ctx_id : Z;
  ctx_name : jstring;
  ctx_slug : option jstring;
  ctx_role : option jstring;
  ctx_status : option jstring;
  ctx_access_mode : option jstring;
  ctx_capabilities : option jsval
}.

Inductive AccountContextsStatus := idle | loading | ready | error.

#[export] Instance AccountContextsStatus_eq_dec : EqDecision AccountContextsStatus.
Proof. solve_decision. Defined.

(** ** The store *)

Record AccountContextState := MkAccountContextState {
  current : option AccountContext;
  contexts : list AccountContext;
  ctxs_status : AccountContextsStatus
}.

Definition initialAccountContext : AccountContextState := MkAccountContextState None [] idle.

Definition setStatus (s : AccountContextsStatus) (st : AccountContextState) : AccountContextState :=
  MkAccountContextState (current st) (contexts st) s.
Definition setContexts (c : option AccountContext) (cs : list AccountContext)
    (st : AccountContextState) : AccountContextState := MkAccountContextState c cs ready.
Definition setCurrent (c : option AccountContext) (st : AccountContextState) : AccountContextState :=
  MkAccountContextState c (contexts st) (ctxs_status st).
Definition resetContext (st : AccountContextState) : AccountContextState :=
  MkAccountContextState None [] idle.

(** *** Persistence: only [current] is written and read back. *)

(** [partialize]: the persisted value. *)
Definition partialize (st : AccountContextState) : option AccountContext := current st.

(** [merge]: [persisted?.accountContext?.current ?? null] into the current state. *)
Definition merge (persisted : option (option AccountContext)) (st : AccountContextState)
    : AccountContextState :=
  MkAccountContextState (coalesce persisted None) (contexts st) (ctxs_status st).

(** *** What a request carries *)

Definition isOrganization (c : option AccountContext) : option AccountContext :=
  match c with
  | Some c => if bool_decide (ctx_type c = ORGANIZATION) then Some c else None
  | None => None
  end.

Definition getAccountContextHeaders (st : AccountContextState) : list (jstring * jstring) :=
  match isOrganization (current st) with
  | None => []
  | Some c => [(ACCOUNT_CONTEXT_TYPE_HEADER, type_string ORGANIZATION);
               (ACCOUNT_CONTEXT_ID_HEADER, dec_of_Z (ctx_id c))]
  end.

Definition getAccountContextCacheKey (st : AccountContextState) : jstring :=
  match isOrganization (current st) with
  | None => type_string PERSONAL
  | Some c => type_string ORGANIZATION ++ ch_colon :: dec_of_Z (ctx_id c)
  end.

(** ** web/src/lib/account-context.ts *)

Definition hasAdministrableOrganization (cs : list AccountContext) : bool :=
  existsb (fun c => bool_decide (ctx_type c = ORGANIZATION) &&
                    (bool_decide (ctx_role c = Some (js "owner")) ||
                     bool_decide (ctx_role c = Some (js "admin")))) cs.

Definition isOrganizationContext (st : AccountContextState) : bool :=
  match isOrganization (current st) with Some _ => true | None => false end.

Record AccountContextsPayload := MkPayload {
  payload_current : option AccountContext;
  payload_contexts : list AccountContext
}.

(** [res.data?.data?.current], [res.data?.data?.contexts] as the body has them. *)
Record ContextsBody := MkContextsBody {
  body_current : option AccountContext;
  body_contexts : option (list AccountContext)
}.

(** The request either rejects or answers with a body that may lack [data]. *)
Definition response := option (option ContextsBody).

(** [refreshAccountContexts]: the state before the [await], and the state and
    the result after it ([None] is the rethrown error). *)
Definition refreshAccountContexts_begin (st : AccountContextState) : AccountContextState :=
  setStatus loading st.

Definition refreshAccountContexts_end (res : response) (st : AccountContextState)
    : AccountContextState * option AccountContextsPayload :=
  match res with
  | None => (setStatus error st, None)
  | Some body =>
      let payload := MkPayload (b ← body; body_current b)
                               (coalesce (b ← body; body_contexts b) []) in
      (setContexts (payload_current payload) (payload_contexts payload) st, Some payload)
  end.

(** The answer of [PUT /api/account-contexts/current]. *)
Record SwitchBody := MkSwitchBody {
  switch_message : option jstring;
  switch_data : option AccountContext
}.

(** [switchAccountContext] after the request: the new state and the context, or
    the error message; [None] is a request that rejects. *)
Definition switchAccountContext_end (res : option (option SwitchBody)) (st : AccountContextState)
    : AccountContextState * (option jstring + AccountContext) :=
  match res with
  | None => (st, inl None)
  | Some body =>
      match b ← body; switch_data b with
      | None => (st, inl (Some (ojor (b ← body; switch_message b)
                                  (js "Failed to switch account context"))))
      | Some c => (setCurrent (Some c) st, inr c)
      end
  end.

(** ** Lemmas *)

Lemma dec_of_Z_inj a b : dec_of_Z a = dec_of_Z b -> a = b.
Proof.
  assert (forall n, dec_val (dec_of_N n) = n) as V by (intros n; apply dec_of_N_spec).
  assert (forall n l, dec_of_N n <> ch_dash :: l) as D.
  { intros n l H. destruct (dec_of_N_spec n) as (_ & F & _). rewrite H in F.
    by apply Forall_cons in F as [F _]. }
  unfold dec_of_Z. destruct (Z.ltb_spec a 0), (Z.ltb_spec b 0); intros E.
  - injection E as E. apply (f_equal dec_val) in E. rewrite !V in E. lia.
  - symmetry in E. by apply D in E.
  - by apply D in E.
  - apply (f_equal dec_val) in E. rewrite !V in E. lia.
Qed.

(** The identity of a context as the server sees it. *)
Definition context_identity (st : AccountContextState) : option Z :=
  ctx_id <$> isOrganization (current st).

Lemma cache_key_inj st1 st2 :
  getAccountContextCacheKey st1 = getAccountContextCacheKey st2 <->
  context_identity st1 = context_identity st2.
Proof.
  unfold getAccountContextCacheKey, context_identity.
  destruct (isOrganization (current st1)) as [c|], (isOrganization (current st2)) as [d|]; cbn;
    try (split; intros H; discriminate H); [|done].
  split.
  - intros H. simplify_eq. by f_equal; apply dec_of_Z_inj.
  - by intros [= ->].
Qed.

(** Reloading the page keeps the selected account and nothing else. *)
Lemma rehydrate_keeps_current st :
  let st' := merge (Some (partialize st)) initialAccountContext in
  current st' = current st /\ contexts st' = [] /\ ctxs_status st' = idle.
Proof. done. Qed.

(** ** Properties *)

(** The requests made under two states carry the same account headers exactly
    when the states have the same deduplication key, which is when they are the
    same account: personal, or the same organization. *)
Theorem account_headers_and_key st1 st2 :
  (getAccountContextHeaders st1 = getAccountContextHeaders st2 <->
   getAccountContextCacheKey st1 = getAccountContextCacheKey st2) /\
  (getAccountContextCacheKey st1 = getAccountContextCacheKey st2 <->
   context_identity st1 = context_identity st2).
Proof.
  split; [|apply cache_key_inj]. rewrite cache_key_inj. unfold getAccountContextHeaders, context_identity.
  destruct (isOrganization (current st1)) as [c|], (isOrganization (current st2)) as [d|]; cbn; try done.
  split; [|by intros [= ->]]. intros [= E]. f_equal. by apply dec_of_Z_inj.
Qed.
