(* ===== verification/AuthSession.v ===== *)
(** * The authenticated session of a tab (web/src/stores/auth-store.ts,
      web/src/lib/auth-session.ts, auth-session-sync.ts, session-hint.ts)

    The store holds the access token and the login session in memory; a refresh
    asks the server for a new bundle.  Refreshes race with sign-in, sign-out and
    the other tabs: [authEpoch] numbers the authentication states, and a refresh
    started in one epoch must not act in another.  The asynchronous functions are
    cut at their [await]s into the synchronous segments the event loop runs
    without interruption; a tab is a step relation over those segments. *)

From S2P Require Import Prelude JsValue AccountContext.

(** ** Data *)

Record LoginSession := MkSession {
  sid : jstring;
  s_current : bool;
  login_method : jstring;
  ip : jstring;
  user_agent : jstring;
  created_at : jsnum;
  last_active_at : jsnum;
  expires_at : jsnum
}.

(** The user object is stored as it came. *)
Record AuthBundle := MkBundle {
  access_token : jstring;
  token_type : jstring;
  access_expires_at : jsnum;
  b_user : jsval;
  b_session : LoginSession
}.

(** The bootstrap state of the store. *)
Inductive AuthBootstrapState := b_idle | b_checking | b_complete.

#[export] Instance AuthBootstrapState_eq_dec : EqDecision AuthBootstrapState.
Proof. solve_decision. Defined.

Record AuthState := MkAuth {
  user : option jsval;
  accessToken : option jstring;
  accessExpiresAt : option jsnum;
  session : option LoginSession;
  pending2FAFlowToken : option jstring;
  bootstrapState : AuthBootstrapState
}.

Definition initialAuth : AuthState := MkAuth None None None None None b_idle.

(** *** Actions of the store *)

Definition setBundle (b : AuthBundle) (a : AuthState) : AuthState :=
  MkAuth (Some (b_user b)) (Some (access_token b)) (Some (access_expires_at b))
    (Some (b_session b)) None b_complete.
Definition setUser (u : option jsval) (a : AuthState) : AuthState :=
  MkAuth u (accessToken a) (accessExpiresAt a) (session a) (pending2FAFlowToken a) (bootstrapState a).
Definition setPending2FAFlowToken (t : option jstring) (a : AuthState) : AuthState :=
  MkAuth (user a) (accessToken a) (accessExpiresAt a) (session a) t (bootstrapState a).
Definition setBootstrapState (s : AuthBootstrapState) (a : AuthState) : AuthState :=
  MkAuth (user a) (accessToken a) (accessExpiresAt a) (session a) (pending2FAFlowToken a) s.
Definition reset (s : AuthBootstrapState) (a : AuthState) : AuthState :=
  MkAuth None None None None None s.

(** ** Validation of what the server sends *)

Definition isAuthUser (v : jsval) : bool :=
  isRecord v && isInteger (asNum (jget v (js "id"))) &&
  num_ltb (num_of_Z 0) (asNum (jget v (js "id"))) &&
  isString (jget v (js "username")) && isNum (jget v (js "role")).

Definition isLoginSession (v : jsval) : bool :=
  isRecord v && isNonEmptyString (jget v (js "sid")) && isBoolean (jget v (js "current")) &&
  isString (jget v (js "login_method")) && isString (jget v (js "ip")) &&
  isString (jget v (js "user_agent")) && isNum (jget v (js "created_at")) &&
  isNum (jget v (js "last_active_at")) && isNum (jget v (js "expires_at")).

Definition hasValidTokenFields (v : jsval) : bool :=
  isNonEmptyString (jget v (js "access_token")) && isNonEmptyString (jget v (js "token_type")) &&
  isNum (jget v (js "access_expires_at")) && isFinite (asNum (jget v (js "access_expires_at"))) &&
  num_ltb (num_of_Z 0) (asNum (jget v (js "access_expires_at"))).

Definition isAuthBundle (v : jsval) : bool :=
  isRecord v && hasValidTokenFields v && isAuthUser (jget v (js "user")) &&
  isLoginSession (jget v (js "session")).

Definition isAuthTokenRotation (v : jsval) : bool :=
  isRecord v && hasValidTokenFields v && jeqb (asString (jget v (js "token_type"))) (js "Bearer") &&
  isLoginSession (jget v (js "session")) && asBoolean (jget (jget v (js "session")) (js "current")).

(** Reading a value that passed [isLoginSession], [isAuthBundle]: the type the
    guards give it. *)
Definition readSession (v : jsval) : LoginSession :=
  {| sid := asString (jget v (js "sid"));
     s_current := asBoolean (jget v (js "current"));
     login_method := asString (jget v (js "login_method"));
     ip := asString (jget v (js "ip"));
     user_agent := asString (jget v (js "user_agent"));
     created_at := asNum (jget v (js "created_at"));
     last_active_at := asNum (jget v (js "last_active_at"));
     expires_at := asNum (jget v (js "expires_at")) |}.

Definition readBundle (v : jsval) : AuthBundle :=
  {| access_token := asString (jget v (js "access_token"));
     token_type := asString (jget v (js "token_type"));
     access_expires_at := asNum (jget v (js "access_expires_at"));
     b_user := jget v (js "user");
     b_session := readSession (jget v (js "session")) |}.

(** ** Synchronization of the tabs (auth-session-sync.ts) *)

Inductive SyncKind := k_authenticated | k_signed_out.

Record AuthSessionSyncEvent := MkSyncEvent {
  ev_kind : SyncKind;
  ev_sid : jstring;
  ev_source : jstring;
  ev_nonce : jstring;
  ev_timestamp : Z
}.

Definition kind_string (k : SyncKind) : jstring :=
  match k with k_authenticated => js "authenticated" | k_signed_out => js "signed_out" end.

(** The value another tab receives for an event. *)
Definition eventValue (e : AuthSessionSyncEvent) : jsval :=
  JObj [(js "kind", JStr (kind_string (ev_kind e))); (js "sid", JStr (ev_sid e));
        (js "source", JStr (ev_source e)); (js "nonce", JStr (ev_nonce e));
        (js "timestamp", JNum (num_of_Z (ev_timestamp e)))].

Definition isAuthSessionSyncEvent (v : jsval) : bool :=
  isRecord v &&
  (jeqb (asString (jget v (js "kind"))) (js "authenticated") ||
   jeqb (asString (jget v (js "kind"))) (js "signed_out")) &&
  isNonEmptyString (jget v (js "sid")) && isString (jget v (js "source")) &&
  isString (jget v (js "nonce")) && isNum (jget v (js "timestamp")).

(** [Math.abs(now - t) < 60_000] *)
Definition within_minute (now : Z) (t : jsnum) : bool :=
  num_ltb (num_of_Z (now - 60000)) t && num_ltb t (num_of_Z (now + 60000)).

(** The guard of [deliver]: whether the listener is called. *)
Definition deliver (source : jstring) (now : Z) (v : jsval) : bool :=
  isAuthSessionSyncEvent v && negb (jeqb (asString (jget v (js "source"))) source) &&
  within_minute now (asNum (jget v (js "timestamp"))).

(** [publishAuthSessionEvent]: the event posted, none for an empty sid. *)
Definition publishAuthSessionEvent (source nonce : jstring) (now : Z) (kind : SyncKind) (sid : jstring)
    : option AuthSessionSyncEvent :=
  if negb (truthy sid) then None else Some (MkSyncEvent kind sid source nonce now).

(** ** The state of a tab *)

Record World := MkWorld {
  w_auth : AuthState;
  authEpoch : nat;
  w_ctx : AccountContextState;
  published : list (SyncKind * jstring)
}.

(** The tab publishes; an empty sid is dropped. *)
Definition publish (k : SyncKind) (s : jstring) (w : World) : World :=
  if truthy s then MkWorld (w_auth w) (authEpoch w) (w_ctx w) (published w ++ [(k, s)]) else w.

Definition updateAuth (f : AuthState -> AuthState) (w : World) : World :=
  MkWorld (f (w_auth w)) (authEpoch w) (w_ctx w) (published w).

Definition applyAuthBundle (b : AuthBundle) (synchronizeTabs : bool) (w : World) : World :=
  let previousSID := sid <$> session (w_auth w) in
  let w' := MkWorld (setBundle b (w_auth w)) (S (authEpoch w)) (w_ctx w) (published w) in
  if synchronizeTabs && negb (bool_decide (previousSID = Some (sid (b_session b))))
  then publish k_authenticated (sid (b_session b)) w' else w'.

Inductive RotationError := InvalidRotation | NoActiveSession | SessionMismatch.

Definition applyAuthRotation (v : jsval) (w : World) : World * option RotationError :=
  if negb (isAuthTokenRotation v) then (w, Some InvalidRotation)
  else match user (w_auth w), session (w_auth w) with
       | Some u, Some s =>
           let r := readBundle v in
           if negb (jeqb (sid (b_session r)) (sid s)) then (w, Some SessionMismatch)
           else (applyAuthBundle (MkBundle (access_token r) (token_type r) (access_expires_at r)
                                    u (b_session r)) false w, None)
       | _, _ => (w, Some NoActiveSession)
       end.

Definition clearAuthentication (synchronizeTabs : bool) (s : AuthBootstrapState) (w : World) : World :=
  let old := sid <$> session (w_auth w) in
  let w' := MkWorld (reset s (w_auth w)) (S (authEpoch w)) (resetContext (w_ctx w)) (published w) in
  match old with
  | Some sid => if synchronizeTabs then publish k_signed_out sid w' else w'
  | None => w'
  end.

(** ** The refresh runner *)

Inductive RefreshOutcome :=
| Authenticated (bundle : AuthBundle)
| Anonymous
| TransientError (superseded : bool)
| OutOfSync (code : option jstring).

(** [status] is 0 when the request failed without a response. *)
Record AuthRefreshHTTPResponse := MkResponse { status : Z; data : jsval }.

(** The interface the runner is written against, over the state it acts on. *)
Record AuthRefreshRuntime (W : Type) := MkRuntime {
  getExpectedSID : W -> option jstring;
  parseBundle : jsval -> option AuthBundle;
  acceptBundle : AuthBundle -> W -> W;
  clear : bool -> option AuthBootstrapState -> W -> W;
  markTransient : W -> W;
  isCurrent : option (W -> bool)
}.
Arguments getExpectedSID {W}.
Arguments parseBundle {W}.
Arguments acceptBundle {W}.
Arguments clear {W}.
Arguments markTransient {W}.
Arguments isCurrent {W}.

Definition refreshRaceDelays : list Z := [80; 200; 500].

(** Where a run is: at the [await] of the request sent with [expectedSID], at
    the [await] of the delay, or finished. *)
Inductive RunState :=
| Requesting (raceAttempt : nat) (allowMismatchRetry : bool) (expectedSID : option jstring)
| Waiting (delay : Z) (raceAttempt : nat) (allowMismatchRetry : bool)
| Finished (o : RefreshOutcome).

Definition AUTH_REFRESH_RACE : jstring := js "AUTH_REFRESH_RACE".
Definition AUTH_SESSION_MISMATCH : jstring := js "AUTH_SESSION_MISMATCH".

Section Runner.
Context {W : Type} (runtime : AuthRefreshRuntime W).

(** [runtime.isCurrent && !runtime.isCurrent()] *)
Definition notCurrent (w : W) : bool :=
  match isCurrent runtime with Some f => negb (f w) | None => false end.

(** The beginning of [run], up to the request. *)
Definition run_begin (raceAttempt : nat) (allowMismatchRetry : bool) (w : W) : RunState :=
  if notCurrent w then Finished (TransientError true)
  else Requesting raceAttempt allowMismatchRetry (getExpectedSID runtime w).

Definition responseCode (r : AuthRefreshHTTPResponse) : option jstring :=
  let d := if isRecord (data r) then data r else JUndefined in
  match jget d (js "code") with JStr s => Some s | _ => None end.

Definition responseBundle (r : AuthRefreshHTTPResponse) : option AuthBundle :=
  let d := if isRecord (data r) then data r else JUndefined in
  match jget d (js "success"), parseBundle runtime (jget d (js "data")) with
  | JBool true, Some b => Some b
  | _, _ => None
  end.

(** The rest of [run], once the response is there. *)
Definition run_response (raceAttempt : nat) (allowMismatchRetry : bool)
    (r : AuthRefreshHTTPResponse) (w : W) : W * RunState :=
  let code := responseCode r in
  if notCurrent w then (w, Finished (TransientError true))
  else match responseBundle r with
  | Some b => (acceptBundle runtime b w, Finished (Authenticated b))
  | None =>
      if (status r =? 409) && bool_decide (code = Some AUTH_REFRESH_RACE)
      then match refreshRaceDelays !! raceAttempt with
           | Some delay => (w, Waiting delay raceAttempt allowMismatchRetry)
           | None => (clear runtime false None w, Finished (OutOfSync code))
           end
      else if (status r =? 409) && bool_decide (code = Some AUTH_SESSION_MISMATCH)
      then if allowMismatchRetry
           then let w' := clear runtime false (Some b_idle) w in (w', run_begin 0 false w')
           else (clear runtime false None w, Finished (OutOfSync code))
      else if status r =? 401 then (clear runtime true None w, Finished Anonymous)
      else if (status r =? 0) || (500 <=? status r) || (status r =? 429)
      then (markTransient runtime w, Finished (TransientError false))
      else (clear runtime false None w,
            Finished (OutOfSync (Some (coalesce code (js "AUTH_INVALID_REFRESH_RESPONSE")))))
  end.

(** The continuation after the delay. *)
Definition run_resume (raceAttempt : nat) (allowMismatchRetry : bool) (w : W) : RunState :=
  run_begin (S raceAttempt) allowMismatchRetry w.

(** A whole run: each event is a response, before which the rest of the tab may
    have changed the state, and so again before the end of a delay. *)
Record RunEvent := MkRunEvent {
  before_response : W -> W;
  the_response : AuthRefreshHTTPResponse;
  before_wake : W -> W
}.

Fixpoint drive (s : RunState) (w : W) (events : list RunEvent) : W * RunState :=
  match s, events with
  | Requesting race allow _, e :: events =>
      let (w, s) := run_response race allow (the_response e) (before_response e w) in
      match s with
      | Waiting _ race allow =>
          let w := before_wake e w in drive (run_resume race allow w) w events
      | _ => drive s w events
      end
  | _, _ => (w, s)
  end.

Definition run (w : W) (events : list RunEvent) : W * RunState :=
  drive (run_begin 0 true w) w events.
End Runner.

(** [runRefresh]: the runtime of a refresh started in an epoch. *)
Definition refreshRuntime (refreshEpoch : nat) : AuthRefreshRuntime World :=
  {| getExpectedSID := fun w => sid <$> session (w_auth w);
     parseBundle := fun v => if isAuthBundle v then Some (readBundle v) else None;
     acceptBundle := fun b => applyAuthBundle b false;
     clear := fun synchronizeTabs s w =>
       if negb synchronizeTabs && bool_decide (s = Some b_idle)
       then updateAuth (reset b_idle) w
       else clearAuthentication synchronizeTabs (coalesce s b_complete) w;
     markTransient := updateAuth (setBootstrapState b_idle);
     isCurrent := Some (fun w => (authEpoch w =? refreshEpoch)%nat) |}.

(** ** The tab as a transition system

    [refreshPromise] of the module: none, or the refresh in flight with its
    epoch, waiting for the browser's lock or running. *)

Inductive Phase := Locked | Running (s : RunState).

Record Tab := MkTab { world : World; refreshPromise : option (nat * Phase) }.

(** [refreshAuthentication]: join the refresh in flight, or start one. *)
Definition refreshAuthentication (locks : bool) (t : Tab) : Tab :=
  match refreshPromise t with
  | Some _ => t
  | None =>
      let e := authEpoch (world t) in
      MkTab (world t)
        (Some (e, if locks then Locked else Running (run_begin (refreshRuntime e) 0 true (world t))))
  end.

Inductive TabEvent :=
| ERefresh (locks : bool)                       (* a call of refreshAuthentication *)
| ELockGranted
| EResponse (r : AuthRefreshHTTPResponse)       (* of the request of the run *)
| EWake                                         (* the delay is over *)
| ESettled                                      (* finally: refreshPromise = null *)
| EApply (b : AuthBundle) (synchronizeTabs : bool)
| ERotate (v : jsval)
| EClear (synchronizeTabs : bool) (s : AuthBootstrapState)
| EOther (f : AuthState -> AuthState).          (* setUser, setPending2FA..., setBootstrapState *)

(** The actions of the store that leave the token and the session alone. *)
Definition keeps_session (f : AuthState -> AuthState) : Prop :=
  forall a, session (f a) = session a /\ accessToken (f a) = accessToken a /\
            accessExpiresAt (f a) = accessExpiresAt a.

Inductive tab_step : Tab -> TabEvent -> Tab -> Prop :=
| step_refresh t locks : tab_step t (ERefresh locks) (refreshAuthentication locks t)
| step_lock w e :
    tab_step (MkTab w (Some (e, Locked))) ELockGranted
      (MkTab w (Some (e, Running (run_begin (refreshRuntime e) 0 true w))))
| step_response w e race allow sid r :
    tab_step (MkTab w (Some (e, Running (Requesting race allow sid)))) (EResponse r)
      (let '(w', s) := run_response (refreshRuntime e) race allow r w in
       MkTab w' (Some (e, Running s)))
| step_wake w e d race allow :
    tab_step (MkTab w (Some (e, Running (Waiting d race allow)))) EWake
      (MkTab w (Some (e, Running (run_resume (refreshRuntime e) race allow w))))
| step_settled w e o :
    tab_step (MkTab w (Some (e, Running (Finished o)))) ESettled (MkTab w None)
| step_apply w p b sync : tab_step (MkTab w p) (EApply b sync) (MkTab (applyAuthBundle b sync w) p)
| step_rotate w p v : tab_step (MkTab w p) (ERotate v) (MkTab (applyAuthRotation v w).1 p)
| step_clear w p sync s : tab_step (MkTab w p) (EClear sync s) (MkTab (clearAuthentication sync s w) p)
| step_other w p f : keeps_session f -> tab_step (MkTab w p) (EOther f) (MkTab (updateAuth f w) p).

Inductive trace : Tab -> list TabEvent -> Tab -> Prop :=
| trace_nil t : trace t [] t
| trace_cons t e t' es t'' : tab_step t e t' -> trace t' es t'' -> trace t (e :: es) t''.

Definition initialTab : Tab := MkTab (MkWorld initialAuth 0 initialAccountContext []) None.

(** ** The session hint (session-hint.ts) *)

Definition SESSION_HINT_COOKIE_NAME : jstring := js "new_api_has_session".

Fixpoint readCookieParts (parts : list jstring) (name : jstring) : option jstring :=
  match parts with
  | [] => None
  | part :: rest =>
      match indexOf part [ch_eq] with
      | None => readCookieParts rest name
      | Some separator =>
          if negb (jeqb (trim (slice part 0 separator)) name) then readCookieParts rest name
          else Some (trim (drop (S separator) part))
      end
  end.

Definition readCookie (cookieHeader name : jstring) : option jstring :=
  readCookieParts (split_on ch_semi cookieHeader) name.

(** [None]: there is no [document]. *)
Definition hasSessionHint (cookie : option jstring) : bool :=
  match cookie with
  | None => true
  | Some c => match readCookie c SESSION_HINT_COOKIE_NAME with Some _ => true | None => false end
  end.

(** ** Resolving authentication *)

(** [now] is [Math.floor(Date.now() / 1000)]. *)
Definition currentValidAuthBundle (now : Z) (w : World) : option AuthBundle :=
  let a := w_auth w in
  match user a, accessToken a, accessExpiresAt a, session a with
  | Some u, Some tok, Some exp, Some s =>
      if negb (truthy tok) || negb (num_truthy exp) || negb (num_ltb (num_of_Z now) exp) then None
      else Some (MkBundle tok (js "Bearer") exp u s)
  | _, _, _, _ => None
  end.

(** The outcome when it is known at once; [None] when the caller awaits the
    refresh in flight. *)
Definition resolveAuthentication (locks : bool) (now : Z) (t : Tab) : Tab * option RefreshOutcome :=
  match currentValidAuthBundle now (world t) with
  | Some b => (MkTab (updateAuth (setBootstrapState b_complete) (world t)) (refreshPromise t),
               Some (Authenticated b))
  | None =>
      let a := w_auth (world t) in
      let hasStaleSession := match user a, session a with Some _, Some _ => true | _, _ => false end in
      if bool_decide (bootstrapState a = b_complete) && negb hasStaleSession then (t, Some Anonymous)
      else (refreshAuthentication locks
              (MkTab (updateAuth (setBootstrapState b_checking) (world t)) (refreshPromise t)), None)
  end.

Definition bootstrapAuthentication (locks : bool) (now : Z) (cookie : option jstring) (t : Tab)
    : Tab * option RefreshOutcome :=
  match currentValidAuthBundle now (world t), hasSessionHint cookie,
        user (w_auth (world t)), session (w_auth (world t)) with
  | None, false, None, None => (t, Some Anonymous)
  | _, _, _, _ => resolveAuthentication locks now t
  end.

(** ** Headers *)

Definition getCommonHeaders (w : World) : list (jstring * jstring) :=
  (js "Content-Type", js "application/json") ::
  (match accessToken (w_auth w) with
   | Some tok => if truthy tok then [(js "Authorization", js "Bearer " ++ tok)] else []
   | None => []
   end) ++ getAccountContextHeaders (w_ctx w).

(** The token is there and expires after [t]. *)
Definition tokenValidAfter (t : Z) (w : World) : bool :=
  match accessToken (w_auth w), accessExpiresAt (w_auth w) with
  | Some tok, Some exp => truthy tok && num_truthy exp && num_ltb (num_of_Z t) exp
  | _, _ => false
  end.

(** [getFreshAuthHeaders] up to its [await]: the headers, or [None] to refresh. *)
Definition getFreshAuthHeaders_begin (now : Z) (w : World) : option (list (jstring * jstring)) :=
  if tokenValidAfter (now + 60) w then Some (getCommonHeaders w) else None.

(** After the refresh: the headers, or the message of the error thrown. *)
Definition getFreshAuthHeaders_end (now : Z) (outcome : RefreshOutcome) (w : World)
    : jstring + list (jstring * jstring) :=
  match outcome with
  | Authenticated _ => inr (getCommonHeaders w)
  | _ =>
      if tokenValidAfter now w then inr (getCommonHeaders w)
      else match outcome with
           | TransientError _ => inl (js "Request failed")
           | _ => inl (js "Session expired!")
           end
  end.

(** ** Lemmas *)

Lemma authEpoch_publish k s w : authEpoch (publish k s w) = authEpoch w.
Proof. unfold publish. by case_match. Qed.
Lemma w_auth_publish k s w : w_auth (publish k s w) = w_auth w.
Proof. unfold publish. by case_match. Qed.
Lemma w_ctx_publish k s w : w_ctx (publish k s w) = w_ctx w.
Proof. unfold publish. by case_match. Qed.

Lemma applyAuthBundle_auth b sync w :
  w_auth (applyAuthBundle b sync w) = setBundle b (w_auth w) /\
  authEpoch (applyAuthBundle b sync w) = S (authEpoch w) /\
  w_ctx (applyAuthBundle b sync w) = w_ctx w.
Proof.
  unfold applyAuthBundle. case_match; rewrite ?w_auth_publish, ?authEpoch_publish, ?w_ctx_publish; done.
Qed.

Lemma clearAuthentication_auth sync s w :
  w_auth (clearAuthentication sync s w) = reset s (w_auth w) /\
  authEpoch (clearAuthentication sync s w) = S (authEpoch w) /\
  w_ctx (clearAuthentication sync s w) = resetContext (w_ctx w).
Proof.
  unfold clearAuthentication. destruct (session (w_auth w)); cbn; [|done].
  destruct sync; rewrite ?w_auth_publish, ?authEpoch_publish, ?w_ctx_publish; done.
Qed.

Lemma notCurrent_refresh e w : notCurrent (refreshRuntime e) w = negb (authEpoch w =? e)%nat.
Proof. done. Qed.

(** The runtime of a refresh, in the store's own operations. *)
Lemma refresh_clear_local e w : clear (refreshRuntime e) false None w = clearAuthentication false b_complete w.
Proof. done. Qed.
Lemma refresh_clear_all e w : clear (refreshRuntime e) true None w = clearAuthentication true b_complete w.
Proof. done. Qed.
Lemma refresh_clear_idle e w : clear (refreshRuntime e) false (Some b_idle) w = updateAuth (reset b_idle) w.
Proof. done. Qed.
Lemma refresh_accept e b w : acceptBundle (refreshRuntime e) b w = applyAuthBundle b false w.
Proof. done. Qed.
Lemma refresh_mark e w : markTransient (refreshRuntime e) w = updateAuth (setBootstrapState b_idle) w.
Proof. done. Qed.
#[local] Hint Rewrite refresh_clear_local refresh_clear_all refresh_clear_idle refresh_accept refresh_mark : cube.
#[local] Arguments refreshRuntime : simpl never.

(** A stale run stops at its next segment and touches nothing. *)
Lemma stale_begin e race allow w :
  authEpoch w <> e -> run_begin (refreshRuntime e) race allow w = Finished (TransientError true).
Proof.
  intros H. unfold run_begin. rewrite notCurrent_refresh.
  by apply Nat.eqb_neq in H as ->.
Qed.

Lemma stale_response e race allow r w :
  authEpoch w <> e ->
  run_response (refreshRuntime e) race allow r w = (w, Finished (TransientError true)).
Proof.
  intros H. unfold run_response. rewrite notCurrent_refresh.
  by apply Nat.eqb_neq in H as ->.
Qed.

(** *** The refresh runner *)

(** Requests a run may still send. *)
Definition budget (s : RunState) : nat :=
  match s with
  | Requesting race allow _ => (if allow then 4 else 0) + (4 - race)
  | _ => 0
  end.

(** A run awaiting a request has an attempt left, and a run never stops waiting. *)
Definition run_ok (s : RunState) : Prop :=
  match s with
  | Requesting race _ _ => (race <= 3)%nat
  | Waiting _ race _ => (race <= 2)%nat
  | Finished _ => True
  end.

Lemma delay_race race d : refreshRaceDelays !! race = Some d -> (race <= 2)%nat.
Proof. intros H. apply lookup_lt_Some in H. cbn in H. lia. Qed.

Lemma run_begin_cases {W} (rt : AuthRefreshRuntime W) race allow w :
  run_begin rt race allow w = Finished (TransientError true) \/
  run_begin rt race allow w = Requesting race allow (getExpectedSID rt w).
Proof. unfold run_begin. destruct (notCurrent rt w); auto. Qed.

#[local] Arguments run_begin : simpl never.
#[local] Arguments responseBundle : simpl never.

Lemma run_begin_ok {W} (rt : AuthRefreshRuntime W) race allow w :
  (race <= 3)%nat -> run_ok (run_begin rt race allow w).
Proof. by destruct (run_begin_cases rt race allow w) as [-> | ->]. Qed.

(** Follow every branch of the code after the response. *)
Ltac run_cases :=
  unfold run_response;
  repeat match goal with
         | |- context [match responseBundle ?rt ?r with _ => _ end] => destruct (responseBundle rt r) eqn:?
         | |- context [match refreshRaceDelays !! ?n with _ => _ end] => destruct (refreshRaceDelays !! n) eqn:?
         | |- context [if ?b then _ else _] =>
             lazymatch b with context [if _ then _ else _] => fail | _ => destruct b eqn:? end
         end.

(** A response leads to the end, to a delay, or to the second round. *)
Lemma run_response_next {W} (rt : AuthRefreshRuntime W) race allow r w :
  match (run_response rt race allow r w).2 with
  | Requesting race' allow' _ => allow = true /\ allow' = false /\ race' = 0%nat
  | Waiting d race' allow' =>
      race' = race /\ allow' = allow /\ refreshRaceDelays !! race = Some d
  | Finished _ => True
  end.
Proof.
  run_cases; cbn; try done.
  all: match goal with |- context [run_begin ?rt ?n ?a ?w] => destruct (run_begin_cases rt n a w) as [-> | ->] end; done.
Qed.

Lemma drive_finishes {W} (rt : AuthRefreshRuntime W) events : forall s w,
  run_ok s -> (forall d race allow, s <> Waiting d race allow) ->
  (budget s <= length events)%nat ->
  exists o, (drive rt s w events).2 = Finished o.
Proof.
  induction events as [|e events IH]; intros s w Hok Hw Hb.
  - destruct s as [race allow x|d race allow|o]; [|by destruct (Hw d race allow)|by exists o].
    cbn in *. destruct allow; lia.
  - destruct s as [race allow x|d race allow|o]; [|by destruct (Hw d race allow)|by exists o].
    cbn [drive]. pose proof (run_response_next rt race allow (the_response e) (before_response e w)) as H.
    destruct (run_response rt race allow (the_response e) (before_response e w)) as [w' [race' allow' x'|d race' allow'|o]];
      cbn in H, Hok, Hb |- *.
    + destruct H as (-> & -> & ->). apply IH; cbn; [lia|done|lia].
    + destruct H as (-> & -> & Hd%delay_race). unfold run_resume.
      destruct (run_begin_cases rt (S race) allow (before_wake e w')) as [-> | ->].
      * destruct events; eauto.
      * apply IH; cbn; [lia|done|destruct allow; lia].
    + destruct events; eauto.
Qed.

(** *** The invariant of a tab *)

(** Token, expiry and session come and go together; the epoch only grows. *)
Definition coherent (a : AuthState) : Prop :=
  (session a = None -> accessToken a = None /\ accessExpiresAt a = None) /\
  (session a <> None -> accessToken a <> None /\ accessExpiresAt a <> None).

Definition tab_ok (t : Tab) : Prop :=
  coherent (w_auth (world t)) /\
  match refreshPromise t with
  | Some (e, Running s) => (e <= authEpoch (world t))%nat /\ run_ok s
  | Some (e, Locked) => (e <= authEpoch (world t))%nat
  | None => True
  end.

Lemma coherent_set b a : coherent (setBundle b a).
Proof. by split. Qed.
Lemma coherent_reset s a : coherent (reset s a).
Proof. by split. Qed.
#[local] Hint Resolve coherent_set coherent_reset : cube.

Lemma coherent_applyAuthBundle b sync w : coherent (w_auth (applyAuthBundle b sync w)).
Proof. destruct (applyAuthBundle_auth b sync w) as [-> _]. auto with cube. Qed.
Lemma coherent_clearAuthentication sync s w : coherent (w_auth (clearAuthentication sync s w)).
Proof. destruct (clearAuthentication_auth sync s w) as [-> _]. auto with cube. Qed.
Lemma coherent_keeps f w : keeps_session f -> coherent (w_auth w) -> coherent (w_auth (updateAuth f w)).
Proof. intros K. unfold coherent. cbn. by destruct (K (w_auth w)) as (-> & -> & ->). Qed.
#[local] Hint Resolve coherent_applyAuthBundle coherent_clearAuthentication coherent_keeps : cube.

Lemma epoch_applyAuthBundle b sync w : authEpoch (applyAuthBundle b sync w) = S (authEpoch w).
Proof. apply applyAuthBundle_auth. Qed.
Lemma epoch_clearAuthentication sync s w : authEpoch (clearAuthentication sync s w) = S (authEpoch w).
Proof. apply clearAuthentication_auth. Qed.
#[local] Hint Rewrite epoch_applyAuthBundle epoch_clearAuthentication : cube.

Lemma applyAuthRotation_cases v w :
  (exists err, applyAuthRotation v w = (w, Some err)) \/
  exists b, applyAuthRotation v w = (applyAuthBundle b false w, None) /\
    isAuthTokenRotation v = true /\ user (w_auth w) = Some (b_user b) /\
    (sid <$> session (w_auth w)) = Some (sid (b_session b)) /\
    access_token b = access_token (readBundle v) /\ access_expires_at b = access_expires_at (readBundle v).
Proof.
  unfold applyAuthRotation. destruct (isAuthTokenRotation v); cbn; [|left; eauto].
  destruct (user (w_auth w)) as [u|]; [|left; eauto]. destruct (session (w_auth w)) as [s|]; [|left; eauto].
  destruct (jeqb _ (sid s)) eqn:E; [|left; eauto]. right. eexists. split; [done|].
  apply jeqb_eq in E. cbn in *. by rewrite E.
Qed.

Lemma keeps_mark : keeps_session (setBootstrapState b_idle).
Proof. done. Qed.
#[local] Hint Resolve keeps_mark : cube.

Lemma response_coherent e race allow r w :
  coherent (w_auth w) -> (race <= 3)%nat ->
  coherent (w_auth (run_response (refreshRuntime e) race allow r w).1) /\
  (authEpoch w <= authEpoch (run_response (refreshRuntime e) race allow r w).1)%nat /\
  run_ok (run_response (refreshRuntime e) race allow r w).2.
Proof.
  intros Hw Hr. run_cases; cbn; autorewrite with cube; cbn.
  all: split; [eauto with cube|split; [lia|]]; try done.
  - by eapply delay_race.
  - apply run_begin_ok. lia.
  - apply run_begin_ok. lia.
Qed.

Lemma tab_step_ok t ev t' : tab_step t ev t' -> tab_ok t -> tab_ok t'.
Proof.
  intros H [Hc Hp]. destruct H; cbn in *.
  - unfold refreshAuthentication. destruct (refreshPromise t) as [[e p]|] eqn:E; [by split; rewrite ?E|].
    split; cbn; [done|]. destruct locks; [lia|]. split; [lia|]. apply run_begin_ok. lia.
  - split; cbn; [done|]. split; [done|]. apply run_begin_ok. lia.
  - destruct Hp as [He Hr]. destruct (response_coherent e race allow r w Hc Hr) as (? & ? & ?).
    destruct (run_response _ race allow r w) as [w' s]. cbn in *. split; cbn; [done|]. split; [lia|done].
  - destruct Hp as [He Hr]. split; cbn; [done|]. split; [done|]. unfold run_resume. apply run_begin_ok. cbn in Hr. lia.
  - by split.
  - split; cbn; [auto with cube|]. autorewrite with cube. destruct p as [[? []]|]; naive_solver lia.
  - destruct (applyAuthRotation_cases v w) as [[err ->] | (b & -> & _)]; [by split|].
    split; cbn; [auto with cube|]. autorewrite with cube. destruct p as [[? []]|]; naive_solver lia.
  - split; cbn; [auto with cube|]. autorewrite with cube. destruct p as [[? []]|]; naive_solver lia.
  - split; cbn; [by apply coherent_keeps|done].
Qed.

Lemma trace_ok t es t' : trace t es t' -> tab_ok t -> tab_ok t'.
Proof. induction 1; eauto using tab_step_ok. Qed.

Lemma initialTab_ok : tab_ok initialTab.
Proof. by split. Qed.

(** *** Signed out while a refresh is in flight *)

(** Events after which no one has signed in: no bundle is applied from outside,
    and a call of refreshAuthentication only joins the refresh in flight. *)
Fixpoint quiet (inflight : bool) (es : list TabEvent) : Prop :=
  match es with
  | [] => True
  | EApply _ _ :: _ => False
  | ERefresh _ :: es => inflight = true /\ quiet inflight es
  | ESettled :: es => quiet false es
  | _ :: es => quiet inflight es
  end.

Definition inFlight (t : Tab) : bool := match refreshPromise t with Some _ => true | None => false end.

(** Signed out, and whatever refresh is in flight belongs to an older epoch. *)
Definition superseded (t : Tab) : Prop :=
  session (w_auth (world t)) = None /\ accessToken (w_auth (world t)) = None /\
  match refreshPromise t with Some (e, _) => (e < authEpoch (world t))%nat | None => True end.

Lemma superseded_step t ev t' es :
  tab_step t ev t' -> superseded t -> quiet (inFlight t) (ev :: es) ->
  superseded t' /\ quiet (inFlight t') es.
Proof.
  intros H (Hs & Ht & Hp) Hq. destruct H; cbn in *; try done.
  - unfold refreshAuthentication, superseded, inFlight in *.
    destruct (refreshPromise t) as [[e p]|] eqn:Ep; [|by destruct Hq]. rewrite Ep. by destruct Hq.
  - rewrite stale_response by lia. by split.
  - destruct (applyAuthRotation_cases v w) as [[err ->] | (b & _ & _ & _ & E & _)]; [by split|].
    by rewrite Hs in E.
  - destruct (clearAuthentication_auth sync s w) as (Ea & Ee & _).
    unfold superseded. cbn. rewrite Ea, Ee. split; [|done]. split; [done|]. split; [done|].
    destruct p as [[]|]; [lia|done].
  - unfold superseded. cbn. destruct (H (w_auth w)) as (-> & -> & _). by split.
Qed.

Lemma superseded_trace t es t' :
  trace t es t' -> superseded t -> quiet (inFlight t) es -> superseded t'.
Proof.
  induction 1 as [|t ev t1 es t2 Hstep _ IH]; [done|]. intros Hs Hq.
  destruct (superseded_step _ _ _ _ Hstep Hs Hq). auto.
Qed.

(** *** Cookies *)

(** [document.cookie] of a jar. *)
Definition cookieHeader (jar : list (jstring * jstring)) : jstring :=
  join (js "; ") (map (fun c => c.1 ++ ch_eq :: c.2) jar).

(** A cookie the browser can store: no separator in the name or in the value. *)
Definition storable (c : jstring * jstring) : Prop :=
  Forall (fun u => is_ws u = false /\ u <> ch_semi /\ u <> ch_eq) c.1 /\
  Forall (fun u => u <> ch_semi) c.2.

Lemma indexOf_free c s k : Forall (fun d => d <> c) s -> indexOf (s ++ c :: k) [c] = Some (length s).
Proof.
  induction 1 as [|d s Hd _ IH]; cbn.
  - by rewrite N.eqb_refl.
  - rewrite (proj2 (N.eqb_neq c d)) by done. cbn. by rewrite IH.
Qed.


Lemma trim_blank s : Forall (fun u => is_ws u = false) s -> trim (32%N :: s) = s.
Proof. intros H. change (trim (32%N :: s)) with (trim s). by apply trim_id. Qed.

(** One cookie of the header, after the separator of the one before. *)
Definition cookiePart (blank : bool) (c : jstring * jstring) : jstring :=
  (if blank then [32%N] else []) ++ c.1 ++ ch_eq :: c.2.

Lemma cookiePart_free blank c : storable c -> Forall (fun u => u <> ch_semi) (cookiePart blank c).
Proof.
  intros [Hn Hv]. unfold cookiePart. rewrite !Forall_app, Forall_cons. split_and!; [by destruct blank; build| |done|done].
  eapply Forall_impl; [exact Hn|]. by intros u (_ & ? & _).
Qed.

Lemma split_cookies jar : Forall storable jar -> forall blank c, storable c ->
  split_on ch_semi ((if (blank : bool) then [32%N] else []) ++ cookieHeader (c :: jar)) =
  cookiePart blank c :: map (cookiePart true) jar.
Proof.
  induction 1 as [|d jar Hd Hjar IH]; intros blank c Hc.
  - by apply (split_on_free ch_semi (cookiePart blank c)), cookiePart_free.
  - change (cookieHeader (c :: d :: jar)) with ((c.1 ++ ch_eq :: c.2) ++ ch_semi :: [32%N] ++ cookieHeader (d :: jar)).
    rewrite app_assoc. change ((if blank then [32%N] else []) ++ c.1 ++ ch_eq :: c.2) with (cookiePart blank c).
    rewrite split_on_app by by apply cookiePart_free. f_equal. by apply (IH true).
Qed.

Lemma read_cookie_part rest name blank c : storable c ->
  readCookieParts (cookiePart blank c :: rest) name =
  if jeqb c.1 name then Some (trim c.2) else readCookieParts rest name.
Proof.
  intros [Hn Hv]. cbn [readCookieParts]. unfold cookiePart. rewrite app_assoc.
  set (pre := (if blank then [32%N] else []) ++ c.1).
  assert (Forall (fun u => u <> ch_eq) pre) as Hpre.
  { apply Forall_app. split; [by destruct blank; build|]. eapply Forall_impl; [exact Hn|]. by intros u (_ & _ & ?). }
  assert (trim pre = c.1) as Htrim.
  { assert (Forall (fun u => is_ws u = false) c.1) by (eapply Forall_impl; [exact Hn|]; by intros u (? & _)).
    destruct blank; [by apply trim_blank|by apply trim_id]. }
  rewrite indexOf_free by done. unfold slice.
  rewrite Nat.sub_0_r, drop_0, take_app_length, Htrim.
  replace (S (length pre)) with (length (pre ++ [ch_eq])) by (rewrite length_app; cbn; lia).
  change (ch_eq :: c.2) with ([ch_eq] ++ c.2). rewrite (app_assoc pre), drop_app_length. by destruct (jeqb c.1 name).
Qed.

(** *** The effects of the runtime *)

Lemma applyAuthBundle_local b w :
  applyAuthBundle b false w = MkWorld (setBundle b (w_auth w)) (S (authEpoch w)) (w_ctx w) (published w).
Proof. done. Qed.

Lemma clearAuthentication_local s w :
  clearAuthentication false s w =
  MkWorld (reset s (w_auth w)) (S (authEpoch w)) (resetContext (w_ctx w)) (published w).
Proof. unfold clearAuthentication. by destruct (session (w_auth w)). Qed.

(** The request failed, or the server did. *)
Definition serverFailed (s : Z) : Prop := s = 0 \/ 500 <= s \/ s = 429.

(** What a sign-out tells the other tabs. *)
Definition signOutNotice (w : World) : list (SyncKind * jstring) :=
  match session (w_auth w) with
  | Some s => if truthy (sid s) then [(k_signed_out, sid s)] else []
  | None => []
  end.

Lemma clearAuthentication_all s w :
  clearAuthentication true s w =
  MkWorld (reset s (w_auth w)) (S (authEpoch w)) (resetContext (w_ctx w)) (published w ++ signOutNotice w).
Proof.
  unfold clearAuthentication, signOutNotice, publish. destruct (session (w_auth w)) as [x|]; cbn; [|by rewrite app_nil_r].
  destruct (truthy (sid x)); [done|]. by rewrite app_nil_r.
Qed.
#[local] Hint Rewrite applyAuthBundle_local clearAuthentication_local clearAuthentication_all : cube.

Lemma run_begin_current e n allow w :
  authEpoch w = e ->
  run_begin (refreshRuntime e) n allow w = Requesting n allow (sid <$> session (w_auth w)).
Proof. intros <-. unfold run_begin. by rewrite notCurrent_refresh, Nat.eqb_refl. Qed.

Lemma responseBundle_Some e r b :
  responseBundle (refreshRuntime e) r = Some b ->
  isAuthBundle (jget (data r) (js "data")) = true /\ b = readBundle (jget (data r) (js "data")).
Proof.
  unfold responseBundle. destruct (isRecord (data r)) eqn:E.
  - destruct (jget (data r) (js "success")) as [| |[]| | | |]; try done.
    unfold refreshRuntime. cbn [parseBundle]. by destruct (isAuthBundle _); intros [= <-].
  - done.
Qed.

(** ** Properties *)

(** C1. A sign-out is not undone by the refresh that was in flight: whatever the
    server answers it, at whatever moment, and however many callers join it, the
    tab stays signed out until someone signs in or a new refresh starts. *)
Theorem signed_out_stays_out es0 t sync s es t' :
  trace initialTab es0 t ->
  let t1 := MkTab (clearAuthentication sync s (world t)) (refreshPromise t) in
  quiet (inFlight t1) es -> trace t1 es t' ->
  session (w_auth (world t')) = None /\ accessToken (w_auth (world t')) = None.
Proof.
  intros H0 t1 Hq H. pose proof (trace_ok _ _ _ H0 initialTab_ok) as [_ Hp].
  destruct (clearAuthentication_auth sync s (world t)) as (Ea & Ee & _).
  assert (superseded t1) as Hs.
  { unfold superseded, t1. cbn. rewrite Ea, Ee. split; [done|]. split; [done|].
    destruct (refreshPromise t) as [[e []]|]; [lia| |done]. destruct Hp. lia. }
  by destruct (superseded_trace _ _ _ H Hs Hq) as (? & ? & _).
Qed.

(** In every reachable state the token, its expiry and the session are there
    together or absent together, and the refresh in flight belongs to the current
    epoch or an earlier one, with an attempt left. *)
Theorem reachable_coherent es t : trace initialTab es t -> tab_ok t.
Proof. intros H. exact (trace_ok _ _ _ H initialTab_ok). Qed.

(** C3. A refresh ends: whatever the responses are and whatever the rest of the
    tab does in between, after at most eight responses a run has its outcome. *)
Theorem run_terminates {W} (rt : AuthRefreshRuntime W) w events :
  (8 <= length events)%nat -> exists o, (run rt w events).2 = Finished o.
Proof.
  intros H. unfold run. destruct (run_begin_cases rt 0 true w) as [-> | ->].
  - apply drive_finishes; [done|done|cbn; lia].
  - apply drive_finishes; cbn; [lia|done|lia].
Qed.

(** C2. What a response of a current refresh does to the tab: a valid bundle signs
    in; a 401 signs out everywhere and drops the account context; a failure of the
    network or of the server keeps the session for a later attempt; anything else
    signs this tab out without telling the others; a race waits while delays are
    left, and a mismatch is asked again, without a session id, once. *)
Theorem refresh_outcome e race allow r w :
  authEpoch w = e ->
  let w' := (run_response (refreshRuntime e) race allow r w).1 in
  let refused := responseBundle (refreshRuntime e) r = None in
  match (run_response (refreshRuntime e) race allow r w).2 with
  | Finished (Authenticated b) =>
      isAuthBundle (jget (data r) (js "data")) = true /\ b = readBundle (jget (data r) (js "data")) /\
      w' = MkWorld (setBundle b (w_auth w)) (S e) (w_ctx w) (published w)
  | Finished Anonymous =>
      refused /\ status r = 401 /\ w_auth w' = reset b_complete (w_auth w) /\
      w_ctx w' = resetContext (w_ctx w) /\
      published w' = published w ++ signOutNotice w
  | Finished (TransientError stale) =>
      refused /\ stale = false /\ serverFailed (status r) /\
      w' = updateAuth (setBootstrapState b_idle) w
  | Finished (OutOfSync _) =>
      refused /\ status r <> 401 /\ ~ serverFailed (status r) /\
      (status r = 409 -> responseCode r = Some AUTH_REFRESH_RACE -> refreshRaceDelays !! race = None) /\
      (status r = 409 -> responseCode r = Some AUTH_SESSION_MISMATCH -> allow = false) /\
      w' = MkWorld (reset b_complete (w_auth w)) (S e) (resetContext (w_ctx w)) (published w)
  | Waiting d race' allow' =>
      refused /\ status r = 409 /\ responseCode r = Some AUTH_REFRESH_RACE /\
      w' = w /\ race' = race /\ allow' = allow /\ refreshRaceDelays !! race = Some d
  | Requesting race' allow' expected =>
      refused /\ status r = 409 /\ responseCode r = Some AUTH_SESSION_MISMATCH /\
      allow = true /\ race' = 0%nat /\ allow' = false /\ expected = None /\
      w' = updateAuth (reset b_idle) w
  end.
Proof.
  intros <-. pose proof (notCurrent_refresh (authEpoch w) w) as Hn. rewrite Nat.eqb_refl in Hn.
  assert (AUTH_REFRESH_RACE <> AUTH_SESSION_MISMATCH) as Hcodes by (vm_compute; discriminate).
  run_cases; cbn [fst snd]; autorewrite with cube; reflect_bools; rewrite ?run_begin_current by done.
  all: try (by destruct (responseBundle_Some _ _ _ Heqo) as [? ->]).
  all: unfold serverFailed; rewrite ?orb_true_iff, ?andb_false_iff, ?Z.eqb_eq, ?Z.eqb_neq, ?Z.leb_le in *.
  all: repeat match goal with
              | |- _ /\ _ => split
              | |- _ -> _ => intro
              | H : _ \/ bool_decide _ = false |- _ => rewrite bool_decide_eq_false in H
              end; try done; try lia; try congruence; try by intuition congruence.
Qed.

(** A rotation of the token is accepted only for the session the tab is in: an
    error leaves the tab as it was, and a success replaces the token and the
    session, keeps the user and tells no other tab. *)
Theorem rotation_keeps_identity v w :
  let (w', err) := applyAuthRotation v w in
  match err with
  | Some _ => w' = w
  | None =>
      isAuthTokenRotation v = true /\
      user (w_auth w') = user (w_auth w) /\ user (w_auth w) <> None /\
      (sid <$> session (w_auth w')) = (sid <$> session (w_auth w)) /\
      accessToken (w_auth w') = Some (asString (jget v (js "access_token"))) /\
      published w' = published w /\ w_ctx w' = w_ctx w
  end.
Proof.
  destruct (applyAuthRotation_cases v w) as [[err ->] | (b & -> & Hv & Hu & Hs & Ht & _)]; [done|].
  cbn. rewrite Hu, Hs. split_and!; try done. by rewrite Ht.
Qed.

(** An event published by one tab reaches the listener of another exactly when
    the other is another tab and its clock is within a minute; an empty session id
    is never published. *)
Theorem sync_delivery source nonce now kind s source' now' :
  match publishAuthSessionEvent source nonce now kind s with
  | None => s = []
  | Some e =>
      s <> [] /\
      (deliver source' now' (eventValue e) = true <-> source <> source' /\ Z.abs (now' - now) < 60000)
  end.
Proof.
  unfold publishAuthSessionEvent. destruct (truthy s) eqn:Hs; cbn [negb].
  - split; [by apply truthy_true|].
    assert (isAuthSessionSyncEvent (eventValue (MkSyncEvent kind s source nonce now)) = true) as Hv.
    { destruct s; [done|]. by destruct kind. }
    unfold deliver. rewrite Hv. cbn [andb].
    change (asString (jget (eventValue (MkSyncEvent kind s source nonce now)) (js "source"))) with source.
    change (asNum (jget (eventValue (MkSyncEvent kind s source nonce now)) (js "timestamp"))) with (num_of_Z now).
    unfold within_minute. rewrite !num_ltb_Z, !andb_true_iff, negb_true_iff, jeqb_neq, !Z.ltb_lt.
    assert (now' - 60000 < now /\ now < now' + 60000 <-> Z.abs (now' - now) < 60000) by lia. tauto.
  - by apply truthy_false.
Qed.

(** Reading a cookie finds the first cookie of that name in the jar the browser
    serialized, so the hint is seen exactly when the server's cookie is there. *)
Theorem readCookie_jar jar name :
  Forall storable jar ->
  readCookie (cookieHeader jar) name = trim <$> assoc name jar /\
  (hasSessionHint (Some (cookieHeader jar)) = true <-> In SESSION_HINT_COOKIE_NAME (map fst jar)).
Proof.
  intros H.
  assert (forall n, readCookie (cookieHeader jar) n = trim <$> assoc n jar) as R.
  { intros n. unfold readCookie. destruct H as [|c jar Hc Hjar]; [done|].
    pose proof (split_cookies jar Hjar false c Hc) as E. cbn [app] in E.
    rewrite E, read_cookie_part by done. clear E. cbn [assoc].
    rewrite (surjective_pairing c). cbn [fst snd]. destruct (jeqb c.1 n); [done|].
    clear Hc. induction Hjar as [|d jar Hd Hjar IH]; [done|]. cbn [map].
    rewrite read_cookie_part by done. cbn [assoc]. rewrite (surjective_pairing d). cbn [fst snd].
    by destruct (jeqb d.1 n). }
  split; [apply R|]. unfold hasSessionHint. rewrite R. clear.
  induction jar as [|[n v] jar IH]; [done|]. cbn [assoc map fst In].
  destruct (jeqb n SESSION_HINT_COOKIE_NAME) eqn:E.
  - apply jeqb_eq in E. split; [by left|done].
  - apply jeqb_neq in E. rewrite IH. split; [by right|by intros [|]].
Qed.

(** Without the hint the public boot path sends nothing and records nothing, so
    the next page that needs to know still asks the server. *)
Theorem bootstrap_without_hint locks now cookie t :
  hasSessionHint cookie = false -> user (w_auth (world t)) = None -> session (w_auth (world t)) = None ->
  bootstrapState (w_auth (world t)) <> b_complete ->
  bootstrapAuthentication locks now cookie t = (t, Some Anonymous) /\
  exists t', resolveAuthentication locks now t = (t', None) /\ inFlight t' = true /\
    bootstrapState (w_auth (world t')) = b_checking.
Proof.
  intros Hh Hu Hs Hb. unfold bootstrapAuthentication, resolveAuthentication, currentValidAuthBundle.
  rewrite Hh, Hu, Hs. split; [done|]. rewrite bool_decide_eq_false_2 by done. cbn. eexists. split; [done|].
  unfold refreshAuthentication, inFlight. cbn. by destruct (refreshPromise t) as [[]|].
Qed.

(** The recovery of a session mismatch signs in whoever the server names, and
    leaves the account context of the user before in place: its headers go out
    with the new user's requests. *)
Theorem mismatch_keeps_account_context e r1 r2 w b :
  authEpoch w = e ->
  status r1 = 409 -> responseCode r1 = Some AUTH_SESSION_MISMATCH ->
  responseBundle (refreshRuntime e) r1 = None -> responseBundle (refreshRuntime e) r2 = Some b ->
  let out := run (refreshRuntime e) w [MkRunEvent id r1 id; MkRunEvent id r2 id] in
  out.2 = Finished (Authenticated b) /\ user (w_auth out.1) = Some (b_user b) /\
  getAccountContextHeaders (w_ctx out.1) = getAccountContextHeaders (w_ctx w).
Proof.
  intros He Hst Hc H1 H2 out.
  assert (out = (applyAuthBundle b false (updateAuth (reset b_idle) w), Finished (Authenticated b))) as ->;
    [|done].
  pose proof (notCurrent_refresh e w) as Hn. rewrite He, Nat.eqb_refl in Hn.
  unfold out, run. rewrite run_begin_current by done. cbn [drive the_response before_response id].
  unfold run_response at 1. rewrite Hn, H1, Hst, Hc. cbn [negb].
  rewrite Z.eqb_refl, bool_decide_eq_false_2, bool_decide_eq_true_2 by done. cbn [andb].
  autorewrite with cube. rewrite run_begin_current by done. cbn [drive the_response before_response id].
  unfold run_response. rewrite notCurrent_refresh, H2. cbn. subst e. by rewrite Nat.eqb_refl.
Qed.

(** ** Witnesses *)

Definition aliceBundleValue (token : string) : jsval :=
  JObj [(js "access_token", JStr (js token)); (js "token_type", JStr (js "Bearer"));
        (js "access_expires_at", JNum (num_of_Z 1700000900));
        (js "user", JObj [(js "id", JNum (num_of_Z 7)); (js "username", JStr (js "alice")); (js "role", JNum (num_of_Z 1))]);
        (js "session", JObj [(js "sid", JStr (js "s-1")); (js "current", JBool true);
           (js "login_method", JStr (js "password")); (js "ip", JStr (js "127.0.0.1")); (js "user_agent", JStr []);
           (js "created_at", JNum (num_of_Z 1)); (js "last_active_at", JNum (num_of_Z 2)); (js "expires_at", JNum (num_of_Z 3))])].

Definition aliceBundle : AuthBundle := readBundle (aliceBundleValue "tok").
Definition okResponse : AuthRefreshHTTPResponse :=
  MkResponse 200 (JObj [(js "success", JBool true); (js "data", aliceBundleValue "tok2")]).
Definition mismatchResponse : AuthRefreshHTTPResponse :=
  MkResponse 409 (JObj [(js "code", JStr AUTH_SESSION_MISMATCH)]).
Definition raceResponse : AuthRefreshHTTPResponse :=
  MkResponse 409 (JObj [(js "code", JStr AUTH_REFRESH_RACE)]).

(** Alice signs in, a refresh starts, she signs out, the answer of the refresh
    arrives with a valid bundle. *)
Definition signedInTab : Tab := MkTab (applyAuthBundle aliceBundle true (world initialTab)) None.
Definition refreshingTab : Tab := refreshAuthentication false signedInTab.

Lemma trace_refreshing : trace initialTab [EApply aliceBundle true; ERefresh false] refreshingTab.
Proof. eapply trace_cons; [constructor|]. eapply trace_cons; [constructor|]. constructor. Qed.

Lemma signed_out_stays_out_witness :
  exists t', trace (MkTab (clearAuthentication true b_complete (world refreshingTab)) (refreshPromise refreshingTab))
               [EResponse okResponse; ESettled] t' /\
    session (w_auth (world t')) = None /\ accessToken (w_auth (world t')) = None.
Proof.
  assert (trace (MkTab (clearAuthentication true b_complete (world refreshingTab)) (refreshPromise refreshingTab))
            [EResponse okResponse; ESettled]
            (MkTab (clearAuthentication true b_complete (world refreshingTab)) None)) as H.
  { eapply trace_cons; [apply step_response|]. eapply trace_cons; [apply step_settled|]. constructor. }
  eexists. split; [exact H|].
  refine (signed_out_stays_out _ refreshingTab true b_complete _ _ trace_refreshing _ H). done.
Defined.

Lemma reachable_coherent_witness : tab_ok refreshingTab.
Proof. exact (reachable_coherent _ _ trace_refreshing). Defined.

(** Seven responses are not enough. *)
Definition stubborn : list (RunEvent (W := World)) :=
  [MkRunEvent id raceResponse id; MkRunEvent id raceResponse id; MkRunEvent id raceResponse id;
   MkRunEvent id mismatchResponse id;
   MkRunEvent id raceResponse id; MkRunEvent id raceResponse id; MkRunEvent id raceResponse id].

Lemma run_terminates_witness :
  (run (refreshRuntime 1) (world signedInTab) stubborn).2 = Requesting 3 false None /\
  exists o, (run (refreshRuntime 1) (world signedInTab) (stubborn ++ [MkRunEvent id raceResponse id])).2 = Finished o.
Proof. split; [vm_compute; reflexivity|]. apply (run_terminates (refreshRuntime 1)). cbn. lia. Defined.

Lemma refresh_outcome_witness :
  session (w_auth (run_response (refreshRuntime 1) 0 true (MkResponse 503 JUndefined) (world signedInTab)).1)
  = Some (b_session aliceBundle).
Proof.
  destruct (refresh_outcome 1 0 true (MkResponse 503 JUndefined) (world signedInTab) eq_refl) as (_ & _ & _ & ->).
  reflexivity.
Defined.

Lemma readCookie_jar_witness :
  readCookie (js "theme=dark; new_api_has_session=1") SESSION_HINT_COOKIE_NAME = Some (js "1").
Proof.
  exact (proj1 (readCookie_jar [(js "theme", js "dark"); (SESSION_HINT_COOKIE_NAME, js "1")]
                  SESSION_HINT_COOKIE_NAME ltac:(repeat constructor; vm_compute; done))).
Defined.

Lemma bootstrap_without_hint_witness :
  bootstrapAuthentication true 1700000000 (Some (js "theme=dark")) initialTab = (initialTab, Some Anonymous).
Proof.
  exact (proj1 (bootstrap_without_hint true 1700000000 (Some (js "theme=dark")) initialTab
                  eq_refl eq_refl eq_refl ltac:(done))).
Defined.

(** A tab that works in organization 3. *)
Definition organizationWorld : World :=
  MkWorld (setBundle aliceBundle initialAuth) 1
    (setCurrent (Some (MkContext ORGANIZATION 3 (js "org") None None None None None)) initialAccountContext) [].

Lemma mismatch_keeps_account_context_witness :
  getAccountContextHeaders
    (w_ctx (run (refreshRuntime 1) organizationWorld
              [MkRunEvent id mismatchResponse id; MkRunEvent id okResponse id]).1) =
  [(js "X-Account-Context-Type", js "organization"); (js "X-Account-Context-Id", js "3")].
Proof.
  refine (eq_trans (proj2 (proj2 (mismatch_keeps_account_context 1 mismatchResponse okResponse organizationWorld
    (readBundle (aliceBundleValue "tok2")) eq_refl eq_refl _ _ _))) _); vm_compute; reflexivity.
Defined.
