(* ===== verification/HttpClient.v ===== *)
(** * The HTTP client of the dashboard (web/src/lib/http-client.ts,
      server-error-message.ts, base-path.ts)

    One client sends every request: it adds the token and the account context,
    shares the GET requests in flight, recovers once from an expired session, and
    turns failures into messages.  The asynchronous parts are cut at their
    [await]s, as in [AuthSession]. *)

From S2P Require Import Prelude JsValue AccountContext AuthSession.

(** ** The deployment prefix (base-path.ts) *)

Definition is_slash (c : N) : bool := (c =? ch_slash)%N.

(** [raw.replaceAll(/^\/+|\/+$/g, '')]: the slashes of both ends; [None] is a value
    that is not a string. *)
Definition normalizeBasePath (raw : option jstring) : jstring :=
  match raw with
  | None => []
  | Some raw =>
      let trimmed := rev (drop_while is_slash (rev (drop_while is_slash raw))) in
      if jeqb trimmed [] then [] else ch_slash :: trimmed
  end.

(** [basePath]: what the server injected, else what the build compiled in. *)
Definition basePath_of (injected compiledBasePath : option jstring) : jstring :=
  normalizeBasePath (match injected with Some s => Some s | None => compiledBasePath end).

Definition is_letter (c : N) : bool :=
  ((65 <=? c) && (c <=? 90) || (97 <=? c) && (c <=? 122))%N.

(** [a-z0-9+.-], ignoring case *)
Definition is_scheme_unit (c : N) : bool :=
  is_letter c || is_digit c || (c =? 43)%N || (c =? 46)%N || (c =? ch_dash)%N.

(** [absoluteUrlPattern.test(path)] *)
Definition absoluteUrlPattern (path : jstring) : bool :=
  match path with
  | c :: rest =>
      is_letter c && startsWith (drop_while is_scheme_unit rest) [ch_colon] ||
      startsWith path [ch_slash; ch_slash]
  | [] => false
  end.

Definition withBasePath (basePath path : jstring) : jstring :=
  if jeqb basePath [] || jeqb path [] then path
  else if absoluteUrlPattern path then path
  else basePath ++ (if startsWith path [ch_slash] then [] else [ch_slash]) ++ path.

(** ** Errors of the server (server-error-message.ts) *)

Definition serverErrorMessageKeys : list (jstring * jstring) :=
  [
    (js "AUTH_SESSION_LIMIT",
     js "Too many active login sessions. On a device where you are already signed in, open Login sessions and use " ++ [8220%N] ++ js "Sign out other sessions" ++ [8221%N] ++ js " to revoke them. If you cannot access a signed-in device, reset your password to sign out all sessions.");
    (js "AUTH_SESSION_ISSUANCE_LIMIT",
     js "Too many login sessions were created recently. Please wait for the rolling window to pass, then try again.");
    (js "TELEGRAM_BIND_DISABLED",
     js "Telegram binding is disabled.");
    (js "TELEGRAM_BIND_INVALID_REQUEST",
     js "The Telegram authorization request is invalid or expired.");
    (js "TELEGRAM_BIND_FLOW_INVALID",
     js "This Telegram binding request has expired or has already been used.");
    (js "TELEGRAM_BIND_SESSION_INVALID",
     js "The login session that started this Telegram binding is no longer valid.");
    (js "TELEGRAM_BIND_ALREADY_BOUND",
     js "This Telegram account is already bound.");
    (js "TELEGRAM_BIND_USER_DELETED",
     js "This user account no longer exists.");
    (js "TELEGRAM_BIND_USER_DISABLED",
     js "This user account is disabled.");
    (js "TELEGRAM_BIND_INTERNAL_ERROR",
     js "Telegram binding failed. Please try again.");
    (js "organization_context_mismatch",
     js "Your account context changed. Reload the page and try again.");
    (js "organization_access_denied",
     js "You do not have permission to perform this action in this organization.");
    (js "organization_disabled",
     js "This organization is disabled. Contact a platform administrator.");
    (js "organization_dissolved",
     js "This organization has been dissolved and can no longer be used.");
    (js "organization_limit_exceeded",
     js "You have reached the maximum number of organizations you can create or join.");
    (js "organization_name_conflict",
     js "An organization with this name already exists.");
    (js "insufficient_organization_quota",
     js "The organization does not have enough quota for this request.");
    (js "insufficient_organization_member_quota",
     js "This member has reached their quota limit in this organization.");
    (js "organization_idempotency_conflict",
     js "This request conflicts with an earlier one. Reload and try again.");
    (js "organization_idempotency_key_required",
     js "This action requires an idempotency key.");
    (js "organization_confirmation_mismatch",
     js "The confirmation text does not match. Enter the exact organization name.");
    (js "organization_billing_session_conflict",
     js "The organization is settling another request. Try again in a moment.");
    (js "organization_member_operation_forbidden",
     js "That member operation is not allowed for this organization.");
    (js "organization_operation_blocked",
     js "This operation is blocked. Resolve the listed blockers and try again.");
    (js "organization_invite_unavailable",
     js "This invitation is no longer available. Ask an administrator for a new one.");
    (js "organization_invite_delivery_failed",
     js "The invitation email could not be delivered.");
    (js "organization_invite_delivery_in_progress",
     js "The invitation is still being delivered. Try again shortly.");
    (js "organization_invite_recipient_rejected",
     js "The mail server rejected the invitation recipient.");
    (js "organization_invite_already_sent",
     js "An invitation for this email address is already pending.");
    (js "organization_join_rule_invalid",
     js "Some lines of the join rules are not usable. Fix the flagged lines and submit again.");
    (js "organization_join_rule_email_verification_disabled",
     js "Email verification is disabled, so join rules cannot take effect. A platform administrator has to enable it first.");
    (js "organization_token_responsible_member_disabled",
     js "The member responsible for this key is disabled.");
    (js "organization_token_responsible_user_disabled",
     js "The user responsible for this key is disabled.");
    (js "organization_token_enable_forbidden",
     js "This key cannot be enabled while a blocker is active.")
  ].

Definition serverErrorPayload (value : jsval) : option jsval :=
  if negb (isRecord value) then None
  else let response := jget value (js "response") in
       if isRecord response && isRecord (jget response (js "data")) then Some (jget response (js "data"))
       else Some value.

Definition getServerErrorPayload (value : jsval) : option jsval := serverErrorPayload value.

Inductive MessageKey := OwnKey (key : jstring) | Inherited (member : jstring).

Definition getServerErrorMessageKey (value : jsval) : option MessageKey :=
  match serverErrorPayload value with
  | None => None
  | Some payload =>
      match jget payload (js "code") with
      | JStr code =>
          match assoc code serverErrorMessageKeys with
          | Some key => Some (OwnKey key)
          | None => if bool_decide (code ∈ inheritedMembers) then Some (Inherited code) else None
          end
      | _ => None
      end
  end.

Definition getServerErrorCode (value : jsval) : option jstring :=
  match serverErrorPayload value with
  | None => None
  | Some payload =>
      match jget payload (js "code") with
      | JStr code => if truthy code then Some code else None
      | _ => None
      end
  end.

(** ** Requests *)

Record ApiRequestConfig := MkConfig {
  url : option jstring;
  params : option jsval;
  headers : list (jstring * jstring);
  skipBusinessError : bool;
  skipErrorHandler : bool;
  disableDuplicate : bool;
  skipAuthRefresh : bool;
  authRetry : bool;
  acceptAuthRotation : bool;
  skipAccountContext : bool
}.

Definition withHeaders (h : list (jstring * jstring)) (c : ApiRequestConfig) : ApiRequestConfig :=
  MkConfig (url c) (params c) h (skipBusinessError c) (skipErrorHandler c) (disableDuplicate c)
    (skipAuthRefresh c) (authRetry c) (acceptAuthRotation c) (skipAccountContext c).

Definition withAuthRetry (c : ApiRequestConfig) : ApiRequestConfig :=
  MkConfig (url c) (params c) (headers c) (skipBusinessError c) (skipErrorHandler c) (disableDuplicate c)
    (skipAuthRefresh c) true (acceptAuthRotation c) (skipAccountContext c).

(** [headers[name] = value]: in its place when the name is there. *)
Fixpoint setHeader (name value : jstring) (h : list (jstring * jstring)) : list (jstring * jstring) :=
  match h with
  | [] => [(name, value)]
  | (n, v) :: h' => if jeqb n name then (n, value) :: h' else (n, v) :: setHeader name value h'
  end.

Definition setHeaders (new h : list (jstring * jstring)) : list (jstring * jstring) :=
  foldl (fun h nv => setHeader nv.1 nv.2 h) h new.

Definition Authorization : jstring := js "Authorization".
Definition bearer (token : jstring) : jstring := js "Bearer " ++ token.

(** What the code does besides changing the stores. *)
Inductive Message :=
| Translated (key : jstring)        (* t(key) *)
| TranslatedMember (member : jstring) (* t of an inherited member: not a key *)
| Raw (v : jsval).

Inductive Effect :=
| Sent (c : ApiRequestConfig)
| Toast (m : Message)
| Replace (path : jstring).

Definition messageOfKey (k : MessageKey) : Message :=
  match k with OwnKey k => Translated k | Inherited m => TranslatedMember m end.

(** *** The requests in flight *)

Section Dedupe.
(** [JSON.stringify] of the parameters. *)
Context (stringify : jsval -> jstring).

Definition paramsText (p : option jsval) : jstring :=
  match p with Some p => if jtruthy p then stringify p else js "{}" | None => js "{}" end.

Definition sessionSID (w : World) : jstring := ojor (sid <$> session (w_auth w)) (js "anonymous").

Definition dedupeKey (w : World) (u : jstring) (p : option jsval) : jstring :=
  let accountContextKey := getAccountContextCacheKey (w_ctx w) in
  sessionSID w ++ ch_colon :: accountContextKey ++ ch_colon :: u ++ 63%N :: paramsText p.

(** The requests issued so far, with the key they were issued for ([None]: not
    shared) and whether they are settled; [inFlightGet] maps keys to them. *)
Record GetState := MkGet {
  inFlightGet : gmap jstring nat;
  issued : list (option jstring * bool)
}.

Definition initialGet : GetState := MkGet ∅ [].

(** [api.get]: the request the caller gets. *)
Definition get (w : World) (u : jstring) (c : ApiRequestConfig) (s : GetState) : GetState * nat :=
  if disableDuplicate c
  then (MkGet (inFlightGet s) (issued s ++ [(None, false)]), length (issued s))
  else
    let key := dedupeKey w u (params c) in
    match inFlightGet s !! key with
    | Some existingRequest => (s, existingRequest)
    | None =>
        let request := length (issued s) in
        (MkGet (<[key := request]> (inFlightGet s)) (issued s ++ [(Some key, false)]), request)
    end.

(** A request settles, and its [finally] runs. *)
Definition settle (request : nat) (s : GetState) : GetState :=
  match issued s !! request with
  | Some (Some key, false) =>
      MkGet (delete key (inFlightGet s)) (<[request := (Some key, true)]> (issued s))
  | Some (None, false) => MkGet (inFlightGet s) (<[request := (None, true)]> (issued s))
  | _ => s
  end.

Inductive get_step : GetState -> GetState -> Prop :=
| step_get w u c s : get_step s (get w u c s).1
| step_settle request s : get_step s (settle request s).

Inductive get_reachable : GetState -> Prop :=
| get_init : get_reachable initialGet
| get_next s s' : get_reachable s -> get_step s s' -> get_reachable s'.
End Dedupe.

(** *** The request interceptor *)

Definition isPlatformAdminRequest (u : option jstring) : bool :=
  match u with Some u => startsWith u (js "/api/admin") | None => false end.

Definition requestInterceptor (w : World) (c : ApiRequestConfig) : ApiRequestConfig :=
  let h := match accessToken (w_auth w) with
           | Some t => if truthy t then setHeader Authorization (bearer t) (headers c) else headers c
           | None => headers c
           end in
  if negb (skipAccountContext c) && negb (isPlatformAdminRequest (url c))
  then withHeaders (setHeaders (getAccountContextHeaders (w_ctx w)) h) c
  else withHeaders h c.

(** *** The response interceptors

    The location of the page and the deployment prefix; [None]: no window. *)
Record Page := MkPage { pathname : option jstring; page_basePath : jstring }.

Definition redirectToSignIn (p : Page) : list Effect :=
  match pathname p with
  | None => []
  | Some path =>
      let signInPath := withBasePath (page_basePath p) (js "/sign-in") in
      if negb (jeqb path signInPath) then [Replace signInPath] else []
  end.

(** What the caller of a request gets: the response, an error of the server or
    the network, or the error of a rotation. *)
Inductive Settled := Resolved (body : jsval) | Rejected (error : jsval) | RotationFailed (e : RotationError).

Definition onResponse (c : ApiRequestConfig) (body : jsval) (w : World)
    : World * list Effect * Settled :=
  let success := jget body (js "success") in
  let '(w, err) := match success with
                   | JBool true => if acceptAuthRotation c then applyAuthRotation (jget body (js "data")) w else (w, None)
                   | _ => (w, None)
                   end in
  match err with
  | Some e => (w, [], RotationFailed e)
  | None =>
      let toasts :=
        match success with
        | JBool false =>
            if skipBusinessError c then []
            else match getServerErrorMessageKey body with
                 | Some k => [Toast (messageOfKey k)]
                 | None =>
                     let m := jget body (js "message") in
                     [Toast (if jtruthy m then Raw m else Translated (js "Request failed"))]
                 end
        | _ => []
        end in
      (w, toasts, Resolved body)
  end.

Definition SessionExpired : Effect := Toast (Translated (js "Session expired!")).

(** [error?.response?.status === 401] *)
Definition is401 (error : jsval) : bool :=
  match jget (jget error (js "response")) (js "status") with
  | JNum (Fin q) => Qeq_bool q (inject_Z 401)
  | _ => false
  end.

Definition toastUnless (c : option ApiRequestConfig) (e : Effect) : list Effect :=
  match c with Some c => if skipErrorHandler c then [] else [e] | None => [e] end.

(** The message of an error that is not a 401. *)
Definition errorMessage (error : jsval) : Message :=
  match getServerErrorMessageKey error with
  | Some k => messageOfKey k
  | None =>
      let m := jget (jget (jget error (js "response")) (js "data")) (js "message") in
      let m' := jget error (js "message") in
      if jtruthy m then Raw m else if jtruthy m' then Raw m' else Translated (js "Request failed")
  end.

(** The error interceptor up to its [await]: [inl] is the config it retries when
    the refresh succeeds; [inr] the error is thrown again. *)
Definition onError_begin (p : Page) (c : option ApiRequestConfig) (error : jsval) (w : World)
    : World * list Effect * (ApiRequestConfig + unit) :=
  if is401 error then
    match c with
    | Some c' =>
        if negb (skipAuthRefresh c') && negb (authRetry c') then (w, [], inl (withAuthRetry c'))
        else if authRetry c' then
          (clearAuthentication false b_complete w, toastUnless c SessionExpired ++ redirectToSignIn p, inr tt)
        else (w, toastUnless c SessionExpired, inr tt)
    | None => (w, toastUnless c SessionExpired, inr tt)
    end
  else
    match toastUnless c (Toast (errorMessage error)) with
    | [] => (w, [], inr tt)
    | toasts =>
        (if bool_decide (getServerErrorCode error = Some (js "organization_context_mismatch"))
         then MkWorld (w_auth w) (authEpoch w) (setCurrent None (w_ctx w)) (published w) else w,
         toasts, inr tt)
    end.

(** After the refresh. *)
Definition onError_end (p : Page) (c : ApiRequestConfig) (outcome : RefreshOutcome) (w : World)
    : list Effect * (ApiRequestConfig + unit) :=
  match outcome with
  | Authenticated _ =>
      ([], inl (match accessToken (w_auth w) with
                | Some t => if truthy t then withHeaders (setHeader Authorization (bearer t) (headers c)) c else c
                | None => c
                end))
  | Anonymous | OutOfSync _ => (toastUnless (Some c) SessionExpired ++ redirectToSignIn p, inr tt)
  | TransientError _ => ([], inr tt)
  end.

(** *** A request, with its retry

    One attempt: what the server answers ([inl] a failure), the state when the
    answer is there, and the refresh with the state it ends in.  The requests of
    an attempt carry the config the interceptors see. *)
Record Attempt := MkAttempt {
  answer : jsval + jsval;
  when_answered : World -> World;
  refreshed : RefreshOutcome;
  when_refreshed : World -> World
}.

(** [None]: still waiting for the server when the attempts run out. *)
Fixpoint request (p : Page) (attempts : list Attempt) (c : ApiRequestConfig) (w : World)
    : World * list Effect * option Settled :=
  let c := requestInterceptor w c in
  match attempts with
  | [] => (w, [Sent c], None)
  | a :: rest =>
      let w := when_answered a w in
      match answer a with
      | inr body =>
          let '(w, effects, settled) := onResponse c body w in (w, Sent c :: effects, Some settled)
      | inl failure =>
          let '(w, effects, next) := onError_begin p (Some c) failure w in
          match next with
          | inr _ => (w, Sent c :: effects, Some (Rejected failure))
          | inl c' =>
              let w := when_refreshed a w in
              let '(effects', next') := onError_end p c' (refreshed a) w in
              match next' with
              | inr _ => (w, Sent c :: effects ++ effects', Some (Rejected failure))
              | inl c'' =>
                  let '(w, effects'', settled) := request p rest c'' w in
                  (w, Sent c :: effects ++ effects' ++ effects'', settled)
              end
          end
      end
  end.

(** ** Lemmas *)

(** *** Keys *)

(** The context part of a key and the rest of it are determined by the key. *)
Lemma context_key_prefix st1 st2 x y :
  getAccountContextCacheKey st1 ++ ch_colon :: x = getAccountContextCacheKey st2 ++ ch_colon :: y ->
  getAccountContextCacheKey st1 = getAccountContextCacheKey st2 /\ x = y.
Proof.
  unfold getAccountContextCacheKey.
  destruct (isOrganization (current st1)) as [c|], (isOrganization (current st2)) as [d|]; try done.
  - rewrite <- !app_assoc. intros H%app_inv_head. cbn [app] in H. injection H as H.
    apply app_sep_inj in H as [-> ->]; [done| |]; by apply dec_of_Z_free.
  - intros H%app_inv_head. by injection H as ->.
Qed.

(** *** Shared requests *)

(** The map holds exactly the shared requests that are not settled. *)
Definition get_ok (s : GetState) : Prop :=
  forall key r, inFlightGet s !! key = Some r <-> issued s !! r = Some (Some key, false).

Lemma lookup_snoc_iff {A} (l : list A) x i y :
  (l ++ [x]) !! i = Some y <-> l !! i = Some y \/ i = length l /\ x = y.
Proof.
  rewrite lookup_snoc_Some. split; [tauto|]. intros [H|]; [|by right].
  left. split; [by eapply lookup_lt_Some|done].
Qed.

Lemma get_ok_get stringify w u c s : get_ok s -> get_ok (get stringify w u c s).1.
Proof.
  intros H. unfold get. destruct (disableDuplicate c).
  - intros key r. cbn. rewrite (H key r), lookup_snoc_iff. split; [by left|]. by intros [? | [_ ?]].
  - set (k := dedupeKey stringify w u (params c)). destruct (inFlightGet s !! k) as [r|] eqn:E; [done|].
    intros key r. cbn. rewrite lookup_insert_Some, (H key r), lookup_snoc_iff. split.
    + intros [[<- <-] | [_ ?]]; [by right|by left].
    + intros [Hr | [-> [= <-]]]; [|by left]. right. split; [|done].
      intros <-. apply H in Hr. by rewrite Hr in E.
Qed.

Lemma get_ok_settle r s : get_ok s -> get_ok (settle r s).
Proof.
  intros H. unfold settle. destruct (issued s !! r) as [[[k|] []]|] eqn:E; try done; intros key r'; cbn.
  - rewrite lookup_delete_Some, (H key r'), list_lookup_insert_Some. split.
    + intros [Hk Hr]. right. split; [|done]. intros <-. rewrite E in Hr. by injection Hr as ->.
    + intros [(_ & [=] & _) | [Hr Hr']]. split; [|done]. intros <-.
      apply H in Hr', E. by rewrite Hr' in E; injection E.
  - rewrite (H key r'), list_lookup_insert_Some. split.
    + intros Hr. right. split; [|done]. intros <-. by rewrite E in Hr.
    + by intros [(_ & [=] & _) | [_ ?]].
Qed.

Lemma get_reachable_ok stringify s : get_reachable stringify s -> get_ok s.
Proof.
  induction 1 as [|s s' _ IH Hstep]; [by intros key r; cbn; rewrite lookup_empty, lookup_nil|].
  destruct Hstep; auto using get_ok_get, get_ok_settle.
Qed.

(** *** Headers *)

Lemma assoc_setHeader n v h m : assoc m (setHeader n v h) = if jeqb n m then Some v else assoc m h.
Proof.
  induction h as [|[n' v'] h IH]; cbn; [done|]. destruct (jeqb n' n) eqn:E; cbn.
  - apply jeqb_eq in E as ->. by destruct (jeqb n m).
  - rewrite IH. destruct (jeqb n' m) eqn:E1, (jeqb n m) eqn:E2; try done.
    apply jeqb_eq in E1 as ->. apply jeqb_eq in E2 as ->. by rewrite jeqb_refl in E.
Qed.

Definition contextHeaderNames : list jstring := [ACCOUNT_CONTEXT_TYPE_HEADER; ACCOUNT_CONTEXT_ID_HEADER].

(** A header that is not one of the context is what the token step left. *)
Lemma assoc_context_headers st h n :
  n ∉ contextHeaderNames -> assoc n (setHeaders (getAccountContextHeaders st) h) = assoc n h.
Proof.
  intros Hn. unfold getAccountContextHeaders. destruct (isOrganization (current st)); [|done].
  unfold setHeaders. cbn [foldl fst snd]. rewrite !assoc_setHeader.
  rewrite (proj2 (jeqb_neq _ n)), (proj2 (jeqb_neq _ n)); [done| |]; intros <-; apply Hn; set_solver.
Qed.

Lemma intercepted_token w c token :
  accessToken (w_auth w) = Some token -> token <> [] ->
  assoc Authorization (headers (requestInterceptor w c)) = Some (bearer token).
Proof.
  intros Ht Hne. unfold requestInterceptor. rewrite Ht, (proj2 (truthy_true token) Hne).
  case_match; cbn [headers withHeaders].
  - rewrite assoc_context_headers, assoc_setHeader, jeqb_refl; [done|]. by apply (bool_decide_eq_true_1 _).
  - by rewrite assoc_setHeader, jeqb_refl.
Qed.

Lemma intercepted_fields w c :
  url (requestInterceptor w c) = url c /\ params (requestInterceptor w c) = params c /\
  skipErrorHandler (requestInterceptor w c) = skipErrorHandler c /\
  skipAuthRefresh (requestInterceptor w c) = skipAuthRefresh c /\
  authRetry (requestInterceptor w c) = authRetry c.
Proof. unfold requestInterceptor. by case_match. Qed.

(** *** What the interceptors emit *)

Definition isSent (e : Effect) : bool := match e with Sent _ => true | _ => false end.
Definition sentCount (l : list Effect) : nat := length (List.filter isSent l).

Lemma sentCount_app l k : sentCount (l ++ k) = (sentCount l + sentCount k)%nat.
Proof. unfold sentCount. by rewrite List.filter_app, length_app. Qed.

(** Toasts, and a redirect to a page that is not the present one. *)
Definition harmless (p : Page) (e : Effect) : Prop :=
  match e with
  | Sent _ => False
  | Toast _ => True
  | Replace path => path = withBasePath (page_basePath p) (js "/sign-in") /\
                    exists here, pathname p = Some here /\ here <> path
  end.

Lemma harmless_count p l : Forall (harmless p) l -> sentCount l = 0%nat.
Proof. unfold sentCount. induction 1 as [|e l He _ IH]; [done|]. by destruct e. Qed.

Lemma harmless_redirect p : Forall (harmless p) (redirectToSignIn p).
Proof.
  unfold redirectToSignIn. destruct (pathname p) as [here|] eqn:E; [|done].
  destruct (jeqb here _) eqn:E'; [done|]. apply jeqb_neq in E'. cbn. constructor; [|done].
  split; [done|]. by exists here.
Qed.

Lemma harmless_toast p c m : Forall (harmless p) (toastUnless c (Toast m)).
Proof. destruct c as [c|]; cbn; [destruct (skipErrorHandler c)|]; by repeat constructor. Qed.
#[local] Hint Resolve harmless_redirect harmless_toast Forall_app_2 : cube.

Lemma harmless_response p c body w : Forall (harmless p) (onResponse c body w).1.2.
Proof.
  unfold onResponse.
  match goal with |- context [let '(_, _) := ?x in _] => destruct x as [w' [err|]] end; [done|]. cbn.
  destruct (jget body (js "success")) as [| |[]| | | |]; try done. destruct (skipBusinessError c); [done|].
  destruct (getServerErrorMessageKey body); by repeat constructor.
Qed.

Lemma harmless_begin p c failure w : Forall (harmless p) (onError_begin p c failure w).1.2.
Proof.
  unfold onError_begin, SessionExpired. destruct (is401 failure).
  - destruct c as [c|]; [|apply (harmless_toast p None)].
    destruct (negb (skipAuthRefresh c) && negb (authRetry c)); [done|].
    destruct (authRetry c); cbn [fst snd]; eauto with cube.
  - pose proof (harmless_toast p c (errorMessage failure)) as H. by destruct (toastUnless _ _).
Qed.

Lemma harmless_end p c o w : Forall (harmless p) (onError_end p c o w).1.
Proof. unfold onError_end, SessionExpired. destruct o; cbn [fst]; eauto with cube. Qed.

(** A request that may be sent again: it does not opt out of the refresh, and is no retry itself. *)
Definition mayRetry (c : ApiRequestConfig) : bool := negb (skipAuthRefresh c) && negb (authRetry c).

(** A retry is marked, and only a request that may be retried is. *)
Lemma begin_retries p c failure w c' :
  (onError_begin p (Some c) failure w).2 = inl c' ->
  is401 failure = true /\ mayRetry c = true /\ mayRetry c' = false.
Proof.
  unfold onError_begin, mayRetry. destruct (is401 failure); [|by destruct (toastUnless _ _)].
  destruct (skipAuthRefresh c) eqn:E1, (authRetry c) eqn:E; cbn; try done. intros [= <-]. by rewrite andb_false_r.
Qed.

Lemma end_retries p c o w c' : (onError_end p c o w).2 = inl c' ->
  mayRetry c' = mayRetry c /\ exists b, o = Authenticated b.
Proof. destruct o; cbn; try done. intros H. split; [|by eexists]. revert H. repeat case_match; by intros [= <-]. Qed.

Lemma intercepted_retry w c : mayRetry (requestInterceptor w c) = mayRetry c.
Proof. unfold requestInterceptor. by case_match. Qed.

(** What a request may do with a budget of requests left. *)
Definition within (p : Page) (budget : nat) (effects : list Effect) : Prop :=
  (sentCount effects <= budget)%nat /\ Forall (fun e => isSent e = true \/ harmless p e) effects.

Lemma within_harmless p n l : Forall (harmless p) l -> within p n l.
Proof.
  intros H. split; [rewrite (harmless_count p l H); lia|].
  eapply Forall_impl; [exact H|]. by right.
Qed.

Lemma within_app p n m l k : within p n l -> within p m k -> within p (n + m) (l ++ k).
Proof.
  intros [Hl Fl] [Hk Fk]. split; [rewrite sentCount_app; lia|]. by apply Forall_app.
Qed.

Lemma within_sent p n c l : within p n l -> within p (S n) (Sent c :: l).
Proof. intros H. apply (within_app p 1 n [Sent c]); [|done]. split; [done|]. constructor; [by left|done]. Qed.
#[local] Hint Resolve within_sent within_harmless harmless_response harmless_begin harmless_end : cube.

Definition requestBudget (c : ApiRequestConfig) : nat := if mayRetry c then 2 else 1.

Lemma within_weaken p n m l : (n <= m)%nat -> within p n l -> within p m l.
Proof. intros Hn [? ?]. split; [lia|done]. Qed.

Lemma budget_pos c : (1 <= requestBudget c)%nat.
Proof. unfold requestBudget. destruct (mayRetry c); lia. Qed.

(** Effects and end of a request, by its retry mark. *)
Lemma request_effects p attempts : forall c w,
  within p (requestBudget c) (request p attempts c w).1.2 /\
  ((requestBudget c <= length attempts)%nat -> (request p attempts c w).2 <> None).
Proof.
  induction attempts as [|a rest IH]; intros c w; pose proof (budget_pos c) as Hb; cbn [request].
  - split; [|cbn; lia]. apply (within_weaken p 1); [done|]. apply within_sent, within_harmless. constructor.
  - set (c0 := requestInterceptor w c). set (w0 := when_answered a w).
    destruct (answer a) as [failure|body].
    2: { pose proof (harmless_response p c0 body w0) as H.
         destruct (onResponse c0 body w0) as [[w1 effects] settled]. cbn in *. split; [|done].
         apply (within_weaken p 1); [done|]. auto with cube. }
    pose proof (harmless_begin p (Some c0) failure w0) as Hh.
    pose proof (begin_retries p c0 failure w0) as Hr.
    destruct (onError_begin p (Some c0) failure w0) as [[w1 effects] [c'|[]]]; cbn in Hh, Hr.
    2: { cbn. split; [|done]. apply (within_weaken p 1); [done|]. auto with cube. }
    destruct (Hr c' eq_refl) as (_ & Hc & Hc'). unfold c0 in Hc. rewrite intercepted_retry in Hc.
    pose proof (harmless_end p c' (refreshed a) (when_refreshed a w1)) as Hh'.
    pose proof (end_retries p c' (refreshed a) (when_refreshed a w1)) as Hr'.
    destruct (onError_end p c' (refreshed a) (when_refreshed a w1)) as [effects' [c''|[]]]; cbn in Hh', Hr'.
    2: { cbn. split; [|done]. apply (within_weaken p 1); [done|].
         apply within_sent, within_harmless. by apply Forall_app. }
    destruct (Hr' c'' eq_refl) as [Hr'' _]. destruct (IH c'' (when_refreshed a w1)) as [IH1 IH2].
    unfold requestBudget in *. rewrite Hr'', Hc' in IH1, IH2. rewrite Hc.
    destruct (request p rest c'' (when_refreshed a w1)) as [[w2 effects''] settled]. cbn in *.
    split; [|intros; apply IH2; lia]. apply within_sent.
    apply (within_app p 0 1); [auto with cube|]. by apply (within_app p 0 1); [auto with cube|].
Qed.

(** What the first attempt comes to: the retry, when it is refused with 401, may be sent again and the refresh succeeds. *)
Definition retries (a : Attempt) (c : ApiRequestConfig) : Prop :=
  mayRetry c = true /\ exists failure b, answer a = inl failure /\ is401 failure = true /\ refreshed a = Authenticated b.

Lemma request_twice p attempts c w : (2 <= sentCount (request p attempts c w).1.2)%nat ->
  exists a rest, attempts = a :: rest /\ retries a c.
Proof.
  destruct attempts as [|a rest]; cbn [request]; [by unfold sentCount; cbn; lia|].
  set (c0 := requestInterceptor w c). set (w0 := when_answered a w).
  assert (forall l, Forall (harmless p) l -> (2 <= sentCount (Sent c0 :: l))%nat -> False) as Hone.
  { intros l Hl. change (Sent c0 :: l) with ([Sent c0] ++ l). rewrite sentCount_app, (harmless_count p l Hl). cbn. lia. }
  destruct (answer a) as [failure|body] eqn:Ea.
  2: { pose proof (harmless_response p c0 body w0) as H. destruct (onResponse c0 body w0) as [[w1 effects] settled].
       intros H2. by destruct (Hone effects). }
  pose proof (harmless_begin p (Some c0) failure w0) as Hh. pose proof (begin_retries p c0 failure w0) as Hr.
  destruct (onError_begin p (Some c0) failure w0) as [[w1 effects] [c'|[]]]; cbn [fst snd] in Hh, Hr.
  2: { intros H2. by destruct (Hone effects). }
  destruct (Hr c' eq_refl) as (H401 & Hc & _). unfold c0 in Hc. rewrite intercepted_retry in Hc.
  pose proof (harmless_end p c' (refreshed a) (when_refreshed a w1)) as Hh'.
  pose proof (end_retries p c' (refreshed a) (when_refreshed a w1)) as Hr'.
  destruct (onError_end p c' (refreshed a) (when_refreshed a w1)) as [effects' [c''|[]]]; cbn [fst snd] in Hh', Hr'.
  2: { intros H2. destruct (Hone (effects ++ effects')); [by apply Forall_app|done]. }
  destruct (Hr' c'' eq_refl) as [_ [b Hb]]. intros _. exists a, rest. split; [done|]. split; [done|]. by exists failure, b.
Qed.

(** A request that opts out of the refresh leaves the page where it is. *)
Definition isReplace (e : Effect) : bool := match e with Replace _ => true | _ => false end.

Lemma skipped_stays p attempts c w : skipAuthRefresh c = true -> authRetry c = false ->
  Forall (fun e => isReplace e = false) (request p attempts c w).1.2.
Proof.
  intros Hs Hr. destruct attempts as [|a rest]; cbn [request]; [by constructor|].
  destruct (intercepted_fields w c) as (_ & _ & _ & Fs & Fr). set (c0 := requestInterceptor w c) in *.
  assert (forall o m, Forall (fun e => isReplace e = false) (toastUnless o (Toast m))) as Ht.
  { intros [o|] m; cbn; [destruct (skipErrorHandler o)|]; by repeat constructor. }
  destruct (answer a) as [failure|body].
  - unfold onError_begin. rewrite Fs, Fr, Hs, Hr. cbn [negb andb]. destruct (is401 failure).
    + cbn [fst snd]. constructor; [done|apply Ht].
    + pose proof (Ht (Some c0) (errorMessage failure)) as H. destruct (toastUnless _ _); cbn [fst snd]; by constructor.
  - unfold onResponse.
    match goal with |- context [let '(_, _) := ?x in _] => destruct x as [w' [err|]] end; cbn [fst snd]; [by repeat constructor|].
    constructor; [done|]. repeat case_match; by repeat constructor.
Qed.

(** *** The deployment prefix *)

Definition strip_slashes (s : jstring) : jstring := rev (drop_while is_slash (rev (drop_while is_slash s))).

Lemma drop_while_head {A} (f : A -> bool) l :
  drop_while f l = [] \/ exists x k, drop_while f l = x :: k /\ f x = false.
Proof.
  induction l as [|x l IH]; [by left|]. cbn. destruct (f x) eqn:E; [done|]. right. eauto.
Qed.

(** What is left of a text has no slash at either end. *)
Lemma strip_slashes_ends s :
  strip_slashes s = [] \/
  startsWith (strip_slashes s) [ch_slash] = false /\ startsWith (rev (strip_slashes s)) [ch_slash] = false.
Proof.
  unfold strip_slashes.
  destruct (drop_while_head is_slash (rev (drop_while is_slash s))) as [-> | (d & k & E & Hd)]; [by left|].
  right. rewrite E, rev_involutive. split.
  - destruct (drop_while_suffix is_slash (rev (drop_while is_slash s))) as (pre & Hpre & _).
    rewrite E in Hpre. apply (f_equal (@rev N)) in Hpre. rewrite rev_involutive, rev_app_distr in Hpre.
    destruct (drop_while_head is_slash s) as [H | (c & l & H & Hc)]; rewrite H in Hpre.
    + symmetry in Hpre. apply app_nil in Hpre as [H' _]. by destruct (app_cons_not_nil (rev k) [] d).
    + destruct (rev (d :: k)) as [|c' l'] eqn:E'; [by destruct (app_cons_not_nil (rev k) [] d)|].
      injection Hpre as <- _. unfold is_slash in Hc. cbn [startsWith]. by rewrite N.eqb_sym, Hc.
  - unfold is_slash in Hd. cbn [startsWith]. by rewrite N.eqb_sym, Hd.
Qed.

Lemma startsWith_slash_false s : startsWith s [ch_slash] = false -> drop_while is_slash s = s.
Proof.
  destruct s as [|c s]; [done|]. cbn [startsWith drop_while]. unfold is_slash.
  rewrite andb_true_r, N.eqb_sym. by intros ->.
Qed.

Lemma strip_slashes_id s :
  startsWith s [ch_slash] = false -> startsWith (rev s) [ch_slash] = false -> strip_slashes s = s.
Proof.
  intros H1 H2. unfold strip_slashes.
  by rewrite (startsWith_slash_false s H1), (startsWith_slash_false _ H2), rev_involutive.
Qed.

(** ** Properties *)

(** The key of a shared GET tells requests apart: when the session ids hold no
    colon, and the addresses hold no query or the parameters are the same, two
    requests with one key are of the same session, account, address and
    parameters. *)
Theorem dedupe_key_separates stringify w1 w2 u1 u2 p1 p2 :
  Forall (fun u => u <> ch_colon) (sessionSID w1) -> Forall (fun u => u <> ch_colon) (sessionSID w2) ->
  (Forall (fun u => u <> 63%N) u1 /\ Forall (fun u => u <> 63%N) u2) \/
    paramsText stringify p1 = paramsText stringify p2 ->
  dedupeKey stringify w1 u1 p1 = dedupeKey stringify w2 u2 p2 <->
  sessionSID w1 = sessionSID w2 /\ context_identity (w_ctx w1) = context_identity (w_ctx w2) /\
  u1 = u2 /\ paramsText stringify p1 = paramsText stringify p2.
Proof.
  intros H1 H2 Hu. unfold dedupeKey. split.
  - intros H. apply app_sep_inj in H as [Hs H]; [|done|done].
    apply context_key_prefix in H as [Hc H]. apply cache_key_inj in Hc. split; [done|]. split; [done|].
    destruct Hu as [[Hu1 Hu2] | Hp].
    + by apply app_sep_inj in H.
    + rewrite Hp in H. split; [|done]. by apply app_inv_tail in H.
  - intros (-> & Hc & -> & ->). by rewrite (proj2 (cache_key_inj _ _) Hc).
Qed.

(** In every reachable state a GET joins a request exactly when one with its
    key was issued and has not settled; otherwise it issues a new one, and a
    settled request is never handed out again. *)
Theorem get_shares stringify s w u c :
  get_reachable stringify s ->
  let key := dedupeKey stringify w u (params c) in
  let (s', r) := get stringify w u c s in
  if disableDuplicate c then r = length (issued s) /\ issued s' = issued s ++ [(None, false)]
  else issued s' !! r = Some (Some key, false) /\
       ((exists r0, issued s !! r0 = Some (Some key, false)) -> issued s !! r = Some (Some key, false) /\ s' = s) /\
       ((forall r0, issued s !! r0 <> Some (Some key, false)) ->
          r = length (issued s) /\ issued s' = issued s ++ [(Some key, false)]).
Proof.
  intros H%get_reachable_ok key. unfold get. destruct (disableDuplicate c); [done|].
  change (dedupeKey stringify w u (params c)) with key.
  destruct (inFlightGet s !! key) as [r|] eqn:E; cbn [issued].
  - apply H in E. split; [done|]. split; [done|]. intros N. by destruct (N r).
  - split; [apply lookup_snoc_iff; by right|]. split; [|done]. intros [r Hr].
    apply H in Hr. by rewrite Hr in E.
Qed.

(** C16. A request goes out at most twice, and only once when it may not retry: when it opts out of the refresh
    ([skipAuthRefresh]) or is a retry already.  It goes out again only when the server refused it with 401 and the
    refresh then succeeded.  It has its answer by then.  The page is sent to the sign-in page only from another page,
    so an expired session cannot reload it in a loop, and a request that opts out of the refresh never sends it there
    (unless it is itself marked as a retry). *)
Theorem request_bounded p attempts c w :
  let '(_, effects, settled) := request p attempts c w in
  let budget := if skipAuthRefresh c || authRetry c then 1%nat else 2%nat in
  (sentCount effects <= budget)%nat /\
  ((2 <= sentCount effects)%nat -> exists a rest failure b, attempts = a :: rest /\
     answer a = inl failure /\ is401 failure = true /\ refreshed a = Authenticated b) /\
  ((budget <= length attempts)%nat -> settled <> None) /\
  (forall path, In (Replace path) effects ->
     path = withBasePath (page_basePath p) (js "/sign-in") /\ pathname p <> Some path /\
     (skipAuthRefresh c = true -> authRetry c = true)).
Proof.
  pose proof (request_effects p attempts c w) as [[Hn He] Hs]. pose proof (request_twice p attempts c w) as H2.
  pose proof (skipped_stays p attempts c w) as Hstay.
  assert (requestBudget c = if skipAuthRefresh c || authRetry c then 1%nat else 2%nat) as Eb
    by (unfold requestBudget, mayRetry; by destruct (skipAuthRefresh c), (authRetry c)).
  destruct (request p attempts c w) as [[w' effects] settled]. cbn [fst snd] in *. rewrite Eb in Hn, Hs.
  split; [done|]. split; [|split; [done|]].
  - intros (a & rest & -> & _ & failure & b & ?)%H2. by exists a, rest, failure, b.
  - intros path Hp. rewrite List.Forall_forall in He. destruct (He _ Hp) as [[=] | [-> (here & -> & Hne)]].
    split; [done|]. split; [congruence|]. intros Hskip. destruct (authRetry c) eqn:Er; [done|].
    specialize (Hstay Hskip eq_refl). rewrite List.Forall_forall in Hstay. by specialize (Hstay _ Hp).
Qed.

(** A request that meets an expired session is sent again after the refresh
    with the token of that moment; when that is refused too, this tab signs out
    and its caller gets the second error. *)
Theorem expired_twice p a1 a2 rest c w e1 e2 b token :
  answer a1 = inl e1 -> is401 e1 = true -> refreshed a1 = Authenticated b ->
  answer a2 = inl e2 -> is401 e2 = true ->
  skipAuthRefresh c = false -> authRetry c = false ->
  let w1 := when_refreshed a1 (when_answered a1 w) in
  accessToken (w_auth w1) = Some token -> token <> [] ->
  exists c2,
    request p (a1 :: a2 :: rest) c w =
    (clearAuthentication false b_complete (when_answered a2 w1),
     [Sent (requestInterceptor w c); Sent c2] ++ toastUnless (Some c) SessionExpired ++ redirectToSignIn p,
     Some (Rejected e2)) /\
    assoc Authorization (headers c2) = Some (bearer token) /\ url c2 = url c /\ params c2 = params c.
Proof.
  intros A1 E1 R1 A2 E2 Hs Hr w1 Ht Hne.
  destruct (intercepted_fields w c) as (Fu & Fp & Fe & Fs & Fr).
  set (c' := withAuthRetry (requestInterceptor w c)).
  set (c'' := withHeaders (setHeader Authorization (bearer token) (headers c')) c').
  destruct (intercepted_fields w1 c'') as (Gu & Gp & Ge & Gs & Gr).
  exists (requestInterceptor w1 c''). split; [|by rewrite Gu, Gp, (intercepted_token w1 c'' token)].
  cbn [request]. rewrite A1. unfold onError_begin at 1. rewrite E1, Fs, Fr, Hs, Hr. cbn [negb andb].
  rewrite R1. unfold onError_end. fold w1. rewrite Ht, (proj2 (truthy_true token) Hne). fold c' c''.
  rewrite A2. unfold onError_begin. rewrite E2, Gs, Gr.
  change (authRetry c'') with true. rewrite andb_false_r. cbn [app].
  unfold toastUnless. rewrite Ge. change (skipErrorHandler c'') with (skipErrorHandler (requestInterceptor w c)).
  by rewrite Fe.
Qed.

(** Mounting the dashboard under a prefix only ever adds the prefix: an address
    with its own origin is kept, anything else becomes a path below the prefix that
    ends in what was asked for; and the prefix has one leading slash and no
    trailing one, however it was written. *)
Theorem base_path_prefixes raw path :
  let base := normalizeBasePath raw in
  normalizeBasePath (Some base) = base /\
  (base = [] \/ exists s, base = ch_slash :: s /\ s <> [] /\ startsWith s [ch_slash] = false /\
                          endsWith s [ch_slash] = false) /\
  (absoluteUrlPattern path = true -> withBasePath base path = path) /\
  (absoluteUrlPattern path = false -> path <> [] -> base <> [] ->
     exists k, withBasePath base path = base ++ ch_slash :: k /\
       (path = k \/ path = ch_slash :: k)).
Proof.
  intros base.
  assert (base = [] \/ exists s, base = ch_slash :: s /\ s <> [] /\ startsWith s [ch_slash] = false /\
                                 endsWith s [ch_slash] = false) as Hb.
  { unfold base, normalizeBasePath. destruct raw as [raw|]; [|by left]. fold (strip_slashes raw).
    destruct (strip_slashes_ends raw) as [-> | [H1 H2]]; [by left|].
    destruct (jeqb (strip_slashes raw) []) eqn:E; [by left|]. apply jeqb_neq in E. right. eauto 10. }
  split; [|split; [exact Hb|split]].
  - destruct Hb as [-> | (s & -> & Hne & H1 & H2)]; [done|]. unfold normalizeBasePath.
    fold (strip_slashes (ch_slash :: s)). change (strip_slashes (ch_slash :: s)) with (strip_slashes s).
    rewrite strip_slashes_id by done. by rewrite (proj2 (jeqb_neq _ _) Hne).
  - intros Ha. unfold withBasePath. by destruct (_ || _); rewrite ?Ha.
  - intros Ha Hp Hbase. unfold withBasePath. rewrite !(proj2 (jeqb_neq _ _)) by done. cbn [orb]. rewrite Ha.
    destruct path as [|c k]; [done|]. cbn [startsWith]. rewrite andb_true_r.
    destruct (ch_slash =? c)%N eqn:E; [apply N.eqb_eq in E as <-; exists k; auto|]. exists (c :: k). auto.
Qed.

(** ** Witnesses *)

Definition plainConfig (u : string) : ApiRequestConfig :=
  MkConfig (Some (js u)) None [] false false false false false false false.
Definition noStringify (v : jsval) : jstring := js "{...}".

Definition unauthorized : jsval :=
  JObj [(js "response", JObj [(js "status", JNum (num_of_Z 401)); (js "data", JObj [])])].

Lemma dedupe_key_separates_witness :
  dedupeKey noStringify (world signedInTab) (js "/api/user/self") None <>
  dedupeKey noStringify organizationWorld (js "/api/user/self") None.
Proof.
  intros H. apply dedupe_key_separates in H as (_ & H & _); [discriminate H| | |by right];
    repeat constructor; discriminate.
Defined.

Definition statusGet : GetState -> GetState * nat :=
  get noStringify (world signedInTab) (js "/api/status") (plainConfig "/api/status").

Lemma get_shares_witness :
  let s := (statusGet initialGet).1 in
  issued (statusGet s).1 !! (statusGet s).2 =
    Some (Some (dedupeKey noStringify (world signedInTab) (js "/api/status") None), false) /\
  (statusGet s).2 = 0%nat.
Proof.
  intros s.
  assert (get_reachable noStringify s) as H by (eapply get_next; [apply get_init|apply step_get]).
  split; [|vm_compute; reflexivity].
  exact (proj1 (get_shares noStringify s (world signedInTab) (js "/api/status") (plainConfig "/api/status") H)).
Defined.

Definition expiredOnce (b : AuthBundle) : Attempt :=
  MkAttempt (inl unauthorized) id (Authenticated b) (applyAuthBundle b false).

Lemma expired_twice_witness :
  exists c2,
    request (MkPage (Some (js "/keys")) []) [expiredOnce aliceBundle; expiredOnce aliceBundle]
      (plainConfig "/api/token") (world signedInTab) =
    (clearAuthentication false b_complete (applyAuthBundle aliceBundle false (world signedInTab)),
     [Sent (requestInterceptor (world signedInTab) (plainConfig "/api/token")); Sent c2;
      SessionExpired; Replace (js "/sign-in")], Some (Rejected unauthorized)) /\
    assoc Authorization (headers c2) = Some (js "Bearer tok").
Proof.
  destruct (expired_twice (MkPage (Some (js "/keys")) []) (expiredOnce aliceBundle) (expiredOnce aliceBundle) []
    (plainConfig "/api/token") (world signedInTab) unauthorized unauthorized aliceBundle (js "tok"))
    as (c2 & E & H & _); [reflexivity..|discriminate|].
  exists c2. split; [exact E|exact H].
Defined.

(** The table of messages is a plain object: the code [constructor] finds a member
    the object inherits, which is no message key. *)
Lemma inherited_code_found :
  getServerErrorMessageKey (JObj [(js "code", JStr (js "constructor"))]) = Some (Inherited (js "constructor")).
Proof. vm_compute. reflexivity. Qed.
