(* ===== verification/Flow.v ===== *)
(** * The flow graph of the dashboard (web/src/features/dashboard/lib/flow.ts)

    The quota rows of the server become a Sankey graph: each row is a path through
    the visible columns (user, node, token, group, model, channel), paths are
    limited to the top nodes of each column, nodes and links add up the metrics of
    the paths through them, and the graph is masked, highlighted and sorted.

    Metrics are integers (the server counts in integers; up to 2^53 a number of
    the language is exact), the share of a link is the exact quotient.
    [localeCompare], the chart palette and the number format of the browser are
    arguments. *)

From S2P Require Import Prelude JsValue.
From Stdlib Require Import Qround.
#[local] Open Scope Z_scope.

(** ** Data *)

Record FlowQuotaDataItem := MkRow {
  user_id : option Z;
  username : option jstring;
  node_name : option jstring;
  use_group : option jstring;
  token_id : option Z;
  token_name : option jstring;
  channel_id : option Z;
  channel_name : option jstring;
  model_name : option jstring;
  token_used : option Z;
  count : option Z;
  quota : option Z
}.

Inductive FlowMetric := m_quota | m_tokens | m_requests.
Inductive FlowOverflowMode := aggregate | hide.
Inductive FlowRole := r_user | r_admin | r_root.
Inductive FlowNodeKind := k_user | k_node | k_token | k_group | k_model | k_channel.

#[export] Instance FlowNodeKind_eq_dec : EqDecision FlowNodeKind.
Proof. solve_decision. Defined.

Record FlowMetrics := MkMetrics { f_quota : Z; f_tokens : Z; f_requests : Z }.
Record FlowPathNode := MkPathNode { id : jstring; label : jstring; kind : FlowNodeKind }.
Record PreparedFlowPath := MkPrepared { path : list FlowPathNode; metrics : FlowMetrics }.
Record FlowNodeFilter := MkFilter { filter_kind : FlowNodeKind; filter_id : jstring }.
Record FlowLinkSelection := MkSelection { sel_source : jstring; sel_target : jstring }.

Record DashboardFlowNode := MkNode {
  n_id : jstring;
  n_label : jstring;
  n_kind : FlowNodeKind;
  n_value : Z;
  n_requests : Z;
  n_quota : Z;
  n_tokens : Z;
  n_color : jstring;
  n_colorKey : jstring;
  n_highlighted : option bool;
  n_dimmed : option bool
}.

(** The colours a link is drawn with (linkColor, linkAlpha, hoverColor) are left
    out: they are derived from [l_color] and the rank of the link. *)
Record DashboardFlowLink := MkLink {
  l_source : jstring;
  l_target : jstring;
  l_value : Z;
  l_requests : Z;
  l_quota : Z;
  l_tokens : Z;
  l_sourceLabel : jstring;
  l_targetLabel : jstring;
  l_color : jstring;
  l_colorKey : jstring;
  l_share : Q;
  l_highlighted : option bool;
  l_dimmed : option bool
}.

Record DashboardFlowGraph := MkGraph {
  nodes : list DashboardFlowNode;
  links : list DashboardFlowLink
}.

Record FlowPathContext := MkPathContext { ctx_deletedTokenLabel : option (Z -> jstring) }.

(** [FlowBuildOptions], with the fields [FlowGraphOptions] takes from it. *)
Record FlowBuildOptions := MkOptions {
  role : option FlowRole;
  selectedUsers : option (list jstring);
  selectedNodes : option (list FlowNodeFilter);
  activeNode : option FlowNodeFilter;
  activeLink : option FlowLinkSelection;
  opt_colorPalette : option (list jstring);
  visibleStages : option (list FlowNodeKind);
  topNodeLimit : option jsnum;
  overflowMode : option FlowOverflowMode;
  maskSensitive : bool;
  deletedTokenLabelOf : option (Z -> jstring);
  otherNodeLabel : option (FlowNodeKind -> jstring)
}.

Definition noOptions : FlowBuildOptions :=
  MkOptions None None None None None None None None None false None None.

(** ** The nodes of a row *)

Definition kind_name (k : FlowNodeKind) : jstring :=
  match k with
  | k_user => js "user" | k_node => js "node" | k_token => js "token"
  | k_group => js "group" | k_model => js "model" | k_channel => js "channel"
  end.

(** [`${kind}:${rest}`] *)
Definition kind_id (k : FlowNodeKind) (rest : jstring) : jstring := kind_name k ++ ch_colon :: rest.

Definition FLOW_NODE_KINDS : list FlowNodeKind := [k_user; k_node; k_token; k_group; k_model; k_channel].

Definition OTHER_FLOW_NODE_IDS (k : FlowNodeKind) : jstring := kind_id k (js "__other__").

Definition DEFAULT_OTHER_FLOW_NODE_LABELS (k : FlowNodeKind) : jstring :=
  match k with
  | k_user => js "Other users" | k_node => js "Other nodes" | k_token => js "Other tokens"
  | k_group => js "Other groups" | k_model => js "Other models" | k_channel => js "Other channels"
  end.

Definition SENSITIVE_FLOW_KINDS : list FlowNodeKind := [k_user; k_node; k_token; k_group; k_channel].

Definition OTHER_FLOW_NODE_ID_SET : list jstring := map OTHER_FLOW_NODE_IDS FLOW_NODE_KINDS.

Definition numberValue (value : option Z) : Z := coalesce value 0.

Definition rowMetrics (row : FlowQuotaDataItem) : FlowMetrics :=
  MkMetrics (numberValue (quota row)) (numberValue (token_used row)) (numberValue (count row)).

Definition metricValue (m : FlowMetrics) (metric : FlowMetric) : Z :=
  match metric with
  | m_requests => f_requests m
  | m_tokens => f_tokens m
  | m_quota => f_quota m
  end.

Definition userNode (row : FlowQuotaDataItem) : FlowPathNode :=
  let userID := numberValue (user_id row) in
  MkPathNode
    (kind_id k_user (if 0 <? userID then dec_of_Z userID else ojor (username row) (js "unknown")))
    (ojor (username row) (if 0 <? userID then js "user-" ++ dec_of_Z userID else js "Unknown User"))
    k_user.

Definition nodeNameNode (row : FlowQuotaDataItem) : FlowPathNode :=
  let nodeName := ojor (node_name row) (js "default-node") in
  MkPathNode (kind_id k_node nodeName) nodeName k_node.

Definition deletedTokenLabel (tokenID : Z) (ctx : FlowPathContext) : jstring :=
  if tokenID <=? 0 then js "Unknown Token"
  else match ctx_deletedTokenLabel ctx with
       | Some f => f tokenID
       | None => js "token-" ++ dec_of_Z tokenID
       end.

Definition tokenNode (row : FlowQuotaDataItem) (ctx : FlowPathContext) : FlowPathNode :=
  let tokenID := numberValue (token_id row) in
  MkPathNode
    (kind_id k_token (if 0 <? tokenID then dec_of_Z tokenID else ojor (token_name row) (js "unknown")))
    (ojor (token_name row) (deletedTokenLabel tokenID ctx))
    k_token.

Definition groupNode (row : FlowQuotaDataItem) : FlowPathNode :=
  let useGroup := ojor (use_group row) (js "unknown") in
  MkPathNode (kind_id k_group useGroup) useGroup k_group.

Definition modelNode (row : FlowQuotaDataItem) : FlowPathNode :=
  MkPathNode (kind_id k_model (ojor (model_name row) (js "unknown")))
    (ojor (model_name row) (js "Unknown Model")) k_model.

Definition channelNode (row : FlowQuotaDataItem) : FlowPathNode :=
  let channelID := numberValue (channel_id row) in
  MkPathNode
    (kind_id k_channel (if 0 <? channelID then dec_of_Z channelID else ojor (channel_name row) (js "unknown")))
    (ojor (channel_name row) (if 0 <? channelID then js "channel-" ++ dec_of_Z channelID else js "Unknown"))
    k_channel.

Definition NODE_BUILDERS (k : FlowNodeKind) (row : FlowQuotaDataItem) (ctx : FlowPathContext) : FlowPathNode :=
  match k with
  | k_user => userNode row
  | k_node => nodeNameNode row
  | k_token => tokenNode row ctx
  | k_group => groupNode row
  | k_model => modelNode row
  | k_channel => channelNode row
  end.

(** ** The columns *)

Definition ROLE_FLOW_STAGES (r : FlowRole) : list FlowNodeKind :=
  match r with
  | r_root => [k_user; k_node; k_token; k_group; k_model; k_channel]
  | r_admin => [k_user; k_group; k_model; k_channel]
  | r_user => [k_token; k_model]
  end.

Definition MIN_FLOW_STAGES : nat := 2.

Definition getFlowStages (r : FlowRole) : list FlowNodeKind := ROLE_FLOW_STAGES r.

Definition resolveVisibleStages (r : FlowRole) (visible : option (list FlowNodeKind)) : list FlowNodeKind :=
  let stages := getFlowStages r in
  match visible with
  | None => stages
  | Some visible =>
      let filtered := List.filter (fun stage => bool_decide (stage ∈ visible)) stages in
      if (MIN_FLOW_STAGES <=? length filtered)%nat then filtered else stages
  end.

Definition flowPathForStages (row : FlowQuotaDataItem) (stages : list FlowNodeKind) (ctx : FlowPathContext)
    : list FlowPathNode :=
  map (fun stage => NODE_BUILDERS stage row ctx) stages.

(** ** Filters *)

Definition filterRows (rows : list FlowQuotaDataItem) (options : FlowBuildOptions) : list FlowQuotaDataItem :=
  let selected := coalesce (selectedUsers options) [] in
  match selected with
  | [] => rows
  | _ => List.filter (fun row => bool_decide (id (userNode row) ∈ selected)) rows
  end.

(** [set.add(x)] *)
Definition set_add {A} `{EqDecision A} (x : A) (s : list A) : list A :=
  if bool_decide (x ∈ s) then s else s ++ [x].

Definition NodeFilters := list (FlowNodeKind * list jstring).

Definition normalizeSelectedNodeFilters (selected : option (list FlowNodeFilter)) (stages : list FlowNodeKind)
    : NodeFilters :=
  foldl (fun filters f =>
           if bool_decide (filter_kind f ∈ stages)
           then mupdate filters (filter_kind f) [] (set_add (filter_id f))
           else filters) [] (coalesce selected []).

Definition pathNodesByKind (p : list FlowPathNode) : NodeFilters :=
  foldl (fun m node => mupdate m (kind node) [] (set_add (id node))) [] p.

Definition pathMatchesNodeFilters (p : list FlowPathNode) (filters : NodeFilters) : bool :=
  match filters with
  | [] => true
  | _ =>
      forallb (fun f => match mget (pathNodesByKind p) f.1 with
                        | None => false
                        | Some pathIds => existsb (fun i => bool_decide (i ∈ pathIds)) f.2
                        end) filters
  end.

Definition filterRowsByNodes (rows : list FlowQuotaDataItem) (selected : option (list FlowNodeFilter))
    (stages : list FlowNodeKind) (ctx : FlowPathContext) : list FlowQuotaDataItem :=
  let filters := normalizeSelectedNodeFilters selected stages in
  match filters with
  | [] => rows
  | _ => List.filter (fun row => pathMatchesNodeFilters (flowPathForStages row stages ctx) filters) rows
  end.

Definition selectedNodeFiltersExceptKind (selected : option (list FlowNodeFilter)) (k : FlowNodeKind)
    : option (list FlowNodeFilter) :=
  match List.filter (fun f => bool_decide (filter_kind f <> k)) (coalesce selected []) with
  | [] => None
  | filtered => Some filtered
  end.

(** ** Nodes and links *)

Definition NodeMap := list (jstring * DashboardFlowNode).
Definition LinkMap := list (jstring * DashboardFlowLink).

Definition newNode (n : FlowPathNode) (color colorKey : jstring) : DashboardFlowNode :=
  MkNode (id n) (label n) (kind n) 0 0 0 0 color colorKey None None.

Definition growNode (m : FlowMetrics) (metric : FlowMetric) (n : DashboardFlowNode) : DashboardFlowNode :=
  MkNode (n_id n) (n_label n) (n_kind n) (n_value n + metricValue m metric)
    (n_requests n + f_requests m) (n_quota n + f_quota m) (n_tokens n + f_tokens m)
    (n_color n) (n_colorKey n) (n_highlighted n) (n_dimmed n).

Definition addNode (map : NodeMap) (pathNode : FlowPathNode) (m : FlowMetrics) (metric : FlowMetric)
    (color colorKey : jstring) : NodeMap :=
  mupdate map (id pathNode) (newNode pathNode color colorKey) (growNode m metric).

(** [`${source}\u0000${target}`] *)
Definition pairKey (source target : jstring) : jstring := source ++ 0%N :: target.

Definition newLink (source target : FlowPathNode) (color colorKey : jstring) : DashboardFlowLink :=
  MkLink (id source) (id target) 0 0 0 0 (label source) (label target) color colorKey 0 None None.

Definition growLink (m : FlowMetrics) (metric : FlowMetric) (l : DashboardFlowLink) : DashboardFlowLink :=
  MkLink (l_source l) (l_target l) (l_value l + metricValue m metric)
    (l_requests l + f_requests m) (l_quota l + f_quota m) (l_tokens l + f_tokens m)
    (l_sourceLabel l) (l_targetLabel l) (l_color l) (l_colorKey l) (l_share l)
    (l_highlighted l) (l_dimmed l).

Definition addLink (map : LinkMap) (source target : FlowPathNode) (m : FlowMetrics) (metric : FlowMetric)
    (color colorKey : jstring) : LinkMap :=
  mupdate map (pairKey (id source) (id target)) (newLink source target color colorKey) (growLink m metric).

Definition linkStableKey (l : DashboardFlowLink) : jstring := pairKey (l_source l) (l_target l).
Definition pathLinkKey (source target : FlowPathNode) : jstring := pairKey (id source) (id target).

Record FlowSummary := MkSummary { s_quota : Z; s_tokens : Z; s_requests : Z }.

Definition buildSummary (rows : list FlowQuotaDataItem) : FlowSummary :=
  foldl (fun s row =>
           let m := rowMetrics row in
           MkSummary (s_quota s + f_quota m) (s_tokens s + f_tokens m) (s_requests s + f_requests m))
    (MkSummary 0 0 0) rows.

(** ** The top nodes *)

(** [Math.floor], then finite and positive. *)
Definition normalizeTopNodeLimit (limit : option jsnum) : option Z :=
  match limit with
  | Some (Fin q) => if 0 <? Qfloor q then Some (Qfloor q) else None
  | _ => None
  end.

Definition otherFlowNode (k : FlowNodeKind) (labeler : option (FlowNodeKind -> jstring)) : FlowPathNode :=
  MkPathNode (OTHER_FLOW_NODE_IDS k)
    (match labeler with Some f => f k | None => DEFAULT_OTHER_FLOW_NODE_LABELS k end) k.

Record FlowNodeRank := MkRank { rank_node : FlowPathNode; rank_value : Z }.

Definition growRank (value : Z) (r : FlowNodeRank) : FlowNodeRank :=
  MkRank (rank_node r) (rank_value r + value).

(** [c1 || c2] on comparator results. *)
Definition cmp_then (c1 c2 : Z) : Z := if c1 =? 0 then c2 else c1.

Definition StageTotals := list (FlowNodeKind * list (jstring * FlowNodeRank)).

(** The loop over the rows: the totals of every node of every column. *)
Definition stageTotals (rows : list FlowQuotaDataItem) (metric : FlowMetric) (stages : list FlowNodeKind)
    (ctx : FlowPathContext) : StageTotals :=
  foldl (fun totals row =>
           let value := metricValue (rowMetrics row) metric in
           foldl (fun totals node =>
                    match mget totals (kind node) with
                    | None => totals
                    | Some ranks =>
                        mset totals (kind node) (mupdate ranks (id node) (MkRank node 0) (growRank value))
                    end) totals (flowPathForStages row stages ctx))
    (foldl (fun m stage => mset m stage []) [] stages) rows.

Definition TopSets := list (FlowNodeKind * list jstring).

Definition isTopFlowNode (node : FlowPathNode) (top : option TopSets) : bool :=
  match top with
  | None => true
  | Some top => match mget top (kind node) with
                | None => true
                | Some ids => bool_decide (id node ∈ ids)
                end
  end.

Definition applyTopNodeLimit (p : list FlowPathNode) (top : option TopSets) (mode : FlowOverflowMode)
    (labeler : option (FlowNodeKind -> jstring)) : option (list FlowPathNode) :=
  match top with
  | None => Some p
  | Some _ =>
      if negb (existsb (fun node => negb (isTopFlowNode node top)) p) then Some p
      else match mode with
           | hide => None
           | aggregate =>
               Some (map (fun node => if isTopFlowNode node top then node
                                      else otherFlowNode (kind node) labeler) p)
           end
  end.

(** ** Highlighting *)

Definition pathContainsFlowNode (p : list FlowPathNode) (f : FlowNodeFilter) : bool :=
  existsb (fun node => bool_decide (kind node = filter_kind f) && jeqb (id node) (filter_id f)) p.

(** The steps of a path: its nodes two by two. *)
Fixpoint steps {A} (p : list A) : list (A * A) :=
  match p with
  | a :: ((b :: _) as p') => (a, b) :: steps p'
  | _ => []
  end.

Definition pathContainsFlowLink (p : list FlowPathNode) (l : FlowLinkSelection) : bool :=
  existsb (fun st => jeqb (id st.1) (sel_source l) && jeqb (id st.2) (sel_target l)) (steps p).

Record FlowHighlightSets := MkHighlight { h_nodes : list jstring; h_links : list jstring }.

Definition buildFlowHighlightSets (prepared : list PreparedFlowPath) (active : option FlowNodeFilter)
    (activeL : option FlowLinkSelection) (stages : list FlowNodeKind) : option FlowHighlightSets :=
  let nodeActive := match active with Some a => bool_decide (filter_kind a ∈ stages) | None => false end in
  match activeL, nodeActive with
  | None, false => None
  | _, _ =>
      let matchesPath p :=
        match activeL with
        | Some l => pathContainsFlowLink p l
        | None => match active with Some a => pathContainsFlowNode p a | None => false end
        end in
      let sets :=
        foldl (fun s pr =>
                 if negb (matchesPath (path pr)) then s
                 else MkHighlight
                        (foldl (fun ns n => set_add (id n) ns) (h_nodes s) (path pr))
                        (foldl (fun ls st => set_add (pathLinkKey st.1 st.2) ls) (h_links s) (steps (path pr))))
          (MkHighlight [] []) prepared in
      match h_nodes sets with [] => None | _ => Some sets end
  end.

Definition highlightNode (h : FlowHighlightSets) (n : DashboardFlowNode) : DashboardFlowNode :=
  let on := bool_decide (n_id n ∈ h_nodes h) in
  MkNode (n_id n) (n_label n) (n_kind n) (n_value n) (n_requests n) (n_quota n) (n_tokens n)
    (n_color n) (n_colorKey n) (Some on) (Some (negb on)).

Definition highlightLink (h : FlowHighlightSets) (l : DashboardFlowLink) : DashboardFlowLink :=
  let on := bool_decide (linkStableKey l ∈ h_links h) in
  MkLink (l_source l) (l_target l) (l_value l) (l_requests l) (l_quota l) (l_tokens l)
    (l_sourceLabel l) (l_targetLabel l) (l_color l) (l_colorKey l) (l_share l) (Some on) (Some (negb on)).

Definition applyFlowHighlights (ns : NodeMap) (ls : LinkMap) (h : option FlowHighlightSets) : NodeMap * LinkMap :=
  match h with
  | None => (ns, ls)
  | Some h => (prod_map Datatypes.id (highlightNode h) <$> ns, prod_map Datatypes.id (highlightLink h) <$> ls)
  end.

(** ** Masking *)

(** Four U+2022 bullets. *)
Definition FLOW_MASK_TEXT : jstring := [8226; 8226; 8226; 8226]%N.

Definition maskFlowLabel (l : jstring) : jstring := match l with [] => l | _ => FLOW_MASK_TEXT end.

Definition isMasked (n : DashboardFlowNode) : bool :=
  bool_decide (n_kind n ∈ SENSITIVE_FLOW_KINDS) && negb (bool_decide (n_id n ∈ OTHER_FLOW_NODE_ID_SET)).

Definition withNodeLabel (l : jstring) (n : DashboardFlowNode) : DashboardFlowNode :=
  MkNode (n_id n) l (n_kind n) (n_value n) (n_requests n) (n_quota n) (n_tokens n)
    (n_color n) (n_colorKey n) (n_highlighted n) (n_dimmed n).

Definition withLinkLabels (s t : jstring) (l : DashboardFlowLink) : DashboardFlowLink :=
  MkLink (l_source l) (l_target l) (l_value l) (l_requests l) (l_quota l) (l_tokens l) s t
    (l_color l) (l_colorKey l) (l_share l) (l_highlighted l) (l_dimmed l).

Definition maskNode (n : DashboardFlowNode) : DashboardFlowNode :=
  if isMasked n then withNodeLabel (maskFlowLabel (n_label n)) n else n.

(** [maskedById], filled while the nodes are masked. *)
Definition maskedById (ns : NodeMap) : list (jstring * jstring) :=
  foldl (fun m kv => if isMasked kv.2 then mset m (n_id kv.2) (maskFlowLabel (n_label kv.2)) else m) [] ns.

Definition maskLink (masked : list (jstring * jstring)) (l : DashboardFlowLink) : DashboardFlowLink :=
  withLinkLabels (coalesce (mget masked (l_source l)) (l_sourceLabel l))
                 (coalesce (mget masked (l_target l)) (l_targetLabel l)) l.

Definition maskFlowGraphLabels (ns : NodeMap) (ls : LinkMap) : NodeMap * LinkMap :=
  let masked := maskedById ns in
  let ns' := prod_map Datatypes.id maskNode <$> ns in
  match masked with
  | [] => (ns', ls)
  | _ => (ns', prod_map Datatypes.id (maskLink masked) <$> ls)
  end.

(** ** The graph *)

Section Graph.
(** [a.localeCompare(b)] of the browser's locale, the colours of the chart theme
    for a number of series, and the number format of the browser. *)
Context (localeCompare : jstring -> jstring -> Z).
Context (getDashboardChartColors : nat -> list jstring).
Context (formatNumber : Z -> jstring).

Definition DEFAULT_FLOW_CHART_COLOR : jstring := js "#1664FF".

Definition colorAt (index : nat) (palette : option (list jstring)) : jstring :=
  let colors := match palette with
                | Some ((_ :: _) as p) => p
                | _ => getDashboardChartColors (S index)
                end in
  match colors with
  | [] => DEFAULT_FLOW_CHART_COLOR
  | _ => coalesce (colors !! (index mod length colors)%nat) DEFAULT_FLOW_CHART_COLOR
  end.

Definition colorPalette (colorCount : nat) (palette : option (list jstring)) : list jstring :=
  match palette with
  | Some ((_ :: _) as p) => p
  | _ => match getDashboardChartColors colorCount with
         | [] => [DEFAULT_FLOW_CHART_COLOR]
         | colors => colors
         end
  end.

Definition stableColorMap (keys : list jstring) (palette : option (list jstring)) : list (jstring * jstring) :=
  let uniqueKeys := uniq keys in
  let colors := colorPalette (length uniqueKeys) palette in
  imap (fun index key => (key, colorAt index (Some colors))) uniqueKeys.

Definition byValueThenLabel (a b : DashboardFlowNode) : Z :=
  cmp_then (n_value b - n_value a) (localeCompare (n_label a) (n_label b)).

Definition byRank (a b : FlowNodeRank) : Z :=
  cmp_then (rank_value b - rank_value a)
    (cmp_then (localeCompare (label (rank_node a)) (label (rank_node b)))
              (localeCompare (id (rank_node a)) (id (rank_node b)))).

Definition byEnds (a b : DashboardFlowLink) : Z :=
  cmp_then (localeCompare (l_source a) (l_source b)) (localeCompare (l_target a) (l_target b)).

(** The set of the ids that make the cut in a column. *)
Definition topIds (limit : Z) (ranks : list (jstring * FlowNodeRank)) : list jstring :=
  map (fun r => id (rank_node r)) (take (Z.to_nat limit) (js_sort byRank (map snd ranks))).

Definition buildTopNodeSets (rows : list FlowQuotaDataItem) (metric : FlowMetric) (stages : list FlowNodeKind)
    (limit : option Z) (ctx : FlowPathContext) : option TopSets :=
  match limit with
  | None => None
  | Some limit => Some (prod_map Datatypes.id (topIds limit) <$> stageTotals rows metric stages ctx)
  end.

Definition preparePaths (rows : list FlowQuotaDataItem) (stages : list FlowNodeKind) (ctx : FlowPathContext)
    (top : option TopSets) (mode : FlowOverflowMode) (labeler : option (FlowNodeKind -> jstring))
    : list PreparedFlowPath :=
  omap (fun row => (fun p => MkPrepared p (rowMetrics row)) <$>
                   applyTopNodeLimit (flowPathForStages row stages ctx) top mode labeler) rows.

(** The ids the paths start with. *)
Definition rootIds (prepared : list PreparedFlowPath) : list jstring :=
  List.filter truthy (omap (fun pr => id <$> head (path pr)) prepared).

(** The loop that fills the two maps. *)
Definition addPath (metric : FlowMetric) (palette : option (list jstring)) (colors : list (jstring * jstring))
    (maps : NodeMap * LinkMap) (pr : PreparedFlowPath) : NodeMap * LinkMap :=
  match path pr with
  | [] => maps
  | root :: _ =>
      let color := coalesce (mget colors (id root)) (colorAt 0 palette) in
      (foldl (fun ns node => addNode ns node (metrics pr) metric color (id root)) maps.1 (path pr),
       foldl (fun ls st => addLink ls st.1 st.2 (metrics pr) metric color (id root)) maps.2 (steps (path pr)))
  end.

Definition withShare (total : Z) (l : DashboardFlowLink) : DashboardFlowLink :=
  MkLink (l_source l) (l_target l) (l_value l) (l_requests l) (l_quota l) (l_tokens l)
    (l_sourceLabel l) (l_targetLabel l) (l_color l) (l_colorKey l)
    (if 0 <? total then (inject_Z (l_value l) / inject_Z total)%Q else 0%Q) (l_highlighted l) (l_dimmed l).

Definition buildFlowGraph (rows : list FlowQuotaDataItem) (metric : FlowMetric) (r : FlowRole)
    (palette : option (list jstring)) (visible : option (list FlowNodeKind)) (ctx : FlowPathContext)
    (options : FlowBuildOptions) : DashboardFlowGraph :=
  let stages := resolveVisibleStages r visible in
  let topNodeSets :=
    buildTopNodeSets rows metric stages (normalizeTopNodeLimit (topNodeLimit options)) ctx in
  let mode := coalesce (overflowMode options) aggregate in
  let prepared := preparePaths rows stages ctx topNodeSets mode (otherNodeLabel options) in
  let colors := stableColorMap (js_sort localeCompare (rootIds prepared)) palette in
  let maps := foldl (addPath metric palette colors) ([], []) prepared in
  let maps := if maskSensitive options then maskFlowGraphLabels maps.1 maps.2 else maps in
  let maps := applyFlowHighlights maps.1 maps.2
                (buildFlowHighlightSets prepared (activeNode options) (activeLink options) stages) in
  let flowLinks := js_sort byEnds (map snd maps.2) in
  let firstStepSources := rootIds prepared in
  let total := zsum_of l_value (List.filter (fun l => bool_decide (l_source l ∈ firstStepSources)) flowLinks) in
  MkGraph (js_sort byValueThenLabel (map snd maps.1)) (map (withShare total) flowLinks).

(** *** The options of the filters *)

Record FlowUserFilterOption := MkUserOption {
  u_value : jstring; u_label : jstring; u_valueLabel : jstring; u_valueRaw : Z; u_color : jstring
}.

Record UserTotal := MkUserTotal { ut_label : jstring; ut_value : Z; ut_color : jstring }.

(** [Boolean(n)] for an optional number, [Boolean(s)] for an optional string. *)
Definition optNum (n : option Z) : bool := match n with Some z => negb (z =? 0) | None => false end.
Definition optStr (s : option jstring) : bool := truthy (coalesce s []).

Definition byOption (a b : FlowUserFilterOption) : Z :=
  cmp_then (u_valueRaw b - u_valueRaw a) (localeCompare (u_label a) (u_label b)).

Definition buildUserFilterOptions (rows : list FlowQuotaDataItem) (metric : FlowMetric)
    (palette : option (list jstring)) : list FlowUserFilterOption :=
  let colors := stableColorMap (js_sort localeCompare (map (fun row => id (userNode row)) rows)) palette in
  let users :=
    foldl (fun users row =>
             let user := userNode row in
             if negb (optNum (user_id row)) && negb (optStr (username row)) then users
             else
               let value := metricValue (rowMetrics row) metric in
               mupdate users (id user)
                 (MkUserTotal (label user) 0 (coalesce (mget colors (id user)) (colorAt 0 palette)))
                 (fun c => MkUserTotal (ut_label c) (ut_value c + value) (ut_color c))) [] rows in
  js_sort byOption
    (map (fun kv => MkUserOption kv.1 (ut_label kv.2) (formatNumber (ut_value kv.2)) (ut_value kv.2) (ut_color kv.2))
       users).

Record FlowNodeFilterOption := MkNodeOption {
  o_kind : FlowNodeKind; o_value : jstring; o_label : jstring; o_valueLabel : jstring; o_valueRaw : Z;
  o_color : jstring
}.

(** [`${kind}\u0000${id}`] *)
Definition nodeFilterKey (f : FlowNodeFilter) : jstring := pairKey (kind_name (filter_kind f)) (filter_id f).

Definition stageIndex (stages : list FlowNodeKind) (k : FlowNodeKind) : Z :=
  Z.of_nat (coalesce (find_index (fun s => bool_decide (s = k)) stages) 0%nat).

Definition byStage (stages : list FlowNodeKind) (a b : FlowNodeFilterOption) : Z :=
  cmp_then (stageIndex stages (o_kind a) - stageIndex stages (o_kind b))
    (cmp_then (o_valueRaw b - o_valueRaw a)
       (cmp_then (localeCompare (o_label a) (o_label b)) (localeCompare (o_value a) (o_value b)))).

(** The totals of one column, over the rows the filters of the other columns keep. *)
Definition candidateTotals (rows : list FlowQuotaDataItem) (metric : FlowMetric) (stages : list FlowNodeKind)
    (ctx : FlowPathContext) (selected : option (list FlowNodeFilter)) (stage : FlowNodeKind)
    : list (jstring * FlowNodeRank) :=
  foldl (fun totals row =>
           let node := NODE_BUILDERS stage row ctx in
           mupdate totals (nodeFilterKey (MkFilter (kind node) (id node))) (MkRank node 0)
             (growRank (metricValue (rowMetrics row) metric)))
    [] (filterRowsByNodes rows (selectedNodeFiltersExceptKind selected stage) stages ctx).

Definition buildNodeFilterOptions (rows : list FlowQuotaDataItem) (metric : FlowMetric) (r : FlowRole)
    (visible : option (list FlowNodeKind)) (palette : option (list jstring)) (ctx : FlowPathContext)
    (selected : option (list FlowNodeFilter)) : list FlowNodeFilterOption :=
  let stages := resolveVisibleStages r visible in
  let colorIds := uniq (map id (flat_map (fun row => flowPathForStages row stages ctx) rows)) in
  let colors := stableColorMap (js_sort localeCompare colorIds) palette in
  js_sort (byStage stages)
    (flat_map (fun stage =>
       map (fun kv => let rank := kv.2 in
              MkNodeOption (kind (rank_node rank)) (id (rank_node rank)) (label (rank_node rank))
                (formatNumber (rank_value rank)) (rank_value rank)
                (coalesce (mget colors (id (rank_node rank))) (colorAt 0 palette)))
         (candidateTotals rows metric stages ctx selected stage)) stages).

Record FlowFilterOptions := MkFilterOptions {
  fo_users : list FlowUserFilterOption; fo_nodes : list FlowNodeFilterOption
}.

Definition buildFlowFilterOptions (rows : list FlowQuotaDataItem) (metric : FlowMetric)
    (palette : option (list jstring)) (r : FlowRole) (visible : option (list FlowNodeKind))
    (selected : option (list FlowNodeFilter)) : FlowFilterOptions :=
  MkFilterOptions (buildUserFilterOptions rows metric palette)
    (buildNodeFilterOptions rows metric r visible palette (MkPathContext None) selected).

Record ProcessedFlowData := MkProcessed {
  summary : FlowSummary; flow : DashboardFlowGraph; filterOptions : FlowFilterOptions
}.

Definition buildDashboardFlowData (rows : list FlowQuotaDataItem) (metric : FlowMetric)
    (options : FlowBuildOptions) : ProcessedFlowData :=
  let r := coalesce (role options) r_user in
  let palette := opt_colorPalette options in
  let ctx := MkPathContext (deletedTokenLabelOf options) in
  let stages := resolveVisibleStages r (visibleStages options) in
  let userFilteredRows := filterRows rows options in
  let filteredRows := filterRowsByNodes userFilteredRows (selectedNodes options) stages ctx in
  MkProcessed (buildSummary filteredRows)
    (buildFlowGraph filteredRows metric r palette (visibleStages options) ctx options)
    (MkFilterOptions (buildUserFilterOptions rows metric palette)
       (buildNodeFilterOptions userFilteredRows metric r (visibleStages options) palette ctx
          (selectedNodes options))).

(** *** The order the links are drawn in *)

(** [Number(a) - Number(b)], 0 standing for NaN too: both go on to the next key. *)
Definition flagDiff (a b : option bool) : Z :=
  match a, b with Some a, Some b => Z.b2z a - Z.b2z b | _, _ => 0 end.

Definition byLinkDrawPriority (a b : DashboardFlowLink) : Z :=
  cmp_then (flagDiff (l_dimmed a) (l_dimmed b))
    (cmp_then (flagDiff (l_highlighted b) (l_highlighted a))
       (cmp_then (l_value b - l_value a) (localeCompare (linkStableKey a) (linkStableKey b)))).

(** The links of the Sankey data, with their [zIndex]. *)
Definition sankeyLinks (g : DashboardFlowGraph) : list (DashboardFlowLink * Z) :=
  imap (fun index l =>
          (l, Z.of_nat index +
              match l_highlighted l, l_dimmed l with
              | Some true, _ => 1000000
              | _, Some true => 0
              | _, _ => 100000
              end))
    (js_sort byLinkDrawPriority (List.filter (fun l => 0 <? l_value l) (links g))).
End Graph.

(** ** Lemmas *)

(** *** Ids *)

Lemma kind_name_colon k : Forall (fun u => u <> ch_colon) (kind_name k).
Proof. destruct k; by repeat constructor. Qed.

Lemma kind_name_nul k : Forall (fun u => u <> 0%N) (kind_name k).
Proof. destruct k; by repeat constructor. Qed.

Lemma kind_id_inj k x k' y : kind_id k x = kind_id k' y -> k = k' /\ x = y.
Proof.
  intros [H ->]%app_sep_inj; [|apply kind_name_colon..]. split; [|done]. by destruct k, k'.
Qed.

(** A node whose id names its kind and can be part of a link key. *)
Definition node_ok (n : FlowPathNode) : Prop :=
  (exists rest, id n = kind_id (kind n) rest) /\ Forall (fun u => u <> 0%N) (id n).

(** The names of a row hold no NUL, which a database text cannot hold. *)
Definition nul_free (s : option jstring) : Prop := Forall (fun u => u <> 0%N) (coalesce s []).
Definition row_clean (r : FlowQuotaDataItem) : Prop :=
  nul_free (username r) /\ nul_free (node_name r) /\ nul_free (use_group r) /\ nul_free (token_name r) /\
  nul_free (channel_name r) /\ nul_free (model_name r).

Lemma nul_free_kind_id k s : Forall (fun u => u <> 0%N) s -> Forall (fun u => u <> 0%N) (kind_id k s).
Proof. intros H. apply Forall_app. split; [apply kind_name_nul|]. by constructor. Qed.

Lemma nul_free_ojor s (d : jstring) : nul_free s -> Forall (fun u => u <> 0%N) d -> Forall (fun u => u <> 0%N) (ojor s d).
Proof. unfold nul_free, ojor, jor. by destruct (truthy (coalesce s [])). Qed.

Lemma nul_free_dec z : Forall (fun u => u <> 0%N) (dec_of_Z z).
Proof. by apply dec_of_Z_free. Qed.

Ltac nul_free_literal := unfold js; cbn; repeat constructor; discriminate.

Lemma builder_kind k row ctx : kind (NODE_BUILDERS k row ctx) = k.
Proof. by destruct k. Qed.

Lemma builder_ok k row ctx : row_clean row -> node_ok (NODE_BUILDERS k row ctx).
Proof.
  intros (H1 & H2 & H3 & H4 & H5 & H6). split; [destruct k; eexists; reflexivity|].
  destruct k; cbn [NODE_BUILDERS userNode nodeNameNode tokenNode groupNode modelNode channelNode id];
    apply nul_free_kind_id; repeat case_match; try apply nul_free_dec;
    apply nul_free_ojor; try done; nul_free_literal.
Qed.

Lemma other_ok k labeler : node_ok (otherFlowNode k labeler).
Proof.
  split; [eexists; reflexivity|]. apply nul_free_kind_id. nul_free_literal.
Qed.

Lemma node_ok_kind n n' : node_ok n -> node_ok n' -> id n = id n' -> kind n = kind n'.
Proof. intros [[x Hx] _] [[y Hy] _] E. rewrite Hx, Hy in E. by apply kind_id_inj in E as [-> _]. Qed.

Lemma pairKey_inj s t s' t' :
  Forall (fun u => u <> 0%N) s -> Forall (fun u => u <> 0%N) s' -> pairKey s t = pairKey s' t' -> s = s' /\ t = t'.
Proof. apply app_sep_inj. Qed.

(** *** Stages and paths *)

Lemma getFlowStages_NoDup r : NoDup (getFlowStages r).
Proof. apply (bool_decide_unpack _). by destruct r. Qed.

Lemma resolve_cases r visible :
  resolveVisibleStages r visible = getFlowStages r \/
  exists f, resolveVisibleStages r visible = List.filter f (getFlowStages r) /\
            (2 <= length (resolveVisibleStages r visible))%nat.
Proof.
  unfold resolveVisibleStages. destruct visible as [visible|]; [|by left]. case_match eqn:E; [|by left].
  right. eexists. split; [done|]. by apply Nat.leb_le in E.
Qed.

Lemma NoDup_list_filter {A} (f : A -> bool) l : NoDup l -> NoDup (List.filter f l).
Proof. rewrite !NoDup_ListNoDup. apply List.NoDup_filter. Qed.

Lemma stages_NoDup r visible : NoDup (resolveVisibleStages r visible).
Proof.
  destruct (resolve_cases r visible) as [-> | (f & -> & _)]; [|apply NoDup_list_filter]; apply getFlowStages_NoDup.
Qed.

Lemma stages_two r visible : (2 <= length (resolveVisibleStages r visible))%nat.
Proof. destruct (resolve_cases r visible) as [-> | (f & _ & H)]; [destruct r; cbn; lia|done]. Qed.

Definition path_ok (stages : list FlowNodeKind) (p : list FlowPathNode) : Prop :=
  map kind p = stages /\ Forall node_ok p.

Lemma flowPath_ok row stages ctx : row_clean row -> path_ok stages (flowPathForStages row stages ctx).
Proof.
  intros H. unfold flowPathForStages. split.
  - rewrite map_map. erewrite map_ext; [apply map_id|]. intros k. apply builder_kind.
  - apply Forall_map, Forall_true. intros k. by apply builder_ok.
Qed.

Lemma applyTop_ok stages p top mode labeler p' :
  path_ok stages p -> applyTopNodeLimit p top mode labeler = Some p' -> path_ok stages p'.
Proof.
  intros [Hk Hn]. unfold applyTopNodeLimit. destruct top as [top|]; [|by intros [= <-]].
  case_match; [by intros [= <-] |]. destruct mode; [|done]. intros [= <-]. split.
  - rewrite map_map, <- Hk. apply map_ext. intros n. by case_match.
  - apply Forall_map. eapply Forall_impl; [exact Hn|]. intros n Hok. cbn. case_match; [done|apply other_ok].
Qed.

Lemma prepared_ok rows stages ctx top mode labeler :
  Forall row_clean rows ->
  Forall (fun pr => path_ok stages (path pr)) (preparePaths rows stages ctx top mode labeler).
Proof.
  intros H. unfold preparePaths. apply Forall_forall. intros pr (row & Hrow & Hpr)%list_elem_of_omap.
  rewrite Forall_forall in H. apply fmap_Some in Hpr as (p & Hp & ->).
  eapply applyTop_ok; [|exact Hp]. by apply flowPath_ok, H.
Qed.

(** Unless paths are hidden, every row keeps its path and its metrics. *)
Lemma prepared_metrics rows stages ctx top mode labeler :
  top = None \/ mode = aggregate ->
  map metrics (preparePaths rows stages ctx top mode labeler) = map rowMetrics rows.
Proof.
  intros H. induction rows as [|row rows IH]; [done|]. unfold preparePaths in *. cbn [omap list_omap].
  assert (exists p, applyTopNodeLimit (flowPathForStages row stages ctx) top mode labeler = Some p) as [p ->].
  { unfold applyTopNodeLimit. destruct top as [top|]; [|eauto]. destruct H as [? | ->]; [done|]. case_match; eauto. }
  cbn. by f_equal.
Qed.

(** *** What the two maps add up *)

(** One call of addNode or addLink: the node or step, the metrics, the colour, the key of the colour. *)
Record NodeEntry := MkNodeEntry { ne_node : FlowPathNode; ne_metrics : FlowMetrics; ne_color : jstring; ne_key : jstring }.
Record LinkEntry := MkLinkEntry {
  le_source : FlowPathNode; le_target : FlowPathNode; le_metrics : FlowMetrics; le_color : jstring; le_key : jstring
}.

Section Maps.
Context (chartColors : nat -> list jstring) (metric : FlowMetric) (palette : option (list jstring)).
Context (colors : list (jstring * jstring)).

Definition rootColor (pr : PreparedFlowPath) : jstring * jstring :=
  match path pr with
  | [] => ([], [])
  | root :: _ => (coalesce (mget colors (id root)) (colorAt chartColors 0 palette), id root)
  end.

Definition nodeEntries (pr : PreparedFlowPath) : list NodeEntry :=
  map (fun n => MkNodeEntry n (metrics pr) (rootColor pr).1 (rootColor pr).2) (path pr).
Definition linkEntries (pr : PreparedFlowPath) : list LinkEntry :=
  map (fun st => MkLinkEntry st.1 st.2 (metrics pr) (rootColor pr).1 (rootColor pr).2) (steps (path pr)).

Definition accNodes : NodeMap -> list NodeEntry -> NodeMap :=
  accumulate (fun e => id (ne_node e)) (fun e => newNode (ne_node e) (ne_color e) (ne_key e))
    (fun e => growNode (ne_metrics e) metric).
Definition accLinks : LinkMap -> list LinkEntry -> LinkMap :=
  accumulate (fun e => pairKey (id (le_source e)) (id (le_target e)))
    (fun e => newLink (le_source e) (le_target e) (le_color e) (le_key e))
    (fun e => growLink (le_metrics e) metric).

Lemma foldl_map {A B C} (f : A -> B -> A) (g : C -> B) l a :
  foldl f a (map g l) = foldl (fun a c => f a (g c)) a l.
Proof. revert a. induction l as [|c l IH]; intros a; cbn; [done|]. by rewrite IH. Qed.

Lemma addPath_acc maps pr :
  addPath chartColors metric palette colors maps pr =
  (accNodes maps.1 (nodeEntries pr), accLinks maps.2 (linkEntries pr)).
Proof.
  unfold addPath, nodeEntries, linkEntries, accNodes, accLinks, accumulate, rootColor.
  destruct (path pr) as [|root p] eqn:E; [by destruct maps|]. by rewrite !foldl_map.
Qed.

Lemma graph_maps prepared maps :
  foldl (addPath chartColors metric palette colors) maps prepared =
  (accNodes maps.1 (flat_map nodeEntries prepared), accLinks maps.2 (flat_map linkEntries prepared)).
Proof.
  revert maps. induction prepared as [|pr prepared IH]; intros maps; [by destruct maps|].
  cbn [foldl flat_map]. rewrite IH, addPath_acc. unfold accNodes, accLinks, accumulate. cbn [fst snd].
  by rewrite !foldl_app.
Qed.

(** The maps the graph is made of. *)
Definition nodeMap (prepared : list PreparedFlowPath) : NodeMap := accNodes [] (flat_map nodeEntries prepared).
Definition linkMap (prepared : list PreparedFlowPath) : LinkMap := accLinks [] (flat_map linkEntries prepared).
End Maps.

(** A metric of the graph: its value in a node, in a link and in a path. *)
Inductive measure := of_value | of_quota | of_tokens | of_requests.

Definition node_measure (mu : measure) (n : DashboardFlowNode) : Z :=
  match mu with of_value => n_value n | of_quota => n_quota n | of_tokens => n_tokens n | of_requests => n_requests n end.
Definition link_measure (mu : measure) (l : DashboardFlowLink) : Z :=
  match mu with of_value => l_value l | of_quota => l_quota l | of_tokens => l_tokens l | of_requests => l_requests l end.
Definition path_measure (metric : FlowMetric) (mu : measure) (m : FlowMetrics) : Z :=
  match mu with
  | of_value => metricValue m metric | of_quota => f_quota m | of_tokens => f_tokens m | of_requests => f_requests m
  end.

Section Sums.
Context (chartColors : nat -> list jstring) (metric : FlowMetric) (palette : option (list jstring)).
Context (colors : list (jstring * jstring)) (stages : list FlowNodeKind) (prepared : list PreparedFlowPath).
Context (Hok : Forall (fun pr => path_ok stages (path pr)) prepared).
Context (mu : measure).

Abbreviation nmap := (nodeMap chartColors metric palette colors prepared).
Abbreviation lmap := (linkMap chartColors metric palette colors prepared).

Lemma entry_ok e : In e (flat_map (nodeEntries chartColors palette colors) prepared) -> node_ok (ne_node e).
Proof using Hok.
  intros (pr & Hpr & He)%in_flat_map. apply in_map_iff in He as (n & <- & Hn). cbn.
  rewrite List.Forall_forall in Hok. destruct (Hok _ Hpr) as [_ H]. rewrite List.Forall_forall in H. auto.
Qed.

Lemma in_steps {A} (p : list A) st : In st (steps p) -> In st.1 p /\ In st.2 p.
Proof.
  induction p as [|a p IH]; [done|]. destruct p as [|b p]; [done|]. cbn [steps].
  intros [<- | H]; [cbn; auto|]. destruct (IH H). split; by right.
Qed.

Lemma link_entry_ok e : In e (flat_map (linkEntries chartColors palette colors) prepared) ->
  node_ok (le_source e) /\ node_ok (le_target e).
Proof using Hok.
  intros (pr & Hpr & He)%in_flat_map. apply in_map_iff in He as (st & <- & Hst). cbn.
  rewrite List.Forall_forall in Hok. destruct (Hok _ Hpr) as [_ H]. rewrite List.Forall_forall in H.
  apply in_steps in Hst as [? ?]. auto.
Qed.

(** What the nodes a predicate on ids and kinds selects add up to. *)
Lemma nodes_sum (p : jstring * FlowNodeKind -> bool) :
  zsum_of (fun kv => if p (n_id kv.2, n_kind kv.2) then node_measure mu kv.2 else 0) nmap =
  zsum_of (fun pr => zsum_of (fun n => if p (id n, kind n) then path_measure metric mu (metrics pr) else 0) (path pr))
    prepared.
Proof using Hok.
  unfold nodeMap, accNodes.
  rewrite (accumulate_sum _ _ _ (fun n => (n_id n, n_kind n)) (fun e => (id (ne_node e), kind (ne_node e)))
             (node_measure mu) (fun e => path_measure metric mu (ne_metrics e))).
  - rewrite zsum_of_flat_map. apply zsum_of_ext, Forall_true. intros pr. unfold nodeEntries, zsum_of.
    by rewrite map_map.
  - intros e e' He%entry_ok He'%entry_ok E. by rewrite (node_ok_kind _ _ He He' E), E.
  - intros e. split; [done|]. by destruct mu.
  - intros e v. split; [done|]. by destruct mu.
Qed.

Lemma links_sum (p : jstring * jstring -> bool) :
  zsum_of (fun kv => if p (l_source kv.2, l_target kv.2) then link_measure mu kv.2 else 0) lmap =
  zsum_of (fun pr => zsum_of (fun st => if p (id st.1, id st.2) then path_measure metric mu (metrics pr) else 0)
                       (steps (path pr))) prepared.
Proof using Hok.
  unfold linkMap, accLinks.
  rewrite (accumulate_sum _ _ _ (fun l => (l_source l, l_target l)) (fun e => (id (le_source e), id (le_target e)))
             (link_measure mu) (fun e => path_measure metric mu (le_metrics e))).
  - rewrite zsum_of_flat_map. apply zsum_of_ext, Forall_true. intros pr. unfold linkEntries, zsum_of.
    by rewrite map_map.
  - intros e e' [[_ He] _]%link_entry_ok [[_ He'] _]%link_entry_ok E.
    by destruct (pairKey_inj _ _ _ _ He He' E) as [-> ->].
  - intros e. split; [done|]. by destruct mu.
  - intros e v. split; [done|]. by destruct mu.
Qed.
End Sums.

(** Along a path, the targets of the steps are all but the first node, the sources
    all but the last. *)
Lemma steps_targets {A} (f : A -> Z) a p : zsum_of (fun st => f st.2) (steps (a :: p)) = zsum_of f p.
Proof.
  revert a. induction p as [|b p IH]; intros a; [done|].
  change (steps (a :: b :: p)) with ((a, b) :: steps (b :: p)).
  unfold zsum_of in *. cbn [map zsum foldr snd]. unfold zsum in *. by rewrite IH.
Qed.

Lemma steps_sources {A} (f : A -> Z) p z : zsum_of (fun st => f st.1) (steps (p ++ [z])) = zsum_of f p.
Proof.
  induction p as [|a p IH]; [done|]. destruct p as [|b p]; [done|].
  change (steps ((a :: b :: p) ++ [z])) with ((a, b) :: steps ((b :: p) ++ [z])).
  unfold zsum_of in *. cbn [map zsum foldr fst]. unfold zsum in *. by rewrite IH.
Qed.

(** *** The graph and the maps *)

(** What masking and highlighting leave alone. *)
Definition node_core (n : DashboardFlowNode) : jstring * FlowNodeKind * (measure -> Z) :=
  (n_id n, n_kind n, fun mu => node_measure mu n).
Definition link_core (l : DashboardFlowLink) : jstring * jstring * (measure -> Z) :=
  (l_source l, l_target l, fun mu => link_measure mu l).

Section GraphFacts.
Context (localeCompare : jstring -> jstring -> Z) (chartColors : nat -> list jstring).
Context (rows : list FlowQuotaDataItem) (metric : FlowMetric) (r : FlowRole) (palette : option (list jstring)).
Context (visible : option (list FlowNodeKind)) (ctx : FlowPathContext) (options : FlowBuildOptions).

Definition theStages : list FlowNodeKind := resolveVisibleStages r visible.
Definition theTop : option TopSets :=
  buildTopNodeSets localeCompare rows metric theStages (normalizeTopNodeLimit (topNodeLimit options)) ctx.
Definition theMode : FlowOverflowMode := coalesce (overflowMode options) aggregate.
Definition thePaths : list PreparedFlowPath :=
  preparePaths rows theStages ctx theTop theMode (otherNodeLabel options).
Definition theColors : list (jstring * jstring) :=
  stableColorMap chartColors (js_sort localeCompare (rootIds thePaths)) palette.
Definition theHighlights : option FlowHighlightSets :=
  buildFlowHighlightSets thePaths (activeNode options) (activeLink options) theStages.
Definition theNodes : NodeMap := nodeMap chartColors metric palette theColors thePaths.
Definition theLinks : LinkMap := linkMap chartColors metric palette theColors thePaths.

Definition theGraph : DashboardFlowGraph :=
  buildFlowGraph localeCompare chartColors rows metric r palette visible ctx options.

Definition finishNode (n : DashboardFlowNode) : DashboardFlowNode :=
  let n := if maskSensitive options then maskNode n else n in
  match theHighlights with Some h => highlightNode h n | None => n end.
Definition finishLink (l : DashboardFlowLink) : DashboardFlowLink :=
  let l := if maskSensitive options
           then match maskedById theNodes with [] => l | m => maskLink m l end else l in
  match theHighlights with Some h => highlightLink h l | None => l end.

Definition finishedLinks : list DashboardFlowLink :=
  js_sort (byEnds localeCompare) (map finishLink (map snd theLinks)).

Definition theTotal : Z :=
  zsum_of l_value (List.filter (fun l => bool_decide (l_source l ∈ rootIds thePaths)) finishedLinks).

Lemma map_snd_fmap {K V W} (f : V -> W) (m : list (K * V)) :
  map snd (prod_map Datatypes.id f <$> m) = map f (map snd m).
Proof. change (prod_map Datatypes.id f <$> m) with (map (prod_map Datatypes.id f) m). by rewrite !map_map. Qed.

Lemma theGraph_eq :
  theGraph = MkGraph (js_sort (byValueThenLabel localeCompare) (map finishNode (map snd theNodes)))
                     (map (withShare theTotal) finishedLinks).
Proof.
  unfold theGraph, buildFlowGraph. cbv zeta. fold theStages theMode. fold theTop. fold thePaths. fold theColors.
  rewrite graph_maps. cbn [fst snd].
  fold (nodeMap chartColors metric palette theColors thePaths) (linkMap chartColors metric palette theColors thePaths).
  fold theNodes theLinks theHighlights.
  unfold theTotal, finishedLinks, finishNode, finishLink, applyFlowHighlights, maskFlowGraphLabels.
  destruct (maskSensitive options), (maskedById theNodes), theHighlights;
    cbn [fst snd]; rewrite ?map_snd_fmap, ?map_id, ?map_map; reflexivity.
Qed.

Lemma finishNode_core n : node_core (finishNode n) = node_core n.
Proof. unfold finishNode, maskNode. destruct (maskSensitive options), (isMasked n), theHighlights; reflexivity. Qed.

Lemma finishLink_core l : link_core (finishLink l) = link_core l.
Proof.
  unfold finishLink. destruct (maskSensitive options), (maskedById theNodes), theHighlights; reflexivity.
Qed.

(** Sums over the graph are sums over the maps. *)
Lemma graph_nodes_sum (f : jstring * FlowNodeKind * (measure -> Z) -> Z) :
  zsum_of (fun n => f (node_core n)) (nodes theGraph) = zsum_of (fun kv => f (node_core kv.2)) theNodes.
Proof.
  rewrite theGraph_eq. cbn [nodes]. rewrite (zsum_of_perm _ _ _ (js_sort_perm _ _)). unfold zsum_of.
  rewrite !map_map. f_equal. apply map_ext. intros n. by rewrite finishNode_core.
Qed.

Lemma graph_links_sum (f : jstring * jstring * (measure -> Z) -> Z) :
  zsum_of (fun l => f (link_core l)) (links theGraph) = zsum_of (fun kv => f (link_core kv.2)) theLinks.
Proof.
  rewrite theGraph_eq. cbn [links]. unfold finishedLinks, zsum_of at 1. rewrite map_map.
  change (zsum_of (fun l => f (link_core (withShare theTotal l))) (js_sort (byEnds localeCompare) (map finishLink (map snd theLinks))) =
          zsum_of (fun kv => f (link_core kv.2)) theLinks).
  rewrite (zsum_of_perm _ _ _ (js_sort_perm _ _)). unfold zsum_of.
  rewrite !map_map. f_equal. apply map_ext. intros l.
  change (link_core (withShare theTotal (finishLink l.2))) with (link_core (finishLink l.2)).
  by rewrite finishLink_core.
Qed.
End GraphFacts.

Definition inflow (mu : measure) (g : DashboardFlowGraph) (t : jstring) : Z :=
  zsum_of (fun l => if bool_decide (l_target l = t) then link_measure mu l else 0) (links g).
Definition outflow (mu : measure) (g : DashboardFlowGraph) (s : jstring) : Z :=
  zsum_of (fun l => if bool_decide (l_source l = s) then link_measure mu l else 0) (links g).
(** What the nodes of a column add up to. *)
Definition columnTotal (mu : measure) (g : DashboardFlowGraph) (k : FlowNodeKind) : Z :=
  zsum_of (fun n => if bool_decide (n_kind n = k) then node_measure mu n else 0) (nodes g).

Definition summary_measure (metric : FlowMetric) (mu : measure) (s : FlowSummary) : Z :=
  path_measure metric mu (MkMetrics (s_quota s) (s_tokens s) (s_requests s)).

Section Conservation.
Context (localeCompare : jstring -> jstring -> Z) (chartColors : nat -> list jstring).
Context (rows : list FlowQuotaDataItem) (metric : FlowMetric) (r : FlowRole) (palette : option (list jstring)).
Context (visible : option (list FlowNodeKind)) (ctx : FlowPathContext) (options : FlowBuildOptions).
Context (Hclean : Forall row_clean rows).

Abbreviation g := (theGraph localeCompare chartColors rows metric r palette visible ctx options).
Abbreviation stages := (theStages r visible).
Abbreviation paths := (thePaths localeCompare rows metric r visible ctx options).
Abbreviation nmap := (theNodes localeCompare chartColors rows metric r palette visible ctx options).
Abbreviation lmap := (theLinks localeCompare chartColors rows metric r palette visible ctx options).

Lemma paths_ok : Forall (fun pr => path_ok stages (path pr)) paths.
Proof using Hclean. by apply prepared_ok. Qed.

Lemma node_entries_shape kv : In kv nmap ->
  kv.1 = n_id kv.2 /\ exists pr n, In pr paths /\ In n (path pr) /\ id n = n_id kv.2 /\ kind n = n_kind kv.2.
Proof using Hclean.
  destruct kv as [k v]. cbn. unfold theNodes, nodeMap, accNodes.
  apply (accumulate_Forall _ _ _ (fun k v => k = n_id v /\ exists pr n, In pr paths /\ In n (path pr) /\ id n = n_id v /\ kind n = n_kind v)).
  - intros e (pr & Hpr & He)%in_flat_map. apply in_map_iff in He as (n & <- & Hn). cbn. eauto 10.
  - intros e k0 v0 _ H _. exact H.
  - done.
Qed.

Lemma link_entries_shape kv : In kv lmap ->
  exists pr st, In pr paths /\ In st (steps (path pr)) /\ id st.1 = l_source kv.2 /\ id st.2 = l_target kv.2.
Proof using Hclean.
  destruct kv as [k v]. cbn. unfold theLinks, linkMap, accLinks.
  apply (accumulate_Forall _ _ _ (fun k v => exists pr st, In pr paths /\ In st (steps (path pr)) /\ id st.1 = l_source v /\ id st.2 = l_target v)).
  - intros e (pr & Hpr & He)%in_flat_map. apply in_map_iff in He as (st & <- & Hst). cbn. eauto 10.
  - intros e k0 v0 _ H _. exact H.
  - done.
Qed.

Lemma nodes_ids_perm : map n_id (nodes g) ≡ₚ map fst nmap.
Proof using Hclean.
  rewrite theGraph_eq. cbn [nodes]. rewrite (Permutation_map n_id (js_sort_perm _ _)), !map_map.
  match goal with |- ?a ≡ₚ ?b => cut (a = b); [by intros ->|] end.
  apply map_ext_in. intros kv Hkv. destruct (node_entries_shape kv Hkv) as [-> _].
  exact (f_equal (fun c => c.1.1) (finishNode_core localeCompare rows metric r visible ctx options kv.2)).
Qed.

Lemma nodes_ids_NoDup : NoDup (map n_id (nodes g)).
Proof using Hclean.
  rewrite nodes_ids_perm. unfold theNodes, nodeMap, accNodes. apply accumulate_NoDup. constructor.
Qed.

(** A node of the graph is on a path. *)
Lemma graph_node_shape n : In n (nodes g) ->
  exists pr m, In pr paths /\ In m (path pr) /\ id m = n_id n /\ kind m = n_kind n.
Proof using Hclean.
  rewrite theGraph_eq. cbn [nodes]. intros H.
  apply (Permutation_in _ (js_sort_perm _ _)) in H. rewrite map_map in H.
  apply in_map_iff in H as (kv & <- & Hkv).
  destruct (node_entries_shape kv Hkv) as [_ (pr & m & Hpr & Hm & Hi & Hk)]. exists pr, m.
  pose proof (finishNode_core localeCompare rows metric r visible ctx options kv.2) as C.
  rewrite (f_equal (fun c => c.1.1) C : n_id _ = _), (f_equal (fun c => c.1.2) C : n_kind _ = _). done.
Qed.

Lemma column_paths mu k :
  columnTotal mu g k =
  zsum_of (fun pr => zsum_of (fun n => if bool_decide (kind n = k) then path_measure metric mu (metrics pr) else 0) (path pr)) paths.
Proof using Hclean.
  unfold columnTotal.
  etransitivity; [exact (graph_nodes_sum localeCompare chartColors rows metric r palette visible ctx options
             (fun c => if bool_decide (c.1.2 = k) then c.2 mu else 0))|].
  exact (nodes_sum _ _ _ _ stages paths paths_ok mu (fun c => bool_decide (c.2 = k))).
Qed.

Lemma node_paths mu n : In n (nodes g) ->
  node_measure mu n =
  zsum_of (fun pr => zsum_of (fun m => if bool_decide (id m = n_id n) then path_measure metric mu (metrics pr) else 0) (path pr)) paths.
Proof using Hclean.
  intros H. rewrite <- (zsum_of_unique n_id (node_measure mu) (nodes g) n nodes_ids_NoDup H).
  etransitivity; [exact (graph_nodes_sum localeCompare chartColors rows metric r palette visible ctx options
             (fun c => if bool_decide (c.1.1 = n_id n) then c.2 mu else 0))|].
  exact (nodes_sum _ _ _ _ stages paths paths_ok mu (fun c => bool_decide (c.1 = n_id n))).
Qed.

Lemma inflow_paths mu t :
  inflow mu g t =
  zsum_of (fun pr => zsum_of (fun st => if bool_decide (id st.2 = t) then path_measure metric mu (metrics pr) else 0) (steps (path pr))) paths.
Proof using Hclean.
  unfold inflow.
  etransitivity; [exact (graph_links_sum localeCompare chartColors rows metric r palette visible ctx options
             (fun c => if bool_decide (c.1.2 = t) then c.2 mu else 0))|].
  exact (links_sum _ _ _ _ stages paths paths_ok mu (fun c => bool_decide (c.2 = t))).
Qed.

Lemma outflow_paths mu s :
  outflow mu g s =
  zsum_of (fun pr => zsum_of (fun st => if bool_decide (id st.1 = s) then path_measure metric mu (metrics pr) else 0) (steps (path pr))) paths.
Proof using Hclean.
  unfold outflow.
  etransitivity; [exact (graph_links_sum localeCompare chartColors rows metric r palette visible ctx options
             (fun c => if bool_decide (c.1.1 = s) then c.2 mu else 0))|].
  exact (links_sum _ _ _ _ stages paths paths_ok mu (fun c => bool_decide (c.1 = s))).
Qed.

Lemma path_kind pr n m : In pr paths -> In n (path pr) ->
  (exists pr', In pr' paths /\ In m (path pr')) -> id m = id n -> kind m = kind n.
Proof using Hclean.
  pose proof paths_ok as Hok. rewrite List.Forall_forall in Hok. intros Hpr Hn (pr' & Hpr' & Hm).
  destruct (Hok _ Hpr) as [_ F], (Hok _ Hpr') as [_ F']. rewrite List.Forall_forall in F, F'.
  apply node_ok_kind; auto.
Qed.
End Conservation.

(** *** Columns *)

Lemma summary_sum metric mu rows :
  summary_measure metric mu (buildSummary rows) = zsum_of (path_measure metric mu) (map rowMetrics rows).
Proof.
  unfold buildSummary. induction rows as [|row rows IH] using rev_ind; [by destruct mu, metric|].
  rewrite foldl_snoc, map_app, zsum_of_app, <- IH. unfold zsum_of, zsum. cbn [map foldr].
  set (s := foldl _ _ rows). clear. unfold summary_measure. destruct mu, metric; cbn; lia.
Qed.

(** A path meets a column once. *)
Lemma path_column stages p k w : path_ok stages p -> NoDup stages -> In k stages ->
  zsum_of (fun n => if bool_decide (kind n = k) then w else 0) p = w.
Proof.
  intros [<- _] Hnd Hk. unfold zsum_of.
  etransitivity; [exact (f_equal zsum (eq_sym (map_map kind (fun k' => if bool_decide (k' = k) then w else 0) p)))|].
  apply (zsum_of_unique Datatypes.id (fun _ => w) (map kind p) k); [by rewrite map_id|done].
Qed.

(** *** The top nodes *)

Lemma mget_fmap {K V W} `{EqDecision K} (f : V -> W) (m : list (K * V)) k :
  mget (prod_map Datatypes.id f <$> m) k = f <$> mget m k.
Proof. induction m as [|[k0 v0] m IH]; cbn; [done|]. by destruct (decide (k0 = k)). Qed.

Lemma stageTotals_keys rows metric stages ctx k :
  In k stages -> exists ranks, mget (stageTotals rows metric stages ctx) k = Some ranks.
Proof.
  intros Hk. unfold stageTotals.
  assert (is_Some (mget (foldl (fun m stage => mset m stage []) ([] : StageTotals) stages) k)) as H0.
  { apply list_elem_of_In in Hk. revert Hk. induction stages as [|s stages IH] using rev_ind; [by intros ?%not_elem_of_nil|].
    rewrite foldl_snoc, mget_mset, elem_of_app, list_elem_of_singleton. intros [Hk| ->]; case_decide; eauto; done. }
  revert H0. generalize (foldl (fun m stage => mset m stage []) ([] : StageTotals) stages).
  induction rows as [|row rows IH]; intros t Ht; [done|]. cbn [foldl]. apply IH. clear IH.
  revert t Ht. generalize (flowPathForStages row stages ctx). intros p.
  induction p as [|n p IH]; intros t Ht; [done|]. cbn [foldl]. apply IH.
  destruct (mget t (kind n)); [|done]. rewrite mget_mset. case_decide; eauto.
Qed.

(** Every node a limited path keeps is a top node or the node of the others. *)
Lemma limited_path rows stages ctx T mode labeler pr n :
  In pr (preparePaths rows stages ctx (Some T) mode labeler) -> In n (path pr) ->
  isTopFlowNode n (Some T) = true \/ mode = aggregate /\ id n = OTHER_FLOW_NODE_IDS (kind n).
Proof.
  unfold preparePaths. intros Hpr Hn. apply list_elem_of_In, list_elem_of_omap in Hpr as (row & _ & Hpr).
  apply fmap_Some in Hpr as (p & Hp & ->). cbn in Hn. revert Hp. unfold applyTopNodeLimit.
  destruct (existsb (fun node => negb (isTopFlowNode node (Some T))) (flowPathForStages row stages ctx)) eqn:E.
  - cbn [negb]. destruct mode; [|discriminate]. intros [= <-]. apply in_map_iff in Hn as (m & <- & Hm).
    change (match mget T (kind m) with Some ids => _ | None => _ end) with (isTopFlowNode m (Some T)).
    destruct (isTopFlowNode m (Some T)) eqn:E'; [left; exact E'|by right].
  - intros [= <-]. left. destruct (isTopFlowNode n (Some T)) eqn:E'; [done|]. exfalso.
    assert (existsb (fun node => negb (isTopFlowNode node (Some T))) (flowPathForStages row stages ctx) = true); [|congruence].
    apply existsb_exists. exists n. by rewrite E'.
Qed.

(** *** Masking *)

Definition is_mask (l : jstring) : Prop := l = [] \/ l = FLOW_MASK_TEXT.

Lemma maskFlowLabel_mask l : is_mask (maskFlowLabel l).
Proof. destruct l; [by left|by right]. Qed.

Lemma isMasked_core n n' : node_core n = node_core n' -> isMasked n = isMasked n'.
Proof.
  intros E. unfold isMasked. by rewrite (f_equal (fun c => c.1.1) E : n_id n = _), (f_equal (fun c => c.1.2) E : n_kind n = _).
Qed.

Lemma maskedById_spec ns :
  (forall i l, mget (maskedById ns) i = Some l -> is_mask l) /\
  (forall kv, In kv ns -> isMasked kv.2 = true -> is_Some (mget (maskedById ns) (n_id kv.2))).
Proof.
  unfold maskedById. induction ns as [|x ns [IH1 IH2]] using rev_ind; [by split|].
  rewrite foldl_snoc. set (m := foldl _ [] ns) in *. split.
  - intros i l. destruct (isMasked x.2); [|apply IH1]. rewrite mget_mset. case_decide; [|apply IH1].
    intros [= <-]. apply maskFlowLabel_mask.
  - intros kv [H | [-> | []]]%in_app_or Hm; [|rewrite Hm, mget_mset, decide_True; by eauto].
    destruct (isMasked x.2); [|auto]. rewrite mget_mset. case_decide; eauto.
Qed.

(** *** Filters *)

Definition selects (selected : list FlowNodeFilter) (stages : list FlowNodeKind) (k : FlowNodeKind) (i : jstring) : Prop :=
  k ∈ stages /\ exists f, In f selected /\ filter_kind f = k /\ filter_id f = i.

Lemma elem_of_set_add {A} `{EqDecision A} (x y : A) s : y ∈ set_add x s <-> y = x \/ y ∈ s.
Proof.
  unfold set_add. case_bool_decide; [|rewrite elem_of_app, list_elem_of_singleton; tauto].
  split; [auto|]. by intros [-> | ?].
Qed.

Lemma set_add_not_nil {A} `{EqDecision A} (x : A) s : set_add x s <> [].
Proof. intros E. apply (not_elem_of_nil x). rewrite <- E. apply elem_of_set_add. by left. Qed.

(** The ids a filter map has for a kind. *)
Definition ids_of (m : NodeFilters) (k : FlowNodeKind) : list jstring := coalesce (mget m k) [].

Lemma ids_of_update m k x k' i :
  i ∈ ids_of (mupdate m k [] (set_add x)) k' <-> (k = k' /\ i = x) \/ i ∈ ids_of m k'.
Proof.
  unfold ids_of, mupdate. rewrite mget_mset. case_decide as Hk; cbn; [subst k'|tauto].
  rewrite elem_of_set_add. tauto.
Qed.

Lemma normalize_spec selected stages :
  let m := normalizeSelectedNodeFilters (Some selected) stages in
  NoDup (map fst m) /\ (forall k i, i ∈ ids_of m k <-> selects selected stages k i) /\
  (forall k ids, In (k, ids) m -> ids <> []).
Proof.
  unfold normalizeSelectedNodeFilters. cbn [coalesce from_option Datatypes.id].
  induction selected as [|f selected (IH0 & IH1 & IH2)] using rev_ind; cbn zeta in *.
  - cbn. split; [constructor|]. split; [|done]. intros k i. split; [by intros ?%not_elem_of_nil|by intros (_ & ? & [] & _)].
  - rewrite foldl_snoc. set (m := foldl _ [] selected) in *. case_bool_decide as Hf.
    + split; [by apply mset_NoDup|]. split.
      * intros k i. rewrite ids_of_update, IH1. unfold selects. setoid_rewrite in_app_iff. cbn [In]. split.
        -- intros [[<- ->] | (Hk & f' & ? & ? & ?)]; [split; [done|]; exists f; auto|split; [done|]; exists f'; auto].
        -- intros (Hk & f' & [? | [<- | []]] & <- & <-); [right|by left]. split; [done|]. by exists f'.
      * intros k ids [H | [-> ->]]%In_mset; [by eapply IH2|apply set_add_not_nil].
    + split; [done|]. split; [|done]. intros k i. rewrite IH1. unfold selects. setoid_rewrite in_app_iff. cbn [In]. split.
      * intros (Hk & f' & ? & ? & ?). split; [done|]. exists f'. auto.
      * intros (Hk & f' & [? | [<- | []]] & <- & <-); [|done]. split; [done|]. by exists f'.
Qed.

Lemma pathNodesByKind_spec p k i : i ∈ ids_of (pathNodesByKind p) k <-> exists n, In n p /\ kind n = k /\ id n = i.
Proof.
  unfold pathNodesByKind. induction p as [|n p IH] using rev_ind.
  - split; [by intros ?%not_elem_of_nil|by intros (? & [] & _)].
  - rewrite foldl_snoc, ids_of_update, IH. setoid_rewrite in_app_iff. cbn [In]. split.
    + intros [[<- ->] | (m & ? & ? & ?)]; [exists n; auto|exists m; auto].
    + intros (m & [? | [<- | []]] & <- & <-); [right; by exists m|by left].
Qed.

Lemma pathMatches_spec p filters :
  pathMatchesNodeFilters p filters = true <->
  forall k ids, In (k, ids) filters -> exists i, i ∈ ids /\ i ∈ ids_of (pathNodesByKind p) k.
Proof.
  transitivity (forallb (fun f => match mget (pathNodesByKind p) f.1 with
                        | None => false
                        | Some pathIds => existsb (fun i => bool_decide (i ∈ pathIds)) f.2
                        end) filters = true); [by destruct filters|].
  rewrite forallb_forall. split.
  - intros H k ids Hin. specialize (H _ Hin). cbn in H. unfold ids_of.
    destruct (mget (pathNodesByKind p) k) as [pathIds|]; [|done].
    apply existsb_exists in H as (i & Hi & Hp%bool_decide_eq_true_1). exists i. split; [by apply list_elem_of_In|done].
  - intros H [k ids] Hin. cbn. destruct (H _ _ Hin) as (i & Hi & Hp). unfold ids_of in Hp.
    destruct (mget (pathNodesByKind p) k) as [pathIds|]; cbn in Hp; [|by apply not_elem_of_nil in Hp].
    apply existsb_exists. exists i. split; [by apply list_elem_of_In|by apply bool_decide_eq_true_2].
Qed.

(** ** Properties *)

(** C4. The flow is conserved: in every metric, what flows into a node that is not in the
    first column is its value, and what flows out of a node that is not in the last
    column is its value, whatever the limit, the filters and the masking are.  The names of
    the rows hold no NUL ([row_clean]), which a database text cannot hold: the key of a link
    is its two names with a NUL between them. *)
Theorem flow_conservation localeCompare chartColors rows metric r palette visible ctx options n mu :
  Forall row_clean rows ->
  let g := buildFlowGraph localeCompare chartColors rows metric r palette visible ctx options in
  let stages := resolveVisibleStages r visible in
  In n (nodes g) ->
  (head stages <> Some (n_kind n) -> inflow mu g (n_id n) = node_measure mu n) /\
  (last stages <> Some (n_kind n) -> outflow mu g (n_id n) = node_measure mu n).
Proof.
  intros Hclean g stages Hn.
  pose proof (paths_ok localeCompare rows metric r visible ctx options Hclean) as Hok.
  destruct (graph_node_shape localeCompare chartColors rows metric r palette visible ctx options Hclean n Hn)
    as (pr0 & m & Hpr0 & Hm & Hid & Hkind).
  pose proof (path_kind localeCompare rows metric r visible ctx options Hclean) as Hpk.
  change g with (theGraph localeCompare chartColors rows metric r palette visible ctx options).
  rewrite (node_paths localeCompare chartColors rows metric r palette visible ctx options Hclean mu n Hn).
  rewrite inflow_paths, outflow_paths by done.
  split; intros Hs; apply zsum_of_ext, List.Forall_forall; intros pr Hpr;
    cbn beta; rewrite List.Forall_forall in Hok; destruct (Hok _ Hpr) as [Hkinds _].
  - destruct (path pr) as [|a p] eqn:E; [done|].
    etransitivity; [exact (steps_targets (fun x => if bool_decide (id x = n_id n) then path_measure metric mu (metrics pr) else 0) a p)|].
    unfold zsum_of. cbn [map zsum foldr]. rewrite bool_decide_eq_false_2; [done|]. intros Ha. apply Hs.
    unfold stages. fold (theStages r visible). rewrite <- Hkinds. cbn. f_equal. rewrite <- Hkind.
    apply (Hpk pr0 m a); [done|done|exists pr; rewrite E; split; [done|by left]|congruence].
  - destruct (path pr) as [|a p _] eqn:E using rev_ind; [done|].
    etransitivity; [exact (steps_sources (fun x => if bool_decide (id x = n_id n) then path_measure metric mu (metrics pr) else 0) p a)|].
    rewrite zsum_of_app. unfold zsum_of at 3. cbn [map zsum foldr]. rewrite bool_decide_eq_false_2; [lia|]. intros Ha. apply Hs.
    unfold stages. fold (theStages r visible). rewrite <- Hkinds, map_app. cbn [map]. rewrite last_snoc. f_equal. rewrite <- Hkind.
    apply (Hpk pr0 m a); [done|done|exists pr; rewrite E; split; [done|apply in_or_app; right; by left]|congruence].
Qed.

(** Nothing is lost and nothing is counted twice: unless paths are hidden, every
    column of the graph adds up, in every metric, to the summary of the rows. *)
Theorem columns_add_up localeCompare chartColors rows metric r palette visible ctx options mu k :
  Forall row_clean rows ->
  normalizeTopNodeLimit (topNodeLimit options) = None \/ overflowMode options <> Some hide ->
  In k (resolveVisibleStages r visible) ->
  columnTotal mu (buildFlowGraph localeCompare chartColors rows metric r palette visible ctx options) k =
  summary_measure metric mu (buildSummary rows).
Proof.
  intros Hclean Hmode Hk.
  etransitivity; [exact (column_paths localeCompare chartColors rows metric r palette visible ctx options Hclean mu k)|].
  rewrite summary_sum.
  rewrite <- (prepared_metrics rows (theStages r visible) ctx
                (theTop localeCompare rows metric r visible ctx options) (theMode options) (otherNodeLabel options)).
  2: { unfold theTop, theMode. destruct Hmode as [-> | Hm]; [by left|right].
       by destruct (overflowMode options) as [[]|]. }
  fold (thePaths localeCompare rows metric r visible ctx options). unfold zsum_of at 3. rewrite map_map.
  apply zsum_of_ext. eapply Forall_impl; [by apply paths_ok|]. intros pr Hpr. cbn.
  apply (path_column (theStages r visible)); [done|apply stages_NoDup|done].
Qed.

(** The limit bounds every column: at most the limit of nodes when paths beyond it
    are hidden, one more for the others when they are aggregated. *)
Theorem top_limit localeCompare chartColors rows metric r palette visible ctx options limit k :
  Forall row_clean rows ->
  normalizeTopNodeLimit (topNodeLimit options) = Some limit ->
  In k (resolveVisibleStages r visible) ->
  Z.of_nat (length (List.filter (fun n => bool_decide (n_kind n = k))
    (nodes (buildFlowGraph localeCompare chartColors rows metric r palette visible ctx options)))) <=
  match overflowMode options with Some hide => limit | _ => limit + 1 end.
Proof.
  intros Hclean Hlimit Hk. set (g := buildFlowGraph _ _ _ _ _ _ _ _ _). set (column := List.filter _ (nodes g)).
  set (ranks := stageTotals rows metric (theStages r visible) ctx).
  destruct (stageTotals_keys rows metric (theStages r visible) ctx k Hk) as [rk Hrk].
  set (ids := topIds localeCompare limit rk).
  set (others := match overflowMode options with Some hide => [] | _ => [OTHER_FLOW_NODE_IDS k] end).
  assert (0 < limit) as Hpos.
  { revert Hlimit. unfold normalizeTopNodeLimit. destruct (topNodeLimit options) as [[]|]; try done.
    destruct (Z.ltb_spec 0 (Qfloor q)); [by intros [= <-]|done]. }
  assert (length ids <= Z.to_nat limit)%nat as Hids.
  { unfold ids, topIds. rewrite length_map, length_take. lia. }
  assert (length column <= length (others ++ ids))%nat as H.
  { rewrite <- (length_map n_id column). apply NoDup_incl_length.
    - pose proof (nodes_ids_NoDup localeCompare chartColors rows metric r palette visible ctx options Hclean) as Hnd.
      apply NoDup_ListNoDup in Hnd. unfold column. clear -Hnd. change (theGraph _ _ _ _ _ _ _ _ _) with g in Hnd.
      induction (nodes g) as [|n l IH]; [constructor|]. cbn in *. apply List.NoDup_cons_iff in Hnd as [Hn Hl].
      case_bool_decide; [|auto]. cbn. constructor; [|auto]. intros Hin. apply Hn.
      apply in_map_iff in Hin as (m & <- & Hm). apply filter_In in Hm as [Hm _]. by apply in_map.
    - intros i (n & <- & Hn)%in_map_iff. apply filter_In in Hn as [Hn Hkn%bool_decide_eq_true_1].
      destruct (graph_node_shape localeCompare chartColors rows metric r palette visible ctx options Hclean n Hn)
        as (pr & m & Hpr & Hm & <- & Hkind). rewrite Hkn in Hkind.
      unfold thePaths, theTop, buildTopNodeSets in Hpr. rewrite Hlimit in Hpr.
      destruct (limited_path _ _ _ _ _ _ _ _ Hpr Hm) as [Htop | [Hmode ->]].
      + apply in_or_app. right. unfold isTopFlowNode in Htop. rewrite mget_fmap, Hkind, Hrk in Htop.
        by apply bool_decide_eq_true_1, list_elem_of_In in Htop.
      + apply in_or_app. left. unfold others. rewrite Hkind. unfold theMode in Hmode.
        destruct (overflowMode options) as [[]|]; cbn in *; auto; done. }
  rewrite length_app in H. unfold others in H. destruct (overflowMode options) as [[]|]; cbn [length] in H; lia.
Qed.

(** Masking hides every sensitive name: the label of a masked node, and the label
    a link shows for it, is the mask or empty. *)
Theorem masked_labels localeCompare chartColors rows metric r palette visible ctx options n :
  Forall row_clean rows -> maskSensitive options = true ->
  let g := buildFlowGraph localeCompare chartColors rows metric r palette visible ctx options in
  In n (nodes g) -> isMasked n = true ->
  is_mask (n_label n) /\
  (forall l, In l (links g) ->
     (l_source l = n_id n -> is_mask (l_sourceLabel l)) /\ (l_target l = n_id n -> is_mask (l_targetLabel l))).
Proof.
  intros Hclean Hmask g. change g with (theGraph localeCompare chartColors rows metric r palette visible ctx options).
  rewrite theGraph_eq. cbn [nodes links]. intros Hn Hm.
  apply (Permutation_in _ (js_sort_perm _ _)) in Hn. rewrite map_map in Hn. apply in_map_iff in Hn as (kv & <- & Hkv).
  pose proof (finishNode_core localeCompare rows metric r visible ctx options kv.2) as C.
  rewrite (isMasked_core _ _ C) in Hm. rewrite (f_equal (fun c => c.1.1) C : n_id _ = n_id kv.2).
  destruct (maskedById_spec (theNodes localeCompare chartColors rows metric r palette visible ctx options)) as [M1 M2].
  destruct (M2 _ Hkv Hm) as [lbl Hlbl]. split.
  - unfold finishNode, maskNode. rewrite Hmask, Hm. destruct (theHighlights localeCompare rows metric r visible ctx options); apply maskFlowLabel_mask.
  - intros l Hl. apply in_map_iff in Hl as (l1 & <- & Hl). unfold finishedLinks in Hl.
    apply (Permutation_in _ (js_sort_perm _ _)), in_map_iff in Hl as (l0 & <- & _).
    unfold finishLink. rewrite Hmask.
    destruct (maskedById (theNodes localeCompare chartColors rows metric r palette visible ctx options)) as [|kv' m'] eqn:E; [done|].
    rewrite <- E in *. destruct (theHighlights localeCompare rows metric r visible ctx options);
      cbn [withShare l_source l_target highlightLink maskLink withLinkLabels l_sourceLabel l_targetLabel];
      split; intros ->; rewrite Hlbl; by apply (M1 _ _ Hlbl).
Qed.

(** Masking changes labels and nothing else: with the labels erased, the links are
    the same in the same order and the nodes are the same. *)
Theorem masking_keeps_graph localeCompare chartColors rows metric r palette visible ctx options :
  let unmasked := MkOptions (role options) (selectedUsers options) (selectedNodes options) (activeNode options)
    (activeLink options) (opt_colorPalette options) (visibleStages options) (topNodeLimit options)
    (overflowMode options) false (deletedTokenLabelOf options) (otherNodeLabel options) in
  let g := buildFlowGraph localeCompare chartColors rows metric r palette visible ctx options in
  let g' := buildFlowGraph localeCompare chartColors rows metric r palette visible ctx unmasked in
  map (withLinkLabels [] []) (links g) = map (withLinkLabels [] []) (links g') /\
  map (withNodeLabel []) (nodes g) ≡ₚ map (withNodeLabel []) (nodes g').
Proof.
  intros unmasked g g'. change g with (theGraph localeCompare chartColors rows metric r palette visible ctx options).
  change g' with (theGraph localeCompare chartColors rows metric r palette visible ctx unmasked).
  rewrite !theGraph_eq. cbn [nodes links].
  assert (forall l, withLinkLabels [] [] (finishLink localeCompare chartColors rows metric r palette visible ctx options l) =
                    withLinkLabels [] [] (finishLink localeCompare chartColors rows metric r palette visible ctx unmasked l)) as Hl.
  { intros l. unfold finishLink. cbn [maskSensitive unmasked].
    change (theHighlights localeCompare rows metric r visible ctx unmasked) with (theHighlights localeCompare rows metric r visible ctx options).
    destruct (maskSensitive options),
      (maskedById (theNodes localeCompare chartColors rows metric r palette visible ctx options)),
      (theHighlights localeCompare rows metric r visible ctx options); reflexivity. }
  assert (map (withLinkLabels [] []) (finishedLinks localeCompare chartColors rows metric r palette visible ctx options) =
          map (withLinkLabels [] []) (finishedLinks localeCompare chartColors rows metric r palette visible ctx unmasked)) as Hf.
  { unfold finishedLinks. rewrite <- !(js_sort_map (withLinkLabels [] []) (byEnds localeCompare) (byEnds localeCompare)) by done.
    f_equal. rewrite !map_map. apply map_ext. intros kv. apply Hl. }
  split.
  - assert (theTotal localeCompare chartColors rows metric r palette visible ctx options =
            theTotal localeCompare chartColors rows metric r palette visible ctx unmasked) as ->.
    { unfold theTotal. change (thePaths localeCompare rows metric r visible ctx unmasked) with (thePaths localeCompare rows metric r visible ctx options).
      rewrite !zsum_of_filter.
      transitivity (zsum_of (fun l => if bool_decide (l_source l ∈ rootIds (thePaths localeCompare rows metric r visible ctx options)) then l_value l else 0)
        (map (withLinkLabels [] []) (finishedLinks localeCompare chartColors rows metric r palette visible ctx options)));
        [|rewrite Hf]; unfold zsum_of; by rewrite map_map. }
    set (total := theTotal _ _ _ _ _ _ _ _ unmasked).
    transitivity (map (withShare total) (map (withLinkLabels [] []) (finishedLinks localeCompare chartColors rows metric r palette visible ctx options)));
      [|rewrite Hf]; by rewrite !map_map.
  - rewrite !(js_sort_perm (byValueThenLabel localeCompare)), !map_map.
    match goal with |- ?a ≡ₚ ?b => cut (a = b); [by intros ->|] end. apply map_ext. intros kv.
    unfold finishNode, maskNode. cbn [maskSensitive unmasked].
    change (theHighlights localeCompare rows metric r visible ctx unmasked) with (theHighlights localeCompare rows metric r visible ctx options).
    destruct (maskSensitive options), (isMasked kv.2), (theHighlights localeCompare rows metric r visible ctx options); reflexivity.
Qed.

(** The node filters keep a row exactly when, in every visible column that has a
    selection, the row's node is one of the selected. *)
Theorem filter_rows_spec rows selected stages ctx row :
  In row (filterRowsByNodes rows (Some selected) stages ctx) <->
  In row rows /\
  forall k, k ∈ stages -> (exists f, In f selected /\ filter_kind f = k) ->
    exists f, In f selected /\ filter_kind f = k /\ filter_id f = id (NODE_BUILDERS k row ctx).
Proof.
  unfold filterRowsByNodes. destruct (normalize_spec selected stages) as (N0 & N1 & N2). cbn zeta in *.
  set (m := normalizeSelectedNodeFilters (Some selected) stages) in *.
  transitivity (In row (List.filter (fun row => pathMatchesNodeFilters (flowPathForStages row stages ctx) m) rows)).
  { destruct m; [|done]. cbn. rewrite filter_In. tauto. }
  rewrite filter_In, pathMatches_spec. apply and_iff_compat_l. split.
  - intros H k Hk (f & Hf & Hfk).
    assert (filter_id f ∈ ids_of m k) as Hi by (apply N1; split; [done|]; eauto).
    unfold ids_of in Hi. destruct (mget m k) as [ids|] eqn:E; cbn in Hi; [|by apply not_elem_of_nil in Hi].
    destruct (H k ids (mget_In _ _ _ E)) as (i & Hin & (n & Hn & Hkn & <-)%pathNodesByKind_spec).
    assert (id n ∈ ids_of m k) as (_ & f' & ? & ? & E')%N1 by (unfold ids_of; by rewrite E).
    exists f'. split; [done|]. split; [done|]. rewrite E'. unfold flowPathForStages in Hn.
    apply in_map_iff in Hn as (k' & <- & _). rewrite builder_kind in Hkn. by subst k'.
  - intros H k ids Hin. pose proof (In_mget m k ids N0 Hin) as E.
    assert (exists i, i ∈ ids) as [i0 Hi0] by (pose proof (N2 _ _ Hin); destruct ids as [|i ids]; [done|]; exists i; by left).
    assert (i0 ∈ ids_of m k) as (Hk & f0 & Hf0 & Hfk0 & _)%N1 by (unfold ids_of; by rewrite E).
    destruct (H k Hk) as (f & Hf & Hfk & Hfi); [eauto|].
    assert (filter_id f ∈ ids_of m k) as Hi by (apply N1; split; [done|]; eauto).
    unfold ids_of in Hi. rewrite E in Hi. cbn in Hi. exists (filter_id f). split; [done|].
    apply pathNodesByKind_spec. exists (NODE_BUILDERS k row ctx). rewrite builder_kind. split; [|done].
    apply in_map_iff. exists k. split; [done|]. by apply list_elem_of_In.
Qed.

(** ** Witnesses *)

Definition usageRow (user token model : string) (q : Z) : FlowQuotaDataItem :=
  MkRow None (Some (js user)) None (Some (js "default")) None (Some (js token)) None None (Some (js model))
    (Some (10 * q)) (Some 1) (Some q).

Definition usageRows : list FlowQuotaDataItem :=
  [usageRow "bob" "k1" "gpt" 5; usageRow "ann" "k2" "gpt" 5; usageRow "ann" "k2" "glm" 7; usageRow "cy" "k3" "glm" 1].

Definition noColors (n : nat) : list jstring := [].
Definition limited (limit : Z) (mask : bool) : FlowBuildOptions :=
  MkOptions None None None None None None None (Some (num_of_Z limit)) None mask None None.

Definition usageGraph (options : FlowBuildOptions) : DashboardFlowGraph :=
  buildFlowGraph unitCompare noColors usageRows m_quota r_admin None None (MkPathContext None) options.

Lemma usage_clean : Forall row_clean usageRows.
Proof. apply (bool_decide_unpack _). vm_compute. reflexivity. Qed.

(** A node of the graph by its id. *)
Definition nodeOf (g : DashboardFlowGraph) (i : string) : option DashboardFlowNode :=
  List.find (fun n => jeqb (n_id n) (js i)) (nodes g).

Lemma node_found g i n : nodeOf g i = Some n -> In n (nodes g).
Proof. by intros [H _]%List.find_some. Qed.

Lemma flow_conservation_witness :
  exists n, nodeOf (usageGraph (limited 1 false)) "model:gpt" = Some n /\ n_value n = 10 /\
    inflow of_value (usageGraph (limited 1 false)) (n_id n) = 10.
Proof.
  destruct (nodeOf (usageGraph (limited 1 false)) "model:gpt") as [n|] eqn:E; [|vm_compute in E; discriminate].
  exists n. split; [reflexivity|].
  assert (n_value n = 10) as Hv by (vm_compute in E; injection E as <-; reflexivity).
  split; [exact Hv|]. rewrite <- Hv.
  refine (proj1 (flow_conservation unitCompare noColors usageRows m_quota r_admin None None (MkPathContext None)
    (limited 1 false) n of_value usage_clean (node_found _ _ _ E)) _).
  vm_compute in E. injection E as <-. discriminate.
Defined.

Lemma columns_add_up_witness : columnTotal of_tokens (usageGraph (limited 2 true)) k_user = 180.
Proof.
  refine (eq_trans (columns_add_up unitCompare noColors usageRows m_quota r_admin None None (MkPathContext None)
    (limited 2 true) of_tokens k_user usage_clean _ _) _); [right; discriminate|left; reflexivity|vm_compute; reflexivity].
Defined.

Lemma top_limit_witness :
  Z.of_nat (length (List.filter (fun n => bool_decide (n_kind n = k_user)) (nodes (usageGraph (limited 1 false))))) <= 2.
Proof.
  apply (top_limit unitCompare noColors usageRows m_quota r_admin None None (MkPathContext None) (limited 1 false) 1 k_user usage_clean);
    [vm_compute; reflexivity|left; reflexivity].
Defined.

Lemma masked_labels_witness :
  exists n, nodeOf (usageGraph (limited 9 true)) "user:ann" = Some n /\ is_mask (n_label n).
Proof.
  destruct (nodeOf (usageGraph (limited 9 true)) "user:ann") as [n|] eqn:E; [|vm_compute in E; discriminate].
  exists n. split; [reflexivity|].
  refine (proj1 (masked_labels unitCompare noColors usageRows m_quota r_admin None None (MkPathContext None) (limited 9 true) n
    usage_clean eq_refl (node_found _ _ _ E) _)).
  vm_compute in E. injection E as <-. reflexivity.
Defined.

(** Two nodes of the same value are ordered by their labels, which masking makes
    equal: the order of the nodes is not kept. *)
Theorem masking_reorders_nodes :
  map n_id (List.filter (fun n => bool_decide (n_kind n = k_user))
    (nodes (buildFlowGraph unitCompare noColors (take 2 usageRows) m_quota r_admin None None (MkPathContext None) (limited 9 false))))
  = [js "user:ann"; js "user:bob"] /\
  map n_id (List.filter (fun n => bool_decide (n_kind n = k_user))
    (nodes (buildFlowGraph unitCompare noColors (take 2 usageRows) m_quota r_admin None None (MkPathContext None) (limited 9 true))))
  = [js "user:bob"; js "user:ann"].
Proof. split; vm_compute; reflexivity. Qed.
