(* ===== verification/Playground.v ===== *)
(** * The playground's messages (web/src/features/playground/lib/message,
      lib/streaming/payload-builder.ts, constants.ts, types.ts)

    A conversation is a list of messages; an answer is the last message, an
    assistant message that goes from loading through streaming to complete or
    error while chunks arrive.  Content may hold <think> sections, which are
    parsed out as reasoning.

    Times are milliseconds as integers.  The ids nanoid draws, the clock and the
    translations are arguments. *)

From S2P Require Import Prelude JsValue.

(** ** Data *)

Inductive MessageRole := USER | ASSISTANT | SYSTEM.
Inductive MessageStatus := LOADING | STREAMING | COMPLETE | ERROR.

#[export] Instance MessageRole_eq_dec : EqDecision MessageRole.
Proof. solve_decision. Defined.
#[export] Instance MessageStatus_eq_dec : EqDecision MessageStatus.
Proof. solve_decision. Defined.

Record MessageVersion := MkVersion { v_id : jstring; content : jstring }.

Inductive PluginEventPayload :=
| Interim (text : jstring)
| ToolCall (plugin tool : jstring) (args : option jstring) (durationMs : option jsnum).

Record PluginEvent := MkPluginEvent { event_id : jstring; payload : PluginEventPayload }.

Record Reasoning := MkReasoning {
  r_content : jstring;
  r_duration : Z;
  r_startedAt : option Z;
  r_completedAt : option Z;
  r_durationMs : option Z
}.

(** [errorCode] is [None] for null and for undefined. *)
Record Message := MkMessage {
  key : jstring;
  from : MessageRole;
  versions : list MessageVersion;
  createdAt : option Z;
  startedAt : option Z;
  completedAt : option Z;
  durationMs : option Z;
  sources : option (list (jstring * jstring));
  reasoning : option Reasoning;
  isReasoningStreaming : option bool;
  isReasoningComplete : option bool;
  isContentComplete : option bool;
  pluginEvents : option (list PluginEvent);
  status : option MessageStatus;
  errorCode : option jstring
}.

(** [{ ...message, field }] *)
Definition withVersions (v : list MessageVersion) (m : Message) : Message :=
  MkMessage (key m) (from m) v (createdAt m) (startedAt m) (completedAt m) (durationMs m) (sources m) (reasoning m)
    (isReasoningStreaming m) (isReasoningComplete m) (isContentComplete m) (pluginEvents m) (status m) (errorCode m).
Definition withCreatedAt (c : option Z) (m : Message) : Message :=
  MkMessage (key m) (from m) (versions m) c (startedAt m) (completedAt m) (durationMs m) (sources m) (reasoning m)
    (isReasoningStreaming m) (isReasoningComplete m) (isContentComplete m) (pluginEvents m) (status m) (errorCode m).
Definition withTiming (s c d : option Z) (m : Message) : Message :=
  MkMessage (key m) (from m) (versions m) (createdAt m) s c d (sources m) (reasoning m)
    (isReasoningStreaming m) (isReasoningComplete m) (isContentComplete m) (pluginEvents m) (status m) (errorCode m).
Definition withReasoning (r : option Reasoning) (m : Message) : Message :=
  MkMessage (key m) (from m) (versions m) (createdAt m) (startedAt m) (completedAt m) (durationMs m) (sources m) r
    (isReasoningStreaming m) (isReasoningComplete m) (isContentComplete m) (pluginEvents m) (status m) (errorCode m).
Definition withReasoningStreaming (b : bool) (m : Message) : Message :=
  MkMessage (key m) (from m) (versions m) (createdAt m) (startedAt m) (completedAt m) (durationMs m) (sources m)
    (reasoning m) (Some b) (isReasoningComplete m) (isContentComplete m) (pluginEvents m) (status m) (errorCode m).
Definition withStatus (s : MessageStatus) (m : Message) : Message :=
  MkMessage (key m) (from m) (versions m) (createdAt m) (startedAt m) (completedAt m) (durationMs m) (sources m)
    (reasoning m) (isReasoningStreaming m) (isReasoningComplete m) (isContentComplete m) (pluginEvents m) (Some s)
    (errorCode m).
Definition withErrorCode (e : option jstring) (m : Message) : Message :=
  MkMessage (key m) (from m) (versions m) (createdAt m) (startedAt m) (completedAt m) (durationMs m) (sources m)
    (reasoning m) (isReasoningStreaming m) (isReasoningComplete m) (isContentComplete m) (pluginEvents m) (status m) e.
Definition withPluginEvents (p : option (list PluginEvent)) (m : Message) : Message :=
  MkMessage (key m) (from m) (versions m) (createdAt m) (startedAt m) (completedAt m) (durationMs m) (sources m)
    (reasoning m) (isReasoningStreaming m) (isReasoningComplete m) (isContentComplete m) p (status m) (errorCode m).

Definition API_REQUEST_ERROR : jstring := js "Request error occurred".
Definition PARSE_ERROR : jstring := js "Error parsing response data".
Definition STREAM_START_ERROR : jstring := js "Error establishing connection".
Definition CONNECTION_CLOSED : jstring := js "Connection closed".
Definition INTERRUPTED : jstring := js "Generation was interrupted".

(** ** message-utils.ts *)

Definition createMessageVersion (nanoid c : jstring) : MessageVersion := MkVersion nanoid c.

Definition getCurrentVersion (m : Message) : MessageVersion :=
  coalesce (head (versions m)) (MkVersion (js "default") []).

Definition getMessageContent (m : Message) : jstring := content (getCurrentVersion m).

Definition hasMessageContent (m : Message) : bool := negb (jeqb (trim (getMessageContent m)) []).

Definition updateCurrentVersionContent (m : Message) (c : jstring) : Message :=
  withVersions [MkVersion (v_id (getCurrentVersion m)) c] m.

Definition createUserMessage (nanoid1 nanoid2 c : jstring) (created : Z) : Message :=
  MkMessage nanoid1 USER [createMessageVersion nanoid2 c] (Some created) None None None None None
    None None None None None None.

Definition createLoadingAssistantMessage (nanoid1 nanoid2 : jstring) (started : Z) : Message :=
  MkMessage nanoid1 ASSISTANT [createMessageVersion nanoid2 []] (Some started) (Some started) None None None None
    (Some false) (Some false) (Some false) None (Some LOADING) None.

Inductive ContentPart := TextPart (text : jstring) | ImagePart (url : jstring).
Inductive MessageContent := Plain (s : jstring) | Parts (l : list ContentPart).

Definition buildMessageContent (text : jstring) (imageUrls : list jstring) : MessageContent :=
  match List.filter (fun u => negb (jeqb (trim u) [])) imageUrls with
  | [] => Plain text
  | validImages => Parts (TextPart text :: map (fun u => ImagePart (trim u)) validImages)
  end.

Definition getTextContent (c : MessageContent) : jstring :=
  match c with
  | Plain s => s
  | Parts l => match List.find (fun p => match p with TextPart _ => true | _ => false end) l with
               | Some (TextPart t) => t
               | _ => []
               end
  end.

Record ChatCompletionMessage := MkChat { chat_role : MessageRole; chat_content : MessageContent }.

Definition formatMessageForAPI (m : Message) : ChatCompletionMessage :=
  MkChat (from m) (Plain (content (getCurrentVersion m))).

Definition isValidMessage (m : Message) : bool :=
  match versions m with
  | [] => false
  | _ => negb (bool_decide (from m = ASSISTANT) && negb (hasMessageContent m))
  end.

(** *** payload-builder.ts *)

Record PlaygroundConfig := MkConfig {
  c_model : jstring; c_group : jstring; c_temperature : jsnum; c_top_p : jsnum; c_max_tokens : jsnum;
  c_frequency_penalty : jsnum; c_presence_penalty : jsnum; c_seed : option jsnum; c_stream : bool
}.

Record ParameterEnabled := MkEnabled {
  e_temperature : bool; e_top_p : bool; e_max_tokens : bool; e_frequency_penalty : bool;
  e_presence_penalty : bool; e_seed : bool
}.

Record ChatCompletionRequest := MkRequest {
  q_model : jstring; q_group : jstring; q_messages : list ChatCompletionMessage; q_stream : bool;
  q_temperature : option jsnum; q_top_p : option jsnum; q_max_tokens : option jsnum;
  q_frequency_penalty : option jsnum; q_presence_penalty : option jsnum; q_seed : option jsnum
}.

Definition buildChatCompletionPayload (messages : list Message) (config : PlaygroundConfig)
    (enabled : ParameterEnabled) : ChatCompletionRequest :=
  let given (b : bool) (v : jsnum) := if b then Some v else None in
  MkRequest (c_model config) (c_group config)
    (map formatMessageForAPI (List.filter isValidMessage messages)) (c_stream config)
    (given (e_temperature enabled) (c_temperature config))
    (given (e_top_p enabled) (c_top_p config))
    (given (e_max_tokens enabled) (c_max_tokens config))
    (given (e_frequency_penalty enabled) (c_frequency_penalty config))
    (given (e_presence_penalty enabled) (c_presence_penalty config))
    (if e_seed enabled then c_seed config else None).

(** ** message-timing-utils.ts *)

Definition completeAssistantTiming (m : Message) (completed : Z) : Message :=
  if negb (bool_decide (from m = ASSISTANT)) then m
  else
    let started := coalesce (startedAt m) (coalesce (createdAt m) completed) in
    withTiming (Some started) (Some completed) (Some (Z.max 0 (completed - started))) m.

Definition startReasoningTiming (m : Message) (started : Z) : Reasoning :=
  match reasoning m with
  | Some r => MkReasoning (r_content r) (r_duration r) (Some (coalesce (r_startedAt r) started))
                (r_completedAt r) (r_durationMs r)
  | None => MkReasoning [] 0 (Some started) None None
  end.

(** [Math.ceil(ms / 1000)] *)
Definition ceil_seconds (ms : Z) : Z := (ms + 999) / 1000.

Definition completeReasoningTiming (m : Message) (completed : Z) : Message :=
  match reasoning m with
  | None => m
  | Some r =>
      match r_durationMs r with
      | Some _ => m
      | None =>
          let started := coalesce (r_startedAt r) (coalesce (startedAt m) completed) in
          let ms := Z.max 0 (completed - started) in
          withReasoning (Some (MkReasoning (r_content r) (ceil_seconds ms) (Some started) (Some completed) (Some ms))) m
      end
  end.

(** ** message-reasoning-utils.ts *)

Record ParsedThinkTags := MkParsed { visibleContent : jstring; p_reasoning : jstring; hasUnclosedTag : bool }.

Definition open_tag : jstring := js "<think>".
Definition close_tag : jstring := js "</think>".

(** The loop: the parts from [currentPos] on; [None] when the fuel runs out. *)
Fixpoint think_loop (fuel : nat) (c : jstring) (currentPos : nat) (visibleParts reasoningParts : list jstring)
    : option (list jstring * list jstring * bool) :=
  match fuel with
  | O => None
  | S fuel =>
      match indexOf_from c open_tag currentPos with
      | None =>
          Some (if (currentPos <? length c)%nat then visibleParts ++ [drop currentPos c] else visibleParts,
                reasoningParts, false)
      | Some openPos =>
          let visibleParts :=
            if (currentPos <? openPos)%nat then visibleParts ++ [slice c currentPos openPos] else visibleParts in
          match indexOf_from c close_tag (openPos + 7) with
          | None => Some (visibleParts, reasoningParts ++ [drop (openPos + 7) c], true)
          | Some closePos =>
              think_loop fuel c (closePos + 8) visibleParts (reasoningParts ++ [slice c (openPos + 7) closePos])
          end
      end
  end.

Definition parseThinkTags (c : jstring) : ParsedThinkTags :=
  if negb (includes c open_tag) then MkParsed c [] false
  else match think_loop (S (length c)) c 0 [] [] with
       | Some (visible, reasoning, unclosed) =>
           MkParsed (trim (concat visible)) (trim (join [10; 10]%N reasoning)) unclosed
       | None => MkParsed [] [] false
       end.

(** ** message-streaming-utils.ts *)

Definition processStreamingContent (m : Message) (chunk : jstring) (now : Z) : Message :=
  let fullContent := content (getCurrentVersion m) ++ chunk in
  match reasoning m, includes fullContent open_tag with
  | None, false => withReasoningStreaming false (updateCurrentVersionContent m fullContent)
  | _, _ =>
      let p := parseThinkTags fullContent in
      let finalReasoning :=
        if truthy (p_reasoning p)
        then let r := startReasoningTiming m now in
             Some (MkReasoning (p_reasoning p) (r_duration r) (r_startedAt r) (r_completedAt r) (r_durationMs r))
        else reasoning m in
      withReasoningStreaming (hasUnclosedTag p)
        (withReasoning finalReasoning (updateCurrentVersionContent m fullContent))
  end.

Inductive StreamChunkType := c_reasoning | c_content.

Definition getAppendableChunk (currentContent chunk : jstring) : jstring :=
  if negb (truthy currentContent) || negb (startsWith chunk currentContent) then chunk
  else drop (length currentContent) chunk.

Definition isReasoningStreamingNow (m : Message) : bool := coalesce (isReasoningStreaming m) false.

Definition applyStreamingChunk (m : Message) (type : StreamChunkType) (chunk : jstring) (now : Z) : Message :=
  if bool_decide (status m = Some ERROR) then m
  else match type with
       | c_reasoning =>
           let r := startReasoningTiming m now in
           let appendable := getAppendableChunk (r_content r) chunk in
           withStatus STREAMING
             (withReasoningStreaming true
                (withReasoning (Some (MkReasoning (r_content r ++ appendable) (r_duration r) (r_startedAt r)
                                        (r_completedAt r) (r_durationMs r))) m))
       | c_content =>
           let appendable := getAppendableChunk (content (getCurrentVersion m)) chunk in
           let contentMessage := processStreamingContent m appendable now in
           withStatus STREAMING
             (if isReasoningStreamingNow contentMessage then contentMessage
              else completeReasoningTiming contentMessage now)
       end.

Definition finalizeMessage (m : Message) (apiReasoningContent : option jstring) (now : Z) : Message :=
  let c := content (getCurrentVersion m) in
  let parsed := if includes c open_tag then Some (parseThinkTags c) else None in
  let visible := match parsed with Some p => visibleContent p | None => c end in
  let finalReasoning :=
    jor (coalesce apiReasoningContent [])
      (jor (match reasoning m with Some r => r_content r | None => [] end)
         (match parsed with Some p => p_reasoning p | None => [] end)) in
  completeReasoningTiming
    (withReasoningStreaming false
       (withReasoning
          (if truthy finalReasoning
           then let r := startReasoningTiming m now in
                Some (MkReasoning finalReasoning (r_duration r) (r_startedAt r) (r_completedAt r) (r_durationMs r))
           else None)
          (updateCurrentVersionContent m visible))) now.

Definition completeAssistantMessage (m : Message) (now : Z) : Message :=
  completeAssistantTiming (withStatus COMPLETE (finalizeMessage m None now)) now.

Definition appendPluginEvent (nanoid : jstring) (m : Message) (e : PluginEventPayload) : Message :=
  if bool_decide (status m = Some ERROR) then m
  else withPluginEvents (Some (coalesce (pluginEvents m) [] ++ [MkPluginEvent nanoid e])) m.

Definition isAssistantMessageFinal (m : Message) : bool :=
  bool_decide (status m = Some COMPLETE) || bool_decide (status m = Some ERROR).

Definition isAssistantMessagePending (m : Message) : bool :=
  bool_decide (status m = Some LOADING) || bool_decide (status m = Some STREAMING).

Definition isPendingAssistantMessage (m : option Message) : bool :=
  match m with Some m => bool_decide (from m = ASSISTANT) && isAssistantMessagePending m | None => false end.

(** [choices[0]] of a response: [message.content], [message.reasoning_content]. *)
Record Choice := MkChoice { ch_content : option jstring; ch_reasoning : option jstring }.

Definition hasChatCompletionChoice (choices : option (list Choice)) : bool :=
  match choices with Some (_ :: _) => true | _ => false end.

Definition applyChatCompletionChoice (m : Message) (c : Choice) (now : Z) : Message :=
  completeAssistantTiming
    (withStatus COMPLETE
       (finalizeMessage (updateCurrentVersionContent m (coalesce (ch_content c) [])) (ch_reasoning c) now)) now.

Definition applyChatCompletionResponse (m : Message) (choices : option (list Choice)) (now : Z) : option Message :=
  match choices with Some (c :: _) => Some (applyChatCompletionChoice m c now) | _ => None end.

(** The last index a predicate holds at. *)
Fixpoint find_last_index {A} (f : A -> bool) (l : list A) : option nat :=
  match l with
  | [] => None
  | x :: l' => match find_last_index f l' with
               | Some i => Some (S i)
               | None => if f x then Some 0%nat else None
               end
  end.

Definition sanitizeMessage (t : jstring -> jstring) (m : Message) (now : Z) : Message :=
  let finalized := finalizeMessage m None now in
  let hasContent := hasMessageContent finalized in
  let hasReasoning := match reasoning finalized with Some r => truthy (trim (r_content r)) | None => false end in
  if hasContent || hasReasoning
  then completeAssistantTiming (withReasoningStreaming false (withStatus COMPLETE finalized)) now
  else completeAssistantTiming
         (withReasoningStreaming false (withStatus ERROR
            (updateCurrentVersionContent finalized (t API_REQUEST_ERROR ++ js ": " ++ t INTERRUPTED)))) now.

Definition sanitizeMessagesOnLoad (t : jstring -> jstring) (messages : list Message) (now : Z) : list Message :=
  match find_last_index (fun m => isPendingAssistantMessage (Some m)) messages with
  | None => messages
  | Some target =>
      match messages !! target with
      | None => messages
      | Some m => <[target := sanitizeMessage t m now]> messages
      end
  end.

(** ** message-update-utils.ts *)

Definition updateLastAssistantMessage (messages : list Message) (updater : Message -> Message) : list Message :=
  match last messages with
  | Some m => if bool_decide (from m = ASSISTANT)
              then <[(length messages - 1)%nat := updater m]> messages else messages
  | None => messages
  end.

Definition updateAssistantMessageWithError (messages : list Message) (errorMessage : jstring)
    (code : option jstring) (title : jstring) (now : Z) : list Message :=
  updateLastAssistantMessage messages (fun m =>
    completeAssistantTiming
      (withErrorCode (match code with Some c => if truthy c then Some c else None | None => None end)
         (withReasoningStreaming false (withStatus ERROR
            (updateCurrentVersionContent m (title ++ js ": " ++ errorMessage))))) now).

(** ** conversation-message-utils.ts *)

(** The ids drawn for a new pair: the key and the version of each message. *)
Definition appendUserMessagePair (ids : jstring * jstring * (jstring * jstring)) (messages : list Message)
    (c : jstring) (submitted : Z) : list Message :=
  messages ++ [createUserMessage ids.1.1 ids.1.2 c submitted;
               createLoadingAssistantMessage ids.2.1 ids.2.2 submitted].

Definition messageIndex (messages : list Message) (messageKey : jstring) : option nat :=
  find_index (fun m => jeqb (key m) messageKey) messages.

Definition createRegeneratedMessages (ids : jstring * jstring) (messages : list Message) (messageKey : jstring)
    (now : Z) : option (list Message) :=
  match messageIndex messages messageKey with
  | None => None
  | Some i =>
      let loading := createLoadingAssistantMessage ids.1 ids.2 now in
      match messages !! i with
      | Some m => if bool_decide (from m = USER) then Some (take (i + 1) messages ++ [loading])
                  else Some (take i messages ++ [loading])
      | None => None
      end
  end.

Definition removeMessageByKey (messages : list Message) (messageKey : jstring) : list Message :=
  List.filter (fun m => negb (jeqb (key m) messageKey)) messages.

(** [beforeIndex] is at most the number of messages. *)
Fixpoint getPreviousUserMessage (messages : list Message) (beforeIndex : nat) : option Message :=
  match beforeIndex with
  | O => None
  | S i => match messages !! i with
           | Some m => if bool_decide (from m = USER) then Some m else getPreviousUserMessage messages i
           | None => None
           end
  end.

Record ApplyMessageEditResult := MkEdit { edited : list Message; shouldSend : bool }.

Definition applyMessageEdit (ids : jstring * jstring) (messages : list Message) (messageKey c : jstring)
    (shouldSubmit : bool) (submitted : Z) : option ApplyMessageEditResult :=
  match messageIndex messages messageKey with
  | None => None
  | Some i =>
      let updated := map (fun m => if jeqb (key m) messageKey
                                   then withCreatedAt (if shouldSubmit then Some submitted else createdAt m)
                                          (updateCurrentVersionContent m c)
                                   else m) messages in
      match updated !! i with
      | Some m => if negb shouldSubmit || negb (bool_decide (from m = USER)) then Some (MkEdit updated false)
                  else Some (MkEdit (take (i + 1) updated ++
                                     [createLoadingAssistantMessage ids.1 ids.2 submitted]) true)
      | None => None
      end
  end.

Definition getEditingMessageContent (messages : list Message) (editingKey : option jstring) : jstring :=
  match editingKey with
  | None => []
  | Some k => if negb (truthy k) then []
              else match List.find (fun m => jeqb (key m) k) messages with
                   | Some m => getMessageContent m
                   | None => []
                   end
  end.

Record ChatMessageRenderState := MkRender { alwaysShowActions : bool; render_content : jstring; isEditing : bool }.

Definition getChatMessageRenderState (messages : list Message) (m : Message) (index : nat)
    (editingKey : option jstring) : ChatMessageRenderState :=
  MkRender ((Z.of_nat index =? Z.of_nat (length messages) - 1) && bool_decide (from m = ASSISTANT))
    (getMessageContent m) (bool_decide (editingKey = Some (key m))).

(** ** message-content-utils.ts *)

Record MessageContentState := MkContentState {
  displayContent : jstring; hasSources : bool; isAssistant : bool; showLoader : bool; showMessageContent : bool;
  st_sources : list (jstring * jstring); reasoningContent : option jstring
}.

Definition shouldShowMessageLoader (m : Message) (assistant : bool) (versionContent : jstring) : bool :=
  assistant && negb (isReasoningStreamingNow m) &&
  (bool_decide (status m = Some LOADING) ||
   (bool_decide (status m = Some STREAMING) && negb (truthy versionContent))).

Definition shouldShowMessageContent (m : Message) (versionContent : jstring) : bool :=
  (bool_decide (from m = USER) || negb (isReasoningStreamingNow m)) && truthy versionContent.

Definition getDisplayContent (m : Message) (versionContent : jstring) : jstring :=
  if negb (bool_decide (from m = ASSISTANT)) then versionContent
  else if negb (includes versionContent open_tag) then versionContent
  else visibleContent (parseThinkTags versionContent).

(** [hasReasoning] is [reasoningContent <> None]. *)
Definition getMessageContentState (m : Message) (versionContent : jstring) : MessageContentState :=
  let assistant := bool_decide (from m = ASSISTANT) in
  let srcs := coalesce (sources m) [] in
  let rc := if assistant then r_content <$> reasoning m else None in
  MkContentState (getDisplayContent m versionContent) (match srcs with [] => false | _ => true end) assistant
    (shouldShowMessageLoader m assistant versionContent) (shouldShowMessageContent m versionContent) srcs
    (match rc with Some r => if truthy r then Some r else None | None => None end).

(** ** message-error-utils.ts, message-action-utils.ts, message-editor-utils.ts *)

Record MessageErrorState := MkErrorState { err_content : jstring; modelPrice : bool; showSettingsLink : bool }.

Definition getMessageErrorState (m : Message) (isAdmin : bool) : option MessageErrorState :=
  if negb (bool_decide (status m = Some ERROR)) then None
  else
    let isModelPriceError := bool_decide (errorCode m = Some (js "model_price_error")) in
    Some (MkErrorState (jor (getMessageContent m) (js "An unknown error occurred")) isModelPriceError
            (isModelPriceError && isAdmin)).

Record MessageEditorState := MkEditor { canSave : bool; hasChanged : bool; showSaveAndSubmit : bool }.

Definition getMessageEditorState (m : Message) (editText originalText : jstring) : MessageEditorState :=
  let hasText := truthy (trim editText) in
  let changed := negb (jeqb editText originalText) in
  MkEditor (hasText && changed) changed (bool_decide (from m = USER)).

(** ** Lemmas *)

(** *** Searching a tag *)

(** The first occurrence of a pattern whose first unit does not occur again in it
    is the one after a text that holds none: no occurrence straddles the end of
    the text. *)
Lemma startsWith_straddle c p' x y :
  Forall (fun u => u <> c) p' -> x <> [] -> startsWith (x ++ (c :: p') ++ y) (c :: p') = true ->
  startsWith x (c :: p') = true.
Proof.
  intros Hp Hx (k & E)%startsWith_app. apply startsWith_app.
  assert (forall a b : jstring, Forall (fun u => u <> c) b -> a ++ c :: p' ++ y = b ++ k -> exists q, a = b ++ q) as H.
  { induction a as [|u a IH]; intros b Hb Eb.
    - destruct b as [|v b]; [by exists []|]. injection Eb as -> _. by apply Forall_cons in Hb as [? _].
    - destruct b as [|v b]; [by exists (u :: a)|]. cbn in Eb. injection Eb as -> Eb.
      apply Forall_cons in Hb as [_ Hb]. destruct (IH b Hb Eb) as [q ->]. by exists q. }
  destruct x as [|u x]; [done|]. cbn in E. injection E as -> E.
  destruct (H x p' Hp E) as [q ->]. by exists q.
Qed.

Lemma includes_cons_false u s p : includes (u :: s) p = false -> startsWith (u :: s) p = false /\ includes s p = false.
Proof. unfold includes. cbn. destruct (startsWith (u :: s) p); [done|]. by destruct (indexOf s p). Qed.

Lemma indexOf_first c p' v y :
  Forall (fun u => u <> c) p' -> includes v (c :: p') = false ->
  indexOf (v ++ (c :: p') ++ y) (c :: p') = Some (length v).
Proof.
  intros Hp. induction v as [|u v IH]; intros Hv.
  - assert (startsWith ((c :: p') ++ y) (c :: p') = true) as H by (apply startsWith_app; eauto).
    cbn [app] in *. cbn [indexOf]. by rewrite H.
  - apply includes_cons_false in Hv as [Hs Hv]. cbn [app indexOf].
    destruct (startsWith (u :: v ++ c :: p' ++ y) (c :: p')) eqn:E.
    + apply (startsWith_straddle c p' (u :: v) y Hp) in E; [congruence|done].
    + cbn [app] in IH. by rewrite (IH Hv).
Qed.

Lemma indexOf_open v y : includes v open_tag = false -> indexOf (v ++ open_tag ++ y) open_tag = Some (length v).
Proof. apply (indexOf_first 60%N (js "think>")). repeat constructor; discriminate. Qed.

Lemma indexOf_close v y : includes v close_tag = false -> indexOf (v ++ close_tag ++ y) close_tag = Some (length v).
Proof. apply (indexOf_first 60%N (js "/think>")). repeat constructor; discriminate. Qed.

Lemma indexOf_None s p : includes s p = false -> indexOf s p = None.
Proof. unfold includes. by destruct (indexOf s p). Qed.

Lemma indexOf_from_app pre s p n : length pre = n -> indexOf_from (pre ++ s) p n = Nat.add n <$> indexOf s p.
Proof. intros <-. unfold indexOf_from. by rewrite drop_app_length. Qed.

Lemma includes_app_l s t p : includes s p = true -> includes (s ++ t) p = true.
Proof.
  induction s as [|u s IH]; unfold includes in *.
  - destruct p as [|v p]; [by destruct t|done].
  - cbn. destruct (startsWith (u :: s) p) eqn:E.
    + apply startsWith_app in E as [k E]. change (u :: s ++ t) with ((u :: s) ++ t).
      rewrite E, <- app_assoc, (proj2 (startsWith_app _ _)); eauto.
    + destruct (startsWith (u :: s ++ t) p); [done|].
      destruct (indexOf s p); [|done]. destruct (indexOf (s ++ t) p); [done|]. by specialize (IH eq_refl).
Qed.

Lemma slice_app pre (s t : jstring) n m : length pre = n -> m = (n + length s)%nat -> slice (pre ++ s ++ t) n m = s.
Proof.
  intros <- ->. unfold slice. rewrite drop_app_length. replace (length pre + length s - length pre)%nat with (length s) by lia.
  apply take_app_length.
Qed.

(** *** The loop *)

Ltac tag_lengths :=
  rewrite ?length_app; change (length open_tag) with 7%nat; change (length close_tag) with 8%nat; lia.

(** A text with its sections: what is visible before each section and the section,
    then the rest, visible or an open section. *)
Inductive Tail := AllClosed (v : jstring) | LeftOpen (v r : jstring).

Fixpoint think_text (segs : list (jstring * jstring)) (t : Tail) : jstring :=
  match segs with
  | [] => match t with AllClosed v => v | LeftOpen v r => v ++ open_tag ++ r end
  | (v, r) :: segs => v ++ open_tag ++ r ++ close_tag ++ think_text segs t
  end.

Definition plain (v : jstring) : Prop := includes v open_tag = false.
Definition section (r : jstring) : Prop := includes r close_tag = false.
Definition segs_ok (segs : list (jstring * jstring)) (t : Tail) : Prop :=
  Forall (fun s => plain s.1 /\ section s.2) segs /\
  match t with AllClosed v => plain v | LeftOpen v r => plain v /\ section r end.

Definition visible_text (segs : list (jstring * jstring)) (t : Tail) : jstring :=
  concat (map fst segs) ++ match t with AllClosed v => v | LeftOpen v _ => v end.
Definition sections (segs : list (jstring * jstring)) (t : Tail) : list jstring :=
  map snd segs ++ match t with AllClosed _ => [] | LeftOpen _ r => [r] end.
Definition leftOpen (t : Tail) : bool := match t with AllClosed _ => false | LeftOpen _ _ => true end.

Lemma concat_push (b : bool) (vs : list jstring) v :
  (b = false -> v = []) -> concat (if b then vs ++ [v] else vs) = concat vs ++ v.
Proof.
  intros H. destruct b; [by rewrite concat_app; cbn; rewrite app_nil_r|]. by rewrite H, app_nil_r.
Qed.

Lemma think_loop_text segs t : segs_ok segs t -> forall fuel pre vs rs,
  (length segs < fuel)%nat ->
  exists vs', think_loop fuel (pre ++ think_text segs t) (length pre) vs rs =
                Some (vs', rs ++ sections segs t, leftOpen t) /\
              concat vs' = concat vs ++ visible_text segs t.
Proof.
  unfold visible_text, sections. intros [Hs Ht].
  induction Hs as [|[v r] segs [Hv Hr] _ IH]; intros fuel pre vs rs Hf; (destruct fuel as [|fuel]; [lia|]); cbn [think_loop].
  - destruct t as [v|v r]; cbn [think_text map concat app].
    + rewrite indexOf_from_app, (indexOf_None _ _ Ht) by done. cbn [fmap option_fmap option_map].
      eexists. split; [by rewrite app_nil_r|]. rewrite drop_app_length. apply concat_push.
      rewrite length_app. intros H%Nat.ltb_ge. apply length_zero_iff_nil. lia.
    + destruct Ht as [Hv Hr]. rewrite indexOf_from_app, (indexOf_open _ _ Hv) by done. cbn [fmap option_fmap option_map].
      replace (pre ++ v ++ open_tag ++ r) with ((pre ++ v ++ open_tag) ++ r) by by rewrite <- !app_assoc.
      rewrite (indexOf_from_app (pre ++ v ++ open_tag) r) by tag_lengths.
      rewrite (indexOf_None _ _ Hr). cbn [fmap option_fmap option_map].
      eexists. split; [f_equal; f_equal; f_equal; f_equal|].
      * replace (length pre + length v + 7)%nat with (length (pre ++ v ++ open_tag)) by tag_lengths.
        by rewrite drop_app_length.
      * rewrite <- !app_assoc, (slice_app pre v) by done. apply concat_push.
        intros H%Nat.ltb_ge. apply length_zero_iff_nil. lia.
  - cbn [think_text map concat fst snd] in *.
    rewrite indexOf_from_app, (indexOf_open _ _ Hv) by done. cbn [fmap option_fmap option_map].
    set (rest := think_text segs t).
    assert (pre ++ v ++ open_tag ++ r ++ close_tag ++ rest = (pre ++ v ++ open_tag) ++ r ++ close_tag ++ rest) as E1
      by by rewrite <- !app_assoc.
    rewrite E1, indexOf_from_app, (indexOf_close _ _ Hr) by tag_lengths. cbn [fmap option_fmap option_map].
    rewrite (slice_app (pre ++ v ++ open_tag) r _ (length pre + length v + 7) (length pre + length v + 7 + length r)) by tag_lengths.
    rewrite <- E1, (slice_app pre v) by done.
    replace (length pre + length v + 7 + length r + 8)%nat with (length (pre ++ v ++ open_tag ++ r ++ close_tag))
      by tag_lengths.
    replace (pre ++ v ++ open_tag ++ r ++ close_tag ++ rest) with ((pre ++ v ++ open_tag ++ r ++ close_tag) ++ rest)
      by by rewrite <- !app_assoc.
    cbn [length] in Hf. subst rest.
    destruct (IH fuel (pre ++ v ++ open_tag ++ r ++ close_tag)
                (if (length pre <? length pre + length v)%nat then vs ++ [v] else vs) (rs ++ [r]) ltac:(lia)) as (vs' & -> & Hc).
    exists vs'. split; [by rewrite <- app_assoc|]. rewrite Hc, concat_push, <- !app_assoc; [done|].
    intros H%Nat.ltb_ge. apply length_zero_iff_nil. lia.
Qed.

Lemma segs_length segs t : (length segs <= length (think_text segs t))%nat.
Proof.
  induction segs as [|[v r] segs IH]; cbn [think_text length]; [lia|]. rewrite !length_app.
  change (length open_tag) with 7%nat. lia.
Qed.

Lemma plain_think_text segs t : includes (think_text segs t) open_tag = false ->
  segs = [] /\ exists v, t = AllClosed v.
Proof.
  assert (forall v k, includes (v ++ open_tag ++ k) open_tag = true) as H.
  { intros v k. induction v as [|u v IH]; unfold includes in *.
    - assert (startsWith (open_tag ++ k) open_tag = true) as E by (apply startsWith_app; eauto).
      cbn [app]. destruct (open_tag ++ k) eqn:E'; [done|]. cbn [indexOf]. by rewrite E.
    - cbn [app indexOf]. destruct (startsWith _ _); [done|]. by destruct (indexOf (v ++ open_tag ++ k) open_tag). }
  destruct segs as [|[v r] segs]; cbn [think_text]; [destruct t as [v|v r]; [eauto|]|]; by rewrite H.
Qed.

Lemma parse_text segs t : segs_ok segs t ->
  parseThinkTags (think_text segs t) =
  if includes (think_text segs t) open_tag
  then MkParsed (trim (visible_text segs t)) (trim (join [10; 10]%N (sections segs t))) (leftOpen t)
  else MkParsed (think_text segs t) [] false.
Proof.
  intros H. unfold parseThinkTags. destruct (includes (think_text segs t) open_tag); [|done]. cbn [negb].
  pose proof (segs_length segs t).
  destruct (think_loop_text segs t H (S (length (think_text segs t))) [] [] [] ltac:(lia)) as (vs & E & Hc).
  cbn [app length] in E. rewrite E, Hc. done.
Qed.

(** What [indexOf] finds is the first occurrence. *)
Lemma indexOf_split s p i : indexOf s p = Some i ->
  exists k, s = take i s ++ p ++ k /\ includes (take i s) p = false \/ p = [].
Proof.
  destruct p as [|c p]; [exists []; by right|]. revert i. induction s as [|u s IH]; intros i; cbn [indexOf].
  - discriminate.
  - destruct (startsWith (u :: s) (c :: p)) eqn:E.
    + intros [= <-]. apply startsWith_app in E as [k E]. exists k. left. cbn. by rewrite E.
    + destruct (indexOf s (c :: p)) as [j|]; [|done]. intros [= <-].
      destruct (IH j eq_refl) as (k & [[Es Hi] | [=]]). exists k. left. cbn [fmap take]. split.
      * cbn. f_equal. exact Es.
      * unfold includes in *. cbn [take indexOf]. destruct (startsWith (u :: take j s) (c :: p)) eqn:E2.
        -- exfalso. apply startsWith_app in E2 as [q E2].
           assert (startsWith (u :: s) (c :: p) = true); [|congruence]. apply startsWith_app.
           exists (q ++ drop j s). rewrite <- (take_drop j s) at 1. by rewrite app_assoc, <- E2.
        -- by destruct (indexOf (take j s) (c :: p)).
Qed.

(** Every text is a text with sections. *)
Lemma think_decompose c : exists segs t, segs_ok segs t /\ c = think_text segs t.
Proof.
  remember (length c) as n eqn:Hn. revert c Hn. induction (lt_wf n) as [n _ IH]. intros c ->.
  destruct (indexOf c open_tag) as [i|] eqn:E.
  2: { exists [], (AllClosed c). split; [|done]. split; [done|]. unfold plain, includes. by rewrite E. }
  destruct (indexOf_split _ _ _ E) as (k & [[Ec Hv] | [=]]). set (v := take i c) in *.
  destruct (indexOf k close_tag) as [j|] eqn:E'.
  2: { exists [], (LeftOpen v k). split; [|done]. split; [done|]. split; [done|]. unfold section, includes. by rewrite E'. }
  destruct (indexOf_split _ _ _ E') as (k' & [[Ek Hr] | [=]]). set (r := take j k) in *.
  destruct (IH (length k')) with (c := k') as (segs & t & [Hs Ht] & ->); [|done|].
  - rewrite Ec, Ek, !length_app. change (length open_tag) with 7%nat. lia.
  - exists ((v, r) :: segs), t. split; [split; [by constructor|done]|]. cbn [think_text]. by rewrite <- Ek.
Qed.

(** *** Content of a streamed message *)

(** What one chunk does to the content: a chunk that repeats it replaces it. *)
Definition mergeContent (current chunk : jstring) : jstring :=
  if truthy current && startsWith chunk current then chunk else current ++ chunk.

Lemma appendable_merge current chunk : current ++ getAppendableChunk current chunk = mergeContent current chunk.
Proof.
  unfold getAppendableChunk, mergeContent. destruct (truthy current); [|done]. cbn [negb orb andb].
  destruct (startsWith chunk current) eqn:E; [|done]. apply startsWith_app in E as [k ->]. cbn. by rewrite drop_app_length.
Qed.

Lemma content_update m c : getMessageContent (updateCurrentVersionContent m c) = c.
Proof. done. Qed.

Lemma content_reasoning_timing m now : versions (completeReasoningTiming m now) = versions m /\
  status (completeReasoningTiming m now) = status m /\ from (completeReasoningTiming m now) = from m /\
  (r_content <$> reasoning (completeReasoningTiming m now)) = (r_content <$> reasoning m) /\
  isReasoningStreaming (completeReasoningTiming m now) = isReasoningStreaming m.
Proof.
  unfold completeReasoningTiming. destruct (reasoning m) as [r|] eqn:E; [|by rewrite E].
  destruct (r_durationMs r); cbn; by rewrite ?E.
Qed.

Lemma content_assistant_timing m now : versions (completeAssistantTiming m now) = versions m /\
  status (completeAssistantTiming m now) = status m /\ reasoning (completeAssistantTiming m now) = reasoning m /\
  isReasoningStreaming (completeAssistantTiming m now) = isReasoningStreaming m.
Proof. unfold completeAssistantTiming. by destruct (negb _). Qed.

(** One content chunk: the content, the reasoning parsed so far, the status. *)
Lemma content_chunk m chunk now :
  status m <> Some ERROR ->
  let m' := applyStreamingChunk m c_content chunk now in
  let full := mergeContent (getMessageContent m) chunk in
  getMessageContent m' = full /\ status m' = Some STREAMING /\ from m' = from m /\
  (r_content <$> reasoning m') =
    (if truthy (p_reasoning (parseThinkTags full)) then Some (p_reasoning (parseThinkTags full))
     else r_content <$> reasoning m).
Proof.
  intros Hs m' full. unfold m', applyStreamingChunk. rewrite bool_decide_eq_false_2 by done.
  set (pm := processStreamingContent m (getAppendableChunk (content (getCurrentVersion m)) chunk) now).
  assert (getMessageContent pm = full /\ from pm = from m /\
          (r_content <$> reasoning pm) =
          (if truthy (p_reasoning (parseThinkTags full)) then Some (p_reasoning (parseThinkTags full))
           else r_content <$> reasoning m)) as (H1 & H2 & H3).
  { unfold pm, processStreamingContent. rewrite (appendable_merge (content (getCurrentVersion m)) chunk). fold (getMessageContent m). fold full.
    destruct (reasoning m) as [r|] eqn:Er; [|destruct (includes full open_tag) eqn:Ei];
      cbn [reasoning withReasoningStreaming withReasoning updateCurrentVersionContent withVersions from];
      (split; [done|]; split; [done|]); try (by destruct (truthy _); rewrite ?Er).
    unfold parseThinkTags. rewrite Ei. cbn. by rewrite Er. }
  destruct (content_reasoning_timing pm now) as (T1 & T2 & T3 & T4 & _).
  destruct (isReasoningStreamingNow pm); unfold getMessageContent, getCurrentVersion in *; cbn; rewrite ?T1, ?T3, ?T4; done.
Qed.

Definition streamContent (m : Message) (chunks : list jstring) (now : Z) : Message :=
  foldl (fun m c => applyStreamingChunk m c_content c now) m chunks.

Lemma stream_fold m chunks now :
  status m <> Some ERROR ->
  getMessageContent (streamContent m chunks now) = foldl mergeContent (getMessageContent m) chunks /\
  status (streamContent m chunks now) <> Some ERROR /\ from (streamContent m chunks now) = from m.
Proof.
  unfold streamContent. revert m. induction chunks as [|c chunks IH]; intros m Hs; [done|]. cbn [foldl].
  destruct (content_chunk m c now Hs) as (H1 & H2 & H3 & _).
  destruct (IH (applyStreamingChunk m c_content c now)) as (I1 & I2 & I3); [by rewrite H2|].
  rewrite I1, I3, H1, H3. done.
Qed.

(** The content chunks are increments: none starts with the content before it. *)
Fixpoint increments (acc : jstring) (chunks : list jstring) : Prop :=
  match chunks with
  | [] => True
  | c :: chunks => truthy acc && startsWith c acc = false /\ increments (acc ++ c) chunks
  end.

Lemma increments_merge acc chunks : increments acc chunks -> foldl mergeContent acc chunks = acc ++ concat chunks.
Proof.
  revert acc. induction chunks as [|c chunks IH]; intros acc; cbn; [by rewrite app_nil_r|].
  intros [H1 H2]. unfold mergeContent at 2. rewrite H1, (IH _ H2). by rewrite app_assoc.
Qed.

Lemma last_cons_default {A} (l : list A) a b : List.last l a = List.last (a :: l) b.
Proof.
  revert a b. induction l as [|x l IH]; intros a b; [done|].
  change (List.last (x :: l) a = List.last (x :: l) b). by rewrite <- (IH x a), <- (IH x b).
Qed.

(** The content chunks are snapshots: each starts with the one before it. *)
Fixpoint snapshots (acc : jstring) (chunks : list jstring) : Prop :=
  match chunks with
  | [] => True
  | c :: chunks => startsWith c acc = true /\ snapshots c chunks
  end.

Lemma snapshots_merge acc chunks : snapshots acc chunks -> foldl mergeContent acc chunks = List.last chunks acc.
Proof.
  revert acc. induction chunks as [|c chunks IH]; intros acc; [done|]. intros [H1 H2].
  assert (mergeContent acc c = c) as E.
  { unfold mergeContent. rewrite H1, andb_true_r. destruct (truthy acc) eqn:E; [done|]. by apply truthy_false in E as ->. }
  cbn [foldl]. rewrite E, (IH _ H2). apply last_cons_default.
Qed.

Lemma stream_reasoning m chunks c now :
  status m <> Some ERROR ->
  let full := foldl mergeContent (getMessageContent m) (chunks ++ [c]) in
  truthy (p_reasoning (parseThinkTags full)) = true ->
  (r_content <$> reasoning (streamContent m (chunks ++ [c]) now)) = Some (p_reasoning (parseThinkTags full)).
Proof.
  intros Hs full Hr. unfold streamContent. rewrite foldl_snoc. fold (streamContent m chunks now).
  destruct (stream_fold m chunks now Hs) as (I1 & I2 & _).
  destruct (content_chunk (streamContent m chunks now) c now I2) as (_ & _ & _ & ->). rewrite I1.
  unfold full in *. rewrite foldl_snoc in *. by rewrite Hr.
Qed.

Lemma stream_plain m chunks now :
  status m <> Some ERROR -> reasoning m = None -> increments (getMessageContent m) chunks ->
  includes (getMessageContent m ++ concat chunks) open_tag = false ->
  reasoning (streamContent m chunks now) = None.
Proof.
  unfold streamContent. revert m. induction chunks as [|c chunks IH]; intros m Hs Hr Hi Hp; [done|].
  destruct Hi as [Hi1 Hi2]. cbn [foldl concat] in *. destruct (content_chunk m c now Hs) as (H1 & H2 & H3 & H4).
  assert (mergeContent (getMessageContent m) c = getMessageContent m ++ c) as Em by (unfold mergeContent; by rewrite Hi1).
  rewrite Em in *.
  assert (includes (getMessageContent m ++ c) open_tag = false) as Hm.
  { destruct (includes (getMessageContent m ++ c) open_tag) eqn:E; [|done].
    apply (includes_app_l _ (concat chunks)) in E. rewrite <- app_assoc in E. congruence. }
  apply IH; [by rewrite H2| |by rewrite H1|by rewrite H1, <- app_assoc].
  unfold parseThinkTags in H4. rewrite Hm in H4. cbn in H4. rewrite Hr in H4.
  by destruct (reasoning (applyStreamingChunk m c_content c now)).
Qed.

Lemma finalize_fields m api now :
  let m' := finalizeMessage m api now in
  let c := getMessageContent m in
  getMessageContent m' = (if includes c open_tag then visibleContent (parseThinkTags c) else c) /\
  (r_content <$> reasoning m') =
    (let r := jor (coalesce api []) (jor (match reasoning m with Some r => r_content r | None => [] end)
               (if includes c open_tag then p_reasoning (parseThinkTags c) else [])) in
     if truthy r then Some r else None) /\
  isReasoningStreaming m' = Some false /\ from m' = from m.
Proof.
  intros m' c. unfold m', finalizeMessage. fold (getMessageContent m). fold c.
  match goal with |- context [completeReasoningTiming ?x now] => set (base := x) end.
  destruct (content_reasoning_timing base now) as (T1 & _ & T3 & T4 & T5).
  unfold getMessageContent, getCurrentVersion. rewrite T1, T3, T4, T5. unfold base. cbn.
  split; [by destruct (includes c open_tag)|].
  destruct (includes c open_tag); case_match; done.
Qed.

(** *** Messages of a conversation *)

Lemma find_last_index_app {A} (f : A -> bool) l x k :
  f x = true -> Forall (fun y => f y = false) k -> find_last_index f (l ++ x :: k) = Some (length l).
Proof.
  intros Hx Hk. assert (find_last_index f k = None) as E.
  { induction Hk as [|y k Hy _ IH]; [done|]. cbn. by rewrite IH, Hy. }
  induction l as [|y l IH]; cbn; [by rewrite E, Hx|]. by rewrite IH.
Qed.

Lemma find_last_index_None {A} (f : A -> bool) l : Forall (fun y => f y = false) l -> find_last_index f l = None.
Proof. induction 1 as [|y k Hy _ IH]; [done|]. cbn. by rewrite IH, Hy. Qed.

Lemma sanitize_final t m now :
  from m = ASSISTANT ->
  let m' := sanitizeMessage t m now in
  isAssistantMessageFinal m' = true /\ isReasoningStreaming m' = Some false /\
  (status m' = Some COMPLETE \/
   status m' = Some ERROR /\ getMessageContent m' = t API_REQUEST_ERROR ++ js ": " ++ t INTERRUPTED).
Proof.
  intros Hm m'. unfold m', sanitizeMessage. destruct (_ || _);
    match goal with |- context [completeAssistantTiming ?x now] => set (base := x) end;
    destruct (content_assistant_timing base now) as (T1 & T2 & T3 & T4);
    unfold isAssistantMessageFinal, getMessageContent, getCurrentVersion; rewrite T1, T2, T4; unfold base; cbn; auto.
Qed.

(** ** Properties *)

(** Parsing the tags of a text recovers the sections it was written with: what is
    outside the sections is visible, the sections are the reasoning, and a section
    left open is reported. *)
Theorem parseThinkTags_sections segs t :
  segs_ok segs t -> segs <> [] \/ leftOpen t = true ->
  parseThinkTags (think_text segs t) =
  MkParsed (trim (visible_text segs t)) (trim (join [10; 10]%N (sections segs t))) (leftOpen t).
Proof.
  intros H Hne. rewrite (parse_text segs t H). destruct (includes (think_text segs t) open_tag) eqn:E; [done|].
  destruct (plain_think_text segs t E) as [-> [v ->]]. by destruct Hne.
Qed.

(** Parsing is total: the loop ends on every text, every text is a text with
    sections, and one without an opening tag is left as it is. *)
Theorem parseThinkTags_total c :
  think_loop (S (length c)) c 0 [] [] <> None /\
  exists segs t, segs_ok segs t /\ c = think_text segs t /\
    parseThinkTags c =
      if includes c open_tag
      then MkParsed (trim (visible_text segs t)) (trim (join [10; 10]%N (sections segs t))) (leftOpen t)
      else MkParsed c [] false.
Proof.
  destruct (think_decompose c) as (segs & t & H & ->). split.
  - pose proof (segs_length segs t).
    destruct (think_loop_text segs t H (S (length (think_text segs t))) [] [] [] ltac:(lia)) as (vs & E & _).
    cbn [app length] in E. by rewrite E.
  - exists segs, t. split; [done|]. split; [done|]. by apply parse_text.
Qed.

(** Streaming both kinds of chunks: increments add up to their concatenation, and
    snapshots that repeat the content so far end as the last of them. *)
Theorem stream_content m chunks now :
  status m <> Some ERROR ->
  (increments (getMessageContent m) chunks ->
     getMessageContent (streamContent m chunks now) = getMessageContent m ++ concat chunks) /\
  (snapshots (getMessageContent m) chunks ->
     getMessageContent (streamContent m chunks now) = List.last chunks (getMessageContent m)).
Proof.
  intros Hs. destruct (stream_fold m chunks now Hs) as [-> _]. split; [apply increments_merge|apply snapshots_merge].
Qed.

(** How the answer is cut into chunks does not matter: a message that is streamed and
    completed shows what is visible in the whole text, and its reasoning is that of
    the whole text, provided the text has some or has no tag at all. *)
Theorem streamed_answer m chunks now :
  from m = ASSISTANT -> status m <> Some ERROR -> reasoning m = None -> getMessageContent m = [] ->
  chunks <> [] -> increments [] chunks ->
  let text := concat chunks in
  let m' := completeAssistantMessage (streamContent m chunks now) now in
  status m' = Some COMPLETE /\ isReasoningStreaming m' = Some false /\
  getMessageContent m' = visibleContent (parseThinkTags text) /\
  (includes text open_tag = false -> reasoning m' = None) /\
  (p_reasoning (parseThinkTags text) <> [] ->
     (r_content <$> reasoning m') = Some (p_reasoning (parseThinkTags text))).
Proof.
  intros Hf Hs Hr Hc Hne Hi text m'.
  destruct (stream_fold m chunks now Hs) as (S1 & S2 & S3). rewrite Hc, (increments_merge [] chunks Hi) in S1.
  cbn [app] in S1. fold text in S1.
  destruct (finalize_fields (streamContent m chunks now) None now) as (F1 & F2 & F3 & F4). rewrite S1 in *.
  unfold m', completeAssistantMessage.
  match goal with |- context [completeAssistantTiming ?x now] => set (base := x) end.
  destruct (content_assistant_timing base now) as (T1 & T2 & T3 & T4).
  unfold getMessageContent, getCurrentVersion. rewrite T1, T2, T3, T4. unfold base. cbn [status withStatus isReasoningStreaming reasoning versions].
  split; [done|]. split; [done|]. split; [|split].
  - transitivity (getMessageContent (finalizeMessage (streamContent m chunks now) None now)); [done|]. rewrite F1.
    destruct (includes text open_tag) eqn:E; [done|]. unfold parseThinkTags. by rewrite E.
  - intros E. rewrite E in F2. rewrite (stream_plain m chunks now Hs Hr) in F2; [|by rewrite Hc|by rewrite Hc].
    destruct (reasoning (finalizeMessage (streamContent m chunks now) None now)); [discriminate F2|done].
  - intros Hp. apply truthy_true in Hp.
    destruct (exists_last Hne) as (chunks' & c & Ec).
    pose proof (stream_reasoning m chunks' c now Hs) as R. cbn zeta in R.
    rewrite <- Ec, Hc, (increments_merge [] chunks Hi) in R. cbn [app] in R. fold text in R. specialize (R Hp).
    rewrite F2. destruct (reasoning (streamContent m chunks now)) as [r|]; [|done]. injection R as ->.
    cbn [coalesce from_option jor truthy Datatypes.id]. unfold jor. cbn [truthy coalesce from_option]. rewrite Hp. by rewrite Hp.
Qed.

(** Loading a stored conversation settles the answer that was still pending: it
    becomes complete when there is something to keep and an error otherwise, and
    every other message is as it was stored. *)
Theorem sanitize_settles t pre m post now :
  from m = ASSISTANT -> isAssistantMessagePending m = true ->
  Forall (fun x => isPendingAssistantMessage (Some x) = false) post ->
  exists m', sanitizeMessagesOnLoad t (pre ++ m :: post) now = pre ++ m' :: post /\
    isAssistantMessageFinal m' = true /\ isReasoningStreaming m' = Some false /\
    (status m' = Some COMPLETE \/
     status m' = Some ERROR /\ getMessageContent m' = t API_REQUEST_ERROR ++ js ": " ++ t INTERRUPTED).
Proof.
  intros Hf Hp Hpost. exists (sanitizeMessage t m now). split; [|by apply sanitize_final].
  unfold sanitizeMessagesOnLoad. rewrite find_last_index_app; [|by cbn; rewrite bool_decide_eq_true_2, Hp|done].
  rewrite list_lookup_middle by done. by rewrite insert_app_r_alt, Nat.sub_diag by done.
Qed.

(** Two answers left pending: only the last is settled, the other stays pending. *)
Theorem sanitize_leaves_earlier t now :
  let stuck i := createLoadingAssistantMessage i i 0 in
  exists m', sanitizeMessagesOnLoad t [stuck (js "a"); stuck (js "b")] now = [stuck (js "a"); m'] /\
    isAssistantMessagePending (stuck (js "a")) = true.
Proof.
  intros stuck. exists (sanitizeMessage t (stuck (js "b")) now). split; reflexivity.
Qed.

(** An increment that repeats the whole content so far is taken for a snapshot and lost. *)
Theorem repeated_increment_is_lost :
  getMessageContent (streamContent (createLoadingAssistantMessage (js "k") (js "v") 0) [js "ha"; js "ha"] 1) = js "ha".
Proof. vm_compute. reflexivity. Qed.

(** An empty section whose closing tag is cut in two leaves a piece of the tag as the
    reasoning of the finished answer, though the text as a whole has none. *)
Theorem cut_tag_leaves_reasoning :
  let chunks := [js "<think></th"; js "ink>Hello"] in
  let m' := completeAssistantMessage
              (streamContent (createLoadingAssistantMessage (js "k") (js "v") 0) chunks 1) 2 in
  p_reasoning (parseThinkTags (concat chunks)) = [] /\ getMessageContent m' = js "Hello" /\
  (r_content <$> reasoning m') = Some (js "</th").
Proof. vm_compute. split; [|split]; reflexivity. Qed.

(** ** Witnesses *)

Definition waiting : Message := createLoadingAssistantMessage (js "k") (js "v") 1000.

Lemma parseThinkTags_sections_witness :
  parseThinkTags (js "<think>plan</think>Hi <think>more</think>there") =
  MkParsed (js "Hi there") (js "plan" ++ [10; 10]%N ++ js "more") false.
Proof.
  refine (eq_trans (parseThinkTags_sections [([], js "plan"); (js "Hi ", js "more")] (AllClosed (js "there")) _ _) _);
    [repeat split; repeat constructor|left; discriminate|vm_compute; reflexivity].
Defined.

Lemma stream_content_witness :
  getMessageContent (streamContent waiting [js "Hel"; js "lo"] 2000) = js "Hello" /\
  getMessageContent (streamContent waiting [js "Hel"; js "Hello"] 2000) = js "Hello".
Proof.
  split.
  - refine (proj1 (stream_content waiting [js "Hel"; js "lo"] 2000 _) _); [discriminate|repeat split].
  - refine (proj2 (stream_content waiting [js "Hel"; js "Hello"] 2000 _) _); [discriminate|repeat split].
Defined.

Lemma streamed_answer_witness :
  let m' := completeAssistantMessage (streamContent waiting [js "<thi"; js "nk>plan</think>"; js "Hello"] 2000) 2000 in
  getMessageContent m' = js "Hello" /\ (r_content <$> reasoning m') = Some (js "plan").
Proof.
  intros m'.
  destruct (streamed_answer waiting [js "<thi"; js "nk>plan</think>"; js "Hello"] 2000) as (_ & _ & H & _ & R);
    [reflexivity|discriminate|reflexivity|reflexivity|discriminate|repeat split|].
  split; [exact H|]. apply R. vm_compute. discriminate.
Defined.

Lemma sanitize_settles_witness :
  exists m', sanitizeMessagesOnLoad Datatypes.id [waiting] 5000 = [m'] /\ isAssistantMessageFinal m' = true.
Proof.
  destruct (sanitize_settles Datatypes.id [] waiting [] 5000 eq_refl eq_refl ltac:(constructor)) as (m' & E & F & _).
  exists m'. split; [exact E|exact F].
Defined.
