(* ===== verification/PlaygroundStorage.v ===== *)
(** * What the playground keeps between visits

    features/playground/lib/storage/storage.ts, storage-schema.ts, lib/state and
    hooks/use-playground-state.ts: the conversation, the settings and the enabled parameters in
    the browser's storage, what is read back of them, and the page that saves the conversation
    half a second after its last change.

    The validation library is the interface of Zod. *)

From S2P Require Import Prelude JsValue JsText JsonText Zod Regex Playground.
#[global] Open Scope Z_scope.

(** ** storage-schema.ts *)

Definition STORAGE_VERSION : Z := 1.
Definition MAX_STORED_MESSAGES : nat := 100.
Definition MAX_STORED_MESSAGES_BYTES : nat := Z.to_nat (1024 * 1024).
Definition MAX_LOADED_MESSAGES_CHARS : nat := Z.to_nat 120000.
Definition MAX_LOADED_MESSAGE_CHARS : nat := Z.to_nat 40000.

(** A stored time or duration counts in whole units. *)
Definition whole (n : jsnum) : Z := match n with Fin q => Qnum q / Zpos (Qden q) | _ => 0 end.

Record PartialConfig := {
  pc_model : option jstring; pc_group : option jstring; pc_temperature : option jsnum; pc_top_p : option jsnum;
  pc_max_tokens : option jsnum; pc_frequency_penalty : option jsnum; pc_presence_penalty : option jsnum;
  pc_seed : option (option jsnum); pc_stream : option bool
}.

Record PartialEnabled := {
  pe_temperature : option bool; pe_top_p : option bool; pe_max_tokens : option bool; pe_frequency_penalty : option bool;
  pe_presence_penalty : option bool; pe_seed : option bool
}.

Definition role_text (r : MessageRole) : jstring :=
  match r with USER => js "user" | ASSISTANT => js "assistant" | SYSTEM => js "system" end.
Definition status_text (s : MessageStatus) : jstring :=
  match s with LOADING => js "loading" | STREAMING => js "streaming" | COMPLETE => js "complete" | ERROR => js "error" end.
Definition role_of (s : jstring) : option MessageRole := List.find (fun r => jeqb (role_text r) s) [USER; ASSISTANT; SYSTEM].
Definition status_of (s : jstring) : option MessageStatus :=
  List.find (fun r => jeqb (status_text r) s) [LOADING; STREAMING; COMPLETE; ERROR].

Section Schemas.
Context `{Zod}.

Definition playgroundConfigSchema (v : jsval) : option PartialConfig :=
  g ← z_object v;
  m ← z_optional z_string (g (js "model"));
  gr ← z_optional z_string (g (js "group"));
  te ← z_optional z_number (g (js "temperature"));
  tp ← z_optional z_number (g (js "top_p"));
  mt ← z_optional z_number (g (js "max_tokens"));
  fp ← z_optional z_number (g (js "frequency_penalty"));
  pp ← z_optional z_number (g (js "presence_penalty"));
  se ← z_optional (z_nullable z_number) (g (js "seed"));
  st ← z_optional z_boolean (g (js "stream"));
  Some {| pc_model := m; pc_group := gr; pc_temperature := te; pc_top_p := tp; pc_max_tokens := mt;
          pc_frequency_penalty := fp; pc_presence_penalty := pp; pc_seed := se; pc_stream := st |}.

Definition parameterEnabledSchema (v : jsval) : option PartialEnabled :=
  g ← z_object v;
  te ← z_optional z_boolean (g (js "temperature"));
  tp ← z_optional z_boolean (g (js "top_p"));
  mt ← z_optional z_boolean (g (js "max_tokens"));
  fp ← z_optional z_boolean (g (js "frequency_penalty"));
  pp ← z_optional z_boolean (g (js "presence_penalty"));
  se ← z_optional z_boolean (g (js "seed"));
  Some {| pe_temperature := te; pe_top_p := tp; pe_max_tokens := mt; pe_frequency_penalty := fp;
          pe_presence_penalty := pp; pe_seed := se |}.

Definition z_whole (v : jsval) : option Z := whole <$> z_number v.

Definition messageVersionSchema (v : jsval) : option MessageVersion :=
  g ← z_object v; i ← z_string (g (js "id")); c ← z_string (g (js "content")); Some (MkVersion i c).

Definition sourceSchema (v : jsval) : option (jstring * jstring) :=
  g ← z_object v; h ← z_string (g (js "href")); t ← z_string (g (js "title")); Some (h, t).

Definition reasoningSchema (v : jsval) : option Reasoning :=
  g ← z_object v;
  c ← z_string (g (js "content"));
  d ← z_whole (g (js "duration"));
  s ← z_optional z_whole (g (js "startedAt"));
  e ← z_optional z_whole (g (js "completedAt"));
  m ← z_optional z_whole (g (js "durationMs"));
  Some (MkReasoning c d s e m).

Definition messageRoleSchema (v : jsval) : option MessageRole :=
  s ← z_enum (map role_text [USER; ASSISTANT; SYSTEM]) v; role_of s.
Definition messageStatusSchema (v : jsval) : option MessageStatus :=
  s ← z_enum (map status_text [LOADING; STREAMING; COMPLETE; ERROR]) v; status_of s.

Definition messageSchema (v : jsval) : option Message :=
  g ← z_object v;
  k ← z_string (g (js "key"));
  fr ← messageRoleSchema (g (js "from"));
  vs ← z_array messageVersionSchema (g (js "versions"));
  vs ← at_least_one vs;
  ca ← z_optional z_whole (g (js "createdAt"));
  sa ← z_optional z_whole (g (js "startedAt"));
  co ← z_optional z_whole (g (js "completedAt"));
  du ← z_optional z_whole (g (js "durationMs"));
  so ← z_optional (z_array sourceSchema) (g (js "sources"));
  re ← z_optional reasoningSchema (g (js "reasoning"));
  rs ← z_optional z_boolean (g (js "isReasoningStreaming"));
  rc ← z_optional z_boolean (g (js "isReasoningComplete"));
  cc ← z_optional z_boolean (g (js "isContentComplete"));
  st ← z_optional messageStatusSchema (g (js "status"));
  ec ← z_optional (z_nullable z_string) (g (js "errorCode"));
  Some (MkMessage k fr vs ca sa co du so re rs rc cc None st (mjoin ec)).

Definition messagesSchema : jsval -> option (list Message) := z_array messageSchema.
End Schemas.

(** ** The values that are written *)

Definition json_num (z : Z) : jsval := JNum (num_of_Z z).

Definition version_json (v : MessageVersion) : jsval := JObj [(js "id", JStr (v_id v)); (js "content", JStr (content v))].
Definition source_json (s : jstring * jstring) : jsval := JObj [(js "href", JStr s.1); (js "title", JStr s.2)].
Definition reasoning_fields (r : Reasoning) : list (jstring * option jsval) :=
  [(js "content", Some (JStr (r_content r))); (js "duration", Some (json_num (r_duration r)));
   (js "startedAt", json_num <$> r_startedAt r); (js "completedAt", json_num <$> r_completedAt r);
   (js "durationMs", json_num <$> r_durationMs r)].

(** A message as the schema leaves it. *)
Definition message_fields (m : Message) : list (jstring * option jsval) :=
  [(js "key", Some (JStr (key m))); (js "from", Some (JStr (role_text (from m))));
   (js "versions", Some (JArr (map version_json (versions m))));
   (js "createdAt", json_num <$> createdAt m); (js "startedAt", json_num <$> startedAt m);
   (js "completedAt", json_num <$> completedAt m); (js "durationMs", json_num <$> durationMs m);
   (js "sources", (fun l => JArr (map source_json l)) <$> sources m);
   (js "reasoning", (fun r => JObj (present (reasoning_fields r))) <$> reasoning m);
   (js "isReasoningStreaming", JBool <$> isReasoningStreaming m); (js "isReasoningComplete", JBool <$> isReasoningComplete m);
   (js "isContentComplete", JBool <$> isContentComplete m);
   (js "status", (fun s => JStr (status_text s)) <$> status m); (js "errorCode", JStr <$> errorCode m)].

Definition message_json (m : Message) : jsval := JObj (present (message_fields m)).

Definition config_fields (c : PartialConfig) : list (jstring * option jsval) :=
  [(js "model", JStr <$> pc_model c); (js "group", JStr <$> pc_group c); (js "temperature", JNum <$> pc_temperature c);
   (js "top_p", JNum <$> pc_top_p c); (js "max_tokens", JNum <$> pc_max_tokens c);
   (js "frequency_penalty", JNum <$> pc_frequency_penalty c); (js "presence_penalty", JNum <$> pc_presence_penalty c);
   (js "seed", (fun s => match s with Some n => JNum n | None => JNull end) <$> pc_seed c); (js "stream", JBool <$> pc_stream c)].

Definition enabled_fields (e : PartialEnabled) : list (jstring * option jsval) :=
  [(js "temperature", JBool <$> pe_temperature e); (js "top_p", JBool <$> pe_top_p e); (js "max_tokens", JBool <$> pe_max_tokens e);
   (js "frequency_penalty", JBool <$> pe_frequency_penalty e); (js "presence_penalty", JBool <$> pe_presence_penalty e);
   (js "seed", JBool <$> pe_seed e)].

(** The value the schema is given: what it does not name is there too. *)
Definition event_json (e : PluginEvent) : jsval :=
  JObj (present match payload e with
    | Interim t => [(js "type", Some (JStr (js "interim"))); (js "text", Some (JStr t)); (js "id", Some (JStr (event_id e)))]
    | ToolCall p tl a d =>
        [(js "type", Some (JStr (js "tool_call"))); (js "plugin", Some (JStr p)); (js "tool", Some (JStr tl));
         (js "args", JStr <$> a); (js "durationMs", JNum <$> d); (js "id", Some (JStr (event_id e)))]
    end).
Definition message_value (m : Message) : jsval :=
  JObj (present (message_fields m ++ [(js "pluginEvents", (fun l => JArr (map event_json l)) <$> pluginEvents m)])).

(** ** The browser's storage *)

Record Storage := { s_config : option jstring; s_enabled : option jstring; s_messages : option jstring }.

Inductive storage_key := CONFIG | PARAMETER_ENABLED | MESSAGES.

Definition getItem (k : storage_key) (st : Storage) : option jstring :=
  match k with CONFIG => s_config st | PARAMETER_ENABLED => s_enabled st | MESSAGES => s_messages st end.
Definition putItem (k : storage_key) (v : option jstring) (st : Storage) : Storage :=
  match k with
  | CONFIG => {| s_config := v; s_enabled := s_enabled st; s_messages := s_messages st |}
  | PARAMETER_ENABLED => {| s_config := s_config st; s_enabled := v; s_messages := s_messages st |}
  | MESSAGES => {| s_config := s_config st; s_enabled := s_enabled st; s_messages := v |}
  end.

(** ** storage.ts *)

(** The value under a key, null where there is none. *)
Definition readStoredValue (k : storage_key) (st : Storage) : exc jsval :=
  match getItem k st with Some ((_ :: _) as saved) => JSON_parse saved | _ => Ret JNull end.

(** A text over the bound is removed. *)
Definition readStoredMessagesValue (st : Storage) : Storage * exc jsval :=
  match s_messages st with
  | Some ((_ :: _) as saved) =>
      if (MAX_STORED_MESSAGES_BYTES <? length saved)%nat then (putItem MESSAGES None st, Ret JNull) else (st, JSON_parse saved)
  | _ => (st, Ret JNull)
  end.

Definition unwrapStoredValue (v : jsval) : jsval :=
  match v with
  | JObj fs => match assoc (js "version") fs, assoc (js "data") fs with Some _, Some d => d | _, _ => v end
  | _ => v
  end.

Definition envelope (data : jsval) : jsval := JObj [(js "version", json_num STORAGE_VERSION); (js "data", data)].

Definition trimMessages (messages : list Message) : list Message :=
  if (length messages <=? MAX_STORED_MESSAGES)%nat then messages else drop (length messages - MAX_STORED_MESSAGES) messages.

Definition getMessageSize (m : Message) : nat :=
  (foldl (fun total v => total + length (content v)) 0 (versions m) +
   match reasoning m with Some r => length (r_content r) | None => 0 end)%nat.

Definition TRUNCATED_CONTENT_SUFFIX : jstring := [10; 10]%N ++ js "[...]".
Definition MIN_PREFIX_COLLAPSE_LENGTH : nat := Z.to_nat 2000.
Definition MIN_REPEATED_SECTION_COUNT : nat := 3.

Definition truncateText (text : jstring) (maxLength : nat) : jstring :=
  if (length text <=? maxLength)%nat then text
  else if (maxLength <=? length TRUNCATED_CONTENT_SUFFIX)%nat then take maxLength text
  else take (maxLength - length TRUNCATED_CONTENT_SUFFIX) text ++ TRUNCATED_CONTENT_SUFFIX.

(** *** Repeated sections *)

Definition line_terminator (c : N) : bool := one_of [10; 13; 8232; 8233]%N c.
(** [^] of a multi-line pattern. *)
Definition line_start (prev : option N) (_ : jstring) : bool := match prev with None => true | Some c => line_terminator c end.

Definition hash_opt (r : regex) : regex := Opt (Seq (Lit (js "#")) r).
(** [#{2,6}\s+\d+\.\s+.+] at the start of a line; the dot stops at the end of the line, so [$]
    holds wherever the rest has matched. *)
Definition SECTION_HEADING_LINE_PATTERN : regex :=
  Grp 1 (Seqs [Lit (js "##"); hash_opt (hash_opt (hash_opt (hash_opt Eps))); Plus (Chr is_ws); Plus (Chr is_digit);
               Lit (js "."); Plus (Chr is_ws); Plus (Chr dot)]).

(** A heading and its index. *)
Definition SectionOccurrence : Type := jstring * nat.

Fixpoint occurrences_from (index : nat) (ms : list (jstring * caps)) : list SectionOccurrence :=
  match ms with
  | [] => []
  | (before, c) :: ms' =>
      let at_ := (index + length before)%nat in
      (capd c 1, at_) :: occurrences_from (at_ + length (capd c 1)) ms'
  end.

Definition getSectionOccurrences (text : jstring) : list SectionOccurrence :=
  occurrences_from 0 (match_all line_start SECTION_HEADING_LINE_PATTERN (length text) None text).1.

Definition getHeadingCounts (occurrences : list SectionOccurrence) : list (jstring * nat) :=
  foldl (fun counts o => mset counts o.1 (coalesce (mget counts o.1) 0 + 1)%nat) [] occurrences.

(** The loop from the last occurrence: the headings seen and the indexes found. *)
Definition repeated_step (counts : list (jstring * nat)) (s : list jstring * list nat) (o : SectionOccurrence)
  : list jstring * list nat :=
  if (coalesce (mget counts o.1) 0 <? MIN_REPEATED_SECTION_COUNT)%nat || bool_decide (o.1 ∈ s.1) then s
  else (o.1 :: s.1, s.2 ++ [o.2]).

Definition findLastRepeatedSectionRunStart (text : jstring) : option nat :=
  let occurrences := getSectionOccurrences text in
  match (foldl (repeated_step (getHeadingCounts occurrences)) ([], []) (rev occurrences)).2 with
  | [] => None
  | i :: indexes => Some (foldl Nat.min i indexes)
  end.

Definition collapseRepeatedSectionSnapshots (text : jstring) : jstring :=
  if (length text <? MIN_PREFIX_COLLAPSE_LENGTH)%nat then text
  else match findLastRepeatedSectionRunStart text with Some i => drop i text | None => text end.

(** *** Loading *)

(** The message, and whether it is another one. *)
Definition normalizeStoredMessageForLoad (now : Z) (m : Message) : Message * bool :=
  let loaded v :=
    let collapsed := collapseRepeatedSectionSnapshots (content v) in
    let c := truncateText collapsed MAX_LOADED_MESSAGE_CHARS in
    if jeqb c (content v) && jeqb collapsed (content v) then (v, false) else (MkVersion (v_id v) c, true) in
  let vs := map loaded (versions m) in
  let r := (fun r => MkReasoning (truncateText (r_content r) MAX_LOADED_MESSAGE_CHARS) (r_duration r) (r_startedAt r)
                       (r_completedAt r) (r_durationMs r)) <$> reasoning m in
  let changed := existsb snd vs || negb (bool_decide (r_content <$> r = r_content <$> reasoning m)) in
  let normalized := if changed then withReasoning r (withVersions (map fst vs) m) else m in
  if negb (isAssistantMessagePending normalized) then (normalized, changed)
  else
    let hasReasoning := match reasoning normalized with Some r => truthy (trim (r_content r)) | None => false end in
    if negb (hasMessageContent normalized) && negb hasReasoning then (normalized, changed)
    else
      let completedAt_ :=
        coalesce (completedAt normalized)
          (coalesce (r ← reasoning normalized; r_completedAt r)
             (coalesce (startedAt normalized) (coalesce (createdAt normalized) now))) in
      (completeAssistantTiming
         (withReasoningStreaming false (withStatus COMPLETE (finalizeMessage normalized None now))) completedAt_, true).

(** The loop from the last message: the size so far, and what is kept. *)
Fixpoint trim_loop (totalSize : nat) (result : list Message) (reversed : list Message) : list Message :=
  match reversed with
  | [] => result
  | m :: reversed' =>
      let size := getMessageSize m in
      if negb (bool_decide (result = [])) && (MAX_LOADED_MESSAGES_CHARS <? totalSize + size)%nat then result
      else trim_loop (totalSize + size) (m :: result) reversed'
  end.

Definition trimMessagesByContentSize (messages : list Message) : list Message := trim_loop 0 [] (rev messages).

Definition read_config `{Zod} (st : Storage) : exc PartialConfig :=
  ebind (readStoredValue CONFIG st) (fun saved =>
    if jtruthy saved then match playgroundConfigSchema (unwrapStoredValue saved) with Some c => Ret c | None => Throw end
    else Ret {| pc_model := None; pc_group := None; pc_temperature := None; pc_top_p := None; pc_max_tokens := None;
                pc_frequency_penalty := None; pc_presence_penalty := None; pc_seed := None; pc_stream := None |}).

Definition read_enabled `{Zod} (st : Storage) : exc PartialEnabled :=
  ebind (readStoredValue PARAMETER_ENABLED st) (fun saved =>
    if jtruthy saved then match parameterEnabledSchema (unwrapStoredValue saved) with Some c => Ret c | None => Throw end
    else Ret {| pe_temperature := None; pe_top_p := None; pe_max_tokens := None; pe_frequency_penalty := None;
                pe_presence_penalty := None; pe_seed := None |}).

(** [{}] when there is nothing, or something that cannot be read. *)
Definition loadConfig `{Zod} (st : Storage) : PartialConfig :=
  catch (read_config st)
    {| pc_model := None; pc_group := None; pc_temperature := None; pc_top_p := None; pc_max_tokens := None;
       pc_frequency_penalty := None; pc_presence_penalty := None; pc_seed := None; pc_stream := None |}.

Definition loadParameterEnabled `{Zod} (st : Storage) : PartialEnabled :=
  catch (read_enabled st)
    {| pe_temperature := None; pe_top_p := None; pe_max_tokens := None; pe_frequency_penalty := None;
       pe_presence_penalty := None; pe_seed := None |}.

Definition config_value (c : PlaygroundConfig) : jsval :=
  JObj [(js "model", JStr (c_model c)); (js "group", JStr (c_group c)); (js "temperature", JNum (c_temperature c));
        (js "top_p", JNum (c_top_p c)); (js "max_tokens", JNum (c_max_tokens c));
        (js "frequency_penalty", JNum (c_frequency_penalty c)); (js "presence_penalty", JNum (c_presence_penalty c));
        (js "seed", match c_seed c with Some n => JNum n | None => JNull end); (js "stream", JBool (c_stream c))].

Definition enabled_value (e : ParameterEnabled) : jsval :=
  JObj [(js "temperature", JBool (e_temperature e)); (js "top_p", JBool (e_top_p e)); (js "max_tokens", JBool (e_max_tokens e));
        (js "frequency_penalty", JBool (e_frequency_penalty e)); (js "presence_penalty", JBool (e_presence_penalty e));
        (js "seed", JBool (e_seed e))].

(** ** The page's operations on the storage *)

(** [accepts]: whether the browser takes a text under a key; [setItem] throws where it does not. *)
Section Saving.
Context `{Zod}.
Variable accepts : storage_key -> jstring -> bool.

Definition writeStoredValue (k : storage_key) (data : jsval) (st : Storage) : Storage :=
  let text := JSON_stringify (envelope data) in
  if accepts k text then putItem k (Some text) st else st.

Definition saveConfig (c : PlaygroundConfig) (st : Storage) : Storage :=
  match playgroundConfigSchema (config_value c) with
  | Some parsed => writeStoredValue CONFIG (JObj (present (config_fields parsed))) st
  | None => st
  end.

Definition saveParameterEnabled (e : ParameterEnabled) (st : Storage) : Storage :=
  match parameterEnabledSchema (enabled_value e) with
  | Some parsed => writeStoredValue PARAMETER_ENABLED (JObj (present (enabled_fields parsed))) st
  | None => st
  end.

Definition saveMessages (messages : list Message) (st : Storage) : Storage :=
  match messagesSchema (JArr (map message_value (trimMessages messages))) with
  | Some parsed => writeStoredValue MESSAGES (JArr (map message_json parsed)) st
  | None => st
  end.

(** The messages, and the storage with them written back when something changed: the trimmed
    array is always another one. *)
Definition loadMessages (t : jstring -> jstring) (now : Z) (st : Storage) : Storage * option (list Message) :=
  let '(st, saved) := readStoredMessagesValue st in
  match saved with
  | Throw => (st, None)
  | Ret saved =>
      if negb (jtruthy saved) then (st, None)
      else match messagesSchema (unwrapStoredValue saved) with
           | None => (st, None)
           | Some parsed =>
               let normalized := map (fun m => (normalizeStoredMessageForLoad now m).1) parsed in
               let trimmed := trimMessages normalized in
               let sizeTrimmed := trimMessagesByContentSize trimmed in
               let sanitized := sanitizeMessagesOnLoad t sizeTrimmed now in
               (saveMessages sanitized st, Some sanitized)
           end
  end.
End Saving.

Definition clearPlaygroundData (st : Storage) : Storage :=
  putItem MESSAGES None (putItem PARAMETER_ENABLED None (putItem CONFIG None st)).

(** ** playground-state-utils.ts *)

Definition DEFAULT_GROUP : jstring := js "default".
Definition DEFAULT_CONFIG : PlaygroundConfig :=
  {| c_model := js "gpt-4o"; c_group := DEFAULT_GROUP; c_temperature := Number (js "0.7"); c_top_p := num_of_Z 1;
     c_max_tokens := num_of_Z 4096; c_frequency_penalty := num_of_Z 0; c_presence_penalty := num_of_Z 0; c_seed := None;
     c_stream := true |}.
Definition DEFAULT_PARAMETER_ENABLED : ParameterEnabled :=
  {| e_temperature := true; e_top_p := true; e_max_tokens := false; e_frequency_penalty := true; e_presence_penalty := true;
     e_seed := false |}.

Definition getInitialPlaygroundConfig `{Zod} (st : Storage) : PlaygroundConfig :=
  let c := loadConfig st in let d := DEFAULT_CONFIG in
  {| c_model := coalesce (pc_model c) (c_model d); c_group := coalesce (pc_group c) (c_group d);
     c_temperature := coalesce (pc_temperature c) (c_temperature d); c_top_p := coalesce (pc_top_p c) (c_top_p d);
     c_max_tokens := coalesce (pc_max_tokens c) (c_max_tokens d);
     c_frequency_penalty := coalesce (pc_frequency_penalty c) (c_frequency_penalty d);
     c_presence_penalty := coalesce (pc_presence_penalty c) (c_presence_penalty d); c_seed := coalesce (pc_seed c) (c_seed d);
     c_stream := coalesce (pc_stream c) (c_stream d) |}.

Definition getInitialParameterEnabled `{Zod} (st : Storage) : ParameterEnabled :=
  let e := loadParameterEnabled st in let d := DEFAULT_PARAMETER_ENABLED in
  {| e_temperature := coalesce (pe_temperature e) (e_temperature d); e_top_p := coalesce (pe_top_p e) (e_top_p d);
     e_max_tokens := coalesce (pe_max_tokens e) (e_max_tokens d);
     e_frequency_penalty := coalesce (pe_frequency_penalty e) (e_frequency_penalty d);
     e_presence_penalty := coalesce (pe_presence_penalty e) (e_presence_penalty d); e_seed := coalesce (pe_seed e) (e_seed d) |}.

Inductive MessageStateUpdater := Given (messages : list Message) | Updater (f : list Message -> list Message).

Definition applyMessageStateUpdate (previousMessages : list Message) (updater : MessageStateUpdater) : list Message :=
  match updater with Given messages => messages | Updater f => f previousMessages end.

(** ** use-playground-state.ts *)

Definition MESSAGE_SAVE_DEBOUNCE_MS : Z := 500.

(** The page of one mount.  [loading_timer]: the timer that loads the conversation has not fired;
    [save_timer]: a timer that saves is armed. *)
Record Page := MkPage {
  storage : Storage;
  config : PlaygroundConfig;
  parameterEnabled : ParameterEnabled;
  messages : list Message;
  isLoadingMessages : bool;
  messagesSaveTimer : bool;
  latestMessages : list Message;
  hasLoadedMessages : bool;
  loading_timer : bool;
  mounted : bool
}.

(** [updateConfig(key, value)] *)
Inductive ConfigEntry :=
| SetModel (v : jstring) | SetGroup (v : jstring) | SetTemperature (v : jsnum) | SetTopP (v : jsnum) | SetMaxTokens (v : jsnum)
| SetFrequencyPenalty (v : jsnum) | SetPresencePenalty (v : jsnum) | SetSeed (v : option jsnum) | SetStream (v : bool).

Definition with_entry (e : ConfigEntry) (c : PlaygroundConfig) : PlaygroundConfig :=
  match c with
  | MkConfig m g te tp mt fp pp se st =>
      match e with
      | SetModel v => MkConfig v g te tp mt fp pp se st
      | SetGroup v => MkConfig m v te tp mt fp pp se st
      | SetTemperature v => MkConfig m g v tp mt fp pp se st
      | SetTopP v => MkConfig m g te v mt fp pp se st
      | SetMaxTokens v => MkConfig m g te tp v fp pp se st
      | SetFrequencyPenalty v => MkConfig m g te tp mt v pp se st
      | SetPresencePenalty v => MkConfig m g te tp mt fp v se st
      | SetSeed v => MkConfig m g te tp mt fp pp v st
      | SetStream v => MkConfig m g te tp mt fp pp se v
      end
  end.

Inductive EnabledKey := E_temperature | E_top_p | E_max_tokens | E_frequency_penalty | E_presence_penalty | E_seed.

Definition with_enabled (k : EnabledKey) (b : bool) (e : ParameterEnabled) : ParameterEnabled :=
  match e with
  | MkEnabled te tp mt fp pp se =>
      match k with
      | E_temperature => MkEnabled b tp mt fp pp se
      | E_top_p => MkEnabled te b mt fp pp se
      | E_max_tokens => MkEnabled te tp b fp pp se
      | E_frequency_penalty => MkEnabled te tp mt b pp se
      | E_presence_penalty => MkEnabled te tp mt fp b se
      | E_seed => MkEnabled te tp mt fp pp b
      end
  end.

Inductive page_event :=
| LoadTimer (now : Z)
| UpdateMessages (u : MessageStateUpdater)
| ClearMessages
| SaveTimer
| UpdateConfig (e : ConfigEntry)
| UpdateParameterEnabled (k : EnabledKey) (b : bool)
| ResetConfig
| Unmount
| CloseTab.

Section PageSteps.
Context `{Zod}.
Variable accepts : storage_key -> jstring -> bool.
Variable t : jstring -> jstring.

Definition usePlaygroundState (st : Storage) : Page :=
  MkPage st (getInitialPlaygroundConfig st) (getInitialParameterEnabled st) [] true false [] false true true.

Definition with_storage (st : Storage) (p : Page) : Page :=
  MkPage st (config p) (parameterEnabled p) (messages p) (isLoadingMessages p) (messagesSaveTimer p) (latestMessages p)
    (hasLoadedMessages p) (loading_timer p) (mounted p).

Definition with_settings (c : PlaygroundConfig) (e : ParameterEnabled) (p : Page) : Page :=
  MkPage (storage p) c e (messages p) (isLoadingMessages p) (messagesSaveTimer p) (latestMessages p) (hasLoadedMessages p)
    (loading_timer p) (mounted p).

(** The timer is cleared and armed again. *)
Definition persistMessages (messagesToSave : list Message) (p : Page) : Page :=
  MkPage (storage p) (config p) (parameterEnabled p) (messages p) (isLoadingMessages p)
    (if hasLoadedMessages p then true else messagesSaveTimer p) messagesToSave (hasLoadedMessages p) (loading_timer p) (mounted p).

Definition with_messages (l : list Message) (p : Page) : Page :=
  MkPage (storage p) (config p) (parameterEnabled p) l (isLoadingMessages p) (messagesSaveTimer p) (latestMessages p)
    (hasLoadedMessages p) (loading_timer p) (mounted p).

Definition updateMessages (u : MessageStateUpdater) (p : Page) : Page :=
  let newMessages := applyMessageStateUpdate (messages p) u in with_messages newMessages (persistMessages newMessages p).

Definition clearMessages (p : Page) : Page := updateMessages (Given []) p.

(** The loading timer fires also on a page that is gone; the storage is read, and written back. *)
Definition load_timer (now : Z) (p : Page) : Page :=
  let '(st, loaded) := loadMessages accepts t now (storage p) in
  let loadedMessages := coalesce loaded [] in
  if mounted p
  then MkPage st (config p) (parameterEnabled p) loadedMessages false (messagesSaveTimer p) loadedMessages true false true
  else MkPage st (config p) (parameterEnabled p) (messages p) (isLoadingMessages p) (messagesSaveTimer p) (latestMessages p)
         (hasLoadedMessages p) false false.

Definition save_timer (p : Page) : Page :=
  MkPage (saveMessages accepts (latestMessages p) (storage p)) (config p) (parameterEnabled p) (messages p)
    (isLoadingMessages p) false (latestMessages p) (hasLoadedMessages p) (loading_timer p) (mounted p).

(** The effects are cleaned up: an armed timer saves at once. *)
Definition unmount (p : Page) : Page :=
  MkPage (if messagesSaveTimer p then saveMessages accepts (latestMessages p) (storage p) else storage p) (config p)
    (parameterEnabled p) (messages p) (isLoadingMessages p) false (latestMessages p) (hasLoadedMessages p) (loading_timer p) false.

(** The tab is closed or reloaded: the browser runs no cleanup, and the timers are gone. *)
Definition close_tab (p : Page) : Page :=
  MkPage (storage p) (config p) (parameterEnabled p) (messages p) (isLoadingMessages p) false (latestMessages p)
    (hasLoadedMessages p) false false.

Definition updateConfig (e : ConfigEntry) (p : Page) : Page :=
  let updated := with_entry e (config p) in
  with_settings updated (parameterEnabled p) (with_storage (saveConfig accepts updated (storage p)) p).

Definition updateParameterEnabled (k : EnabledKey) (b : bool) (p : Page) : Page :=
  let updated := with_enabled k b (parameterEnabled p) in
  with_settings (config p) updated (with_storage (saveParameterEnabled accepts updated (storage p)) p).

Definition resetConfig (p : Page) : Page :=
  with_settings DEFAULT_CONFIG DEFAULT_PARAMETER_ENABLED
    (with_storage (saveParameterEnabled accepts DEFAULT_PARAMETER_ENABLED (saveConfig accepts DEFAULT_CONFIG (storage p))) p).

Definition page_step (p : Page) (e : page_event) : Page :=
  match e with
  | LoadTimer now => if loading_timer p then load_timer now p else p
  | SaveTimer => if messagesSaveTimer p then save_timer p else p
  | Unmount => if mounted p then unmount p else p
  | CloseTab => if mounted p then close_tab p else p
  | UpdateMessages u => if mounted p then updateMessages u p else p
  | ClearMessages => if mounted p then clearMessages p else p
  | UpdateConfig e => if mounted p then updateConfig e p else p
  | UpdateParameterEnabled k b => if mounted p then updateParameterEnabled k b p else p
  | ResetConfig => if mounted p then resetConfig p else p
  end.

Definition page_run (p : Page) (es : list page_event) : Page := foldl page_step p es.

(** Where the tab is closed, no change waits for the timer that saves: it was armed half a second before. *)
Fixpoint closed_after_saving (p : Page) (es : list page_event) : Prop :=
  match es with
  | [] => True
  | e :: es => (e = CloseTab -> mounted p = true -> messagesSaveTimer p = false) /\ closed_after_saving (page_step p e) es
  end.
End PageSteps.

(** ** What the schemas read of what is written *)

(** Only the stored members. *)
Definition stored (m : Message) : Message := withPluginEvents None m.

Section Reading.
Context `{Zod}.

Lemma whole_of z : z_whole (json_num z) = Some z.
Proof.
  unfold z_whole, json_num. assert (z_number (JNum (num_of_Z z)) = Some (num_of_Z z)) as -> by by apply z_number_spec.
  cbn. by rewrite Z.div_1_r.
Qed.

Lemma role_read r : messageRoleSchema (JStr (role_text r)) = Some r.
Proof.
  unfold messageRoleSchema.
  assert (z_enum (map role_text [USER; ASSISTANT; SYSTEM]) (JStr (role_text r)) = Some (role_text r)) as ->.
  { apply z_enum_spec. split; [done|]. apply list_elem_of_fmap_2. destruct r; set_solver. }
  by destruct r.
Qed.

Lemma status_read s : messageStatusSchema (JStr (status_text s)) = Some s.
Proof.
  unfold messageStatusSchema.
  assert (z_enum (map status_text [LOADING; STREAMING; COMPLETE; ERROR]) (JStr (status_text s)) = Some (status_text s)) as ->.
  { apply z_enum_spec. split; [done|]. apply list_elem_of_fmap_2. destruct s; set_solver. }
  by destruct s.
Qed.

Lemma version_read v : messageVersionSchema (version_json v) = Some v.
Proof.
  unfold messageVersionSchema, version_json. rewrite object_of. cbn [mbind option_bind]. cbv beta.
  change (coalesce (assoc (js "id") _) JUndefined) with (JStr (v_id v)).
  change (coalesce (assoc (js "content") _) JUndefined) with (JStr (content v)).
  rewrite !string_of. by destruct v.
Qed.

Lemma source_read s : sourceSchema (source_json s) = Some s.
Proof.
  unfold sourceSchema, source_json. rewrite object_of. cbn [mbind option_bind]. cbv beta.
  change (coalesce (assoc (js "href") _) JUndefined) with (JStr s.1).
  change (coalesce (assoc (js "title") _) JUndefined) with (JStr s.2).
  rewrite !string_of. by destruct s.
Qed.
End Reading.

Section ReadingMessages.
Context `{Zod}.

Lemma reasoning_read r : reasoningSchema (JObj (present (reasoning_fields r))) = Some r.
Proof.
  assert (NoDup (map fst (reasoning_fields r))) as Hnd by (apply (bool_decide_unpack _); by vm_compute).
  unfold reasoningSchema. rewrite object_of. cbn [mbind option_bind]. cbv beta.
  rewrite (member_of _ (js "content") _ Hnd eq_refl), (member_of _ (js "duration") _ Hnd eq_refl),
    (member_of _ (js "startedAt") _ Hnd eq_refl), (member_of _ (js "completedAt") _ Hnd eq_refl),
    (member_of _ (js "durationMs") _ Hnd eq_refl).
  rewrite !given_member. rewrite string_of, whole_of. cbn [mbind option_bind].
  rewrite !(optional_of z_whole json_num id) by (done || intros; apply whole_of). cbn [mbind option_bind].
  rewrite !option_fmap_id. by destruct r.
Qed.

(** The members the schema names, whatever follows them. *)
Lemma message_read m rest : NoDup (map fst (message_fields m ++ rest)) -> versions m <> [] ->
  messageSchema (JObj (present (message_fields m ++ rest))) = Some (stored m).
Proof.
  intros Hnd Hv. unfold messageSchema. rewrite object_of. cbn [mbind option_bind]. cbv beta.
  rewrite (member_of _ (js "key") _ Hnd eq_refl), (member_of _ (js "from") _ Hnd eq_refl),
    (member_of _ (js "versions") _ Hnd eq_refl), (member_of _ (js "createdAt") _ Hnd eq_refl),
    (member_of _ (js "startedAt") _ Hnd eq_refl), (member_of _ (js "completedAt") _ Hnd eq_refl),
    (member_of _ (js "durationMs") _ Hnd eq_refl), (member_of _ (js "sources") _ Hnd eq_refl),
    (member_of _ (js "reasoning") _ Hnd eq_refl), (member_of _ (js "isReasoningStreaming") _ Hnd eq_refl),
    (member_of _ (js "isReasoningComplete") _ Hnd eq_refl), (member_of _ (js "isContentComplete") _ Hnd eq_refl),
    (member_of _ (js "status") _ Hnd eq_refl), (member_of _ (js "errorCode") _ Hnd eq_refl).
  rewrite !given_member. rewrite string_of, role_read. cbn [mbind option_bind].
  rewrite (array_of messageVersionSchema version_json id) by (apply Forall_true; apply version_read).
  rewrite map_id. cbn [mbind option_bind].
  assert (at_least_one (versions m) = Some (versions m)) as -> by by destruct (versions m).
  cbn [mbind option_bind]. rewrite !(optional_of z_whole json_num id) by (done || intros; apply whole_of). cbn [mbind option_bind].
  rewrite (optional_of (z_array sourceSchema) _ id)
    by (done || (intros; rewrite (array_of sourceSchema source_json id), map_id; [done|apply Forall_true; apply source_read])).
  cbn [mbind option_bind]. rewrite (optional_of reasoningSchema _ id) by (done || intros; apply reasoning_read).
  cbn [mbind option_bind]. rewrite !(optional_of z_boolean JBool id) by (done || intros; apply boolean_of).
  cbn [mbind option_bind]. rewrite (optional_of messageStatusSchema _ id) by (done || intros; apply status_read).
  cbn [mbind option_bind]. rewrite (optional_of (z_nullable z_string) JStr Some).
  2: { intros a _. apply z_nullable_spec. right. split; [done|]. exists a. by rewrite string_of. }
  2: done.
  cbn [mbind option_bind]. rewrite !option_fmap_id. unfold stored, withPluginEvents. by destruct m as [? ? ? ? ? ? ? ? ? ? ? ? ? ? []].
Qed.

Lemma message_json_read m : versions m <> [] -> messageSchema (message_json m) = Some (stored m).
Proof.
  intros Hv. unfold message_json. rewrite <- (app_nil_r (message_fields m)). apply message_read; [|done].
  apply (bool_decide_unpack _). by vm_compute.
Qed.

Lemma message_value_read m : versions m <> [] -> messageSchema (message_value m) = Some (stored m).
Proof. intros Hv. apply message_read; [|done]. apply (bool_decide_unpack _). by vm_compute. Qed.
End ReadingMessages.

(** ** The text of a conversation *)

(** The times and durations a message holds. *)
Definition times (m : Message) : list Z :=
  omap id [createdAt m; startedAt m; completedAt m; durationMs m] ++
  match reasoning m with
  | Some r => r_duration r :: omap id [r_startedAt r; r_completedAt r; r_durationMs r]
  | None => []
  end.

(** They are numbers a double holds. *)
Definition timed (m : Message) : Prop := Forall (fun z => 0 <= z < 2 ^ 53) (times m).

Lemma plain_whole z : 0 <= z < 2 ^ 53 -> plain_json (json_num z).
Proof. intros Hz. constructor. by apply readable_whole. Qed.

Lemma plain_time (o : option Z) l v : Forall (fun z => 0 <= z < 2 ^ 53) l -> (forall z, o = Some z -> z ∈ l) ->
  json_num <$> o = Some v -> plain_json v.
Proof.
  intros Hl Hin E. destruct o as [z|]; [|done]. injection E as <-. apply plain_whole. rewrite Forall_forall in Hl. by apply Hl, Hin.
Qed.

Lemma plain_version v : plain_json (version_json v).
Proof.
  constructor; [apply (bool_decide_unpack _); by vm_compute|]. repeat (constructor; [constructor|]). constructor.
Qed.

Lemma plain_source s : plain_json (source_json s).
Proof.
  constructor; [apply (bool_decide_unpack _); by vm_compute|]. repeat (constructor; [constructor|]). constructor.
Qed.

Lemma plain_list {A} (enc : A -> jsval) l : (forall a, plain_json (enc a)) -> plain_json (JArr (map enc l)).
Proof. intros Henc. constructor. apply Forall_forall. intros v [a [-> _]]%list_elem_of_fmap. apply Henc. Qed.

Lemma plain_reasoning r l : Forall (fun z => 0 <= z < 2 ^ 53) l ->
  (forall z, z ∈ r_duration r :: omap id [r_startedAt r; r_completedAt r; r_durationMs r] -> z ∈ l) ->
  plain_json (JObj (present (reasoning_fields r))).
Proof.
  intros Hl Hin. apply plain_present; [apply (bool_decide_unpack _); by vm_compute|].
  assert (forall o, (forall z, o = Some z -> z ∈ r_duration r :: omap id [r_startedAt r; r_completedAt r; r_durationMs r]) ->
    forall v, json_num <$> o = Some v -> plain_json v) as Ht.
  { intros o Ho v Ev. apply (plain_time o l v Hl); [|done]. intros z Ez. by apply Hin, Ho. }
  unfold reasoning_fields. repeat apply Forall_cons_2; cbn [snd]; try apply Forall_nil_2; intros v Ev.
  - injection Ev as <-. constructor.
  - apply (Ht (Some (r_duration r))); [|done]. intros z [= ->]. by apply elem_of_cons; left.
  - apply (Ht (r_startedAt r)); [|done]. intros z Ez. apply elem_of_cons; right. cbn. rewrite Ez. by apply elem_of_cons; left.
  - apply (Ht (r_completedAt r)); [|done]. intros z Ez. apply elem_of_cons; right. apply list_elem_of_omap.
    exists (Some z). split; [|done]. rewrite <- Ez. set_solver.
  - apply (Ht (r_durationMs r)); [|done]. intros z Ez. apply elem_of_cons; right. apply list_elem_of_omap.
    exists (Some z). split; [|done]. rewrite <- Ez. set_solver.
Qed.

Lemma plain_message m : timed m -> plain_json (message_json m).
Proof.
  intros Hm. unfold timed in Hm. apply plain_present; [apply (bool_decide_unpack _); by vm_compute|].
  assert (forall o, o ∈ [createdAt m; startedAt m; completedAt m; durationMs m] ->
    forall v, json_num <$> o = Some v -> plain_json v) as Ht.
  { intros o Ho v Ev. apply (plain_time o _ v Hm); [|done]. intros z Ez. subst o. unfold times. apply elem_of_app; left.
    apply list_elem_of_omap. by exists (Some z). }
  unfold message_fields. repeat apply Forall_cons_2; cbn [snd]; try apply Forall_nil_2; intros v Ev.
  all: try (by eapply Ht; [|exact Ev]; set_solver).
  all: try (by injection Ev as <-; constructor).
  all: try (by match type of Ev with ?f <$> ?o = _ => destruct o; [|done] end; injection Ev as <-; constructor).
  - injection Ev as <-. apply plain_list, plain_version.
  - destruct (sources m); [|done]. injection Ev as <-. apply plain_list, plain_source.
  - destruct (reasoning m) as [r|] eqn:Er; [|done]. injection Ev as <-. apply (plain_reasoning r _ Hm).
    intros z Hz. unfold times. rewrite Er. apply elem_of_app. by right.
Qed.

(** What [saveMessages] writes. *)
Definition conversation (ms : list Message) : jsval := envelope (JArr (map message_json (trimMessages ms))).
Definition conversation_text (ms : list Message) : jstring := JSON_stringify (conversation ms).

(** How often a numbered heading stands in a text. *)
Definition heading_count (text h : jstring) : nat :=
  length (List.filter (fun o : SectionOccurrence => bool_decide (o.1 = h)) (getSectionOccurrences text)).

(** A text that is short, or repeats none of its numbered headings three times. *)
Definition unrepeated (text : jstring) : Prop :=
  (length text < MIN_PREFIX_COLLAPSE_LENGTH)%nat \/ forall h, (heading_count text h < MIN_REPEATED_SECTION_COUNT)%nat.

(** A message that is read back as it is: its times fit a double, it is not under way, and its
    texts are within the bound and repeat no heading. *)
Record storable (m : Message) : Prop := {
  storable_versions : versions m <> [];
  storable_times : timed m;
  storable_settled : isAssistantMessagePending m = false;
  storable_contents : Forall (fun v => unrepeated (content v) /\
                                       (length (content v) <= MAX_LOADED_MESSAGE_CHARS)%nat) (versions m);
  storable_reasoning : forall r, reasoning m = Some r -> (length (r_content r) <= MAX_LOADED_MESSAGE_CHARS)%nat
}.

Definition total_size (ms : list Message) : nat := list_sum (map getMessageSize ms).

(** A conversation the bounds leave alone. *)
Record fits (ms : list Message) : Prop := {
  fits_messages : Forall storable ms;
  fits_count : (length ms <= MAX_STORED_MESSAGES)%nat;
  fits_size : (total_size ms <= MAX_LOADED_MESSAGES_CHARS)%nat;
  fits_text : (length (conversation_text ms) <= MAX_STORED_MESSAGES_BYTES)%nat
}.

Lemma truncate_short s n : (length s <= n)%nat -> truncateText s n = s.
Proof. intros Hs. unfold truncateText. by rewrite (proj2 (Nat.leb_le _ _) Hs). Qed.

Lemma collapse_short s : (length s < MIN_PREFIX_COLLAPSE_LENGTH)%nat -> collapseRepeatedSectionSnapshots s = s.
Proof. intros Hs. unfold collapseRepeatedSectionSnapshots. by rewrite (proj2 (Nat.ltb_lt _ _) Hs). Qed.

(** The counts of the code are these. *)
Lemma counts_from (os : list SectionOccurrence) h : forall counts,
  coalesce (mget (foldl (fun counts o => mset counts o.1 (coalesce (mget counts o.1) 0 + 1)%nat) counts os) h) 0%nat =
  (coalesce (mget counts h) 0 + length (List.filter (fun o : SectionOccurrence => bool_decide (o.1 = h)) os))%nat.
Proof.
  induction os as [|o os IH]; intros counts; cbn [foldl List.filter length]; [lia|]. rewrite IH, mget_mset.
  case_decide as E; [rewrite E, bool_decide_eq_true_2 by done; cbn; lia|]. by rewrite bool_decide_eq_false_2.
Qed.

Lemma unrepeated_kept text : unrepeated text -> collapseRepeatedSectionSnapshots text = text.
Proof.
  intros [Hs | Hc]; [by apply collapse_short|]. unfold collapseRepeatedSectionSnapshots. destruct (_ <? _)%nat; [done|].
  unfold findLastRepeatedSectionRunStart. set (counts := getHeadingCounts _).
  assert (forall os, foldl (repeated_step counts) ([], []) os = ([], [])) as ->; [|done].
  induction os as [|o os IH]; [done|]. cbn [foldl]. unfold repeated_step at 2.
  assert (coalesce (mget counts o.1) 0%nat < MIN_REPEATED_SECTION_COUNT)%nat as Ho.
  { unfold counts, getHeadingCounts. rewrite counts_from. apply Hc. }
  by rewrite (proj2 (Nat.ltb_lt _ _) Ho).
Qed.

Lemma normalize_storable now m : storable m -> normalizeStoredMessageForLoad now m = (m, false).
Proof.
  intros [_ _ Hp Hc Hr]. unfold normalizeStoredMessageForLoad. cbv zeta.
  set (vs := map _ (versions m)). assert (existsb snd vs = false) as ->.
  { unfold vs. clear - Hc. induction Hc as [|v l [Hv Hl] _ IH]; [done|]. cbn [map existsb].
    by rewrite (unrepeated_kept _ Hv), truncate_short, !jeqb_refl, IH. }
  set (r := _ <$> reasoning m). assert (r_content <$> r = r_content <$> reasoning m) as E.
  { unfold r. destruct (reasoning m) as [r'|]; [|done]. cbn. by rewrite truncate_short by (by apply Hr). }
  rewrite (bool_decide_eq_true_2 _ E). cbn [negb orb]. by rewrite Hp.
Qed.

Lemma stored_storable m : storable m -> storable (stored m).
Proof. by intros []. Qed.

Lemma trim_small ms : (length ms <= MAX_STORED_MESSAGES)%nat -> trimMessages ms = ms.
Proof. intros Hl. unfold trimMessages. by rewrite (proj2 (Nat.leb_le _ _) Hl). Qed.

Lemma trim_loop_small l : forall total result, (total + total_size l <= MAX_LOADED_MESSAGES_CHARS)%nat ->
  trim_loop total result l = rev l ++ result.
Proof.
  induction l as [|m l IH]; intros total result Hs; [done|]. change (total_size (m :: l)) with (getMessageSize m + total_size l)%nat in Hs.
  cbn [trim_loop rev]. cbv zeta. rewrite (proj2 (Nat.ltb_ge _ _)), andb_false_r by lia. rewrite IH by lia. by rewrite <- app_assoc.
Qed.

Lemma total_size_rev ms : total_size (rev ms) = total_size ms.
Proof.
  unfold total_size. induction ms as [|m ms IH]; [done|]. cbn [rev]. rewrite map_app, list_sum_app, IH.
  change (list_sum (map getMessageSize (m :: ms))) with (getMessageSize m + list_sum (map getMessageSize ms))%nat.
  change (list_sum (map getMessageSize [m])) with (getMessageSize m + 0)%nat. lia.
Qed.

Lemma size_trim_small ms : (total_size ms <= MAX_LOADED_MESSAGES_CHARS)%nat -> trimMessagesByContentSize ms = ms.
Proof.
  intros Hs. unfold trimMessagesByContentSize. rewrite trim_loop_small by (rewrite total_size_rev; lia).
  by rewrite rev_involutive, app_nil_r.
Qed.

Lemma sanitize_none t ms now : Forall (fun m => isAssistantMessagePending m = false) ms -> sanitizeMessagesOnLoad t ms now = ms.
Proof.
  intros Hp. unfold sanitizeMessagesOnLoad. rewrite find_last_index_None; [done|]. eapply Forall_impl; [exact Hp|].
  intros m Hm. cbn. by rewrite Hm, andb_false_r.
Qed.

Section RoundTrip.
Context `{Zod}.
Variable accepts : storage_key -> jstring -> bool.
Variable t : jstring -> jstring.

Lemma messages_read (enc : Message -> jsval) (Henc : forall m, versions m <> [] -> messageSchema (enc m) = Some (stored m)) ms :
  Forall (fun m => versions m <> []) ms -> messagesSchema (JArr (map enc ms)) = Some (map stored ms).
Proof.
  intros Hms. unfold messagesSchema. apply array_of. eapply Forall_impl; [exact Hms|]. exact Henc.
Qed.

(** What is written for messages that all have a version. *)
Lemma save_writes ms st : Forall (fun m => versions m <> []) ms ->
  saveMessages accepts ms st =
  if accepts MESSAGES (conversation_text ms) then putItem MESSAGES (Some (conversation_text ms)) st else st.
Proof.
  intros Hms. unfold saveMessages. rewrite (messages_read message_value message_value_read).
  2: { unfold trimMessages. destruct (_ <=? _)%nat; [done|]. by apply Forall_drop. }
  rewrite map_map. done.
Qed.

Lemma plain_conversation ms : Forall timed ms -> plain_json (conversation ms).
Proof.
  intros Hms. unfold conversation, envelope. constructor; [apply (bool_decide_unpack _); by vm_compute|].
  constructor; [by apply plain_whole|]. constructor; [|constructor]. constructor.
  assert (Forall timed (trimMessages ms)) as Ht by (unfold trimMessages; destruct (_ <=? _)%nat; [done|by apply Forall_drop]).
  apply Forall_map. eapply Forall_impl; [exact Ht|]. apply plain_message.
Qed.

(** Reading a text that was written, and is not over the bound. *)
Lemma read_written ms st : Forall timed ms -> (length (conversation_text ms) <= MAX_STORED_MESSAGES_BYTES)%nat ->
  s_messages st = Some (conversation_text ms) -> readStoredMessagesValue st = (st, Ret (conversation ms)).
Proof.
  intros Hms Hl Hst. unfold readStoredMessagesValue. rewrite Hst.
  pose proof (plain_conversation ms Hms) as Hp. pose proof (parse_stringify _ Hp) as Hparse.
  fold (conversation_text ms) in Hparse. destruct (text_opens _ Hp) as (c & s & E & _).
  change (text_of (conversation ms)) with (conversation_text ms) in E. rewrite E in *.
  by rewrite (proj2 (Nat.ltb_ge _ _) Hl), Hparse.
Qed.

Lemma conversation_stored ms : conversation_text (map stored ms) = conversation_text ms.
Proof.
  unfold conversation_text, conversation. f_equal. f_equal. f_equal. unfold trimMessages. rewrite length_map.
  destruct (_ <=? _)%nat; [by rewrite map_map|]. by rewrite skipn_map, map_map.
Qed.

Lemma put_same text st : s_messages st = Some text -> putItem MESSAGES (Some text) st = st.
Proof. destruct st as [c e m]. cbn. by intros ->. Qed.

(** A conversation within the bounds is read as it was written, but for its plugin events. *)
Lemma load_written ms st now : fits ms -> s_messages st = Some (conversation_text ms) ->
  loadMessages accepts t now st = (st, Some (map stored ms)).
Proof.
  intros [Hms Hc Hsz Htx] Hst. unfold loadMessages.
  rewrite (read_written ms st) by (done || (eapply Forall_impl; [exact Hms|]; by intros m [])).
  assert (Forall (fun m => versions m <> []) ms) as Hv by (eapply Forall_impl; [exact Hms|]; by intros m []).
  change (jtruthy (conversation ms)) with true.
  change (unwrapStoredValue (conversation ms)) with (JArr (map message_json (trimMessages ms))).
  rewrite (trim_small ms) by done. cbn [negb]. rewrite (messages_read message_json message_json_read) by done. cbv zeta.
  assert (Forall storable (map stored ms)) as Hst' by (apply Forall_map; eapply Forall_impl; [exact Hms|]; apply stored_storable).
  assert (map (fun m => (normalizeStoredMessageForLoad now m).1) (map stored ms) = map stored ms) as ->.
  { clear - Hst'. induction Hst' as [|m l Hm _ IH]; [done|]. cbn [map]. by rewrite (normalize_storable now m Hm), IH. }
  assert (total_size (map stored ms) = total_size ms) as Hsize by (unfold total_size; by rewrite map_map).
  rewrite trim_small by (by rewrite length_map). rewrite size_trim_small by (by rewrite Hsize).
  rewrite sanitize_none by (eapply Forall_impl; [exact Hst'|]; by intros m []). f_equal.
  rewrite save_writes by (apply Forall_map; exact Hv). rewrite conversation_stored.
  destruct (accepts MESSAGES _); [|done]. by apply put_same.
Qed.

(** The text under the key of the messages after a save. *)
Definition saved_text (ms : list Message) (old : option jstring) : option jstring :=
  match messagesSchema (JArr (map message_value (trimMessages ms))) with
  | Some parsed =>
      let text := JSON_stringify (envelope (JArr (map message_json parsed))) in
      if accepts MESSAGES text then Some text else old
  | None => old
  end.

Lemma save_text ms st : s_messages (saveMessages accepts ms st) = saved_text ms (s_messages st).
Proof.
  unfold saveMessages, saved_text, writeStoredValue. destruct (messagesSchema _); [|done]. cbv zeta. by destruct (accepts _ _).
Qed.

Lemma saved_twice ms old : saved_text ms (saved_text ms old) = saved_text ms old.
Proof. unfold saved_text. destruct (messagesSchema _); [|done]. cbv zeta. by destruct (accepts _ _). Qed.

Lemma load_reads now st st' : s_messages st = s_messages st' ->
  (loadMessages accepts t now st).2 = (loadMessages accepts t now st').2 /\
  s_messages (loadMessages accepts t now st).1 = s_messages (loadMessages accepts t now st').1.
Proof.
  intros E. unfold loadMessages, readStoredMessagesValue. rewrite <- E.
  destruct (s_messages st) as [[|c s]|] eqn:Es; cbv iota beta; try (cbn; by rewrite ?Es).
  destruct (MAX_STORED_MESSAGES_BYTES <? length (c :: s))%nat; cbv iota beta; [done|].
  destruct (JSON_parse _) as [v|]; cbv iota beta; [|cbn; by rewrite Es].
  destruct (jtruthy v); cbn [negb]; cbv iota beta; [|cbn; by rewrite Es].
  destruct (messagesSchema _); cbv iota beta zeta; [|cbn; by rewrite Es]. cbn [fst snd]. by rewrite !save_text, Es, <- E.
Qed.

(** What cannot be read cannot be read later either. *)
Lemma load_none now st : (loadMessages accepts t now st).2 = None ->
  forall now', (loadMessages accepts t now' (loadMessages accepts t now st).1).2 = None.
Proof.
  intros E now'. unfold loadMessages in E |- * at 2. destruct (readStoredMessagesValue st) as [st1 saved] eqn:Er.
  assert (readStoredMessagesValue st1 = (st1, saved) \/ s_messages st1 = None) as Hagain.
  { revert Er. unfold readStoredMessagesValue. destruct (s_messages st) as [[|c s]|] eqn:Es.
    - intros [= <- <-]. left. by rewrite Es.
    - destruct (MAX_STORED_MESSAGES_BYTES <? length (c :: s))%nat eqn:El; intros [= <- <-]; [by right|left]. by rewrite Es, El.
    - intros [= <- <-]. left. by rewrite Es. }
  assert ((loadMessages accepts t now' st1).2 = None) as Hnone.
  { unfold loadMessages. destruct Hagain as [-> | Hm].
    - destruct saved as [v|]; [|done]. destruct (jtruthy v); [|done]. cbn [negb] in *. by destruct (messagesSchema _).
    - unfold readStoredMessagesValue. by rewrite Hm. }
  destruct saved as [v|]; [|done]. destruct (jtruthy v); [|done]. cbn [negb] in *. by destruct (messagesSchema _).
Qed.

(** What is read is written back. *)
Lemma load_some now st ms : (loadMessages accepts t now st).2 = Some ms ->
  exists old, s_messages (loadMessages accepts t now st).1 = saved_text ms old.
Proof.
  unfold loadMessages. destruct (readStoredMessagesValue st) as [st1 [v|]]; [|done]. destruct (jtruthy v); [|done]. cbn [negb].
  destruct (messagesSchema _); [|done]. intros [= <-]. cbn [fst]. exists (s_messages st1). apply save_text.
Qed.

(** The storage holds what was saved last, or nothing that can be read. *)
Definition kept (o : option jstring) (ms : list Message) : Prop :=
  (exists old, o = saved_text ms old) \/
  ms = [] /\ forall now st, s_messages st = o -> (loadMessages accepts t now st).2 = None.

Lemma kept_save ms st : kept (s_messages (saveMessages accepts ms st)) ms.
Proof. left. exists (s_messages st). apply save_text. Qed.

Lemma kept_load now st : kept (s_messages (loadMessages accepts t now st).1) (coalesce (loadMessages accepts t now st).2 []).
Proof.
  destruct (loadMessages accepts t now st).2 as [ms|] eqn:E.
  - left. by apply load_some.
  - right. split; [done|]. intros now' st' Es. rewrite (proj1 (load_reads now' _ _ Es)). by apply load_none.
Qed.

(** The page: what is shown is what the timer will save, and without a timer the storage has it. *)
Record page_ok (p : Page) : Prop := {
  ok_shown : hasLoadedMessages p = true -> messages p = latestMessages p /\ loading_timer p = false;
  ok_unloaded : hasLoadedMessages p = false -> messagesSaveTimer p = false;
  ok_kept : hasLoadedMessages p = true -> messagesSaveTimer p = false -> kept (s_messages (storage p)) (latestMessages p);
  ok_unmounted : mounted p = false -> messagesSaveTimer p = false
}.

Lemma settings_messages k data st : k <> MESSAGES -> s_messages (writeStoredValue accepts k data st) = s_messages st.
Proof. intros Hk. unfold writeStoredValue. destruct (accepts k _); [|done]. by destruct k. Qed.

Lemma config_messages c st : s_messages (saveConfig accepts c st) = s_messages st.
Proof. unfold saveConfig. destruct (playgroundConfigSchema _); [|done]. by apply settings_messages. Qed.

Lemma enabled_messages e st : s_messages (saveParameterEnabled accepts e st) = s_messages st.
Proof. unfold saveParameterEnabled. destruct (parameterEnabledSchema _); [|done]. by apply settings_messages. Qed.

Lemma settings_ok c e st p : s_messages st = s_messages (storage p) -> page_ok p -> page_ok (with_settings c e (with_storage st p)).
Proof. intros E [H1 H2 H3 H4]. constructor; cbn; [done|done| |done]. by rewrite E. Qed.

Lemma page_update_ok u p : mounted p = true -> page_ok p -> page_ok (updateMessages u p).
Proof.
  intros Hm [H1 H2 H3 H4]. constructor; cbn; [|by intros E; rewrite E; auto|by intros ->|by rewrite Hm].
  intros Hl. split; [done|]. by apply H1.
Qed.

Lemma page_step_ok p e : (e = CloseTab -> mounted p = true -> messagesSaveTimer p = false) ->
  page_ok p -> page_ok (page_step accepts t p e).
Proof.
  intros Hclose Hp. destruct e as [now|u| | |c|k b| | |]; cbn [page_step].
  - destruct (loading_timer p) eqn:El; [|done]. destruct Hp as [H1 H2 H3 H4]. unfold load_timer.
    pose proof (kept_load now (storage p)) as Hk. destruct (loadMessages accepts t now (storage p)) as [st o]. cbn [fst snd] in Hk.
    destruct (mounted p) eqn:Em; constructor; cbn; intros; auto; try done; exfalso;
      match goal with Hl : hasLoadedMessages p = true |- _ => destruct (H1 Hl) as [_ ?] end; congruence.
  - destruct (mounted p) eqn:Em; [|done]. by apply page_update_ok.
  - destruct (mounted p) eqn:Em; [|done]. by apply page_update_ok.
  - destruct (messagesSaveTimer p) eqn:Et; [|done]. destruct Hp as [H1 H2 H3 H4]. constructor; cbn; try done.
    intros _ _. apply kept_save.
  - destruct (mounted p) eqn:Em; [|done]. apply settings_ok; [|done]. apply config_messages.
  - destruct (mounted p) eqn:Em; [|done]. apply settings_ok; [|done]. apply enabled_messages.
  - destruct (mounted p) eqn:Em; [|done]. apply settings_ok; [|done]. by rewrite enabled_messages, config_messages.
  - destruct (mounted p) eqn:Em; [|done]. destruct Hp as [H1 H2 H3 H4]. constructor; cbn; try done.
    intros Hl _. destruct (messagesSaveTimer p); [apply kept_save|by apply H3].
  - destruct (mounted p) eqn:Em; [|done]. destruct Hp as [H1 H2 H3 H4]. specialize (Hclose eq_refl eq_refl).
    constructor; cbn; try done; intros Hl; [split; [by apply H1|done]|]. intros _. by apply H3.
Qed.

Lemma page_run_ok es p : closed_after_saving accepts t p es -> page_ok p -> page_ok (page_run accepts t p es).
Proof.
  revert p. induction es as [|e es IH]; intros p Hc Hp; [done|]. destruct Hc as [He Hes].
  apply IH; [exact Hes|]. by apply page_step_ok.
Qed.

Lemma usePlaygroundState_ok st : page_ok (usePlaygroundState st).
Proof. by constructor. Qed.
End RoundTrip.

(** ** Bounds *)

Lemma length_join (sep : jstring) l : (length (join sep l) <= list_sum (map length l) + length sep * length l)%nat.
Proof.
  induction l as [|x l IH]; [cbn; lia|]. destruct l as [|y l]; [cbn; lia|].
  change (join sep (x :: y :: l)) with (x ++ sep ++ join sep (y :: l)). rewrite !length_app.
  change (list_sum (map length (x :: y :: l))) with (length x + list_sum (map length (y :: l)))%nat.
  change (length (x :: y :: l)) with (S (length (y :: l))). lia.
Qed.

Lemma sections_size segs t :
  (length (visible_text segs t) + (list_sum (map length (sections segs t)) + 2 * length (sections segs t)) <=
   length (think_text segs t))%nat.
Proof.
  induction segs as [|[v r] segs IH].
  - unfold visible_text, sections, list_sum. destruct t as [v|v r]; cbn [think_text map concat app length fold_right];
      rewrite ?length_app; change (length open_tag) with 7%nat; lia.
  - change (visible_text ((v, r) :: segs) t) with ((v ++ concat (map fst segs)) ++ match t with AllClosed v => v | LeftOpen v _ => v end).
    change (sections ((v, r) :: segs) t) with (r :: sections segs t). change (map length (r :: ?l)) with (length r :: map length l).
    change (list_sum (?n :: ?l)) with (n + list_sum l)%nat. change (length (r :: ?l)) with (S (length l)).
    cbn [think_text]. unfold visible_text in IH. rewrite !length_app in *.
    change (length open_tag) with 7%nat. change (length close_tag) with 8%nat. lia.
Qed.

(** The tags are dropped: what is parsed is no longer than the text. *)
Lemma parse_size c : (length (visibleContent (parseThinkTags c)) + length (p_reasoning (parseThinkTags c)) <= length c)%nat.
Proof.
  destruct (think_decompose c) as (segs & t & Hs & ->). rewrite (parse_text segs t Hs).
  destruct (includes (think_text segs t) open_tag); cbn [visibleContent p_reasoning]; [|cbn; lia].
  pose proof (sections_size segs t). pose proof (trim_length (visible_text segs t)).
  pose proof (trim_length (join [10; 10]%N (sections segs t))). pose proof (length_join [10; 10]%N (sections segs t)) as Hj.
  cbn [length] in Hj. lia.
Qed.

(** Texts within the bound of a loaded message. *)
Definition small (m : Message) : Prop :=
  Forall (fun v => (length (content v) <= MAX_LOADED_MESSAGE_CHARS)%nat) (versions m) /\
  (forall r, reasoning m = Some r -> (length (r_content r) <= MAX_LOADED_MESSAGE_CHARS)%nat).

Definition reasoning_size (m : Message) : nat := match reasoning m with Some r => length (r_content r) | None => 0%nat end.

Lemma message_size m : getMessageSize m = (list_sum (map (fun v => length (content v)) (versions m)) + reasoning_size m)%nat.
Proof.
  unfold getMessageSize. f_equal. assert (forall l n, foldl (fun total v => total + length (content v))%nat n l =
    (n + list_sum (map (fun v => length (content v)) l))%nat) as ->; [|done].
  induction l as [|v l IH]; intros n; [unfold list_sum; cbn; lia|]. cbn [foldl map]. rewrite IH.
  change (list_sum (?x :: ?y)) with (x + list_sum y)%nat. lia.
Qed.

Lemma content_within m : (length (getMessageContent m) + reasoning_size m <= getMessageSize m)%nat.
Proof.
  rewrite message_size. unfold getMessageContent, getCurrentVersion. destruct (versions m) as [|v l]; [cbn; lia|].
  cbn [head hd_error coalesce from_option id map]. change (list_sum (?x :: ?y)) with (x + list_sum y)%nat. cbn. lia.
Qed.

Lemma content_small m : small m -> (length (getMessageContent m) <= MAX_LOADED_MESSAGE_CHARS)%nat.
Proof.
  intros [Hv _]. unfold getMessageContent, getCurrentVersion. destruct Hv as [|v l Hv _]; [cbn; lia|]. exact Hv.
Qed.

Lemma truncate_le s n : (length (truncateText s n) <= n)%nat.
Proof.
  unfold truncateText. destruct (Nat.leb_spec (length s) n); [done|].
  destruct (Nat.leb_spec n (length TRUNCATED_CONTENT_SUFFIX)); rewrite ?length_app, length_take; lia.
Qed.

Lemma finalize_versions m api now :
  versions (finalizeMessage m api now) = [MkVersion (v_id (getCurrentVersion m)) (getMessageContent (finalizeMessage m api now))].
Proof.
  unfold finalizeMessage, getMessageContent, getCurrentVersion.
  match goal with |- context [completeReasoningTiming ?x now] => destruct (content_reasoning_timing x now) as (-> & _) end. done.
Qed.

(** Finishing a message moves text, and adds none. *)
Lemma finalize_size m now : let m' := finalizeMessage m None now in
  (length (getMessageContent m') <= length (getMessageContent m))%nat /\
  (reasoning_size m' <= Nat.max (reasoning_size m) (length (getMessageContent m)))%nat /\
  (length (getMessageContent m') + reasoning_size m' <= length (getMessageContent m) + reasoning_size m)%nat.
Proof.
  intros m'. destruct (finalize_fields m None now) as (Hc & Hr & _). fold m' in Hc, Hr. rewrite Hc.
  pose proof (parse_size (getMessageContent m)) as Hp.
  assert (reasoning_size m' = length (jor [] (jor (match reasoning m with Some r => r_content r | None => [] end)
    (if includes (getMessageContent m) open_tag then p_reasoning (parseThinkTags (getMessageContent m)) else [])))) as ->.
  { unfold reasoning_size. cbv zeta in Hr. cbn [coalesce from_option] in Hr.
    destruct (jor [] _) as [|c s] eqn:E; destruct (reasoning m'); cbn in Hr; try done; by injection Hr as ->. }
  unfold reasoning_size, jor. cbn [truthy negb]. destruct (reasoning m) as [[[|c s] d st co du]|]; cbn [r_content truthy];
    destruct (includes (getMessageContent m) open_tag); cbn [length]; lia.
Qed.

Lemma finalize_small m now : small m -> small (finalizeMessage m None now).
Proof.
  intros Hm. pose proof (content_small m Hm) as Hc. destruct (finalize_size m now) as (H1 & H2 & _). split.
  - rewrite finalize_versions. apply Forall_singleton. cbn [content]. lia.
  - intros r Er. unfold reasoning_size in H2. rewrite Er in H2. destruct Hm as [_ Hr]. destruct (reasoning m) as [r0|]; [specialize (Hr r0 eq_refl)|]; lia.
Qed.

Lemma small_timing m now : small m -> small (completeAssistantTiming m now).
Proof. destruct (content_assistant_timing m now) as (E1 & _ & E2 & _). unfold small. by rewrite E1, E2. Qed.

Lemma normalize_small now m : small (normalizeStoredMessageForLoad now m).1.
Proof.
  unfold normalizeStoredMessageForLoad. cbv zeta. set (vs := map _ (versions m)). set (r := _ <$> reasoning m).
  set (changed := existsb snd vs || _). set (normalized := if changed then _ else m).
  assert (small normalized) as Hn.
  { assert (Forall (fun v => (length (content v.1) <= MAX_LOADED_MESSAGE_CHARS)%nat) vs) as Hvs.
    { apply Forall_map, Forall_true. intros v. destruct (jeqb _ _ && _) eqn:E; cbn [fst]; [|apply truncate_le].
      apply andb_true_iff in E as [<-%jeqb_eq _]. apply truncate_le. }
    assert (forall r', r = Some r' -> (length (r_content r') <= MAX_LOADED_MESSAGE_CHARS)%nat) as Hr.
    { unfold r. destruct (reasoning m); [|done]. intros r' [= <-]. apply truncate_le. }
    unfold normalized. destruct changed eqn:Ech; [split; [by apply Forall_map|done]|].
    unfold changed in Ech. apply orb_false_iff in Ech as [Ev Er%negb_false_iff%bool_decide_eq_true]. split.
    - clear - Hvs Ev. unfold vs in *. induction (versions m) as [|v l IH]; [done|]. cbn [map existsb] in *.
      apply orb_false_iff in Ev as [Ev1 Ev2]. apply Forall_cons in Hvs as [Hv Hvs]. constructor; [|by apply IH].
      by destruct (jeqb _ _ && _).
    - intros r' E. rewrite E in Er. destruct r as [r''|]; [|done]. injection Er as <-. by apply Hr. }
  clearbody normalized. destruct (isAssistantMessagePending normalized); cbn [negb fst]; [|done].
  destruct (negb (hasMessageContent normalized) && _); cbn [fst]; [done|]. apply small_timing, (finalize_small _ now Hn).
Qed.

Lemma total_size_cons m ms : total_size (m :: ms) = (getMessageSize m + total_size ms)%nat.
Proof. done. Qed.

Lemma trim_loop_bound P l : forall total result, total = total_size result ->
  (total_size result <= MAX_LOADED_MESSAGES_CHARS)%nat \/ (length result <= 1)%nat -> Forall P result -> Forall P l ->
  let kept_messages := trim_loop total result l in
  ((total_size kept_messages <= MAX_LOADED_MESSAGES_CHARS)%nat \/ (length kept_messages <= 1)%nat) /\
  Forall P kept_messages /\ (length kept_messages <= length l + length result)%nat.
Proof.
  induction l as [|m l IH]; intros total result -> Hb Hr Hl; [done|]. apply Forall_cons in Hl as [Hm Hl].
  cbn [trim_loop]. cbv zeta. destruct (negb _ && _) eqn:E; [cbn [length]; split_and!; [done|done|lia]|].
  destruct (IH (total_size result + getMessageSize m)%nat (m :: result)) as (H1 & H2 & H3).
  - rewrite total_size_cons. lia.
  - rewrite total_size_cons. destruct result as [|m' result]; [right; cbn; lia|]. rewrite bool_decide_eq_false_2 in E by done. cbn [negb andb] in E. apply Nat.ltb_ge in E. left. lia.
  - by constructor.
  - done.
  - split_and!; [done|done|]. cbn [length] in *. lia.
Qed.

Lemma trim_length_bound ms : (length (trimMessages ms) <= MAX_STORED_MESSAGES)%nat.
Proof. unfold trimMessages. destruct (Nat.leb_spec (length ms) MAX_STORED_MESSAGES); [done|]. rewrite length_drop. lia. Qed.

Lemma trim_Forall (P : Message -> Prop) ms : Forall P ms -> Forall P (trimMessages ms).
Proof. unfold trimMessages. destruct (_ <=? _)%nat; [done|]. apply Forall_drop. Qed.

Lemma size_trim_bound P ms : Forall P ms -> let kept_messages := trimMessagesByContentSize ms in
  ((total_size kept_messages <= MAX_LOADED_MESSAGES_CHARS)%nat \/ (length kept_messages <= 1)%nat) /\
  Forall P kept_messages /\ (length kept_messages <= length ms)%nat.
Proof.
  intros Hms. unfold trimMessagesByContentSize. destruct (trim_loop_bound P (rev ms) 0 []) as (H1 & H2 & H3).
  - done.
  - right; cbn; lia.
  - constructor.
  - by apply Forall_rev.
  - rewrite length_rev in H3. split_and!; [done|done|]. cbn in H3. lia.
Qed.

(** The text of an answer that was cut off before it began. *)
Definition interrupted (t : jstring -> jstring) : jstring := t API_REQUEST_ERROR ++ js ": " ++ t INTERRUPTED.

(** Within the bound, or that text. *)
Definition loaded_message (t : jstring -> jstring) (m : Message) : Prop :=
  Forall (fun v => (length (content v) <= MAX_LOADED_MESSAGE_CHARS)%nat \/ content v = interrupted t) (versions m) /\
  (forall r, reasoning m = Some r -> (length (r_content r) <= MAX_LOADED_MESSAGE_CHARS)%nat).

Lemma small_loaded t m : small m -> loaded_message t m.
Proof. intros [Hv Hr]. split; [|done]. eapply Forall_impl; [exact Hv|]. by left. Qed.

Lemma sanitize_message_bound t m now : small m ->
  loaded_message t (sanitizeMessage t m now) /\
  (getMessageSize (sanitizeMessage t m now) <= getMessageSize m + length (interrupted t))%nat.
Proof.
  intros Hm. pose proof (finalize_small m now Hm) as Hf. destruct (finalize_size m now) as (H1 & H2 & H3).
  pose proof (content_within m) as Hw. unfold sanitizeMessage. cbv zeta. fold (interrupted t). set (f := finalizeMessage m None now) in *.
  destruct (_ || _).
  - split; [by apply small_loaded, small_timing|].
    destruct (content_assistant_timing (withReasoningStreaming false (withStatus COMPLETE f)) now) as (E1 & _ & E2 & _).
    rewrite message_size, E1. unfold reasoning_size in *. rewrite E2. cbn [versions withReasoningStreaming withStatus reasoning].
    unfold f at 1. rewrite finalize_versions. fold f. unfold list_sum. cbn [map fold_right content]. lia.
  - match goal with |- context [completeAssistantTiming ?x now] => set (base := x);
      destruct (content_assistant_timing base now) as (E1 & _ & E2 & _) end. split.
    + split; [rewrite E1|rewrite E2; apply Hf]. apply Forall_singleton. by right.
    + rewrite message_size, E1. unfold reasoning_size in *. rewrite E2. unfold base, list_sum.
      cbn [versions withReasoningStreaming withStatus updateCurrentVersionContent withVersions reasoning map fold_right content]. lia.
Qed.

Lemma total_size_app l k : total_size (l ++ k) = (total_size l + total_size k)%nat.
Proof. unfold total_size. by rewrite map_app, list_sum_app. Qed.

(** Loading sanitizes one message. *)
Lemma sanitize_bound t ms now : Forall small ms ->
  Forall (loaded_message t) (sanitizeMessagesOnLoad t ms now) /\ length (sanitizeMessagesOnLoad t ms now) = length ms /\
  (total_size (sanitizeMessagesOnLoad t ms now) <= total_size ms + length (interrupted t))%nat.
Proof.
  intros Hms. unfold sanitizeMessagesOnLoad.
  assert (Forall (loaded_message t) ms) as Hl by (eapply Forall_impl; [exact Hms|]; apply small_loaded).
  destruct (find_last_index _ ms) as [i|]; [|split_and!; [done|done|lia]].
  destruct (ms !! i) as [m|] eqn:E; [|split_and!; [done|done|lia]].
  destruct (sanitize_message_bound t m now) as [Hm Hsz]; [by eapply Forall_lookup_1|].
  split_and!; [by apply Forall_insert|by rewrite length_insert|].
  rewrite <- (take_drop_middle ms i m E) at 2. rewrite insert_take_drop by (by eapply lookup_lt_Some).
  rewrite !total_size_app, !total_size_cons. lia.
Qed.

(** ** Properties *)

(** C18. A conversation survives the page: whatever the visitor did, once the page is gone - left for another page of
    the app, or its tab closed or reloaded when no change of the last half second waits to be saved
    ([closed_after_saving]) - the next visit shows the conversation as it was last, but for the plugin events, provided
    no answer is under way and the conversation is within the stored bounds: at most a hundred messages, 120000
    characters and a text of 1 MiB, no version or reasoning over 40000 characters, and no text of 2000 characters or
    more in which one numbered heading stands three times, which is taken for a repeated snapshot and loses its start
    ([fits], [unrepeated]).  The conditions are needed: closing_loses_conversation, repeated_headings_lose_start and
    oversized_conversation_lost. *)
Theorem conversation_survives `{Zod} (accepts : storage_key -> jstring -> bool) (t : jstring -> jstring) st es now :
  let p := page_run accepts t (usePlaygroundState st) es in
  (forall text, (length text <= MAX_STORED_MESSAGES_BYTES)%nat -> accepts MESSAGES text = true) ->
  closed_after_saving accepts t (usePlaygroundState st) es ->
  hasLoadedMessages p = true -> mounted p = false -> fits (messages p) ->
  messages (page_step accepts t (usePlaygroundState (storage p)) (LoadTimer now)) = map stored (messages p).
Proof.
  intros p Ha Hc Hl Hm Hfits. destruct (page_run_ok accepts t es _ Hc (usePlaygroundState_ok accepts t st)) as [H1 _ H3 H4].
  fold p in H1, H3, H4. specialize (H3 Hl (H4 Hm)). destruct (H1 Hl) as [Es _]. rewrite <- Es in H3. clearbody p.
  cbn [page_step loading_timer usePlaygroundState]. unfold load_timer. cbn [storage usePlaygroundState mounted].
  destruct H3 as [[old E] | [En E]].
  - pose proof (save_text accepts (messages p)) as Ht. pose proof (fits_text _ Hfits) as Htx.
    change old with (s_messages {| s_config := None; s_enabled := None; s_messages := old |}) in E. rewrite <- Ht in E.
    rewrite save_writes, (Ha _ Htx) in E by (eapply Forall_impl; [apply Hfits|]; by intros m []). cbn in E.
    by rewrite (load_written accepts t _ _ now Hfits E).
  - specialize (E now (storage p) eq_refl). destruct (loadMessages accepts t now (storage p)) as [st' o]. cbn in E. subst o.
    cbn. by rewrite En.
Qed.

(** What is loaded is bounded, whatever the storage holds: at most a hundred messages, no text of
    a message over the bound but for the notice of an interrupted answer, and all of them together
    within the total bound and that notice, unless one message alone is left. *)
Theorem loaded_conversation_bounded `{Zod} (accepts : storage_key -> jstring -> bool) (t : jstring -> jstring) now st ms :
  (loadMessages accepts t now st).2 = Some ms ->
  (length ms <= MAX_STORED_MESSAGES)%nat /\ Forall (loaded_message t) ms /\
  ((total_size ms <= MAX_LOADED_MESSAGES_CHARS + length (interrupted t))%nat \/ (length ms <= 1)%nat).
Proof.
  unfold loadMessages. destruct (readStoredMessagesValue st) as [st1 [v|]]; [|done]. destruct (jtruthy v); [|done]. cbn [negb].
  destruct (messagesSchema _) as [parsed|]; [|done]. intros [= <-].
  set (normalized := map _ parsed). assert (Forall small normalized) as Hn.
  { apply Forall_map, Forall_true. intros m. apply normalize_small. }
  destruct (size_trim_bound small (trimMessages normalized) (trim_Forall _ _ Hn)) as (H1 & H2 & H3).
  destruct (sanitize_bound t _ now H2) as (H4 & H5 & H6). pose proof (trim_length_bound normalized).
  rewrite H5. split; [lia|]. split; [exact H4|]. lia.
Qed.

(** C40. A conversation is saved without regard to the bound of the text, and a text over it is
    removed by the next visit: the whole conversation is lost. *)
Theorem oversized_conversation_lost `{Zod} (accepts : storage_key -> jstring -> bool) (t : jstring -> jstring) now ms st :
  Forall (fun m => versions m <> []) ms -> accepts MESSAGES (conversation_text ms) = true ->
  (MAX_STORED_MESSAGES_BYTES < length (conversation_text ms))%nat ->
  let saved := saveMessages accepts ms st in
  s_messages saved = Some (conversation_text ms) /\ loadMessages accepts t now saved = (putItem MESSAGES None saved, None).
Proof.
  intros Hv Ha Hl saved. assert (s_messages saved = Some (conversation_text ms)) as E by (unfold saved; by rewrite save_writes, Ha).
  split; [done|]. unfold loadMessages, readStoredMessagesValue. rewrite E. destruct (conversation_text ms) as [|c s] eqn:Et; [cbn in Hl; lia|].
  by rewrite (proj2 (Nat.ltb_lt _ _) Hl).
Qed.

(** ** Witnesses *)

#[local] Existing Instance documented_zod.

Definition sample_answer : Message :=
  MkMessage (js "k2") ASSISTANT [MkVersion (js "v2") (js "# Hi")] None (Some 1700000000000) (Some 1700000001000) (Some 1000) None
    (Some (MkReasoning (js "hm") 1 (Some 1700000000000) (Some 1700000000500) (Some 500))) (Some false) (Some true) None
    (Some [MkPluginEvent (js "e") (Interim (js "searching"))]) (Some COMPLETE) None.
Definition sample_conversation : list Message :=
  [createUserMessage (js "k1") (js "v1") (js "Hello") 1700000000000; sample_answer].
Definition empty_storage : Storage := {| s_config := None; s_enabled := None; s_messages := None |}.

(** Two messages, and the visitor leaves before the timer has saved them. *)
Definition sample_visit : list page_event := [LoadTimer 0; UpdateMessages (Given sample_conversation); UpdateConfig (SetModel (js "m")); Unmount].

Lemma sample_fits : fits sample_conversation.
Proof.
  constructor; [|apply Nat.leb_le; by vm_compute..].
  constructor; [|constructor; [|constructor]]; constructor; try done.
  1, 3: unfold timed; cbn; repeat (apply Forall_cons_2; [lia|]); apply Forall_nil_2.
  1, 2: apply Forall_cons_2; [split|apply Forall_nil_2].
  1, 3: left; apply Nat.ltb_lt; by vm_compute.
  1, 2: apply Nat.leb_le; by vm_compute.
  intros r [= <-]. apply Nat.leb_le. by vm_compute.
Qed.

Lemma conversation_survives_witness :
  let p := page_run (fun _ _ => true) id (usePlaygroundState empty_storage) sample_visit in
  fits (messages p) /\
  messages (page_step (fun _ _ => true) id (usePlaygroundState (storage p)) (LoadTimer 5)) = map stored sample_conversation.
Proof.
  split; [exact sample_fits|]. apply (conversation_survives (fun _ _ => true) id empty_storage sample_visit 5).
  - done.
  - cbn. by repeat split.
  - by vm_compute.
  - by vm_compute.
  - exact sample_fits.
Defined.

(** Closing the tab within the half second: the change before it is lost, here the whole conversation. *)
Example closing_loses_conversation :
  let p := page_run (fun _ _ => true) id (usePlaygroundState empty_storage)
             [LoadTimer 0; UpdateMessages (Given sample_conversation); CloseTab] in
  messages p = sample_conversation /\
  messages (page_step (fun _ _ => true) id (usePlaygroundState (storage p)) (LoadTimer 5)) = [].
Proof. by vm_compute. Qed.

(** An answer whose parts are numbered alike, and the text that is left of it. *)
Definition repeated_answer : jstring :=
  js "Three plans." ++ concat (replicate 3 ([10]%N ++ js "## 1. Steps" ++ [10]%N ++ concat (replicate 100 (js "do this ")))).

Example repeated_headings_lose_start : (length repeated_answer <= MAX_LOADED_MESSAGE_CHARS)%nat /\
  collapseRepeatedSectionSnapshots repeated_answer = js "## 1. Steps" ++ [10]%N ++ concat (replicate 100 (js "do this ")).
Proof. split; [apply Nat.leb_le|]; by vm_compute. Qed.

Lemma loaded_conversation_bounded_witness :
  let st := saveMessages (fun _ _ => true) sample_conversation empty_storage in
  (length (map stored sample_conversation) <= MAX_STORED_MESSAGES)%nat /\ Forall (loaded_message id) (map stored sample_conversation) /\
  ((total_size (map stored sample_conversation) <= MAX_LOADED_MESSAGES_CHARS + length (interrupted id))%nat \/
   (length (map stored sample_conversation) <= 1)%nat).
Proof.
  intros st. apply (loaded_conversation_bounded (fun _ _ => true) id 5 st). by vm_compute.
Defined.

(** An answer that is a long text. *)
Definition long_conversation (s : jstring) : list Message :=
  [MkMessage (js "k") ASSISTANT [MkVersion (js "v") s] None None None None None None None None None None (Some COMPLETE) None].

Lemma length_in_join sep l x : x ∈ l -> (length x <= length (join sep l))%nat.
Proof.
  intros Hx. induction l as [|y l IH]; [by apply elem_of_nil in Hx|]. apply elem_of_cons in Hx as [-> | Hx].
  - destruct l; [done|]. cbn [join]. rewrite length_app. lia.
  - specialize (IH Hx). destruct l as [|z l]; [by apply elem_of_nil in Hx|].
    change (join sep (y :: z :: l)) with (y ++ sep ++ join sep (z :: l)). rewrite !length_app. lia.
Qed.

(** The text of a value holds the texts of its parts. *)
Lemma element_within v l : Forall plain_json l -> v ∈ l -> (length (text_of v) <= length (text_of (JArr l)))%nat.
Proof.
  intros Hl Hv. rewrite text_arr by done. rewrite !length_app.
  pose proof (length_in_join (js ",") (map text_of l) (text_of v) (list_elem_of_fmap_2 text_of l v Hv)). lia.
Qed.

Lemma member_within f fs : Forall (fun f => plain_json f.2) fs -> f ∈ fs -> (length (text_of f.2) <= length (text_of (JObj fs)))%nat.
Proof.
  intros Hfs Hf. rewrite text_obj by done. rewrite !length_app. pose proof (member_length f).
  pose proof (length_in_join (js ",") (map member_text fs) (member_text f) (list_elem_of_fmap_2 member_text fs f Hf)). lia.
Qed.

Lemma plain_members fs : plain_json (JObj fs) -> Forall (fun f => plain_json f.2) fs.
Proof. by inversion 1. Qed.

Lemma quote_units_length s : (length s <= length (quote_units s))%nat.
Proof.
  assert (forall c, 1 <= length (quote_unit c))%nat as Hq.
  { intros c. destruct (quote_unit c) eqn:E; [|cbn; lia]. unfold quote_unit in E.
    repeat match type of E with context [if ?b then _ else _] => destruct b; try discriminate E end. }
  remember (length s) as n eqn:Hn. revert s Hn. induction (lt_wf n) as [n _ IH]. intros [|c [|d s]] ->.
  - cbn. lia.
  - apply Hq.
  - change (quote_units (c :: d :: s)) with
      (if is_high c && is_low d then c :: d :: quote_units s else quote_unit c ++ quote_units (d :: s)).
    destruct (is_high c && is_low d).
    + cbn [length]. specialize (IH (length s) ltac:(cbn; lia) s eq_refl). lia.
    + rewrite length_app. specialize (IH (length (d :: s)) ltac:(cbn; lia) (d :: s) eq_refl). specialize (Hq c). cbn [length] in *. lia.
Qed.

Lemma long_text s : (length s <= length (conversation_text (long_conversation s)))%nat.
Proof.
  assert (Forall timed (long_conversation s)) as Ht by (constructor; [apply Forall_nil_2|constructor]).
  pose proof (plain_members _ (plain_conversation _ Ht)) as Hc. set (m := List.hd sample_answer (long_conversation s)).
  pose proof (plain_message m ltac:(apply Forall_nil_2)) as Hm. pose proof (plain_version (MkVersion (js "v") s)) as Hv.
  etrans; [|apply (member_within (js "data", JArr [message_json m]) _ Hc); set_solver].
  etrans; [|apply (element_within (message_json m)); [by constructor|set_solver]].
  etrans; [|apply (member_within (js "versions", JArr [version_json (MkVersion (js "v") s)]) _ (plain_members _ Hm)); set_solver].
  etrans; [|apply (element_within (version_json (MkVersion (js "v") s))); [by constructor|set_solver]].
  etrans; [|apply (member_within (js "content", JStr s) _ (plain_members _ Hv)); set_solver].
  change (length s <= length (json_quote s))%nat. unfold json_quote. cbn [length]. rewrite length_app.
  pose proof (quote_units_length s). lia.
Qed.

Lemma oversized_conversation_lost_witness :
  let ms := long_conversation (replicate (S MAX_STORED_MESSAGES_BYTES) 97%N) in
  let saved := saveMessages (fun _ _ => true) ms empty_storage in
  loadMessages (fun _ _ => true) id 5 saved = (putItem MESSAGES None saved, None).
Proof.
  intros ms saved. apply (oversized_conversation_lost (fun _ _ => true) id 5 ms empty_storage).
  - by repeat constructor.
  - done.
  - pose proof (long_text (replicate (S MAX_STORED_MESSAGES_BYTES) 97%N)) as Hl. rewrite length_replicate in Hl. exact Hl.
Defined.
