(* ===== verification/StreamController.v ===== *)
(** * The stream of an answer (web/src/features/playground/hooks/use-stream-request.ts,
      lib/streaming/stream-utils.ts)

    A controller keeps at most one event source open: a new request or a stop
    supersedes the one before, whose events must not reach the callbacks any more.
    [generation] numbers the requests; each source remembers its own.  The
    controller is a transition system over what happens to it: calls, headers
    that arrive, and events of the sources. *)

From S2P Require Import Prelude JsValue Playground.

(** ** stream-utils.ts

    [parse] is [JSON.parse] ([None] when it throws), [stringify] [JSON.stringify]. *)

Record StreamErrorDetails := MkDetails { d_errorCode : option jstring; d_errorMessage : jstring }.

Inductive StreamUpdateType := u_reasoning | u_content | u_plugin_event.
Record StreamMessageUpdate := MkUpdate { u_type : StreamUpdateType; u_chunk : jsval }.

Definition parsePluginEventPayload (payload : jsval) : option PluginEventPayload :=
  if negb (isRecord payload) then None
  else
    let ty := jget payload (js "type") in
    if isString ty && jeqb (asString ty) (js "interim") then
      match jget payload (js "text") with JStr s => Some (Interim s) | _ => None end
    else if isString ty && jeqb (asString ty) (js "tool_call") then
      match jget payload (js "plugin"), jget payload (js "tool") with
      | JStr p, JStr t =>
          Some (ToolCall p t
            (match jget payload (js "args") with JStr a => Some a | _ => None end)
            (match jget payload (js "durationMs") with JNum n => Some n | _ => None end))
      | _, _ => None
      end
    else None.

Section Utils.
Context (parse : jstring -> option jsval) (stringify : jsval -> jstring).

(** An error code or message that is not a string is passed on as it is; the
    model keeps strings. *)
Definition parseStreamErrorDetails (data : option jstring) : StreamErrorDetails :=
  let fallbackMessage := ojor data API_REQUEST_ERROR in
  if negb (truthy (coalesce data [])) then MkDetails None fallbackMessage
  else match parse (coalesce data []) with
       | None => MkDetails None fallbackMessage
       | Some parsed =>
           let e := jget parsed (js "error") in
           if negb (jtruthy e) then MkDetails None fallbackMessage
           else MkDetails
                  (match jget e (js "code") with JStr c => if truthy c then Some c else None | _ => None end)
                  (match jget e (js "message") with JStr m => jor m fallbackMessage | _ => fallbackMessage end)
       end.

(** [None]: [JSON.parse] throws, or the value parsed is null. *)
Definition parseStreamMessageUpdates (data : jstring) : option (list StreamMessageUpdate) :=
  match parse data with
  | None | Some JNull => None
  | Some chunk =>
      let delta := match jget chunk (js "choices") with
                   | JArr (c :: _) => jget c (js "delta")
                   | _ => JUndefined
                   end in
      let given (ty : StreamUpdateType) (v : jsval) (chunk : jsval) :=
        if jtruthy v then [MkUpdate ty chunk] else [] in
      if negb (jtruthy delta) then Some []
      else
        let r := jget delta (js "reasoning_content") in
        let c := jget delta (js "content") in
        let p := jget delta (js "plugin_event") in
        Some (given u_reasoning r r ++ given u_content c c ++ given u_plugin_event p (JStr (stringify p)))
  end.
End Utils.

Definition isStreamDoneMessage (data : jstring) : bool := jeqb data (js "[DONE]").

Definition isStreamClosedReadyState (readyState : option Z) : bool := bool_decide (readyState = Some 2).

Definition getStreamReadyStateError (eventReadyState status : option Z) : option jstring :=
  match eventReadyState, status with
  | Some r, Some st =>
      if (2 <=? r) && negb (st =? 200)
      then Some (js "HTTP " ++ dec_of_Z st ++ js ": " ++ CONNECTION_CLOSED) else None
  | _, _ => None
  end.

(** ** The controller *)

(** What a request tells its caller, with the generation of the request. *)
Inductive Callback :=
| OnUpdate (generation : nat) (u : StreamMessageUpdate)
| OnComplete (generation : nat)
| OnError (generation : nat) (message : jstring) (code : option jstring).

(** A source: the generation it was created for, and [completed]. *)
Record Source := MkSource { s_generation : nat; s_completed : bool }.

(** [awaiting] holds the requests whose headers are still to come, [closed] the
    sources [close] was called on; a source is its index in [created]. *)
Record Controller := MkController {
  source : option nat;
  generation : nat;
  streaming : bool;
  created : list Source;
  closed : list nat;
  awaiting : list nat;
  called : list Callback
}.

Definition initialController : Controller := MkController None 0 false [] [] [] [].

Definition setStreaming (b : bool) (c : Controller) : Controller :=
  MkController (source c) (generation c) b (created c) (closed c) (awaiting c) (called c).
Definition call (k : Callback) (c : Controller) : Controller :=
  MkController (source c) (generation c) (streaming c) (created c) (closed c) (awaiting c) (called c ++ [k]).
Definition setSource (s : option nat) (c : Controller) : Controller :=
  MkController s (generation c) (streaming c) (created c) (closed c) (awaiting c) (called c).
Definition close (target : nat) (c : Controller) : Controller :=
  MkController (source c) (generation c) (streaming c) (created c) (target :: closed c) (awaiting c) (called c).
Definition nextGeneration (c : Controller) : Controller :=
  MkController (source c) (S (generation c)) (streaming c) (created c) (closed c) (awaiting c) (called c).
Definition setAwaiting (a : list nat) (c : Controller) : Controller :=
  MkController (source c) (generation c) (streaming c) (created c) (closed c) a (called c).
Definition setCompleted (target : nat) (c : Controller) : Controller :=
  MkController (source c) (generation c) (streaming c)
    (alter (fun s => MkSource (s_generation s) true) target (created c)) (closed c) (awaiting c) (called c).

Definition closeActiveSource (target : nat) (c : Controller) : Controller :=
  let c := close target c in
  if bool_decide (source c = Some target) then setStreaming false (setSource None c) else c.

(** [source = null; previous?.close()] *)
Definition dropSource (c : Controller) : Controller :=
  let previous := source c in
  let c := setSource None c in
  match previous with Some p => close p c | None => c end.

(** [send] up to its [await]. *)
Definition send_begin (c : Controller) : Controller :=
  let c := nextGeneration c in
  setAwaiting (generation c :: awaiting c) (setStreaming false (dropSource c)).

(** The handlers of source [target]: its request, [isCurrent() && !completed]. *)
Definition live (target : nat) (c : Controller) : option nat :=
  match created c !! target with
  | Some s =>
      if bool_decide (generation c = s_generation s) && bool_decide (source c = Some target) && negb (s_completed s)
      then Some (s_generation s) else None
  | None => None
  end.

Definition handleError (target : nat) (message : jstring) (code : option jstring) (c : Controller) : Controller :=
  match live target c with
  | None => c
  | Some g => closeActiveSource target (call (OnError g message code) (setCompleted target c))
  end.

(** [send] after its [await]: the headers, or the message of the error; [starts] is
    whether [stream()] returns. *)
Definition send_headers (request : nat) (headers : jstring + unit) (starts : bool) (c : Controller) : Controller :=
  let c := setAwaiting (List.filter (fun g => negb (g =? request)%nat) (awaiting c)) c in
  if negb (generation c =? request)%nat then c
  else match headers with
       | inl message => call (OnError request message None) c
       | inr _ =>
           let nextSource := length (created c) in
           let c := MkController (Some nextSource) (generation c) true (created c ++ [MkSource request false])
                      (closed c) (awaiting c) (called c) in
           if starts then c else handleError nextSource STREAM_START_ERROR None c
       end.

Section Handlers.
Context (parse : jstring -> option jsval) (stringify : jsval -> jstring).

Definition onMessage (target : nat) (data : option jstring) (c : Controller) : Controller :=
  match live target c with
  | None => c
  | Some g =>
      let data := coalesce data [] in
      if isStreamDoneMessage data
      then call (OnComplete g) (closeActiveSource target (setCompleted target c))
      else match parseStreamMessageUpdates parse stringify data with
           | Some updates => foldl (fun c u => call (OnUpdate g u) c) c updates
           | None => handleError target PARSE_ERROR None c
           end
  end.

Definition onErrorEvent (target : nat) (readyState : option Z) (data : option jstring) (c : Controller)
    : Controller :=
  match live target c with
  | None => c
  | Some _ =>
      if negb (isStreamClosedReadyState readyState)
      then let d := parseStreamErrorDetails parse data in
           handleError target (d_errorMessage d) (d_errorCode d) c
      else c
  end.

Definition onReadyStateChange (target : nat) (eventReadyState status : option Z) (c : Controller) : Controller :=
  match live target c with
  | None => c
  | Some _ =>
      match getStreamReadyStateError eventReadyState status with
      | Some m => if truthy m then handleError target m None c else c
      | None => c
      end
  end.

Definition cancel (notify : bool) (c : Controller) : Controller :=
  let c := dropSource (nextGeneration c) in
  if notify then setStreaming false c else c.

Definition stop : Controller -> Controller := cancel true.
Definition dispose : Controller -> Controller := cancel false.

(** What can happen: calls, and the events of sources that were created. *)
Inductive Event :=
| Send
| Headers (request : nat) (headers : jstring + unit) (starts : bool)
| Message_ (target : nat) (data : option jstring)
| Error_ (target : nat) (readyState : option Z) (data : option jstring)
| ReadyState (target : nat) (eventReadyState status : option Z)
| Stop.

Inductive step : Controller -> Event -> Controller -> Prop :=
| do_send c : step c Send (send_begin c)
| do_headers c g h b : g ∈ awaiting c -> step c (Headers g h b) (send_headers g h b c)
| do_message c t d : step c (Message_ t d) (onMessage t d c)
| do_error c t r d : step c (Error_ t r d) (onErrorEvent t r d c)
| do_ready c t r s : step c (ReadyState t r s) (onReadyStateChange t r s c)
| do_stop c : step c Stop (stop c).

Inductive reachable : Controller -> Prop :=
| at_start : reachable initialController
| at_step c e c' : reachable c -> step c e c' -> reachable c'.
End Handlers.

(** ** Lemmas *)

Definition generation_of (k : Callback) : nat :=
  match k with OnUpdate g _ | OnComplete g | OnError g _ _ => g end.
Definition is_terminal (k : Callback) : bool := match k with OnUpdate _ _ => false | _ => true end.

(** A request has been told its end. *)
Definition ended (g : nat) (l : list Callback) : Prop :=
  exists k, In k l /\ is_terminal k = true /\ generation_of k = g.

(** In order: nothing comes after the end of a request. *)
Inductive orderly : list Callback -> Prop :=
| orderly_nil : orderly []
| orderly_snoc l k : orderly l -> ~ ended (generation_of k) l -> orderly (l ++ [k]).

(** The invariant. *)
Record controller_ok (c : Controller) : Prop := MkOk {
  ok_calls : orderly (called c);
  ok_past : forall k, In k (called c) -> (generation_of k <= generation c)%nat;
  ok_awaiting : NoDup (awaiting c) /\ forall g, g ∈ awaiting c -> (g <= generation c)%nat /\ ~ ended g (called c);
  ok_source : forall t, source c = Some t ->
    exists s, created c !! t = Some s /\ s_generation s = generation c /\ s_completed s = false /\
      ~ ended (generation c) (called c) /\ generation c ∉ awaiting c;
  ok_streaming : streaming c = bool_decide (source c <> None);
  ok_closed : forall t, (t < length (created c))%nat -> source c = Some t \/ t ∈ closed c
}.

Lemma ended_snoc g l k : ended g (l ++ [k]) <-> ended g l \/ is_terminal k = true /\ generation_of k = g.
Proof.
  unfold ended. setoid_rewrite in_app_iff. cbn [In]. split.
  - intros (k' & [? | [<- | []]] & ? & ?); [left; by exists k'|by right].
  - intros [(k' & ? & ? & ?) | [? ?]]; [exists k'; auto|exists k; auto].
Qed.

Lemma live_Some t c g : live t c = Some g -> source c = Some t /\ g = generation c.
Proof.
  unfold live. destruct (created c !! t) as [s|]; [|done].
  destruct (bool_decide (generation c = s_generation s)) eqn:E1; [|done].
  destruct (bool_decide (source c = Some t)) eqn:E2; [|done]. destruct (negb (s_completed s)); [|done].
  apply bool_decide_eq_true_1 in E1, E2. intros [= <-]. by rewrite E1.
Qed.

(** The state when the current request ends with the callback [k]. *)
Definition finish (t : nat) (k : Callback) (c : Controller) : Controller :=
  MkController None (generation c) false (alter (fun s => MkSource (s_generation s) true) t (created c))
    (t :: closed c) (awaiting c) (called c ++ [k]).

Lemma handleError_live t m code c : controller_ok c ->
  handleError t m code c = c \/
  source c = Some t /\ handleError t m code c = finish t (OnError (generation c) m code) c.
Proof.
  intros H. unfold handleError. destruct (live t c) as [g|] eqn:E; [|by left]. right.
  destruct (live_Some _ _ _ E) as [Hs ->]. split; [done|].
  unfold closeActiveSource. cbn. rewrite Hs. by rewrite bool_decide_eq_true_2.
Qed.

Lemma finish_ok t k c : controller_ok c -> source c = Some t -> generation_of k = generation c ->
  controller_ok (finish t k c).
Proof.
  intros [H1 H2 [H3 H4] H5 H6 H7] Hs Hk. destruct (H5 _ Hs) as (s & Hc & Hg & Hd & He & Ha).
  split; cbn.
  - constructor; [done|by rewrite Hk].
  - intros k' [Hin | [<- | []]]%in_app_or; [auto|by rewrite Hk].
  - split; [done|]. intros g Hg'. destruct (H4 g Hg') as [Hle Hne]. split; [done|].
    rewrite ended_snoc, Hk. intros [? | [_ <-]]; done.
  - done.
  - done.
  - intros t' Ht. rewrite length_alter in Ht. right. destruct (H7 t' Ht) as [E|]; [|by right].
    rewrite Hs in E. injection E as <-. by left.
Qed.

Lemma handleError_ok t m code c : controller_ok c -> controller_ok (handleError t m code c).
Proof. intros H. destruct (handleError_live t m code c H) as [-> | [Hs ->]]; [done|]. by apply finish_ok. Qed.

Lemma update_ok t u c : controller_ok c -> source c = Some t -> controller_ok (call (OnUpdate (generation c) u) c).
Proof.
  intros [H1 H2 [H3 H4] H5 H6 H7] Hs. destruct (H5 _ Hs) as (s & Hc & Hg & Hd & He & Ha). split; cbn; try done.
  - by constructor.
  - intros k' [Hin | [<- | []]]%in_app_or; [auto|done].
  - split; [done|]. intros g Hg'. destruct (H4 g Hg') as [? ?]. rewrite ended_snoc. split; [done|]. by intros [? | [[=] _]].
  - intros t' Ht'. destruct (H5 _ Ht') as (s' & ? & ? & ? & ? & ?). exists s'. rewrite ended_snoc.
    split; [done|]. split; [done|]. split; [done|]. split; [|done]. by intros [? | [[=] _]].
Qed.

Lemma updates_ok t us c : controller_ok c -> source c = Some t ->
  controller_ok (foldl (fun c u => call (OnUpdate (generation c) u) c) c us).
Proof.
  revert c. induction us as [|u us IH]; intros c H Hs; [done|]. cbn [foldl]. apply IH; [by eapply update_ok|done].
Qed.

Lemma updates_generation us c g : generation c = g ->
  foldl (fun c u => call (OnUpdate g u) c) c us = foldl (fun c u => call (OnUpdate (generation c) u) c) c us.
Proof. revert c. induction us as [|u us IH]; intros c H; [done|]. cbn [foldl]. rewrite H. by apply IH. Qed.

(** Superseding: a new generation, the source closed. *)
Lemma supersede_ok c : controller_ok c -> controller_ok (setStreaming false (dropSource (nextGeneration c))).
Proof.
  intros [H1 H2 [H3 H4] H5 H6 H7]. unfold dropSource. cbn [source nextGeneration setSource].
  assert (forall k, In k (called c) -> (generation_of k <= S (generation c))%nat) as H2' by (intros k Hk; specialize (H2 k Hk); lia).
  assert (forall g, g ∈ awaiting c -> (g <= S (generation c))%nat /\ ~ ended g (called c)) as H4'
    by (intros g Hg; destruct (H4 g Hg); split; [lia|done]).
  destruct (source c) as [p|]; split; cbn; try done.
  - intros t Ht. right. destruct (H7 t Ht) as [[= <-] | ?]; [by left|by right].
Qed.

Lemma send_begin_ok c : controller_ok c -> controller_ok (send_begin c).
Proof.
  intros H. pose proof (supersede_ok c H) as H'. unfold send_begin.
  assert (generation (setStreaming false (dropSource (nextGeneration c))) = S (generation c)) as Eg
    by (unfold dropSource; cbn; by destruct (source c)).
  assert (awaiting (setStreaming false (dropSource (nextGeneration c))) = awaiting c) as Ea
    by (unfold dropSource; cbn; by destruct (source c)).
  assert (called (setStreaming false (dropSource (nextGeneration c))) = called c) as Ec
    by (unfold dropSource; cbn; by destruct (source c)).
  assert (source (setStreaming false (dropSource (nextGeneration c))) = None) as Es
    by (unfold dropSource; cbn; by destruct (source c)).
  destruct H as [_ P2 [P3 P4] _ _ _]. destruct H' as [H1 H2 [H3 H4] H5 H6 H7].
  split; cbn [setAwaiting called generation awaiting source created streaming closed nextGeneration] in *;
    rewrite ?Eg, ?Ea, ?Ec, ?Es in *; try done.
  split.
  - constructor; [|done]. intros Hin. destruct (P4 _ Hin). lia.
  - intros g [-> | Hg]%elem_of_cons; [|auto]. split; [done|]. intros (k & Hk & _ & E). specialize (P2 k Hk). lia.
Qed.

Lemma elem_of_filter_neq g r (l : list nat) : g ∈ List.filter (fun x => negb (x =? r)%nat) l <-> g ∈ l /\ g <> r.
Proof. rewrite !list_elem_of_In, filter_In, negb_true_iff, Nat.eqb_neq. done. Qed.

Lemma awaited_ok r c : controller_ok c ->
  controller_ok (setAwaiting (List.filter (fun g => negb (g =? r)%nat) (awaiting c)) c).
Proof.
  intros [H1 H2 [H3 H4] H5 H6 H7]. split; cbn; try done.
  - split.
    + apply NoDup_ListNoDup, List.NoDup_filter, NoDup_ListNoDup, H3.
    + intros g [Hg _]%elem_of_filter_neq. auto.
  - intros t Ht. destruct (H5 t Ht) as (s & ? & ? & ? & ? & Ha). exists s. split; [done|]. split; [done|]. split; [done|].
    split; [done|]. intros [? _]%elem_of_filter_neq. done.
Qed.

Lemma send_headers_ok r h b c : controller_ok c -> r ∈ awaiting c -> controller_ok (send_headers r h b c).
Proof.
  intros Hok Hr. destruct (ok_awaiting c Hok) as [_ Ha]. destruct (Ha r Hr) as [Hle Hne].
  pose proof (awaited_ok r c Hok) as H. unfold send_headers. cbv zeta.
  set (c0 := setAwaiting _ c) in *. destruct (Nat.eqb_spec (generation c0) r) as [E|]; cbn [negb]; [|done].
  assert (source c0 = None) as Hs.
  { destruct (source c0) as [t|] eqn:Es; [|done]. destruct (ok_source c Hok t Es) as (_ & _ & _ & _ & _ & Hn).
    exfalso. apply Hn. by rewrite <- E in Hr. }
  assert (r ∉ awaiting c0) as Hr0 by (intros [_ ?]%elem_of_filter_neq; done).
  destruct H as [H1 H2 [H3 H4] H5 H6 H7]. destruct h as [m|[]].
  - split; cbn [call called generation awaiting source created streaming closed]; try done.
    + by constructor.
    + intros k [?|[<- | []]]%in_app_or; [auto|]. cbn. lia.
    + split; [done|]. intros g Hg. destruct (H4 g Hg). split; [done|]. rewrite ended_snoc. intros [? | [_ <-]]; done.
    + by rewrite Hs.
  - set (c1 := MkController _ _ _ _ _ _ _).
    assert (controller_ok c1) as Hc1.
    { split; cbn; try done.
      - intros t [= <-]. exists (MkSource r false). rewrite lookup_app_r, Nat.sub_diag by done.
        change (generation c) with (generation c0). rewrite E. done.
      - intros t Ht. rewrite length_app in Ht. cbn in Ht. destruct (decide (t = length (created c0))) as [-> | Hn]; [by left|].
        right. destruct (H7 t) as [Hx|]; [unfold c0 in *; cbn in *; lia| |done]. by rewrite Hs in Hx. }
    destruct b; [done|]. by apply handleError_ok.
Qed.

Lemma step_ok parse stringify c e c' : step parse stringify c e c' -> controller_ok c -> controller_ok c'.
Proof.
  destruct 1 as [c|c g h b Hg|c t d|c t r d|c t r s|c]; intros H.
  - by apply send_begin_ok.
  - by apply send_headers_ok.
  - unfold onMessage. destruct (live t c) as [g|] eqn:E; [|done]. destruct (live_Some _ _ _ E) as [Hs ->].
    destruct (isStreamDoneMessage _).
    + assert (call (OnComplete (generation c)) (closeActiveSource t (setCompleted t c)) = finish t (OnComplete (generation c)) c) as ->.
      { unfold closeActiveSource. cbn. rewrite Hs. by rewrite bool_decide_eq_true_2. }
      by apply finish_ok.
    + destruct (parseStreamMessageUpdates _ _ _); [|by apply handleError_ok].
      rewrite updates_generation by done. by eapply updates_ok.
  - unfold onErrorEvent. destruct (live t c); [|done]. case_match; [by apply handleError_ok|done].
  - unfold onReadyStateChange. destruct (live t c); [|done]. destruct (getStreamReadyStateError r s); [|done].
    case_match; [by apply handleError_ok|done].
  - by apply supersede_ok.
Qed.

Lemma reachable_ok parse stringify c : reachable parse stringify c -> controller_ok c.
Proof.
  induction 1 as [|c e c' _ IH Hstep]; [|by eapply step_ok].
  split; cbn; try done; [apply orderly_nil| |intros; lia]. split; [constructor|by intros g ?%not_elem_of_nil].
Qed.

(** What one step tells the callers is of the request that is current. *)
Lemma handleError_calls t m code c : controller_ok c ->
  exists l, called (handleError t m code c) = called c ++ l /\ Forall (fun k => generation_of k = generation c) l.
Proof.
  intros H. destruct (handleError_live t m code c H) as [-> | [_ ->]];
    [exists []; by rewrite app_nil_r|]. eexists. split; [reflexivity|]. by repeat constructor.
Qed.

Lemma updates_calls us c g :
  exists l, called (foldl (fun c u => call (OnUpdate g u) c) c us) = called c ++ l /\
    Forall (fun k => generation_of k = g) l.
Proof.
  revert c. induction us as [|u us IH]; intros c; [exists []; by rewrite app_nil_r|]. cbn [foldl].
  destruct (IH (call (OnUpdate g u) c)) as (l & -> & Hl). exists (OnUpdate g u :: l). cbn. rewrite <- app_assoc.
  split; [done|]. by constructor.
Qed.

Lemma step_calls parse stringify c e c' : controller_ok c -> step parse stringify c e c' ->
  exists l, called c' = called c ++ l /\ Forall (fun k => generation_of k = generation c) l.
Proof.
  intros H. destruct 1 as [c|c g h b Hg|c t d|c t r d|c t r s|c].
  - exists []. rewrite app_nil_r. split; [|done]. unfold send_begin, dropSource. cbn. by destruct (source c).
  - unfold send_headers. cbv zeta. pose proof (awaited_ok g c H) as H0. set (c0 := setAwaiting _ c) in *.
    destruct (Nat.eqb_spec (generation c0) g) as [E|]; cbn [negb]; [|exists []; by rewrite app_nil_r].
    destruct h as [m|[]]; [exists [OnError g m None]; split; [done|]; by repeat constructor|].
    destruct b; [exists []; by rewrite app_nil_r|].
    set (c1 := MkController _ _ _ _ _ _ _). unfold handleError.
    destruct (live (length (created c0)) c1) as [g'|] eqn:El; [|exists []; by rewrite app_nil_r].
    destruct (live_Some _ _ _ El) as [_ ->]. unfold closeActiveSource. cbn. rewrite bool_decide_eq_true_2 by done.
    eexists. split; [reflexivity|]. by repeat constructor.
  - unfold onMessage. destruct (live t c) as [g|] eqn:E; [|exists []; by rewrite app_nil_r].
    destruct (live_Some _ _ _ E) as [Hs ->]. destruct (isStreamDoneMessage _).
    + exists [OnComplete (generation c)]. unfold closeActiveSource. cbn. rewrite Hs, bool_decide_eq_true_2 by done.
      split; [done|]. by repeat constructor.
    + destruct (parseStreamMessageUpdates _ _ _); [apply updates_calls|by apply handleError_calls].
  - unfold onErrorEvent. destruct (live t c); [|exists []; by rewrite app_nil_r].
    case_match; [by apply handleError_calls|exists []; by rewrite app_nil_r].
  - unfold onReadyStateChange. destruct (live t c); [|exists []; by rewrite app_nil_r].
    destruct (getStreamReadyStateError r s); [|exists []; by rewrite app_nil_r].
    case_match; [by apply handleError_calls|exists []; by rewrite app_nil_r].
  - exists []. rewrite app_nil_r. split; [|done]. unfold stop, cancel, dropSource. cbn. by destruct (source c).
Qed.

(** ** Properties *)

(** C10. Only the current request is heard: what any step tells the callers is of the
    generation that is current, so a superseded or stopped request stays silent. *)
Theorem superseded_is_silent parse stringify c e c' :
  reachable parse stringify c -> step parse stringify c e c' ->
  exists l, called c' = called c ++ l /\ Forall (fun k => generation_of k = generation c) l.
Proof. intros H. apply step_calls, (reachable_ok _ _ _ H). Qed.

(** C11. A request ends once: in every reachable state the callbacks are in order, nothing
    follows the completion or the error of its request. *)
Theorem callbacks_orderly parse stringify c : reachable parse stringify c -> orderly (called c).
Proof. intros H. apply (reachable_ok _ _ _ H). Qed.

(** At most one source is open: every source that was created is closed, but the one
    the streaming flag stands for. *)
Theorem no_source_leaks parse stringify c :
  reachable parse stringify c ->
  (forall t, (t < length (created c))%nat -> source c = Some t \/ t ∈ closed c) /\
  (streaming c = true <-> exists t, source c = Some t /\ (t < length (created c))%nat).
Proof.
  intros H%reachable_ok. split; [apply H|]. rewrite (ok_streaming c H). split.
  - intros Hs%bool_decide_eq_true_1. destruct (source c) as [t|] eqn:E; [|done]. exists t. split; [done|].
    destruct (ok_source c H t E) as (s & Hc & _). by eapply lookup_lt_Some.
  - intros (t & E & _). rewrite E. by apply bool_decide_eq_true_2.
Qed.

(** ** Witnesses

    A request that streams, superseded by a second one. *)

Definition oneUpdate (data : jstring) : option jsval :=
  Some (JObj [(js "choices", JArr [JObj [(js "delta", JObj [(js "content", JStr data)])]])]).
Definition noText (v : jsval) : jstring := [].

Definition streamingState : Controller := send_headers 1 (inr tt) true (send_begin initialController).
Definition supersededState : Controller := send_begin (onMessage oneUpdate noText 0 (Some (js "Hi")) streamingState).

Lemma superseded_reachable : reachable oneUpdate noText supersededState.
Proof.
  apply (at_step _ _ (onMessage oneUpdate noText 0 (Some (js "Hi")) streamingState) Send); [|constructor].
  apply (at_step _ _ streamingState (Message_ 0 (Some (js "Hi")))); [|constructor].
  apply (at_step _ _ (send_begin initialController) (Headers 1 (inr tt) true)); [|constructor; cbn; by left].
  apply (at_step _ _ initialController Send); constructor.
Qed.

Lemma superseded_is_silent_witness :
  called (onMessage oneUpdate noText 0 (Some (js "late")) supersededState) = called supersededState /\
  exists l, called (onMessage oneUpdate noText 0 (Some (js "late")) supersededState) = called supersededState ++ l /\
    Forall (fun k => generation_of k = 2%nat) l.
Proof.
  split; [vm_compute; reflexivity|].
  exact (superseded_is_silent oneUpdate noText supersededState (Message_ 0 (Some (js "late"))) _ superseded_reachable
           (do_message _ _ _ _ _)).
Defined.

Lemma callbacks_orderly_witness : orderly [OnUpdate 1 (MkUpdate u_content (JStr (js "Hi")))].
Proof. exact (callbacks_orderly oneUpdate noText supersededState superseded_reachable). Defined.

Lemma no_source_leaks_witness : 0%nat ∈ closed supersededState.
Proof.
  destruct (proj1 (no_source_leaks oneUpdate noText supersededState superseded_reachable) 0%nat) as [H|H];
    [vm_compute; lia|vm_compute in H; discriminate H|exact H].
Defined.
