(* ===== verification/Idempotency.v ===== *)
(** * Retry keys of organization operations
      (web/src/features/organization/lib/organization-idempotency.ts)

    The server deduplicates on the key a request carries.  A key is remembered per
    intent (operation, target and payload) in memory and in the session storage:
    a retry sends the same key, a new intent and a repeat after success a new one,
    and identical calls in flight share one request. *)

From S2P Require Import Prelude JsValue.

Definition STORAGE_PREFIX : jstring := js "cuberouter:organization-idempotency:".

Record IdempotencyRecord := MkRecord { fingerprint : jstring; key : jstring }.

#[export] Instance IdempotencyRecord_eq_dec : EqDecision IdempotencyRecord.
Proof. solve_decision. Defined.

Inductive OrganizationIdempotentOperation :=
| disable_member | remove_member | exit_member | rotate_invite | dissolve
| batch_create_token | batch_delete_token | transfer_owner | quota_adjustment.

Definition operation_string (o : OrganizationIdempotentOperation) : jstring :=
  match o with
  | disable_member => js "disable-member"
  | remove_member => js "remove-member"
  | exit_member => js "exit-member"
  | rotate_invite => js "rotate-invite"
  | dissolve => js "dissolve"
  | batch_create_token => js "batch-create-token"
  | batch_delete_token => js "batch-delete-token"
  | transfer_owner => js "transfer-owner"
  | quota_adjustment => js "quota-adjustment"
  end.

(** [string | number] *)
Inductive TargetId := TargetNumber (n : Z) | TargetString (s : jstring).
Definition String_ (t : TargetId) : jstring :=
  match t with TargetNumber n => dec_of_Z n | TargetString s => s end.

(** ** The fingerprint *)

Definition byKey (a b : jstring * jsval) : Z := unitCompare a.1 b.1.

Definition isUndefined (v : jsval) : bool := match v with JUndefined => true | _ => false end.

(** Sorting the keys and dropping the undefined members, at every level. *)
Fixpoint normalizePayload (value : jsval) : jsval :=
  match value with
  | JArr l => JArr (map normalizePayload l)
  | JObj fields =>
      JObj (js_sort byKey
              ((fix go (l : list (jstring * jsval)) : list (jstring * jsval) :=
                  match l with
                  | [] => []
                  | (k, v) :: l => if isUndefined v then go l else (k, normalizePayload v) :: go l
                  end) fields))
  | _ => value
  end.

(** What the inner loop does. *)
Definition normalizeFields : list (jstring * jsval) -> list (jstring * jsval) :=
  omap (fun kv => if isUndefined kv.2 then None else Some (kv.1, normalizePayload kv.2)).

(** ** Storage *)

(** What a slot of the session storage holds: a record, a value without one, or
    text that is not JSON. *)
Inductive Stored := StoredRecord (r : IdempotencyRecord) | NoRecord | Malformed.

(** What the browser allows: whether there is a session storage, and whether its
    operations return. *)
Record StorageMode := MkMode { present : bool; can_read : bool; can_write : bool; can_remove : bool }.

Record Store := MkStore {
  memoryRecords : gmap jstring IdempotencyRecord;
  sessionStorage : gmap jstring Stored
}.

Section Store.
Context (mode : StorageMode).

Definition removeItem (slot : jstring) (s : Store) : Store :=
  if can_remove mode then MkStore (memoryRecords s) (delete slot (sessionStorage s)) else s.

Definition readRecord (slot : jstring) (s : Store) : Store * option IdempotencyRecord :=
  match memoryRecords s !! slot with
  | Some r => (s, Some r)
  | None =>
      if negb (present mode) then (s, None)
      else if negb (can_read mode) then (removeItem slot s, None)
      else match sessionStorage s !! slot with
           | Some (StoredRecord r) =>
               if truthy (key r) then (MkStore (<[slot := r]> (memoryRecords s)) (sessionStorage s), Some r)
               else (s, None)
           | Some Malformed => (removeItem slot s, None)
           | Some NoRecord | None => (s, None)
           end
  end.

Definition writeRecord (slot : jstring) (r : IdempotencyRecord) (s : Store) : Store :=
  MkStore (<[slot := r]> (memoryRecords s))
    (if present mode && can_write mode then <[slot := StoredRecord r]> (sessionStorage s) else sessionStorage s).
End Store.

(** ** Operations *)

Section Keys.
(** [JSON.stringify] and [encodeURIComponent] *)
Context (stringify : jsval -> jstring) (encodeURIComponent : jstring -> jstring) (mode : StorageMode).

(** [payload ?? {}] *)
Definition fingerprintIdempotencyPayload (payload : jsval) : jstring :=
  stringify (normalizePayload (match payload with JUndefined | JNull => JObj [] | v => v end)).

Definition storageSlot (operation target fp : jstring) : jstring :=
  STORAGE_PREFIX ++ encodeURIComponent operation ++ ch_colon ::
    encodeURIComponent target ++ ch_colon :: encodeURIComponent fp.

(** [suffix] is the random part. *)
Definition generateKey (operation target suffix : jstring) : jstring :=
  operation ++ ch_colon :: target ++ ch_colon :: suffix.

(** An intent: what a caller passes. *)
Record Intent := MkIntent {
  i_operation : OrganizationIdempotentOperation; i_target : TargetId; i_payload : jsval
}.

Definition intent_fingerprint (i : Intent) : jstring := fingerprintIdempotencyPayload (i_payload i).
Definition intent_slot (i : Intent) : jstring :=
  storageSlot (operation_string (i_operation i)) (String_ (i_target i)) (intent_fingerprint i).

Definition getOrCreateOrganizationIdempotencyKey (i : Intent) (suffix : jstring) (s : Store) : Store * jstring :=
  let fp := intent_fingerprint i in
  let slot := intent_slot i in
  let (s, existing) := readRecord mode slot s in
  match existing with
  | Some r =>
      if jeqb (fingerprint r) fp then (s, key r)
      else let k := generateKey (operation_string (i_operation i)) (String_ (i_target i)) suffix in
           (writeRecord mode slot (MkRecord fp k) s, k)
  | None =>
      let k := generateKey (operation_string (i_operation i)) (String_ (i_target i)) suffix in
      (writeRecord mode slot (MkRecord fp k) s, k)
  end.

Definition clearOrganizationIdempotencyKey (i : Intent) (s : Store) : Store :=
  let fp := intent_fingerprint i in
  let slot := intent_slot i in
  let (s, existing) := readRecord mode slot s in
  match existing with
  | Some r =>
      if negb (jeqb (fingerprint r) fp) then s
      else let s := MkStore (delete slot (memoryRecords s)) (sessionStorage s) in
           if present mode then removeItem mode slot s else s
  | None => s
  end.

(** *** withOrganizationIdempotencyKey

    The page: the store, the promises in flight by slot, and the requests sent,
    a slot and a key each. *)
Record Page := MkPage { store : Store; inFlight : gset jstring; sent : list (jstring * jstring) }.

(** The call up to the answer of the request: join, or send. *)
Definition withKey_call (i : Intent) (suffix : jstring) (p : Page) : Page :=
  let slot := intent_slot i in
  if bool_decide (slot ∈ inFlight p) then p
  else let (s, k) := getOrCreateOrganizationIdempotencyKey i suffix (store p) in
       MkPage s ({[slot]} ∪ inFlight p) (sent p ++ [(slot, k)]).

(** The request resolves: the key is cleared, and the promise leaves the map. *)
Definition withKey_success (i : Intent) (p : Page) : Page :=
  MkPage (clearOrganizationIdempotencyKey i (store p)) (inFlight p ∖ {[intent_slot i]}) (sent p).

(** It rejects: the key stays. *)
Definition withKey_failure (i : Intent) (p : Page) : Page :=
  MkPage (store p) (inFlight p ∖ {[intent_slot i]}) (sent p).

(** The page is loaded again: only the session storage survives. *)
Definition reload (p : Page) : Page := MkPage (MkStore ∅ (sessionStorage (store p))) ∅ (sent p).

Inductive PageEvent := Call (i : Intent) (suffix : jstring) | Success (i : Intent) | Failure (i : Intent) | Reload.

Definition page_step (e : PageEvent) (p : Page) : Page :=
  match e with
  | Call i suffix => withKey_call i suffix p
  | Success i => withKey_success i p
  | Failure i => withKey_failure i p
  | Reload => reload p
  end.

Definition page_run (es : list PageEvent) (p : Page) : Page := foldl (fun p e => page_step e p) p es.
End Keys.

Arguments MkPage store inFlight sent : assert.

(** ** Lemmas *)

Lemma normalize_obj fields : normalizePayload (JObj fields) = JObj (js_sort byKey (normalizeFields fields)).
Proof.
  cbn. f_equal. f_equal. unfold normalizeFields. induction fields as [|[k v] fields IH]; [done|].
  cbn. destruct (isUndefined v); cbn; by rewrite IH.
Qed.

#[export] Instance byKey_comparator : Comparator byKey.
Proof. split; unfold byKey; intros; [apply cmp_total|by eapply cmp_trans]. Qed.

(** Two sorted lists with distinct keys and the same fields are the same. *)
Lemma sorted_unique l k :
  NoDup (map fst l) -> StronglySorted (cmp_le byKey) l -> StronglySorted (cmp_le byKey) k -> l ≡ₚ k -> l = k.
Proof.
  intros Hn Hl. revert k. induction Hl as [|x l Hl IH Hx]; intros k Hk E.
  - by apply Permutation_nil in E as ->.
  - destruct Hk as [|y k Hk Hy]; [symmetry in E; by apply Permutation_nil in E|].
    cbn in Hn. apply NoDup_cons in Hn as [Hxn Hn].
    assert (x = y) as <-.
    { assert (x ∈ y :: k) as Hxk by (rewrite <- E; by left). assert (y ∈ x :: l) as Hyl by (rewrite E; by left).
      apply elem_of_cons in Hxk as [|Hxk]; [done|]. apply elem_of_cons in Hyl as [|Hyl]; [done|].
      exfalso. rewrite Forall_forall in Hx, Hy. specialize (Hx _ Hyl). specialize (Hy _ Hxk).
      unfold cmp_le, byKey in *. rewrite (unitCompare_opp x.1 y.1) in Hy.
      assert (x.1 = y.1) as Exy by (apply unitCompare_eq; lia). apply Hxn. rewrite Exy. by apply list_elem_of_fmap_2. }
    f_equal. apply IH; [done|done|]. by apply Permutation_cons_inv in E.
Qed.

Lemma normalizeFields_keys fields k : k ∈ map fst (normalizeFields fields) -> k ∈ map fst fields.
Proof.
  unfold normalizeFields. induction fields as [|[k0 v0] fields IH]; [done|]. cbn.
  destruct (isUndefined v0); cbn; rewrite ?elem_of_cons; [auto|]. intros [|]; auto.
Qed.

Lemma normalizeFields_NoDup fields : NoDup (map fst fields) -> NoDup (map fst (normalizeFields fields)).
Proof.
  unfold normalizeFields. induction fields as [|[k0 v0] fields IH]; [done|]. cbn. intros [Hk Hn]%NoDup_cons.
  destruct (isUndefined v0); cbn; [auto|]. constructor; [|auto]. intros H. by apply Hk, normalizeFields_keys.
Qed.

(** Payloads that mean the same: fields in another order, undefined fields spelled
    out or not, at any depth. *)
Inductive same_payload : jsval -> jsval -> Prop :=
| same_refl v : same_payload v v
| same_trans u v w : same_payload u v -> same_payload v w -> same_payload u w
| same_order l k : NoDup (map fst l) -> l ≡ₚ k -> same_payload (JObj l) (JObj k)
| same_undefined k l : same_payload (JObj ((k, JUndefined) :: l)) (JObj l)
| same_field k v w l : same_payload v w -> isUndefined v = isUndefined w ->
    same_payload (JObj ((k, v) :: l)) (JObj ((k, w) :: l))
| same_item v w l m : same_payload v w -> same_payload (JArr (l ++ v :: m)) (JArr (l ++ w :: m)).

Lemma normalize_same v w : same_payload v w -> normalizePayload v = normalizePayload w.
Proof.
  induction 1 as [v|u v w _ IH1 _ IH2|l k Hn E|k l|k v w l _ IH E|v w l m _ IH]; [done|congruence|..].
  - rewrite !normalize_obj. f_equal. apply sorted_unique.
    + rewrite (Permutation_map fst (js_sort_perm byKey (normalizeFields l))). by apply normalizeFields_NoDup.
    + apply js_sort_sorted, byKey_comparator.
    + apply js_sort_sorted, byKey_comparator.
    + rewrite !js_sort_perm. unfold normalizeFields. by rewrite E.
  - by rewrite !normalize_obj.
  - rewrite !normalize_obj. f_equal. f_equal. unfold normalizeFields. cbn. rewrite E, IH. done.
  - cbn. by rewrite !map_app; cbn; rewrite IH.
Qed.

Lemma generateKey_truthy op t x : truthy (generateKey op t x) = true.
Proof. unfold generateKey. by destruct op. Qed.

(** A browser that lets the page use its session storage. *)
Definition reliable (m : StorageMode) : Prop :=
  present m = true /\ can_read m = true /\ can_write m = true /\ can_remove m = true.

Section StoreFacts.
Context (mode : StorageMode).

(** What is in memory has a key, and is in the storage when that works. *)
Definition store_ok (s : Store) : Prop :=
  forall slot r, memoryRecords s !! slot = Some r ->
    truthy (key r) = true /\ (reliable mode -> sessionStorage s !! slot = Some (StoredRecord r)).

(** The slot will be read with this record, now and after what keeps the store. *)
Definition kept (slot : jstring) (r : IdempotencyRecord) (s : Store) : Prop :=
  truthy (key r) = true /\
  (memoryRecords s !! slot = Some r \/ memoryRecords s !! slot = None /\ reliable mode) /\
  (reliable mode -> sessionStorage s !! slot = Some (StoredRecord r)).

(** The stores agree on a slot. *)
Definition agree (slot : jstring) (s s' : Store) : Prop :=
  memoryRecords s' !! slot = memoryRecords s !! slot /\ sessionStorage s' !! slot = sessionStorage s !! slot.

Lemma agree_kept slot r s s' : agree slot s s' -> kept slot r s -> kept slot r s'.
Proof. unfold kept, agree. intros [-> ->]. done. Qed.

Lemma agree_trans slot s1 s2 s3 : agree slot s1 s2 -> agree slot s2 s3 -> agree slot s1 s3.
Proof. unfold agree. intros [-> ->]. done. Qed.

Lemma remove_agree x slot s : x <> slot -> agree slot s (removeItem mode x s).
Proof. intros H. unfold removeItem, agree. destruct (can_remove mode); cbn; by rewrite ?lookup_delete_ne. Qed.

Lemma read_agree x slot s : x <> slot -> agree slot s (readRecord mode x s).1.
Proof.
  intros H. unfold readRecord. repeat case_match; try done; cbn; try (by apply remove_agree).
  split; cbn; by rewrite ?lookup_insert_ne.
Qed.

Lemma write_agree x slot r s : x <> slot -> agree slot s (writeRecord mode x r s).
Proof. intros H. unfold writeRecord, agree. cbn. by case_match; rewrite ?lookup_insert_ne. Qed.

Lemma read_kept slot r s : kept slot r s ->
  (readRecord mode slot s).2 = Some r /\ kept slot r (readRecord mode slot s).1 /\
  memoryRecords (readRecord mode slot s).1 !! slot = Some r.
Proof.
  intros (Hk & Hm & Hst). unfold readRecord. destruct Hm as [E | [E Hr]]; rewrite E; [by repeat split; auto|].
  destruct Hr as (P1 & P2 & P3 & P4). rewrite P1, P2, Hst by done. cbn. rewrite Hk. cbn.
  rewrite lookup_insert_eq. split; [done|]. split; [|done]. split; [done|]. split; [left; apply lookup_insert_eq|done].
Qed.

Lemma read_ok slot s : store_ok s -> store_ok (readRecord mode slot s).1.
Proof.
  intros H. unfold readRecord. destruct (memoryRecords s !! slot) as [r|] eqn:E; [done|].
  assert (store_ok (removeItem mode slot s)) as Hrm.
  { unfold removeItem. destruct (can_remove mode); [|done]. intros x r Hx. cbn in *.
    destruct (H x r Hx). split; [done|]. intros Hr. rewrite lookup_delete_ne; [auto|]. intros <-. congruence. }
  destruct (negb (present mode)); [done|]. destruct (negb (can_read mode)); [done|].
  destruct (sessionStorage s !! slot) as [[r| |]|] eqn:Es; try done.
  destruct (truthy (key r)) eqn:Ek; [|done]. intros x r'. cbn. intros [[<- <-] | [Hne Hx]]%lookup_insert_Some; auto.
Qed.

Lemma write_ok slot r s : truthy (key r) = true -> store_ok s -> store_ok (writeRecord mode slot r s).
Proof.
  intros Hk H x r'. unfold writeRecord. cbn. intros [[<- <-] | [Hne Hx]]%lookup_insert_Some.
  - split; [done|]. intros (-> & _ & -> & _). apply lookup_insert_eq.
  - destruct (H x r' Hx). split; [done|]. intros Hr. case_match; rewrite ?lookup_insert_ne by done; auto.
Qed.

Lemma write_kept slot r s : truthy (key r) = true -> kept slot r (writeRecord mode slot r s).
Proof.
  intros Hk. split; [done|]. unfold writeRecord. cbn. rewrite lookup_insert_eq. split; [by left|].
  intros (-> & _ & -> & _). apply lookup_insert_eq.
Qed.
End StoreFacts.

Section Retry.
Context (stringify : jsval -> jstring) (enc : jstring -> jstring) (mode : StorageMode).

(** [encodeURIComponent] is injective on well-formed texts and escapes the colon. *)
Context (enc_inj : forall a b, enc a = enc b -> a = b).
Context (enc_colon : forall a, Forall (fun u => u <> ch_colon) (enc a)).

Abbreviation slot_of := (intent_slot stringify enc).
Abbreviation fp_of := (intent_fingerprint stringify).
Abbreviation create := (getOrCreateOrganizationIdempotencyKey stringify enc mode).
Abbreviation clear := (clearOrganizationIdempotencyKey stringify enc mode).
Abbreviation run := (page_run stringify enc mode).

Lemma storageSlot_inj o t f o' t' f' :
  storageSlot enc o t f = storageSlot enc o' t' f' -> o = o' /\ t = t' /\ f = f'.
Proof using enc_inj enc_colon.
  unfold storageSlot. intros H%app_inv_head.
  apply app_sep_inj in H as [Ho H]; [|apply enc_colon..].
  apply app_sep_inj in H as [Ht Hf]; [|apply enc_colon..]. auto.
Qed.

Lemma slot_fp i j : slot_of i = slot_of j -> fp_of i = fp_of j.
Proof using enc_inj enc_colon. by intros (_ & _ & ?)%storageSlot_inj. Qed.

Lemma create_agree i x slot s : slot_of i <> slot -> agree slot s (create i x s).1.
Proof.
  intros H. unfold getOrCreateOrganizationIdempotencyKey. pose proof (read_agree mode (slot_of i) slot s H) as Hr.
  destruct (readRecord mode (slot_of i) s) as [s1 [r|]]; cbn [fst] in Hr; [destruct (jeqb _ _); [done|]|];
    (eapply agree_trans; [exact Hr|by apply write_agree]).
Qed.

Lemma clear_agree i slot s : slot_of i <> slot -> agree slot s (clear i s).
Proof.
  intros H. unfold clearOrganizationIdempotencyKey. pose proof (read_agree mode (slot_of i) slot s H) as Hr.
  destruct (readRecord mode (slot_of i) s) as [s1 [r|]]; cbn in *; [|done]. destruct (negb _); [done|].
  assert (agree slot s (MkStore (delete (slot_of i) (memoryRecords s1)) (sessionStorage s1))) as Ha
    by (eapply agree_trans; [exact Hr|]; split; cbn; by rewrite ?lookup_delete_ne).
  destruct (present mode); [|exact Ha]. eapply agree_trans; [exact Ha|by apply remove_agree].
Qed.

Lemma create_ok i x s : store_ok mode s -> store_ok mode (create i x s).1.
Proof.
  intros H. unfold getOrCreateOrganizationIdempotencyKey. pose proof (read_ok mode (slot_of i) s H) as Hr.
  destruct (readRecord mode (slot_of i) s) as [s1 [r|]]; cbn in *; [destruct (jeqb _ _); [done|]|];
    (apply write_ok; [apply generateKey_truthy|exact Hr]).
Qed.

Lemma clear_ok i s : store_ok mode s -> store_ok mode (clear i s).
Proof.
  intros H. unfold clearOrganizationIdempotencyKey. pose proof (read_ok mode (slot_of i) s H) as Hr.
  destruct (readRecord mode (slot_of i) s) as [s1 [r|]]; cbn in *; [|done]. destruct (negb _); [done|].
  assert (forall st, (forall x, x <> slot_of i -> st !! x = sessionStorage s1 !! x) ->
            store_ok mode (MkStore (delete (slot_of i) (memoryRecords s1)) st)) as Hd.
  { intros st Hst x r'. cbn. intros [Hne Hx]%lookup_delete_Some. destruct (Hr x r' Hx). split; [done|].
    intros Hrel. rewrite Hst by done. auto. }
  destruct (present mode); [|by apply Hd]. unfold removeItem. destruct (can_remove mode); [|by apply Hd].
  cbn. apply Hd. intros x Hne. by rewrite lookup_delete_ne.
Qed.

(** A call that finds its record sends its key; one that does not makes it. *)
Lemma create_kept i x s r : kept mode (slot_of i) r s -> fingerprint r = fp_of i ->
  (create i x s).2 = key r /\ kept mode (slot_of i) r (create i x s).1.
Proof.
  intros H Hf. destruct (read_kept mode _ _ _ H) as (R1 & R2 & _). unfold getOrCreateOrganizationIdempotencyKey.
  destruct (readRecord mode (slot_of i) s) as [s1 o]. cbn in *. rewrite R1, Hf, jeqb_refl. done.
Qed.

Lemma create_keeps i x s : store_ok mode s ->
  kept mode (slot_of i) (MkRecord (fp_of i) (create i x s).2) (create i x s).1.
Proof.
  intros H. unfold getOrCreateOrganizationIdempotencyKey. pose proof (read_ok mode (slot_of i) s H) as Hr.
  assert (forall s', kept mode (slot_of i) (MkRecord (fp_of i) (generateKey (operation_string (i_operation i)) (String_ (i_target i)) x))
            (writeRecord mode (slot_of i) (MkRecord (fp_of i) (generateKey (operation_string (i_operation i)) (String_ (i_target i)) x)) s')) as Hw
    by (intros s'; apply write_kept, generateKey_truthy).
  destruct (readRecord mode (slot_of i) s) as [s1 [r|]] eqn:E; cbn in *; [|apply Hw].
  destruct (jeqb (fingerprint r) (fp_of i)) eqn:Ef; [|apply Hw]. apply jeqb_eq in Ef. cbn.
  assert (memoryRecords s1 !! slot_of i = Some r) as Hm.
  { unfold readRecord in E. destruct (memoryRecords s !! slot_of i) as [r0|] eqn:E0; [congruence|].
    repeat case_match; simplify_eq/=. apply lookup_insert_eq. }
  destruct (Hr _ _ Hm). destruct r as [f k]. cbn in *. subst f. split; [done|]. split; [by left|done].
Qed.

(** An event that is not the success of the slot, nor a reload that forgets it. *)
Definition keeps (slot : jstring) (e : PageEvent) : Prop :=
  match e with
  | Success j => slot_of j <> slot
  | Reload => reliable mode
  | _ => True
  end.

Lemma keeps_run i r es : fingerprint r = fp_of i -> forall p,
  Forall (keeps (slot_of i)) es -> kept mode (slot_of i) r (store p) ->
  kept mode (slot_of i) r (store (run es p)) /\
  exists l, sent (run es p) = sent p ++ l /\ forall k, In (slot_of i, k) l -> k = key r.
Proof using enc_inj enc_colon.
  intros Hf. induction es as [|e es IH]; intros p Hes Hp; [split; [done|]; exists []; by rewrite app_nil_r|].
  apply Forall_cons in Hes as [He Hes].
  assert (kept mode (slot_of i) r (store (page_step stringify enc mode e p)) /\
          exists l, sent (page_step stringify enc mode e p) = sent p ++ l /\ forall k, In (slot_of i, k) l -> k = key r)
    as [Hk (l & El & Hl)].
  { destruct e as [j x|j|j|]; cbn in *.
    - unfold withKey_call. case_bool_decide; [split; [done|]; exists []; by rewrite app_nil_r|].
      destruct (decide (slot_of j = slot_of i)) as [E|Hne].
      + destruct (create_kept j x (store p) r) as [C1 C2]; [by rewrite E|by rewrite Hf, (slot_fp _ _ E)|].
        destruct (create j x (store p)) as [s' k']. cbn in *. subst k'. rewrite E in C2. split; [done|].
        eexists. split; [reflexivity|]. intros k [E' | []]. symmetry. exact (f_equal snd E').
      + pose proof (create_agree j x (slot_of i) (store p) Hne) as Ha.
        destruct (create j x (store p)) as [s' k']. cbn in *. split; [by eapply agree_kept|].
        eexists. split; [reflexivity|]. intros k [E | []]. exfalso. apply Hne. exact (f_equal fst E).
    - split; [eapply agree_kept; [by apply clear_agree|done]|]. exists []. by rewrite app_nil_r.
    - split; [done|]. exists []. by rewrite app_nil_r.
    - destruct Hp as (P1 & P2 & P3). split; [|exists []; by rewrite app_nil_r]. split; [done|]. cbn.
      rewrite lookup_empty. split; [by right|done]. }
  destruct (IH _ Hes Hk) as [Hk' (l' & El' & Hl')]. split; [exact Hk'|]. exists (l ++ l').
  change (run (e :: es) p) with (run es (page_step stringify enc mode e p)). rewrite El', El, app_assoc.
  split; [done|]. intros k [?|?]%in_app_or; auto.
Qed.

Lemma run_ok es p : store_ok mode (store p) -> store_ok mode (store (run es p)).
Proof.
  revert p. induction es as [|e es IH]; intros p H; [done|]. cbn. apply IH. destruct e as [j x|j|j|]; cbn; try done.
  - unfold withKey_call. case_bool_decide; [done|]. pose proof (create_ok j x (store p) H).
    by destruct (create j x (store p)).
  - by apply clear_ok.
Qed.
End Retry.

(** A page that was just loaded, with whatever the session storage holds. *)
Definition loaded (st : gmap jstring Stored) : Page := MkPage (MkStore ∅ st) ∅ [].

(** ** Properties *)

(** C5. A retry is a retry: from the moment a request of an intent is sent until one
    succeeds, every request sent for it carries the same key, through failures,
    other operations and, where the session storage works, reloads. *)
Theorem retries_send_one_key stringify enc mode st before i suffix es :
  (forall a b, enc a = enc b -> a = b) -> (forall a, Forall (fun u => u <> ch_colon) (enc a)) ->
  let p := page_run stringify enc mode before (loaded st) in
  let slot := intent_slot stringify enc i in
  slot ∉ inFlight p ->
  Forall (keeps stringify enc mode slot) es ->
  exists k later,
    sent (withKey_call stringify enc mode i suffix p) = sent p ++ [(slot, k)] /\
    sent (page_run stringify enc mode es (withKey_call stringify enc mode i suffix p)) = sent p ++ [(slot, k)] ++ later /\
    forall k', In (slot, k') later -> k' = k.
Proof.
  intros Hinj Hcol p slot Hfl Hes.
  assert (store_ok mode (store p)) as Hok.
  { apply run_ok. intros x r. cbn. by rewrite lookup_empty. }
  pose proof (create_keeps stringify enc mode i suffix (store p) Hok) as Hk.
  unfold withKey_call. rewrite bool_decide_eq_false_2 by done.
  destruct (getOrCreateOrganizationIdempotencyKey stringify enc mode i suffix (store p)) as [s' k] eqn:E. cbn in Hk.
  set (p1 := MkPage s' _ _).
  destruct (keeps_run stringify enc mode Hinj Hcol i (MkRecord (intent_fingerprint stringify i) k) es eq_refl p1 Hes Hk)
    as (_ & l & El & Hl).
  exists k, l. split; [done|]. split; [rewrite El; cbn; by rewrite <- app_assoc|exact Hl].
Qed.

(** After a success the same intent gets a new key, unless the session storage
    refuses to forget the old one. *)
Theorem success_renews_key stringify enc mode p i suffix :
  (present mode = true -> can_remove mode = true) ->
  let slot := intent_slot stringify enc i in
  sent (withKey_call stringify enc mode i suffix (withKey_success stringify enc mode i p)) =
  sent p ++ [(slot, generateKey (operation_string (i_operation i)) (String_ (i_target i)) suffix)].
Proof.
  intros Hrm slot. unfold withKey_call, withKey_success. cbn [inFlight store sent]. fold slot.
  rewrite bool_decide_eq_false_2 by set_solver. set (s := store p). set (fp := intent_fingerprint stringify i).
  assert (match (readRecord mode slot (clearOrganizationIdempotencyKey stringify enc mode i s)).2 with
          | Some r => jeqb (fingerprint r) fp = false | None => True end) as H.
  { unfold clearOrganizationIdempotencyKey. fold slot fp. unfold readRecord at 2.
    destruct (memoryRecords s !! slot) as [r|] eqn:Em.
    - destruct (jeqb (fingerprint r) fp) eqn:Ef; cbn [negb].
      + destruct (present mode) eqn:Ep.
        * unfold removeItem, readRecord. rewrite Hrm, Ep by done. cbn. rewrite lookup_delete_eq. cbn.
          destruct (can_read mode); cbn; [by rewrite lookup_delete_eq|done].
        * unfold readRecord. cbn. by rewrite lookup_delete_eq, Ep.
      + unfold readRecord. by rewrite Em.
    - destruct (present mode) eqn:Ep; cbn [negb]; [|unfold readRecord; by rewrite Em, Ep].
      destruct (can_read mode) eqn:Er; cbn [negb].
      2: { unfold readRecord, removeItem. rewrite Hrm by done. cbn. by rewrite Em, Ep, Er. }
      destruct (sessionStorage s !! slot) as [[r| |]|] eqn:Es.
      + destruct (truthy (key r)) eqn:Ek; [|unfold readRecord; by rewrite Em, Ep, Er, Es, Ek].
        destruct (jeqb (fingerprint r) fp) eqn:Ef; cbn [negb].
        * unfold removeItem, readRecord. rewrite Hrm, Ep, Er by done. cbn. by rewrite !lookup_delete_eq.
        * unfold readRecord. cbn. by rewrite lookup_insert_eq.
      + unfold readRecord. by rewrite Em, Ep, Er, Es.
      + unfold removeItem, readRecord. rewrite Hrm, Ep, Er by done. cbn. by rewrite Em, lookup_delete_eq.
      + unfold readRecord. by rewrite Em, Ep, Er, Es. }
  unfold getOrCreateOrganizationIdempotencyKey. fold slot fp.
  destruct (readRecord mode slot _) as [s1 [r|]]; cbn in H; [rewrite H|]; done.
Qed.

(** The fingerprint is of the meaning of a payload: payloads that differ in the order
    of their properties or in undefined ones, at any depth, share it, and so the
    slot of their intents. *)
Theorem fingerprint_same_meaning stringify enc o t v w :
  same_payload v w -> isRecord v = true -> isRecord w = true ->
  fingerprintIdempotencyPayload stringify v = fingerprintIdempotencyPayload stringify w /\
  intent_slot stringify enc (MkIntent o t v) = intent_slot stringify enc (MkIntent o t w).
Proof.
  intros H Hv Hw.
  assert (fingerprintIdempotencyPayload stringify v = fingerprintIdempotencyPayload stringify w) as E.
  { unfold fingerprintIdempotencyPayload. destruct v, w; try done; by rewrite (normalize_same _ _ H). }
  split; [done|]. unfold intent_slot, intent_fingerprint. cbn. by rewrite E.
Qed.

(** ** Witnesses *)

(** [encodeURIComponent] on the two units that matter, the percent sign and the colon. *)
Definition escapeUnit (u : N) : jstring :=
  if (u =? 37)%N then js "%25" else if (u =? ch_colon)%N then js "%3A" else [u].
Definition escape (s : jstring) : jstring := flat_map escapeUnit s.

Lemma escape_colon s : Forall (fun u => u <> ch_colon) (escape s).
Proof.
  unfold escape. induction s as [|u s IH]; [constructor|]. cbn [flat_map]. apply Forall_app. split; [|exact IH].
  unfold escapeUnit. destruct (u =? 37)%N; [unfold js; cbn; repeat constructor; discriminate|].
  destruct (N.eqb_spec u ch_colon); [unfold js; cbn; repeat constructor; discriminate|]. by constructor.
Qed.

Lemma escape_inj a b : escape a = escape b -> a = b.
Proof.
  unfold escape. revert b. induction a as [|u a IH]; intros [|v b]; cbn [flat_map]; [done| | |].
  - unfold escapeUnit. by destruct (v =? 37)%N, (v =? ch_colon)%N.
  - unfold escapeUnit. by destruct (u =? 37)%N, (u =? ch_colon)%N.
  - unfold escapeUnit. destruct (N.eqb_spec u 37), (N.eqb_spec v 37), (N.eqb_spec u ch_colon), (N.eqb_spec v ch_colon);
      unfold js; cbn; intros [=]; subst; try done; f_equal; auto.
Qed.

Definition plainStringify (v : jsval) : jstring :=
  match v with JObj ((_, JStr s) :: _) => s | _ => js "{}" end.
Definition browser : StorageMode := MkMode true true true true.
Definition exitIntent (reason : string) : Intent :=
  MkIntent exit_member (TargetNumber 7) (JObj [(js "reason", JStr (js reason))]).

Lemma retries_send_one_key_witness :
  sent (page_run plainStringify escape browser
    [Call (exitIntent "moving") (js "u1"); Failure (exitIntent "moving"); Call (exitIntent "other") (js "u2");
     Reload; Call (exitIntent "moving") (js "u3")] (loaded ∅)) =
  [(intent_slot plainStringify escape (exitIntent "moving"), js "exit-member:7:u1");
   (intent_slot plainStringify escape (exitIntent "other"), js "exit-member:7:u2");
   (intent_slot plainStringify escape (exitIntent "moving"), js "exit-member:7:u1")] /\
  exists k later, sent (page_run plainStringify escape browser
      [Failure (exitIntent "moving"); Reload; Call (exitIntent "moving") (js "u3")]
      (withKey_call plainStringify escape browser (exitIntent "moving") (js "u1")
        (page_run plainStringify escape browser [] (loaded ∅)))) =
    [] ++ [(intent_slot plainStringify escape (exitIntent "moving"), k)] ++ later.
Proof.
  split; [vm_compute; reflexivity|].
  destruct (retries_send_one_key plainStringify escape browser ∅ [] (exitIntent "moving") (js "u1")
    [Failure (exitIntent "moving"); Reload; Call (exitIntent "moving") (js "u3")] escape_inj escape_colon)
    as (k & later & _ & E & _).
  - cbn. set_solver.
  - constructor; [exact I|]. constructor; [split; [|split; [|split]]; reflexivity|]. constructor; [exact I|constructor].
  - exists k, later. exact E.
Defined.

Lemma success_renews_key_witness :
  sent (withKey_call plainStringify escape browser (exitIntent "moving") (js "u2")
    (withKey_success plainStringify escape browser (exitIntent "moving") (loaded ∅))) =
  [(intent_slot plainStringify escape (exitIntent "moving"), js "exit-member:7:u2")].
Proof.
  exact (success_renews_key plainStringify escape browser (loaded ∅) (exitIntent "moving") (js "u2") (fun _ => eq_refl)).
Defined.

Lemma fingerprint_same_meaning_witness :
  fingerprintIdempotencyPayload plainStringify (JObj [(js "b", JStr (js "2")); (js "a", JStr (js "1"))]) =
  fingerprintIdempotencyPayload plainStringify (JObj [(js "a", JStr (js "1")); (js "b", JStr (js "2"))]).
Proof.
  refine (proj1 (fingerprint_same_meaning plainStringify escape dissolve (TargetNumber 1) _ _ _ _ _));
    [|reflexivity|reflexivity].
  apply same_order; [apply (bool_decide_unpack _); vm_compute; reflexivity|constructor].
Defined.
