(* ===== verification/ChatHandler.v ===== *)
(** * Sending a chat and showing its answer
      (web/src/features/playground/hooks/use-chat-handler.ts,
      lib/streaming/request-error-utils.ts)

    The handler turns the callbacks of a request into updates of the conversation.
    Chunks are gathered and flushed by a timer; an update is a function the renderer
    runs later, when the request it came from may have been superseded, so every
    request has a generation and every update tests it again.  The handler is a
    machine over the calls, callbacks, timers and renders that reach it. *)

From S2P Require Import Prelude JsValue Playground StreamController.

(** ** request-error-utils.ts *)

(** A code or message that is not a string is passed on as it is; the model keeps
    strings. *)
Definition parseRequestErrorDetails (error : jsval) : StreamErrorDetails :=
  let data := jget (jget error (js "response")) (js "data") in
  let text v := match v with JStr s => s | _ => [] end in
  let code := text (jget (jget data (js "error")) (js "code")) in
  MkDetails (if truthy code then Some code else None)
    (jor (text (jget data (js "message"))) (jor (text (jget error (js "message"))) API_REQUEST_ERROR)).

(** ** State *)

Definition NETWORK_ERROR : jstring := js "Network connection failed or server not responding".

Definition KNOWN_ERROR_MESSAGES : list jstring :=
  [API_REQUEST_ERROR; NETWORK_ERROR; PARSE_ERROR; STREAM_START_ERROR; CONNECTION_CLOSED; INTERRUPTED].

Record PendingStreamChunks := MkPending {
  p_generation : nat; pending_content : jstring; pending_reasoning : jstring
}.

(** [current + next], or [next] alone when it repeats [current]. *)
Definition mergePendingStreamChunk (currentChunk nextChunk : jstring) : jstring :=
  if negb (truthy currentChunk) || negb (startsWith nextChunk currentChunk)
  then currentChunk ++ nextChunk else nextChunk.

(** The functions given to [onMessageUpdate]: those of the handler, each with its
    generation, and those of the rest of the page. *)
Inductive Update :=
| UFlush (generation : nat) (reasoning content : jstring)
| UPlugin (generation : nat) (nanoid : jstring) (event : PluginEventPayload)
| UComplete (generation : nat)
| UError (generation : nat) (displayError : jstring) (code : option jstring) (title : jstring)
| UResponse (generation : nat) (choices : option (list Choice))
| USettle (generation : nat)
| UPage (f : list Message -> list Message).

(** The refs and states of the hook, the requests and toasts it issued, and the
    conversation: the messages shown, and the updates not run yet.  A request that
    is not streamed is named by its generation, as is its abort controller. *)
Record Handler := MkHandler {
  requestGeneration : nat;
  pendingStreamChunks : PendingStreamChunks;
  streamFlushTimer : option nat;
  abortController : option nat;
  aborted : list nat;
  isRequesting : bool;
  requests : list (nat * ChatCompletionRequest);
  toasts : list jstring;
  messages : list Message;
  updates : list Update
}.

Definition initialHandler (l : list Message) : Handler :=
  MkHandler 0 (MkPending 0 [] []) None None [] false [] [] l [].

Definition setGeneration (g : nat) (h : Handler) : Handler :=
  MkHandler g (pendingStreamChunks h) (streamFlushTimer h) (abortController h) (aborted h) (isRequesting h)
    (requests h) (toasts h) (messages h) (updates h).
Definition setPending (p : PendingStreamChunks) (h : Handler) : Handler :=
  MkHandler (requestGeneration h) p (streamFlushTimer h) (abortController h) (aborted h) (isRequesting h)
    (requests h) (toasts h) (messages h) (updates h).
Definition setTimer (t : option nat) (h : Handler) : Handler :=
  MkHandler (requestGeneration h) (pendingStreamChunks h) t (abortController h) (aborted h) (isRequesting h)
    (requests h) (toasts h) (messages h) (updates h).
Definition setAbort (a : option nat) (h : Handler) : Handler :=
  MkHandler (requestGeneration h) (pendingStreamChunks h) (streamFlushTimer h) a (aborted h) (isRequesting h)
    (requests h) (toasts h) (messages h) (updates h).
Definition setRequesting (b : bool) (h : Handler) : Handler :=
  MkHandler (requestGeneration h) (pendingStreamChunks h) (streamFlushTimer h) (abortController h) (aborted h) b
    (requests h) (toasts h) (messages h) (updates h).
Definition addRequest (g : nat) (q : ChatCompletionRequest) (h : Handler) : Handler :=
  MkHandler (requestGeneration h) (pendingStreamChunks h) (streamFlushTimer h) (abortController h) (aborted h)
    (isRequesting h) (requests h ++ [(g, q)]) (toasts h) (messages h) (updates h).
Definition addToast (m : jstring) (h : Handler) : Handler :=
  MkHandler (requestGeneration h) (pendingStreamChunks h) (streamFlushTimer h) (abortController h) (aborted h)
    (isRequesting h) (requests h) (toasts h ++ [m]) (messages h) (updates h).
Definition setMessages (l : list Message) (us : list Update) (h : Handler) : Handler :=
  MkHandler (requestGeneration h) (pendingStreamChunks h) (streamFlushTimer h) (abortController h) (aborted h)
    (isRequesting h) (requests h) (toasts h) l us.

(** [abortControllerRef.current?.abort(); abortControllerRef.current = next] *)
Definition abort (next : option nat) (h : Handler) : Handler :=
  MkHandler (requestGeneration h) (pendingStreamChunks h) (streamFlushTimer h) next
    (match abortController h with Some g => g :: aborted h | None => aborted h end) (isRequesting h)
    (requests h) (toasts h) (messages h) (updates h).

(** *** Updates *)

(** An update that is run when [current] is the generation. *)
Definition applyUpdate (current : nat) (now : Z) (prev : list Message) (u : Update) : list Message :=
  let guarded g f := if negb (g =? current)%nat then prev else f tt in
  match u with
  | UFlush g r c =>
      guarded g (fun _ => updateLastAssistantMessage prev (fun m =>
        let m := if truthy r then applyStreamingChunk m c_reasoning r now else m in
        if truthy c then applyStreamingChunk m c_content c now else m))
  | UPlugin g nanoid e =>
      guarded g (fun _ => updateLastAssistantMessage prev (fun m => appendPluginEvent nanoid m e))
  | UComplete g =>
      guarded g (fun _ => updateLastAssistantMessage prev (fun m =>
        if isAssistantMessageFinal m then m else completeAssistantMessage m now))
  | UError g displayError code title =>
      guarded g (fun _ => updateAssistantMessageWithError prev displayError code title now)
  | UResponse g choices =>
      guarded g (fun _ => updateLastAssistantMessage prev (fun m =>
        coalesce (applyChatCompletionResponse m choices now) m))
  | USettle g =>
      guarded g (fun _ => updateLastAssistantMessage prev (fun m =>
        if isAssistantMessagePending m then completeAssistantMessage m now else m))
  | UPage f => f prev
  end.

(** [onMessageUpdate]: the renderer may run an update at once when it has no other
    waiting, and runs the waiting ones in order when it renders. *)
Definition onMessageUpdate (eager : bool) (now : Z) (u : Update) (h : Handler) : Handler :=
  match eager, updates h with
  | true, [] => setMessages (applyUpdate (requestGeneration h) now (messages h) u) [] h
  | _, us => setMessages (messages h) (us ++ [u]) h
  end.

Definition render (now : Z) (h : Handler) : Handler :=
  setMessages (foldl (applyUpdate (requestGeneration h) now) (messages h) (updates h)) [] h.

(** *** Flushing *)

Definition discardPendingStreamUpdates (generation : nat) (h : Handler) : Handler :=
  setPending (MkPending generation [] []) (setTimer None h).

Definition flushStreamUpdates (eager : bool) (now : Z) (generation : nat) (h : Handler) : Handler :=
  if negb (generation =? requestGeneration h)%nat then h
  else
    let h := setTimer None h in
    let p := pendingStreamChunks h in
    if negb (p_generation p =? generation)%nat then h
    else if negb (truthy (pending_reasoning p)) && negb (truthy (pending_content p)) then h
    else onMessageUpdate eager now (UFlush generation (pending_reasoning p) (pending_content p))
           (setPending (MkPending generation [] []) h).

Definition scheduleStreamFlush (generation : nat) (h : Handler) : Handler :=
  if negb (generation =? requestGeneration h)%nat then h
  else match streamFlushTimer h with Some _ => h | None => setTimer (Some generation) h end.

(** The timer fires. *)
Definition fireTimer (eager : bool) (now : Z) (h : Handler) : Handler :=
  match streamFlushTimer h with Some g => flushStreamUpdates eager now g h | None => h end.

(** ** The callbacks and the calls

    [parse] is [JSON.parse], [t] the translator; [eager1] and [eager2] say whether the
    renderer runs the first and the second update of a call at once. *)

Section Handlers.
Context (parse : jstring -> option jsval) (t : jstring -> jstring).

Definition getDisplayError (error : jstring) : jstring :=
  if bool_decide (error ∈ KNOWN_ERROR_MESSAGES) then t error
  else
    let connectionClosedSuffix := js ": " ++ CONNECTION_CLOSED in
    if endsWith error connectionClosedSuffix
    then take (length error - length CONNECTION_CLOSED) error ++ t CONNECTION_CLOSED
    else error.

Definition handleStreamUpdate (eager1 eager2 : bool) (now : Z) (nanoid : jstring) (generation : nat)
    (type : StreamUpdateType) (chunk : jstring) (h : Handler) : Handler :=
  let p := pendingStreamChunks h in
  if negb (generation =? requestGeneration h)%nat then h
  else if negb (p_generation p =? generation)%nat then h
  else match type with
       | u_plugin_event =>
           match v ← parse chunk; parsePluginEventPayload v with
           | None => h
           | Some event =>
               onMessageUpdate eager2 now (UPlugin generation nanoid event)
                 (flushStreamUpdates eager1 now generation h)
           end
       | u_content =>
           scheduleStreamFlush generation
             (setPending (MkPending (p_generation p) (mergePendingStreamChunk (pending_content p) chunk)
                            (pending_reasoning p)) h)
       | u_reasoning =>
           scheduleStreamFlush generation
             (setPending (MkPending (p_generation p) (pending_content p)
                            (mergePendingStreamChunk (pending_reasoning p) chunk)) h)
       end.

Definition handleStreamComplete (eager1 eager2 : bool) (now : Z) (generation : nat) (h : Handler) : Handler :=
  if negb (generation =? requestGeneration h)%nat then h
  else onMessageUpdate eager2 now (UComplete generation)
         (setRequesting false (flushStreamUpdates eager1 now generation h)).

Definition handleStreamError (eager1 eager2 : bool) (now : Z) (generation : nat) (error : jstring)
    (code : option jstring) (h : Handler) : Handler :=
  if negb (generation =? requestGeneration h)%nat then h
  else
    let displayError := getDisplayError error in
    onMessageUpdate eager2 now (UError generation displayError code (t API_REQUEST_ERROR))
      (addToast displayError (setRequesting false (flushStreamUpdates eager1 now generation h))).

(** The request of a streaming chat is handed to the stream controller with the
    callbacks of its generation. *)
Definition sendStreamingChat (l : list Message) (config : PlaygroundConfig) (enabled : ParameterEnabled)
    (h : Handler) : Handler :=
  let generation := S (requestGeneration h) in
  addRequest generation (buildChatCompletionPayload l config enabled)
    (setRequesting true (discardPendingStreamUpdates generation (abort None (setGeneration generation h)))).

(** [sendNonStreamingChat] up to its [await]; the controller's stream is stopped. *)
Definition sendNonStreamingChat_begin (l : list Message) (config : PlaygroundConfig) (enabled : ParameterEnabled)
    (h : Handler) : Handler :=
  let generation := S (requestGeneration h) in
  addRequest generation (buildChatCompletionPayload l config enabled)
    (setRequesting true
       (abort (Some generation) (discardPendingStreamUpdates generation (setGeneration generation h)))).

Definition ignored (generation : nat) (h : Handler) : bool :=
  bool_decide (generation ∈ aborted h) || negb (requestGeneration h =? generation)%nat.

(** The [finally] of a request that is not streamed. *)
Definition finishRequest (generation : nat) (h : Handler) : Handler :=
  if (requestGeneration h =? generation)%nat then setRequesting false (setAbort None h) else h.

(** After the [await]: a response, or an error. *)
Definition sendNonStreamingChat_end (eager1 eager2 : bool) (now : Z) (generation : nat)
    (response : option (list Choice) + jsval) (h : Handler) : Handler :=
  finishRequest generation
    (if ignored generation h then h
     else match response with
          | inl choices =>
              if negb (hasChatCompletionChoice choices)
              then handleStreamError eager1 eager2 now generation API_REQUEST_ERROR None h
              else onMessageUpdate eager1 now (UResponse generation choices) h
          | inr error =>
              let d := parseRequestErrorDetails error in
              handleStreamError eager1 eager2 now generation (d_errorMessage d) (d_errorCode d) h
          end).

Definition sendChat (l : list Message) (config : PlaygroundConfig) (enabled : ParameterEnabled) (h : Handler)
    : Handler :=
  if c_stream config then sendStreamingChat l config enabled h else sendNonStreamingChat_begin l config enabled h.

Definition stopGeneration (eager1 eager2 : bool) (now : Z) (h : Handler) : Handler :=
  let stoppedGeneration := requestGeneration h in
  let h := flushStreamUpdates eager1 now stoppedGeneration h in
  let idleGeneration := S stoppedGeneration in
  onMessageUpdate eager2 now (USettle idleGeneration)
    (setRequesting false
       (abort None (discardPendingStreamUpdates idleGeneration (setGeneration idleGeneration h)))).

(** The cleanup of the effect: the page is left. *)
Definition unmount (h : Handler) : Handler :=
  abort None (setTimer None (setGeneration (S (requestGeneration h)) h)).

(** *** What happens to the handler *)

Inductive ChatEvent :=
| ESend (l : list Message) (config : PlaygroundConfig) (enabled : ParameterEnabled)
| EUpdate (eager1 eager2 : bool) (now : Z) (nanoid : jstring) (generation : nat) (type : StreamUpdateType)
    (chunk : jstring)
| EComplete (eager1 eager2 : bool) (now : Z) (generation : nat)
| EError (eager1 eager2 : bool) (now : Z) (generation : nat) (error : jstring) (code : option jstring)
| EResponse (eager1 eager2 : bool) (now : Z) (generation : nat) (response : option (list Choice) + jsval)
| ETimer (eager : bool) (now : Z)
| EStop (eager1 eager2 : bool) (now : Z)
| ERender (now : Z)
| EPage (eager : bool) (now : Z) (f : list Message -> list Message)
| EUnmount.

Definition chat_step (h : Handler) (e : ChatEvent) : Handler :=
  match e with
  | ESend l config enabled => sendChat l config enabled h
  | EUpdate e1 e2 now nanoid g type chunk => handleStreamUpdate e1 e2 now nanoid g type chunk h
  | EComplete e1 e2 now g => handleStreamComplete e1 e2 now g h
  | EError e1 e2 now g error code => handleStreamError e1 e2 now g error code h
  | EResponse e1 e2 now g response => sendNonStreamingChat_end e1 e2 now g response h
  | ETimer e now => fireTimer e now h
  | EStop e1 e2 now => stopGeneration e1 e2 now h
  | ERender now => render now h
  | EPage e now f => onMessageUpdate e now (UPage f) h
  | EUnmount => unmount h
  end.

Definition chat_run (h : Handler) (es : list ChatEvent) : Handler := foldl chat_step h es.
End Handlers.

(** ** Lemmas *)

Lemma merge_pending current chunk : mergePendingStreamChunk current chunk = mergeContent current chunk.
Proof. unfold mergePendingStreamChunk, mergeContent. by destruct (truthy current), (startsWith chunk current). Qed.

Definition generation_of_update (u : Update) : option nat :=
  match u with
  | UFlush g _ _ | UPlugin g _ _ | UComplete g | UError g _ _ _ | UResponse g _ | USettle g => Some g
  | UPage _ => None
  end.

(** Everything the handler keeps is of the current generation or older, its timer of
    the current one, and text that waits to be flushed has its timer. *)
Record handler_ok (h : Handler) : Prop := MkOk {
  ok_pending : (p_generation (pendingStreamChunks h) <= requestGeneration h)%nat;
  ok_timer : forall g, streamFlushTimer h = Some g -> g = requestGeneration h;
  ok_text : p_generation (pendingStreamChunks h) = requestGeneration h ->
    truthy (pending_content (pendingStreamChunks h)) || truthy (pending_reasoning (pendingStreamChunks h)) = true ->
    streamFlushTimer h = Some (requestGeneration h);
  ok_updates : Forall (fun u => forall g, generation_of_update u = Some g -> (g <= requestGeneration h)%nat) (updates h);
  ok_abort : forall g, abortController h = Some g -> (g <= requestGeneration h)%nat;
  ok_aborted : Forall (fun g => (g < requestGeneration h)%nat) (aborted h)
}.

Lemma dispatch_shape eager now u h : exists l us,
  onMessageUpdate eager now u h = setMessages l us h /\ (us = [] \/ us = updates h ++ [u]).
Proof.
  unfold onMessageUpdate. destruct eager, (updates h) as [|v us] eqn:E;
    (eexists; eexists; split; [reflexivity|]); rewrite ?E; auto.
Qed.

Lemma setMessages_ok l us h :
  handler_ok h ->
  Forall (fun u => forall g, generation_of_update u = Some g -> (g <= requestGeneration h)%nat) us ->
  handler_ok (setMessages l us h).
Proof. intros [] Hus. by constructor. Qed.

Lemma dispatch_ok eager now u h :
  handler_ok h -> (forall g, generation_of_update u = Some g -> (g <= requestGeneration h)%nat) ->
  handler_ok (onMessageUpdate eager now u h).
Proof.
  intros Hok Hu. destruct (dispatch_shape eager now u h) as (l & us & -> & [-> | ->]);
    apply setMessages_ok; try done.
  apply Forall_app. split; [apply Hok|by repeat constructor].
Qed.

Lemma dispatch_generation eager now u h : requestGeneration (onMessageUpdate eager now u h) = requestGeneration h.
Proof. by destruct (dispatch_shape eager now u h) as (l & us & -> & _). Qed.

Lemma flush_generation eager now g h : requestGeneration (flushStreamUpdates eager now g h) = requestGeneration h.
Proof. unfold flushStreamUpdates. repeat case_match; rewrite ?dispatch_generation; done. Qed.

Lemma flush_stale eager now g h : g <> requestGeneration h -> flushStreamUpdates eager now g h = h.
Proof. intros H. unfold flushStreamUpdates. by rewrite (proj2 (Nat.eqb_neq g _)). Qed.

Lemma flush_ok eager now g h : handler_ok h -> handler_ok (flushStreamUpdates eager now g h).
Proof.
  intros Hok. unfold flushStreamUpdates.
  destruct (Nat.eqb_spec g (requestGeneration h)) as [->|]; [cbn [negb]|done]. cbn [setTimer pendingStreamChunks].
  destruct (Nat.eqb_spec (p_generation (pendingStreamChunks h)) (requestGeneration h)) as [Hp|Hp]; cbn [negb].
  - destruct (negb _ && negb _) eqn:E.
    + destruct Hok. constructor; cbn; try done. intros _ Ht.
      apply andb_true_iff in E as [E1 E2]. apply negb_true_iff in E1, E2. by rewrite E1, E2 in Ht.
    + apply dispatch_ok; [|by intros ? [= <-]]. destruct Hok. by constructor; cbn.
  - destruct Hok. by constructor; cbn.
Qed.

Lemma schedule_ok g p h :
  handler_ok h -> p_generation p = g -> g = requestGeneration h -> handler_ok (scheduleStreamFlush g (setPending p h)).
Proof.
  intros [] Hp Hg. unfold scheduleStreamFlush. cbn [setPending requestGeneration].
  rewrite (proj2 (Nat.eqb_eq g _) Hg). cbn [negb setPending requestGeneration streamFlushTimer].
  destruct (streamFlushTimer h) as [g0|] eqn:Ht; constructor; cbn; try done; try lia.
  - rewrite Ht. exact ok_timer0.
  - intros _ _. by rewrite Ht, <- (ok_timer0 _ eq_refl).
  - by intros ? [= <-].
  - intros _ _. by rewrite Hg.
Qed.

Lemma chat_update_ok parse e1 e2 now nanoid g type chunk h :
  handler_ok h -> handler_ok (handleStreamUpdate parse e1 e2 now nanoid g type chunk h).
Proof.
  intros Hok. unfold handleStreamUpdate.
  destruct (Nat.eqb_spec g (requestGeneration h)) as [->|]; [cbn [negb]|done].
  destruct (Nat.eqb_spec (p_generation (pendingStreamChunks h)) (requestGeneration h)); cbn [negb]; [|done].
  destruct type; [by apply schedule_ok..|]. case_match; [|done].
  apply dispatch_ok; [by apply flush_ok|]. intros ? [= <-]. by rewrite flush_generation.
Qed.

Lemma setRequesting_ok b h : handler_ok h -> handler_ok (setRequesting b h).
Proof. intros []. by constructor. Qed.
Lemma addToast_ok m h : handler_ok h -> handler_ok (addToast m h).
Proof. intros []. by constructor. Qed.
#[local] Hint Resolve setRequesting_ok addToast_ok flush_ok : cube.

Lemma complete_ok e1 e2 now g h : handler_ok h -> handler_ok (handleStreamComplete e1 e2 now g h).
Proof.
  intros Hok. unfold handleStreamComplete.
  destruct (Nat.eqb_spec g (requestGeneration h)) as [->|]; [cbn [negb]|done].
  apply dispatch_ok; [by auto with cube|]. intros ? [= <-]. cbn. by rewrite flush_generation.
Qed.

Lemma error_ok t e1 e2 now g error code h : handler_ok h -> handler_ok (handleStreamError t e1 e2 now g error code h).
Proof.
  intros Hok. unfold handleStreamError.
  destruct (Nat.eqb_spec g (requestGeneration h)) as [->|]; [cbn [negb]|done].
  apply dispatch_ok; [by auto with cube|]. intros ? [= <-]. cbn. by rewrite flush_generation.
Qed.

Lemma aborted_older h :
  handler_ok h ->
  Forall (fun g => (g < S (requestGeneration h))%nat)
    (match abortController h with Some g => g :: aborted h | None => aborted h end).
Proof.
  intros []. assert (Forall (fun g => (g < S (requestGeneration h))%nat) (aborted h)).
  { eapply Forall_impl; [done|]. cbn. lia. }
  destruct (abortController h); [|done]. constructor; [|done]. specialize (ok_abort0 _ eq_refl). lia.
Qed.

(** A new generation: what waits is dropped, and what is kept is older. *)
Lemma next_ok a b rs h' h :
  handler_ok h -> (forall g, a = Some g -> (g <= S (requestGeneration h))%nat) ->
  h' = MkHandler (S (requestGeneration h)) (MkPending (S (requestGeneration h)) [] []) None a
         (match abortController h with Some g => g :: aborted h | None => aborted h end) b rs (toasts h)
         (messages h) (updates h) ->
  handler_ok h'.
Proof.
  intros Hok Ha ->. pose proof (aborted_older h Hok). destruct Hok. constructor; cbn; try done.
  eapply Forall_impl; [done|]. cbn. intros u Hu g Hg. specialize (Hu g Hg). lia.
Qed.

Lemma send_ok l config enabled h : handler_ok h -> handler_ok (sendChat l config enabled h).
Proof. intros Hok. unfold sendChat. case_match; (eapply next_ok; [exact Hok| |reflexivity]); [done|]. intros g [= <-]. lia. Qed.

Lemma stop_ok e1 e2 now h : handler_ok h -> handler_ok (stopGeneration e1 e2 now h).
Proof.
  intros Hok. unfold stopGeneration. set (h1 := flushStreamUpdates _ _ _ _).
  assert (handler_ok h1) by (by apply flush_ok).
  assert (requestGeneration h1 = requestGeneration h) as E by apply flush_generation. clearbody h1. rewrite <- E.
  apply dispatch_ok; [|by intros ? [= <-]]. by eapply next_ok; [eassumption| |reflexivity].
Qed.

Lemma chat_step_ok parse t h e : handler_ok h -> handler_ok (chat_step parse t h e).
Proof.
  intros Hok. destruct e; cbn [chat_step].
  - by apply send_ok.
  - by apply chat_update_ok.
  - by apply complete_ok.
  - by apply error_ok.
  - unfold sendNonStreamingChat_end.
    assert (forall x, handler_ok x -> handler_ok (finishRequest generation x)) as Hf.
    { intros x Hx. unfold finishRequest. case_match; [|done]. apply setRequesting_ok. destruct Hx. by constructor. }
    apply Hf. unfold ignored. destruct (bool_decide _ || _) eqn:E; [done|].
    apply orb_false_iff in E as [_ E%negb_false_iff%Nat.eqb_eq].
    case_match; [case_match|]; [by apply error_ok| |by apply error_ok].
    apply dispatch_ok; [done|]. intros ? [= <-]. lia.
  - unfold fireTimer. case_match; [by apply flush_ok|done].
  - by apply stop_ok.
  - apply setMessages_ok; [done|constructor].
  - by apply dispatch_ok.
  - pose proof (aborted_older h Hok). destruct Hok. constructor; cbn; try done; try lia.
    eapply Forall_impl; [done|]. cbn. intros u Hu g Hg. specialize (Hu g Hg). lia.
Qed.

Lemma chat_run_ok parse t es h : handler_ok h -> handler_ok (chat_run parse t h es).
Proof. revert h. induction es as [|e es IH]; intros h Hok; [done|]. by apply IH, chat_step_ok. Qed.

Lemma initial_ok l : handler_ok (initialHandler l).
Proof. by constructor. Qed.

(** *** What happens to an earlier request *)

Definition of_request (p : nat -> bool) (e : ChatEvent) : bool :=
  match e with
  | EUpdate _ _ _ _ g _ _ | EComplete _ _ _ g | EError _ _ _ g _ _ | EResponse _ _ _ g _ => p g
  | _ => false
  end.

(** A callback of a request before [g]. *)
Definition stale (g : nat) (e : ChatEvent) : bool := of_request (fun g' => g' <? g)%nat e.

Definition is_tick (e : ChatEvent) : bool := match e with ETimer _ _ | ERender _ => true | _ => false end.

Lemma stale_ignored parse t e h : stale (requestGeneration h) e = true -> chat_step parse t h e = h.
Proof.
  assert (forall g, (g <? requestGeneration h)%nat = true -> (g =? requestGeneration h)%nat = false) as Hg.
  { intros g. rewrite Nat.ltb_lt, Nat.eqb_neq. lia. }
  destruct e; try done; cbn [stale of_request chat_step]; intros H%Hg.
  - unfold handleStreamUpdate. by rewrite H.
  - unfold handleStreamComplete. by rewrite H.
  - unfold handleStreamError. by rewrite H.
  - unfold sendNonStreamingChat_end, ignored, finishRequest. rewrite (Nat.eqb_sym (requestGeneration h)), H.
    cbn [negb]. rewrite orb_true_r. rewrite (Nat.eqb_sym (requestGeneration h)), H. done.
Qed.

(** Updates of earlier requests leave the conversation alone. *)
Lemma old_update current now prev u :
  (forall g, generation_of_update u = Some g -> (g < current)%nat) ->
  applyUpdate current now prev u = match u with UPage f => f prev | _ => prev end.
Proof.
  intros Hu. destruct u; cbn in *; try done; rewrite (proj2 (Nat.eqb_neq generation current)); try done;
    specialize (Hu _ eq_refl); lia.
Qed.

Lemma old_updates current now now' us prev :
  Forall (fun u => forall g, generation_of_update u = Some g -> (g < current)%nat) us ->
  foldl (applyUpdate current now) prev us = foldl (applyUpdate current now') prev us.
Proof.
  intros H. revert prev. induction H as [|u us Hu _ IH]; intros prev; [done|]. cbn.
  by rewrite !(old_update _ _ _ _ Hu), IH.
Qed.

(** What the page shows once the waiting updates have run. *)
Definition shown (now : Z) (h : Handler) : list Message := messages (render now h).

(** Only updates of earlier requests wait, and no flush is due. *)
Definition fresh (h : Handler) : Prop :=
  streamFlushTimer h = None /\
  Forall (fun u => forall g, generation_of_update u = Some g -> (g < requestGeneration h)%nat) (updates h).

Lemma fresh_run parse t es now now' h :
  fresh h -> Forall (fun e => stale (requestGeneration h) e || is_tick e = true) es ->
  shown now' (chat_run parse t h es) = shown now h.
Proof.
  revert h. induction es as [|e es IH]; intros h [Ht Hu] He; [by apply old_updates|].
  inversion He as [|? ? He1 He2]; subst. cbn [chat_run foldl]. fold (chat_run parse t (chat_step parse t h e) es).
  destruct (stale (requestGeneration h) e) eqn:Es; [by rewrite (stale_ignored _ _ _ _ Es), IH|].
  destruct e; try done; cbn [chat_step].
  - unfold fireTimer. rewrite Ht. by apply IH.
  - rewrite (IH (render now0 h)); [|by split; [done|constructor]|done].
    unfold shown, render. cbn. by apply old_updates.
Qed.

Lemma send_fresh l config enabled h : handler_ok h -> fresh (sendChat l config enabled h).
Proof.
  intros Hok. unfold sendChat. case_match; (split; [done|]); cbn; (eapply Forall_impl; [by apply Hok|]); cbn;
    intros u Hu g Hg; specialize (Hu g Hg); lia.
Qed.

(** *** The end of an answer *)

Lemma render_dispatch eager now now' u h : exists now'',
  shown now' (onMessageUpdate eager now u h) = applyUpdate (requestGeneration h) now'' (shown now' h) u.
Proof.
  unfold shown, render, onMessageUpdate. destruct eager, (updates h) as [|v us] eqn:E;
    (eexists; cbn; rewrite ?E, ?foldl_app; reflexivity).
Qed.

Lemma update_last l f :
  last (updateLastAssistantMessage l f) =
  match last l with Some m => Some (if bool_decide (from m = ASSISTANT) then f m else m) | None => None end.
Proof.
  unfold updateLastAssistantMessage. destruct (last l) as [m|] eqn:E; [|done].
  case_bool_decide; [|done]. apply last_Some in E as [k ->]. rewrite length_app. cbn.
  replace (length k + 1 - 1)%nat with (length k + 0)%nat by lia. rewrite insert_app_r. cbn. by rewrite last_snoc.
Qed.

Lemma settles_last l f :
  (forall m, from m = ASSISTANT -> isAssistantMessagePending (f m) = false) ->
  isPendingAssistantMessage (last (updateLastAssistantMessage l f)) = false.
Proof.
  intros Hf. rewrite update_last. destruct (last l) as [m|]; [|done].
  cbn [isPendingAssistantMessage]. destruct (bool_decide_reflect (from m = ASSISTANT)) as [E|E].
  - by rewrite Hf, andb_false_r.
  - by rewrite bool_decide_eq_false_2.
Qed.

Lemma completed_not_pending m now : isAssistantMessagePending (completeAssistantMessage m now) = false.
Proof.
  unfold completeAssistantMessage, isAssistantMessagePending.
  by destruct (content_assistant_timing (withStatus COMPLETE (finalizeMessage m None now)) now) as (_ & -> & _).
Qed.

Lemma error_not_pending l e code title now :
  isPendingAssistantMessage (last (updateAssistantMessageWithError l e code title now)) = false.
Proof.
  apply settles_last. intros m _. unfold isAssistantMessagePending.
  match goal with |- context [completeAssistantTiming ?x now] =>
    destruct (content_assistant_timing x now) as (_ & -> & _) end. done.
Qed.

Lemma response_not_pending m choices m' now :
  applyChatCompletionResponse m choices now = Some m' -> isAssistantMessagePending m' = false.
Proof.
  destruct choices as [[|c cs]|]; try done. intros [= <-]. unfold applyChatCompletionChoice, isAssistantMessagePending.
  match goal with |- context [completeAssistantTiming ?x now] =>
    destruct (content_assistant_timing x now) as (_ & -> & _) end. done.
Qed.

(** The updates that end an answer. *)
Definition ends (u : Update) : bool :=
  match u with
  | UComplete _ | UError _ _ _ _ | USettle _ => true
  | UResponse _ choices => hasChatCompletionChoice choices
  | _ => false
  end.

Lemma ends_settles current now prev u :
  ends u = true -> generation_of_update u = Some current ->
  isPendingAssistantMessage (last (applyUpdate current now prev u)) = false.
Proof.
  destruct u; try done; cbn; intros He [= ->]; rewrite Nat.eqb_refl; cbn [negb].
  - apply settles_last. intros m _. unfold isAssistantMessageFinal. destruct (_ || _) eqn:E; [|apply completed_not_pending].
    unfold isAssistantMessagePending. by destruct (status m) as [[]|].
  - apply error_not_pending.
  - apply settles_last. intros m _. destruct choices as [[|c cs]|]; try done. by eapply (response_not_pending m (Some (c :: cs))).
  - apply settles_last. intros m _. destruct (isAssistantMessagePending m) eqn:E; [|done]. apply completed_not_pending.
Qed.

Lemma dispatch_settles eager now now' u h :
  ends u = true -> generation_of_update u = Some (requestGeneration h) ->
  isPendingAssistantMessage (last (shown now' (onMessageUpdate eager now u h))) = false.
Proof. intros He Hu. destruct (render_dispatch eager now now' u h) as [now'' ->]. by apply ends_settles. Qed.

Lemma dispatch_requesting eager now u h : isRequesting (onMessageUpdate eager now u h) = isRequesting h.
Proof. by destruct (dispatch_shape eager now u h) as (l & us & -> & _). Qed.

(** The events that end the current request, and the user's stop. *)
Definition finishes (h : Handler) (e : ChatEvent) : bool :=
  match e with
  | EComplete _ _ _ g | EError _ _ _ g _ _ | EResponse _ _ _ g _ => (g =? requestGeneration h)%nat
  | EStop _ _ _ => true
  | _ => false
  end.

Lemma finish_shown now g h : shown now (finishRequest g h) = shown now h.
Proof. unfold finishRequest. by case_match. Qed.

Lemma complete_settles e1 e2 now now' g h : g = requestGeneration h ->
  isPendingAssistantMessage (last (shown now' (handleStreamComplete e1 e2 now g h))) = false /\
  isRequesting (handleStreamComplete e1 e2 now g h) = false.
Proof.
  intros ->. unfold handleStreamComplete. rewrite Nat.eqb_refl. cbn [negb].
  split; [|by rewrite dispatch_requesting]. apply dispatch_settles; [done|]. cbn. by rewrite flush_generation.
Qed.

Lemma error_settles t e1 e2 now now' g error code h : g = requestGeneration h ->
  isPendingAssistantMessage (last (shown now' (handleStreamError t e1 e2 now g error code h))) = false /\
  isRequesting (handleStreamError t e1 e2 now g error code h) = false.
Proof.
  intros ->. unfold handleStreamError. rewrite Nat.eqb_refl. cbn [negb].
  split; [|by rewrite dispatch_requesting]. apply dispatch_settles; [done|]. cbn. by rewrite flush_generation.
Qed.

Lemma response_settles t e1 e2 now now' response h : handler_ok h ->
  let h' := sendNonStreamingChat_end t e1 e2 now (requestGeneration h) response h in
  isPendingAssistantMessage (last (shown now' h')) = false /\ isRequesting h' = false.
Proof.
  intros Hok h'. unfold h', sendNonStreamingChat_end.
  assert (ignored (requestGeneration h) h = false) as ->.
  { unfold ignored. rewrite Nat.eqb_refl, orb_false_r. apply bool_decide_eq_false. intros Hin.
    pose proof (ok_aborted h Hok) as H. rewrite Forall_forall in H. specialize (H _ Hin). cbn in H. lia. }
  set (x := match response with inl _ => _ | inr _ => _ end).
  assert (requestGeneration x = requestGeneration h /\ isPendingAssistantMessage (last (shown now' x)) = false) as [Hg Hx].
  { unfold x. destruct response as [choices|error].
    - destruct (hasChatCompletionChoice choices) eqn:E; cbn [negb].
      + rewrite dispatch_generation. split; [done|]. by apply dispatch_settles.
      + split; [|by apply error_settles]. unfold handleStreamError. rewrite Nat.eqb_refl. cbn [negb].
        rewrite dispatch_generation. cbn. apply flush_generation.
    - split; [|by apply error_settles]. unfold handleStreamError. rewrite Nat.eqb_refl. cbn [negb].
      rewrite dispatch_generation. cbn. apply flush_generation. }
  rewrite finish_shown. split; [done|]. unfold finishRequest. by rewrite Hg, Nat.eqb_refl.
Qed.

(** *** The text of an answer *)

(** The ways to cut a list in two. *)
Definition cuts {A} (l : list A) : list (list A * list A) :=
  map (fun n => (take n l, drop n l)) (seq 0 (S (length l))).

Lemma in_cuts {A} (a b : list A) : In (a, b) (cuts (a ++ b)).
Proof.
  apply in_map_iff. exists (length a). rewrite take_app_length, drop_app_length. split; [done|].
  apply in_seq. rewrite length_app. lia.
Qed.

(** No run of chunks starts with the text of the run before it: where it does, the
    later text is taken for a snapshot that replaces the earlier. *)
Definition lossless (chunks : list jstring) : bool :=
  forallb (fun c1 => forallb (fun c2 => forallb (fun c3 =>
    negb (truthy (concat c2.1) && startsWith (concat c3.1) (concat c2.1)))
    (cuts c2.2)) (cuts c1.2)) (cuts chunks).

Lemma lossless_merge a x y c :
  lossless (a ++ x ++ y ++ c) = true -> mergeContent (concat x) (concat y) = concat (x ++ y).
Proof.
  intros H. unfold lossless in H. rewrite forallb_forall in H. specialize (H _ (in_cuts a (x ++ y ++ c))). cbn [fst snd] in H.
  rewrite forallb_forall in H. specialize (H _ (in_cuts x (y ++ c))). cbn [fst snd] in H.
  rewrite forallb_forall in H. specialize (H _ (in_cuts y c)). cbn [fst snd] in H.
  unfold mergeContent. apply negb_true_iff in H. by rewrite H, concat_app.
Qed.

(** The content chunks a request receives, and the events of a stream: chunks of the text and of reasoning, plugin
    events, timers, renders, and callbacks of earlier requests. *)
Definition chunk_of (g : nat) (e : ChatEvent) : option jstring :=
  match e with EUpdate _ _ _ _ g' u_content c => if (g' =? g)%nat then Some c else None | _ => None end.
Definition chunks_of (g : nat) (es : list ChatEvent) : list jstring := omap (chunk_of g) es.
Definition streams (g : nat) (e : ChatEvent) : bool :=
  is_tick e || stale g e || match e with EUpdate _ _ _ _ g' _ _ => (g' =? g)%nat | _ => false end.

(** An update of the request, and the chunks of the text it carries. *)
Inductive carried (g : nat) : Update -> list jstring -> Prop :=
| carried_flush r x : carried g (UFlush g r (concat x)) x
| carried_plugin i e : carried g (UPlugin g i e) [].

(** The chunks received are shown, wait in updates, or wait for the timer. *)
Definition streaming (g : nat) (pre : list Message) (chunks rest : list jstring) (h : Handler) : Prop :=
  requestGeneration h = g /\ p_generation (pendingStreamChunks h) = g /\
  exists m a batches p,
    messages h = pre ++ [m] /\ from m = ASSISTANT /\ isAssistantMessagePending m = true /\
    getMessageContent m = concat a /\ Forall2 (carried g) (updates h) batches /\
    pending_content (pendingStreamChunks h) = concat p /\
    chunks = a ++ concat batches ++ p ++ rest.

Lemma update_last_snoc pre m f :
  from m = ASSISTANT -> updateLastAssistantMessage (pre ++ [m]) f = pre ++ [f m].
Proof.
  intros Hm. unfold updateLastAssistantMessage. rewrite last_snoc, bool_decide_eq_true_2 by done.
  rewrite length_app. cbn. replace (length pre + 1 - 1)%nat with (length pre + 0)%nat by lia.
  by rewrite insert_app_r.
Qed.

Lemma pending_not_error m : isAssistantMessagePending m = true -> status m <> Some ERROR.
Proof. unfold isAssistantMessagePending. by destruct (status m) as [[]|]. Qed.

Lemma content_update_keeps m chunk now : status m <> Some ERROR ->
  let m' := applyStreamingChunk m c_reasoning chunk now in
  getMessageContent m' = getMessageContent m /\ from m' = from m /\ status m' = Some STREAMING.
Proof. intros Hs m'. unfold m', applyStreamingChunk. by rewrite bool_decide_eq_false_2. Qed.

Lemma plugin_applied g now before m i e :
  from m = ASSISTANT -> isAssistantMessagePending m = true ->
  exists m', applyUpdate g now (before ++ [m]) (UPlugin g i e) = before ++ [m'] /\
    from m' = ASSISTANT /\ isAssistantMessagePending m' = true /\ getMessageContent m' = getMessageContent m.
Proof.
  intros Hf Hp. cbn [applyUpdate]. rewrite Nat.eqb_refl. cbn [negb]. rewrite update_last_snoc by done.
  eexists. split; [reflexivity|]. unfold appendPluginEvent.
  by rewrite (bool_decide_eq_false_2 (status m = Some ERROR)) by by apply pending_not_error.
Qed.

(** Reasoning of a batch leaves the text alone. *)
Lemma reasoning_applied m r now : from m = ASSISTANT -> isAssistantMessagePending m = true ->
  let m1 := if truthy r then applyStreamingChunk m c_reasoning r now else m in
  getMessageContent m1 = getMessageContent m /\ from m1 = ASSISTANT /\ isAssistantMessagePending m1 = true.
Proof.
  intros Hf Hp m1. unfold m1. destruct (truthy r); [|done].
  destruct (content_update_keeps m r now (pending_not_error m Hp)) as (-> & -> & Es).
  split; [done|]. split; [done|]. unfold isAssistantMessagePending. by rewrite Es.
Qed.

(** One update reaches the message. *)
Lemma update_applied g now pre m a u x c :
  from m = ASSISTANT -> isAssistantMessagePending m = true -> getMessageContent m = concat a ->
  carried g u x -> lossless (a ++ x ++ c) = true ->
  exists m', applyUpdate g now (pre ++ [m]) u = pre ++ [m'] /\
    from m' = ASSISTANT /\ isAssistantMessagePending m' = true /\ getMessageContent m' = concat (a ++ x).
Proof.
  intros Hf Hp Hc [r x'|i e] Hl; [|rewrite app_nil_r, <- Hc; by apply plugin_applied].
  cbn [applyUpdate]. rewrite Nat.eqb_refl. cbn [negb]. rewrite update_last_snoc by done.
  eexists. split; [reflexivity|]. destruct (reasoning_applied m r now Hf Hp) as (C1 & F1 & P1). set (m1 := if truthy r then _ else m) in *.
  destruct (truthy (concat x')) eqn:Et.
  - destruct (content_chunk m1 (concat x') now (pending_not_error m1 P1)) as (H1 & H2 & H3 & _).
    rewrite H3. split; [done|]. split; [unfold isAssistantMessagePending; by rewrite H2|].
    rewrite H1, C1, Hc. by apply (lossless_merge [] a x' c).
  - apply truthy_false in Et. split; [done|]. split; [done|]. by rewrite concat_app, Et, app_nil_r, C1.
Qed.

Lemma updates_applied g now pre m a us batches c :
  from m = ASSISTANT -> isAssistantMessagePending m = true -> getMessageContent m = concat a ->
  Forall2 (carried g) us batches -> lossless (a ++ concat batches ++ c) = true ->
  exists m', foldl (applyUpdate g now) (pre ++ [m]) us = pre ++ [m'] /\
    from m' = ASSISTANT /\ isAssistantMessagePending m' = true /\ getMessageContent m' = concat (a ++ concat batches).
Proof.
  intros Hf Hp Hc Hb. revert m a Hf Hp Hc. induction Hb as [|u x us batches Hu _ IH]; intros m a Hf Hp Hc Hl.
  { exists m. by rewrite app_nil_r. }
  cbn [concat foldl] in *. rewrite <- app_assoc in Hl.
  destruct (update_applied g now pre m a u x (concat batches ++ c)) as (m1 & E & F1 & P1 & C1); try done. rewrite E.
  destruct (IH m1 (a ++ x)) as (m2 & E2 & F2 & P2 & C2); try done; [by rewrite <- app_assoc|].
  exists m2. by rewrite app_assoc.
Qed.

Lemma streaming_render g now pre chunks rest h :
  lossless chunks = true -> streaming g pre chunks rest h -> streaming g pre chunks rest (render now h).
Proof.
  intros Hl (Hg & Hpg & m & a & bs & p & Hm & Hf & Hs & Hc & Hu & Hp & ->).
  destruct (updates_applied g now pre m a (updates h) bs (p ++ rest)) as (m' & E & F & P & C); try done.
  split; [done|]. split; [done|]. exists m', (a ++ concat bs), [], p. cbn.
  rewrite Hg, Hm, E, <- app_assoc. by split_and!; try done; constructor.
Qed.

(** An update joins the others, or reaches the message at once; [p'] is what waits for the timer then. *)
Lemma streaming_dispatch eager g now pre chunks rest h u x p' :
  lossless chunks = true -> requestGeneration h = g -> p_generation (pendingStreamChunks h) = g -> carried g u x ->
  pending_content (pendingStreamChunks h) = concat p' ->
  (exists m a batches, messages h = pre ++ [m] /\ from m = ASSISTANT /\ isAssistantMessagePending m = true /\
     getMessageContent m = concat a /\ Forall2 (carried g) (updates h) batches /\
     chunks = a ++ concat batches ++ x ++ p' ++ rest) ->
  streaming g pre chunks rest (onMessageUpdate eager now u h).
Proof.
  intros Hl Hg Hpg Hx Hp (m & a & bs & Hm & Hf & Hs & Hc & Hu & ->).
  destruct (dispatch_shape eager now u h) as (l & us & E & _). split; [by rewrite E|]. split; [by rewrite E|]. clear E l us.
  assert (forall l us, l = pre ++ [m] -> us = updates h ++ [u] -> exists m' a' batches p,
    messages (setMessages l us h) = pre ++ [m'] /\ from m' = ASSISTANT /\ isAssistantMessagePending m' = true /\
    getMessageContent m' = concat a' /\ Forall2 (carried g) (updates (setMessages l us h)) batches /\
    pending_content (pendingStreamChunks (setMessages l us h)) = concat p /\
    a ++ concat bs ++ x ++ p' ++ rest = a' ++ concat batches ++ p ++ rest) as Hlater.
  { intros l us -> ->. exists m, a, (bs ++ [x]), p'. cbn. split_and!; try done.
    - by apply Forall2_app; [|constructor].
    - rewrite concat_app. cbn. by rewrite app_nil_r, <- !app_assoc. }
  unfold onMessageUpdate. destruct eager, (updates h) as [|v us] eqn:Eu; [|by apply Hlater..].
  apply Forall2_nil_inv_l in Hu as ->. cbn [concat app] in *.
  destruct (update_applied g now pre m a u x (p' ++ rest)) as (m' & E & F & P & C); try done.
  exists m', (a ++ x), [], p'. cbn. rewrite Hg, Hm, E, <- app_assoc. by split_and!; try done; constructor.
Qed.

(** A flush moves the waiting text into an update, or into the message. *)
Lemma streaming_flush eager g now pre chunks rest h :
  lossless chunks = true -> streaming g pre chunks rest h ->
  streaming g pre chunks rest (flushStreamUpdates eager now g h) /\
  pending_content (pendingStreamChunks (flushStreamUpdates eager now g h)) = [].
Proof.
  intros Hl Hst. pose proof Hst as (Hg & Hpg & m & a & bs & p & Hm & Hf & Hs & Hc & Hu & Hp & E).
  unfold flushStreamUpdates. rewrite Hg, Nat.eqb_refl. cbn [negb setTimer pendingStreamChunks].
  rewrite Hpg, Nat.eqb_refl. cbn [negb].
  destruct (negb _ && negb _) eqn:Et.
  { split; [done|]. apply andb_true_iff in Et as [_ Et%negb_true_iff]. by apply truthy_false in Et. }
  rewrite Hp. set (h1 := setPending _ _). set (u := UFlush _ _ _).
  destruct (dispatch_shape eager now u h1) as (l & us & Eh & _). split; [|by rewrite Eh].
  eapply (streaming_dispatch _ _ _ _ _ _ _ _ p []); try done; [constructor|]. by exists m, a, bs.
Qed.

(** What is gathered for the timer: text, or reasoning. *)
Lemma streaming_schedule g pre chunks rest h : streaming g pre chunks rest h ->
  streaming g pre chunks rest (scheduleStreamFlush g h).
Proof. intros Hst. unfold scheduleStreamFlush. by repeat case_match. Qed.

Lemma streaming_content parse e1 e2 now nanoid g pre chunks c rest h :
  lossless chunks = true -> streaming g pre chunks (c :: rest) h ->
  streaming g pre chunks rest (handleStreamUpdate parse e1 e2 now nanoid g u_content c h).
Proof.
  intros Hl (Hg & Hpg & m & a & bs & p & Hm & Hf & Hs & Hc & Hu & Hp & E).
  unfold handleStreamUpdate. rewrite Hg, Nat.eqb_refl, Hpg, Nat.eqb_refl. cbn [negb]. apply streaming_schedule.
  split; [done|]. split; [done|]. exists m, a, bs, (p ++ [c]). cbn [setPending messages updates pendingStreamChunks pending_content].
  assert (mergePendingStreamChunk (pending_content (pendingStreamChunks h)) c = concat (p ++ [c])) as ->.
  { rewrite merge_pending, Hp, <- (lossless_merge (a ++ concat bs) p [c] rest); [cbn; by rewrite app_nil_r|].
    rewrite <- app_assoc. cbn. by rewrite <- E. }
  rewrite <- (app_assoc p [c] rest). done.
Qed.

Lemma streaming_reasoning parse e1 e2 now nanoid g pre chunks c rest h :
  streaming g pre chunks rest h -> streaming g pre chunks rest (handleStreamUpdate parse e1 e2 now nanoid g u_reasoning c h).
Proof.
  intros Hst. pose proof Hst as (Hg & Hpg & _). unfold handleStreamUpdate.
  rewrite Hg, Nat.eqb_refl, Hpg, Nat.eqb_refl. cbn [negb]. apply streaming_schedule. split; [done|]. split; [done|]. apply Hst.
Qed.

Lemma streaming_plugin parse e1 e2 now nanoid g pre chunks c rest h :
  lossless chunks = true -> streaming g pre chunks rest h ->
  streaming g pre chunks rest (handleStreamUpdate parse e1 e2 now nanoid g u_plugin_event c h).
Proof.
  intros Hl Hst. pose proof Hst as (Hg & Hpg & _). unfold handleStreamUpdate.
  rewrite Hg, Nat.eqb_refl, Hpg, Nat.eqb_refl. cbn [negb]. destruct (v ← parse c; parsePluginEventPayload v) as [ev|]; [|done].
  destruct (streaming_flush e1 g now _ _ _ _ Hl Hst) as [(Hg' & Hpg' & m & a & bs & p & Hm & Hf & Hs & Hc & Hu & Hp & E) _].
  eapply (streaming_dispatch _ _ _ _ _ _ _ _ [] p); try done; [constructor|]. by exists m, a, bs.
Qed.

Lemma streaming_run parse t es g pre chunks h rest :
  lossless chunks = true -> Forall (fun e => streams g e = true) es ->
  streaming g pre chunks (chunks_of g es ++ rest) h -> streaming g pre chunks rest (chat_run parse t h es).
Proof.
  intros Hl He. revert h. induction He as [|e es He _ IH]; intros h Hst; [done|]. cbn [chat_run foldl].
  fold (chat_run parse t (chat_step parse t h e) es). apply IH. pose proof Hst as [Hg _].
  unfold streams in He. destruct (stale g e) eqn:Es.
  { assert (chunk_of g e = None) as Ec.
    { destruct e; try done. cbn in *. destruct type; try done. apply Nat.ltb_lt in Es. by rewrite (proj2 (Nat.eqb_neq _ _)) by lia. }
    cbn in Hst. unfold chunks_of in Hst. cbn in Hst. rewrite Ec in Hst. rewrite stale_ignored; [done|by rewrite Hg]. }
  destruct e; try done; cbn [chat_step].
  - cbn in He. apply Nat.eqb_eq in He as ->. unfold chunks_of in Hst. destruct type; cbn in Hst.
    + by apply streaming_reasoning.
    + rewrite Nat.eqb_refl in Hst. by apply streaming_content.
    + by apply streaming_plugin.
  - unfold fireTimer. destruct (streamFlushTimer h) as [n|]; [|exact Hst].
    destruct (decide (n = g)) as [->|Hn]; [by apply streaming_flush|].
    rewrite flush_stale; [exact Hst|by rewrite Hg].
  - by apply streaming_render.
Qed.

Lemma complete_fields m now :
  status (completeAssistantMessage m now) = Some COMPLETE /\
  getMessageContent (completeAssistantMessage m now) = visibleContent (parseThinkTags (getMessageContent m)).
Proof.
  unfold completeAssistantMessage.
  destruct (content_assistant_timing (withStatus COMPLETE (finalizeMessage m None now)) now) as (T1 & -> & _).
  split; [done|]. destruct (finalize_fields m None now) as (F1 & _).
  unfold getMessageContent, getCurrentVersion in *. rewrite T1. cbn [versions withStatus].
  rewrite F1. unfold parseThinkTags at 2. destruct (includes _ _) eqn:E; [|done].
  unfold parseThinkTags. by rewrite E.
Qed.

(** The request completes: the flushed text and the end of the message. *)
Lemma streaming_complete e1 e2 now now' g pre chunks h :
  lossless chunks = true -> streaming g pre chunks [] h ->
  exists m', shown now' (handleStreamComplete e1 e2 now g h) = pre ++ [m'] /\
    status m' = Some COMPLETE /\ getMessageContent m' = visibleContent (parseThinkTags (concat chunks)).
Proof.
  intros Hl Hst. destruct (streaming_flush e1 g now _ _ _ _ Hl Hst) as [Hst' Hp'].
  unfold handleStreamComplete. pose proof Hst as [-> _]. rewrite Nat.eqb_refl. cbn [negb].
  set (h1 := flushStreamUpdates _ _ _ _) in *. clearbody h1.
  destruct (render_dispatch e2 now now' (UComplete g) (setRequesting false h1)) as [now'' ->].
  apply (streaming_render _ now') in Hst'; [|done].
  destruct Hst' as (Hg & _ & m & a & bs & p & Hm & Hf & Hs & Hc & Hu & Hp & E).
  change (shown now' (setRequesting false h1)) with (messages (render now' h1)). rewrite Hm.
  change (requestGeneration (setRequesting false h1)) with (requestGeneration (render now' h1)). rewrite Hg.
  cbn [applyUpdate]. rewrite Nat.eqb_refl. cbn [negb]. rewrite update_last_snoc by done.
  assert (isAssistantMessageFinal m = false) as ->.
  { unfold isAssistantMessagePending, isAssistantMessageFinal in *. by destruct (status m) as [[]|]. }
  eexists. split; [reflexivity|]. destruct (complete_fields m now'') as [C1 C2]. split; [done|]. rewrite C2, Hc.
  apply Forall2_nil_inv_l in Hu as ->. cbn in E. rewrite app_nil_r in E. subst chunks.
  rewrite concat_app, <- Hp. cbn. change (pendingStreamChunks (render now' h1)) with (pendingStreamChunks h1).
  by rewrite Hp', app_nil_r.
Qed.

Lemma send_streaming l config enabled h pre m chunks :
  c_stream config = true -> messages h = pre ++ [m] -> updates h = [] -> from m = ASSISTANT ->
  isAssistantMessagePending m = true -> getMessageContent m = [] ->
  streaming (S (requestGeneration h)) pre chunks chunks (sendChat l config enabled h).
Proof.
  intros Hs Hm Hu Hf Hp Hc. unfold sendChat. rewrite Hs. split; [done|]. split; [done|].
  exists m, [], [], []. cbn. rewrite Hu. by split_and!; try done; constructor.
Qed.

(** ** Properties *)

(** C13. How the chunks of an answer are gathered does not matter: whatever the timing of timers and renders, whatever
    reasoning and plugin events the answer sends between the chunks of its text, and whatever earlier requests still
    send, the completed message shows what is visible in the whole text, provided no run of chunks starts with the
    text of the run before it ([lossless]; such a run is taken for a snapshot, batching_loses_text). *)
Theorem chat_streams_answer parse t h pre m config enabled es e1 e2 now now' :
  messages h = pre ++ [m] -> updates h = [] -> from m = ASSISTANT ->
  isAssistantMessagePending m = true -> getMessageContent m = [] -> c_stream config = true ->
  let h1 := sendChat (messages h) config enabled h in
  let g := requestGeneration h1 in
  Forall (fun e => streams g e = true) es -> lossless (chunks_of g es) = true ->
  exists m', shown now' (handleStreamComplete e1 e2 now g (chat_run parse t h1 es)) = pre ++ [m'] /\
    status m' = Some COMPLETE /\
    getMessageContent m' = visibleContent (parseThinkTags (concat (chunks_of g es))).
Proof.
  intros Hm Hu Hf Hp Hc Hs h1 g He Hl.
  assert (g = S (requestGeneration h)) as Hg by (unfold g, h1, sendChat; by rewrite Hs).
  apply streaming_complete; [done|]. apply streaming_run; [done|done|]. rewrite app_nil_r, Hg. by apply (send_streaming _ _ _ _ pre m).
Qed.

(** C14. A request that was superseded is over: once a new one is sent, no callback of
    an earlier one, no timer and no render changes what the page shows. *)
Theorem superseded_request_is_over parse t l0 es0 l config enabled es now now' :
  let h := sendChat l config enabled (chat_run parse t (initialHandler l0) es0) in
  Forall (fun e => stale (requestGeneration h) e || is_tick e = true) es ->
  shown now' (chat_run parse t h es) = shown now h.
Proof. intros h He. apply fresh_run; [|done]. apply send_fresh, chat_run_ok, initial_ok. Qed.

(** No text is stranded: in every reachable state text that was received for the
    current request and is not flushed has its timer. *)
Theorem received_text_has_timer parse t l0 es :
  let h := chat_run parse t (initialHandler l0) es in
  let p := pendingStreamChunks h in
  p_generation p = requestGeneration h -> truthy (pending_content p) || truthy (pending_reasoning p) = true ->
  streamFlushTimer h = Some (requestGeneration h).
Proof. intros h p. apply ok_text, chat_run_ok, initial_ok. Qed.

(** C15. An answer ends: when the current request completes, fails or answers, or the
    user stops it, the page has no pending answer left at its end and is not
    requesting any more. *)
Theorem ended_answer_is_settled parse t l0 es e now :
  let h := chat_run parse t (initialHandler l0) es in
  finishes h e = true ->
  isPendingAssistantMessage (last (shown now (chat_step parse t h e))) = false /\
  isRequesting (chat_step parse t h e) = false.
Proof.
  intros h. assert (handler_ok h) as Hok by apply chat_run_ok, initial_ok. destruct e; try done; cbn [finishes chat_step].
  - intros E%Nat.eqb_eq. by apply complete_settles.
  - intros E%Nat.eqb_eq. by apply error_settles.
  - intros ->%Nat.eqb_eq. by apply response_settles.
  - intros _. unfold stopGeneration. split; [|by rewrite dispatch_requesting]. by apply dispatch_settles.
Qed.

(** ** Where text is lost *)

Definition question : Message := createUserMessage (js "k1") (js "v1") (js "Hi") 0.
Definition asked : list Message := [question; createLoadingAssistantMessage (js "k2") (js "v2") 0].
Definition streamed : PlaygroundConfig :=
  MkConfig (js "m") (js "g") (num_of_Z 1) (num_of_Z 1) (num_of_Z 100) (num_of_Z 0) (num_of_Z 0) None true.
Definition noParameters : ParameterEnabled := MkEnabled false false false false false false.
Definition noParse (s : jstring) : option jsval := None.

Definition chunk (c : string) : ChatEvent := EUpdate false false 1 [] 1 u_content (js c).
Definition flushed : list ChatEvent := [ETimer true 1; ERender 1].
Definition afterAsking (es : list ChatEvent) : Handler :=
  chat_run noParse id (initialHandler asked) (ESend asked streamed noParameters :: es).
Definition answerShown (h : Handler) : option jstring := getMessageContent <$> last (shown 2 h).

(** The chunks [ab], [a], [b]: flushed one by one they are the text [abab]; gathered
    into one batch [a], [b] look like a snapshot, and the text is [ab]. *)
Theorem batching_loses_text :
  answerShown (afterAsking (chunk "ab" :: flushed ++ chunk "a" :: flushed ++ chunk "b" :: flushed)) = Some (js "abab") /\
  answerShown (afterAsking (chunk "ab" :: flushed ++ chunk "a" :: chunk "b" :: flushed)) = Some (js "ab").
Proof. vm_compute. split; reflexivity. Qed.

(** Stopping flushes the waiting text and moves to the next generation; when the
    renderer does not run the flush at once, its own test drops the text. *)
Theorem stop_drops_waiting_text :
  answerShown (afterAsking [chunk "Hello"; EStop true false 1]) = Some (js "Hello") /\
  answerShown (afterAsking [chunk "Hello"; EStop false false 1]) = Some [].
Proof. vm_compute. split; reflexivity. Qed.

(** ** Witnesses *)

(** The text of every plugin event is read as an interim notice. *)
Definition pluginText (s : jstring) : option jsval :=
  Some (JObj [(js "type", JStr (js "interim")); (js "text", JStr s)]).

Lemma chat_streams_answer_witness :
  let es := [EUpdate false false 1 [] 1 u_reasoning (js "so"); chunk "<think>hm"; ETimer false 1; chunk "</think>"; ERender 1;
             EUpdate true true 1 [] 1 u_plugin_event (js "search"); chunk "Hello"] in
  exists m', shown 2 (handleStreamComplete false false 2 1
                (chat_run pluginText id (sendChat asked streamed noParameters (initialHandler asked)) es)) = [question; m'] /\
    status m' = Some COMPLETE /\ getMessageContent m' = js "Hello".
Proof.
  intros es.
  exact (chat_streams_answer pluginText id (initialHandler asked) [question]
    (createLoadingAssistantMessage (js "k2") (js "v2") 0) streamed noParameters es false false 2 2
    eq_refl eq_refl eq_refl eq_refl eq_refl eq_refl ltac:(repeat constructor) ltac:(vm_compute; reflexivity)).
Defined.

Lemma superseded_request_is_over_witness :
  let late := [EUpdate true true 3 [] 1 u_content (js "late"); ETimer true 3; EComplete true true 3 1; ERender 3] in
  let h := sendChat asked streamed noParameters (afterAsking [chunk "Hello"]) in
  shown 4 (chat_run noParse id h late) = shown 4 h.
Proof.
  intros late h.
  exact (superseded_request_is_over noParse id asked [ESend asked streamed noParameters; chunk "Hello"] asked streamed
    noParameters late 4 4 ltac:(repeat constructor)).
Defined.

Lemma received_text_has_timer_witness : streamFlushTimer (afterAsking [chunk "Hello"]) = Some 1%nat.
Proof.
  exact (received_text_has_timer noParse id asked [ESend asked streamed noParameters; chunk "Hello"] eq_refl eq_refl).
Defined.

Lemma ended_answer_is_settled_witness :
  isPendingAssistantMessage (last (shown 3 (chat_step noParse id (afterAsking [chunk "Hello"]) (EStop false false 2)))) = false.
Proof.
  exact (proj1 (ended_answer_is_settled noParse id asked [ESend asked streamed noParameters; chunk "Hello"]
    (EStop false false 2) 3 eq_refl)).
Defined.
