(* ===== verification/ChatSession.v ===== *)
(** * A chat, from the question to what the page shows

    The conversation hook, the chat handler and the stream controller put together
    (features/playground/hooks/use-playground-conversation.ts, use-chat-handler.ts and
    use-stream-request.ts): what the visitor asks, what the server sends, timers and renders reach
    the composed machine in any order.  A small machine says what a chat is meant to be - a
    conversation, the text received for its last answer, and whether the answer goes on, is
    complete, failed or was stopped - and the composed machine is shown to implement it. *)

From S2P Require Import Prelude JsValue Playground StreamController ChatHandler.

(** ** use-playground-conversation.ts *)

(** What the hook calls: [updateMessages] with a list or a function, and [sendChat]. *)
Inductive page_call :=
| CallUpdate (l : list Message)
| CallUpdateWith (f : list Message -> list Message)
| CallSend (l : list Message).

Definition handleSendMessage (ids : jstring * jstring * (jstring * jstring)) (now : Z) (messages : list Message)
    (text : jstring) : list page_call :=
  let nextMessages := appendUserMessagePair ids messages text now in [CallUpdate nextMessages; CallSend nextMessages].

Definition handleRegenerateMessage (ids : jstring * jstring) (now : Z) (messages : list Message) (message_key : jstring)
    : list page_call :=
  match createRegeneratedMessages ids messages message_key now with
  | None => []
  | Some nextMessages => [CallUpdate nextMessages; CallSend nextMessages]
  end.

(** The key that is edited afterwards, and the calls. *)
Definition applyEdit (ids : jstring * jstring) (now : Z) (messages : list Message) (editingMessageKey : option jstring)
    (newContent : jstring) (shouldSubmit : bool) : option jstring * list page_call :=
  match editingMessageKey with
  | Some ((_ :: _) as k) =>
      match applyMessageEdit ids messages k newContent shouldSubmit now with
      | None => (editingMessageKey, [])
      | Some editResult =>
          (None, CallUpdate (edited editResult) ::
                 if shouldSend editResult then [CallSend (edited editResult)] else [])
      end
  | _ => (editingMessageKey, [])
  end.

Definition handleDeleteMessage (message_key : jstring) : list page_call :=
  [CallUpdateWith (fun previousMessages => removeMessageByKey previousMessages message_key)].

(** ** The composed machine *)

(** [open_requests]: the requests that are not streamed and have no response yet. *)
Record Session := MkSession { controller : Controller; handler : Handler; open_requests : list nat }.

Definition initialSession (l : list Message) : Session := MkSession initialController (initialHandler l) [].

(** How a callback runs: whether the renderer takes its updates at once, when, and the id it draws. *)
Record Delivery := MkDelivery { d_eager1 : bool; d_eager2 : bool; d_now : Z; d_nanoid : jstring }.

(** What the server sends on a stream. *)
Inductive stream_event :=
| OnHeaders (request : nat) (headers : jstring + unit) (starts : bool)
| OnMessage (target : nat) (data : option jstring)
| OnErrorEvent (target : nat) (readyState : option Z) (data : option jstring)
| OnReadyState (target : nat) (eventReadyState status : option Z).

Inductive session_event :=
| Command (calls : list page_call) (config : PlaygroundConfig) (enabled : ParameterEnabled) (eager : bool) (now : Z)
| Stream (e : stream_event) (ds : nat -> Delivery)
| Respond (request : nat) (response : option (list Choice) + jsval) (d : Delivery)
| TimerFires (eager : bool) (now : Z)
| Renders (now : Z)
| StopAsked (eager1 eager2 : bool) (now : Z).

Section Sessions.
Context (parse : jstring -> option jsval) (stringify : jsval -> jstring) (t : jstring -> jstring).

Definition stream_step (e : stream_event) (c : Controller) : Controller :=
  match e with
  | OnHeaders g h b => if bool_decide (g ∈ awaiting c) then send_headers g h b c else c
  | OnMessage target d => onMessage parse stringify target d c
  | OnErrorEvent target r d => onErrorEvent parse target r d c
  | OnReadyState target r st => onReadyStateChange target r st c
  end.

(** A delta that is not a string is passed on as it is; the model keeps strings. *)
Definition chunk_text (v : jsval) : jstring := asString v.

(** A callback of the controller is one of the handler, of the same generation. *)
Definition deliver1 (d : Delivery) (k : Callback) (h : Handler) : Handler :=
  match k with
  | OnUpdate g u => handleStreamUpdate parse (d_eager1 d) (d_eager2 d) (d_now d) (d_nanoid d) g (u_type u) (chunk_text (u_chunk u)) h
  | OnComplete g => handleStreamComplete (d_eager1 d) (d_eager2 d) (d_now d) g h
  | OnError g m code => handleStreamError t (d_eager1 d) (d_eager2 d) (d_now d) g m code h
  end.

Fixpoint deliver (ds : nat -> Delivery) (n : nat) (ks : list Callback) (h : Handler) : Handler :=
  match ks with
  | [] => h
  | k :: ks => deliver ds (S n) ks (deliver1 (ds n) k h)
  end.

(** The callbacks of a step. *)
Definition new_calls (c c' : Controller) : list Callback := drop (length (called c)) (called c').

Definition page_call_step (config : PlaygroundConfig) (enabled : ParameterEnabled) (eager : bool) (now : Z) (s : Session)
    (call : page_call) : Session :=
  match call with
  | CallUpdate l => MkSession (controller s) (onMessageUpdate eager now (UPage (fun _ => l)) (handler s)) (open_requests s)
  | CallUpdateWith f => MkSession (controller s) (onMessageUpdate eager now (UPage f) (handler s)) (open_requests s)
  | CallSend l =>
      let h := sendChat l config enabled (handler s) in
      if c_stream config then MkSession (send_begin (controller s)) h (open_requests s)
      else MkSession (stop (controller s)) h (requestGeneration h :: open_requests s)
  end.

Definition session_step (s : Session) (e : session_event) : Session :=
  match e with
  | Command calls config enabled eager now => foldl (page_call_step config enabled eager now) s calls
  | Stream e ds =>
      let c := stream_step e (controller s) in
      MkSession c (deliver ds 0 (new_calls (controller s) c) (handler s)) (open_requests s)
  | Respond g response d =>
      if bool_decide (g ∈ open_requests s)
      then MkSession (controller s)
             (sendNonStreamingChat_end t (d_eager1 d) (d_eager2 d) (d_now d) g response (handler s))
             (List.filter (fun g' => negb (g' =? g)%nat) (open_requests s))
      else s
  | TimerFires eager now => MkSession (controller s) (fireTimer eager now (handler s)) (open_requests s)
  | Renders now => MkSession (controller s) (render now (handler s)) (open_requests s)
  | StopAsked e1 e2 now =>
      MkSession (stop (controller s)) (stopGeneration e1 e2 now (handler s)) (open_requests s)
  end.

Definition session_run (s : Session) (es : list session_event) : Session := foldl session_step s es.

(** ** What a chat is meant to be *)

Inductive Phase := Answering | Answered | Failed | Stopped.

(** No question yet, or the conversation before the answer, the text received for it, in the
    pieces it came in, and how far it is. *)
Inductive Chat :=
| Idle (l : list Message)
| Turn (before : list Message) (received : list jstring) (phase : Phase).

(** What happens to a chat. *)
Inductive chat_event :=
| Asked (l : list Message)
| Received (piece : jstring)
| Completed
| Refused
| Responded (content : jstring)
| WasStopped.

Definition spec_step (c : Chat) (e : chat_event) : Chat :=
  match e, c with
  | Asked l, _ => Turn (removelast l) [] Answering
  | Received x, Turn before received Answering => Turn before (received ++ [x]) Answering
  | Completed, Turn before received Answering => Turn before received Answered
  | Refused, Turn before received Answering => Turn before received Failed
  | Responded x, Turn before _ Answering => Turn before [x] Answered
  | WasStopped, Turn before received _ => Turn before received Stopped
  | _, c => c
  end.

Definition spec_run (c : Chat) (es : list chat_event) : Chat := foldl spec_step c es.

(** ** What is heard

    What the visitor does and the server sends stand for, of their own: which request is the last one,
    and what its answer comes through.  Nothing here mentions the controller or the handler. *)

(** No answer is expected any more, or the headers of the stream, the messages of a stream, or the response. *)
Inductive Link := NoAnswer | AwaitsHeaders | Reads (stream : nat) | AwaitsResponse.

(** Requests are numbered as they are made or stopped, streams as they are opened. *)
Record Line := MkLine { made : nat; opened : nat; link : Link }.

(** The text of a message of the server: that of its first choice, whatever else the message carries; [None] where
    the message is none. *)
Definition said (data : jstring) : option (list jstring) :=
  match parse data with
  | None | Some JNull => None
  | Some v =>
      Some match jget v (js "choices") with
           | JArr (choice :: _) =>
               let text := jget (jget choice (js "delta")) (js "content") in
               if jtruthy text then [chunk_text text] else []
           | _ => []
           end
  end.

Definition hear_call (config : PlaygroundConfig) (ln : Line) (call : page_call) : Line * list chat_event :=
  match call with
  | CallSend l => (MkLine (S (made ln)) (opened ln) (if c_stream config then AwaitsHeaders else AwaitsResponse), [Asked l])
  | _ => (ln, [])
  end.

Fixpoint hear_calls (config : PlaygroundConfig) (ln : Line) (calls : list page_call) : Line * list chat_event :=
  match calls with
  | [] => (ln, [])
  | call :: calls =>
      let (ln, es) := hear_call config ln call in
      let (ln, es') := hear_calls config ln calls in (ln, es ++ es')
  end.

(** The last request is over. *)
Definition over (ln : Line) (e : chat_event) : Line * list chat_event := (MkLine (made ln) (opened ln) NoAnswer, [e]).

(** The server on a stream: its headers count for the last request, its messages for the stream that is read. *)
Definition hear_stream (ln : Line) (e : stream_event) : Line * list chat_event :=
  match e, link ln with
  | OnHeaders request headers starts, AwaitsHeaders =>
      if (request =? made ln)%nat
      then match headers with
           | inl _ => over ln Refused
           | inr _ =>
               let ln' := MkLine (made ln) (S (opened ln)) (Reads (opened ln)) in
               if starts then (ln', []) else over ln' Refused
           end
      else (ln, [])
  | OnMessage target data, Reads stream =>
      if (target =? stream)%nat
      then let data := coalesce data [] in
           if jeqb data (js "[DONE]") then over ln Completed
           else match said data with
                | Some pieces => (ln, map Received pieces)
                | None => over ln Refused
                end
      else (ln, [])
  | OnErrorEvent target readyState _, Reads stream =>
      if (target =? stream)%nat && negb (bool_decide (readyState = Some 2)) then over ln Refused else (ln, [])
  | OnReadyState target (Some r) (Some status), Reads stream =>
      if (target =? stream)%nat && (2 <=? r) && negb (status =? 200) then over ln Refused else (ln, [])
  | _, _ => (ln, [])
  end.

(** Timers, renders, and what comes of earlier requests are nothing. *)
Definition hear (ln : Line) (e : session_event) : Line * list chat_event :=
  match e with
  | Command calls config _ _ _ => hear_calls config ln calls
  | Stream e _ => hear_stream ln e
  | Respond request response _ =>
      match link ln with
      | AwaitsResponse =>
          if (request =? made ln)%nat
          then over ln match response with
                       | inl (Some (c :: _)) => Responded (coalesce (ch_content c) [])
                       | _ => Refused
                       end
          else (ln, [])
      | _ => (ln, [])
      end
  | TimerFires _ _ | Renders _ => (ln, [])
  | StopAsked _ _ _ => (MkLine (S (made ln)) (opened ln) NoAnswer, [WasStopped])
  end.

Fixpoint heard (ln : Line) (es : list session_event) : list chat_event :=
  match es with
  | [] => []
  | e :: es => let (ln, heard_now) := hear ln e in heard_now ++ heard ln es
  end.

Definition no_request : Line := MkLine 0 0 NoAnswer.
End Sessions.

(** ** What the page shows of a chat *)

(** The texts the pieces of an answer may be put together to: one text after the other, but a text that repeats the
    one before it, with or without more, is a snapshot of both, and stands for both.  It matters which pieces are put
    together first, as the timers decide. *)
Inductive gathered : list jstring -> jstring -> Prop :=
| gathered_none : gathered [] []
| gathered_piece x : gathered [x] x
| gathered_append a b s u : gathered a s -> gathered b u -> s = [] \/ ~ (exists k, u = s ++ k) -> gathered (a ++ b) (s ++ u)
| gathered_snapshot a b s k : gathered a s -> gathered b (s ++ k) -> gathered (a ++ b) (s ++ k).

(** A pending answer shows a part of the text, a complete one what is visible in all of it, a failed one
    is an error, and a stopped one is over, with what is visible in a part of the text. *)
Definition answer_of (received : list jstring) (phase : Phase) (m : Message) : Prop :=
  from m = ASSISTANT /\
  match phase with
  | Answering => isAssistantMessagePending m = true /\ exists k, gathered (take k received) (getMessageContent m)
  | Answered => status m = Some COMPLETE /\
      exists s, gathered received s /\ getMessageContent m = visibleContent (parseThinkTags s)
  | Failed => status m = Some ERROR
  | Stopped => isAssistantMessagePending m = false /\
      (status m = Some ERROR \/
       exists k s, gathered (take k received) s /\ getMessageContent m = visibleContent (parseThinkTags s))
  end.

Definition shows (c : Chat) (l : list Message) : Prop :=
  match c with
  | Idle l' => l = l'
  | Turn before received phase => exists m, l = before ++ [m] /\ answer_of received phase m
  end.

(** ** Gathering *)

Lemma merge_nil s : mergeContent s [] = s.
Proof. unfold mergeContent. destruct s as [|c s]; [done|]. cbn. by rewrite app_nil_r. Qed.

Lemma nil_merge s : mergeContent [] s = s.
Proof. done. Qed.

Lemma merge_snapshot s k : mergeContent s (s ++ k) = s ++ k.
Proof. unfold mergeContent. rewrite (proj2 (startsWith_app (s ++ k) s)) by eauto. by destruct s. Qed.

Lemma merge_append s u : s = [] \/ ~ (exists k, u = s ++ k) -> mergeContent s u = s ++ u.
Proof.
  unfold mergeContent. intros [-> | Hn]; [done|]. destruct (startsWith u s) eqn:E; [|by rewrite andb_false_r].
  by apply startsWith_app in E.
Qed.

(** The hook's way of putting two texts together is one of these. *)
Lemma gathered_merge a b s u : gathered a s -> gathered b u -> gathered (a ++ b) (mergeContent s u).
Proof.
  intros Ha Hb. destruct (startsWith u s) eqn:E.
  - apply startsWith_app in E as [k ->]. rewrite merge_snapshot. by apply gathered_snapshot.
  - assert (s = [] \/ ~ (exists k, u = s ++ k)) as Hn by (right; rewrite <- startsWith_app; congruence).
    rewrite merge_append by done. by apply gathered_append.
Qed.

Lemma gathered_empty a b s : gathered a s -> gathered b [] -> gathered (a ++ b) s.
Proof. intros Ha Hb. rewrite <- (merge_nil s). by apply gathered_merge. Qed.

(** Pieces none of which repeats what is before it are simply joined. *)
Lemma gathered_lossless a s : gathered a s -> forall before after, lossless (before ++ a ++ after) = true -> s = concat a.
Proof.
  assert (forall a b s u before after,
    (forall before after, lossless (before ++ a ++ after) = true -> s = concat a) ->
    (forall before after, lossless (before ++ b ++ after) = true -> u = concat b) ->
    lossless (before ++ (a ++ b) ++ after) = true -> mergeContent s u = concat (a ++ b)) as Hmerge.
  { intros a' b s' u before after IHa IHb Hl. rewrite <- app_assoc in Hl. rewrite (IHa before (b ++ after)) by done.
    rewrite (IHb (before ++ a') after) by by rewrite <- !app_assoc.
    by apply (lossless_merge before a' b after). }
  induction 1 as [|x|a b s u _ IHa _ IHb Hn|a b s k _ IHa _ IHb]; intros before after Hl; [done|by cbn; rewrite app_nil_r|..].
  - rewrite <- merge_append by done. by apply (Hmerge a b s u before after).
  - rewrite <- merge_snapshot. by apply (Hmerge a b s (s ++ k) before after).
Qed.

Lemma gathered_prefix received k s : lossless received = true -> gathered (take k received) s -> s = concat (take k received).
Proof.
  intros Hl Hg. apply (gathered_lossless _ _ Hg [] (drop k received)). cbn. by rewrite take_drop.
Qed.

(** ** The simulation *)

Section Observed.
Context (parse : jstring -> option jsval) (stringify : jsval -> jstring) (t : jstring -> jstring).

(** What an event of the composed machine comes to, by the callbacks it makes; the simulation is of these first. *)
Definition observe_callback (k : Callback) : list chat_event :=
  match k with
  | OnUpdate _ u => match u_type u with u_content => [Received (chunk_text (u_chunk u))] | _ => [] end
  | OnComplete _ => [Completed]
  | OnError _ _ _ => [Refused]
  end.

Definition observe_call (call : page_call) : list chat_event := match call with CallSend l => [Asked l] | _ => [] end.

Definition observe (s : Session) (e : session_event) : list chat_event :=
  match e with
  | Command calls _ _ _ _ => concat (map observe_call calls)
  | Stream e _ => concat (map observe_callback (new_calls (controller s) (stream_step parse stringify e (controller s))))
  | Respond g response _ =>
      if bool_decide (g ∈ open_requests s) && negb (ignored g (handler s))
      then match response with
           | inl (Some (c :: _)) => [Responded (coalesce (ch_content c) [])]
           | _ => [Refused]
           end
      else []
  | TimerFires _ _ | Renders _ => []
  | StopAsked _ _ _ => [WasStopped]
  end.

Fixpoint observed (s : Session) (es : list session_event) : list chat_event :=
  match es with
  | [] => []
  | e :: es => observe s e ++ observed (session_step parse stringify t s e) es
  end.
End Observed.


(** The updates of a request: flushed text, and plugin events; [b] are the pieces they carry. *)
Inductive carries (g : nat) : list Update -> list jstring -> Prop :=
| carries_none : carries g [] []
| carries_flush us b r a s : carries g us b -> gathered a s -> carries g (us ++ [UFlush g r s]) (b ++ a)
| carries_plugin us b i e : carries g us b -> carries g (us ++ [UPlugin g i e]) b.

(** The conversation under the updates of the handler: what earlier ones of the page make of it,
    whichever request is current, and only updates of requests after it. *)
Definition rests_on (l : list Message) (us : list Update) (h : Handler) : Prop :=
  exists us0, updates h = us0 ++ us /\ forall g now, foldl (applyUpdate g now) (messages h) us0 = l.

(** While the answer goes on. *)
Definition answering (before : list Message) (received : list jstring) (h : Handler) : Prop :=
  let g := requestGeneration h in
  let p := pendingStreamChunks h in
  p_generation p = g /\
  exists m us a b c s, rests_on (before ++ [m]) us h /\ from m = ASSISTANT /\ isAssistantMessagePending m = true /\
    gathered a (getMessageContent m) /\ carries g us b /\ gathered c s /\ pending_content p = s /\ received = a ++ b ++ c.

(** A flush reaches the message. *)
Lemma flush_applied g now before m r s a b :
  from m = ASSISTANT -> isAssistantMessagePending m = true -> gathered a (getMessageContent m) -> gathered b s ->
  exists m', applyUpdate g now (before ++ [m]) (UFlush g r s) = before ++ [m'] /\
    from m' = ASSISTANT /\ isAssistantMessagePending m' = true /\ gathered (a ++ b) (getMessageContent m').
Proof.
  intros Hf Hp Ha Hb. cbn [applyUpdate]. rewrite Nat.eqb_refl. cbn [negb]. rewrite update_last_snoc by done.
  eexists. split; [reflexivity|]. destruct (reasoning_applied m r now Hf Hp) as (C1 & F1 & P1).
  set (m1 := if truthy r then _ else m) in *.
  destruct (truthy s) eqn:Et.
  - destruct (content_chunk m1 s now (pending_not_error m1 P1)) as (H1 & H2 & H3 & _).
    rewrite H3, H1, C1. split; [done|]. split; [unfold isAssistantMessagePending; by rewrite H2|]. by apply gathered_merge.
  - apply truthy_false in Et as ->. rewrite C1. split; [done|]. split; [done|]. by apply gathered_empty.
Qed.

(** All of them do. *)
Lemma carries_applied g now us b : carries g us b -> forall before m a,
  from m = ASSISTANT -> isAssistantMessagePending m = true -> gathered a (getMessageContent m) ->
  exists m', foldl (applyUpdate g now) (before ++ [m]) us = before ++ [m'] /\
    from m' = ASSISTANT /\ isAssistantMessagePending m' = true /\ gathered (a ++ b) (getMessageContent m').
Proof.
  induction 1 as [|us b r a' s _ IH Hs|us b i e _ IH]; intros before m a Hf Hp Ha.
  - exists m. by rewrite app_nil_r.
  - destruct (IH before m a Hf Hp Ha) as (m1 & E & F & P & G). rewrite foldl_app, E, app_assoc.
    exact (flush_applied g now before m1 r s (a ++ b) a' F P G Hs).
  - destruct (IH before m a Hf Hp Ha) as (m1 & E & F & P & G). rewrite foldl_app, E.
    destruct (plugin_applied g now before m1 i e F P) as (m2 & E2 & F2 & P2 & C2). exists m2. cbn [foldl]. by rewrite C2.
Qed.

Lemma shown_rests l us h now : rests_on l us h -> shown now h = foldl (applyUpdate (requestGeneration h) now) l us.
Proof. intros (us0 & Eu & Hu). unfold shown, render. cbn. by rewrite Eu, foldl_app, Hu. Qed.

(** An update of the handler waits behind the others, or runs at once where none waits. *)
Lemma dispatch_rests eager now u l us h : rests_on l us h ->
  rests_on l (us ++ [u]) (onMessageUpdate eager now u h) \/
  us = [] /\ rests_on (applyUpdate (requestGeneration h) now l u) [] (onMessageUpdate eager now u h).
Proof.
  intros (us0 & Eu & Hu). unfold onMessageUpdate. destruct eager, (updates h) as [|v vs] eqn:E.
  - right. symmetry in Eu. apply app_nil in Eu as [-> ->]. split; [done|]. exists []. split; [done|]. intros g now'. cbn.
    by rewrite (Hu 0%nat 0 : messages h = l).
  - left. exists us0. cbn. rewrite app_assoc, <- Eu. by split.
  - left. exists us0. cbn. symmetry in Eu. apply app_nil in Eu as [-> ->]. by split.
  - left. exists us0. cbn. rewrite app_assoc, <- Eu. by split.
Qed.

Lemma rests_fields l us h h' : updates h' = updates h -> messages h' = messages h -> rests_on l us h -> rests_on l us h'.
Proof. intros E1 E2 (us0 & Eu & Hu). exists us0. by rewrite E1, E2. Qed.

(** Flushing: the waiting text goes into an update, or into the message. *)
Lemma answering_flush eager now before received h : answering before received h ->
  let h' := flushStreamUpdates eager now (requestGeneration h) h in
  answering before received h' /\
  pending_content (pendingStreamChunks h') = [] /\ pending_reasoning (pendingStreamChunks h') = [].
Proof.
  intros (Hp & m & us & a & b & c & s & Hr & Hf & Hm & Ha & Hb & Hc & Es & ->). cbv zeta.
  unfold flushStreamUpdates. rewrite Nat.eqb_refl. cbn [negb setTimer pendingStreamChunks]. rewrite Hp, Nat.eqb_refl. cbn [negb].
  destruct (negb _ && negb _) eqn:Et.
  - apply andb_true_iff in Et as [E1%negb_true_iff%truthy_false E2%negb_true_iff%truthy_false]. cbn [pendingStreamChunks setTimer].
    split; [|done]. split; [done|]. by exists m, us, a, b, c, s.
  - set (h1 := setPending _ _). assert (rests_on (before ++ [m]) us h1) as Hr1 by (by eapply rests_fields; [..|exact Hr]).
    set (u := UFlush _ _ _). assert (pendingStreamChunks (onMessageUpdate eager now u h1) = MkPending (requestGeneration h) [] []) as Epend
      by (by destruct (dispatch_shape eager now u h1) as (? & ? & -> & _)).
    assert (requestGeneration (onMessageUpdate eager now u h1) = requestGeneration h) as Eg by (by rewrite dispatch_generation).
    rewrite Epend. split; [|done]. split; [by rewrite Epend, Eg|]. rewrite Epend, Eg. cbn [pending_content].
    destruct (dispatch_rests eager now u _ _ _ Hr1) as [Hr2 | [-> Hr2]].
    + exists m, (us ++ [u]), a, (b ++ c), [], []. split_and!; try done; [|constructor|by rewrite app_nil_r].
      apply carries_flush; [done|]. by rewrite Es.
    + inversion Hb as [E|? ? ? ? ? ? ? E|? ? ? ? ? E]; [|by destruct us..]. subst b.
      destruct (flush_applied (requestGeneration h) now before m (pending_reasoning (pendingStreamChunks h))
        (pending_content (pendingStreamChunks h)) a c Hf Hm Ha ltac:(by rewrite Es)) as (m' & E2 & F2 & P2 & G2).
      change (requestGeneration h1) with (requestGeneration h) in Hr2. unfold u in Hr2. rewrite E2 in Hr2.
      exists m', [], (a ++ c), [], [], []. split_and!; try done; [constructor..|]. by rewrite app_nil_r.
Qed.

(** A piece of the text arrives. *)
Lemma answering_content parse e1 e2 now nanoid before received x h : answering before received h ->
  answering before (received ++ [x]) (handleStreamUpdate parse e1 e2 now nanoid (requestGeneration h) u_content x h).
Proof.
  intros (Hp & m & us & a & b & c & s & Hr & Hf & Hm & Ha & Hb & Hc & Es & ->).
  unfold handleStreamUpdate. rewrite Nat.eqb_refl, Hp, Nat.eqb_refl. cbn [negb].
  assert (forall h', updates h' = updates h -> messages h' = messages h -> requestGeneration h' = requestGeneration h ->
    pendingStreamChunks h' = MkPending (requestGeneration h) (mergePendingStreamChunk (pending_content (pendingStreamChunks h)) x)
      (pending_reasoning (pendingStreamChunks h)) -> answering before ((a ++ b ++ c) ++ [x]) h') as H.
  { intros h' E1 E2 E3 E4. split; [by rewrite E3, E4|]. rewrite E3, E4. cbn [pending_content].
    exists m, us, a, b, (c ++ [x]), (mergeContent s x). split_and!; try done.
    - by eapply rests_fields; [..|exact Hr].
    - apply gathered_merge; [done|constructor].
    - by rewrite merge_pending, Es.
    - by rewrite <- !app_assoc. }
  unfold scheduleStreamFlush. cbn [setPending requestGeneration]. rewrite Nat.eqb_refl. cbn [negb].
  case_match; by apply H.
Qed.

(** Reasoning leaves the text alone. *)
Lemma answering_reasoning parse e1 e2 now nanoid before received x h : answering before received h ->
  answering before received (handleStreamUpdate parse e1 e2 now nanoid (requestGeneration h) u_reasoning x h).
Proof.
  intros (Hp & m & us & a & b & c & s & Hr & Hf & Hm & Ha & Hb & Hc & Es & ->).
  unfold handleStreamUpdate. rewrite Nat.eqb_refl, Hp, Nat.eqb_refl. cbn [negb].
  unfold scheduleStreamFlush. cbn [setPending requestGeneration]. rewrite Nat.eqb_refl. cbn [negb].
  case_match; (split; [done|]); by exists m, us, a, b, c, s.
Qed.

(** A message of an answer, under way or over, that holds a part of the text. *)
Definition held (received : list jstring) (m : Message) : Prop :=
  from m = ASSISTANT /\
  (isAssistantMessagePending m = true /\ (exists k, gathered (take k received) (getMessageContent m)) \/
   isAssistantMessagePending m = false /\
   (status m = Some ERROR \/
    exists k s, gathered (take k received) s /\ getMessageContent m = visibleContent (parseThinkTags s))).

Definition guarded (u : Update) : Prop := exists g, generation_of_update u = Some g.

Definition nothing_waits (h : Handler) : Prop :=
  pending_content (pendingStreamChunks h) = [] /\ pending_reasoning (pendingStreamChunks h) = [].

(** The answer is over, for every later render. *)
Definition settled (before : list Message) (received : list jstring) (phase : Phase) (h : Handler) : Prop :=
  nothing_waits h /\
  (exists m us, rests_on (before ++ [m]) us h /\ Forall guarded us /\ held received m) /\
  forall now, exists m, shown now h = before ++ [m] /\ answer_of received phase m.

Lemma carries_guarded g us b : carries g us b -> Forall guarded us.
Proof. induction 1; [constructor|..]; apply Forall_app; (split; [done|]); constructor; try constructor; by exists g. Qed.

Lemma from_assistant_timing m now : from (completeAssistantTiming m now) = from m.
Proof. unfold completeAssistantTiming. by destruct (negb _). Qed.

Lemma from_complete m now : from (completeAssistantMessage m now) = from m.
Proof.
  unfold completeAssistantMessage. rewrite from_assistant_timing. cbn [from withStatus].
  by destruct (finalize_fields m None now) as (_ & _ & _ & ->).
Qed.

(** The whole of the text is in the message that is completed. *)
Lemma complete_answer received m now : from m = ASSISTANT -> gathered received (getMessageContent m) ->
  answer_of received Answered (completeAssistantMessage m now).
Proof.
  intros Hf Hg. split; [by rewrite from_complete|]. destruct (complete_fields m now) as [-> ->]. split; [done|]. by eexists.
Qed.

Lemma held_over received m phase : answer_of received phase m -> phase <> Answering -> held received m.
Proof.
  intros [Hf Ha] Hp. split; [done|]. right. destruct phase; [done|..].
  - destruct Ha as [Es (s & Hg & Hc)]. split; [by unfold isAssistantMessagePending; rewrite Es|]. right.
    exists (length received), s. by rewrite firstn_all.
  - split; [by unfold isAssistantMessagePending; rewrite Ha|by left].
  - done.
Qed.

(** Stopping completes what is under way. *)
Lemma settle_answer received m now : held received m ->
  answer_of received Stopped (if isAssistantMessagePending m then completeAssistantMessage m now else m).
Proof.
  intros [Hf [[Hp (k & Hg)] | [Hp Hs]]]; rewrite Hp; [|by split].
  split; [by rewrite from_complete|]. destruct (complete_fields m now) as [Es Ec].
  split; [by unfold isAssistantMessagePending; rewrite Es|]. right. exists k, (getMessageContent m). by rewrite Ec.
Qed.

Lemma answering_held before received h : answering before received h ->
  exists m us, rests_on (before ++ [m]) us h /\ Forall guarded us /\ held received m.
Proof.
  intros (_ & m & us & a & b & c & s & Hr & Hf & Hm & Ha & Hb & _ & _ & ->). exists m, us.
  split; [done|]. split; [by eapply carries_guarded|]. split; [done|]. left. split; [done|]. exists (length a).
  by rewrite take_app_length.
Qed.

Lemma answering_shows before received h now : answering before received h ->
  exists m, shown now h = before ++ [m] /\ answer_of received Answering m.
Proof.
  intros (_ & m & us & a & b & c & s & Hr & Hf & Hm & Ha & Hb & _ & _ & ->).
  destruct (carries_applied _ now us b Hb before m a Hf Hm Ha) as (m' & E & F & P & G).
  exists m'. rewrite (shown_rests _ _ _ now Hr). split; [done|]. split; [done|]. split; [done|]. exists (length (a ++ b)).
  by rewrite app_assoc, take_app_length.
Qed.

(** The update that ends an answer. *)
Lemma answering_ends eager now u before received received' phase h :
  answering before received h -> nothing_waits h -> generation_of_update u = Some (requestGeneration h) -> phase <> Answering ->
  (forall m, held received m -> held received' m) ->
  (forall now m, from m = ASSISTANT -> isAssistantMessagePending m = true -> gathered received (getMessageContent m) ->
     exists m', applyUpdate (requestGeneration h) now (before ++ [m]) u = before ++ [m'] /\ answer_of received' phase m') ->
  settled before received' phase (onMessageUpdate eager now u h).
Proof.
  intros Ha [Hw1 Hw2] Hu Hph Hheld Hend. destruct (answering_held _ _ _ Ha) as (m0 & us0 & Hr0 & Hg0 & Hm0).
  destruct Ha as (_ & m & us & a & b & c & s & Hr & Hf & Hm & Ha & Hb & Hc & Es & Erec).
  destruct (dispatch_shape eager now u h) as (l' & us' & Eshape & _).
  assert (nothing_waits (onMessageUpdate eager now u h)) as Hw by (by rewrite Eshape).
  rewrite Hw1 in Es. subst s. split; [done|].
  assert (forall now', exists m', foldl (applyUpdate (requestGeneration h) now') (before ++ [m]) (us ++ [u]) = before ++ [m'] /\
    answer_of received' phase m') as Hlater.
  { intros now'. destruct (carries_applied _ now' us b Hb before m a Hf Hm Ha) as (m1 & E & F & P & G). rewrite foldl_app, E.
    cbn [foldl]. apply Hend; [done|done|]. rewrite Erec, app_assoc. by apply gathered_empty. }
  destruct (dispatch_rests eager now u _ _ _ Hr) as [Hr2 | [-> Hr2]].
  - split.
    + exists m, (us ++ [u]). split; [done|]. split.
      * apply Forall_app. split; [by eapply carries_guarded|]. constructor; [by exists (requestGeneration h)|constructor].
      * apply Hheld. split; [done|]. left. split; [done|]. exists (length a). by rewrite Erec, take_app_length.
    + intros now'. rewrite (shown_rests _ _ _ now' Hr2), dispatch_generation. apply Hlater.
  - destruct (Hlater now) as (m' & E & A). cbn [app foldl] in E. rewrite E in Hr2. split.
    + exists m', []. split; [done|]. split; [constructor|]. by eapply held_over.
    + intros now'. exists m'. by rewrite (shown_rests _ _ _ now' Hr2).
Qed.

Lemma answering_plugin parse e1 e2 now nanoid before received x h : answering before received h ->
  answering before received (handleStreamUpdate parse e1 e2 now nanoid (requestGeneration h) u_plugin_event x h).
Proof.
  intros Ha. pose proof Ha as [Hp _]. unfold handleStreamUpdate. rewrite Nat.eqb_refl, Hp, Nat.eqb_refl. cbn [negb].
  destruct (v ← parse x; parsePluginEventPayload v) as [ev|]; [|done].
  destruct (answering_flush e1 now _ _ _ Ha) as [Ha1 _]. pose proof (flush_generation e1 now (requestGeneration h) h) as Eg.
  set (h1 := flushStreamUpdates _ _ _ _) in *. clearbody h1. rewrite <- Eg. clear Ha Hp Eg.
  destruct Ha1 as (Hp & m & us & a & b & c & s & Hr & Hf & Hm & Ha & Hb & Hc & Es & ->).
  set (u := UPlugin _ _ _). destruct (dispatch_shape e2 now u h1) as (l' & us' & Eshape & _).
  assert (pendingStreamChunks (onMessageUpdate e2 now u h1) = pendingStreamChunks h1) as Ep by by rewrite Eshape.
  assert (requestGeneration (onMessageUpdate e2 now u h1) = requestGeneration h1) as Eg by by rewrite Eshape.
  split; [by rewrite Ep, Eg|]. rewrite Ep, Eg. destruct (dispatch_rests e2 now u _ _ _ Hr) as [Hr2 | [-> Hr2]].
  - exists m, (us ++ [u]), a, b, c, s. split_and!; try done. by apply carries_plugin.
  - destruct (plugin_applied (requestGeneration h1) now before m nanoid ev Hf Hm) as (m' & E & F & P & C).
    unfold u in Hr2. rewrite E in Hr2. exists m', [], a, b, c, s. split_and!; try done. by rewrite C.
Qed.

(** The completion of a stream. *)
Lemma answering_complete e1 e2 now before received h : answering before received h ->
  settled before received Answered (handleStreamComplete e1 e2 now (requestGeneration h) h).
Proof.
  intros Ha. unfold handleStreamComplete. rewrite Nat.eqb_refl. cbn [negb].
  destruct (answering_flush e1 now _ _ _ Ha) as (Ha1 & Hw1 & Hw2). pose proof (flush_generation e1 now (requestGeneration h) h) as Eg.
  set (h1 := flushStreamUpdates _ _ _ _) in *. clearbody h1. rewrite <- Eg.
  apply (answering_ends _ _ _ _ received); try done.
  intros now' m Hf Hm Hg. cbn [applyUpdate]. change (requestGeneration (setRequesting false h1)) with (requestGeneration h1).
  rewrite Nat.eqb_refl. cbn [negb]. rewrite update_last_snoc by done.
  assert (isAssistantMessageFinal m = false) as ->.
  { unfold isAssistantMessagePending, isAssistantMessageFinal in *. by destruct (status m) as [[]|]. }
  eexists. split; [reflexivity|]. by apply complete_answer.
Qed.

(** The failure of a request. *)
Lemma answering_error t e1 e2 now error code before received h : answering before received h ->
  settled before received Failed (handleStreamError t e1 e2 now (requestGeneration h) error code h).
Proof.
  intros Ha. unfold handleStreamError. rewrite Nat.eqb_refl. cbn [negb].
  destruct (answering_flush e1 now _ _ _ Ha) as (Ha1 & Hw1 & Hw2). pose proof (flush_generation e1 now (requestGeneration h) h) as Eg.
  set (h1 := flushStreamUpdates _ _ _ _) in *. clearbody h1. rewrite <- Eg.
  apply (answering_ends _ _ _ _ received); try done.
  intros now' m Hf Hm Hg. cbn [applyUpdate]. change (requestGeneration (addToast _ _)) with (requestGeneration h1).
  rewrite Nat.eqb_refl. cbn [negb]. unfold updateAssistantMessageWithError. rewrite update_last_snoc by done.
  eexists. split; [reflexivity|]. split; [by rewrite from_assistant_timing|].
  match goal with |- context [completeAssistantTiming ?x now'] => by destruct (content_assistant_timing x now') as (_ & -> & _) end.
Qed.

(** The response of a request that is not streamed. *)
Lemma answering_response eager now c cs before h : answering before [] h -> nothing_waits h ->
  settled before [coalesce (ch_content c) []] Answered
    (onMessageUpdate eager now (UResponse (requestGeneration h) (Some (c :: cs))) h).
Proof.
  intros Ha Hw. apply (answering_ends _ _ _ _ []); try done.
  - intros m [Hf [[Hp (k & Hg)] | [Hp H]]]; (split; [done|]); [left|right]; (split; [done|]).
    + exists 0%nat. by rewrite take_nil in Hg.
    + destruct H as [?|(k & s & Hg & Hc)]; [by left|]. right. exists 0%nat, s. by rewrite take_nil in Hg.
  - intros now' m Hf Hm _. cbn [applyUpdate]. rewrite Nat.eqb_refl. cbn [negb]. rewrite update_last_snoc by done.
    eexists. split; [reflexivity|]. cbn [applyChatCompletionResponse coalesce from_option id].
    unfold applyChatCompletionChoice. set (m1 := updateCurrentVersionContent m _).
    destruct (finalize_fields m1 (ch_reasoning c) now') as (C & _ & _ & F).
    match goal with |- context [completeAssistantTiming ?x now'] => set (m2 := x) end.
    split; [rewrite from_assistant_timing; unfold m2; cbn; by rewrite F|].
    destruct (content_assistant_timing m2 now') as (E1 & -> & _). split; [done|].
    exists (coalesce (ch_content c) []). split; [constructor|].
    assert (getMessageContent (completeAssistantTiming m2 now') = getMessageContent m2) as ->
      by (unfold getMessageContent, getCurrentVersion; by rewrite E1).
    change (getMessageContent m2) with (getMessageContent (finalizeMessage m1 (ch_reasoning c) now')). cbv zeta in C. rewrite C.
    change (getMessageContent m1) with (coalesce (ch_content c) []). generalize (coalesce (ch_content c) []). intros x.
    destruct (includes x open_tag) eqn:E; [done|]. unfold parseThinkTags. by rewrite E.
Qed.

Lemma answering_render now before received h : answering before received h -> answering before received (render now h).
Proof.
  intros (Hp & m & us & a & b & c & s & Hr & Hf & Hm & Ha & Hb & Hc & Es & ->).
  destruct (carries_applied _ now us b Hb before m a Hf Hm Ha) as (m' & E & F & P & G).
  split; [done|]. exists m', [], (a ++ b), [], c, s. split_and!; try done; [|constructor|by rewrite <- app_assoc].
  exists []. split; [done|]. intros g now'. cbn. etrans; [|exact E]. exact (shown_rests _ _ _ now Hr).
Qed.

Lemma answering_timer eager now before received h : answering before received h -> answering before received (fireTimer eager now h).
Proof.
  intros Ha. unfold fireTimer. destruct (streamFlushTimer h) as [g|]; [|done].
  destruct (decide (g = requestGeneration h)) as [->|Hg]; [by apply answering_flush|]. by rewrite flush_stale.
Qed.

(** What the end of an answer rests on. *)
Lemma settled_fields before received phase h h' : updates h' = updates h -> messages h' = messages h ->
  requestGeneration h' = requestGeneration h -> nothing_waits h' -> settled before received phase h -> settled before received phase h'.
Proof.
  intros E1 E2 E3 Hw (_ & (m & us & Hr & H) & Hs). split; [done|]. split.
  - exists m, us. split; [by eapply rests_fields; [..|exact Hr]|done].
  - intros now. destruct (Hs now) as (m' & E & A). exists m'. split; [|done]. rewrite <- E. unfold shown, render. cbn. by rewrite E1, E2, E3.
Qed.

Lemma settled_render now before received phase h : phase <> Answering -> settled before received phase h ->
  settled before received phase (render now h).
Proof.
  intros Hp (Hw & _ & Hs). destruct (Hs now) as (m & E & A). split; [done|].
  assert (rests_on (before ++ [m]) [] (render now h)) as Hr by (exists []; split; [done|]; intros g now'; exact E).
  split.
  - exists m, []. split; [done|]. split; [constructor|]. by eapply held_over.
  - intros now'. exists m. by rewrite (shown_rests _ _ _ now' Hr).
Qed.

(** Where nothing waits a flush does nothing but clear the timer. *)
Lemma flush_nothing eager now g h : nothing_waits h -> let h' := flushStreamUpdates eager now g h in
  updates h' = updates h /\ messages h' = messages h /\ requestGeneration h' = requestGeneration h /\
  pendingStreamChunks h' = pendingStreamChunks h.
Proof.
  intros [E1 E2]. unfold flushStreamUpdates. destruct (negb _); [done|]. cbn [setTimer pendingStreamChunks].
  destruct (negb _); [done|]. by rewrite E1, E2.
Qed.

Lemma timer_nothing eager now h : nothing_waits h -> let h' := fireTimer eager now h in
  updates h' = updates h /\ messages h' = messages h /\ requestGeneration h' = requestGeneration h /\
  pendingStreamChunks h' = pendingStreamChunks h.
Proof. intros Hw. unfold fireTimer. destruct (streamFlushTimer h); [by apply flush_nothing|done]. Qed.

Lemma settled_timer eager now before received phase h : settled before received phase h ->
  settled before received phase (fireTimer eager now h).
Proof.
  intros Hs. destruct (timer_nothing eager now h (proj1 Hs)) as (E1 & E2 & E3 & E4).
  apply (settled_fields _ _ _ h); try done. unfold nothing_waits. rewrite E4. apply Hs.
Qed.

(** Updates of requests before the next one are nothing to it. *)
Lemma superseded_updates l us h now : handler_ok h -> rests_on l us h -> Forall guarded us ->
  foldl (applyUpdate (S (requestGeneration h)) now) l us = l.
Proof.
  intros Hok (us0 & E & _) Hg. pose proof (ok_updates h Hok) as Hle. rewrite E in Hle. apply Forall_app in Hle as [_ Hle]. clear E.
  induction us as [|v us IH]; [done|]. apply Forall_cons in Hg as [[g Hg1] Hg2]. apply Forall_cons in Hle as [Hv Hle].
  cbn [foldl]. rewrite old_update; [|intros g' E; specialize (Hv g' E); lia]. destruct v; try done; by apply IH.
Qed.

(** The visitor stops: a new generation, and what is under way is completed. *)
Lemma stop_settles e2 now before received h m us :
  handler_ok h -> rests_on (before ++ [m]) us h -> Forall guarded us -> held received m ->
  settled before received Stopped
    (onMessageUpdate e2 now (USettle (S (requestGeneration h)))
       (setRequesting false (abort None (discardPendingStreamUpdates (S (requestGeneration h))
          (setGeneration (S (requestGeneration h)) h))))).
Proof.
  intros Hok Hr Hg Hm. set (h1 := setRequesting _ _). set (u := USettle _).
  assert (rests_on (before ++ [m]) us h1) as Hr1 by (by eapply rests_fields; [..|exact Hr]).
  destruct (dispatch_shape e2 now u h1) as (l' & us' & Eshape & _).
  assert (nothing_waits (onMessageUpdate e2 now u h1)) as Hw by (by rewrite Eshape).
  split; [done|].
  assert (forall now', applyUpdate (S (requestGeneration h)) now' (before ++ [m]) u =
    before ++ [if isAssistantMessagePending m then completeAssistantMessage m now' else m]) as Eu.
  { intros now'. cbn [applyUpdate u]. rewrite Nat.eqb_refl. cbn [negb]. by rewrite update_last_snoc by apply Hm. }
  destruct (dispatch_rests e2 now u _ _ _ Hr1) as [Hr2 | [-> Hr2]].
  - split.
    + exists m, (us ++ [u]). split; [done|]. split; [|done]. apply Forall_app. split; [done|]. constructor; [by eexists|constructor].
    + intros now'. rewrite (shown_rests _ _ _ now' Hr2), dispatch_generation, foldl_app.
      change (requestGeneration h1) with (S (requestGeneration h)). rewrite (superseded_updates _ us h now' Hok Hr Hg). cbn [foldl]. rewrite Eu.
      eexists. split; [done|]. by apply settle_answer.
  - change (requestGeneration h1) with (S (requestGeneration h)) in Hr2. rewrite Eu in Hr2.
    pose proof (settle_answer received m now Hm) as Ha. set (m' := if isAssistantMessagePending m then _ else m) in *. split.
    + exists m', []. split; [done|]. split; [constructor|]. by eapply held_over.
    + intros now'. exists m'. by rewrite (shown_rests _ _ _ now' Hr2).
Qed.

Lemma stop_answering e1 e2 now before received h : handler_ok h -> answering before received h ->
  settled before received Stopped (stopGeneration e1 e2 now h).
Proof.
  intros Hok Ha. destruct (answering_flush e1 now _ _ _ Ha) as [Ha1 _]. unfold stopGeneration.
  pose proof (flush_generation e1 now (requestGeneration h) h) as Eg.
  pose proof (flush_ok e1 now (requestGeneration h) h Hok) as Hok1.
  set (h1 := flushStreamUpdates _ _ _ _) in *. clearbody h1. rewrite <- Eg.
  destruct (answering_held _ _ _ Ha1) as (m & us & Hr & Hg & Hm). by apply (stop_settles e2 now before received h1 m us).
Qed.

Lemma stop_settled e1 e2 now before received phase h : handler_ok h -> settled before received phase h ->
  settled before received Stopped (stopGeneration e1 e2 now h).
Proof.
  intros Hok (Hw & (m & us & Hr & Hg & Hm) & _). unfold stopGeneration.
  destruct (flush_nothing e1 now (requestGeneration h) h Hw) as (E1 & E2 & Eg & _).
  pose proof (flush_ok e1 now (requestGeneration h) h Hok) as Hok1.
  set (h1 := flushStreamUpdates _ _ _ _) in *. clearbody h1. rewrite <- Eg.
  apply (stop_settles e2 now before received h1 m us); try done. by eapply rests_fields; [..|exact Hr].
Qed.

(** ** The question *)

(** A message that waits for its answer. *)
Definition waiting_answer (m : Message) : Prop :=
  from m = ASSISTANT /\ isAssistantMessagePending m = true /\ getMessageContent m = [].

(** Calls that ask: nothing, or a conversation that ends with such a message. *)
Definition asks (calls : list page_call) : Prop :=
  calls = [] \/ exists before m, waiting_answer m /\ calls = [CallUpdate (before ++ [m]); CallSend (before ++ [m])].

Lemma loading_waits i j now : waiting_answer (createLoadingAssistantMessage i j now).
Proof. done. Qed.

Lemma asks_pair l i j now : asks [CallUpdate (l ++ [createLoadingAssistantMessage i j now]); CallSend (l ++ [createLoadingAssistantMessage i j now])].
Proof. right. exists l, (createLoadingAssistantMessage i j now). split; [apply loading_waits|done]. Qed.

Lemma send_message_asks ids now l text : asks (handleSendMessage ids now l text).
Proof.
  unfold handleSendMessage, appendUserMessagePair. cbv zeta.
  set (q := createUserMessage _ _ _ _). set (m := createLoadingAssistantMessage _ _ _).
  replace (l ++ [q; m]) with ((l ++ [q]) ++ [m]) by by rewrite <- app_assoc. apply asks_pair.
Qed.

Lemma regenerate_asks ids now l k : asks (handleRegenerateMessage ids now l k).
Proof.
  unfold handleRegenerateMessage, createRegeneratedMessages. destruct (messageIndex l k) as [i|]; [|by left].
  destruct (l !! i) as [m|]; [|by left]. destruct (bool_decide _); apply asks_pair.
Qed.

(** An edited question that is sent. *)
Lemma edit_asks ids now l k text r : applyMessageEdit ids l k text true now = Some r -> shouldSend r = true ->
  asks [CallUpdate (edited r); CallSend (edited r)].
Proof.
  unfold applyMessageEdit. destruct (messageIndex l k) as [i|]; [|done]. cbv zeta.
  destruct (_ !! i) as [m|]; [|done]. destruct (negb true || _); intros [= <-]; [done|]. intros _. cbn [edited]. apply asks_pair.
Qed.

(** The page's list stands under whatever waits. *)
Lemma ask_rests eager now l h : rests_on l [] (onMessageUpdate eager now (UPage (fun _ => l)) h).
Proof.
  unfold onMessageUpdate. destruct eager, (updates h) as [|v us].
  - by exists [].
  - exists ((v :: us) ++ [UPage (fun _ => l)]). cbn. rewrite app_nil_r. split; [done|]. intros g now'. by rewrite foldl_app.
  - exists [UPage (fun _ => l)]. by split.
  - exists ((v :: us) ++ [UPage (fun _ => l)]). cbn. rewrite app_nil_r. split; [done|]. intros g now'. by rewrite foldl_app.
Qed.

Lemma ask_answers config enabled before m h : waiting_answer m -> rests_on (before ++ [m]) [] h ->
  let h' := sendChat (before ++ [m]) config enabled h in
  answering before [] h' /\ nothing_waits h' /\ requestGeneration h' = S (requestGeneration h).
Proof.
  intros (Hf & Hp & Hc) Hr h'.
  assert (updates h' = updates h /\ messages h' = messages h /\ requestGeneration h' = S (requestGeneration h) /\
    pendingStreamChunks h' = MkPending (S (requestGeneration h)) [] []) as (E1 & E2 & E3 & E4).
  { unfold h', sendChat. by destruct (c_stream config). }
  split; [|split; [unfold nothing_waits; by rewrite E4|done]]. split; [by rewrite E3, E4|].
  exists m, [], [], [], [], []. rewrite E4, Hc. split_and!; try done; try constructor. by eapply rests_fields; [..|exact Hr].
Qed.

(** ** The controller *)

(** Nothing more can come for the current request. *)
Definition quiet (c : Controller) : Prop := source c = None /\ generation c ∉ awaiting c.

Section Streams.
Context (parse : jstring -> option jsval) (stringify : jsval -> jstring).

Lemma stream_step_step e c : stream_step parse stringify e c = c \/
  exists ev, step parse stringify c ev (stream_step parse stringify e c).
Proof.
  destruct e as [g h b|target d|target r d|target r st]; cbn [stream_step].
  - case_bool_decide; [|by left]. right. exists (Headers g h b). by constructor.
  - right. exists (Message_ target d). constructor.
  - right. exists (Error_ target r d). constructor.
  - right. exists (ReadyState target r st). constructor.
Qed.

Lemma stream_step_ok e c : controller_ok c -> controller_ok (stream_step parse stringify e c).
Proof. intros H. destruct (stream_step_step e c) as [-> | [ev Hs]]; [done|]. by eapply step_ok. Qed.

(** Its callbacks: all of the current request, and nothing after the end of one. *)
Lemma stream_step_calls e c : controller_ok c ->
  called (stream_step parse stringify e c) = called c ++ new_calls c (stream_step parse stringify e c) /\
  Forall (fun k => generation_of k = generation c) (new_calls c (stream_step parse stringify e c)).
Proof.
  intros H. unfold new_calls. destruct (stream_step_step e c) as [-> | [ev Hs]].
  - rewrite drop_all, app_nil_r. by split; [|constructor].
  - destruct (step_calls _ _ _ _ _ H Hs) as (l & E & Hl). rewrite E, drop_app_length. done.
Qed.

Lemma handleError_generation target m code c : generation (handleError target m code c) = generation c /\
  awaiting (handleError target m code c) = awaiting c.
Proof. unfold handleError, closeActiveSource. repeat case_match; done. Qed.

Lemma updates_fields us g c : generation (foldl (fun c u => call (OnUpdate g u) c) c us) = generation c /\
  awaiting (foldl (fun c u => call (OnUpdate g u) c) c us) = awaiting c.
Proof. revert c. induction us as [|u us IH]; intros c; [done|]. cbn [foldl]. by destruct (IH (call (OnUpdate g u) c)) as [-> ->]. Qed.

Lemma stream_step_generation e c : generation (stream_step parse stringify e c) = generation c.
Proof.
  destruct e as [g h b|target d|target r d|target r st]; cbn [stream_step].
  - case_bool_decide; [|done]. unfold send_headers. cbv zeta. destruct (negb _); [done|]. destruct h as [m|[]]; [done|].
    destruct b; [done|].
    match goal with |- generation (handleError ?a ?b ?c ?d) = _ => by destruct (handleError_generation a b c d) as [-> _] end.
  - unfold onMessage. destruct (live target c); [|done]. case_match.
    + cbn [call generation]. unfold closeActiveSource. by case_match.
    + case_match; [apply updates_fields|apply handleError_generation].
  - unfold onErrorEvent. destruct (live target c); [|done]. case_match; [apply handleError_generation|done].
  - unfold onReadyStateChange. destruct (live target c); [|done]. case_match; [|done]. case_match; [apply handleError_generation|done].
Qed.

(** A quiet controller stays quiet and calls nobody. *)
Lemma quiet_step e c : quiet c -> quiet (stream_step parse stringify e c) /\ new_calls c (stream_step parse stringify e c) = [].
Proof.
  intros [Hs Ha]. assert (forall target, live target c = None) as Hl.
  { intros target. destruct (live target c) as [g|] eqn:E; [|done]. destruct (live_Some _ _ _ E) as [E' _]. by rewrite Hs in E'. }
  unfold new_calls. destruct e as [g h b|target d|target r d|target r st]; cbn [stream_step].
  - case_bool_decide as Hin; [|by rewrite drop_all]. unfold send_headers. cbv zeta. cbn [generation setAwaiting].
    rewrite (proj2 (Nat.eqb_neq (generation c) g)) by (by intros <-). cbn [negb called setAwaiting]. rewrite drop_all.
    split; [|done]. split; [done|]. cbn [generation awaiting setAwaiting]. by intros [? _]%elem_of_filter_neq.
  - unfold onMessage. rewrite Hl, drop_all. by split.
  - unfold onErrorEvent. rewrite Hl, drop_all. by split.
  - unfold onReadyStateChange. rewrite Hl, drop_all. by split.
Qed.

(** Once the current request has been told its end, nothing more comes for it. *)
Lemma ended_quiet c : controller_ok c -> ended (generation c) (called c) -> quiet c.
Proof.
  intros Hok He. split.
  - destruct (source c) as [s|] eqn:E; [|done]. destruct (ok_source c Hok s E) as (_ & _ & _ & _ & Hn & _). done.
  - intros Hin. by destruct (proj2 (ok_awaiting c Hok) _ Hin).
Qed.
End Streams.

(** ** The refinement *)

(** No question yet. *)
Definition idle (l : list Message) (h : Handler) : Prop :=
  nothing_waits h /\ (exists us, rests_on l us h /\ Forall guarded us) /\ (forall now, shown now h = l) /\
  isPendingAssistantMessage (last l) = false.

(** What a state of the chat is, of the handler. *)
Definition chat_state (c : Chat) (h : Handler) : Prop :=
  match c with
  | Idle l => idle l h
  | Turn before received Answering => answering before received h
  | Turn before received phase => settled before received phase h
  end.

Lemma state_shows c h now : chat_state c h -> shows c (shown now h).
Proof.
  destruct c as [l|before received []]; cbn [chat_state shows].
  - intros (_ & _ & Hs & _). apply Hs.
  - intros Ha. by apply answering_shows.
  - intros (_ & _ & Hs). apply Hs.
  - intros (_ & _ & Hs). apply Hs.
  - intros (_ & _ & Hs). apply Hs.
Qed.

Lemma idle_fields l h h' : updates h' = updates h -> messages h' = messages h -> requestGeneration h' = requestGeneration h ->
  nothing_waits h' -> idle l h -> idle l h'.
Proof.
  intros E1 E2 E3 Hw (_ & (us & Hr & Hg) & Hs & Hp). split; [done|]. split; [|split; [|done]].
  - exists us. split; [by eapply rests_fields; [..|exact Hr]|done].
  - intros now. rewrite <- (Hs now). unfold shown, render. cbn. by rewrite E1, E2, E3.
Qed.

(** The current request has not been aborted. *)
Lemma current_not_ignored h : handler_ok h -> ignored (requestGeneration h) h = false.
Proof.
  intros Hok. unfold ignored. rewrite Nat.eqb_refl, orb_false_r. apply bool_decide_eq_false. intros Hin.
  pose proof (ok_aborted h Hok) as H. rewrite Forall_forall in H. specialize (H _ Hin). cbn in H. lia.
Qed.

(** Stopping without a question: the conversation is as it was. *)
Lemma settle_nothing g now l : isPendingAssistantMessage (last l) = false -> applyUpdate g now l (USettle g) = l.
Proof.
  intros Hp. cbn [applyUpdate]. rewrite Nat.eqb_refl. cbn [negb]. unfold updateLastAssistantMessage.
  destruct (last l) as [m|] eqn:E; [|done]. cbn [isPendingAssistantMessage] in Hp. case_bool_decide; [|done].
  cbn [andb] in Hp. rewrite Hp. apply list_insert_id. apply last_Some in E as [k ->]. rewrite length_app. cbn [length].
  by replace (length k + 1 - 1)%nat with (length k) by lia; rewrite lookup_app_r, Nat.sub_diag.
Qed.

Lemma stop_idle e1 e2 now l h : handler_ok h -> idle l h -> idle l (stopGeneration e1 e2 now h).
Proof.
  intros Hok (Hw & (us & Hr & Hg) & Hs & Hp). unfold stopGeneration.
  destruct (flush_nothing e1 now (requestGeneration h) h Hw) as (E1 & E2 & Eg & _).
  pose proof (flush_ok e1 now (requestGeneration h) h Hok) as Hok1.
  set (h1 := flushStreamUpdates _ _ _ _) in *. clearbody h1. rewrite <- Eg.
  assert (rests_on l us h1) as Hr1 by (by eapply rests_fields; [..|exact Hr]). clear Hr Hs E1 E2 Eg Hok.
  set (h2 := setRequesting _ _). set (u := USettle _).
  assert (rests_on l us h2) as Hr2 by (by eapply rests_fields; [..|exact Hr1]).
  destruct (dispatch_shape e2 now u h2) as (l' & us' & Eshape & _).
  split; [unfold nothing_waits; by rewrite Eshape|].
  destruct (dispatch_rests e2 now u _ _ _ Hr2) as [Hr3 | [-> Hr3]].
  - split; [|split; [|done]].
    + exists (us ++ [u]). split; [done|]. apply Forall_app. split; [done|]. constructor; [by eexists|constructor].
    + intros now'. rewrite (shown_rests _ _ _ now' Hr3), dispatch_generation, foldl_app.
      change (requestGeneration h2) with (S (requestGeneration h1)). rewrite (superseded_updates _ us h1 now' Hok1 Hr1 Hg). by apply settle_nothing.
  - change (requestGeneration h2) with (S (requestGeneration h1)) in Hr3. unfold u in Hr3 at 1. rewrite settle_nothing in Hr3 by done.
    split; [|split; [|done]]; [by exists []|]. intros now'. by rewrite (shown_rests _ _ _ now' Hr3).
Qed.

Section Refinement.
Context (parse : jstring -> option jsval) (stringify : jsval -> jstring) (t : jstring -> jstring).
#[local] Abbreviation deliver := (deliver parse t).
#[local] Abbreviation session_step := (session_step parse stringify t).
#[local] Abbreviation session_run := (session_run parse stringify t).
#[local] Abbreviation observe := (observe parse stringify).

Lemma tick_state c h e : is_tick e = true -> chat_state c h -> chat_state c (chat_step parse t h e).
Proof.
  destruct e as [| | | | |eager now| |now| |]; try done; intros _; cbn [chat_step]; destruct c as [l|before received []]; cbn [chat_state].
  - intros Hi. destruct (timer_nothing eager now h (proj1 Hi)) as (E1 & E2 & E3 & E4).
    apply (idle_fields l h); try done. unfold nothing_waits. rewrite E4. apply Hi.
  - apply answering_timer.
  - apply settled_timer.
  - apply settled_timer.
  - apply settled_timer.
  - intros (Hw & _ & Hs & Hp). split; [done|]. split; [|split; [|done]].
    + exists []. split; [|constructor]. exists []. split; [done|]. intros g now'. apply (Hs now).
    + intros now'. apply (Hs now).
  - apply answering_render.
  - by apply settled_render.
  - by apply settled_render.
  - by apply settled_render.
Qed.

(** Nothing follows an end. *)
Definition ends_last (ks : list Callback) : Prop := forall a k b, ks = a ++ k :: b -> is_terminal k = true -> b = [].

Lemma deliver1_generation d k h : requestGeneration (deliver1 parse t d k h) = requestGeneration h.
Proof.
  destruct k as [g u|g|g m code]; cbn [deliver1].
  - unfold handleStreamUpdate, scheduleStreamFlush. repeat case_match; rewrite ?dispatch_generation, ?flush_generation; done.
  - unfold handleStreamComplete. case_match; [done|]. rewrite dispatch_generation. apply flush_generation.
  - unfold handleStreamError. case_match; [done|]. rewrite dispatch_generation. apply flush_generation.
Qed.

Lemma deliver1_ok d k h : handler_ok h -> handler_ok (deliver1 parse t d k h).
Proof. destruct k; cbn [deliver1]; intros Hok; [by apply chat_update_ok|by apply complete_ok|by apply error_ok]. Qed.

Lemma deliver_ok ds ks n h : handler_ok h -> handler_ok (deliver ds n ks h) /\
  requestGeneration (deliver ds n ks h) = requestGeneration h.
Proof.
  revert n h. induction ks as [|k ks IH]; intros n h Hok; [done|]. cbn.
  destruct (IH (S n) (deliver1 parse t (ds n) k h)) as [H1 H2]; [by apply deliver1_ok|]. split; [done|].
  by rewrite H2, deliver1_generation.
Qed.

(** The callbacks of the current request, one after the other. *)
Lemma deliver_state ds ks : forall n before received h, answering before received h ->
  Forall (fun k => generation_of k = requestGeneration h) ks -> ends_last ks ->
  let c := spec_run (Turn before received Answering) (concat (map observe_callback ks)) in
  chat_state c (deliver ds n ks h) /\
  (exists received' phase, c = Turn before received' phase /\ (phase = Answering -> Forall (fun k => is_terminal k = false) ks) /\
    (phase <> Answering -> exists k, In k ks /\ is_terminal k = true)).
Proof.
  induction ks as [|k ks IH]; intros n before received h Ha Hg Hl; [split; [done|]; by exists received, Answering|].
  apply Forall_cons in Hg as [Hk Hg]. cbn [map concat]. unfold spec_run. rewrite foldl_app. cbn [ChatSession.deliver].
  assert (is_terminal k = false \/ ks = []) as Hcase.
  { destruct (is_terminal k) eqn:E; [right|by left]. by apply (Hl [] k ks). }
  assert (ends_last ks) as Hl' by (intros a k' b ->; by apply (Hl (k :: a))).
  assert (forall h1, requestGeneration h1 = requestGeneration h -> Forall (fun k => generation_of k = requestGeneration h1) ks) as Hg'
    by (by intros h1 ->).
  destruct k as [g u|g|g m code]; cbn [generation_of] in Hk; subst g.
  - assert (exists received1, foldl spec_step (Turn before received Answering) (observe_callback (OnUpdate (requestGeneration h) u)) =
      Turn before received1 Answering /\ answering before received1 (deliver1 parse t (ds n) (OnUpdate (requestGeneration h) u) h))
      as (received1 & E & Ha1).
    { destruct u as [[] x]; cbn [observe_callback u_type u_chunk foldl spec_step deliver1].
      - exists received. split; [done|]. by apply answering_reasoning.
      - exists (received ++ [chunk_text x]). split; [done|]. by apply answering_content.
      - exists received. split; [done|]. by apply answering_plugin. }
    rewrite E. destruct (IH (S n) before received1 _ Ha1 (Hg' _ (deliver1_generation _ _ _)) Hl') as (H1 & r' & ph & E' & H2 & H3).
    split; [exact H1|]. exists r', ph. split; [exact E'|]. split; [intros Hph; constructor; [done|by apply H2]|].
    intros Hph. destruct (H3 Hph) as (k & Hk & Ht). exists k. split; [by right|done].
  - destruct Hcase as [? | ->]; [done|]. cbn [map concat foldl ChatSession.deliver observe_callback spec_step deliver1].
    split; [by apply answering_complete|]. exists received, Answered. split_and!; [done|done|]. intros _. eexists. split; [by left|done].
  - destruct Hcase as [? | ->]; [done|]. cbn [map concat foldl ChatSession.deliver observe_callback spec_step deliver1].
    split; [by apply answering_error|]. exists received, Failed. split_and!; [done|done|]. intros _. eexists. split; [by left|done].
Qed.

(** The composed machine and the chat. *)
Record simulates (c : Chat) (s : Session) : Prop := {
  sim_controller : controller_ok (controller s);
  sim_handler : handler_ok (handler s);
  sim_generation : generation (controller s) = requestGeneration (handler s);
  sim_open : Forall (fun g => (g <= requestGeneration (handler s))%nat) (open_requests s);
  sim_current : requestGeneration (handler s) ∈ open_requests s -> quiet (controller s) /\
    nothing_waits (handler s) /\ exists before, c = Turn before [] Answering;
  sim_state : chat_state c (handler s);
  sim_over : match c with
    | Turn _ _ Answering => ~ ended (generation (controller s)) (called (controller s))
    | _ => quiet (controller s)
    end
}.

Lemma orderly_ends_last l ks g : orderly (l ++ ks) -> Forall (fun k => generation_of k = g) ks -> ends_last ks.
Proof.
  intros Ho Hg a k b -> Hk. destruct b as [|k' b] using rev_ind; [done|]. exfalso. clear IHb.
  rewrite app_comm_cons, !app_assoc in Ho. inversion Ho as [E|l' k'' _ Hn E]; [by destruct (l ++ a)|].
  apply app_inj_tail in E as [-> ->]. apply Hn. rewrite Forall_app, Forall_cons, Forall_app in Hg.
  destruct Hg as (_ & Hgk & _ & Hgk'). apply Forall_inv in Hgk'. exists k. split; [|by rewrite Hgk'].
  rewrite <- !app_assoc. apply in_or_app. right. apply in_or_app. right. by left.
Qed.

Lemma not_ended g l ks : ~ ended g l -> Forall (fun k => is_terminal k = false) ks -> ~ ended g (l ++ ks).
Proof.
  intros Hn Hk (k & [Hin|Hin]%in_app_or & Ht & Hg); [apply Hn; by exists k|].
  rewrite Forall_forall in Hk. specialize (Hk k (proj2 (list_elem_of_In _ _) Hin)). cbn in Hk. congruence.
Qed.

Lemma sim_stream c s e ds : simulates c s ->
  simulates (spec_run c (observe s (Stream e ds))) (session_step s (Stream e ds)).
Proof.
  intros [Hc Hh Hg Ho Hcur Hst Hover]. cbn [ChatSession.observe ChatSession.session_step]. set (ctl := stream_step _ _ _ _).
  pose proof (stream_step_ok parse stringify e _ Hc) as Hc'. fold ctl in Hc'.
  destruct (stream_step_calls parse stringify e _ Hc) as [Ecall Hgen]. fold ctl in Ecall, Hgen.
  pose proof (stream_step_generation parse stringify e (controller s)) as Eg. fold ctl in Eg.
  destruct (deliver_ok ds (new_calls (controller s) ctl) 0 (handler s) Hh) as [Hh' Eh].
  assert (quiet (controller s) -> simulates (spec_run c (concat (map observe_callback (new_calls (controller s) ctl))))
    (MkSession ctl (deliver ds 0 (new_calls (controller s) ctl) (handler s)) (open_requests s))) as Hquiet.
  { intros Hq. destruct (quiet_step parse stringify e _ Hq) as [Hq' En]. fold ctl in Hq', En. rewrite En in *. cbn.
    rewrite app_nil_r in Ecall. constructor; cbn; try done; [by rewrite Eg|intros Hin; destruct (Hcur Hin) as (_ & ? & ?); by split|].
    destruct c as [|? ? []]; try done. by rewrite Eg, Ecall. }
  destruct c as [l|before received phase]; [by apply Hquiet|]. destruct phase; try (by apply Hquiet).
  destruct (decide (requestGeneration (handler s) ∈ open_requests s)) as [Hin|Hin]; [by apply Hquiet, Hcur|]. clear Hquiet.
  cbn [chat_state] in Hst. rewrite Hg in Hgen. pose proof (ok_calls _ Hc') as Hord. rewrite Ecall in Hord.
  destruct (deliver_state ds (new_calls (controller s) ctl) 0 before received (handler s) Hst Hgen (orderly_ends_last _ _ _ Hord Hgen))
    as (Hst' & r' & ph & Ec & Hph & Hend). rewrite Ec in *. constructor; cbn [controller handler open_requests]; try done.
  - by rewrite Eg, Eh, Hg.
  - by rewrite Eh.
  - by rewrite Eh.
  - assert (ph <> Answering -> quiet ctl) as Hq.
    { intros (k & Hk & Ht)%Hend. apply ended_quiet; [done|]. rewrite Eg, Ecall. exists k. split; [apply in_or_app; by right|].
      split; [done|]. rewrite Forall_forall in Hgen. by rewrite Hg, (Hgen k) by by apply list_elem_of_In. }
    destruct ph; try (by apply Hq). rewrite Eg, Ecall. apply not_ended; [done|by apply Hph].
Qed.

Lemma sim_tick c s h e : is_tick e = true -> h = chat_step parse t (handler s) e -> simulates c s ->
  simulates c (MkSession (controller s) h (open_requests s)).
Proof.
  intros He -> [Hc Hh Hg Ho Hcur Hst Hover].
  assert (requestGeneration (chat_step parse t (handler s) e) = requestGeneration (handler s)) as Eg.
  { destruct e; try done; cbn [chat_step]. unfold fireTimer. destruct (streamFlushTimer (handler s)); [apply flush_generation|done]. }
  constructor; cbn [controller handler open_requests]; rewrite ?Eg; try done.
  - by apply chat_step_ok.
  - intros Hin. destruct (Hcur Hin) as (Hq & Hw & Hb). split_and!; try done.
    destruct e as [| | | | |eager now| |now| |]; try done; cbn [chat_step].
    destruct (timer_nothing eager now _ Hw) as (_ & _ & _ & E). unfold nothing_waits. by rewrite E.
  - by apply tick_state.
Qed.

Lemma not_ended_yet c : controller_ok c -> ~ ended (S (generation c)) (called c).
Proof. intros Hok (k & Hk & _ & Hg). pose proof (ok_past c Hok k Hk). lia. Qed.

Lemma stop_quiet c : controller_ok c ->
  quiet (stop c) /\ controller_ok (stop c) /\ generation (stop c) = S (generation c) /\ called (stop c) = called c.
Proof.
  intros Hok. pose proof (supersede_ok c Hok) as Hok'.
  assert (generation (stop c) = S (generation c) /\ called (stop c) = called c /\ awaiting (stop c) = awaiting c /\ source (stop c) = None)
    as (E1 & E2 & E3 & E4) by (unfold stop, cancel, dropSource; cbn; by destruct (source c)).
  split; [|done]. split; [done|]. rewrite E1, E3. intros [Hle _]%(proj2 (ok_awaiting c Hok)). lia.
Qed.

Lemma fresh_request g (l : list nat) : Forall (fun g' => (g' <= g)%nat) l -> S g ∉ l.
Proof. intros Hl Hin. rewrite Forall_forall in Hl. specialize (Hl _ Hin). cbn in Hl. lia. Qed.

Lemma sim_ask c s calls config enabled eager now : asks calls -> simulates c s ->
  let e := Command calls config enabled eager now in simulates (spec_run c (observe s e)) (session_step s e).
Proof.
  intros [-> | (before & m & Hm & ->)] Hsim; [done|]. destruct Hsim as [Hc Hh Hg Ho _ _ _].
  cbn [ChatSession.observe ChatSession.session_step map observe_call concat app spec_run foldl spec_step page_call_step handler open_requests controller].
  rewrite removelast_last. set (h1 := onMessageUpdate _ _ _ _).
  assert (handler_ok h1) as Hh1 by by apply dispatch_ok. assert (requestGeneration h1 = requestGeneration (handler s)) as Eg1 by apply dispatch_generation.
  destruct (ask_answers config enabled before m h1 Hm (ask_rests eager now _ _)) as (Ha & Hw & Eg).
  pose proof (send_ok (before ++ [m]) config enabled h1 Hh1) as Hh2. cbv zeta.
  set (h2 := sendChat _ _ _ _) in *. clearbody h2. rewrite Eg1, <- Hg in Eg. rewrite <- Hg in Ho.
  pose proof (fresh_request _ _ Ho) as Hfresh. pose proof (not_ended_yet _ Hc) as Hnot.
  destruct (c_stream config).
  - assert (generation (send_begin (controller s)) = S (generation (controller s)) /\ called (send_begin (controller s)) = called (controller s))
      as (E1 & E2) by (unfold send_begin, dropSource; cbn; by destruct (source (controller s))).
    constructor; cbn [controller handler open_requests chat_state]; rewrite ?Eg, ?E1, ?E2; try done.
    + by apply send_begin_ok.
    + eapply Forall_impl; [exact Ho|]. cbn. lia.
  - destruct (stop_quiet _ Hc) as (Hq & Hok & E1 & E2).
    constructor; cbn [controller handler open_requests chat_state]; rewrite ?Eg, ?E1, ?E2; try done.
    + constructor; [done|]. eapply Forall_impl; [exact Ho|]. cbn. lia.
    + intros _. split_and!; [done|done|]. by exists before.
Qed.

Lemma sim_stop c s e1 e2 now : simulates c s ->
  let e := StopAsked e1 e2 now in simulates (spec_run c (observe s e)) (session_step s e).
Proof.
  intros [Hc Hh Hg Ho _ Hst _] e. cbn [ChatSession.observe ChatSession.session_step e spec_run foldl].
  destruct (stop_quiet _ Hc) as (Hq & Hok & E1 & E2). pose proof (stop_ok e1 e2 now _ Hh) as Hh'.
  assert (requestGeneration (stopGeneration e1 e2 now (handler s)) = S (generation (controller s))) as Eg.
  { unfold stopGeneration. rewrite dispatch_generation. cbn. by rewrite Hg. }
  assert (chat_state (spec_step c WasStopped) (stopGeneration e1 e2 now (handler s))) as Hst'.
  { destruct c as [l|before received []]; cbn [chat_state spec_step] in *.
    - by apply stop_idle.
    - by apply stop_answering.
    - by apply (stop_settled _ _ _ _ _ Answered).
    - by apply (stop_settled _ _ _ _ _ Failed).
    - by apply (stop_settled _ _ _ _ _ Stopped). }
  rewrite <- Hg in Ho. pose proof (fresh_request _ _ Ho) as Hfresh.
  constructor; cbn [controller handler open_requests]; rewrite ?Eg, ?E1, ?E2; try done.
  - eapply Forall_impl; [exact Ho|]. cbn. lia.
  - by destruct c as [|? ? []].
Qed.

Lemma answered_request s g : Forall (fun g => (g <= requestGeneration (handler s))%nat) (open_requests s) ->
  Forall (fun g => (g <= requestGeneration (handler s))%nat) (List.filter (fun g' => negb (g' =? g)%nat) (open_requests s)) /\
  g ∉ List.filter (fun g' => negb (g' =? g)%nat) (open_requests s).
Proof.
  intros Ho. split; [|by intros [_ ?]%elem_of_filter_neq]. rewrite Forall_forall in *. intros x [Hx _]%elem_of_filter_neq. by apply Ho.
Qed.

(** The response to the current request ends it. *)
Lemma respond_settles before h d response : handler_ok h -> answering before [] h -> nothing_waits h ->
  let h' := sendNonStreamingChat_end t (d_eager1 d) (d_eager2 d) (d_now d) (requestGeneration h) response h in
  (exists received phase,
    spec_run (Turn before [] Answering)
      match response with inl (Some (c :: _)) => [Responded (coalesce (ch_content c) [])] | _ => [Refused] end =
    Turn before received phase /\ phase <> Answering /\ settled before received phase h') /\
  requestGeneration h' = requestGeneration h /\ handler_ok h'.
Proof.
  intros Hok Ha Hw. pose proof (chat_step_ok parse t h (EResponse (d_eager1 d) (d_eager2 d) (d_now d) (requestGeneration h) response) Hok) as Hok'.
  cbn [chat_step] in Hok'. cbv zeta. unfold sendNonStreamingChat_end in *. rewrite current_not_ignored in * by done.
  set (x := match response with inl _ => _ | inr _ => _ end) in *.
  assert (requestGeneration x = requestGeneration h) as Eg.
  { unfold x. destruct response as [choices|error]; [destruct (negb _)|]; [|apply dispatch_generation|];
      unfold handleStreamError; rewrite Nat.eqb_refl; cbn [negb]; rewrite dispatch_generation; apply flush_generation. }
  assert (requestGeneration (finishRequest (requestGeneration h) x) = requestGeneration h) as Eg' by (unfold finishRequest; by case_match).
  split; [|done].
  assert (forall received phase, settled before received phase x -> settled before received phase (finishRequest (requestGeneration h) x)) as Hf.
  { intros received phase Hx. apply (settled_fields _ _ _ x); try done; unfold finishRequest; case_match; try done; apply Hx. }
  unfold x. destruct response as [[[|c cs]|]|error]; cbn [hasChatCompletionChoice negb spec_run foldl spec_step].
  - exists [], Failed. split_and!; [done|done|]. apply Hf. by apply answering_error.
  - eexists _, Answered. split_and!; [done|done|]. apply Hf. by apply answering_response.
  - exists [], Failed. split_and!; [done|done|]. apply Hf. by apply answering_error.
  - exists [], Failed. split_and!; [done|done|]. apply Hf. by apply answering_error.
Qed.

Lemma sim_respond c s g response d : simulates c s ->
  let e := Respond g response d in simulates (spec_run c (observe s e)) (session_step s e).
Proof.
  intros Hsim e. pose proof Hsim as [Hc Hh Hg Ho Hcur Hst Hover]. cbn [ChatSession.observe ChatSession.session_step e].
  case_bool_decide as Hin; [|done]. cbn [andb]. destruct (answered_request s g Ho) as [Ho' Hnin].
  destruct (decide (g = requestGeneration (handler s))) as [->|Hne].
  - destruct (Hcur Hin) as (Hq & Hw & before & ->). cbn [chat_state] in Hst. rewrite current_not_ignored by done. cbn [negb].
    destruct (respond_settles before _ d response Hh Hst Hw) as ((received & phase & Ec & Hph & Hs) & Eg & Hh').
    rewrite Ec. constructor; cbn [controller handler open_requests]; rewrite ?Eg; try done.
    + by destruct phase.
    + by destruct phase.
  - assert (g < requestGeneration (handler s))%nat as Hlt.
    { rewrite Forall_forall in Ho. specialize (Ho g Hin). cbn in Ho. lia. }
    assert (ignored g (handler s) = true) as Hig.
    { unfold ignored. rewrite (proj2 (Nat.eqb_neq _ g)) by lia. apply orb_true_r. }
    pose proof (stale_ignored parse t (EResponse (d_eager1 d) (d_eager2 d) (d_now d) g response) (handler s)) as Hstale.
    cbn [chat_step stale of_request] in Hstale. rewrite Hstale by by apply Nat.ltb_lt. rewrite Hig. cbn [negb spec_run foldl].
    constructor; cbn [controller handler open_requests]; try done. intros [Hin' _]%elem_of_filter_neq. by apply Hcur.
Qed.

(** Every event but edits and deletions. *)
Definition chat_only (e : session_event) : Prop := match e with Command calls _ _ _ _ => asks calls | _ => True end.

Lemma sim_step c s e : chat_only e -> simulates c s -> simulates (spec_run c (observe s e)) (session_step s e).
Proof.
  intros He Hs. destruct e as [calls config enabled eager now|e ds|g response d|eager now|now|e1 e2 now].
  - by apply sim_ask.
  - by apply sim_stream.
  - by apply sim_respond.
  - by apply (sim_tick _ _ _ (ETimer eager now)).
  - by apply (sim_tick _ _ _ (ERender now)).
  - by apply sim_stop.
Qed.

Lemma sim_run es : forall c s, Forall chat_only es -> simulates c s ->
  simulates (spec_run c (observed parse stringify t s es)) (session_run s es).
Proof.
  induction es as [|e es IH]; intros c s Hes Hs; [done|]. apply Forall_cons in Hes as [He Hes]. cbn [observed].
  unfold spec_run. rewrite foldl_app. apply IH; [done|]. by apply sim_step.
Qed.

Lemma initial_simulates l : isPendingAssistantMessage (last l) = false -> simulates (Idle l) (initialSession l).
Proof.
  intros Hp. constructor; cbn; try done; try (by apply initial_ok).
  - apply (reachable_ok parse stringify), at_start.
  - by intros ?%elem_of_nil.
  - split; [done|]. split; [exists []; split; [by exists []|constructor]|]. by split.
  - split; [done|]. by intros ?%elem_of_nil.
Qed.
End Refinement.

(** ** What is heard is what the machine observes *)

Section Lines.
Context (parse : jstring -> option jsval) (stringify : jsval -> jstring) (t : jstring -> jstring).
#[local] Abbreviation stream_step := (stream_step parse stringify).
#[local] Abbreviation hear_stream := (hear_stream parse).

(** What the link is, of the controller; [asked]: the current request is not streamed and has no response yet. *)
Definition link_ok (l : Link) (asked : Prop) (c : Controller) : Prop :=
  match l with
  | NoAnswer => quiet c /\ ~ asked
  | AwaitsHeaders => source c = None /\ generation c ∈ awaiting c /\ ~ asked
  | Reads i => source c = Some i /\ ~ asked
  | AwaitsResponse => quiet c /\ asked
  end.

Record line_ok (ln : Line) (asked : Prop) (c : Controller) : Prop := MkLineOk {
  line_made : made ln = generation c;
  line_opened : opened ln = length (created c);
  line_link : link_ok (link ln) asked c
}.

Lemma live_none target c : source c <> Some target -> live target c = None.
Proof. intros H. destruct (live target c) as [g|] eqn:E; [|done]. by destruct (live_Some _ _ _ E). Qed.

Lemma live_source target c : controller_ok c -> source c = Some target -> live target c = Some (generation c).
Proof.
  intros Hok Hs. destruct (ok_source c Hok _ Hs) as (s & E & Hg & Hd & _). unfold live. rewrite E, Hg, Hd.
  by rewrite !bool_decide_eq_true_2.
Qed.

Lemma error_finishes target m code c : controller_ok c -> source c = Some target ->
  handleError target m code c = finish target (OnError (generation c) m code) c.
Proof.
  intros Hok Hs. unfold handleError, closeActiveSource. rewrite live_source by done. cbn. rewrite Hs.
  by rewrite bool_decide_eq_true_2.
Qed.

Lemma new_call c c' l : called c' = called c ++ l -> new_calls c c' = l.
Proof. unfold new_calls. intros ->. apply drop_app_length. Qed.

Lemma no_call c : new_calls c c = [].
Proof. unfold new_calls. apply drop_all. Qed.

Lemma finish_line ln asked target k c : ~ asked -> controller_ok c -> source c = Some target -> line_ok ln asked c ->
  line_ok (MkLine (made ln) (opened ln) NoAnswer) asked (finish target k c) /\ new_calls c (finish target k c) = [k].
Proof.
  intros Ha Hok Hs [E1 E2 _]. destruct (ok_source c Hok _ Hs) as (_ & _ & _ & _ & _ & Hw).
  split; [|by apply new_call]. split; cbn; [done|by rewrite length_alter|done].
Qed.

(** The updates of a message. *)
Lemma updates_run g us : forall c, let c' := foldl (fun c u => call (OnUpdate g u) c) c us in
  source c' = source c /\ generation c' = generation c /\ created c' = created c /\ awaiting c' = awaiting c /\
  called c' = called c ++ map (OnUpdate g) us.
Proof.
  induction us as [|u us IH]; intros c; cbn [foldl map]; [by rewrite app_nil_r|].
  destruct (IH (call (OnUpdate g u) c)) as (E1 & E2 & E3 & E4 & E5). rewrite E1, E2, E3, E4, E5. cbn.
  by rewrite <- app_assoc.
Qed.

(** The text of a message is that of its updates. *)
Definition text_of_update (u : StreamMessageUpdate) : list jstring :=
  match u_type u with u_content => [chunk_text (u_chunk u)] | _ => [] end.

Lemma said_updates data :
  said parse data = (fun us => concat (map text_of_update us)) <$> parseStreamMessageUpdates parse stringify data.
Proof.
  unfold said, parseStreamMessageUpdates. destruct (parse data) as [v|]; [|done].
  assert (forall r c p, concat (map text_of_update ((if jtruthy r then [MkUpdate u_reasoning r] else []) ++
      (if jtruthy c then [MkUpdate u_content c] else []) ++
      (if jtruthy p then [MkUpdate u_plugin_event (JStr (stringify p))] else []))) = if jtruthy c then [chunk_text c] else []) as Hu
    by (intros r c p; by destruct (jtruthy r), (jtruthy c), (jtruthy p)).
  assert (forall k, jtruthy (jget JUndefined k) = false) as H0 by done.
  destruct v as [| | | | | |fields]; try done. set (v := JObj fields).
  destruct (jget v (js "choices")) as [| | | | |[|choice l]|]; try done.
  destruct (jtruthy (jget choice (js "delta"))) eqn:Ed; cbn [negb fmap option_fmap option_map].
  - by rewrite Hu.
  - by destruct (jget choice (js "delta")).
Qed.

Lemma observe_updates g us :
  concat (map observe_callback (map (OnUpdate g) us)) = map Received (concat (map text_of_update us)).
Proof. induction us as [|[[] x] us IH]; [done|..]; cbn in *; by rewrite <- IH. Qed.

(** Where nothing is read, nothing is heard. *)
Lemma quiet_created e c : quiet c -> created (stream_step e c) = created c.
Proof.
  intros [Hs Ha]. assert (forall target, live target c = None) as Hl by (intros target; apply live_none; by rewrite Hs).
  destruct e as [g h b|target d|target r d|target r st]; cbn [ChatSession.stream_step].
  - case_bool_decide as Hin; [|done]. unfold send_headers. cbv zeta. cbn [generation setAwaiting].
    by rewrite (proj2 (Nat.eqb_neq (generation c) g)) by (by intros <-).
  - unfold onMessage. by rewrite Hl.
  - unfold onErrorEvent. by rewrite Hl.
  - unfold onReadyStateChange. by rewrite Hl.
Qed.

Lemma quiet_heard ln asked e c : quiet c -> (link ln = NoAnswer \/ link ln = AwaitsResponse) -> line_ok ln asked c ->
  line_ok (hear_stream ln e).1 asked (stream_step e c) /\
  concat (map observe_callback (new_calls c (stream_step e c))) = (hear_stream ln e).2.
Proof.
  intros Hq Hl [E1 E2 E3]. destruct (quiet_step parse stringify e c Hq) as [Hq' ->].
  assert (hear_stream ln e = (ln, [])) as ->.
  { destruct e as [g h b|target d|target r d|target [r|] [st|]], Hl as [Hl|Hl]; cbn; by rewrite ?Hl. }
  split; [|done]. split; [by rewrite stream_step_generation|by rewrite quiet_created|].
  cbn [fst]. destruct Hl as [Hl|Hl]; rewrite Hl in E3 |- *; destruct E3; by split.
Qed.

(** Headers of the last request, and of earlier ones. *)
Lemma headers_heard ln asked g h b c : controller_ok c -> link ln = AwaitsHeaders -> line_ok ln asked c ->
  line_ok (hear_stream ln (OnHeaders g h b)).1 asked (stream_step (OnHeaders g h b) c) /\
  concat (map observe_callback (new_calls c (stream_step (OnHeaders g h b) c))) = (hear_stream ln (OnHeaders g h b)).2.
Proof.
  intros Hok Hl [E1 E2 E3]. cbn [ChatSession.stream_step ChatSession.hear_stream]. rewrite Hl in *. destruct E3 as (Es & Eg & Ha).
  rewrite E1. destruct (Nat.eqb_spec g (generation c)) as [->|Hn].
  - rewrite bool_decide_eq_true_2 by done. unfold send_headers. cbn [generation setAwaiting]. rewrite Nat.eqb_refl. cbn [negb].
    assert (generation c ∉ List.filter (fun g => negb (g =? generation c)%nat) (awaiting c)) as Hnin by by intros [_ ?]%elem_of_filter_neq.
    destruct h as [message|[]].
    + rewrite (new_call c _ [OnError (generation c) message None]) by done. by repeat split.
    + destruct b.
      * split; [split; cbn; [done|rewrite length_app; cbn; lia|]|by rewrite (new_call c _ []) by (cbn; by rewrite app_nil_r)].
        by rewrite E2.
      * unfold handleError, live. cbn [created setAwaiting]. rewrite lookup_app_r, Nat.sub_diag by done.
        cbn [lookup list_lookup generation source s_generation s_completed setAwaiting].
        rewrite !bool_decide_eq_true_2 by done. cbn [negb andb]. unfold closeActiveSource, close. cbn [source setCompleted call].
        rewrite bool_decide_eq_true_2 by done.
        rewrite (new_call c _ [OnError (generation c) STREAM_START_ERROR None]) by done.
        split; [|done]. split; [done|cbn; rewrite length_alter, length_app; cbn; lia|by repeat split].
  - case_bool_decide as Hin; [|rewrite no_call; split; [split; [done|done|cbn [fst]; rewrite Hl; by repeat split]|done]].
    unfold send_headers. cbn [generation setAwaiting]. rewrite (proj2 (Nat.eqb_neq (generation c) g)) by done. cbn [negb].
    split; [|by rewrite (new_call c _ []) by (cbn; by rewrite app_nil_r)]. split; [done|done|]. cbn [fst]. rewrite Hl. split; [done|].
    split; [|done]. cbn. apply list_elem_of_In, filter_In. split; [by apply list_elem_of_In|].
    by rewrite (proj2 (Nat.eqb_neq _ _)).
Qed.

(** The stream that is read. *)
Lemma read_heard ln asked i e c : controller_ok c -> link ln = Reads i -> line_ok ln asked c ->
  line_ok (hear_stream ln e).1 asked (stream_step e c) /\
  concat (map observe_callback (new_calls c (stream_step e c))) = (hear_stream ln e).2.
Proof.
  intros Hok Hl Hln. pose proof Hln as [E1 E2 E3]. rewrite Hl in E3. destruct E3 as [Es Ha].
  assert (forall target, target <> i -> live target c = None) as Hother by (intros target Hn; apply live_none; congruence).
  assert (line_ok ln asked c /\ concat (map observe_callback (new_calls c c)) = []) as Hsame by by rewrite no_call.
  assert (forall m code, line_ok (over ln Refused).1 asked (handleError i m code c) /\
    concat (map observe_callback (new_calls c (handleError i m code c))) = (over ln Refused).2) as Hend.
  { intros m code. rewrite (error_finishes i m code c Hok Es).
    by destruct (finish_line ln asked i (OnError (generation c) m code) c Ha Hok Es Hln) as [? ->]. }
  destruct e as [g h b|target d|target r d|target r st]; cbn [ChatSession.stream_step ChatSession.hear_stream]; rewrite Hl.
  - case_bool_decide as Hin; [|done]. destruct (ok_source c Hok _ Es) as (_ & _ & _ & _ & _ & Hw).
    unfold send_headers. cbn [generation setAwaiting]. rewrite (proj2 (Nat.eqb_neq (generation c) g)) by (by intros <-).
    cbn [negb]. split; [|by rewrite (new_call c _ []) by (cbn; by rewrite app_nil_r)]. split; [done|done|]. cbn [fst]. rewrite Hl. by split.
  - unfold onMessage. destruct (Nat.eqb_spec target i) as [->|Hn]; [|by rewrite Hother].
    rewrite live_source by done. unfold isStreamDoneMessage. destruct (jeqb _ _).
    { assert (call (OnComplete (generation c)) (closeActiveSource i (setCompleted i c)) = finish i (OnComplete (generation c)) c) as ->.
      { unfold closeActiveSource. cbn. rewrite Es. by rewrite bool_decide_eq_true_2. }
      by destruct (finish_line ln asked i (OnComplete (generation c)) c Ha Hok Es Hln) as [? ->]. }
    rewrite said_updates. destruct (parseStreamMessageUpdates _ _ _) as [us|]; cbn [fmap option_fmap option_map]; [|apply Hend].
    destruct (updates_run (generation c) us c) as (U1 & U2 & U3 & U4 & U5). rewrite (new_call _ _ _ U5), observe_updates.
    split; [|done]. split; [by rewrite U2|by rewrite U3|]. cbn [fst]. rewrite Hl. split; [by rewrite U1|done].
  - unfold onErrorEvent. destruct (Nat.eqb_spec target i) as [->|Hn]; [|by rewrite Hother]. rewrite live_source by done.
    unfold isStreamClosedReadyState. cbn [andb]. destruct (negb _); [apply Hend|done].
  - unfold onReadyStateChange. destruct (Nat.eqb_spec target i) as [->|Hn]; [|rewrite Hother by done; by destruct r, st].
    rewrite live_source by done. unfold getStreamReadyStateError. destruct r as [r|], st as [st|]; try done. cbn [andb].
    destruct ((2 <=? r) && negb (st =? 200)); [apply Hend|done].
Qed.

(** An event of a stream is heard as the machine observes it. *)
Lemma stream_heard ln asked e c : controller_ok c -> line_ok ln asked c ->
  line_ok (hear_stream ln e).1 asked (stream_step e c) /\
  concat (map observe_callback (new_calls c (stream_step e c))) = (hear_stream ln e).2.
Proof.
  intros Hok Hln. destruct (link ln) as [| |i|] eqn:Hl.
  - apply quiet_heard; [|by left|done]. pose proof (line_link _ _ _ Hln) as H. rewrite Hl in H. apply H.
  - assert (forall target, live target c = None) as Hdead.
    { intros target. apply live_none. destruct Hln as [_ _ H]. rewrite Hl in H. by destruct H as [-> _]. }
    destruct e as [g h b|target d|target r d|target r st]; [by apply headers_heard|..];
      cbn [ChatSession.stream_step ChatSession.hear_stream]; rewrite Hl.
    + unfold onMessage. by rewrite Hdead, no_call.
    + unfold onErrorEvent. by rewrite Hdead, no_call.
    + unfold onReadyStateChange. rewrite Hdead, no_call. by destruct r, st.
  - by apply (read_heard ln asked i).
  - apply quiet_heard; [|by right|done]. pose proof (line_link _ _ _ Hln) as H. rewrite Hl in H. apply H.
Qed.


#[local] Abbreviation session_step := (session_step parse stringify t).
#[local] Abbreviation session_run := (session_run parse stringify t).
#[local] Abbreviation hear := (hear parse).

(** The line of a session. *)
Definition on_line (ln : Line) (s : Session) : Prop :=
  line_ok ln (generation (controller s) ∈ open_requests s) (controller s).

Lemma hear_ask ln s calls config enabled eager now : asks calls -> (exists c, simulates c s) -> on_line ln s ->
  let e := Command calls config enabled eager now in
  on_line (hear ln e).1 (session_step s e) /\ observe parse stringify s e = (hear ln e).2.
Proof.
  intros Ha [c Hsim] Hln e. pose proof (sim_generation _ _ (sim_ask parse stringify t c s calls config enabled eager now Ha Hsim)) as Eg.
  destruct Ha as [-> | (before & m & _ & ->)]; [by split|].
  destruct Hsim as [Hc _ Hg Ho _ _ _]. destruct Hln as [E1 E2 _]. rewrite <- Hg in Ho. pose proof (fresh_request _ _ Ho) as Hf.
  unfold e. cbn [ChatSession.observe ChatSession.hear map observe_call concat app hear_calls hear_call fst snd].
  split; [|done]. cbn [ChatSession.session_step foldl page_call_step handler controller open_requests] in Eg |- *.
  set (h := sendChat _ _ _ _) in *. clearbody h. unfold on_line. destruct (c_stream config); cbn [controller open_requests] in *.
  - assert (generation (send_begin (controller s)) = S (generation (controller s)) /\ source (send_begin (controller s)) = None /\
      length (created (send_begin (controller s))) = length (created (controller s)) /\
      S (generation (controller s)) ∈ awaiting (send_begin (controller s))) as (F1 & F2 & F3 & F4).
    { unfold send_begin, dropSource. cbn. destruct (source (controller s)); cbn; split_and!; try done; by left. }
    split; cbn [made opened link]; [by rewrite F1, E1|by rewrite F3|]. cbn [link_ok]. by rewrite F1.
  - destruct (stop_quiet _ Hc) as (Hq & _ & F1 & _).
    assert (length (created (stop (controller s))) = length (created (controller s))) as F3.
    { unfold stop, cancel, dropSource. cbn. by destruct (source (controller s)). }
    split; cbn [made opened link]; [by rewrite F1, E1|by rewrite F3|]. split; [done|]. rewrite Eg. by left.
Qed.

Lemma hear_respond ln s g response d : (exists c, simulates c s) -> on_line ln s ->
  let e := Respond g response d in
  on_line (hear ln e).1 (session_step s e) /\ observe parse stringify s e = (hear ln e).2.
Proof.
  intros [c [Hc Hh Hg Ho _ _ _]] Hln e. unfold e, on_line. destruct Hln as [E1 E2 E3].
  assert (g ∈ open_requests s -> ignored g (handler s) = negb (g =? generation (controller s))%nat) as Hig.
  { intros Hin. rewrite Hg. destruct (Nat.eqb_spec g (requestGeneration (handler s))) as [->|Hn]; [by apply current_not_ignored|].
    unfold ignored. rewrite (proj2 (Nat.eqb_neq _ g)) by done. apply orb_true_r. }
  assert (forall x, x ∈ List.filter (fun g' => negb (g' =? g)%nat) (open_requests s) <-> x ∈ open_requests s /\ x <> g) as Hf.
  { intros x. rewrite !list_elem_of_In, filter_In, negb_true_iff. by rewrite Nat.eqb_neq. }
  cbn [ChatSession.observe ChatSession.hear]. rewrite E1.
  assert (controller (session_step s (Respond g response d)) = controller s) as -> by (cbn; by case_bool_decide).
  assert (generation (controller s) ∈ open_requests (session_step s (Respond g response d)) <->
    generation (controller s) ∈ open_requests s /\ (generation (controller s) <> g)) as Ho'.
  { cbn [ChatSession.session_step]. case_bool_decide; cbn [open_requests]; [apply Hf|]. split; [|tauto].
    intros Hin. split; [done|]. by intros <-. }
  destruct (Nat.eqb_spec g (generation (controller s))) as [->|Hn].
  - destruct (link ln) eqn:Hl; cbn [link_ok] in E3.
    1-3: rewrite bool_decide_eq_false_2 by tauto; split; [split; [done..|cbn [fst]; rewrite Hl; cbn [link_ok]; tauto]|done].
    rewrite bool_decide_eq_true_2, Hig by tauto. cbn [negb andb over fst snd].
    split; [split; [done|done|cbn [link link_ok]; tauto]|]. by destruct response as [[[|]|]|].
  - assert ((if bool_decide (g ∈ open_requests s) && negb (ignored g (handler s)) then
      match response with inl (Some (c :: _)) => [Responded (coalesce (ch_content c) [])] | _ => [Refused] end else []) = []) as ->.
    { case_bool_decide as Hin; [|done]. by rewrite Hig. }
    assert (line_ok ln (generation (controller s) ∈ open_requests (session_step s (Respond g response d))) (controller s)) as Hsame.
    { split; [done|done|]. destruct (link ln); cbn [link_ok] in *; rewrite Ho'; intuition congruence. }
    by destruct (link ln).
Qed.

Lemma hear_step c ln s e : chat_only e -> simulates c s -> on_line ln s ->
  on_line (hear ln e).1 (session_step s e) /\ observe parse stringify s e = (hear ln e).2.
Proof.
  intros He Hsim Hln. destruct e as [calls config enabled eager now|e ds|g response d|eager now|now|e1 e2 now].
  - apply hear_ask; [done|by exists c|done].
  - pose proof (stream_step_generation parse stringify e (controller s)) as Eg.
    unfold on_line. cbn [ChatSession.session_step controller open_requests]. rewrite Eg.
    apply stream_heard; [apply Hsim|done].
  - apply hear_respond; [by exists c|done].
  - by split.
  - by split.
  - destruct Hsim as [Hc _ Hg Ho _ _ _]. rewrite <- Hg in Ho. pose proof (fresh_request _ _ Ho) as Hf.
    destruct (stop_quiet _ Hc) as (Hq & _ & F1 & _), Hln as [E1 E2 _].
    assert (length (created (stop (controller s))) = length (created (controller s))) as F3.
    { unfold stop, cancel, dropSource. cbn. by destruct (source (controller s)). }
    split; [|done]. unfold on_line. cbn [ChatSession.hear ChatSession.session_step fst controller open_requests]. rewrite F1.
    split; cbn [made opened link]; [by rewrite F1, E1|by rewrite F3|by split].
Qed.

Lemma heard_run es : forall c ln s, Forall chat_only es -> simulates c s -> on_line ln s ->
  observed parse stringify t s es = heard parse ln es.
Proof.
  induction es as [|e es IH]; intros c ln s Hes Hsim Hln; [done|]. apply Forall_cons in Hes as [He Hes]. cbn [observed heard].
  destruct (hear_step c ln s e He Hsim Hln) as [Hln' ->]. pose proof (sim_step parse stringify t c s e He Hsim) as Hsim'.
  destruct (hear ln e) as [ln' now_heard]. f_equal. by apply (IH (spec_run c (observe parse stringify s e))).
Qed.

Lemma initial_line l : on_line no_request (initialSession l).
Proof. split; [done|done|]. split; [split; [done|]|]; by intros ?%elem_of_nil. Qed.
End Lines.

(** ** Properties *)

(** C12. The composed page implements the chat.  Whatever the visitor asks and stops, whatever the server sends on the
    streams and in the responses, and however timers, renders and what comes of earlier requests are interleaved, the
    conversation shown is that of the chat which hears it ([heard], written over the requests, the headers and messages
    of the streams and the responses alone): a pending answer holds a part of the text the server has sent for it so
    far, whatever else its messages carried, a complete one what is visible in all of it, a failed one is an error, a
    stopped one is over.  The pieces of a text are joined, but for one that repeats the text before it, which stands
    for both ([gathered]).  The conversation is asked something by sending, regenerating or editing a message; messages
    deleted meanwhile are left out ([chat_only]). *)
Theorem session_refines_chat (parse : jstring -> option jsval) (stringify : jsval -> jstring) (t : jstring -> jstring) l es now :
  isPendingAssistantMessage (last l) = false -> Forall chat_only es ->
  shows (spec_run (Idle l) (heard parse no_request es))
    (shown now (handler (session_run parse stringify t (initialSession l) es))).
Proof.
  intros Hl Hes. pose proof (initial_simulates parse stringify l Hl) as Hi.
  rewrite <- (heard_run parse stringify t es (Idle l) no_request (initialSession l) Hes Hi (initial_line l)).
  by apply state_shows, (sim_run parse stringify t es).
Qed.

(** ** Witness

    A question, its answer in two pieces, each with a thought, a timer and a render between them, and the end. *)

Definition sample_delivery (n : nat) : Delivery := MkDelivery false false 1 [].
Definition sample_pair : jstring * jstring * (jstring * jstring) := ((js "k1", js "v1"), (js "k2", js "v2")).
Definition sample_session : list session_event :=
  [Command (handleSendMessage sample_pair 0 [] (js "Hi")) streamed noParameters false 0;
   Stream (OnHeaders 1 (inr tt) true) sample_delivery; Stream (OnMessage 0 (Some (js "Hel"))) sample_delivery;
   TimerFires false 1; Renders 1; Stream (OnMessage 0 (Some (js "lo"))) sample_delivery;
   Stream (OnMessage 0 (Some (js "[DONE]"))) sample_delivery].

(** Every message is one of a thought and a piece of the text. *)
Definition thoughtAndUpdate (data : jstring) : option jsval :=
  Some (JObj [(js "choices", JArr [JObj [(js "delta",
    JObj [(js "content", JStr data); (js "reasoning_content", JStr (js "Hm"))])]])]).

Lemma session_refines_chat_witness :
  spec_run (Idle []) (heard thoughtAndUpdate no_request sample_session) = Turn [question] [js "Hel"; js "lo"] Answered /\
  shows (spec_run (Idle []) (heard thoughtAndUpdate no_request sample_session))
    (shown 3 (handler (session_run thoughtAndUpdate noText id (initialSession []) sample_session))).
Proof.
  split; [by vm_compute|]. apply (session_refines_chat thoughtAndUpdate noText id [] sample_session 3); [done|].
  apply Forall_cons_2; [apply send_message_asks|]. repeat (apply Forall_cons_2; [exact I|]). apply Forall_nil_2.
Defined.
